(* ===== verification/_CoqProject ===== *)
-Q . S2P
Prelude.v
Bytes.v
Alloc.v
Layout.v
SafeIO.v
Chunk.v
MultiDev.v
Node.v
BTree.v
Walk.v
Split.v
Crc32c.v
Crc32cSpec.v
Cow.v
Store.v
CowCorrect.v
CowExamples.v
Codec.v
Read.v
FileRead.v
Mount.v
Pool.v
Tx.v
Extent.v
Ops.v
FsTree.v
DeletePrefix.v
FsLookup.v
InodeEdit.v
Rebuild.v
FsData.v
Trim.v
ExtentLayout.v
ExtentWrite.v
CommitCorrect.v
InodeOps.v
Entries.v
XattrOps.v
Paths.v
Create.v
CreateApi.v
Overwrite.v
Truncate.v
Remove.v
Links.v
LinkApi.v
Rename.v
Session.v
OpsExamples.v
FileExamples.v
LinkExamples.v
TruncateExamples.v
Resize.v
Reloc.v
Shrink.v
ResizeCorrect.v
TailCheck.v
Subvol.v
Api.v
Format.v
FormatItems.v
FormatLeaves.v
FormatMount.v
FormatReady.v
FormatCorrect.v
