(* ===== verification/Prelude.v ===== *)
(** * A verified model of a btrfs driver

    The program is a Go package that reads, writes, formats and resizes btrfs images
    (src/*.go).  This library translates its code into executable definitions and
    proves what makes each part correct.  Go names are kept; a definition follows its
    Go function statement by statement, errors and early returns included.

    ** How the program is put together

    A mount (fs.go) finds the partition, parses the superblock and the bootstrap
    chunk array (superblock.go), registers the devices (multidev.go), completes the
    chunk map from the chunk tree (chunk.go), resolves the root of the FS tree and
    builds the free list from everything that is live (alloc.go).  Reads (btree.go,
    dir.go, inode.go, read.go, openfile.go, lzo.go) walk B-trees through a node cache
    (nodecache.go) and the device pool.  Writes (write.go, mkdir.go, symlink.go,
    link.go, delete.go, rename.go, truncate.go, setattr.go, xattr_write.go) change the
    FS tree by copy-on-write (btree_write.go, cow.go), then commit: the ROOT_ITEM is
    updated, the extent tree is recomputed (extent_rebuild.go, extent_multilevel.go)
    and the superblock is written with its checksum (crc32c.go).  Format (format.go)
    writes a new image and mounts it; resize.go, resize_chunk.go and resize_reloc.go
    change its size; subvol.go lists and opens the trees of other subvolumes.

    ** The files

    - Prelude: errors and outcomes, the state monad [SM], machine words, lists,
      tactics and the hint database [btrfs].  Bytes: byte slices and little-endian
      accessors.  Layout: the on-disk constants (btrfs.go, harden.go).  SafeIO: the
      interface of the imported hardening helpers.
    - Alloc (alloc.go); Chunk (superblock.go); MultiDev (multidev.go); Crc32c and
      Crc32cSpec (crc32c.go and the polynomial definition of CRC-32C); Codec (the item encoders and parsers of write.go, dir.go, inode.go,
      xattr_write.go, subvol.go).
    - Node (btree.go, cow.go: keys, headers, leaf operations), BTree (searches, walks
      and the cache), Walk (the walks of a tree on disk), Read and FileRead (file and
      directory reads), Mount (fs.go, chunk.go, partition.go and the bootstrap of the
      free list), Pool (the device pool of multidev.go as a device: its writes, Sync, Size,
      Truncate and Close over backends that may be registered more than once).
    - Split (node building and splitting), Cow (the mutations of btree_write.go),
      Store (the device laws and the invariant [Inv] of nodes and free space),
      CowCorrect (their refinement theorems), CowExamples (a concrete device).
    - Tx (the state of a write operation), Extent (extent_rebuild.go,
      extent_multilevel.go, the commit of write.go), Ops (every operation of the API that
      changes files), FsTree and FsLookup (the FS tree as a finite map, [repr]), FsData
      (data extents), InodeEdit, Rebuild, ExtentLayout, ExtentWrite, CommitCorrect,
      InodeOps, Entries, XattrOps, Paths, Create, CreateApi, DeletePrefix, Overwrite, Trim,
      Truncate, Remove, Links, LinkApi, Rename, Session (their theorems), OpsExamples, FileExamples,
      LinkExamples and TruncateExamples (concrete file systems).
    - Resize, Reloc, Shrink (resize.go, resize_reloc.go, resize_chunk.go), ResizeCorrect
      and TailCheck (their theorems); Subvol (subvol.go); Api (the exported methods of
      fs.go, openfile.go and subvol.go over the node cache).
    - Format (format.go), FormatItems, FormatLeaves, FormatMount, FormatReady and
      FormatCorrect (that what it writes is a file system).

    ** The model

    A buffer is a [list byte]; integers are [Z] kept at their width by [u8], [u16],
    [u32] and [u64] where the code's type wraps.  [outcome] is a result, an error class,
    a run-time panic or a loop that ran out of fuel.  Stateful code is in the monad
    [SM S] with the state the Go code mutates: device and space manager for the tree
    mutations ([mstate]), these with the superblock and the root of the FS tree for
    operations ([txState]), and with the tree roots of the other trees for a resize.
    The device is a class, [ReaderWriterAt], with the laws [RWLaws] as hypotheses of the
    theorems: a write inside the device succeeds, is read back and leaves other ranges
    alone.  A read may fail at any time in the theorems about untrusted images; the theorems
    about operations are about a tree whose blocks can be read, so that the errors and panics
    they describe come from exhausted space, from the limits of the code and from refused
    arguments.  CowExamples and FormatCorrect instantiate the laws with memory devices.  A mutex held for a whole call makes the call one step.

    ** What the theorems show

    - Files: a new file, directory or link reads back as it was written and every other
      file keeps its content (CreateApi); an overwritten file has the new content (Overwrite), a
      truncated one the first part of it or zeros behind it (Truncate), a
      deleted one is gone (Remove), and all leave the other files alone; a hard link is
      the same file and its names can go one by one (LinkApi); a rename moves a file, or a
      directory with its contents, and nothing else (Rename); attributes and
      extended attributes change exactly as asked (InodeOps, XattrOps); the commit keeps
      the FS tree and names it from the superblock (CommitCorrect).  Failures are part of
      the statements: they say which items and data a failed operation keeps, and where the
      code leaves them in a tree whose root the file system no longer holds ([root_lost],
      [rest_root_lost]).  What these
      theorems ask of a file system, every successful operation leaves again (Session).
    - Format: every admitted size gives an image that mounts, with its trees on the device,
      its chunks up to the size and an empty root directory; up to 4 GiB the first write can
      be made (FormatCorrect), which discharges, from code, the invariants the other theorems
      assume.
    - Trees: copy-on-write insert, delete, prefix deletion and update refine the sorted list of items, with
      splits, root growth and collapse (CowCorrect, DeletePrefix, Split, Node); searches and
      prefix scans return exactly the items asked for (BTree).
    - Space: no block is handed out twice (Alloc), none that is live is free after a
      mount (Mount); a volume grows by the new bytes and nothing else (ResizeCorrect), and a
      shrink cuts a tail only when it was free, or when no block of a tree and no data
      extent of the FS tree is left in it (TailCheck).
    - Untrusted images: mounting, walking, reading and decompressing end, without
      panic, in a result or an error (Mount, BTree, FileRead, Read).
    - Encodings, checksums (what is stored is CRC-32C), address translation and device routing (Codec, Crc32cSpec, Chunk,
      MultiDev); the pool over a flat device obeys the device laws, and closing it closes
      each backend once (Pool); subvolumes (Subvol); the node cache is invisible (Api).

    ** Bounds and fuel

    The theorems about operations are for a device of at most [maxTreeNodes] blocks of the
    node size ([dv_fits]; 4 GiB with the nodes of Format): the code has no such limit, but it
    limits the nodes of one walk, and on a larger device a tree may have more.  A growing
    [Truncate] is specified for uncompressed extents with nothing but zeros behind the old
    size ([growable]); address translation and growing for chunk maps without overlaps
    ([chunk_map_wf]).

    A walk of a tree carries fuel only for the kernel: [walk_fuel] exceeds the node
    ceiling [maxTreeNodes] the code enforces and [depth_fuel] its depth ceiling, so the
    code's own error is met first; the totality theorems prove that [NoFuel] is never
    returned.  The copy-on-write descents are bounded by the depth of the tree, and the
    theorems about a whole operation need no fuel hypothesis beyond it.  The purge of a
    directory has no bound in the code; its model takes the fuel as an argument.  Files
    are bounded by 4 GiB where the code stores a length in 32 bits.  A prefix deletion is
    specified for at most [maxTreeNodes] items; overwriting, shrinking and renaming are specified for
    trees of at most two levels, where the deletion keeps the leftmost separators that the inserts
    which follow it rely on.

    ** Not modelled

    The opening of operating-system files and the benchmarks are pure I/O.  The file
    operations run on one device that obeys [RWLaws]; Pool shows that the pool over a flat
    device is one, and that on other chunk maps the pool does not translate its writes
    ([pool_write_not_translated]).  The partition-table parser, the hardening helpers and the
    decompressors are other packages: they are parameters, with their documented
    behaviour as hypotheses.  Random bytes and the time are arguments.  [File_ReadAt] of
    Api reads without filling the node cache, which shows in no result; [buildRootItemBytes] has
    no argument for the time, which the Go function ignores.  [SetLabel] is a
    definition of Ops; it does not touch the node cache and is outside the session of Api. *)
From Stdlib Require Import ZArith Lia.
From stdpp Require Import base option list numbers sorting.

Create HintDb btrfs.

(** ** Errors and outcomes

    The Go code distinguishes errors only through [errors.Is]; the constructors
    are the classes the code can tell apart.  [Panic] is a Go run-time panic (an
    index or slice out of range), [NoFuel] is reached only by a loop whose fuel
    runs out; every theorem about such a loop shows it is not reached. *)
Inductive error : Type :=
| ErrNotFound        (** the package's [ErrNotFound] sentinel *)
| ErrNotExist        (** [ErrNotFound] and [io/fs.ErrNotExist], [lookupDirEntry] *)
| ErrLeafFull        (** [errLeafFull] *)
| ErrLoopLimit       (** depth or node-count ceiling, [safeio.ErrLoopLimit] *)
| ErrCycle           (** a revisited block pointer *)
| ErrOutOfBounds     (** [safeio.ErrOutOfBounds] *)
| ErrIO              (** an error of the backing device *)
| ErrReadOnly        (** [errSubvolReadOnly] *)
| ErrOther.          (** any other [fmt.Errorf] *)

#[global] Instance error_eq_dec : EqDecision error.
Proof. solve_decision. Defined.

Inductive outcome (A : Type) : Type :=
| Ok (a : A)
| Err (e : error)
| Panic
| NoFuel.
Arguments Ok {A} a.
Arguments Err {A} e.
Arguments Panic {A}.
Arguments NoFuel {A}.

#[global] Instance outcome_eq_dec {A} `{EqDecision A} : EqDecision (outcome A).
Proof. solve_decision. Defined.

#[global] Instance outcome_ret : MRet outcome := fun A a => Ok a.
#[global] Instance outcome_bind : MBind outcome := fun A B f m =>
  match m with
  | Ok a => f a
  | Err e => Err e
  | Panic => Panic
  | NoFuel => NoFuel
  end.

(** [errors.Is(err, ErrNotFound)] *)
Definition is_not_found (e : error) : bool :=
  match e with ErrNotFound | ErrNotExist => true | _ => false end.

Definition is_Ok {A} (o : outcome A) : Prop := exists a, o = Ok a.

Lemma outcome_bind_Ok {A B} (m : outcome A) (f : A -> outcome B) b :
  m ≫= f = Ok b <-> exists a, m = Ok a /\ f a = Ok b.
Proof.
  split.
  - destruct m; cbn; intros H; [|done..]. by eexists.
  - intros (a & -> & H). exact H.
Qed.

(** The computation ends in a value or in an error the code returns: it does not
    panic and does not run out of fuel. *)
Definition safe {A} (o : outcome A) : Prop :=
  match o with Ok _ | Err _ => True | Panic | NoFuel => False end.

Lemma safe_bind {A B} (m : outcome A) (f : A -> outcome B) :
  safe m -> (forall a, m = Ok a -> safe (f a)) -> safe (m ≫= f).
Proof. intros Hm Hf. destruct m; cbn in *; auto. Qed.

Lemma safe_if {A} (b : bool) (x y : outcome A) :
  (b = true -> safe x) -> (b = false -> safe y) -> safe (if b then x else y).
Proof. destruct b; auto. Qed.

(** ** Stateful code: the state survives an error, as in Go *)
Definition SM (S A : Type) : Type := S -> S * outcome A.

#[global] Instance SM_ret {S} : MRet (SM S) := fun A a s => (s, Ok a).
#[global] Instance SM_bind {S} : MBind (SM S) := fun A B f m s =>
  match m s with
  | (s', Ok a) => f a s'
  | (s', Err e) => (s', Err e)
  | (s', Panic) => (s', Panic)
  | (s', NoFuel) => (s', NoFuel)
  end.

Definition sm_lift {S A} (o : outcome A) : SM S A := fun s => (s, o).
Definition sm_gets {S A} (f : S -> A) : SM S A := fun s => (s, Ok (f s)).
Definition sm_fail {S A} (e : error) : SM S A := fun s => (s, Err e).
Definition sm_modify {S} (f : S -> S) : SM S unit := fun s => (f s, Ok tt).
(** Run [m] and hand its outcome (error included) to the caller. *)
Definition sm_try {S A} (m : SM S A) : SM S (outcome A) :=
  fun s => let '(s', o) := m s in (s', Ok o).

(** How a stateful sequence continues after its first step. *)
Lemma sm_bind_Ok {S A B} (m : SM S A) (f : A -> SM S B) s s' a :
  m s = (s', Ok a) -> (m ≫= f) s = f a s'.
Proof. intros H. unfold mbind, SM_bind. by rewrite H. Qed.
Lemma sm_bind_Err {S A B} (m : SM S A) (f : A -> SM S B) s s' e :
  m s = (s', Err e) -> (m ≫= f) s = (s', Err e).
Proof. intros H. unfold mbind, SM_bind. by rewrite H. Qed.
Lemma sm_lift_Ok {S A B} (o : outcome A) (f : A -> SM S B) s a :
  o = Ok a -> (sm_lift o ≫= f) s = f a s.
Proof. by intros ->. Qed.
Lemma sm_ret_bind {S A B} (a : A) (f : A -> SM S B) s : (mret a ≫= f) s = f a s.
Proof. done. Qed.

(** The final outcome of a stateless computation. *)
Definition sm_run {A} (m : SM unit A) : outcome A := (m tt).2.

Lemma sm_run_bind {A B} (m : SM unit A) (f : A -> SM unit B) :
  sm_run (m ≫= f) = (a ← sm_run m; sm_run (f a)).
Proof.
  unfold sm_run, mbind, SM_bind, outcome_bind. destruct (m tt) as [[] [a|e| |]]; done.
Qed.
Lemma sm_run_lift {A} (o : outcome A) : sm_run (sm_lift o) = o.
Proof. done. Qed.

(** [m] behaves as the pure computation [o] from every state that satisfies
    [inv], and keeps [inv]. *)
Definition sm_refines {S A} (inv : S -> Prop) (m : SM S A) (o : outcome A) : Prop :=
  forall s, inv s -> (m s).2 = o /\ inv (m s).1.

Lemma sm_refines_bind {S A B} (inv : S -> Prop) (m : SM S A) o (f : A -> SM S B) g :
  sm_refines inv m o -> (forall a, o = Ok a -> sm_refines inv (f a) (g a)) ->
  sm_refines inv (m ≫= f) (o ≫= g).
Proof.
  intros Hm Hf s Hs. destruct (Hm s Hs) as [E1 E2]. unfold mbind, SM_bind, outcome_bind.
  destruct (m s) as [s' r]. cbn in *. subst r. destruct o; [|done..]. by apply Hf.
Qed.
Lemma sm_refines_lift {S A} (inv : S -> Prop) (o : outcome A) : sm_refines inv (sm_lift o) o.
Proof. intros s Hs. done. Qed.
Lemma sm_refines_fail {S A} (inv : S -> Prop) e : sm_refines inv (sm_fail (A := A) e) (Err e).
Proof. intros s Hs. done. Qed.
Lemma sm_refines_ret {S A} (inv : S -> Prop) (a : A) : sm_refines inv (mret a) (Ok a).
Proof. intros s Hs. done. Qed.
#[export] Hint Resolve sm_refines_lift sm_refines_fail sm_refines_ret : btrfs.

(** From a state in [inv], [m] ends in a state in [inv], either with an error or
    with a value in [Q]; it does not panic and does not run out of fuel. *)
Definition safe_with {A} (o : outcome A) (Q : A -> Prop) : Prop :=
  match o with Ok a => Q a | Err _ => True | Panic | NoFuel => False end.
Definition sm_safe {S A} (inv : S -> Prop) (m : SM S A) (Q : A -> Prop) : Prop :=
  forall s, inv s -> inv (m s).1 /\ safe_with (m s).2 Q.

Lemma safe_with_bind {A B} (o : outcome A) (f : A -> outcome B) Q R :
  safe_with o Q -> (forall a, Q a -> safe_with (f a) R) -> safe_with (o ≫= f) R.
Proof. intros Ho Hf. destruct o; cbn in *; auto. Qed.
Lemma safe_with_impl {A} (o : outcome A) (Q R : A -> Prop) :
  safe_with o Q -> (forall a, Q a -> R a) -> safe_with o R.
Proof. destruct o; cbn; auto. Qed.

Section SmSafe.
Context {S : Type} (inv : S -> Prop).

Lemma sm_safe_bind {A B} (m : SM S A) (f : A -> SM S B) Q R :
  sm_safe inv m Q -> (forall a, Q a -> sm_safe inv (f a) R) -> sm_safe inv (m ≫= f) R.
Proof.
  intros Hm Hf s Hs. destruct (Hm s Hs) as [Hs' Ho]. unfold mbind, SM_bind.
  destruct (m s) as [s' [a|e| |]]; cbn in *; try done. by apply Hf.
Qed.
Lemma sm_safe_lift {A} (o : outcome A) Q : safe_with o Q -> sm_safe inv (sm_lift o) Q.
Proof. intros Ho s Hs. done. Qed.
Lemma sm_safe_fail {A} e (Q : A -> Prop) : sm_safe inv (sm_fail e) Q.
Proof. intros s Hs. done. Qed.
Lemma sm_safe_ret {A} (a : A) (Q : A -> Prop) : Q a -> sm_safe inv (mret a) Q.
Proof. intros Hq s Hs. done. Qed.
Lemma sm_safe_try {A} (m : SM S A) Q :
  sm_safe inv m Q -> sm_safe inv (sm_try m) (fun o => safe_with o Q).
Proof. intros Hm s Hs. unfold sm_try. destruct (m s) as [s' o] eqn:E. specialize (Hm s Hs). by rewrite E in Hm. Qed.
Lemma sm_safe_impl {A} (m : SM S A) (Q R : A -> Prop) :
  sm_safe inv m Q -> (forall a, Q a -> R a) -> sm_safe inv m R.
Proof. intros Hm Hi s Hs. destruct (Hm s Hs). split; [done|]. by eapply safe_with_impl. Qed.
End SmSafe.
#[export] Hint Resolve sm_safe_fail : btrfs.

(** As [sm_safe], but [m] may panic where [pan] holds. *)
Definition sm_upto {S A} (pan : Prop) (inv : S -> Prop) (m : SM S A) (Q : A -> Prop) : Prop :=
  forall s, inv s -> inv (m s).1 /\
    match (m s).2 with Ok a => Q a | Err _ => True | Panic => pan | NoFuel => False end.

Section Upto.
Context {S : Type} (pan : Prop) (inv : S -> Prop).

Lemma sm_upto_bind {A B} (m : SM S A) (f : A -> SM S B) Q R :
  sm_upto pan inv m Q -> (forall a, Q a -> sm_upto pan inv (f a) R) -> sm_upto pan inv (m ≫= f) R.
Proof.
  intros Hm Hf s Hs. destruct (Hm s Hs) as [Hs' Ho]. unfold mbind, SM_bind.
  destruct (m s) as [s' [a|e| |]]; cbn in *; try done. by apply Hf.
Qed.
Lemma sm_upto_safe {A} (m : SM S A) Q : sm_safe inv m Q -> sm_upto pan inv m Q.
Proof. intros Hm s Hs. destruct (Hm s Hs) as [Hi Ho]. split; [done|]. by destruct (m s).2. Qed.
Lemma sm_upto_lift {A} (o : outcome A) Q : safe_with o Q -> sm_upto pan inv (sm_lift o) Q.
Proof. intros Ho. by apply sm_upto_safe, sm_safe_lift. Qed.
Lemma sm_upto_ret {A} (a : A) (Q : A -> Prop) : Q a -> sm_upto pan inv (mret a) Q.
Proof. intros Hq s Hs. done. Qed.
Lemma sm_upto_fail {A} e (Q : A -> Prop) : sm_upto pan inv (sm_fail e) Q.
Proof. intros s Hs. done. Qed.
Lemma sm_upto_impl {A} (m : SM S A) (Q R : A -> Prop) :
  sm_upto pan inv m Q -> (forall a, Q a -> R a) -> sm_upto pan inv m R.
Proof. intros Hm Hi s Hs. destruct (Hm s Hs) as [? Ho]. split; [done|]. destruct (m s).2; auto. Qed.
End Upto.
#[export] Hint Resolve sm_upto_fail : btrfs.

(** ** Machine integers

    Values are kept in [Z]; the wrap-around of the Go types is written out. *)
Declare Scope btrfs_scope.
Delimit Scope btrfs_scope with btrfs.

Definition u64 (z : Z) : Z := (z mod 2 ^ 64)%Z.
Definition u32 (z : Z) : Z := (z mod 2 ^ 32)%Z.
Definition u16 (z : Z) : Z := (z mod 2 ^ 16)%Z.
Definition u8 (z : Z) : Z := (z mod 2 ^ 8)%Z.
(** Conversion to a signed 64-bit integer ([int64(x)], and [int(x)]). *)
Definition i64 (z : Z) : Z := ((z + 2 ^ 63) mod 2 ^ 64 - 2 ^ 63)%Z.

Notation "a +₆₄ b" := (u64 (a + b)%Z) (at level 50, left associativity) : btrfs_scope.
Notation "a -₆₄ b" := (u64 (a - b)%Z) (at level 50, left associativity) : btrfs_scope.
Notation "a *₆₄ b" := (u64 (a * b)%Z) (at level 40, left associativity) : btrfs_scope.

Definition is_u64 (z : Z) : Prop := (0 <= z < 2 ^ 64)%Z.

Lemma u64_small z : is_u64 z -> u64 z = z.
Proof. intros H. apply Z.mod_small, H. Qed.

Lemma u64_range z : is_u64 (u64 z).
Proof. apply Z.mod_pos_bound. reflexivity. Qed.

Lemma i64_small z : (- 2 ^ 63 <= z < 2 ^ 63)%Z -> i64 z = z.
Proof. intros H. unfold i64. rewrite Z.mod_small; lia. Qed.

#[export] Hint Resolve u64_range : btrfs.

(** Drop the wrap-around of every sum that stays in range. *)
Ltac u64_tac :=
  repeat match goal with
  | |- context [u64 ?x] => rewrite (u64_small x) by (unfold is_u64; lia)
  end.

(** ** Boolean tests *)
Ltac bool_prop :=
  repeat match goal with
  | H : (_ && _)%bool = true |- _ => apply andb_prop in H; destruct H
  | H : (_ && _)%bool = false |- _ => apply andb_false_iff in H
  | H : (_ || _)%bool = false |- _ => apply orb_false_iff in H; destruct H
  | H : (_ || _)%bool = true |- _ => apply orb_true_iff in H
  | H : negb _ = true |- _ => apply negb_true_iff in H
  | H : negb _ = false |- _ => apply negb_false_iff in H
  | H : (_ <? _)%Z = true |- _ => apply Z.ltb_lt in H
  | H : (_ <? _)%Z = false |- _ => apply Z.ltb_ge in H
  | H : (_ <=? _)%Z = true |- _ => apply Z.leb_le in H
  | H : (_ <=? _)%Z = false |- _ => apply Z.leb_gt in H
  | H : (_ =? _)%Z = true |- _ => apply Z.eqb_eq in H
  | H : (_ =? _)%Z = false |- _ => apply Z.eqb_neq in H
  end.

(** Case analysis on the test of an [if] in the goal (or in a hypothesis). *)
Ltac case_if :=
  match goal with
  | |- context [if ?c then _ else _] => destruct c eqn:?; bool_prop
  end.
Ltac case_if_in H :=
  match type of H with
  | context [if ?c then _ else _] => destruct c eqn:?; bool_prop
  end.

(** Discharge an [if] whose test is decided by arithmetic. *)
Ltac if_true := rewrite ?(proj2 (Z.leb_le _ _)), ?(proj2 (Z.ltb_lt _ _)),
  ?(proj2 (Z.eqb_eq _ _)) by lia; cbn [andb orb negb].

(** Take an [outcome] computation that succeeds apart. *)
Ltac ok_inv H :=
  repeat match type of H with
  | (_ ≫= _) = Ok _ =>
      apply outcome_bind_Ok in H;
      let x := fresh "x" in let Hx := fresh "Hx" in destruct H as (x & Hx & H)
  end.

(** ** Sums over lists *)
Definition sumZ (l : list Z) : Z := foldr Z.add 0%Z l.

Lemma sumZ_app l1 l2 : sumZ (l1 ++ l2) = (sumZ l1 + sumZ l2)%Z.
Proof. induction l1 as [|x l1 IH]; cbn in *; unfold sumZ in *; lia. Qed.

Lemma sumZ_cons x l : sumZ (x :: l) = (x + sumZ l)%Z.
Proof. reflexivity. Qed.

Lemma sumZ_nonneg l : Forall (fun x => 0 <= x)%Z l -> (0 <= sumZ l)%Z.
Proof. induction 1; cbn in *; unfold sumZ in *; lia. Qed.

Lemma sumZ_map_app {A} (f : A -> Z) l1 l2 :
  sumZ (map f (l1 ++ l2)) = (sumZ (map f l1) + sumZ (map f l2))%Z.
Proof. rewrite map_app. apply sumZ_app. Qed.

(** Insert [x] so that it becomes element [i]. *)
Definition insert_at {A} (i : nat) (x : A) (l : list A) : list A :=
  take i l ++ x :: drop i l.

Lemma length_insert_at {A} i (x : A) l :
  i <= length l -> length (insert_at i x l) = S (length l).
Proof. intros. unfold insert_at. rewrite length_app, length_take, length_cons, length_drop. lia. Qed.

(** Remove element [i]. *)
Definition remove_at {A} (i : nat) (l : list A) : list A := take i l ++ drop (S i) l.

Lemma length_remove_at {A} i (l : list A) :
  i < length l -> S (length (remove_at i l)) = length l.
Proof. intros. unfold remove_at. rewrite length_app, length_take, length_drop. lia. Qed.

Lemma insert_at_perm {A} i (x : A) l : insert_at i x l ≡ₚ x :: l.
Proof.
  unfold insert_at. rewrite <- Permutation_middle. constructor. by rewrite take_drop.
Qed.
