(* ===== verification/Bytes.v ===== *)
(** * Byte buffers

    Go byte slices and [encoding/binary.LittleEndian]: the accessors panic when
    the index is out of range, as the Go run time does. *)
From Stdlib Require Import ZArith Lia Strings.Byte.
From stdpp Require Import base option list numbers sorting.
From S2P Require Import Prelude.
Local Open Scope Z_scope.

Abbreviation byte := Byte.byte.
Abbreviation bytes := (list Byte.byte).

#[global] Instance byte_eq_decision : EqDecision byte := Byte.byte_eq_dec.

(** ** Bytes and integers *)
Definition Z_of_byte (b : byte) : Z := Z.of_N (Byte.to_N b).
Definition byte_of_Z (z : Z) : byte :=
  match Byte.of_N (Z.to_N (z mod 256)) with Some b => b | None => x00 end.

Lemma Z_of_byte_range b : 0 <= Z_of_byte b < 256.
Proof. unfold Z_of_byte. pose proof (Byte.to_N_bounded b). lia. Qed.

Lemma Z_of_byte_of_Z z : Z_of_byte (byte_of_Z z) = z mod 256.
Proof.
  unfold Z_of_byte, byte_of_Z.
  pose proof (Z.mod_pos_bound z 256 ltac:(lia)).
  destruct (Byte.of_N _) eqn:E.
  - apply Byte.to_of_N in E. rewrite E. rewrite Z2N.id; lia.
  - apply Byte.of_N_None_iff in E. lia.
Qed.

Lemma byte_of_Z_of_byte b : byte_of_Z (Z_of_byte b) = b.
Proof.
  unfold Z_of_byte, byte_of_Z. pose proof (Byte.to_N_bounded b).
  rewrite Z.mod_small, N2Z.id, Byte.of_to_N by lia. reflexivity.
Qed.

(** ** Little endian *)
Fixpoint le_enc (n : nat) (v : Z) : bytes :=
  match n with
  | O => []
  | S n => byte_of_Z v :: le_enc n (v / 256)
  end.

Fixpoint le_dec (l : bytes) : Z :=
  match l with
  | [] => 0
  | b :: l => Z_of_byte b + 256 * le_dec l
  end.

Lemma length_le_enc n v : length (le_enc n v) = n.
Proof. revert v; induction n as [|n IH]; intros v; cbn; [done|by rewrite IH]. Qed.

Lemma le_dec_enc n v : le_dec (le_enc n v) = v mod 256 ^ Z.of_nat n.
Proof.
  revert v; induction n as [|n IH]; intros v; cbn [le_enc le_dec].
  - cbn. by rewrite Z.mod_1_r.
  - rewrite IH, Z_of_byte_of_Z, Nat2Z.inj_succ, Z.pow_succ_r by lia.
    rewrite Z.rem_mul_r by lia. lia.
Qed.

Lemma le_dec_range l : 0 <= le_dec l < 256 ^ Z.of_nat (length l).
Proof.
  induction l as [|b l IH]; cbn [le_dec length]; [cbn; lia|].
  pose proof (Z_of_byte_range b). rewrite Nat2Z.inj_succ, Z.pow_succ_r by lia. lia.
Qed.

Lemma le_enc_dec l : le_enc (length l) (le_dec l) = l.
Proof.
  induction l as [|b l IH]; cbn [le_enc le_dec length]; [done|].
  pose proof (Z_of_byte_range b). f_equal.
  - rewrite <- (byte_of_Z_of_byte b) at 2. unfold byte_of_Z.
    replace (_ mod 256) with (Z_of_byte b mod 256); [done|].
    rewrite (Z.mul_comm 256), Z.mod_add; lia.
  - rewrite (Z.mul_comm 256), Z.div_add, Z.div_small, Z.add_0_l by lia. exact IH.
Qed.

(** ** Slices *)
Definition blen (b : bytes) : Z := Z.of_nat (length b).
Definition sub (b : bytes) (off n : Z) : bytes :=
  take (Z.to_nat n) (drop (Z.to_nat off) b).
(** Overwrite [b] from [off] on with [src]; the callers keep it in range. *)
Definition splice (b : bytes) (off : Z) (src : bytes) : bytes :=
  take (Z.to_nat off) b ++ src ++ drop (Z.to_nat off + length src) b.
Definition bnth (b : bytes) (p : Z) : byte := default x00 (b !! Z.to_nat p).
Definition zeros (n : Z) : bytes := replicate (Z.to_nat n) x00.

(** [b] and [b'] hold the same bytes in [[lo, hi)]. *)
Definition agree (b b' : bytes) (lo hi : Z) : Prop :=
  forall p, lo <= p < hi -> bnth b p = bnth b' p.

Lemma blen_nonneg b : 0 <= blen b.
Proof. unfold blen; lia. Qed.
Lemma blen_nil : blen [] = 0.
Proof. done. Qed.
Lemma blen_app a b : blen (a ++ b) = blen a + blen b.
Proof. unfold blen. rewrite length_app. lia. Qed.
Lemma blen_le_enc n v : blen (le_enc n v) = Z.of_nat n.
Proof. unfold blen. by rewrite length_le_enc. Qed.
Lemma blen_zeros n : 0 <= n -> blen (zeros n) = n.
Proof. intros. unfold blen, zeros. rewrite length_replicate. lia. Qed.
Lemma blen_sub b off n : 0 <= off -> 0 <= n -> off + n <= blen b -> blen (sub b off n) = n.
Proof. unfold blen, sub. intros. rewrite length_take, length_drop. lia. Qed.
Lemma blen_splice b off s :
  0 <= off -> off + blen s <= blen b -> blen (splice b off s) = blen b.
Proof.
  unfold blen, splice. intros. rewrite !length_app, length_take, length_drop. lia.
Qed.

Lemma bnth_splice_in b off s p :
  0 <= off -> off + blen s <= blen b -> off <= p < off + blen s ->
  bnth (splice b off s) p = bnth s (p - off).
Proof.
  unfold bnth, splice, blen. intros.
  rewrite lookup_app_r by (rewrite length_take; lia).
  rewrite length_take, lookup_app_l by lia. do 2 f_equal. lia.
Qed.

Lemma bnth_splice_out b off s p :
  0 <= off -> off + blen s <= blen b -> 0 <= p -> (p < off \/ off + blen s <= p) ->
  bnth (splice b off s) p = bnth b p.
Proof.
  unfold bnth, splice, blen. intros. destruct (Z_lt_dec p off).
  - rewrite lookup_app_l by (rewrite length_take; lia).
    by rewrite lookup_take_lt by lia.
  - rewrite !lookup_app_r; rewrite ?length_take; try lia.
    rewrite lookup_drop. do 2 f_equal. lia.
Qed.

Lemma bnth_sub b off n p :
  0 <= off -> 0 <= p < n -> off + n <= blen b -> bnth (sub b off n) p = bnth b (off + p).
Proof.
  unfold bnth, sub, blen. intros.
  rewrite lookup_take_lt, lookup_drop by lia. do 2 f_equal. lia.
Qed.

Lemma bnth_zeros n p : bnth (zeros n) p = x00.
Proof.
  unfold bnth, zeros. destruct (_ !! _) eqn:E; [|done].
  apply lookup_replicate in E. cbn. by destruct E.
Qed.

Lemma bytes_ext (a b : bytes) :
  blen a = blen b -> agree a b 0 (blen a) -> a = b.
Proof.
  unfold blen, agree, bnth. intros Hl H.
  apply list_eq_same_length with (n := length a); [lia|lia|].
  intros i x y Hi Hx Hy. specialize (H (Z.of_nat i) ltac:(lia)).
  rewrite Nat2Z.id in H. rewrite Hx, Hy in H. exact H.
Qed.

Lemma sub_ext b b' off off' n :
  0 <= off -> 0 <= off' -> 0 <= n -> off + n <= blen b -> off' + n <= blen b' ->
  (forall p, 0 <= p < n -> bnth b (off + p) = bnth b' (off' + p)) ->
  sub b off n = sub b' off' n.
Proof.
  intros. apply bytes_ext; rewrite ?blen_sub; try lia.
  intros p Hp. rewrite !bnth_sub by lia. auto.
Qed.

Lemma sub_agree b b' off n :
  0 <= off -> 0 <= n -> off + n <= blen b -> off + n <= blen b' ->
  agree b b' off (off + n) -> sub b off n = sub b' off n.
Proof. intros. apply sub_ext; try lia. intros p Hp. apply H3. lia. Qed.

Lemma sub_splice_same b off s :
  0 <= off -> off + blen s <= blen b -> sub (splice b off s) off (blen s) = s.
Proof.
  intros. pose proof (blen_nonneg s). apply bytes_ext; rewrite blen_sub; rewrite ?blen_splice; try lia.
  intros p Hp. rewrite bnth_sub, bnth_splice_in by (rewrite ?blen_splice; lia).
  f_equal. lia.
Qed.

Lemma sub_splice_out b off s off' n :
  0 <= off -> off + blen s <= blen b -> 0 <= off' -> 0 <= n -> off' + n <= blen b ->
  (off' + n <= off \/ off + blen s <= off') ->
  sub (splice b off s) off' n = sub b off' n.
Proof.
  intros. apply sub_agree; rewrite ?blen_splice; try lia.
  intros p Hp. apply bnth_splice_out; lia.
Qed.

Lemma sub_all b : sub b 0 (blen b) = b.
Proof. unfold sub, blen. rewrite Nat2Z.id. cbn. by rewrite take_ge. Qed.

(** ** The Go accessors *)
Definition in_range (b : bytes) (off n : Z) : bool := (0 <=? off) && (off + n <=? blen b).

(** [le.UintN(b[off:])] *)
Definition rd (n : nat) (b : bytes) (off : Z) : Z := le_dec (sub b off (Z.of_nat n)).
Definition get_le (n : nat) (b : bytes) (off : Z) : outcome Z :=
  if in_range b off (Z.of_nat n) then Ok (rd n b off) else Panic.
(** [le.PutUintN(b[off:], v)] *)
Definition wr (n : nat) (b : bytes) (off v : Z) : bytes := splice b off (le_enc n v).
Definition put_le (n : nat) (b : bytes) (off v : Z) : outcome bytes :=
  if in_range b off (Z.of_nat n) then Ok (wr n b off v) else Panic.

Abbreviation Uint8 := (get_le 1).
Abbreviation Uint16 := (get_le 2).
Abbreviation Uint32 := (get_le 4).
Abbreviation Uint64 := (get_le 8).
Abbreviation PutUint8 := (put_le 1).
Abbreviation PutUint16 := (put_le 2).
Abbreviation PutUint32 := (put_le 4).
Abbreviation PutUint64 := (put_le 8).

(** [b[lo:hi]] *)
Definition slice (b : bytes) (lo hi : Z) : outcome bytes :=
  if (0 <=? lo) && (lo <=? hi) && (hi <=? blen b) then Ok (sub b lo (hi - lo)) else Panic.
(** [copy(b[off:], src)]: as many bytes as fit. *)
Definition copy_at (b : bytes) (off : Z) (src : bytes) : outcome bytes :=
  if (0 <=? off) && (off <=? blen b)
  then Ok (splice b off (take (Z.to_nat (blen b - off)) src)) else Panic.
(** [clear(b[lo:hi])] *)
Definition clear_range (b : bytes) (lo hi : Z) : outcome bytes :=
  if (0 <=? lo) && (lo <=? hi) && (hi <=? blen b)
  then Ok (splice b lo (zeros (hi - lo))) else Panic.

Lemma get_le_Ok n b off :
  0 <= off -> off + Z.of_nat n <= blen b -> get_le n b off = Ok (rd n b off).
Proof. intros. unfold get_le, in_range. by if_true. Qed.
Lemma put_le_Ok n b off v :
  0 <= off -> off + Z.of_nat n <= blen b -> put_le n b off v = Ok (wr n b off v).
Proof. intros. unfold put_le, in_range. by if_true. Qed.
Lemma slice_Ok b lo hi :
  0 <= lo -> lo <= hi -> hi <= blen b -> slice b lo hi = Ok (sub b lo (hi - lo)).
Proof. intros. unfold slice. by if_true. Qed.
Lemma copy_at_Ok b off src :
  0 <= off -> off + blen src <= blen b -> copy_at b off src = Ok (splice b off src).
Proof.
  intros. pose proof (blen_nonneg src). unfold copy_at, blen in *. if_true.
  rewrite take_ge by lia. done.
Qed.
Lemma clear_range_Ok b lo hi :
  0 <= lo -> lo <= hi -> hi <= blen b ->
  clear_range b lo hi = Ok (splice b lo (zeros (hi - lo))).
Proof. intros. unfold clear_range. by if_true. Qed.

Lemma blen_wr n b off v :
  0 <= off -> off + Z.of_nat n <= blen b -> blen (wr n b off v) = blen b.
Proof. intros. unfold wr. rewrite blen_splice; rewrite ?blen_le_enc; lia. Qed.

Lemma rd_agree n b b' off off' :
  0 <= off -> 0 <= off' -> off + Z.of_nat n <= blen b -> off' + Z.of_nat n <= blen b' ->
  (forall p, 0 <= p < Z.of_nat n -> bnth b (off + p) = bnth b' (off' + p)) ->
  rd n b off = rd n b' off'.
Proof. intros. unfold rd. f_equal. apply sub_ext; auto; lia. Qed.

Lemma rd_wr_same n b off v :
  0 <= off -> off + Z.of_nat n <= blen b -> rd n (wr n b off v) off = v mod 256 ^ Z.of_nat n.
Proof.
  intros. unfold rd, wr. rewrite <- (blen_le_enc n v) at 1.
  rewrite sub_splice_same by (rewrite ?blen_le_enc; lia). apply le_dec_enc.
Qed.

Lemma rd_wr_out n m b off off' v :
  0 <= off -> off + Z.of_nat n <= blen b -> 0 <= off' -> off' + Z.of_nat m <= blen b ->
  (off' + Z.of_nat m <= off \/ off + Z.of_nat n <= off') ->
  rd m (wr n b off v) off' = rd m b off'.
Proof.
  intros. unfold rd, wr. f_equal.
  apply sub_splice_out; rewrite ?blen_le_enc; lia.
Qed.

Lemma rd_splice_out m b off s off' :
  0 <= off -> off + blen s <= blen b -> 0 <= off' -> off' + Z.of_nat m <= blen b ->
  (off' + Z.of_nat m <= off \/ off + blen s <= off') ->
  rd m (splice b off s) off' = rd m b off'.
Proof. intros. unfold rd. f_equal. apply sub_splice_out; lia. Qed.

Lemma sub_wr_out n b off v off' m :
  0 <= off -> off + Z.of_nat n <= blen b -> 0 <= off' -> 0 <= m -> off' + m <= blen b ->
  (off' + m <= off \/ off + Z.of_nat n <= off') ->
  sub (wr n b off v) off' m = sub b off' m.
Proof. intros. apply sub_splice_out; rewrite ?blen_le_enc; lia. Qed.

Lemma bnth_wr_out n b off v p :
  0 <= off -> off + Z.of_nat n <= blen b -> 0 <= p ->
  (p < off \/ off + Z.of_nat n <= p) -> bnth (wr n b off v) p = bnth b p.
Proof. intros. apply bnth_splice_out; rewrite ?blen_le_enc; lia. Qed.

Lemma rd_range n b off : 0 <= rd n b off < 256 ^ Z.of_nat n.
Proof.
  unfold rd. pose proof (le_dec_range (sub b off (Z.of_nat n))) as H.
  assert (Z.of_nat (length (sub b off (Z.of_nat n))) <= Z.of_nat n).
  { unfold sub. rewrite length_take. lia. }
  pose proof (Z.pow_le_mono_r 256 _ _ ltac:(lia) H0). lia.
Qed.

Lemma rd_sub n b off len p :
  0 <= off -> 0 <= p -> p + Z.of_nat n <= len -> off + len <= blen b ->
  rd n (sub b off len) p = rd n b (off + p).
Proof.
  intros. apply rd_agree; rewrite ?blen_sub; try lia.
  intros q Hq. rewrite bnth_sub by lia. f_equal. lia.
Qed.

Lemma sub_sub b off len p n :
  0 <= off -> 0 <= p -> 0 <= n -> p + n <= len -> off + len <= blen b ->
  sub (sub b off len) p n = sub b (off + p) n.
Proof.
  intros. apply sub_ext; rewrite ?blen_sub; try lia.
  intros q Hq. rewrite bnth_sub by lia. f_equal. lia.
Qed.

Lemma rd_zeros n m p : rd n (zeros m) p = 0.
Proof.
  unfold rd, sub, zeros. rewrite drop_replicate, take_replicate.
  generalize (Z.to_nat (Z.of_nat n) `min` (Z.to_nat m - Z.to_nat p))%nat.
  induction n0 as [|k IH]; cbn in *; [done|]. rewrite IH. done.
Qed.

(** Reading inside a concatenation. *)
Lemma bnth_app_mid pre b rest p :
  0 <= p < blen b -> bnth (pre ++ b ++ rest) (blen pre + p) = bnth b p.
Proof.
  intros Hp. unfold bnth, blen in *. rewrite lookup_app_r by lia.
  replace (Z.to_nat (Z.of_nat (length pre) + p) - length pre)%nat with (Z.to_nat p) by lia.
  by rewrite lookup_app_l by lia.
Qed.
Lemma sub_app_mid pre b rest p n :
  0 <= p -> 0 <= n -> p + n <= blen b -> sub (pre ++ b ++ rest) (blen pre + p) n = sub b p n.
Proof.
  intros. pose proof (blen_nonneg pre). pose proof (blen_nonneg rest).
  apply sub_ext; rewrite ?blen_app; try lia.
  intros q Hq. rewrite <- Z.add_assoc. apply bnth_app_mid. lia.
Qed.
Lemma rd_app_mid n pre b rest p :
  0 <= p -> p + Z.of_nat n <= blen b -> rd n (pre ++ b ++ rest) (blen pre + p) = rd n b p.
Proof. intros. unfold rd. by rewrite sub_app_mid by lia. Qed.

(** ** Records written field by field: (width, offset, value) *)
Definition field : Type := nat * Z * Z.
Fixpoint put_fields (b : bytes) (l : list field) : bytes :=
  match l with
  | [] => b
  | (n, off, v) :: l => put_fields (wr n b off v) l
  end.
(** All fields lie in the first [len] bytes; none overlaps [m] bytes at [off']. *)
Definition fields_in (len : Z) (l : list field) : bool :=
  forallb (fun f => (0 <=? f.1.2) && (f.1.2 + Z.of_nat f.1.1 <=? len)) l.
Definition fields_off (off' m : Z) (l : list field) : bool :=
  forallb (fun f => (off' + m <=? f.1.2) || (f.1.2 + Z.of_nat f.1.1 <=? off')) l.

Lemma blen_put_fields len l b : fields_in len l = true -> len <= blen b -> blen (put_fields b l) = blen b.
Proof.
  revert b. induction l as [|[[n off] v] l IH]; intros b Hf Hl; [done|]. cbn in Hf |- *. bool_prop.
  rewrite IH by (try done; rewrite blen_wr; lia). apply blen_wr; lia.
Qed.
Lemma sub_put_fields_out len l b off' m :
  fields_in len l = true -> len <= blen b -> fields_off off' m l = true -> 0 <= off' -> 0 <= m ->
  off' + m <= blen b -> sub (put_fields b l) off' m = sub b off' m.
Proof.
  revert b. induction l as [|[[n off] v] l IH]; intros b Hf Hl Ho H0 Hm Hb; [done|]. cbn in Hf, Ho |- *.
  apply andb_prop in Ho as [Ho Ho']. bool_prop.
  rewrite IH by (try done; rewrite blen_wr; lia). apply sub_wr_out; try lia.
Qed.
Lemma rd_put_fields_out len l b m off' :
  fields_in len l = true -> len <= blen b -> fields_off off' (Z.of_nat m) l = true -> 0 <= off' ->
  off' + Z.of_nat m <= blen b -> rd m (put_fields b l) off' = rd m b off'.
Proof. intros. unfold rd. rewrite (sub_put_fields_out len); done || lia. Qed.

(** The last store to a field decides it. *)
Lemma rd_put_fields len l1 n off v l2 b :
  fields_in len (l1 ++ (n, off, v) :: l2) = true -> len <= blen b -> fields_off off (Z.of_nat n) l2 = true ->
  rd n (put_fields b (l1 ++ (n, off, v) :: l2)) off = v mod 256 ^ Z.of_nat n.
Proof.
  revert b. induction l1 as [|[[n' off'] v'] l1 IH]; intros b Hf Hl Ho; cbn in Hf |- *; bool_prop.
  - rewrite (rd_put_fields_out len) by (try done; try rewrite blen_wr; lia). apply rd_wr_same; lia.
  - apply IH; [done| |done]. rewrite blen_wr; lia.
Qed.

(** [blen] of the buffers above, with arithmetic side conditions. *)
Ltac blen_tac :=
  rewrite ?blen_le_enc, ?blen_app;
  repeat (first [ rewrite blen_wr by blen_tac | rewrite blen_splice by blen_tac
                | rewrite blen_sub by blen_tac | rewrite blen_zeros by blen_tac ]);
  lia.

(** Read back what a chain of writes left at an offset. *)
Ltac rd_tac :=
  repeat first [ rewrite rd_wr_same by blen_tac | rewrite rd_wr_out by blen_tac
               | rewrite rd_splice_out by blen_tac
               | rewrite sub_wr_out by blen_tac | rewrite sub_splice_out by blen_tac ].

(** Step through the accessors that stay in range. *)
Ltac get_tac :=
  repeat (first [ rewrite get_le_Ok by blen_tac | rewrite put_le_Ok by blen_tac
                | rewrite slice_Ok by blen_tac | rewrite copy_at_Ok by blen_tac
                | rewrite clear_range_Ok by blen_tac ]; cbn [mbind outcome_bind]).

#[export] Hint Resolve blen_nonneg : btrfs.
