(* ===== verification/Alloc.v ===== *)
(** * The space manager (alloc.go, and [rangeFree] of resize.go)

    The in-memory free-extent list: first-fit allocation, subtraction of a used
    range, return of a range with sort-and-merge.  The specification is the
    coverage function [cov], the number of free extents a physical byte lies in;
    the list is well formed when no byte is covered twice. *)
From Stdlib Require Import ZArith Lia.
From stdpp Require Import base option list numbers sorting.
From S2P Require Import Prelude.
Local Open Scope Z_scope.
Local Open Scope btrfs_scope.

(** A contiguous free physical region. *)
Record freeExtent := FreeExtent { fe_physStart : Z; fe_size : Z }.

#[global] Instance freeExtent_eq_dec : EqDecision freeExtent.
Proof. solve_decision. Defined.

Record spaceManager := SpaceManager { sm_freeExts : list freeExtent; sm_nodeSize : Z }.

Definition set_freeExts (sm : spaceManager) (l : list freeExtent) : spaceManager :=
  SpaceManager l (sm_nodeSize sm).

Definition feEnd (fe : freeExtent) : Z := fe_physStart fe +₆₄ fe_size fe.

(** [remove] subtracts [[start, start+size)] from the free list; one iteration
    of its loop keeps the parts of [fe] on either side. *)
Definition remove_one (start fin : Z) (fe : freeExtent) : list freeExtent :=
  if (fin <=? fe_physStart fe) || (feEnd fe <=? start) then [fe]
  else (if fe_physStart fe <? start
        then [FreeExtent (fe_physStart fe) (start -₆₄ fe_physStart fe)] else [])
       ++ (if fin <? feEnd fe then [FreeExtent fin (feEnd fe -₆₄ fin)] else []).

Definition remove (sm : spaceManager) (start size : Z) : spaceManager :=
  if size =? 0 then sm
  else set_freeExts sm (flat_map (remove_one start (start +₆₄ size)) (sm_freeExts sm)).

(** The first-fit scan shared by [allocNodeBlock] and [allocDataBytes]: the first
    extent of at least [need] bytes, dropped when it fits exactly, otherwise
    trimmed from the front. *)
Fixpoint take_first (need : Z) (l : list freeExtent) : option (Z * list freeExtent) :=
  match l with
  | [] => None
  | fe :: l =>
      if need <=? fe_size fe
      then Some (fe_physStart fe,
                 if fe_size fe =? need then l
                 else FreeExtent (fe_physStart fe +₆₄ need) (fe_size fe -₆₄ need) :: l)
      else '(phys, l') ← take_first need l; Some (phys, fe :: l')
  end.

Definition allocNodeBlock (sm : spaceManager) : spaceManager * outcome Z :=
  match take_first (sm_nodeSize sm) (sm_freeExts sm) with
  | Some (phys, l) => (set_freeExts sm l, Ok phys)
  | None => (sm, Err ErrOther)
  end.

(** [(size + sectorSize - 1) / sectorSize * sectorSize] on [uint64]. *)
Definition round_up64 (size sectorSize : Z) : Z :=
  (size +₆₄ sectorSize -₆₄ 1) / sectorSize *₆₄ sectorSize.

Definition allocDataBytes (sm : spaceManager) (size sectorSize : Z)
  : spaceManager * outcome (Z * Z) :=
  if sectorSize =? 0 then (sm, Panic) else
  let need := round_up64 size sectorSize in
  match take_first need (sm_freeExts sm) with
  | Some (phys, l) => (set_freeExts sm l, Ok (phys, need))
  | None => (sm, Err ErrOther)
  end.

(** The scan for the largest extent: [(bestIdx, bestSize)], the first of equals. *)
Fixpoint find_best (sectorSize : Z) (l : list freeExtent) (i : nat) (best : option (nat * Z))
  : option (nat * Z) :=
  match l with
  | [] => best
  | fe :: l =>
      let bestSize := match best with Some (_, s) => s | None => 0 end in
      find_best sectorSize l (S i)
        (if (sectorSize <=? fe_size fe) && (bestSize <? fe_size fe)
         then Some (i, fe_size fe) else best)
  end.

Definition allocDataBytesUpTo (sm : spaceManager) (maxSize sectorSize : Z)
  : spaceManager * outcome (Z * Z) :=
  let maxSize := if maxSize <? sectorSize then sectorSize else maxSize in
  match find_best sectorSize (sm_freeExts sm) 0 None with
  | None => (sm, Err ErrOther)
  | Some (bestIdx, bestSize) =>
      if (maxSize <? bestSize) && (sectorSize =? 0) then (sm, Panic) else
      let take := if maxSize <? bestSize then maxSize / sectorSize * sectorSize else bestSize in
      match sm_freeExts sm !! bestIdx with
      | None => (sm, Panic)
      | Some fe =>
          let l := if fe_size fe =? take then remove_at bestIdx (sm_freeExts sm)
                   else <[bestIdx := FreeExtent (fe_physStart fe +₆₄ take) (fe_size fe -₆₄ take)]>
                          (sm_freeExts sm) in
          (set_freeExts sm l, Ok (fe_physStart fe, take))
      end
  end.

(** [coalesce]: insertion sort by [physStart].  The sorted prefix is kept in
    reverse, so one [sift] is the inner loop that swaps a new extent downwards. *)
Fixpoint sift (fe : freeExtent) (rprefix : list freeExtent) : list freeExtent :=
  match rprefix with
  | [] => [fe]
  | x :: r => if fe_physStart fe <? fe_physStart x then x :: sift fe r else fe :: x :: r
  end.

Definition insertion_sort (l : list freeExtent) : list freeExtent :=
  rev (foldl (fun acc fe => sift fe acc) [] l).

(** The merge pass; [merged] is kept in reverse, its head is [last]. *)
Definition merge_step (merged : list freeExtent) (fe : freeExtent) : list freeExtent :=
  match merged with
  | [] => [fe]
  | last :: r =>
      if feEnd last =? fe_physStart fe
      then FreeExtent (fe_physStart last) (fe_size last +₆₄ fe_size fe) :: r
      else fe :: last :: r
  end.

Definition coalesce (l : list freeExtent) : list freeExtent :=
  if (length l <? 2)%nat then l
  else rev (foldl merge_step [] (insertion_sort l)).

Definition freeRange (sm : spaceManager) (physStart size : Z) : spaceManager :=
  set_freeExts sm (coalesce (sm_freeExts sm ++ [FreeExtent physStart size])).

(** [rangeFree] (resize.go): is the whole of [[start, start+size)] free? *)
Fixpoint rangeFree_loop (l : list freeExtent) (cursor fin : Z) : bool :=
  match l with
  | [] => false
  | fe :: l =>
      if feEnd fe <=? cursor then rangeFree_loop l cursor fin
      else if cursor <? fe_physStart fe then false
      else if fin <=? feEnd fe then true
      else rangeFree_loop l (feEnd fe) fin
  end.

Definition rangeFree (sm : spaceManager) (start size : Z) : bool :=
  if size =? 0 then true else rangeFree_loop (sm_freeExts sm) start (start +₆₄ size).

(** ** Specification *)
Definition inr (s n p : Z) : Z := if (s <=? p) && (p <? s + n) then 1 else 0.
Definition cov (l : list freeExtent) (p : Z) : Z :=
  sumZ (map (fun fe => inr (fe_physStart fe) (fe_size fe) p) l).

Definition fe_ok (fe : freeExtent) : Prop :=
  0 <= fe_physStart fe /\ 0 < fe_size fe /\ fe_physStart fe + fe_size fe < 2 ^ 64.

(** Well formed: extents are non-empty, do not wrap, and do not overlap. *)
Definition sm_wf (sm : spaceManager) : Prop :=
  Forall fe_ok (sm_freeExts sm) /\ (forall p, cov (sm_freeExts sm) p <= 1) /\
  0 < sm_nodeSize sm.

Definition is_free (sm : spaceManager) (p : Z) : Prop := 0 < cov (sm_freeExts sm) p.

Lemma inr_spec s n p :
  (s <= p < s + n /\ inr s n p = 1) \/ (~ s <= p < s + n /\ inr s n p = 0).
Proof. unfold inr. case_if; [left|right]; split; lia. Qed.

Lemma inr_range s n p : 0 <= inr s n p <= 1.
Proof. destruct (inr_spec s n p); lia. Qed.

Lemma cov_nonneg l p : 0 <= cov l p.
Proof.
  apply sumZ_nonneg, Forall_map, Forall_forall. intros fe _. apply inr_range.
Qed.

Lemma cov_cons fe l p : cov (fe :: l) p = inr (fe_physStart fe) (fe_size fe) p + cov l p.
Proof. reflexivity. Qed.

Lemma cov_app l1 l2 p : cov (l1 ++ l2) p = cov l1 p + cov l2 p.
Proof. apply sumZ_map_app. Qed.

Lemma cov_perm l1 l2 p : l1 ≡ₚ l2 -> cov l1 p = cov l2 p.
Proof. induction 1; rewrite ?cov_cons; lia. Qed.

Lemma cov_nil p : cov [] p = 0.
Proof. reflexivity. Qed.

(** Split every [inr] in sight into its two cases, then linear arithmetic. *)
Ltac inr_lia :=
  rewrite ?cov_app, ?cov_cons, ?cov_nil in *; cbn [fe_physStart fe_size] in *;
  repeat match goal with
  | |- context [inr ?s ?n ?p] =>
      lazymatch goal with
      | _ : inr s n p = _ |- _ => fail
      | _ => destruct (inr_spec s n p) as [[? ?]|[? ?]]
      end
  | _ : context [inr ?s ?n ?p] |- _ =>
      lazymatch goal with
      | _ : inr s n p = _ |- _ => fail
      | _ => destruct (inr_spec s n p) as [[? ?]|[? ?]]
      end
  end; lia.

Lemma feEnd_ok fe : fe_ok fe -> feEnd fe = fe_physStart fe + fe_size fe.
Proof. intros (?&?&?). unfold feEnd. by u64_tac. Qed.

(** A byte is free exactly when some extent of the list holds it. *)
Lemma is_free_elem sm p :
  is_free sm p <-> exists fe, fe ∈ sm_freeExts sm /\
                     fe_physStart fe <= p < fe_physStart fe + fe_size fe.
Proof.
  unfold is_free. induction (sm_freeExts sm) as [|fe l IH].
  - rewrite cov_nil. split; [lia|]. intros (?&H&_). by apply not_elem_of_nil in H.
  - pose proof (cov_nonneg l p). rewrite cov_cons. destruct (inr_spec (fe_physStart fe) (fe_size fe) p) as [[? E]|[? E]]; rewrite E.
    + split; [|lia]. intros _. exists fe. split; [constructor|done].
    + rewrite Z.add_0_l, IH. split.
      * intros (fe'&?&?). exists fe'. by split; [constructor|].
      * intros (fe'&Hin&?). apply elem_of_cons in Hin as [->|?]; [lia|eauto].
Qed.

(** ** Subtraction *)
Lemma remove_one_spec s n fe :
  0 <= s -> 0 < n -> s + n < 2 ^ 64 -> fe_ok fe ->
  Forall fe_ok (remove_one s (s +₆₄ n) fe) /\
  forall p, cov (remove_one s (s +₆₄ n) fe) p =
            if (s <=? p) && (p <? s + n) then 0 else inr (fe_physStart fe) (fe_size fe) p.
Proof.
  intros ??? Hok. pose proof Hok as (?&?&?). unfold remove_one.
  rewrite feEnd_ok by done. u64_tac.
  repeat case_if; cbn [app]; (split; [repeat constructor; unfold fe_ok; cbn [fe_physStart fe_size]; u64_tac; lia|]);
    intros p; case_if; u64_tac; inr_lia.
Qed.

Lemma remove_list_spec s n l :
  0 <= s -> 0 < n -> s + n < 2 ^ 64 -> Forall fe_ok l ->
  Forall fe_ok (flat_map (remove_one s (s +₆₄ n)) l) /\
  forall p, cov (flat_map (remove_one s (s +₆₄ n)) l) p =
            if (s <=? p) && (p <? s + n) then 0 else cov l p.
Proof.
  intros ???. induction 1 as [|fe l Hfe Hl [IH1 IH2]]; cbn [flat_map].
  - split; [done|]. intros p. rewrite cov_nil. by case_if.
  - destruct (remove_one_spec s n fe) as [H1' H2']; [done..|].
    split; [by apply Forall_app|]. intros p. rewrite cov_app, H2', IH2, cov_cons. case_if; lia.
Qed.

(** ** First fit *)
Lemma take_first_spec need l phys l' :
  0 < need -> need < 2 ^ 64 -> Forall fe_ok l -> take_first need l = Some (phys, l') ->
  Forall fe_ok l' /\ 0 <= phys /\ phys + need < 2 ^ 64 /\
  forall p, cov l p = cov l' p + inr phys need p.
Proof.
  intros Hn Hn'. revert l'. induction l as [|fe l IH]; cbn [take_first]; [done|].
  intros l' Hok H. apply Forall_cons in Hok as [Hfe Hl]. pose proof Hfe as (?&?&?).
  case_if_in H.
  - injection H as <- <-. case_if.
    + split_and!; [done|lia|lia|]. intros p. rewrite cov_cons. inr_lia.
    + u64_tac. split_and!; [constructor; [|done]; unfold fe_ok; cbn [fe_physStart fe_size]; lia|lia|lia|].
      intros p. rewrite !cov_cons. inr_lia.
  - destruct (take_first need l) as [[phys' l'']|] eqn:E; [|done].
    cbn in H. injection H as -> <-. destruct (IH _ Hl eq_refl) as (?&?&?&Hc).
    split_and!; [by constructor|lia|lia|]. intros p. rewrite !cov_cons, Hc. lia.
Qed.

Lemma take_first_None need l :
  take_first need l = None <-> Forall (fun fe => fe_size fe < need) l.
Proof.
  induction l as [|fe l IH]; cbn [take_first]; [done|].
  rewrite Forall_cons, <- IH. case_if.
  - split; [done|]. intros [? _]; lia.
  - destruct (take_first need l) as [[]|]; cbn; [|tauto].
    split; [done|intros [_ H]; done].
Qed.

Lemma cov_le_1_sub l l' s n :
  (forall p, cov l p = cov l' p + inr s n p) ->
  (forall p, cov l p <= 1) -> forall p, cov l' p <= 1.
Proof. intros H H1 p. specialize (H p). specialize (H1 p). pose proof (inr_range s n p). lia. Qed.

(** ** Largest extent *)
Lemma find_best_spec sec (l : list freeExtent) i best :
  match find_best sec l i best with
  | Some (j, s) =>
      best = Some (j, s) \/
      (i <= j < i + length l)%nat /\ sec <= s /\
      exists fe, l !! (j - i)%nat = Some fe /\ fe_size fe = s
  | None => best = None
  end.
Proof.
  revert i best. induction l as [|fe l IH]; intros i best; cbn [find_best length].
  - destruct best as [[]|]; auto.
  - match goal with |- context [find_best sec l (S i) ?b] => remember b as best' eqn:Hb end.
    specialize (IH (S i) best'). destruct (find_best sec l (S i) best') as [[j s]|].
    + destruct IH as [E|(?&?&fe'&Hl&?)].
      * rewrite Hb in E. case_if_in E; [|by left]. injection E as <- <-. right.
        split_and!; [lia|lia|lia|]. exists fe. by rewrite Nat.sub_diag.
      * right. split_and!; try lia. exists fe'. split; [|done].
        replace (j - i)%nat with (S (j - S i)) by lia. done.
    + rewrite Hb in IH. case_if_in IH; done.
Qed.

Lemma cov_update (l : list freeExtent) i fe fe' p :
  l !! i = Some fe ->
  cov (<[i := fe']> l) p + inr (fe_physStart fe) (fe_size fe) p =
  cov l p + inr (fe_physStart fe') (fe_size fe') p.
Proof.
  revert i. induction l as [|x l IH]; intros [|i] H; [done|done|..].
  - injection H as ->. change (<[0%nat := fe']> (fe :: l)) with (fe' :: l). rewrite !cov_cons. lia.
  - change (<[S i := fe']> (x :: l)) with (x :: <[i := fe']> l). rewrite !cov_cons. specialize (IH _ H). lia.
Qed.

Lemma cov_remove_at (l : list freeExtent) i fe p :
  l !! i = Some fe -> cov (remove_at i l) p + inr (fe_physStart fe) (fe_size fe) p = cov l p.
Proof.
  intros H. unfold remove_at. rewrite <- (take_drop_middle l i fe H) at 3.
  rewrite !cov_app, cov_cons. lia.
Qed.

Lemma Forall_remove_at {A} (P : A -> Prop) i l : Forall P l -> Forall P (remove_at i l).
Proof. intros. apply Forall_app. split; [by apply Forall_take|by apply Forall_drop]. Qed.

(** ** Sort and merge *)
Lemma sift_perm fe r : sift fe r ≡ₚ fe :: r.
Proof.
  induction r as [|x r IH]; cbn [sift]; [done|]. case_if; [|done]. rewrite IH. constructor.
Qed.

Lemma insertion_sort_perm l : insertion_sort l ≡ₚ l.
Proof.
  unfold insertion_sort. rewrite <- Permutation_rev.
  assert (H : forall acc, foldl (fun acc fe => sift fe acc) acc l ≡ₚ acc ++ l).
  { induction l as [|fe l IH]; intros acc; cbn [foldl]; [by rewrite app_nil_r|].
    rewrite IH, sift_perm. cbn. apply Permutation_middle. }
  apply (H []).
Qed.

(** Sorted by start address, largest first (the reversed prefix). *)
Definition rsorted (l : list freeExtent) : Prop :=
  StronglySorted (fun a b => fe_physStart b <= fe_physStart a) l.

Lemma sift_sorted fe r : rsorted r -> rsorted (sift fe r).
Proof.
  induction 1 as [|x r Hr IH Hx]; cbn [sift]; [by repeat constructor|]. case_if.
  - constructor; [done|]. rewrite sift_perm. constructor; [lia|done].
  - constructor; [by constructor|]. constructor; [lia|].
    eapply Forall_impl; [exact Hx|]. cbn. intros; lia.
Qed.

Lemma foldl_sift_sorted l acc :
  rsorted acc -> rsorted (foldl (fun acc fe => sift fe acc) acc l).
Proof. revert acc. induction l; intros acc H; cbn [foldl]; auto using sift_sorted. Qed.

(** The merge pass preserves coverage, sortedness and well-formedness, and leaves
    no two adjacent extents that touch. *)
Definition rdisj (l : list freeExtent) : Prop :=
  forall i a b, l !! i = Some a -> l !! S i = Some b ->
           fe_physStart b + fe_size b <> fe_physStart a.

Lemma merge_step_spec merged fe :
  Forall fe_ok merged -> fe_ok fe ->
  Forall fe_ok (merge_step merged fe) /\
  forall p, cov (merge_step merged fe) p = cov merged p + inr (fe_physStart fe) (fe_size fe) p.
Proof.
  intros Hm Hfe. pose proof Hfe as (?&?&?). destruct merged as [|last r]; cbn [merge_step].
  - split; [by constructor|]. intros p. rewrite cov_cons, cov_nil. lia.
  - apply Forall_cons in Hm as [Hlast Hr]. pose proof Hlast as (?&?&?).
    rewrite feEnd_ok by done. case_if.
    + u64_tac. split.
      * constructor; [|done]. unfold fe_ok. cbn [fe_physStart fe_size]. lia.
      * intros p. inr_lia.
    + split; [by repeat constructor|]. intros p. rewrite !cov_cons. lia.
Qed.

Lemma merge_fold_spec l merged :
  Forall fe_ok merged -> Forall fe_ok l ->
  Forall fe_ok (foldl merge_step merged l) /\
  forall p, cov (foldl merge_step merged l) p = cov merged p + cov l p.
Proof.
  revert merged. induction l as [|fe l IH]; intros merged Hm Hl; cbn [foldl].
  - split; [done|]. intros p. rewrite cov_nil. lia.
  - apply Forall_cons in Hl as [Hfe Hl].
    destruct (merge_step_spec merged fe Hm Hfe) as [H1 H2].
    destruct (IH _ H1 Hl) as [H3 H4]. split; [done|].
    intros p. rewrite H4, H2, cov_cons. lia.
Qed.

Lemma merge_step_sorted merged fe :
  rsorted merged -> rdisj merged -> Forall fe_ok merged ->
  Forall (fun x => fe_physStart x <= fe_physStart fe) merged ->
  rsorted (merge_step merged fe) /\ rdisj (merge_step merged fe) /\
  Forall (fun x => fe_physStart x <= fe_physStart fe) (merge_step merged fe).
Proof.
  intros Hs Hd Hok Hle. destruct merged as [|last r]; cbn [merge_step].
  - split_and!; [by repeat constructor| |by repeat constructor].
    intros i a b _ Hb. destruct i; done.
  - apply Forall_cons in Hok as [Hlast _]. pose proof (feEnd_ok last Hlast) as E.
    apply Forall_cons in Hle as [Hl Hr]. inversion_clear Hs as [|? ? Hs1 Hs2]. case_if.
    + split_and!; [constructor; done| |constructor; done].
      intros [|i] a b Ha Hb; [|by apply (Hd (S i))]. injection Ha as <-. cbn.
      by apply (Hd 0%nat last b).
    + split_and!; [by repeat constructor| |by repeat constructor; [lia| |]].
      intros [|i] a b Ha Hb; [|by apply (Hd i)]. injection Ha as <-. injection Hb as <-. lia.
Qed.

Lemma merge_fold_sorted l merged :
  rsorted merged -> rdisj merged -> Forall fe_ok merged -> Forall fe_ok l ->
  StronglySorted (fun a b => fe_physStart a <= fe_physStart b) l ->
  (forall x fe, x ∈ merged -> fe ∈ l -> fe_physStart x <= fe_physStart fe) ->
  rsorted (foldl merge_step merged l) /\ rdisj (foldl merge_step merged l).
Proof.
  revert merged. induction l as [|fe l IH]; intros merged Hs Hd Hm Hl Hsl Hle; cbn [foldl]; [done|].
  apply Forall_cons in Hl as [Hfe Hl]. inversion_clear Hsl as [|? ? Hsl1 Hsl2].
  destruct (merge_step_sorted merged fe Hs Hd Hm) as (H1&H2&H3).
  { apply Forall_forall. intros x Hx. apply Hle; [done|constructor]. }
  destruct (merge_step_spec merged fe Hm Hfe) as [H4 _].
  apply IH; try done. intros x y Hx Hy.
  rewrite Forall_forall in H3, Hsl2. specialize (H3 _ Hx). specialize (Hsl2 _ Hy). lia.
Qed.

Lemma StronglySorted_rev {A} (R : A -> A -> Prop) l :
  StronglySorted (fun a b => R b a) l -> StronglySorted R (rev l).
Proof.
  induction 1 as [|x l Hl IH Hx]; cbn; [constructor|].
  apply StronglySorted_app. split_and!; [|done|by repeat constructor].
  intros y z Hy Hz. apply list_elem_of_singleton in Hz as ->.
  rewrite Forall_forall in Hx. apply Hx. apply list_elem_of_In, in_rev.
  by apply list_elem_of_In.
Qed.

Lemma insertion_sort_sorted l :
  StronglySorted (fun a b => fe_physStart a <= fe_physStart b) (insertion_sort l).
Proof. apply StronglySorted_rev, foldl_sift_sorted. constructor. Qed.

(** Sorted by start address and fully merged: each extent starts strictly after
    the previous one ends, or before it (never exactly at its end). *)
Definition fl_sorted (l : list freeExtent) : Prop :=
  StronglySorted (fun a b => fe_physStart a <= fe_physStart b) l.
Definition fl_merged (l : list freeExtent) : Prop :=
  forall i a b, l !! i = Some a -> l !! S i = Some b ->
           fe_physStart a + fe_size a <> fe_physStart b.

Lemma rdisj_rev l : rdisj l -> fl_merged (rev l).
Proof.
  intros H i a b Ha Hb. pose proof (lookup_lt_Some _ _ _ Hb) as Hlt.
  rewrite length_rev in Hlt.
  rewrite rev_alt in Ha, Hb. change (rev_append l []) with (reverse l) in Ha, Hb.
  rewrite reverse_lookup in Ha by lia. rewrite reverse_lookup in Hb by lia.
  apply (H (length l - S (S i))%nat b a); [done|].
  replace (S (length l - S (S i))) with (length l - S i)%nat by lia. done.
Qed.

Lemma coalesce_spec l :
  Forall fe_ok l ->
  Forall fe_ok (coalesce l) /\ (forall p, cov (coalesce l) p = cov l p) /\
  fl_sorted (coalesce l) /\ fl_merged (coalesce l).
Proof.
  intros Hl. unfold coalesce. destruct (Nat.ltb_spec (length l) 2) as [Hlt|_].
  - split_and!; [done|done| |].
    + destruct l as [|a [|]]; [constructor|by repeat constructor|cbn in Hlt; lia].
    + intros i a b _ Hb. apply lookup_lt_Some in Hb. lia.
  - assert (Hs : Forall fe_ok (insertion_sort l)) by by rewrite insertion_sort_perm.
    destruct (merge_fold_spec (insertion_sort l) [] ltac:(constructor) Hs) as [H1 H2].
    destruct (merge_fold_sorted (insertion_sort l) []) as [H3 H4];
      [constructor|done|constructor|done|apply insertion_sort_sorted|..].
    { intros x fe Hx. by apply not_elem_of_nil in Hx. }
    split_and!.
    + by rewrite <- Permutation_rev.
    + intros p. rewrite <- (cov_perm _ _ p (Permutation_rev _)), H2, cov_nil.
      rewrite (cov_perm _ _ p (insertion_sort_perm l)). lia.
    + by apply StronglySorted_rev.
    + by apply rdisj_rev.
Qed.

(** ** Operations on a well-formed list *)
Lemma round_up64_spec size sec :
  0 < sec -> 0 < size -> size + sec < 2 ^ 64 ->
  size <= round_up64 size sec < size + sec /\ round_up64 size sec mod sec = 0.
Proof.
  intros Hs Hz Hb. unfold round_up64. u64_tac.
  pose proof (Z.div_mod (size + sec - 1) sec ltac:(lia)).
  pose proof (Z.mod_pos_bound (size + sec - 1) sec Hs).
  u64_tac. split; [lia|]. apply Z.mod_mul. lia.
Qed.

Lemma remove_wf sm s n :
  sm_wf sm -> 0 <= s -> 0 < n -> s + n < 2 ^ 64 ->
  sm_wf (remove sm s n) /\
  forall p, cov (sm_freeExts (remove sm s n)) p =
            if (s <=? p) && (p <? s + n) then 0 else cov (sm_freeExts sm) p.
Proof.
  intros (Hok&Hc&Hn) ???. unfold remove. case_if; [lia|]. cbn [set_freeExts sm_freeExts sm_nodeSize].
  destruct (remove_list_spec s n (sm_freeExts sm)) as [H1' H2']; [done..|].
  split; [|done]. split_and!; [done| |done].
  intros p. cbn [sm_freeExts]. rewrite H2'. specialize (Hc p). case_if; lia.
Qed.

Lemma freeRange_wf sm s n :
  sm_wf sm -> fe_ok (FreeExtent s n) -> (forall p, s <= p < s + n -> ~ is_free sm p) ->
  sm_wf (freeRange sm s n) /\
  (forall p, cov (sm_freeExts (freeRange sm s n)) p = cov (sm_freeExts sm) p + inr s n p) /\
  fl_sorted (sm_freeExts (freeRange sm s n)) /\ fl_merged (sm_freeExts (freeRange sm s n)).
Proof.
  intros (Hok&Hc&Hn) Hr Hfree. unfold freeRange. cbn [set_freeExts sm_freeExts].
  destruct (coalesce_spec (sm_freeExts sm ++ [FreeExtent s n])) as (H1&H2&H3&H4).
  { apply Forall_app; split; [done|by constructor]. }
  assert (Hcov : forall p, cov (coalesce (sm_freeExts sm ++ [FreeExtent s n])) p
                      = cov (sm_freeExts sm) p + inr s n p).
  { intros p. rewrite H2, cov_app, cov_cons, cov_nil. cbn. lia. }
  split; [|by split_and!]. split_and!; [done| |done]. intros p. cbn [sm_freeExts]. rewrite Hcov. specialize (Hc p).
  specialize (Hfree p). unfold is_free in Hfree. pose proof (cov_nonneg (sm_freeExts sm) p). inr_lia.
Qed.

Lemma allocNodeBlock_wf sm sm' phys :
  sm_wf sm -> sm_nodeSize sm < 2 ^ 64 -> allocNodeBlock sm = (sm', Ok phys) ->
  sm_wf sm' /\ fe_ok (FreeExtent phys (sm_nodeSize sm)) /\ sm_nodeSize sm' = sm_nodeSize sm /\
  forall p, cov (sm_freeExts sm) p = cov (sm_freeExts sm') p + inr phys (sm_nodeSize sm) p.
Proof.
  intros (Hok&Hc&Hn) Hlt H. unfold allocNodeBlock in H.
  destruct (take_first _ _) as [[ph l]|] eqn:E; [|done]. injection H as <- <-.
  destruct (take_first_spec _ _ _ _ Hn Hlt Hok E) as (?&?&?&Hcov).
  cbn [set_freeExts sm_freeExts sm_nodeSize]. split_and!; [split_and!| |done|]; try done.
  by eapply cov_le_1_sub.
Qed.

Lemma allocDataBytes_wf sm size sec sm' phys n :
  sm_wf sm -> 0 < sec -> 0 < size -> size + sec < 2 ^ 64 ->
  allocDataBytes sm size sec = (sm', Ok (phys, n)) ->
  n = round_up64 size sec /\
  sm_wf sm' /\ fe_ok (FreeExtent phys n) /\ sm_nodeSize sm' = sm_nodeSize sm /\
  forall p, cov (sm_freeExts sm) p = cov (sm_freeExts sm') p + inr phys n p.
Proof.
  intros (Hok&Hc&Hn) Hs Hz Hb H. pose proof (round_up64_spec size sec Hs Hz Hb) as [Hr _].
  unfold allocDataBytes in H. case_if_in H; [lia|].
  destruct (take_first _ _) as [[ph l]|] eqn:E; [|done]. injection H as <- <- <-.
  destruct (take_first_spec (round_up64 size sec) _ _ _ ltac:(lia) ltac:(lia) Hok E) as (?&?&?&Hcov).
  cbn [set_freeExts sm_freeExts sm_nodeSize].
  split_and!; [done|split_and!| |done|]; try done; [by eapply cov_le_1_sub|].
  unfold fe_ok. cbn. lia.
Qed.

Lemma allocDataBytesUpTo_wf sm maxSize sec sm' phys n :
  sm_wf sm -> 0 < sec -> 0 < maxSize ->
  allocDataBytesUpTo sm maxSize sec = (sm', Ok (phys, n)) ->
  sm_wf sm' /\ fe_ok (FreeExtent phys n) /\ sm_nodeSize sm' = sm_nodeSize sm /\
  n <= Z.max maxSize sec /\
  forall p, cov (sm_freeExts sm) p = cov (sm_freeExts sm') p + inr phys n p.
Proof.
  intros (Hok&Hc&Hn) Hs Hm H. unfold allocDataBytesUpTo in H.
  remember (if maxSize <? sec then sec else maxSize) as M eqn:HM.
  assert (sec <= M /\ M <= Z.max maxSize sec) as [HM1 HM2] by (rewrite HM; case_if; lia).
  pose proof (find_best_spec sec (sm_freeExts sm) 0 None) as Hbest.
  destruct (find_best _ _ _ _) as [[bi bs]|]; [|done].
  destruct Hbest as [?|(Hbi&Hbs&fe&Hfe&<-)]; [done|]. rewrite Nat.sub_0_r in Hfe.
  case_if_in H; [lia|]. clear Heqb. rewrite Hfe in H.
  assert (Hfok : fe_ok fe) by by eapply Forall_lookup_1.
  pose proof Hfok as (?&?&?).
  remember (if M <? fe_size fe then _ else _) as t eqn:Ht.
  assert (0 < t <= fe_size fe /\ t <= M) as (Ht1&Ht2).
  { pose proof (Z.div_mod M sec ltac:(lia)). pose proof (Z.mod_pos_bound M sec Hs).
    pose proof (Z.div_str_pos M sec ltac:(lia)). rewrite Ht. case_if; nia. }
  injection H as <- <- <-. cbn [set_freeExts sm_freeExts sm_nodeSize].
  assert (Hcov : forall p, cov (sm_freeExts sm) p =
    cov (if fe_size fe =? t then remove_at bi (sm_freeExts sm)
         else <[bi:=FreeExtent (fe_physStart fe +₆₄ t) (fe_size fe -₆₄ t)]> (sm_freeExts sm)) p
    + inr (fe_physStart fe) t p).
  { intros p. case_if.
    - rewrite <- (cov_remove_at _ _ _ p Hfe). congruence.
    - pose proof (cov_update _ _ _ (FreeExtent (fe_physStart fe +₆₄ t) (fe_size fe -₆₄ t)) p Hfe) as Hu.
      cbn [fe_physStart fe_size] in Hu. revert Hu. u64_tac. intros Hu. inr_lia. }
  split_and!; [split_and!| |done|lia|]; try done.
  - case_if; [by apply Forall_remove_at|]. apply Forall_insert; [done|].
    u64_tac. unfold fe_ok. cbn. lia.
  - by eapply cov_le_1_sub.
  - unfold fe_ok. cbn. lia.
Qed.

Lemma rangeFree_loop_sound l cursor fin :
  Forall fe_ok l -> rangeFree_loop l cursor fin = true ->
  forall p, cursor <= p < fin -> 1 <= cov l p.
Proof.
  intros Hok. revert cursor. induction Hok as [|fe l Hfe Hl IH]; intros cursor H p Hp; [done|].
  cbn [rangeFree_loop] in H. rewrite feEnd_ok in H by done.
  pose proof (cov_nonneg l p). rewrite cov_cons. pose proof (inr_range (fe_physStart fe) (fe_size fe) p).
  repeat case_if_in H; try done.
  - specialize (IH _ H p ltac:(lia)). lia.
  - inr_lia.
  - destruct (Z_lt_dec p (fe_physStart fe + fe_size fe)); [inr_lia|].
    specialize (IH _ H p ltac:(lia)). lia.
Qed.

Lemma rangeFree_loop_complete l cursor fin :
  Forall fe_ok l -> fl_sorted l -> cursor < fin ->
  (forall p, cursor <= p < fin -> 1 <= cov l p) -> rangeFree_loop l cursor fin = true.
Proof.
  intros Hok. revert cursor. induction Hok as [|fe l Hfe Hl IH]; intros cursor Hs Hlt H.
  - specialize (H cursor ltac:(lia)). rewrite cov_nil in H. lia.
  - inversion_clear Hs as [|? ? Hs1 Hs2]. cbn [rangeFree_loop]. rewrite feEnd_ok by done.
    repeat case_if.
    + apply IH; try done. intros p Hp. specialize (H p Hp). rewrite cov_cons in H. inr_lia.
    + specialize (H cursor ltac:(lia)). rewrite cov_cons in H.
      assert (cov l cursor = 0) as Hz.
      { clear -Hs2 Heqb0. induction Hs2 as [|x l Hx Hl IH]; [done|]. rewrite cov_cons, IH. inr_lia. }
      inr_lia.
    + done.
    + apply IH; try done. intros p Hp. specialize (H p ltac:(lia)).
      rewrite cov_cons in H. inr_lia.
Qed.

(** ** The allocator as a state machine

    A state is the space manager together with the ranges handed out and not yet
    returned; the steps are the operations the write path performs. *)
Inductive alloc_step : spaceManager * list freeExtent -> spaceManager * list freeExtent -> Prop :=
| step_node sm sm' used phys :
    allocNodeBlock sm = (sm', Ok phys) ->
    alloc_step (sm, used) (sm', FreeExtent phys (sm_nodeSize sm) :: used)
| step_data sm sm' used size sec phys n :
    0 < sec -> 0 < size -> size + sec < 2 ^ 64 ->
    allocDataBytes sm size sec = (sm', Ok (phys, n)) ->
    alloc_step (sm, used) (sm', FreeExtent phys n :: used)
| step_upto sm sm' used size sec phys n :
    0 < sec -> 0 < size ->
    allocDataBytesUpTo sm size sec = (sm', Ok (phys, n)) ->
    alloc_step (sm, used) (sm', FreeExtent phys n :: used)
| step_free sm used used' fe :
    used ≡ₚ fe :: used' ->
    alloc_step (sm, used) (freeRange sm (fe_physStart fe) (fe_size fe), used').

Inductive alloc_reach (init : spaceManager) : spaceManager * list freeExtent -> Prop :=
| reach_init : alloc_reach init (init, [])
| reach_step st st' : alloc_reach init st -> alloc_step st st' -> alloc_reach init st'.

Definition alloc_inv (init : spaceManager) (st : spaceManager * list freeExtent) : Prop :=
  sm_wf st.1 /\ Forall fe_ok st.2 /\ sm_nodeSize st.1 = sm_nodeSize init /\
  forall p, cov (sm_freeExts st.1) p + cov st.2 p = cov (sm_freeExts init) p.

Lemma alloc_step_inv init st st' :
  sm_wf init -> sm_nodeSize init < 2 ^ 64 ->
  alloc_inv init st -> alloc_step st st' -> alloc_inv init st'.
Proof.
  intros (_&Hi&_) Hns (Hwf&Hu&Hn&Hc) Hstep.
  destruct Hstep as [sm sm' used phys H|sm sm' used size sec phys n ??? H
                    |sm sm' used size sec phys n ?? H|sm used used' fe Hp]; cbn [fst snd] in *.
  - apply allocNodeBlock_wf in H as (?&?&?&Hc'); [|done|lia].
    split_and!; cbn [fst snd]; [done|by constructor|lia|].
    intros p. rewrite <- Hc, Hc', cov_cons. cbn [fe_physStart fe_size]. lia.
  - apply allocDataBytes_wf in H as (_&?&?&?&Hc'); [|done..].
    split_and!; cbn [fst snd]; [done|by constructor|lia|].
    intros p. rewrite <- Hc, Hc', cov_cons. cbn [fe_physStart fe_size]. lia.
  - apply allocDataBytesUpTo_wf in H as (?&?&?&_&Hc'); [|done..].
    split_and!; cbn [fst snd]; [done|by constructor|lia|].
    intros p. rewrite <- Hc, Hc', cov_cons. cbn [fe_physStart fe_size]. lia.
  - rewrite Hp in Hu. apply Forall_cons in Hu as [Hfe Hu].
    destruct (freeRange_wf sm (fe_physStart fe) (fe_size fe)) as (Hwf'&Hc'&_&_); [done|by destruct fe| |].
    + intros p Hin Hfree. specialize (Hc p). specialize (Hi p). rewrite (cov_perm _ _ p Hp), cov_cons in Hc.
      unfold is_free in Hfree. pose proof (cov_nonneg used' p). inr_lia.
    + split_and!; cbn [fst snd]; [done|done|done|].
      intros p. rewrite <- Hc, Hc', (cov_perm _ _ p Hp), cov_cons. lia.
Qed.

(** C27. No sequence of node, contiguous-data and best-fit allocations and of
    returns of allocated ranges hands out a byte twice or loses one: in every
    reachable state the free list is well formed and each physical byte of the
    initial free space lies in exactly one of the free list and the outstanding
    allocations (so two outstanding allocations never overlap). *)
Theorem alloc_no_double_allocation (init : spaceManager) st :
  sm_wf init -> sm_nodeSize init < 2 ^ 64 -> alloc_reach init st ->
  sm_wf st.1 /\
  (forall p, cov (sm_freeExts st.1) p + cov st.2 p = cov (sm_freeExts init) p) /\
  (forall i j a b p, st.2 !! i = Some a -> st.2 !! j = Some b -> i <> j ->
     fe_physStart a <= p < fe_physStart a + fe_size a ->
     ~ fe_physStart b <= p < fe_physStart b + fe_size b).
Proof.
  intros Hwf Hns Hr.
  assert (Hinv : alloc_inv init st).
  { induction Hr as [|st st' _ IH Hs]; [|by eapply alloc_step_inv].
    split_and!; cbn [fst snd]; [done|constructor|done|]. intros p. rewrite cov_nil. lia. }
  destruct Hinv as (H1&_&_&Hc). split_and!; [done|done|].
  intros i j a b p Ha Hb Hne Hpa Hpb. specialize (Hc p). destruct Hwf as (_&H2&_). specialize (H2 p).
  pose proof (cov_nonneg (sm_freeExts st.1) p).
  pose proof (cov_remove_at _ _ _ p Ha) as Hca.
  assert (exists j', remove_at i st.2 !! j' = Some b) as [j' Hj'].
  { unfold remove_at. apply list_elem_of_lookup. rewrite elem_of_app.
    destruct (decide (j < i)%nat).
    - left. apply list_elem_of_lookup. exists j. by rewrite lookup_take_lt.
    - right. apply list_elem_of_lookup. exists (j - S i)%nat. rewrite lookup_drop.
      rewrite <- Hb. f_equal. lia. }
  pose proof (cov_remove_at _ _ _ p Hj') as Hcb.
  pose proof (cov_nonneg (remove_at j' (remove_at i st.2)) p). inr_lia.
Qed.

Definition sm_ex : spaceManager :=
  SpaceManager [FreeExtent 4096 8192; FreeExtent 65536 16384] 4096.

Lemma sm_ex_wf : sm_wf sm_ex.
Proof.
  split_and!; [repeat constructor; unfold fe_ok; cbn; lia| |cbn; lia].
  intros p. unfold sm_ex. cbn [sm_freeExts]. inr_lia.
Qed.

Lemma alloc_no_double_allocation_witness :
  exists st, alloc_reach sm_ex st /\ st.2 = [FreeExtent 4096 4096; FreeExtent 8192 4096] /\
  (forall p, cov (sm_freeExts st.1) p + cov st.2 p = cov (sm_freeExts sm_ex) p).
Proof.
  exists (SpaceManager [FreeExtent 65536 16384] 4096, [FreeExtent 4096 4096; FreeExtent 8192 4096]).
  assert (Hr : alloc_reach sm_ex
    (freeRange (SpaceManager [FreeExtent 65536 16384] 4096) 4096 4096, [FreeExtent 8192 4096])).
  { eapply reach_step; [eapply reach_step; [eapply reach_step; [apply reach_init|]|]|].
    - eapply step_node. reflexivity.
    - eapply step_node. reflexivity.
    - apply (step_free _ _ _ (FreeExtent 4096 4096)). apply Permutation_swap. }
  assert (Hr2 : alloc_reach sm_ex (SpaceManager [FreeExtent 65536 16384] 4096,
                                   [FreeExtent 4096 4096; FreeExtent 8192 4096])).
  { eapply reach_step; [exact Hr|].
    apply (step_node (freeRange (SpaceManager [FreeExtent 65536 16384] 4096) 4096 4096)). reflexivity. }
  split; [exact Hr2|]. split; [reflexivity|].
  exact (proj1 (proj2 (alloc_no_double_allocation sm_ex _ sm_ex_wf ltac:(cbn; lia) Hr2))).
Defined.

(** [remove] subtracts exactly the range it is given: every byte of
    [[start, start+size)] stops being free, every other byte keeps its state,
    and the list stays well formed. *)
Theorem remove_exact sm start size :
  sm_wf sm -> 0 <= start -> 0 < size -> start + size < 2 ^ 64 ->
  sm_wf (remove sm start size) /\
  forall p, is_free (remove sm start size) p <->
            is_free sm p /\ ~ (start <= p < start + size).
Proof.
  intros Hwf ???. destruct (remove_wf sm start size) as [H1' H2']; [done..|].
  split; [done|]. intros p. unfold is_free. rewrite H2'. case_if; lia.
Qed.

Lemma remove_exact_witness :
  sm_freeExts (remove sm_ex 8192 4096) = [FreeExtent 4096 4096; FreeExtent 65536 16384] /\
  sm_wf (remove sm_ex 8192 4096).
Proof.
  split; [reflexivity|].
  exact (proj1 (remove_exact sm_ex 8192 4096 sm_ex_wf ltac:(lia) ltac:(lia) ltac:(lia))).
Defined.

(** [freeRange] of a range that is not free adds exactly that range to the
    free bytes and leaves the list well formed, sorted by address and fully
    merged (no extent starts where its predecessor ends). *)
Theorem freeRange_normalises sm start size :
  sm_wf sm -> fe_ok (FreeExtent start size) ->
  (forall p, start <= p < start + size -> ~ is_free sm p) ->
  sm_wf (freeRange sm start size) /\
  (forall p, is_free (freeRange sm start size) p <-> is_free sm p \/ start <= p < start + size) /\
  fl_sorted (sm_freeExts (freeRange sm start size)) /\
  fl_merged (sm_freeExts (freeRange sm start size)).
Proof.
  intros Hwf Hok Hf. destruct (freeRange_wf sm start size) as (?&Hc&?&?); [done..|].
  split_and!; [done| |done|done]. intros p. unfold is_free. rewrite Hc.
  pose proof (cov_nonneg (sm_freeExts sm) p). inr_lia.
Qed.

Lemma freeRange_normalises_witness :
  sm_freeExts (freeRange sm_ex 12288 4096) = [FreeExtent 4096 12288; FreeExtent 65536 16384] /\
  sm_wf (freeRange sm_ex 12288 4096).
Proof.
  split; [reflexivity|].
  refine (proj1 (freeRange_normalises sm_ex 12288 4096 sm_ex_wf _ _)).
  - unfold fe_ok. cbn. lia.
  - intros p Hp. unfold is_free, sm_ex. cbn [sm_freeExts]. inr_lia.
Defined.

(** On the sorted list the allocator keeps after a [freeRange], [rangeFree]
    decides exactly whether every byte of the window is free; it is the gate of
    the shrink path that truncates without relocating. *)
Theorem rangeFree_decides sm start size :
  sm_wf sm -> fl_sorted (sm_freeExts sm) ->
  0 <= start -> 0 <= size -> start + size < 2 ^ 64 ->
  rangeFree sm start size = true <-> forall p, start <= p < start + size -> is_free sm p.
Proof.
  intros (Hok&_&_) Hs ???. unfold rangeFree, is_free. case_if.
  - split; [|done]. intros _ p Hp. lia.
  - u64_tac. split.
    + intros Ht p Hp. pose proof (rangeFree_loop_sound _ _ _ Hok Ht p Hp). lia.
    + intros Hf. apply rangeFree_loop_complete; [done|done|lia|].
      intros p Hp. specialize (Hf p Hp). lia.
Qed.

Lemma rangeFree_decides_witness :
  rangeFree sm_ex 65536 16384 = true /\ (forall p, 65536 <= p < 65536 + 16384 -> is_free sm_ex p).
Proof.
  split; [reflexivity|].
  refine (proj1 (rangeFree_decides sm_ex 65536 16384 sm_ex_wf _ _ _ _) eq_refl); try lia.
  repeat constructor; cbn; lia.
Defined.

(** [allocDataBytes] on every branch: with a non-zero sector size it returns a
    sector-aligned length covering [size] with less than one sector of slack, cut
    from free space, or the error exactly when no single free extent is large
    enough, in which case the free list is unchanged. *)
Theorem allocDataBytes_contract sm size sec :
  sm_wf sm -> 0 < sec -> 0 < size -> size + sec < 2 ^ 64 ->
  (exists sm' phys n, allocDataBytes sm size sec = (sm', Ok (phys, n)) /\
     size <= n < size + sec /\ n mod sec = 0 /\ sm_wf sm' /\
     (forall p, phys <= p < phys + n -> is_free sm p /\ ~ is_free sm' p) /\
     (forall p, ~ (phys <= p < phys + n) -> is_free sm p <-> is_free sm' p)) \/
  (allocDataBytes sm size sec = (sm, Err ErrOther) /\
     Forall (fun fe => fe_size fe < round_up64 size sec) (sm_freeExts sm)).
Proof.
  intros Hwf Hs Hz Hb. pose proof (round_up64_spec size sec Hs Hz Hb) as [Hr Hm].
  destruct (allocDataBytes sm size sec) as [sm' o] eqn:E.
  destruct o as [[phys n]|e| |].
  - left. exists sm', phys, n. pose proof E as E'.
    apply allocDataBytes_wf in E' as (->&Hwf'&Hok&_&Hc); [|done..].
    destruct Hwf as (_&H1&_). split_and!; [done|lia|lia|done|done| |];
      intros p; specialize (Hc p); specialize (H1 p); unfold is_free;
      pose proof (cov_nonneg (sm_freeExts sm') p); inr_lia.
  - right. unfold allocDataBytes in E. case_if_in E; [lia|].
    destruct (take_first _ _) as [[]|] eqn:Ht; [done|]. injection E as <- <-.
    split; [done|]. by apply take_first_None.
  - exfalso. unfold allocDataBytes in E. case_if_in E; [lia|].
    destruct (take_first _ _) as [[]|]; done.
  - exfalso. unfold allocDataBytes in E. case_if_in E; [lia|].
    destruct (take_first _ _) as [[]|]; done.
Qed.

Lemma allocDataBytes_contract_witness :
  allocDataBytes sm_ex 5000 4096 = (SpaceManager [FreeExtent 65536 16384] 4096, Ok (4096, 8192)) /\
  (exists sm' phys n, allocDataBytes sm_ex 5000 4096 = (sm', Ok (phys, n)) /\ 5000 <= n < 5000 + 4096).
Proof.
  split; [reflexivity|].
  destruct (allocDataBytes_contract sm_ex 5000 4096 sm_ex_wf ltac:(lia) ltac:(lia) ltac:(lia))
    as [(sm'&phys&n&H&Hn&_)|[H _]]; [by exists sm', phys, n|discriminate].
Defined.
