(* ===== verification/Layout.v ===== *)
(** * On-disk constants (btrfs.go, harden.go and the offset tables of the parsers) *)
From Stdlib Require Import ZArith.
Local Open Scope Z_scope.

(** ** btrfs.go *)
Definition superblockOffset : Z := 0x10000.
Definition sbMagic : Z := 0x4D5F53665248425F.

Definition rootTreeObjID : Z := 1.
Definition extentTreeObjID : Z := 2.
Definition chunkTreeObjID : Z := 3.
Definition devTreeObjID : Z := 4.
Definition fsTreeObjID : Z := 5.
Definition csumTreeObjID : Z := 7.
Definition uuidTreeObjID : Z := 9.
Definition dataRelocTreeObjID : Z := 0xFFFFFFFFFFFFFFF7.
Definition devItemsObjID : Z := 1.
Definition firstChunkTreeObjID : Z := 256.
Definition devStatsObjID : Z := 0.
Definition rootDirObjID : Z := 256.

Definition typeInodeItem : Z := 0x01.
Definition typePersistentItem : Z := 0xF9.
Definition typeInodeRef : Z := 0x0C.
Definition typeXattrItem : Z := 0x18.
Definition typeDirItem : Z := 0x54.
Definition typeDirIndex : Z := 0x60.
Definition typeExtentData : Z := 0x6C.
Definition typeRootItem : Z := 0x84.
Definition typeExtentItem : Z := 0xA8.
Definition typeMetadataItem : Z := 0xA9.
Definition typeTreeBlockRef : Z := 0xB0.
Definition typeBlockGroupItem : Z := 0xC0.
Definition typeDevExtent : Z := 0xCC.
Definition typeDevItem : Z := 0xD8.
Definition typeChunkItem : Z := 0xE4.

Definition extentFlagTreeBlock : Z := 2.

Definition ftRegFile : Z := 1.
Definition ftDir : Z := 2.
Definition ftSymlink : Z := 7.

Definition extentDataInline : Z := 0.
Definition extentDataRegular : Z := 1.

Definition compressionNone : Z := 0.
Definition compressionZlib : Z := 1.
Definition compressionLzo : Z := 2.
Definition compressionZstd : Z := 3.

(** ** harden.go *)
Definition maxNodeSize : Z := 64 * 1024.
Definition maxBtreeDepth : Z := 64.
Definition maxTreeNodes : Z := 2 ^ 20.
Definition hardSizeCeiling : Z := 2 ^ 30.
Definition maxDecompressRAM : Z := 128 * 1024.
Definition btrfsStripeLen : Z := 64 * 1024.

(** ** btree.go *)
Definition nodeHdrSize : Z := 0x65.
Definition keyPtrSize : Z := 33.
Definition itemSize : Z := 25.

(** ** superblock.go *)
Definition blockGroupData : Z := 0x01.
Definition blockGroupSystem : Z := 0x02.
Definition blockGroupMeta : Z := 0x04.
Definition blockGroupRAID0 : Z := 0x08.
Definition blockGroupRAID1 : Z := 0x10.
Definition blockGroupDup : Z := 0x20.
Definition blockGroupRAID10 : Z := 0x40.
Definition blockGroupRAID5 : Z := 0x80.
Definition blockGroupRAID6 : Z := 0x100.
Definition blockGroupRAID1C3 : Z := 0x200.
Definition blockGroupRAID1C4 : Z := 0x400.
Definition blockGroupProfileMask : Z := 0x7F8.

Definition sbfUUID : Z := 0x20.
Definition sbfPhysAddr : Z := 0x30.
Definition sbfFlags : Z := 0x38.
Definition sbfMagic : Z := 0x40.
Definition sbfGeneration : Z := 0x48.
Definition sbfRootLogAddr : Z := 0x50.
Definition sbfChunkLogAddr : Z := 0x58.
Definition sbfTotalBytes : Z := 0x70.
Definition sbfBytesUsed : Z := 0x78.
Definition sbfRootDirObjID : Z := 0x80.
Definition sbfNumDevices : Z := 0x88.
Definition sbfSectorSize : Z := 0x90.
Definition sbfNodeSize : Z := 0x94.
Definition sbfLeafSize : Z := 0x98.
Definition sbfStripeSize : Z := 0x9C.
Definition sbfSysChunkArrSz : Z := 0xA0.
Definition sbfChunkRootGeneration : Z := 0xA4.
Definition sbfCompatFlags : Z := 0xAC.
Definition sbfCompatROFlags : Z := 0xB4.
Definition sbfIncompatFlags : Z := 0xBC.
Definition sbfCsumType : Z := 0xC4.
Definition sbfDevItem : Z := 0xC9.
Definition sbfLabel : Z := 0x12B.
Definition sbfSysChunkArr : Z := 0x32B.
Definition sbfRootBackups : Z := 0xB2B.
Definition rootBackupSize : Z := 168.
Definition incompatMixedFlags : Z := 0x345.
Definition csumTypeCRC32C : Z := 0.
Definition sbfSize : Z := 0x1000.

Definition chunkSize : Z := 0x00.
Definition chunkRootObjID : Z := 0x08.
Definition chunkStripeLen : Z := 0x10.
Definition chunkType : Z := 0x18.
Definition chunkOptIOAlign : Z := 0x20.
Definition chunkOptIOWidth : Z := 0x24.
Definition chunkMinIOSize : Z := 0x28.
Definition chunkNumStripes : Z := 0x2C.
Definition chunkSubStripes : Z := 0x2E.
Definition chunkStripeDevID : Z := 0x30.
Definition chunkStripeOffset : Z := 0x38.
Definition chunkStripeDevUUID : Z := 0x40.
Definition chunkStripeSize : Z := 0x20.
Definition chunkHeaderSize : Z := 0x30.
Definition keySize : Z := 17.

(** ** inode.go, read.go, dir.go, subvol.go *)
Definition inodeFlagNoDataSum : Z := 1.
Definition inodeOffGeneration : Z := 0x00.
Definition inodeOffTransID : Z := 0x08.
Definition inodeOffSize : Z := 0x10.
Definition inodeOffNBytes : Z := 0x18.
Definition inodeOffNLink : Z := 0x28.
Definition inodeOffUID : Z := 0x2C.
Definition inodeOffGID : Z := 0x30.
Definition inodeOffMode : Z := 0x34.
Definition inodeOffFlags : Z := 0x40.
Definition inodeOffSequence : Z := 0x48.
Definition inodeOffATime : Z := 0x70.
Definition inodeOffCTime : Z := 0x7C.
Definition inodeOffMTime : Z := 0x88.
Definition inodeOffOTime : Z := 0x94.
Definition inodeItemSize : Z := 0xA0.

Definition extDataOffRamBytes : Z := 0x08.
Definition extDataOffCompression : Z := 0x10.
Definition extDataOffType : Z := 0x14.
Definition extDataOffDiskBytenr : Z := 0x15.
Definition extDataOffDiskNumBytes : Z := 0x1D.
Definition extDataOffOffset : Z := 0x25.
Definition extDataOffNumBytes : Z := 0x2D.
Definition extDataHdrSize : Z := 0x15.
Definition extDataRegularSize : Z := 0x35.

Definition dirItemHdrSize : Z := 0x1E.

Definition typeRootBackref : Z := 0x90.
Definition typeRootRef : Z := 0x9C.
Definition firstFreeObjID : Z := 256.
Definition lastFreeObjID : Z := 0xFFFFFFFFFFFFFF00.
Definition rootItemOffGeneration : Z := 0xA0.
Definition rootItemOffRootDirID : Z := 0xA8.
Definition rootItemOffBytenr : Z := 0xB0.
Definition rootItemOffLevel : Z := 0xEE.
Definition rootItemOffGenerationV2 : Z := 0xEF.
Definition rootItemMinSize : Z := 0xB8.
Definition rootRefHdrSize : Z := 18.
