(* ===== verification/SafeIO.v ===== *)
(** * The hardening helpers the sources import (github.com/go-volumes/safeio)

    The package is not part of the repository: it is an interface of operations
    with the behaviour the call sites document.  [VisitSet] rejects an id that
    is presented twice, [LoopGuard] allows a fixed number of steps, [MakeBytes],
    [Slice] and [CheckBounds] are bounds-checked allocation and slicing. *)
From Stdlib Require Import ZArith Lia.
From stdpp Require Import base option list numbers sorting.
From S2P Require Import Prelude Bytes.
Local Open Scope Z_scope.

Class SafeIO := {
  VisitSet : Type;
  visit_empty : VisitSet;
  (** [seen.Check(id)] *)
  visit_check : VisitSet -> Z -> outcome VisitSet;
  (** [seen.Add(id)]: whether the id is new *)
  visit_add : VisitSet -> Z -> VisitSet * bool;
  LoopGuard : Type;
  NewLoopGuard : Z -> LoopGuard;
  (** [guard.Next()] *)
  guard_next : LoopGuard -> outcome LoopGuard;
  (** [MakeBytes(n, max)] *)
  MakeBytes : Z -> Z -> outcome bytes;
  (** [Slice(buf, off, n)] *)
  Slice : bytes -> Z -> Z -> outcome bytes;
  (** [CheckBounds(off, n, len)] *)
  CheckBounds : Z -> Z -> Z -> outcome unit;
}.

(** What the callers rely on.  [visit_seen] and [guard_left] are the abstract
    states: the ids presented so far and the steps still allowed. *)
Class SafeIOLaws (H : SafeIO) := {
  visit_seen : VisitSet -> list Z;
  visit_empty_spec : visit_seen visit_empty = [];
  visit_check_spec v id :
    if bool_decide (id ∈ visit_seen v) then visit_check v id = Err ErrCycle
    else exists v', visit_check v id = Ok v' /\ visit_seen v' = id :: visit_seen v;
  visit_add_spec v id :
    (visit_add v id).2 = bool_decide (id ∉ visit_seen v) /\
    forall x, x ∈ visit_seen (visit_add v id).1 <-> x = id \/ x ∈ visit_seen v;
  guard_left : LoopGuard -> Z;
  NewLoopGuard_spec n : 0 <= n -> guard_left (NewLoopGuard n) = n;
  guard_next_spec g :
    if 0 <? guard_left g
    then exists g', guard_next g = Ok g' /\ guard_left g' = guard_left g - 1
    else guard_next g = Err ErrLoopLimit;
  MakeBytes_spec n max :
    if (0 <=? n) && (n <=? max) then MakeBytes n max = Ok (zeros n)
    else MakeBytes n max = Err ErrOutOfBounds;
  Slice_spec b off n :
    if (0 <=? off) && (0 <=? n) && (off + n <=? blen b) then Slice b off n = Ok (sub b off n)
    else Slice b off n = Err ErrOutOfBounds;
  CheckBounds_spec off n len :
    if (0 <=? off) && (0 <=? n) && (off + n <=? len) then CheckBounds off n len = Ok tt
    else CheckBounds off n len = Err ErrOutOfBounds;
}.

(** A list of ids and a counter satisfy the interface. *)
#[global] Instance listSafeIO : SafeIO := {|
  VisitSet := list Z;
  visit_empty := [];
  visit_check v id := if bool_decide (id ∈ v) then Err ErrCycle else Ok (id :: v);
  visit_add v id := if bool_decide (id ∈ v) then (v, false) else (id :: v, true);
  LoopGuard := Z;
  NewLoopGuard n := n;
  guard_next g := if 0 <? g then Ok (g - 1) else Err ErrLoopLimit;
  MakeBytes n max := if (0 <=? n) && (n <=? max) then Ok (zeros n) else Err ErrOutOfBounds;
  Slice b off n :=
    if (0 <=? off) && (0 <=? n) && (off + n <=? blen b) then Ok (sub b off n) else Err ErrOutOfBounds;
  CheckBounds off n len :=
    if (0 <=? off) && (0 <=? n) && (off + n <=? len) then Ok tt else Err ErrOutOfBounds;
|}.

#[global] Instance listSafeIO_laws : SafeIOLaws listSafeIO.
Proof.
  refine {| visit_seen := fun v : @VisitSet listSafeIO => (v : list Z);
            guard_left := fun g : @LoopGuard listSafeIO => (g : Z) |}.
  - reflexivity.
  - intros v id. cbn. case_bool_decide; [done|]. by eexists.
  - intros v id. cbn. case_bool_decide; cbn; rewrite ?bool_decide_eq_true_2, ?bool_decide_eq_false_2 by tauto.
    + split; [done|]. intros x. split; [tauto|]. by intros [->|?].
    + split; [done|]. intros x. by rewrite elem_of_cons.
  - reflexivity.
  - intros g. cbn. case_if; [by eexists|done].
  - intros n max. cbn. by case_if.
  - intros b off n. cbn. by case_if.
  - intros off n len. cbn. by case_if.
Defined.

(** A fresh set accepts an id it has not seen; the results in the shape the
    loops use them. *)
Section Laws.
Context `{HL : SafeIOLaws}.

Lemma visit_check_cases v id :
  (visit_check v id = Err ErrCycle /\ id ∈ visit_seen v) \/
  (exists v', visit_check v id = Ok v' /\ visit_seen v' = id :: visit_seen v /\ id ∉ visit_seen v).
Proof.
  pose proof (visit_check_spec v id) as Hc. case_bool_decide; [by left|].
  right. destruct Hc as (v'&?&?). by exists v'.
Qed.

Lemma visit_check_fresh v id :
  id ∉ visit_seen v -> exists v', visit_check v id = Ok v' /\ visit_seen v' = id :: visit_seen v.
Proof.
  intros Hn. pose proof (visit_check_spec v id) as Hc. case_bool_decide; [done|exact Hc].
Qed.

Lemma guard_next_cases g :
  (guard_next g = Err ErrLoopLimit /\ guard_left g <= 0) \/
  (exists g', guard_next g = Ok g' /\ guard_left g' = guard_left g - 1 /\ 0 < guard_left g).
Proof.
  pose proof (guard_next_spec g) as Hg. case_if_in Hg; [|left; split; [done|lia]].
  right. destruct Hg as (g'&?&?). exists g'. split_and!; try done; lia.
Qed.

Lemma MakeBytes_cases n max :
  (MakeBytes n max = Ok (zeros n) /\ 0 <= n <= max) \/ MakeBytes n max = Err ErrOutOfBounds.
Proof. pose proof (MakeBytes_spec n max) as Hm. case_if_in Hm; [left; split; [done|lia]|by right]. Qed.
Lemma Slice_cases b off n :
  (Slice b off n = Ok (sub b off n) /\ 0 <= off /\ 0 <= n /\ off + n <= blen b) \/
  Slice b off n = Err ErrOutOfBounds.
Proof. pose proof (Slice_spec b off n) as Hm. case_if_in Hm; [left; split; [done|lia]|by right]. Qed.
Lemma CheckBounds_cases off n len :
  (CheckBounds off n len = Ok tt /\ 0 <= off /\ 0 <= n /\ off + n <= len) \/
  CheckBounds off n len = Err ErrOutOfBounds.
Proof. pose proof (CheckBounds_spec off n len) as Hm. case_if_in Hm; [left; split; [done|lia]|by right]. Qed.
Lemma Slice_Ok b off n : 0 <= off -> 0 <= n -> off + n <= blen b -> Slice b off n = Ok (sub b off n).
Proof. intros. pose proof (Slice_spec b off n) as Hm. case_if_in Hm; [done|lia]. Qed.
Lemma CheckBounds_Ok off n len : 0 <= off -> 0 <= n -> off + n <= len -> CheckBounds off n len = Ok tt.
Proof. intros. pose proof (CheckBounds_spec off n len) as Hm. case_if_in Hm; [done|lia]. Qed.
End Laws.
