(* ===== verification/Chunk.v ===== *)
(** * Superblock and chunk map (superblock.go, physToLog/physFromLog of btree_write.go)

    Parsing of the superblock and of the [sys_chunk_array], and the translation
    between logical and physical addresses.  The parsers take attacker-controlled
    bytes: they are shown total, and a superblock they accept has a node
    geometry the B-tree code can rely on. *)
From Stdlib Require Import ZArith Lia Strings.Byte.
From stdpp Require Import base option list numbers sorting.
From S2P Require Import Prelude Bytes Layout SafeIO.
Local Open Scope Z_scope.
Local Open Scope btrfs_scope.

Record chunkStripe := ChunkStripe { cs_devID : Z; cs_offset : Z }.

Record chunkMapping := ChunkMapping {
  cm_logStart : Z; cm_size : Z; cm_physStart : Z; cm_localStripeIdx : Z;
  cm_profile : Z; cm_stripeLen : Z; cm_subStripes : Z; cm_stripes : list chunkStripe }.

Record superblock := Superblock {
  sb_nodeSize : Z; sb_sectorSize : Z; sb_leafSize : Z; sb_stripeSize : Z;
  sb_totalBytes : Z; sb_rootLogAddr : Z; sb_chunkLogAddr : Z; sb_generation : Z;
  sb_devID : Z; sb_uuid : bytes; sb_label : bytes; sb_sysChunks : list chunkMapping }.

Definition set_sysChunks (sb : superblock) (l : list chunkMapping) : superblock :=
  Superblock (sb_nodeSize sb) (sb_sectorSize sb) (sb_leafSize sb) (sb_stripeSize sb)
    (sb_totalBytes sb) (sb_rootLogAddr sb) (sb_chunkLogAddr sb) (sb_generation sb)
    (sb_devID sb) (sb_uuid sb) (sb_label sb) l.

(** ** Stripes *)
Fixpoint pickStripe_loop (fuel : nat) (chunkBuf : bytes) (numStripes wantDev i : Z)
  : outcome (option Z) :=
  if numStripes <=? i then Ok None
  else
    let base := chunkHeaderSize + i * chunkStripeSize in
    if blen chunkBuf <? base + chunkStripeSize then Ok None
    else match fuel with
    | O => NoFuel
    | S fuel =>
        devID ← Uint64 chunkBuf base;
        if devID =? wantDev then off ← Uint64 chunkBuf (base + 8); Ok (Some off)
        else pickStripe_loop fuel chunkBuf numStripes wantDev (i + 1)
    end.

(** The [(offset, ok)] result is an [option]. *)
Definition pickStripeForDevID (chunkBuf : bytes) (numStripes wantDev : Z) : outcome (option Z) :=
  if (wantDev =? 0) && (1 <=? numStripes) then
    let base := chunkHeaderSize in
    if blen chunkBuf <? base + chunkStripeSize then Ok None
    else off ← Uint64 chunkBuf (base + 8); Ok (Some off)
  else pickStripe_loop (Z.to_nat numStripes) chunkBuf numStripes wantDev 0.

Fixpoint parseAllStripes_loop (fuel : nat) (chunkBuf : bytes) (numStripes i : Z)
  : outcome (list chunkStripe) :=
  if numStripes <=? i then Ok []
  else
    let base := chunkHeaderSize + i * chunkStripeSize in
    if blen chunkBuf <? base + chunkStripeSize then Ok []
    else match fuel with
    | O => NoFuel
    | S fuel =>
        d ← Uint64 chunkBuf base;
        o ← Uint64 chunkBuf (base + 8);
        rest ← parseAllStripes_loop fuel chunkBuf numStripes (i + 1);
        Ok (ChunkStripe d o :: rest)
    end.

Definition parseAllStripes (chunkBuf : bytes) (numStripes : Z) : outcome (list chunkStripe) :=
  parseAllStripes_loop (Z.to_nat numStripes) chunkBuf numStripes 0.

(** The loop over the stripes that picks [localIdx] and [physOff]. *)
Fixpoint local_stripe (ourDevID : Z) (i : Z) (stripes : list chunkStripe) : Z * Z :=
  match stripes with
  | [] => (-1, 0)
  | s :: stripes =>
      if (negb (ourDevID =? 0) && (cs_devID s =? ourDevID)) || ((ourDevID =? 0) && (i =? 0))
      then (i, cs_offset s)
      else local_stripe ourDevID (i + 1) stripes
  end.

(** Decode one CHUNK_ITEM body; common to the superblock array and the chunk tree. *)
Definition decode_chunk (logAddr ourDevID : Z) (chunk : bytes) : outcome chunkMapping :=
  chunkSizeBytes ← Uint64 chunk chunkSize;
  numStripes ← Uint16 chunk chunkNumStripes;
  profile ← Uint64 chunk chunkType;
  stripeLen ← Uint64 chunk chunkStripeLen;
  subStripes ← Uint16 chunk chunkSubStripes;
  stripes ← parseAllStripes chunk numStripes;
  let '(localIdx, physOff) := local_stripe ourDevID 0 stripes in
  Ok (ChunkMapping logAddr chunkSizeBytes physOff localIdx profile stripeLen subStripes stripes).

Fixpoint parseSysChunkArray_loop (fuel : nat) (data : bytes) (ourDevID off : Z)
  : outcome (list chunkMapping) :=
  if blen data <? off + keySize then Ok []
  else match fuel with
  | O => NoFuel
  | S fuel =>
      keyType ← Uint8 data (off + 8);
      logAddr ← Uint64 data (off + 9);
      let off := off + keySize in
      if negb (keyType =? 0xE4) then Err ErrOther else
      if blen data <? off + chunkHeaderSize + chunkStripeSize then Err ErrOther else
      chunk ← slice data off (blen data);
      numStripes ← Uint16 chunk chunkNumStripes;
      if numStripes =? 0 then Err ErrOther else
      m ← decode_chunk logAddr ourDevID chunk;
      rest ← parseSysChunkArray_loop fuel data ourDevID
               (off + chunkHeaderSize + numStripes * chunkStripeSize);
      Ok (m :: rest)
  end.

Definition parseSysChunkArray (data : bytes) (ourDevID : Z) : outcome (list chunkMapping) :=
  parseSysChunkArray_loop (length data) data ourDevID 0.

(** ** The superblock

    [read off n] is [ReadAt] of the device the superblock is read from. *)
Definition parse_superblock `{SafeIO} (buf : bytes) : outcome superblock :=
  magic ← Uint64 buf sbfMagic;
  if negb (magic =? sbMagic) then Err ErrOther else
  sectorSize ← Uint32 buf sbfSectorSize;
  nodeSize ← Uint32 buf sbfNodeSize;
  leafSize ← Uint32 buf sbfLeafSize;
  stripeSize ← Uint32 buf sbfStripeSize;
  totalBytes ← Uint64 buf sbfTotalBytes;
  rootLogAddr ← Uint64 buf sbfRootLogAddr;
  chunkLogAddr ← Uint64 buf sbfChunkLogAddr;
  generation ← Uint64 buf sbfGeneration;
  devID ← Uint64 buf sbfDevItem;
  uuid ← slice buf sbfUUID (sbfUUID + 16);
  label ← slice buf sbfLabel (sbfLabel + 256);
  if (nodeSize =? 0) || (sectorSize =? 0) then Err ErrOther else
  if (nodeSize <? nodeHdrSize) || (maxNodeSize <? nodeSize) then Err ErrOther else
  if negb (nodeSize mod sectorSize =? 0) then Err ErrOther else
  arrSz ← Uint32 buf sbfSysChunkArrSz;
  arrBuf ← Slice buf sbfSysChunkArr arrSz;
  chunks ← parseSysChunkArray arrBuf devID;
  Ok (Superblock nodeSize sectorSize leafSize stripeSize totalBytes rootLogAddr chunkLogAddr
        generation devID uuid label chunks).

Definition readSuperblock `{SafeIO} (read : Z -> Z -> outcome bytes) (partOff : Z)
  : outcome superblock :=
  buf ← read (i64 (partOff + superblockOffset)) sbfSize;
  parse_superblock buf.

(** ** Address translation *)
Definition same_mapping (m e : chunkMapping) : bool :=
  (cm_logStart e =? cm_logStart m) && (cm_size e =? cm_size m) && (cm_physStart e =? cm_physStart m).

Definition hasChunkMapping (sb : superblock) (m : chunkMapping) : bool :=
  existsb (same_mapping m) (sb_sysChunks sb).

(** [logAddr >= m.logStart && logAddr < m.logStart+m.size], in [uint64]. *)
Definition in_chunk (logAddr : Z) (m : chunkMapping) : bool :=
  (cm_logStart m <=? logAddr) && (logAddr <? cm_logStart m +₆₄ cm_size m).

Definition lookupChunk (sb : superblock) (logAddr : Z) : outcome chunkMapping :=
  match List.find (in_chunk logAddr) (sb_sysChunks sb) with
  | Some m => Ok m
  | None => Err ErrOther
  end.

Definition logToPhys (sb : superblock) (logAddr : Z) : outcome Z :=
  m ← lookupChunk sb logAddr;
  if cm_localStripeIdx m <? 0 then Err ErrOther
  else Ok (i64 (cm_physStart m +₆₄ (logAddr -₆₄ cm_logStart m))).

Definition physAddr (sb : superblock) (partOff logAddr : Z) : outcome Z :=
  _ ← lookupChunk sb logAddr;
  Ok (i64 (partOff + i64 logAddr)).

Definition in_phys (physOff : Z) (m : chunkMapping) : bool :=
  (cm_physStart m <=? physOff) && (physOff <? cm_physStart m +₆₄ cm_size m).

Definition physToLog (sb : superblock) (physOff : Z) : Z :=
  match List.find (in_phys physOff) (sb_sysChunks sb) with
  | Some m => cm_logStart m +₆₄ (physOff -₆₄ cm_physStart m)
  | None => physOff
  end.

Definition physFromLog (sb : superblock) (logAddr : Z) : Z :=
  match List.find (in_chunk logAddr) (sb_sysChunks sb) with
  | Some m => cm_physStart m +₆₄ (logAddr -₆₄ cm_logStart m)
  | None => logAddr
  end.

(** ** The parsers are total *)
Ltac chk_lia :=
  unfold chunkHeaderSize, chunkStripeSize, chunkSize, chunkNumStripes, chunkType, chunkStripeLen,
    chunkSubStripes, keySize in *; lia.

(** A decoded chunk mapping: fields at their widths, and the local stripe is one
    of the stripes. *)
Definition stripe_ok (s : chunkStripe) : Prop := is_u64 (cs_devID s) /\ is_u64 (cs_offset s).

Definition chunk_ok (m : chunkMapping) : Prop :=
  is_u64 (cm_logStart m) /\ is_u64 (cm_size m) /\ is_u64 (cm_physStart m) /\
  is_u64 (cm_profile m) /\ is_u64 (cm_stripeLen m) /\ 0 <= cm_subStripes m < 2 ^ 16 /\
  Forall stripe_ok (cm_stripes m) /\
  -1 <= cm_localStripeIdx m < Z.of_nat (length (cm_stripes m)) /\
  (0 <= cm_localStripeIdx m ->
   exists s, cm_stripes m !! Z.to_nat (cm_localStripeIdx m) = Some s /\ cm_physStart m = cs_offset s).

Lemma rd64_u64 b off : is_u64 (rd 8 b off).
Proof. pose proof (rd_range 8 b off). unfold is_u64. cbn in *. lia. Qed.

Lemma parseAllStripes_loop_Ok fuel buf n i :
  0 <= i -> n - i <= Z.of_nat fuel ->
  exists l, parseAllStripes_loop fuel buf n i = Ok l /\ Forall stripe_ok l /\
    (chunkHeaderSize + (i + 1) * chunkStripeSize <= blen buf -> i < n -> l <> []).
Proof.
  revert i. induction fuel as [|fuel IH]; intros i Hi Hf; cbn [parseAllStripes_loop].
  - case_if; [|lia]. exists []. split_and!; [done|constructor|lia].
  - case_if; [exists []; split_and!; [done|constructor|lia]|].
    case_if; [exists []; split_and!; [done|constructor|chk_lia]|].
    do 2 (rewrite get_le_Ok by chk_lia; cbn [mbind outcome_bind]).
    destruct (IH (i + 1)) as (l&E&F&_); [lia|lia|]. rewrite E. cbn [mbind outcome_bind].
    eexists. split_and!; [done| |done]. constructor; [|done]. split; apply rd64_u64.
Qed.

Lemma local_stripe_spec dev i stripes :
  let '(idx, phys) := local_stripe dev i stripes in
  (idx = -1 /\ phys = 0) \/
  (exists j s, idx = i + Z.of_nat j /\ stripes !! j = Some s /\ phys = cs_offset s).
Proof.
  revert i. induction stripes as [|s stripes IH]; intros i; cbn [local_stripe]; [by left|].
  case_if.
  - right. exists 0%nat, s. split_and!; [lia|done|done].
  - specialize (IH (i + 1)). destruct (local_stripe dev (i + 1) stripes) as [idx phys].
    destruct IH as [?|(j&s'&?&?&?)]; [by left|]. right. exists (S j), s'. split_and!; [lia|done|done].
Qed.

Lemma decode_chunk_Ok log dev chunk :
  is_u64 log -> chunkHeaderSize + chunkStripeSize <= blen chunk ->
  exists m, decode_chunk log dev chunk = Ok m /\ chunk_ok m /\ cm_logStart m = log.
Proof.
  intros Hlog Hl. unfold decode_chunk.
  do 5 (rewrite get_le_Ok by chk_lia; cbn [mbind outcome_bind]).
  pose proof (rd_range 2 chunk chunkNumStripes). pose proof (rd_range 2 chunk chunkSubStripes).
  destruct (parseAllStripes_loop_Ok (Z.to_nat (rd 2 chunk chunkNumStripes)) chunk
    (rd 2 chunk chunkNumStripes) 0) as (l&E&F&_); [lia|lia|].
  unfold parseAllStripes. rewrite E. cbn [mbind outcome_bind].
  pose proof (local_stripe_spec dev 0 l) as Hs. destruct (local_stripe dev 0 l) as [idx phys].
  eexists. split; [done|]. split; [|done]. unfold chunk_ok. cbn.
  assert (Hphys : is_u64 phys /\ -1 <= idx < Z.of_nat (length l) /\
    (0 <= idx -> exists s, l !! Z.to_nat idx = Some s /\ phys = cs_offset s)).
  { destruct Hs as [[-> ->]|(j&s&->&Hj&->)].
    - split_and!; [unfold is_u64; lia|lia|lia|lia].
    - pose proof (lookup_lt_Some _ _ _ Hj). split_and!; [|lia|lia|].
      + rewrite Forall_lookup in F. by destruct (F _ _ Hj).
      + intros _. exists s. rewrite Z.add_0_l, Nat2Z.id. done. }
  destruct Hphys as (?&?&?). split_and!; try done; try apply rd64_u64; cbn in *; lia.
Qed.

Lemma parseSysChunkArray_loop_safe fuel data dev off :
  0 <= off -> blen data < off + 17 * Z.of_nat fuel + 17 ->
  match parseSysChunkArray_loop fuel data dev off with
  | Ok l => Forall chunk_ok l
  | Err e => e = ErrOther
  | _ => False
  end.
Proof.
  revert off. induction fuel as [|fuel IH]; intros off Ho Hf; cbn [parseSysChunkArray_loop].
  - case_if; [constructor|chk_lia].
  - case_if; [constructor|].
    do 2 (rewrite get_le_Ok by chk_lia; cbn [mbind outcome_bind]).
    case_if; [done|]. case_if; [done|]. rewrite slice_Ok by chk_lia. cbn [mbind outcome_bind].
    set (chunk := sub data _ _).
    assert (Hc : blen chunk = blen data - (off + keySize)) by (unfold chunk; rewrite blen_sub; chk_lia).
    rewrite get_le_Ok by chk_lia. cbn [mbind outcome_bind]. case_if; [done|].
    destruct (decode_chunk_Ok (rd 8 data (off + 9)) dev chunk) as (m&E&Hm&_);
      [apply rd64_u64|chk_lia|].
    rewrite E. cbn [mbind outcome_bind]. pose proof (rd_range 2 chunk chunkNumStripes).
    specialize (IH (off + keySize + chunkHeaderSize + rd 2 chunk chunkNumStripes * chunkStripeSize)).
    destruct (parseSysChunkArray_loop fuel _ _ _); cbn; try (apply IH; chk_lia).
    constructor; [done|]. apply IH; chk_lia.
Qed.

Lemma parseSysChunkArray_safe data dev :
  match parseSysChunkArray data dev with
  | Ok l => Forall chunk_ok l
  | Err e => e = ErrOther
  | _ => False
  end.
Proof. apply parseSysChunkArray_loop_safe; [lia|]. unfold blen. lia. Qed.

(** What the rest of the code may assume of a superblock it was given. *)
Definition sb_ok (sb : superblock) : Prop :=
  nodeHdrSize <= sb_nodeSize sb <= maxNodeSize /\ 0 < sb_sectorSize sb < 2 ^ 32 /\
  sb_nodeSize sb mod sb_sectorSize sb = 0 /\ is_u64 (sb_totalBytes sb) /\
  is_u64 (sb_rootLogAddr sb) /\ is_u64 (sb_chunkLogAddr sb) /\ is_u64 (sb_generation sb) /\
  is_u64 (sb_devID sb) /\ blen (sb_uuid sb) = 16 /\ blen (sb_label sb) = 256 /\
  Forall chunk_ok (sb_sysChunks sb).

Ltac sb_lia :=
  unfold sbfUUID, sbfMagic, sbfGeneration, sbfRootLogAddr, sbfChunkLogAddr, sbfTotalBytes,
    sbfSectorSize, sbfNodeSize, sbfLeafSize, sbfStripeSize, sbfSysChunkArrSz, sbfDevItem, sbfLabel,
    sbfSysChunkArr, nodeHdrSize, maxNodeSize in *; lia.

Lemma parse_superblock_safe `{HL : SafeIOLaws} buf :
  blen buf = sbfSize ->
  safe_with (parse_superblock buf) (fun sb => sb_ok sb /\ rd 8 buf sbfMagic = sbMagic).
Proof.
  intros Hl. unfold parse_superblock. change (blen buf = 4096) in Hl.
  repeat rewrite get_le_Ok by sb_lia. rewrite !slice_Ok by sb_lia. cbn [mbind outcome_bind].
  do 4 (case_if; [done|]).
  pose proof (Slice_spec buf sbfSysChunkArr (rd 4 buf sbfSysChunkArrSz)) as Hs.
  case_if_in Hs; rewrite Hs; cbn [mbind outcome_bind]; [|done].
  pose proof (parseSysChunkArray_safe (sub buf sbfSysChunkArr (rd 4 buf sbfSysChunkArrSz))
    (rd 8 buf sbfDevItem)) as Hp.
  destruct (parseSysChunkArray _ _); cbn [mbind outcome_bind]; try done.
  pose proof (rd_range 4 buf sbfSectorSize). pose proof (rd_range 4 buf sbfNodeSize).
  split; [|done]. unfold sb_ok. cbn [sb_nodeSize sb_sectorSize sb_totalBytes sb_rootLogAddr
    sb_chunkLogAddr sb_generation sb_devID sb_uuid sb_label sb_sysChunks].
  rewrite !blen_sub by sb_lia. split_and!; try done; try apply rd64_u64; cbn in *; sb_lia.
Qed.

(** Reading the superblock is total on untrusted input: whatever 4096 bytes
    the device returns, [readSuperblock] neither panics nor loops, and a
    superblock it accepts has the magic, a node size in [[nodeHdrSize,
    maxNodeSize]] that is a multiple of a non-zero sector size, and only chunk
    mappings whose local stripe is one of their stripes. *)
Theorem readSuperblock_total `{HL : SafeIOLaws} read partOff buf :
  read (i64 (partOff + superblockOffset)) sbfSize = Ok buf -> blen buf = sbfSize ->
  match readSuperblock read partOff with
  | Ok sb => sb_ok sb /\ rd 8 buf sbfMagic = sbMagic
  | Err _ => True
  | _ => False
  end.
Proof.
  intros Hr Hl. unfold readSuperblock. rewrite Hr. exact (parse_superblock_safe buf Hl).
Qed.

Lemma physAddr_cases sb partOff a :
  physAddr sb partOff a = Ok (i64 (partOff + i64 a)) \/ physAddr sb partOff a = Err ErrOther.
Proof. unfold physAddr, lookupChunk. destruct (List.find _ _) as [m|]; cbn; [by left|by right]. Qed.

(** ** Address translation is a bijection on a chunk map without overlaps *)
Definition disjoint_ranges (s n s' n' : Z) : Prop := s + n <= s' \/ s' + n' <= s.

Definition chunk_map_wf (l : list chunkMapping) : Prop :=
  (forall m, m ∈ l -> 0 <= cm_logStart m /\ 0 <= cm_size m /\ cm_logStart m + cm_size m < 2 ^ 63 /\
     0 <= cm_physStart m /\ cm_physStart m + cm_size m < 2 ^ 63 /\ 0 <= cm_localStripeIdx m) /\
  (forall m m', m ∈ l -> m' ∈ l -> m = m' \/
     (disjoint_ranges (cm_logStart m) (cm_size m) (cm_logStart m') (cm_size m') /\
      disjoint_ranges (cm_physStart m) (cm_size m) (cm_physStart m') (cm_size m'))).

Lemma find_unique {A} (f : A -> bool) (l : list A) (m : A) :
  m ∈ l -> f m = true -> (forall m', m' ∈ l -> f m' = true -> m' = m) -> List.find f l = Some m.
Proof.
  induction l as [|x l IH]; intros Hin Hm Hu; [by apply not_elem_of_nil in Hin|].
  cbn. destruct (f x) eqn:E; [f_equal; apply Hu; [by left|done]|].
  apply elem_of_cons in Hin as [->|Hin]; [congruence|].
  apply IH; [done|done|]. intros m' Hm' E'. apply Hu; [by right|done].
Qed.

(** The logical half of [chunk_map_wf], which is all that a lookup of a logical address needs;
    a striped chunk covers less of each device than its logical length. *)
Definition log_map_wf (l : list chunkMapping) : Prop :=
  (forall m, m ∈ l -> 0 <= cm_logStart m /\ 0 <= cm_size m /\ cm_logStart m + cm_size m < 2 ^ 63) /\
  (forall m m', m ∈ l -> m' ∈ l -> m = m' \/ disjoint_ranges (cm_logStart m) (cm_size m) (cm_logStart m') (cm_size m')).

Lemma chunk_map_wf_log l : chunk_map_wf l -> log_map_wf l.
Proof.
  intros [Hb Hd]. split.
  - intros m Hm. specialize (Hb m Hm). lia.
  - intros m m' Hm Hm'. destruct (Hd m m' Hm Hm') as [->|[? _]]; auto.
Qed.

Lemma in_chunk_logical l m a :
  log_map_wf l -> m ∈ l -> in_chunk a m = true <-> cm_logStart m <= a < cm_logStart m + cm_size m.
Proof. intros [Hb _] Hm. specialize (Hb _ Hm). unfold in_chunk. u64_tac. by rewrite andb_true_iff, Z.leb_le, Z.ltb_lt. Qed.

Lemma find_logical sb m a :
  log_map_wf (sb_sysChunks sb) -> m ∈ sb_sysChunks sb -> cm_logStart m <= a < cm_logStart m + cm_size m ->
  List.find (in_chunk a) (sb_sysChunks sb) = Some m.
Proof.
  intros Hwf Hm Ha. apply find_unique; [done|by apply (in_chunk_logical _ _ _ Hwf)|].
  intros m' Hm' Ha'. apply (in_chunk_logical _ _ _ Hwf Hm') in Ha'.
  destruct Hwf as [_ Hd]. destruct (Hd m m' Hm Hm') as [->|Hl]; [done|]. unfold disjoint_ranges in Hl. lia.
Qed.

Section Translation.
Context (sb : superblock) (Hwf : chunk_map_wf (sb_sysChunks sb)).

Lemma in_chunk_iff m a :
  m ∈ sb_sysChunks sb -> in_chunk a m = true <-> cm_logStart m <= a < cm_logStart m + cm_size m.
Proof using Hwf. apply in_chunk_logical. by apply chunk_map_wf_log. Qed.

Lemma in_phys_iff m p :
  m ∈ sb_sysChunks sb -> in_phys p m = true <-> cm_physStart m <= p < cm_physStart m + cm_size m.
Proof using Hwf.
  intros Hm. destruct Hwf as [Hb _]. specialize (Hb _ Hm). unfold in_phys. u64_tac.
  rewrite andb_true_iff, Z.leb_le, Z.ltb_lt. done.
Qed.

Lemma find_chunk m a :
  m ∈ sb_sysChunks sb -> cm_logStart m <= a < cm_logStart m + cm_size m ->
  List.find (in_chunk a) (sb_sysChunks sb) = Some m.
Proof using Hwf. intros Hm Ha. by apply find_logical; [apply chunk_map_wf_log|..]. Qed.

Lemma find_phys m p :
  m ∈ sb_sysChunks sb -> cm_physStart m <= p < cm_physStart m + cm_size m ->
  List.find (in_phys p) (sb_sysChunks sb) = Some m.
Proof using Hwf.
  intros Hm Ha. apply find_unique; [done|by apply in_phys_iff|].
  intros m' Hm' Ha'. apply in_phys_iff in Ha'; [|done].
  destruct Hwf as [_ Hd]. destruct (Hd m m' Hm Hm') as [->|[_ Hl]]; [done|].
  unfold disjoint_ranges in Hl. lia.
Qed.

Lemma physFromLog_in m a :
  m ∈ sb_sysChunks sb -> cm_logStart m <= a < cm_logStart m + cm_size m ->
  physFromLog sb a = cm_physStart m + (a - cm_logStart m).
Proof using Hwf.
  intros Hm Ha. unfold physFromLog. rewrite (find_chunk m) by done.
  destruct Hwf as [Hb _]. specialize (Hb _ Hm). u64_tac. done.
Qed.

Lemma physToLog_in m p :
  m ∈ sb_sysChunks sb -> cm_physStart m <= p < cm_physStart m + cm_size m ->
  physToLog sb p = cm_logStart m + (p - cm_physStart m).
Proof using Hwf.
  intros Hm Ha. unfold physToLog. rewrite (find_phys m) by done.
  destruct Hwf as [Hb _]. specialize (Hb _ Hm). u64_tac. done.
Qed.
End Translation.

(** C38. On a chunk map whose chunks overlap neither logically nor physically,
    the two directions of the address translation are mutually inverse on every
    mapped byte, [logToPhys] agrees with [physFromLog] there, and [physAddr]
    accepts the address. *)
Theorem translation_roundtrip sb m d partOff :
  chunk_map_wf (sb_sysChunks sb) -> m ∈ sb_sysChunks sb -> 0 <= d < cm_size m ->
  physToLog sb (physFromLog sb (cm_logStart m + d)) = cm_logStart m + d /\
  physFromLog sb (physToLog sb (cm_physStart m + d)) = cm_physStart m + d /\
  logToPhys sb (cm_logStart m + d) = Ok (physFromLog sb (cm_logStart m + d)) /\
  physAddr sb partOff (cm_logStart m + d) = Ok (i64 (partOff + (cm_logStart m + d))).
Proof.
  intros Hwf Hm Hd. pose proof Hwf as [Hb _]. specialize (Hb _ Hm).
  pose proof (physFromLog_in sb Hwf m (cm_logStart m + d) Hm ltac:(lia)) as E1.
  pose proof (physToLog_in sb Hwf m (cm_physStart m + d) Hm ltac:(lia)) as E2.
  split_and!.
  - rewrite E1, (physToLog_in sb Hwf m) by (done || lia). lia.
  - rewrite E2, (physFromLog_in sb Hwf m) by (done || lia). lia.
  - unfold logToPhys, lookupChunk. rewrite (find_chunk sb Hwf m) by (done || lia).
    cbn [mbind outcome_bind]. case_if; [lia|]. u64_tac. rewrite i64_small by lia. f_equal. lia.
  - unfold physAddr, lookupChunk. rewrite (find_chunk sb Hwf m) by (done || lia).
    cbn [mbind outcome_bind]. rewrite (i64_small (cm_logStart m + d)) by lia. done.
Qed.

(** ** Examples *)
Definition ex_chunk1 : chunkMapping :=
  ChunkMapping 0x100000 0x400000 0x200000 0 0x22 0x10000 1 [ChunkStripe 1 0x200000].
Definition ex_chunk2 : chunkMapping :=
  ChunkMapping 0x1000000 0x800000 0x800000 0 0x1 0x10000 1 [ChunkStripe 1 0x800000].
Definition ex_sb : superblock :=
  Superblock 16384 4096 16384 4096 0x4000000 0x1004000 0x104000 7 1 (zeros 16) (zeros 256)
    [ex_chunk1; ex_chunk2].

Lemma ex_chunk_map_wf : chunk_map_wf (sb_sysChunks ex_sb).
Proof.
  split.
  - intros m. cbn [sb_sysChunks ex_sb]. rewrite !elem_of_cons, elem_of_nil.
    intros [->|[->|[]]]; cbn; lia.
  - intros m m'. cbn [sb_sysChunks ex_sb]. rewrite !elem_of_cons, !elem_of_nil. unfold disjoint_ranges.
    intros [->|[->|[]]] [->|[->|[]]]; first [left; reflexivity|right; cbn; lia].
Defined.

Lemma translation_roundtrip_witness :
  physToLog ex_sb (physFromLog ex_sb 0x1000123) = 0x1000123 /\
  physFromLog ex_sb (physToLog ex_sb 0x800123) = 0x800123 /\
  logToPhys ex_sb 0x1000123 = Ok (physFromLog ex_sb 0x1000123) /\
  physAddr ex_sb 0x100000 0x1000123 = Ok (i64 (0x100000 + 0x1000123)).
Proof.
  apply (translation_roundtrip ex_sb ex_chunk2 0x123 0x100000 ex_chunk_map_wf).
  - apply elem_of_cons. right. apply elem_of_cons. by left.
  - cbn. lia.
Defined.

(** A superblock image with one system chunk. *)
Definition ex_sb_image : bytes :=
  let b := wr 8 (zeros sbfSize) sbfMagic sbMagic in
  let b := wr 4 (wr 4 b sbfSectorSize 4096) sbfNodeSize 16384 in
  let b := wr 8 (wr 4 b sbfSysChunkArrSz 97) sbfDevItem 1 in
  let b := wr 8 (wr 1 b (sbfSysChunkArr + 8) 0xE4) (sbfSysChunkArr + 9) 0x100000 in
  let c := sbfSysChunkArr + keySize in
  let b := wr 2 (wr 8 b (c + chunkSize) 0x400000) (c + chunkNumStripes) 1 in
  wr 8 (wr 8 b (c + chunkStripeDevID) 1) (c + chunkStripeOffset) 0x200000.

Lemma readSuperblock_total_witness :
  blen ex_sb_image = sbfSize /\
  match readSuperblock (H := listSafeIO) (fun _ _ => Ok ex_sb_image) 0 with
  | Ok sb => sb_ok sb /\ rd 8 ex_sb_image sbfMagic = sbMagic
  | Err _ => True
  | _ => False
  end.
Proof.
  split; [vm_compute; reflexivity|].
  apply (readSuperblock_total (H := listSafeIO) (fun _ _ => Ok ex_sb_image) 0 ex_sb_image).
  - reflexivity.
  - vm_compute; reflexivity.
Defined.

Example readSuperblock_ex :
  match readSuperblock (H := listSafeIO) (fun _ _ => Ok ex_sb_image) 0 with
  | Ok sb => map cm_physStart (sb_sysChunks sb) = [0x200000]
  | _ => False
  end.
Proof. vm_compute. reflexivity. Qed.
