(* ===== verification/MultiDev.v ===== *)
(** * Device pool and RAID routing (multidev.go)

    A backend is its [ReadAt]: offset and length to bytes or an error.  The pool
    resolves a logical address through the chunk map and routes the read to the
    legs of the chunk, by profile.  [readStriped] and [readRAID10] cut a read at
    the stripe boundary and call the pool's [ReadAt] again for the rest; the
    recursive call is an argument here and [pool_ReadAt] ties the knot with a
    fuel of one call per requested byte. *)
From Stdlib Require Import ZArith Lia Strings.Byte.
From stdpp Require Import base option list numbers sorting gmap.
From S2P Require Import Prelude Bytes Layout SafeIO Chunk.
Local Open Scope Z_scope.
Local Open Scope btrfs_scope.

Definition blockBackend := Z -> Z -> outcome bytes.

Record devicePool := DevicePool {
  dp_partOff : Z;
  dp_devices : gmap Z blockBackend;
  dp_sb : option superblock;
  dp_primary : blockBackend }.

Definition newDevicePool (primary : blockBackend) (partOff : Z) (sb : superblock) : devicePool :=
  let devs : gmap Z blockBackend := {[ sb_devID sb := primary ]} in
  let devs := if sb_devID sb =? 0 then <[1 := primary]> devs else devs in
  DevicePool partOff devs (Some sb) primary.

Definition addDevice (p : devicePool) (devID : Z) (dev : blockBackend) : devicePool :=
  DevicePool (dp_partOff p) (<[devID := dev]> (dp_devices p)) (dp_sb p) (dp_primary p).

Definition checkStripeLen (c : chunkMapping) : outcome unit :=
  if negb (cm_stripeLen c =? btrfsStripeLen) then Err ErrOutOfBounds else Ok tt.

(** [tryStripe]: [None] when the stripe's device is not in the pool. *)
Definition tryStripe (p : devicePool) (n inChunk : Z) (s : chunkStripe) : option (outcome bytes) :=
  match dp_devices p !! cs_devID s with
  | None => None
  | Some dev => Some (dev (i64 (dp_partOff p + i64 (cs_offset s +₆₄ inChunk))) n)
  end.

Fixpoint mirror_loop (p : devicePool) (n inChunk localIdx i : Z) (stripes : list chunkStripe)
    (lastErr : option error) : outcome bytes :=
  match stripes with
  | [] => Err (default ErrOther lastErr)
  | s :: stripes =>
      if i =? localIdx then mirror_loop p n inChunk localIdx (i + 1) stripes lastErr else
      match tryStripe p n inChunk s with
      | None => mirror_loop p n inChunk localIdx (i + 1) stripes lastErr
      | Some (Err e) => mirror_loop p n inChunk localIdx (i + 1) stripes (Some e)
      | Some o => o
      end
  end.

Definition readSingleOrMirror (p : devicePool) (n logical : Z) (c : chunkMapping) : outcome bytes :=
  let inChunk := logical -₆₄ cm_logStart c in
  let others := mirror_loop p n inChunk (cm_localStripeIdx c) 0 (cm_stripes c) None in
  if (0 <=? cm_localStripeIdx c) && (cm_localStripeIdx c <? Z.of_nat (length (cm_stripes c))) then
    match cm_stripes c !! Z.to_nat (cm_localStripeIdx c) with
    | None => Panic
    | Some s =>
        match tryStripe p n inChunk s with
        | None | Some (Err _) => others
        | Some o => o
        end
    end
  else others.

Definition readStriped (ReadAt : Z -> Z -> outcome bytes) (p : devicePool) (n logical : Z)
    (c : chunkMapping) (nparity : Z) : outcome bytes :=
  _ ← checkStripeLen c;
  let numStripes := Z.of_nat (length (cm_stripes c)) in
  if numStripes <=? nparity then Err ErrOther else
  let numData := numStripes - nparity in
  let inChunk := logical -₆₄ cm_logStart c in
  let stripeNr := inChunk / cm_stripeLen c in
  let stripeOff := inChunk mod cm_stripeLen c in
  let rowNr := stripeNr / numData in
  let colInRow := stripeNr mod numData in
  let stripeIdx :=
    if nparity =? 0 then colInRow
    else
      let parityStartCol := (numStripes - nparity + rowNr mod numStripes) mod numStripes in
      (parityStartCol + nparity + colInRow) mod numStripes in
  if numStripes <=? stripeIdx then Err ErrOther else
  match cm_stripes c !! Z.to_nat stripeIdx with
  | None => Panic
  | Some s =>
      match dp_devices p !! cs_devID s with
      | None => Err ErrOther
      | Some dev =>
          let perDevOff :=
            i64 (dp_partOff p + i64 (cs_offset s +₆₄ rowNr *₆₄ cm_stripeLen c +₆₄ stripeOff)) in
          let remainInStripe := i64 (cm_stripeLen c -₆₄ stripeOff) in
          if n <=? remainInStripe then dev perDevOff n else
          if remainInStripe <? 0 then Panic else
          b ← dev perDevOff remainInStripe;
          b2 ← ReadAt (i64 (dp_partOff p + i64 (logical +₆₄ u64 remainInStripe)))
                 (n - remainInStripe);
          Ok (b ++ b2)
      end
  end.

(** The loop over the legs of one mirror group. *)
Fixpoint raid10_legs (ReadAt : Z -> Z -> outcome bytes) (p : devicePool)
    (n logical perDevOff remain stripeBase : Z) (c : chunkMapping) (legs : nat) (leg : Z)
    (lastErr : option error) : outcome bytes :=
  match legs with
  | O => Err (default ErrOther lastErr)
  | S legs =>
      match cm_stripes c !! Z.to_nat (stripeBase + leg) with
      | None => Panic
      | Some s =>
          match dp_devices p !! cs_devID s with
          | None => raid10_legs ReadAt p n logical perDevOff remain stripeBase c legs (leg + 1) lastErr
          | Some dev =>
              let absOff := i64 (perDevOff + i64 (cs_offset s)) in
              if n <=? remain then
                match dev absOff n with
                | Err e => raid10_legs ReadAt p n logical perDevOff remain stripeBase c legs
                             (leg + 1) (Some e)
                | o => o
                end
              else if remain <? 0 then Panic else
                match dev absOff remain with
                | Err e => raid10_legs ReadAt p n logical perDevOff remain stripeBase c legs
                             (leg + 1) (Some e)
                | Ok b =>
                    b2 ← ReadAt (i64 (dp_partOff p + i64 (logical +₆₄ u64 remain))) (n - remain);
                    Ok (b ++ b2)
                | o => o
                end
          end
      end
  end.

Definition readRAID10 (ReadAt : Z -> Z -> outcome bytes) (p : devicePool) (n logical : Z)
    (c : chunkMapping) : outcome bytes :=
  _ ← checkStripeLen c;
  let subStripes := if cm_subStripes c <? 2 then 2 else cm_subStripes c in
  let numStripes := Z.of_nat (length (cm_stripes c)) in
  if numStripes <? subStripes then Err ErrOther else
  let groups := numStripes / subStripes in
  let inChunk := logical -₆₄ cm_logStart c in
  let stripeNr := inChunk / cm_stripeLen c in
  let stripeOff := inChunk mod cm_stripeLen c in
  let groupIdx := stripeNr mod groups in
  let rowNr := stripeNr / groups in
  let stripeBase := groupIdx * subStripes in
  let perDevOff := i64 (dp_partOff p + i64 (rowNr *₆₄ cm_stripeLen c +₆₄ stripeOff)) in
  let remainInStripe := i64 (cm_stripeLen c -₆₄ stripeOff) in
  raid10_legs ReadAt p n logical perDevOff remainInStripe stripeBase c (Z.to_nat subStripes) 0 None.

Definition readFromChunk (ReadAt : Z -> Z -> outcome bytes) (p : devicePool) (n logical : Z)
    (c : chunkMapping) : outcome bytes :=
  let profile := Z.land (cm_profile c) blockGroupProfileMask in
  if (profile =? 0) || (profile =? blockGroupDup) then readSingleOrMirror p n logical c
  else if negb (Z.land profile (Z.lor (Z.lor blockGroupRAID1 blockGroupRAID1C3) blockGroupRAID1C4) =? 0)
  then readSingleOrMirror p n logical c
  else if profile =? blockGroupRAID0 then readStriped ReadAt p n logical c 0
  else if profile =? blockGroupRAID10 then readRAID10 ReadAt p n logical c
  else if profile =? blockGroupRAID5 then readStriped ReadAt p n logical c 1
  else if profile =? blockGroupRAID6 then readStriped ReadAt p n logical c 2
  else Err ErrOther.

Fixpoint pool_ReadAt_loop (fuel : nat) (p : devicePool) (off n : Z) : outcome bytes :=
  match dp_sb p with
  | None => dp_primary p off n
  | Some sb =>
      let logical := u64 (off - dp_partOff p) in
      match lookupChunk sb logical with
      | Ok c =>
          match fuel with
          | O => NoFuel
          | S fuel => readFromChunk (pool_ReadAt_loop fuel p) p n logical c
          end
      | _ => dp_primary p off n
      end
  end.

(** [devicePool.ReadAt] into a buffer of [n] bytes. *)
Definition pool_ReadAt (p : devicePool) (off n : Z) : outcome bytes :=
  pool_ReadAt_loop (S (Z.to_nat n)) p off n.

(** ** The router is total *)

(** A read of [n] bytes that fails cleanly or returns [n] bytes. *)
Definition fills (n : Z) (o : outcome bytes) : Prop := safe_with o (fun b => blen b = n).
Definition backend_safe (dev : blockBackend) : Prop := forall off n, 0 <= n -> fills n (dev off n).
Definition pool_safe (p : devicePool) : Prop :=
  backend_safe (dp_primary p) /\ map_Forall (fun _ => backend_safe) (dp_devices p).

Lemma checkStripeLen_Ok c :
  (checkStripeLen c = Ok tt /\ cm_stripeLen c = btrfsStripeLen) \/ checkStripeLen c = Err ErrOutOfBounds.
Proof. unfold checkStripeLen. case_if; [by right|by left]. Qed.

(** The rest of the stripe a read starts in: between one byte and the stripe. *)
Lemma remain_bounds x : let r := i64 (btrfsStripeLen -₆₄ x mod btrfsStripeLen) in
  r = btrfsStripeLen - x mod btrfsStripeLen /\ 1 <= r <= btrfsStripeLen.
Proof.
  cbn zeta. unfold btrfsStripeLen. pose proof (Z.mod_pos_bound x (64 * 1024) ltac:(lia)).
  u64_tac. rewrite i64_small by lia. lia.
Qed.

Lemma tryStripe_safe p n d s o : pool_safe p -> 0 <= n -> tryStripe p n d s = Some o -> fills n o.
Proof.
  intros [_ Hp] Hn. unfold tryStripe. destruct (dp_devices p !! cs_devID s) as [dev|] eqn:E; [|done].
  intros [= <-]. by apply (Hp _ _ E).
Qed.

Lemma mirror_loop_safe p n d li i stripes e :
  pool_safe p -> 0 <= n -> fills n (mirror_loop p n d li i stripes e).
Proof.
  intros Hp Hn. revert i e. induction stripes as [|s stripes IH]; intros i e; cbn; [done|].
  case_if; [apply IH|]. destruct (tryStripe p n d s) as [o|] eqn:E; [|apply IH].
  pose proof (tryStripe_safe _ _ _ _ _ Hp Hn E). destruct o; done.
Qed.

Lemma readSingleOrMirror_safe p n l c : pool_safe p -> 0 <= n -> fills n (readSingleOrMirror p n l c).
Proof.
  intros Hp Hn. unfold readSingleOrMirror. case_if; [|by apply mirror_loop_safe].
  destruct (lookup_lt_is_Some_2 (cm_stripes c) (Z.to_nat (cm_localStripeIdx c)) ltac:(lia)) as [s ->].
  destruct (tryStripe p n _ s) as [o|] eqn:E; [|by apply mirror_loop_safe].
  pose proof (tryStripe_safe _ _ _ _ _ Hp Hn E). destruct o; try done. by apply mirror_loop_safe.
Qed.

Lemma readStriped_safe ReadAt p n l c np :
  pool_safe p -> 0 <= np -> 0 <= n ->
  (forall off m, 0 <= m < n -> fills m (ReadAt off m)) -> fills n (readStriped ReadAt p n l c np).
Proof.
  intros Hp Hnp Hn Hr. unfold readStriped.
  destruct (checkStripeLen_Ok c) as [[-> HL]| ->]; cbn [mbind outcome_bind]; [|done].
  rewrite HL. set (N := Z.of_nat _). case_if; [done|]. case_if; [done|].
  match goal with |- context [cm_stripes c !! Z.to_nat ?i] => set (idx := i) in * end.
  assert (0 <= idx).
  { subst idx. case_if; [apply Z.mod_pos_bound; lia|apply Z.mod_pos_bound; lia]. }
  destruct (lookup_lt_is_Some_2 (cm_stripes c) (Z.to_nat idx) ltac:(lia)) as [s ->].
  destruct (dp_devices p !! cs_devID s) as [dev|] eqn:Ed; [|done].
  destruct (remain_bounds (l -₆₄ cm_logStart c)) as [_ Hrem].
  set (rem := i64 _) in *. destruct Hp as [_ Hp]. specialize (Hp _ _ Ed).
  case_if; [by apply Hp|]. case_if; [lia|].
  eapply safe_with_bind; [apply Hp; lia|]. intros b Hb. eapply safe_with_bind; [apply Hr; lia|].
  intros b2 Hb2. cbn beta in *. unfold safe_with. rewrite blen_app. lia.
Qed.

Lemma raid10_legs_safe ReadAt p n l pd rem base c legs leg e :
  pool_safe p -> 0 <= n -> 1 <= rem -> 0 <= base + leg ->
  base + leg + Z.of_nat legs <= Z.of_nat (length (cm_stripes c)) ->
  (forall off m, 0 <= m < n -> fills m (ReadAt off m)) ->
  fills n (raid10_legs ReadAt p n l pd rem base c legs leg e).
Proof.
  intros Hp Hn Hrem Hb Hlen Hr. revert leg e Hb Hlen.
  induction legs as [|legs IH]; intros leg e Hb Hlen; cbn [raid10_legs]; [done|].
  destruct (lookup_lt_is_Some_2 (cm_stripes c) (Z.to_nat (base + leg)) ltac:(lia)) as [s ->].
  destruct (dp_devices p !! cs_devID s) as [dev|] eqn:Ed; [|apply IH; lia].
  pose proof (proj2 Hp _ _ Ed) as Hdev.
  case_if.
  - specialize (Hdev (i64 (pd + i64 (cs_offset s))) n Hn). destruct (dev _ _); try done. apply IH; lia.
  - case_if; [lia|]. specialize (Hdev (i64 (pd + i64 (cs_offset s))) rem ltac:(lia)).
    destruct (dev _ _) as [b| | |]; try done; [|apply IH; lia]. cbn in Hdev.
    eapply safe_with_bind; [apply Hr; lia|]. intros b2 Hb2. cbn in Hb2 |- *. rewrite blen_app. lia.
Qed.

Lemma readRAID10_safe ReadAt p n l c :
  pool_safe p -> 0 <= n -> (forall off m, 0 <= m < n -> fills m (ReadAt off m)) ->
  fills n (readRAID10 ReadAt p n l c).
Proof.
  intros Hp Hn Hr. unfold readRAID10.
  destruct (checkStripeLen_Ok c) as [[-> HL]| ->]; cbn [mbind outcome_bind]; [|done].
  rewrite HL. set (sub := if cm_subStripes c <? 2 then 2 else cm_subStripes c).
  assert (2 <= sub) by (subst sub; case_if; lia).
  set (N := Z.of_nat _). case_if; [done|].
  assert (1 <= N / sub) by (apply Z.div_le_lower_bound; lia).
  pose proof (Z.mul_div_le N sub ltac:(lia)).
  pose proof (Z.mod_pos_bound ((l -₆₄ cm_logStart c) / btrfsStripeLen) (N / sub) ltac:(lia)).
  set (g := _ mod (N / sub)) in *.
  apply raid10_legs_safe; [done|done|apply remain_bounds|nia| |done]. fold N. nia.
Qed.

Lemma pool_ReadAt_loop_safe fuel p off n :
  pool_safe p -> 0 <= n < Z.of_nat fuel -> fills n (pool_ReadAt_loop fuel p off n).
Proof.
  intros Hp. revert off n. induction fuel as [|fuel IH]; intros off n Hn; [lia|].
  cbn [pool_ReadAt_loop]. destruct (dp_sb p) as [sb|]; [|apply Hp; lia].
  destruct (lookupChunk sb _) as [c| | |]; try (apply Hp; lia).
  assert (HR : forall o m, 0 <= m < n -> fills m (pool_ReadAt_loop fuel p o m)) by (intros; apply IH; lia).
  unfold readFromChunk. repeat case_if; try done;
    (apply readSingleOrMirror_safe; done || lia) || (apply readStriped_safe; done || lia) ||
    (apply readRAID10_safe; done || lia).
Qed.

(** Reads through the device pool are total for every chunk map, the
    attacker-controlled fields included (profile, stripe length, stripe and
    sub-stripe counts, offsets): with backends that answer, the router returns
    exactly the bytes asked for or an error, never indexes a stripe out of range and never recurses
    more than once per requested byte. *)
Theorem pool_ReadAt_total p off n :
  pool_safe p -> 0 <= n -> safe_with (pool_ReadAt p off n) (fun b => blen b = n).
Proof. intros Hp Hn. apply pool_ReadAt_loop_safe; [done|lia]. Qed.

(** ** Striping at the level of single bytes

    [cols] data columns per row; [slot row col] is the stripe that holds the
    data column.  Byte [d] of the chunk is byte [d mod L] of strip [d / L]. *)
Definition tab (f : Z -> byte) (n : Z) : bytes := map (fun i => f (Z.of_nat i)) (seq 0 (Z.to_nat n)).

Definition byte_slot (cols : Z) (slot : Z -> Z -> Z) (d : Z) : Z * Z :=
  let nr := d / btrfsStripeLen in
  (slot (nr / cols) (nr mod cols), nr / cols * btrfsStripeLen + d mod btrfsStripeLen).

(** btrfs_map_block: data column [col] of row [row] is on stripe
    [(row + col) mod N] for the parity profiles, on stripe [col] for RAID0. *)
Definition striped_slot (N np : Z) (row col : Z) : Z :=
  if np =? 0 then col else (row + col) mod N.
(** RAID10: the first leg of mirror group [col]. *)
Definition raid10_slot (sub : Z) (row col : Z) : Z := col * sub.

(** The byte the array stores for offset [d] of the chunk, given the contents
    [img] of the devices. *)
Definition chunk_byte (img : Z -> Z -> byte) (partOff : Z) (c : chunkMapping)
    (cols : Z) (slot : Z -> Z -> Z) (d : Z) : byte :=
  let '(idx, off) := byte_slot cols slot d in
  match cm_stripes c !! Z.to_nat idx with
  | Some s => img (cs_devID s) (partOff + cs_offset s + off)
  | None => x00
  end.

Lemma blen_tab f n : 0 <= n -> blen (tab f n) = n.
Proof. intros. unfold blen, tab. rewrite length_map, length_seq. lia. Qed.

Lemma tab_ext f g n : (forall q, 0 <= q < n -> f q = g q) -> tab f n = tab g n.
Proof.
  intros H. unfold tab. apply map_ext_in. intros i Hi. apply in_seq in Hi. apply H. lia.
Qed.

Lemma tab_app f m k :
  0 <= m -> 0 <= k -> tab f m ++ tab (fun q => f (m + q)) k = tab f (m + k).
Proof.
  intros. unfold tab. rewrite Z2Nat.inj_add, seq_app, map_app by lia. f_equal.
  rewrite (Nat.add_comm 0), <- (fmap_add_seq (Z.to_nat m) 0).
  change (Nat.add (Z.to_nat m) <$> seq 0 (Z.to_nat k)) with (map (Nat.add (Z.to_nat m)) (seq 0 (Z.to_nat k))).
  rewrite map_map. apply map_ext. intros i. f_equal. lia.
Qed.

(** Within one strip the row and the column do not change. *)
Lemma strip_cont L d q : 0 < L -> 0 <= q < L - d mod L ->
  (d + q) / L = d / L /\ (d + q) mod L = d mod L + q.
Proof.
  intros HL Hq. pose proof (Z.mod_pos_bound d L HL). pose proof (Z.div_mod d L ltac:(lia)).
  assert (E : d + q = d / L * L + (d mod L + q)) by lia.
  rewrite E, Z.div_add_l, (Z.add_comm (d / L * L)), Z.mod_add by lia.
  rewrite (Z.div_small (d mod L + q)), (Z.mod_small (d mod L + q)) by lia. lia.
Qed.

Lemma byte_slot_cont cols slot d q :
  0 <= q < btrfsStripeLen - d mod btrfsStripeLen ->
  byte_slot cols slot (d + q) =
  ((byte_slot cols slot d).1, (byte_slot cols slot d).2 + q).
Proof.
  intros Hq. destruct (strip_cont btrfsStripeLen d q ltac:(unfold btrfsStripeLen; lia) Hq) as [E1 E2].
  unfold byte_slot. rewrite E1, E2. cbn. f_equal. lia.
Qed.

Lemma mod_eq_close N a b : 0 < N -> a mod N = b mod N -> - N < a - b < N -> a = b.
Proof.
  intros HN E Hc. pose proof (Z.div_mod a N ltac:(lia)). pose proof (Z.div_mod b N ltac:(lia)).
  assert (N * (a / N - b / N) = a - b) by lia.
  assert (a / N - b / N = 0) by nia. lia.
Qed.

(** No two bytes of a chunk share a place, and none is stored in a parity strip. *)
Lemma striped_slot_inj N np row col col' :
  0 <= np < N -> 0 <= row -> 0 <= col < N - np -> 0 <= col' < N - np ->
  striped_slot N np row col = striped_slot N np row col' -> col = col'.
Proof.
  intros ???? E. unfold striped_slot in E. destruct (np =? 0); [done|].
  apply mod_eq_close in E; lia.
Qed.

Lemma byte_slot_inj cols slot d d' :
  0 < cols -> 0 <= d -> 0 <= d' ->
  (forall row col col', 0 <= row -> 0 <= col < cols -> 0 <= col' < cols ->
     slot row col = slot row col' -> col = col') ->
  byte_slot cols slot d = byte_slot cols slot d' -> d = d'.
Proof.
  intros Hc Hd Hd' Hinj. unfold byte_slot. intros [= E1 E2].
  set (L := btrfsStripeLen) in *. assert (HL : 0 < L) by (unfold L, btrfsStripeLen; lia).
  pose proof (Z.mod_pos_bound d L HL). pose proof (Z.mod_pos_bound d' L HL).
  assert (Er : d / L / cols = d' / L / cols) by nia.
  assert (Em : d mod L = d' mod L) by nia. rewrite Er in E1.
  pose proof (Z.mod_pos_bound (d / L) cols Hc). pose proof (Z.mod_pos_bound (d' / L) cols Hc).
  apply Hinj in E1; [| |done|done]; [|apply Z.div_pos; [apply Z.div_pos; lia|lia]].
  pose proof (Z.div_mod (d / L) cols ltac:(lia)). pose proof (Z.div_mod (d' / L) cols ltac:(lia)).
  pose proof (Z.div_mod d L ltac:(lia)). pose proof (Z.div_mod d' L ltac:(lia)). nia.
Qed.

(** RAID0/5/6 placement is sound: two different bytes of a chunk never share
    a (stripe, offset) place, every byte is on one of the chunk's stripes, and
    on the parity profiles no data byte is placed in the row's parity strips,
    the [np] strips from [(N - np + row) mod N] on. *)
Theorem striped_placement_sound N np d d' :
  0 <= np < N -> 0 <= d -> 0 <= d' ->
  let place := byte_slot (N - np) (striped_slot N np) in
  (place d = place d' -> d = d') /\
  0 <= (place d).1 < N /\
  (0 < np -> forall j, 0 <= j < np ->
     (place d).1 <> (N - np + (place d).2 / btrfsStripeLen + j) mod N).
Proof.
  intros Hnp Hd Hd'. cbn zeta. set (L := btrfsStripeLen). assert (HL : 0 < L) by (unfold L, btrfsStripeLen; lia).
  pose proof (Z.div_pos d L Hd HL). pose proof (Z.mod_pos_bound d L HL).
  pose proof (Z.div_pos (d / L) (N - np) ltac:(lia) ltac:(lia)).
  pose proof (Z.mod_pos_bound (d / L) (N - np) ltac:(lia)).
  split_and!.
  - apply byte_slot_inj; [lia|done|done|]. intros. by apply (striped_slot_inj N np row).
  - unfold byte_slot, striped_slot. cbn. fold L. case_if; [lia|]. apply Z.mod_pos_bound; lia.
  - unfold byte_slot, striped_slot. cbn. fold L. case_if; [lia|apply Z.mod_pos_bound; lia].
  - intros Hp j Hj. unfold byte_slot. cbn [fst snd]. fold L.
    rewrite Z.div_add_l, (Z.div_small (d mod L)), Z.add_0_r by lia.
    unfold striped_slot. case_if; [lia|]. set (row := d / L / (N - np)) in *.
    set (col := (d / L) mod (N - np)) in *. intros E.
    apply mod_eq_close in E; lia.
Qed.

(** ** Reads return the bytes the placement says *)

(** The pool answers reads of the legs of [c] with the contents [img]: every leg
    is present and readable over the [ext] bytes it contributes. *)
Definition legs_readable (p : devicePool) (img : Z -> Z -> byte) (c : chunkMapping) (ext : Z) : Prop :=
  forall s, s ∈ cm_stripes c ->
    0 <= cs_offset s /\ dp_partOff p + cs_offset s + ext < 2 ^ 63 /\
    exists dev, dp_devices p !! cs_devID s = Some dev /\
      forall off n, dp_partOff p + cs_offset s <= off -> 0 <= n ->
        off + n <= dp_partOff p + cs_offset s + ext ->
        dev off n = Ok (tab (fun q => img (cs_devID s) (off + q)) n).

(** A chunk of [cols] data columns, each leg contributing [ext] bytes. *)
Definition striped_chunk (p : devicePool) (sb : superblock) (c : chunkMapping) (cols ext : Z) : Prop :=
  dp_sb p = Some sb /\ log_map_wf (sb_sysChunks sb) /\ c ∈ sb_sysChunks sb /\
  cm_stripeLen c = btrfsStripeLen /\ 0 < cols /\ 0 <= ext /\ (btrfsStripeLen | ext) /\
  cm_size c = cols * ext /\ 0 <= dp_partOff p /\
  dp_partOff p + cm_logStart c + cm_size c < 2 ^ 63.

Lemma pool_lookup p sb c cols ext a :
  striped_chunk p sb c cols ext -> 0 <= a < cm_size c ->
  u64 (i64 (dp_partOff p + i64 (cm_logStart c + a)) - dp_partOff p) = cm_logStart c + a /\
  lookupChunk sb (cm_logStart c + a) = Ok c /\
  (cm_logStart c + a -₆₄ cm_logStart c) = a.
Proof.
  intros (_&Hwf&Hc&_&_&_&_&_&Hp&Hb) Ha. pose proof (proj1 Hwf _ Hc).
  rewrite !i64_small by (rewrite ?i64_small; lia). rewrite u64_small by (unfold is_u64; lia).
  split_and!; [lia| |u64_tac; lia].
  unfold lookupChunk. rewrite (find_logical sb c) by (done || lia). done.
Qed.

(** The row of a byte of the chunk lies within the legs. *)
Lemma row_in_ext cols ext d :
  0 < cols -> 0 <= ext -> (btrfsStripeLen | ext) -> 0 <= d < cols * ext ->
  0 <= d / btrfsStripeLen / cols /\ (d / btrfsStripeLen / cols + 1) * btrfsStripeLen <= ext.
Proof.
  intros Hc He [k Hk] Hd. set (L := btrfsStripeLen) in *.
  assert (HL : 0 < L) by (unfold L, btrfsStripeLen; lia).
  assert (0 <= d / L) by (apply Z.div_pos; lia).
  split; [apply Z.div_pos; lia|].
  assert (d / L < cols * k) by (apply Z.div_lt_upper_bound; nia).
  assert (d / L / cols < k) by (apply Z.div_lt_upper_bound; lia). nia.
Qed.

Lemma slot_read p img c cols ext slot s d m :
  legs_readable p img c ext -> 0 <= dp_partOff p -> 0 < cols -> 0 <= ext -> (btrfsStripeLen | ext) ->
  0 <= d < cols * ext ->
  cm_stripes c !! Z.to_nat (slot (d / btrfsStripeLen / cols) ((d / btrfsStripeLen) mod cols)) = Some s ->
  0 <= m <= btrfsStripeLen - d mod btrfsStripeLen ->
  exists dev, dp_devices p !! cs_devID s = Some dev /\
    dev (dp_partOff p + (cs_offset s + (d / btrfsStripeLen / cols * btrfsStripeLen +
           d mod btrfsStripeLen))) m =
    Ok (tab (fun q => chunk_byte img (dp_partOff p) c cols slot (d + q)) m).
Proof.
  intros Hl Hp Hc He Hdv Hd Hs Hm. destruct (Hl s) as (Ho&Hb&dev&Edev&Hdev);
    [by eapply list_elem_of_lookup_2|].
  destruct (row_in_ext cols ext d Hc He Hdv Hd) as [Hr0 Hr].
  pose proof (Z.mod_pos_bound d btrfsStripeLen ltac:(unfold btrfsStripeLen; lia)).
  set (L := btrfsStripeLen) in *. assert (HL : 0 < L) by (unfold L, btrfsStripeLen; lia).
  exists dev. split; [done|]. rewrite Hdev by nia. f_equal. apply tab_ext. intros q Hq.
  unfold chunk_byte. rewrite byte_slot_cont by (fold L; lia).
  unfold byte_slot. cbn [fst snd]. fold L. rewrite Hs. f_equal. lia.
Qed.

(** The code's rotation formula is btrfs_map_block's. *)
Lemma striped_idx N np row col :
  0 <= np < N -> 0 <= row -> 0 <= col ->
  (if np =? 0 then col
   else ((N - np + row mod N) mod N + np + col) mod N) = striped_slot N np row col.
Proof.
  intros. unfold striped_slot. case_if; [done|].
  rewrite <- Z.add_assoc, Z.add_mod_idemp_l by lia.
  replace (N - np + row mod N + (np + col)) with (row mod N + (N + col)) by lia.
  rewrite Z.add_mod_idemp_l by lia.
  replace (row + (N + col)) with (row + col + 1 * N) by lia. apply Z.mod_add. lia.
Qed.

Lemma striped_idx_range N np row col :
  0 <= np < N -> 0 <= col < N - np -> 0 <= striped_slot N np row col < N.
Proof. intros. unfold striped_slot. case_if; [lia|]. apply Z.mod_pos_bound. lia. Qed.

Section Striped.
Context (p : devicePool) (sb : superblock) (img : Z -> Z -> byte) (c : chunkMapping).

(** [rd_ok bytes n]: the recursive reads answer the requests shorter than [n]. *)
Definition reads_shorter (ReadAt : Z -> Z -> outcome bytes) (content : Z -> byte) (n : Z) : Prop :=
  forall a m, 0 <= a < cm_size c -> 0 <= m < n -> a + m <= cm_size c ->
    ReadAt (i64 (dp_partOff p + i64 (cm_logStart c + a))) m = Ok (tab (fun q => content (a + q)) m).

(** One step: the strip's part of the read, then the rest. *)
Lemma strip_step ReadAt content a n rem :
  0 <= a < cm_size c -> 0 <= n -> a + n <= cm_size c -> 1 <= rem < n ->
  0 <= cm_logStart c -> cm_logStart c + cm_size c < 2 ^ 63 ->
  reads_shorter ReadAt content n ->
  (b2 ← ReadAt (i64 (dp_partOff p + i64 (cm_logStart c + a +₆₄ u64 rem))) (n - rem);
   Ok (tab (fun q => content (a + q)) rem ++ b2)) = Ok (tab (fun q => content (a + q)) n).
Proof.
  intros Ha Hn Han Hrem Hl Hb HR. rewrite (u64_small rem), u64_small by (unfold is_u64; lia).
  rewrite <- Z.add_assoc, HR by lia. cbn [mbind outcome_bind]. f_equal.
  replace n with (rem + (n - rem)) at 2 by lia.
  rewrite <- (tab_app (fun q => content (a + q))) by lia. f_equal.
  apply tab_ext. intros q Hq. apply f_equal. lia.
Qed.

Lemma readStriped_refines ReadAt np ext a n :
  let N := Z.of_nat (length (cm_stripes c)) in
  let content := chunk_byte img (dp_partOff p) c (N - np) (striped_slot N np) in
  0 <= np < N -> striped_chunk p sb c (N - np) ext -> legs_readable p img c ext ->
  0 <= a < cm_size c -> 0 <= n -> a + n <= cm_size c -> reads_shorter ReadAt content n ->
  readStriped ReadAt p n (cm_logStart c + a) c np = Ok (tab (fun q => content (a + q)) n).
Proof.
  intros N content Hnp Hs Hl Ha Hn Han HR. pose proof Hs as (Hsb&Hwf&Hc&HL&Hcols&He&Hdv&Hsz&Hp&Hb).
  pose proof (proj1 Hwf _ Hc) as (Hc1&Hc2&Hc3).
  destruct (pool_lookup _ _ _ _ _ _ Hs Ha) as (_&_&Hin).
  unfold readStriped, checkStripeLen. rewrite HL, Z.eqb_refl. cbn [negb mbind outcome_bind].
  rewrite Hin. fold N. destruct (Z.leb_spec N np); [lia|].
  set (L := btrfsStripeLen) in *. assert (HL0 : 0 < L) by (unfold L, btrfsStripeLen; lia).
  pose proof (Z.div_pos a L ltac:(lia) HL0).
  pose proof (Z.div_pos (a / L) (N - np) ltac:(lia) ltac:(lia)).
  pose proof (Z.mod_pos_bound (a / L) (N - np) ltac:(lia)).
  pose proof (Z.mod_pos_bound a L HL0).
  rewrite striped_idx by lia.
  pose proof (striped_idx_range N np (a / L / (N - np)) ((a / L) mod (N - np)) Hnp ltac:(lia)).
  destruct (Z.leb_spec N (striped_slot N np (a / L / (N - np)) ((a / L) mod (N - np)))); [lia|].
  destruct (lookup_lt_is_Some_2 (cm_stripes c)
    (Z.to_nat (striped_slot N np (a / L / (N - np)) ((a / L) mod (N - np)))) ltac:(lia)) as [s Es].
  rewrite Es. destruct (Hl s) as (Ho&Hob&_); [by eapply list_elem_of_lookup_2|].
  destruct (row_in_ext (N - np) ext a Hcols He Hdv ltac:(lia)) as [_ Hrow]. fold L in Hrow.
  assert (Hrl : 0 <= a / L / (N - np) * L /\ a / L / (N - np) * L + a mod L < ext) by nia.
  rewrite (u64_small (a / L / (N - np) * L)) by (unfold is_u64; lia).
  rewrite (u64_small (cs_offset s + a / L / (N - np) * L)) by (unfold is_u64; lia).
  rewrite (u64_small (cs_offset s + a / L / (N - np) * L + a mod L)) by (unfold is_u64; lia).
  rewrite <- (Z.add_assoc (cs_offset s)).
  rewrite (i64_small (cs_offset s + (a / L / (N - np) * L + a mod L))) by lia.
  rewrite (i64_small (dp_partOff p + _)) by lia.
  destruct (remain_bounds a) as [Erem Hrem]. fold L in Erem, Hrem. rewrite Erem in *.
  pose proof (fun m => slot_read p img c (N - np) ext (striped_slot N np) s a m
    Hl Hp Hcols He Hdv ltac:(lia) Es) as Hread. fold L in Hread.
  destruct (Z.leb_spec n (L - a mod L)).
  - destruct (Hread n ltac:(lia)) as (dev&->&->). done.
  - destruct (Hread (L - a mod L) ltac:(lia)) as (dev&->&->). case_if; [lia|].
    cbn [mbind outcome_bind]. apply strip_step; try done; lia.
Qed.

Lemma raid10_legs_refines ReadAt sub ext a n legs e :
  let groups := Z.of_nat (length (cm_stripes c)) / sub in
  let content := chunk_byte img (dp_partOff p) c groups (raid10_slot sub) in
  let L := btrfsStripeLen in
  2 <= sub <= Z.of_nat (length (cm_stripes c)) ->
  striped_chunk p sb c groups ext -> legs_readable p img c ext ->
  0 <= a < cm_size c -> 0 <= n -> a + n <= cm_size c -> reads_shorter ReadAt content n ->
  raid10_legs ReadAt p n (cm_logStart c + a)
    (dp_partOff p + (a / L / groups * L + a mod L)) (L - a mod L)
    ((a / L) mod groups * sub) c (S legs) 0 e = Ok (tab (fun q => content (a + q)) n).
Proof.
  intros groups content L Hsub Hs Hl Ha Hn Han HR.
  pose proof Hs as (Hsb&Hwf&Hc&HL&Hcols&He&Hdv&Hsz&Hp&Hb).
  pose proof (proj1 Hwf _ Hc) as (Hc1&Hc2&Hc3).
  assert (HL0 : 0 < L) by (unfold L, btrfsStripeLen; lia).
  pose proof (Z.mod_pos_bound (a / L) groups Hcols). pose proof (Z.mod_pos_bound a L HL0).
  pose proof (Z.mul_div_le (Z.of_nat (length (cm_stripes c))) sub ltac:(lia)). fold groups in H1.
  cbn [raid10_legs]. rewrite Z.add_0_r.
  destruct (lookup_lt_is_Some_2 (cm_stripes c) (Z.to_nat ((a / L) mod groups * sub)) ltac:(nia)) as [s Es].
  rewrite Es. destruct (Hl s) as (Ho&Hob&_); [by eapply list_elem_of_lookup_2|].
  destruct (row_in_ext groups ext a Hcols He Hdv ltac:(lia)) as [Hrow0 Hrow]. fold L in Hrow, Hrow0.
  assert (Hrl : 0 <= a / L / groups * L /\ a / L / groups * L + a mod L < ext) by nia.
  rewrite (i64_small (cs_offset s)) by lia. rewrite (i64_small (dp_partOff p + _ + _)) by lia.
  pose proof (fun m => slot_read p img c groups ext (raid10_slot sub) s a m
    Hl Hp Hcols He Hdv ltac:(lia) Es) as Hread. fold L in Hread.
  replace (dp_partOff p + (a / L / groups * L + a mod L) + cs_offset s) with
    (dp_partOff p + (cs_offset s + (a / L / groups * L + a mod L))) by lia.
  destruct (Z.leb_spec n (L - a mod L)).
  - destruct (Hread n ltac:(lia)) as (dev&->&->). done.
  - destruct (Hread (L - a mod L) ltac:(lia)) as (dev&->&->). case_if; [lia|].
    apply strip_step; try done; lia.
Qed.
End Striped.

(** The striping of the profiles that stripe. *)
Definition chunk_layout (c : chunkMapping) : option (Z * (Z -> Z -> Z)) :=
  let N := Z.of_nat (length (cm_stripes c)) in
  let profile := Z.land (cm_profile c) blockGroupProfileMask in
  if profile =? blockGroupRAID0 then Some (N, striped_slot N 0)
  else if profile =? blockGroupRAID5 then Some (N - 1, striped_slot N 1)
  else if profile =? blockGroupRAID6 then Some (N - 2, striped_slot N 2)
  else if profile =? blockGroupRAID10 then
    let sub := if cm_subStripes c <? 2 then 2 else cm_subStripes c in
    Some (N / sub, raid10_slot sub)
  else None.

Lemma readRAID10_refines ReadAt p sb img c ext a n :
  let sub := if cm_subStripes c <? 2 then 2 else cm_subStripes c in
  let groups := Z.of_nat (length (cm_stripes c)) / sub in
  let content := chunk_byte img (dp_partOff p) c groups (raid10_slot sub) in
  striped_chunk p sb c groups ext -> legs_readable p img c ext ->
  0 <= a < cm_size c -> 0 <= n -> a + n <= cm_size c -> reads_shorter p c ReadAt content n ->
  readRAID10 ReadAt p n (cm_logStart c + a) c = Ok (tab (fun q => content (a + q)) n).
Proof.
  intros sub groups content Hs Hl Ha Hn Han HR.
  pose proof Hs as (Hsb&Hwf&Hc&HL&Hcols&He&Hdv&Hsz&Hp&Hb).
  assert (Hsub : 2 <= sub) by (subst sub; case_if; lia).
  assert (Hle : sub <= Z.of_nat (length (cm_stripes c))).
  { destruct (Z.le_gt_cases sub (Z.of_nat (length (cm_stripes c)))); [done|].
    subst groups. rewrite Z.div_small in Hcols by lia. lia. }
  destruct (pool_lookup _ _ _ _ _ _ Hs Ha) as (_&_&Hin).
  unfold readRAID10, checkStripeLen. rewrite HL, Z.eqb_refl. cbn [negb mbind outcome_bind].
  rewrite Hin. fold sub. fold groups. case_if; [lia|].
  destruct (remain_bounds a) as [Erem Hrem]. rewrite Erem in *.
  pose proof (Z.mod_pos_bound a btrfsStripeLen ltac:(unfold btrfsStripeLen; lia)).
  destruct (row_in_ext groups ext a Hcols He Hdv ltac:(lia)) as [Hrow0 Hrow].
  assert (Hfst : exists s, s ∈ cm_stripes c) by (destruct (cm_stripes c) as [|s ?]; [cbn in Hle; lia|exists s; by left]).
  destruct Hfst as [s0 Hs0]. destruct (Hl s0 Hs0) as (?&?&_).
  rewrite (u64_small (a / btrfsStripeLen / groups * btrfsStripeLen)) by (unfold is_u64; nia).
  rewrite (u64_small (a / btrfsStripeLen / groups * btrfsStripeLen + _)) by (unfold is_u64; nia).
  rewrite (i64_small (a / btrfsStripeLen / groups * btrfsStripeLen + _)) by nia.
  rewrite (i64_small (dp_partOff p + _)) by nia.
  destruct (Z.to_nat sub) as [|legs] eqn:El; [lia|].
  eapply (raid10_legs_refines p sb img c ReadAt sub ext a n legs None); try done.
Qed.

Lemma readFromChunk_refines ReadAt p sb img c cols slot ext a n :
  let content := chunk_byte img (dp_partOff p) c cols slot in
  chunk_layout c = Some (cols, slot) -> striped_chunk p sb c cols ext -> legs_readable p img c ext ->
  0 <= a < cm_size c -> 0 <= n -> a + n <= cm_size c -> reads_shorter p c ReadAt content n ->
  readFromChunk ReadAt p n (cm_logStart c + a) c = Ok (tab (fun q => content (a + q)) n).
Proof.
  intros content Hlay Hs Hl Ha Hn Han HR. unfold readFromChunk.
  assert (Hcols : 0 < cols) by apply Hs.
  unfold chunk_layout in Hlay. set (pr := Z.land (cm_profile c) blockGroupProfileMask) in *.
  destruct (Z.eqb_spec pr blockGroupRAID0) as [E|_]; [|destruct (Z.eqb_spec pr blockGroupRAID5) as [E|_];
    [|destruct (Z.eqb_spec pr blockGroupRAID6) as [E|_]; [|destruct (Z.eqb_spec pr blockGroupRAID10) as [E|_];
      [|done]]]]; rewrite E; injection Hlay as <- <-; cbn -[readStriped readRAID10].
  - pose proof (readStriped_refines p sb img c ReadAt 0 ext a n) as H. cbv zeta in H.
    rewrite Z.sub_0_r in H. apply H; try done; lia.
  - eapply readStriped_refines; try done. lia.
  - eapply readStriped_refines; try done. lia.
  - eapply readRAID10_refines; done.
Qed.

(** C36. Striped reads are correct: on a RAID0, RAID5, RAID6 or RAID10 chunk whose
    legs are present and readable, in a chunk map without logical overlaps, a pool read of any range inside the chunk,
    however many strips it crosses, returns byte for byte what the placement
    of btrfs_map_block ([byte_slot]) says the array stores there. *)
Theorem pool_ReadAt_striped p sb img c cols slot ext a n :
  chunk_layout c = Some (cols, slot) -> striped_chunk p sb c cols ext -> legs_readable p img c ext ->
  0 <= a < cm_size c -> 0 <= n -> a + n <= cm_size c ->
  pool_ReadAt p (dp_partOff p + (cm_logStart c + a)) n =
  Ok (tab (fun q => chunk_byte img (dp_partOff p) c cols slot (a + q)) n).
Proof.
  intros Hlay Hs Hl Ha Hn Han. pose proof Hs as (Hsb&Hwf&Hc&_&_&_&_&_&Hp&Hb).
  pose proof (proj1 Hwf _ Hc). unfold pool_ReadAt.
  replace (dp_partOff p + (cm_logStart c + a)) with (i64 (dp_partOff p + i64 (cm_logStart c + a)))
    by (rewrite (i64_small (cm_logStart c + a)), i64_small by lia; lia).
  assert (HF : n < Z.of_nat (S (Z.to_nat n))) by lia. revert HF.
  generalize (S (Z.to_nat n)) as fuel. intros fuel. revert a n Ha Hn Han.
  induction fuel as [|fuel IH]; intros a n Ha Hn Han HF; [lia|].
  cbn [pool_ReadAt_loop]. rewrite Hsb. destruct (pool_lookup _ _ _ _ _ _ Hs Ha) as (-> & -> &_).
  eapply readFromChunk_refines; try done. intros a' m Ha' Hm Ham. apply IH; lia.
Qed.

(** ** Mirrors *)

(** The stripes of a mirrored chunk whose device is in the pool, with the answer
    of the device. *)
Definition stripe_answers (p : devicePool) (n logical : Z) (c : chunkMapping) : list (outcome bytes) :=
  omap (tryStripe p n (logical -₆₄ cm_logStart c)) (cm_stripes c).

Lemma mirror_loop_Ok p n d li i stripes e b :
  Forall safe (omap (tryStripe p n d) stripes) ->
  (exists j s, stripes !! j = Some s /\ i + Z.of_nat j <> li /\ tryStripe p n d s = Some (Ok b)) ->
  exists b' s, mirror_loop p n d li i stripes e = Ok b' /\ s ∈ stripes /\ tryStripe p n d s = Some (Ok b').
Proof.
  revert i e. induction stripes as [|s stripes IH]; intros i e Hsafe (j&s'&Hj&Hne&Hs'); [done|].
  cbn in Hsafe. cbn [mirror_loop].
  assert (Hrec : Forall safe (omap (tryStripe p n d) stripes)).
  { destruct (tryStripe p n d s); [by apply Forall_cons in Hsafe as [_ ?]|done]. }
  assert (Hconv : forall e', j <> 0%nat -> exists b' s0, mirror_loop p n d li (i + 1) stripes e' = Ok b' /\
      s0 ∈ s :: stripes /\ tryStripe p n d s0 = Some (Ok b')).
  { intros e' Hj0. destruct j as [|j]; [done|]. destruct (IH (i + 1) e' Hrec) as (b'&s''&?&?&?).
    - exists j, s'. split_and!; [done|lia|done].
    - exists b', s''. split_and!; [done|by right|done]. }
  case_if; [apply Hconv; intros ->; lia|].
  destruct (tryStripe p n d s) as [o|] eqn:E.
  - apply Forall_cons in Hsafe as [Ho _]. destruct o as [b0|e0| |]; try done.
    + exists b0, s. split_and!; [done|by left|done].
    + apply Hconv. intros ->. cbn in Hj. congruence.
  - apply Hconv. intros ->. cbn in Hj. congruence.
Qed.

Lemma mirror_loop_sound p n d li i stripes e b :
  mirror_loop p n d li i stripes e = Ok b -> Ok b ∈ omap (tryStripe p n d) stripes.
Proof.
  revert i e. induction stripes as [|s stripes IH]; intros i e H; cbn [mirror_loop] in H; [done|].
  rewrite list_elem_of_omap. case_if_in H.
  - apply IH in H. apply list_elem_of_omap in H as (s'&?&?). exists s'. split; [by right|done].
  - destruct (tryStripe p n d s) as [[b0|e0| |]|] eqn:E; try done;
      try (apply IH in H; apply list_elem_of_omap in H as (s'&?&?); exists s'; split; [by right|done]).
    injection H as ->. exists s. split; [by left|done].
Qed.

(** C37. Mirrored chunks survive lost and failing legs: a SINGLE, DUP or RAID1*
    read succeeds exactly when some stripe's device is in the pool and answers,
    whichever leg is local, and the bytes returned are one leg's answer. *)
Theorem readSingleOrMirror_failover p n l c :
  pool_safe p -> 0 <= n ->
  ((exists b, readSingleOrMirror p n l c = Ok b) <-> (exists b, Ok b ∈ stripe_answers p n l c)) /\
  (forall b, readSingleOrMirror p n l c = Ok b -> Ok b ∈ stripe_answers p n l c).
Proof.
  intros Hp Hn. set (d := l -₆₄ cm_logStart c).
  assert (Hsafe : Forall safe (omap (tryStripe p n d) (cm_stripes c))).
  { apply Forall_forall. intros o (s&_&Hs)%list_elem_of_omap.
    pose proof (tryStripe_safe _ _ _ _ _ Hp Hn Hs). by destruct o. }
  assert (Hsound : forall b, readSingleOrMirror p n l c = Ok b -> Ok b ∈ stripe_answers p n l c).
  { intros b. unfold readSingleOrMirror, stripe_answers. fold d. case_if; [|apply mirror_loop_sound].
    destruct (cm_stripes c !! _) as [s|] eqn:Es; [|done].
    destruct (tryStripe p n d s) as [[b0|e0| |]|] eqn:E; try done; try apply mirror_loop_sound.
    intros [= ->]. apply list_elem_of_omap. exists s. split; [by eapply list_elem_of_lookup_2|done]. }
  split; [|done]. split; [intros [b Hb]; exists b; by apply Hsound|].
  intros [b (s&Hs&Es)%list_elem_of_omap]. fold d in Es.
  apply list_elem_of_lookup in Hs as [j Hj]. unfold readSingleOrMirror. fold d.
  destruct (decide (Z.of_nat j = cm_localStripeIdx c)) as [El|El].
  - pose proof (lookup_lt_Some _ _ _ Hj). rewrite <- El, Nat2Z.id, Hj, Es. case_if; [by exists b|].
    destruct Heqb0; bool_prop; lia.
  - destruct (mirror_loop_Ok p n d (cm_localStripeIdx c) 0 (cm_stripes c) None b Hsafe) as (b'&s'&E'&_&_).
    { exists j, s. split_and!; [done|lia|done]. }
    case_if; [|by exists b'].
    destruct (lookup_lt_is_Some_2 (cm_stripes c) (Z.to_nat (cm_localStripeIdx c)) ltac:(lia)) as [s0 ->].
    destruct (tryStripe p n d s0) as [o|] eqn:E0; [|by exists b'].
    pose proof (tryStripe_safe _ _ _ _ _ Hp Hn E0). destruct o as [b0|e0| |]; try done; by eexists.
Qed.

(** ** Examples *)

(** An in-memory device of [size] bytes. *)
Definition img_backend (size : Z) (f : Z -> byte) : blockBackend := fun off n =>
  if (0 <=? off) && (0 <=? n) && (off + n <=? size) then Ok (tab (fun q => f (off + q)) n)
  else Err ErrIO.
Definition ex_img (dev off : Z) : byte := byte_of_Z (dev * 16 + off / btrfsStripeLen).

Definition ex_raid5 : chunkMapping :=
  ChunkMapping 0x100000 0x80000 0x20000 0 (Z.lor blockGroupData blockGroupRAID5) btrfsStripeLen 1
    [ChunkStripe 1 0x20000; ChunkStripe 2 0x30000; ChunkStripe 3 0].
(** The next chunk, on each device right behind the legs of the first. *)
Definition ex_raid5' : chunkMapping :=
  ChunkMapping 0x180000 0x80000 0x60000 0 (Z.lor blockGroupData blockGroupRAID5) btrfsStripeLen 1
    [ChunkStripe 1 0x60000; ChunkStripe 2 0x70000; ChunkStripe 3 0x40000].
Definition ex_pool : devicePool :=
  DevicePool 0x1000
    (<[1 := img_backend 0x200000 (ex_img 1)]> (<[2 := img_backend 0x200000 (ex_img 2)]>
     (<[3 := img_backend 0x200000 (ex_img 3)]> ∅)))
    (Some (set_sysChunks ex_sb [ex_raid5; ex_raid5'])) (img_backend 0x200000 (ex_img 1)).

Lemma img_backend_safe size f : backend_safe (img_backend size f).
Proof.
  intros off n Hn. unfold img_backend. case_if; [|done]. cbn.
  unfold blen, tab. rewrite length_map, length_seq. lia.
Qed.

Lemma ex_pool_safe : pool_safe ex_pool.
Proof.
  split; [apply img_backend_safe|]. cbn [dp_devices ex_pool].
  repeat (apply map_Forall_insert_2; [apply img_backend_safe|]). apply map_Forall_empty.
Defined.

Lemma ex_striped_chunk :
  striped_chunk ex_pool (set_sysChunks ex_sb [ex_raid5; ex_raid5']) ex_raid5 2 0x40000.
Proof.
  assert (log_map_wf [ex_raid5; ex_raid5']).
  { assert (Hin : forall m, m ∈ [ex_raid5; ex_raid5'] -> m = ex_raid5 \/ m = ex_raid5') by (intros m; set_solver). split.
    - intros m [->| ->]%Hin; cbn; lia.
    - intros m m' [->| ->]%Hin [->| ->]%Hin; first [by left|right; unfold disjoint_ranges; cbn; lia]. }
  split_and!; [reflexivity|done|by left|reflexivity|lia|lia|by exists 4|reflexivity|cbn; lia|cbn; lia].
Defined.

Lemma ex_legs_readable : legs_readable ex_pool ex_img ex_raid5 0x40000.
Proof.
  intros s Hs. cbn in Hs. rewrite !elem_of_cons, elem_of_nil in Hs.
  destruct Hs as [->|[->|[->|[]]]]; cbn; (split; [lia|]); (split; [lia|]); eexists; (split; [reflexivity|]);
    intros off n Hlo Hn Hhi; unfold img_backend; rewrite ?(proj2 (Z.leb_le _ _)) by lia; reflexivity.
Defined.

Lemma pool_ReadAt_striped_witness :
  pool_ReadAt ex_pool (0x1000 + (0x100000 + 0xFFF0)) 32 =
  Ok (tab (fun q => chunk_byte ex_img 0x1000 ex_raid5 2 (striped_slot 3 1) (0xFFF0 + q)) 32).
Proof.
  apply (pool_ReadAt_striped ex_pool (set_sysChunks ex_sb [ex_raid5; ex_raid5']) ex_img ex_raid5 2
    (striped_slot 3 1) 0x40000 0xFFF0 32); [reflexivity|apply ex_striped_chunk|apply ex_legs_readable|cbn; lia..].
Defined.

Lemma pool_ReadAt_total_witness : safe_with (pool_ReadAt ex_pool 0x110000 64) (fun b => blen b = 64).
Proof. apply (pool_ReadAt_total ex_pool 0x110000 64); [apply ex_pool_safe|lia]. Defined.

Lemma striped_placement_sound_witness :
  let place := byte_slot (3 - 1) (striped_slot 3 1) in
  (place 70000 = place 200000 -> 70000 = 200000) /\
  0 <= (place 70000).1 < 3 /\
  (0 < 1 -> forall j, 0 <= j < 1 ->
     (place 70000).1 <> (3 - 1 + (place 70000).2 / btrfsStripeLen + j) mod 3).
Proof. apply (striped_placement_sound 3 1 70000 200000); lia. Defined.

Lemma readSingleOrMirror_failover_witness :
  ((exists b, readSingleOrMirror ex_pool 4 0x100010 ex_raid5 = Ok b) <->
   (exists b, Ok b ∈ stripe_answers ex_pool 4 0x100010 ex_raid5)) /\
  (forall b, readSingleOrMirror ex_pool 4 0x100010 ex_raid5 = Ok b ->
     Ok b ∈ stripe_answers ex_pool 4 0x100010 ex_raid5).
Proof. apply (readSingleOrMirror_failover ex_pool 4 0x100010 ex_raid5); [apply ex_pool_safe|lia]. Defined.
