(* ===== verification/Node.v ===== *)
(** * Keys, node headers and leaf items (btree.go, cow.go)

    B-tree nodes are byte buffers, as in the code.  The definitions follow the
    Go functions on the bytes; [leaf_repr] relates a leaf buffer to the list of
    (key, data) items it stores, and each leaf operation is proved to implement
    the corresponding operation on that list. *)
From Stdlib Require Import ZArith Lia Strings.Byte.
From stdpp Require Import base option list numbers sorting gmap.
From S2P Require Import Prelude Bytes Layout.
Local Open Scope Z_scope.
Local Open Scope btrfs_scope.

Record nodeHeader := NodeHeader { hdr_logAddr : Z; hdr_nItems : Z; hdr_level : Z }.
Record key := Key { objID : Z; typ : Z; offset : Z }.
Record leafItem := LeafItem { it_k : key; it_dataOff : Z; it_dataSize : Z }.

#[global] Instance key_eq_dec : EqDecision key.
Proof. solve_decision. Defined.

Definition parseNodeHeader (buf : bytes) : outcome nodeHeader :=
  la ← Uint64 buf 0x30;
  n ← Uint32 buf 0x60;
  lv ← Uint8 buf 0x64;
  Ok (NodeHeader la n lv).

(** [readKey(buf[off:])] *)
Definition readKey (buf : bytes) (off : Z) : outcome key :=
  o ← Uint64 buf off;
  t ← Uint8 buf (off + 8);
  f ← Uint64 buf (off + 9);
  Ok (Key o t f).

(** The three stores that write a key at [off]. *)
Definition putKey (buf : bytes) (off : Z) (k : key) : outcome bytes :=
  buf ← PutUint64 buf off (objID k);
  buf ← PutUint8 buf (off + 8) (typ k);
  PutUint64 buf (off + 9) (offset k).

Definition compareKeys (k : key) (o t f : Z) : Z :=
  if negb (objID k =? o) then (if objID k <? o then -1 else 1)
  else if negb (typ k =? t) then (if typ k <? t then -1 else 1)
  else if negb (offset k =? f) then (if offset k <? f then -1 else 1)
  else 0.

Definition compareKey (a b : key) : Z := compareKeys a (objID b) (typ b) (offset b).

(** How many records of [stride] bytes the buffer can hold, at most [n]. *)
Definition itemsThatFit (buf : bytes) (n stride : Z) : Z :=
  let fit := Z.quot (blen buf - nodeHdrSize) stride in
  if fit <? 0 then 0 else if fit <? n then fit else n.

Fixpoint parseLeafItems_loop (fuel : nat) (buf : bytes) (n i : Z) : outcome (list leafItem) :=
  if n <=? i then Ok []
  else
    let off := nodeHdrSize + i * itemSize in
    if blen buf <? off + itemSize then Ok []
    else match fuel with
    | O => NoFuel
    | S fuel =>
        k ← readKey buf off;
        o ← Uint32 buf (off + 17);
        s ← Uint32 buf (off + 21);
        rest ← parseLeafItems_loop fuel buf n (i + 1);
        Ok (LeafItem k o s :: rest)
    end.

(** The loop runs at most [itemsThatFit] times, its capacity hint. *)
Definition parseLeafItems (buf : bytes) (n : Z) : outcome (list leafItem) :=
  parseLeafItems_loop (Z.to_nat (itemsThatFit buf n itemSize)) buf n 0.

(** [it.data(buf)]: the item's bytes, or nil when they leave the buffer. *)
Definition item_data (it : leafItem) (buf : bytes) : bytes :=
  let start := nodeHdrSize + it_dataOff it in
  let fin := start + it_dataSize it in
  if (start <? nodeHdrSize) || (blen buf <? fin) then [] else sub buf start (it_dataSize it).

(** ** Leaf operations (cow.go) *)

(** One (key, data) record; [itemRec], [itemSnap] and [splitItem] in the code. *)
Abbreviation rec := (key * bytes)%type.

(** The lowest data offset in use: the loop that computes [dataAreaEnd]. *)
Fixpoint data_area_end (fuel : nat) (buf : bytes) (i : Z) (acc : Z) : outcome Z :=
  match fuel with
  | O => Ok acc
  | S fuel =>
      dataOff ← Uint32 buf (nodeHdrSize + i * itemSize + 17);
      _ ← Uint32 buf (nodeHdrSize + i * itemSize + 21);
      data_area_end fuel buf (i + 1)
        (if dataOff <? acc - nodeHdrSize then nodeHdrSize + dataOff else acc)
  end.

(** The first item whose key is greater than [k]; [n] when there is none. *)
Fixpoint insert_idx (fuel : nat) (buf : bytes) (k : key) (i : Z) : outcome Z :=
  match fuel with
  | O => Ok i
  | S fuel =>
      ik ← readKey buf (nodeHdrSize + i * itemSize);
      if 0 <? compareKey ik k then Ok i else insert_idx fuel buf k (i + 1)
  end.

(** Snapshot of the (key, data) pairs of items [i ..]. *)
Fixpoint snapshot (fuel : nat) (buf : bytes) (i : Z) : outcome (list rec) :=
  match fuel with
  | O => Ok []
  | S fuel =>
      let off := nodeHdrSize + i * itemSize in
      k ← readKey buf off;
      doff ← Uint32 buf (off + 17);
      dsz ← Uint32 buf (off + 21);
      d ← slice buf (nodeHdrSize + doff) (nodeHdrSize + doff + dsz);
      rest ← snapshot fuel buf (i + 1);
      Ok ((k, d) :: rest)
  end.

(** Write the records' descriptors from slot [i] on, and pack their data
    downwards from [cursor]. *)
Fixpoint pack (buf : bytes) (cursor i : Z) (recs : list rec) : outcome bytes :=
  match recs with
  | [] => Ok buf
  | (k, d) :: recs =>
      let cursor := cursor - blen d in
      buf ← copy_at buf cursor d;
      let off := nodeHdrSize + i * itemSize in
      buf ← putKey buf off k;
      buf ← PutUint32 buf (off + 17) (cursor - nodeHdrSize);
      buf ← PutUint32 buf (off + 21) (blen d);
      pack buf cursor (i + 1) recs
  end.

Definition leafInsertItem (buf : bytes) (k : key) (data : bytes) : outcome bytes :=
  hdr ← parseNodeHeader buf;
  let n := hdr_nItems hdr in
  let nodeSize := blen buf in
  dataAreaEnd ← data_area_end (Z.to_nat n) buf 0 nodeSize;
  insertIdx ← insert_idx (Z.to_nat n) buf k 0;
  let needed := itemSize + blen data in
  let dataUsed := nodeSize - dataAreaEnd in
  let headerUsed := nodeHdrSize + n * itemSize in
  let free := nodeSize - headerUsed - dataUsed in
  if free <? needed then Err ErrLeafFull else
  recs ← snapshot (Z.to_nat n) buf 0;
  buf ← pack buf nodeSize 0 (insert_at (Z.to_nat insertIdx) (k, data) recs);
  PutUint32 buf 0x60 (n + 1).

Definition leafUpdateItemSameSize (buf : bytes) (idx : Z) (newData : bytes) : outcome bytes :=
  let off := nodeHdrSize + idx * itemSize in
  dataOff ← Uint32 buf (off + 17);
  dataSize ← Uint32 buf (off + 21);
  if negb (dataSize =? blen newData) then Err ErrOther
  else copy_at buf (nodeHdrSize + dataOff) newData.

Fixpoint data_used (fuel : nat) (buf : bytes) (i : Z) : outcome Z :=
  match fuel with
  | O => Ok 0
  | S fuel =>
      _ ← Uint32 buf (nodeHdrSize + i * itemSize + 17);
      dsz ← Uint32 buf (nodeHdrSize + i * itemSize + 21);
      rest ← data_used fuel buf (i + 1);
      Ok (dsz + rest)
  end.

Definition leafReplaceItemData (buf : bytes) (idx : Z) (newData : bytes) : outcome bytes :=
  hdr ← parseNodeHeader buf;
  let n := hdr_nItems hdr in
  let nodeSize := blen buf in
  oldDataSize ← Uint32 buf (nodeHdrSize + idx * itemSize + 21);
  let delta := blen newData - oldDataSize in
  if delta =? 0 then leafUpdateItemSameSize buf idx newData else
  dataUsed ← data_used (Z.to_nat n) buf 0;
  let free := nodeSize - nodeHdrSize - n * itemSize - dataUsed in
  if free <? delta then Err ErrOther else
  snaps ← snapshot (Z.to_nat n) buf 0;
  match snaps !! Z.to_nat idx with
  | None => Panic
  | Some (k, _) =>
      buf ← PutUint32 buf 0x60 0;
      buf ← clear_range buf nodeHdrSize (blen buf);
      buf ← PutUint32 buf 0x60 n;
      pack buf nodeSize 0 (<[Z.to_nat idx := (k, newData)]> snaps)
  end.

(** [leafDeleteItem]: the loops over the other items. *)
Fixpoint min_data_off (fuel : nat) (buf : bytes) (idx i acc : Z) : outcome Z :=
  match fuel with
  | O => Ok acc
  | S fuel =>
      if i =? idx then min_data_off fuel buf idx (i + 1) acc else
      doff ← Uint32 buf (nodeHdrSize + i * itemSize + 17);
      min_data_off fuel buf idx (i + 1) (if doff <? acc then doff else acc)
  end.

Fixpoint shift_offsets (fuel : nat) (buf : bytes) (idx i delOff delSize : Z) : outcome bytes :=
  match fuel with
  | O => Ok buf
  | S fuel =>
      if i =? idx then shift_offsets fuel buf idx (i + 1) delOff delSize else
      let off := nodeHdrSize + i * itemSize in
      doff ← Uint32 buf (off + 17);
      buf ← (if doff <? delOff then PutUint32 buf (off + 17) (doff + delSize) else Ok buf);
      shift_offsets fuel buf idx (i + 1) delOff delSize
  end.

Definition leafDeleteItem (buf : bytes) (idx : Z) : outcome bytes :=
  hdr ← parseNodeHeader buf;
  let n := hdr_nItems hdr in
  let descOff := nodeHdrSize + idx * itemSize in
  delDataOff ← Uint32 buf (descOff + 17);
  delDataSize ← Uint32 buf (descOff + 21);
  minDataOff ← min_data_off (Z.to_nat n) buf idx 0 delDataOff;
  let srcStart := nodeHdrSize + minDataOff in
  let srcEnd := nodeHdrSize + delDataOff in
  let dstStart := srcStart + delDataSize in
  buf ← (if srcStart <? srcEnd
         then src ← slice buf srcStart srcEnd;
              _ ← slice buf dstStart (dstStart + (srcEnd - srcStart));
              copy_at buf dstStart src
         else Ok buf);
  buf ← clear_range buf srcStart (srcStart + delDataSize);
  buf ← shift_offsets (Z.to_nat n) buf idx 0 delDataOff delDataSize;
  tail ← slice buf (descOff + itemSize) (nodeHdrSize + n * itemSize);
  buf ← copy_at buf descOff tail;
  buf ← clear_range buf (nodeHdrSize + (n - 1) * itemSize) (nodeHdrSize + n * itemSize);
  PutUint32 buf 0x60 (n - 1).

Fixpoint findItemIdx_loop (fuel : nat) (buf : bytes) (o t f i : Z) : outcome Z :=
  match fuel with
  | O => Ok (-1)
  | S fuel =>
      k ← readKey buf (nodeHdrSize + i * itemSize);
      if (objID k =? o) && (typ k =? t) && (offset k =? f) then Ok i
      else findItemIdx_loop fuel buf o t f (i + 1)
  end.

Definition findItemIdx (buf : bytes) (o t f : Z) : outcome Z :=
  hdr ← parseNodeHeader buf;
  findItemIdx_loop (Z.to_nat (hdr_nItems hdr)) buf o t f 0.

Fixpoint findItemIdxPrefix_loop (fuel : nat) (buf : bytes) (o t i : Z) : outcome (list Z) :=
  match fuel with
  | O => Ok []
  | S fuel =>
      k ← readKey buf (nodeHdrSize + i * itemSize);
      rest ← findItemIdxPrefix_loop fuel buf o t (i + 1);
      Ok (if (objID k =? o) && (typ k =? t) then i :: rest else rest)
  end.

Definition findItemIdxPrefix (buf : bytes) (o t : Z) : outcome (list Z) :=
  hdr ← parseNodeHeader buf;
  findItemIdxPrefix_loop (Z.to_nat (hdr_nItems hdr)) buf o t 0.

(** ** Keys *)
Definition key_ok (k : key) : Prop :=
  0 <= objID k < 2 ^ 64 /\ 0 <= typ k < 2 ^ 8 /\ 0 <= offset k < 2 ^ 64.

(** The 136-bit number whose order is the order of keys. *)
Definition key_num (k : key) : Z := (objID k * 2 ^ 8 + typ k) * 2 ^ 64 + offset k.
Definition key_lt (a b : key) : Prop := key_num a < key_num b.

Lemma compareKey_num a b :
  key_ok a -> key_ok b -> compareKey a b = Z.sgn (key_num a - key_num b).
Proof.
  intros (?&?&?) (?&?&?). unfold compareKey, compareKeys, key_num.
  repeat case_if; symmetry; first [apply Z.sgn_neg|apply Z.sgn_pos|apply Z.sgn_null]; nia.
Qed.

Lemma key_num_inj a b : key_ok a -> key_ok b -> key_num a = key_num b -> a = b.
Proof.
  destruct a, b. intros (?&?&?) (?&?&?) E. unfold key_num in E. cbn [objID typ offset] in *.
  assert (objID0 = objID1 /\ typ0 = typ1 /\ offset0 = offset1) as (->&->&->); [|done]. nia.
Qed.

Lemma compareKey_gt a b : key_ok a -> key_ok b -> (0 <? compareKey a b) = (key_num b <? key_num a).
Proof.
  intros. rewrite compareKey_num by done.
  destruct (Z.ltb_spec 0 (Z.sgn (key_num a - key_num b))), (Z.ltb_spec (key_num b) (key_num a)); lia.
Qed.

Lemma compareKey_le a b :
  key_ok a -> key_ok b -> (compareKey a b <=? 0) = (key_num a <=? key_num b).
Proof.
  intros. rewrite compareKey_num by done.
  destruct (Z.leb_spec (Z.sgn (key_num a - key_num b)) 0), (Z.leb_spec (key_num a) (key_num b)); lia.
Qed.

Definition key_eqb (k : key) (o t f : Z) : bool := (objID k =? o) && (typ k =? t) && (offset k =? f).

Lemma key_eqb_eq k k' : key_eqb k (objID k') (typ k') (offset k') = true <-> k = k'.
Proof.
  unfold key_eqb. destruct k, k'. cbn. split.
  - intros. bool_prop. congruence.
  - intros [= -> -> ->]. by rewrite !Z.eqb_refl.
Qed.

Definition key_at (buf : bytes) (off : Z) : key :=
  Key (rd 8 buf off) (rd 1 buf (off + 8)) (rd 8 buf (off + 9)).

Lemma key_at_ok buf off : key_ok (key_at buf off).
Proof.
  unfold key_ok, key_at. cbn [objID typ offset].
  pose proof (rd_range 8 buf off). pose proof (rd_range 1 buf (off + 8)).
  pose proof (rd_range 8 buf (off + 9)). cbn in *. lia.
Qed.

Lemma readKey_Ok buf off :
  0 <= off -> off + 17 <= blen buf -> readKey buf off = Ok (key_at buf off).
Proof. intros. unfold readKey. get_tac. done. Qed.

Definition put_key (buf : bytes) (off : Z) (k : key) : bytes :=
  wr 8 (wr 1 (wr 8 buf off (objID k)) (off + 8) (typ k)) (off + 9) (offset k).

Lemma putKey_Ok buf off k :
  0 <= off -> off + 17 <= blen buf -> putKey buf off k = Ok (put_key buf off k).
Proof. intros. unfold putKey, put_key. get_tac. done. Qed.

Lemma blen_put_key buf off k :
  0 <= off -> off + 17 <= blen buf -> blen (put_key buf off k) = blen buf.
Proof. intros. unfold put_key. blen_tac. Qed.

Lemma key_at_put_key buf off k :
  0 <= off -> off + 17 <= blen buf -> key_ok k -> key_at (put_key buf off k) off = k.
Proof.
  intros ?? (?&?&?). unfold key_at, put_key. rd_tac.
  rewrite !Z.mod_small by (cbn; lia). by destruct k.
Qed.

Lemma bnth_put_key_out buf off k p :
  0 <= off -> off + 17 <= blen buf -> 0 <= p -> (p < off \/ off + 17 <= p) ->
  bnth (put_key buf off k) p = bnth buf p.
Proof. intros. unfold put_key. rewrite !bnth_wr_out by blen_tac. done. Qed.

Lemma key_at_agree b b' off :
  0 <= off -> off + 17 <= blen b -> off + 17 <= blen b' -> agree b b' off (off + 17) ->
  key_at b off = key_at b' off.
Proof.
  intros ??? H. unfold key_at.
  f_equal; (apply rd_agree; [lia..|]; intros p Hp; apply H; cbn in *; lia).
Qed.

(** ** The items of a leaf *)
Definition recs_size (recs : list rec) : Z := sumZ (map (fun r => blen r.2) recs).
Definition nrecs (recs : list rec) : Z := Z.of_nat (length recs).

Lemma recs_size_cons k d recs : recs_size ((k, d) :: recs) = blen d + recs_size recs.
Proof. reflexivity. Qed.
Lemma recs_size_app a b : recs_size (a ++ b) = recs_size a + recs_size b.
Proof. apply sumZ_map_app. Qed.
Lemma recs_size_nonneg recs : 0 <= recs_size recs.
Proof. apply sumZ_nonneg, Forall_map, Forall_forall. intros x _. apply blen_nonneg. Qed.
Lemma nrecs_cons r recs : nrecs (r :: recs) = 1 + nrecs recs.
Proof. unfold nrecs. cbn [length]. lia. Qed.
Lemma nrecs_app a b : nrecs (a ++ b) = nrecs a + nrecs b.
Proof. unfold nrecs. rewrite length_app. lia. Qed.
Lemma nrecs_nonneg recs : 0 <= nrecs recs.
Proof. unfold nrecs. lia. Qed.

(** Descriptors from slot [i] on describe [recs], their data packed downwards
    from [cursor]: each item's data ends where the previous item's begins. *)
Fixpoint packed (buf : bytes) (cursor i : Z) (recs : list rec) : Prop :=
  match recs with
  | [] => True
  | (k, d) :: recs =>
      let off := nodeHdrSize + i * itemSize in
      let cursor := cursor - blen d in
      key_at buf off = k /\ rd 4 buf (off + 17) = cursor - nodeHdrSize /\
      rd 4 buf (off + 21) = blen d /\ sub buf cursor (blen d) = d /\
      packed buf cursor (i + 1) recs
  end.

(** [buf] is a leaf that stores exactly the items [recs], in this order. *)
Definition leaf_repr (buf : bytes) (recs : list rec) : Prop :=
  rd 4 buf 0x60 = nrecs recs /\ rd 1 buf 0x64 = 0 /\
  nodeHdrSize + nrecs recs * itemSize + recs_size recs <= blen buf /\
  blen buf <= maxNodeSize /\ packed buf (blen buf) 0 recs.

(** The space an item list takes in a leaf. *)
Definition leaf_need (recs : list rec) : Z := nodeHdrSize + nrecs recs * itemSize + recs_size recs.

Ltac hdr_lia := unfold nodeHdrSize, itemSize, keyPtrSize, maxNodeSize in *; lia.

Lemma packed_agree b b' c i recs :
  0 <= i -> blen b' = blen b -> c <= blen b ->
  nodeHdrSize + (i + nrecs recs) * itemSize <= c - recs_size recs ->
  agree b b' (nodeHdrSize + i * itemSize) (nodeHdrSize + (i + nrecs recs) * itemSize) ->
  agree b b' (c - recs_size recs) c ->
  packed b c i recs -> packed b' c i recs.
Proof.
  revert c i. induction recs as [|[k d] recs IH]; intros c i Hi Hl Hc Hfit Hd Hdat; [done|].
  cbn [packed]. rewrite nrecs_cons, recs_size_cons in *.
  pose proof (nrecs_nonneg recs). pose proof (recs_size_nonneg recs). pose proof (blen_nonneg d).
  intros (E1&E2&E3&E4&E5). split_and!.
  - rewrite <- E1. symmetry. apply key_at_agree; [hdr_lia..|].
    intros p Hp. apply Hd. hdr_lia.
  - rewrite <- E2. symmetry. apply rd_agree; [hdr_lia..|]. intros p Hp. apply Hd. hdr_lia.
  - rewrite <- E3. symmetry. apply rd_agree; [hdr_lia..|]. intros p Hp. apply Hd. hdr_lia.
  - transitivity (sub b (c - blen d) (blen d)); [|done]. symmetry. apply sub_agree; [hdr_lia..|]. intros p Hp. apply Hdat. hdr_lia.
  - apply IH; try done; try hdr_lia.
    + intros p Hp. apply Hd. hdr_lia.
    + intros p Hp. apply Hdat. hdr_lia.
Qed.

(** Writing record [i]: data, key and the two descriptor words. *)
Definition put_rec (buf : bytes) (cursor i : Z) (r : rec) : bytes :=
  let off := nodeHdrSize + i * itemSize in
  let cursor := cursor - blen r.2 in
  wr 4 (wr 4 (put_key (splice buf cursor r.2) off r.1) (off + 17) (cursor - nodeHdrSize))
     (off + 21) (blen r.2).

Lemma put_rec_spec buf c i k d :
  0 <= i -> nodeHdrSize + (i + 1) * itemSize <= c - blen d -> c <= blen buf ->
  blen buf <= maxNodeSize -> key_ok k ->
  let buf' := put_rec buf c i (k, d) in
  blen buf' = blen buf /\ key_at buf' (nodeHdrSize + i * itemSize) = k /\
  rd 4 buf' (nodeHdrSize + i * itemSize + 17) = c - blen d - nodeHdrSize /\
  rd 4 buf' (nodeHdrSize + i * itemSize + 21) = blen d /\
  sub buf' (c - blen d) (blen d) = d /\
  forall p, 0 <= p -> (p < nodeHdrSize + i * itemSize \/ nodeHdrSize + (i + 1) * itemSize <= p) ->
       (p < c - blen d \/ c <= p) -> bnth buf' p = bnth buf p.
Proof.
  intros Hi Hfit Hc Hmax Hk. cbn zeta. unfold put_rec. cbn [fst snd].
  pose proof (blen_nonneg d). remember (nodeHdrSize + i * itemSize) as off eqn:Eo.
  assert (Ho : 0 <= off /\ off + 25 <= c - blen d) by hdr_lia.
  assert (Hl1 : blen (splice buf (c - blen d) d) = blen buf) by blen_tac.
  remember (splice buf (c - blen d) d) as b1 eqn:E1.
  assert (Hl2 : blen (put_key b1 off k) = blen buf) by (rewrite blen_put_key; lia).
  remember (put_key b1 off k) as b2 eqn:E2.
  split_and!.
  - blen_tac.
  - transitivity (key_at b2 off).
    + apply key_at_agree; [lia|blen_tac|lia|]. intros p Hp.
      rewrite !bnth_wr_out by blen_tac. done.
    + subst b2. apply key_at_put_key; [lia|lia|done].
  - rd_tac. apply Z.mod_small. cbn. hdr_lia.
  - rd_tac. apply Z.mod_small. cbn. hdr_lia.
  - transitivity (sub b1 (c - blen d) (blen d)).
    + apply sub_agree; [lia|lia|blen_tac|lia|]. intros p Hp. rewrite !bnth_wr_out by blen_tac.
      subst b2. apply bnth_put_key_out; lia.
    + subst b1. apply sub_splice_same; lia.
  - intros p Hp Hout Hout'. rewrite !bnth_wr_out by (try blen_tac; hdr_lia).
    subst b2. rewrite bnth_put_key_out by (try blen_tac; hdr_lia).
    subst b1. apply bnth_splice_out; lia.
Qed.

Lemma pack_step buf c i k d recs :
  0 <= i -> nodeHdrSize + (i + 1) * itemSize <= c - blen d -> c <= blen buf ->
  pack buf c i ((k, d) :: recs) = pack (put_rec buf c i (k, d)) (c - blen d) (i + 1) recs.
Proof.
  intros. pose proof (blen_nonneg d). cbn [pack].
  rewrite copy_at_Ok by hdr_lia. cbn [mbind outcome_bind].
  rewrite putKey_Ok by (rewrite ?blen_splice; hdr_lia). cbn [mbind outcome_bind].
  rewrite put_le_Ok by (rewrite ?blen_put_key, ?blen_splice; rewrite ?blen_splice; hdr_lia).
  cbn [mbind outcome_bind].
  rewrite put_le_Ok; [done|hdr_lia|].
  rewrite blen_wr; rewrite ?blen_put_key, ?blen_splice; rewrite ?blen_splice; hdr_lia.
Qed.

(** [pack] lays the records out as [packed] and touches nothing else. *)
Lemma pack_spec recs buf c i :
  0 <= i -> nodeHdrSize + (i + nrecs recs) * itemSize <= c - recs_size recs ->
  c <= blen buf -> blen buf <= maxNodeSize -> Forall (fun r => key_ok r.1) recs ->
  exists buf', pack buf c i recs = Ok buf' /\ blen buf' = blen buf /\ packed buf' c i recs /\
    forall p, 0 <= p ->
      (p < nodeHdrSize + i * itemSize \/ nodeHdrSize + (i + nrecs recs) * itemSize <= p) ->
      (p < c - recs_size recs \/ c <= p) -> bnth buf' p = bnth buf p.
Proof.
  revert buf c i. induction recs as [|[k d] recs IH]; intros buf c i Hi Hfit Hc Hmax Hk.
  - exists buf. cbn. split_and!; done.
  - rewrite nrecs_cons, recs_size_cons in *. apply Forall_cons in Hk as [Hk Hks]. cbn in Hk.
    pose proof (nrecs_nonneg recs). pose proof (recs_size_nonneg recs). pose proof (blen_nonneg d).
    rewrite pack_step by hdr_lia.
    destruct (put_rec_spec buf c i k d) as (L1&K1&O1&S1&D1&F1); [done|hdr_lia|done..|].
    destruct (IH (put_rec buf c i (k, d)) (c - blen d) (i + 1)) as (buf'&E&L&P&F);
      [lia|hdr_lia|lia|lia|done|].
    exists buf'. split_and!; [done|lia| |].
    + cbn [packed]. split_and!; [..|done].
      * rewrite <- K1. apply key_at_agree; [hdr_lia..|]. intros p Hp. apply F; hdr_lia.
      * rewrite <- O1. apply rd_agree; [hdr_lia..|]. intros p Hp. apply F; hdr_lia.
      * rewrite <- S1. apply rd_agree; [hdr_lia..|]. intros p Hp. apply F; hdr_lia.
      * transitivity (sub (put_rec buf c i (k, d)) (c - blen d) (blen d)); [|done].
        apply sub_agree; [hdr_lia..|]. intros p Hp. apply F; hdr_lia.
    + intros p Hp Ho Ho'. rewrite F by hdr_lia. apply F1; hdr_lia.
Qed.

(** ** Reading a packed leaf *)
Lemma packed_lookup buf c i recs (j : nat) k d :
  packed buf c i recs -> recs !! j = Some (k, d) ->
  let off := nodeHdrSize + (i + Z.of_nat j) * itemSize in
  let cj := c - recs_size (take (S j) recs) in
  key_at buf off = k /\ rd 4 buf (off + 17) = cj - nodeHdrSize /\
  rd 4 buf (off + 21) = blen d /\ sub buf cj (blen d) = d.
Proof.
  revert c i j. induction recs as [|[k' d'] recs IH]; intros c i j Hp Hj; [done|].
  cbn [packed] in Hp. destruct Hp as (H1&H2&H3&H4&H5). destruct j as [|j].
  - injection Hj as -> ->. cbn zeta. cbn [take]. rewrite recs_size_cons.
    change (recs_size (take 0 recs)) with 0. rewrite !Z.add_0_r. done.
  - specialize (IH _ _ _ H5 Hj). cbn zeta in *. rewrite firstn_cons, recs_size_cons.
    replace (i + Z.of_nat (S j)) with (i + 1 + Z.of_nat j) by lia.
    replace (c - (blen d' + recs_size (take (S j) recs)))
      with (c - blen d' - recs_size (take (S j) recs)) by lia. done.
Qed.

Lemma packed_keys_ok buf c i recs : packed buf c i recs -> Forall (fun r => key_ok r.1) recs.
Proof.
  revert c i. induction recs as [|[k d] recs IH]; intros c i Hp; [constructor|].
  destruct Hp as (<-&_&_&_&H). constructor; [apply key_at_ok|by eapply IH].
Qed.

Lemma snapshot_packed buf c i recs :
  0 <= i -> nodeHdrSize + (i + nrecs recs) * itemSize <= c - recs_size recs -> c <= blen buf ->
  packed buf c i recs -> snapshot (length recs) buf i = Ok recs.
Proof.
  revert c i. induction recs as [|[k d] recs IH]; intros c i Hi Hfit Hc Hp; [done|].
  rewrite nrecs_cons, recs_size_cons in *. cbn [packed] in Hp. destruct Hp as (H1&H2&H3&H4&H5).
  pose proof (nrecs_nonneg recs). pose proof (recs_size_nonneg recs). pose proof (blen_nonneg d).
  cbn [length snapshot]. rewrite readKey_Ok by hdr_lia. cbn [mbind outcome_bind].
  rewrite get_le_Ok by hdr_lia. cbn [mbind outcome_bind].
  rewrite get_le_Ok by hdr_lia. cbn [mbind outcome_bind]. rewrite H1, H2, H3.
  rewrite slice_Ok by hdr_lia. cbn [mbind outcome_bind].
  rewrite (IH (c - blen d)) by (try done; hdr_lia). cbn [mbind outcome_bind].
  do 3 f_equal.
  replace (nodeHdrSize + (c - blen d - nodeHdrSize)) with (c - blen d) by lia.
  replace (c - blen d + blen d - (c - blen d)) with (blen d) by lia. done.
Qed.

Lemma data_area_end_packed buf c i recs :
  0 <= i -> nodeHdrSize + (i + nrecs recs) * itemSize <= c - recs_size recs -> c <= blen buf ->
  packed buf c i recs -> data_area_end (length recs) buf i c = Ok (c - recs_size recs).
Proof.
  revert c i. induction recs as [|[k d] recs IH]; intros c i Hi Hfit Hc Hp.
  - cbn. f_equal. unfold recs_size. cbn. lia.
  - rewrite nrecs_cons, recs_size_cons in *. cbn [packed] in Hp. destruct Hp as (H1&H2&H3&H4&H5).
    pose proof (nrecs_nonneg recs). pose proof (recs_size_nonneg recs). pose proof (blen_nonneg d).
    cbn [length data_area_end].
    rewrite get_le_Ok by hdr_lia. cbn [mbind outcome_bind].
    rewrite get_le_Ok by hdr_lia. cbn [mbind outcome_bind]. rewrite H2.
    replace (if _ <? _ then _ else _) with (c - blen d) by (case_if; lia).
    rewrite IH by (try done; hdr_lia). f_equal. lia.
Qed.

Lemma data_used_packed buf c i recs :
  0 <= i -> nodeHdrSize + (i + nrecs recs) * itemSize <= blen buf ->
  packed buf c i recs -> data_used (length recs) buf i = Ok (recs_size recs).
Proof.
  revert c i. induction recs as [|[k d] recs IH]; intros c i Hi Hfit Hp; [done|].
  rewrite nrecs_cons in Hfit. cbn [packed] in Hp. destruct Hp as (H1&H2&H3&H4&H5).
  pose proof (nrecs_nonneg recs). cbn [length data_used].
  rewrite get_le_Ok by hdr_lia. cbn [mbind outcome_bind].
  rewrite get_le_Ok by hdr_lia. cbn [mbind outcome_bind].
  rewrite (IH (c - blen d)) by (try done; hdr_lia). cbn [mbind outcome_bind]. by rewrite H3.
Qed.

(** Position of the first record with a key greater than [k]. *)
Fixpoint first_gt (k : key) (recs : list rec) : nat :=
  match recs with
  | [] => 0
  | r :: recs => if 0 <? compareKey r.1 k then 0 else S (first_gt k recs)
  end.

Lemma first_gt_le k recs : (first_gt k recs <= length recs)%nat.
Proof. induction recs; cbn; [lia|]. case_if; lia. Qed.

Lemma insert_idx_packed buf c i k recs :
  0 <= i -> nodeHdrSize + (i + nrecs recs) * itemSize <= blen buf ->
  packed buf c i recs -> insert_idx (length recs) buf k i = Ok (i + Z.of_nat (first_gt k recs)).
Proof.
  revert c i. induction recs as [|[k' d] recs IH]; intros c i Hi Hfit Hp.
  - cbn. f_equal. lia.
  - rewrite nrecs_cons in Hfit. cbn [packed] in Hp. destruct Hp as (H1&H2&H3&H4&H5).
    pose proof (nrecs_nonneg recs). cbn [length insert_idx].
    rewrite readKey_Ok by hdr_lia. cbn [mbind outcome_bind]. rewrite H1. cbn [first_gt fst].
    case_if; [f_equal; lia|]. rewrite (IH (c - blen d)) by (try done; hdr_lia). f_equal. lia.
Qed.

(** Index of the first record with exactly this key. *)
Fixpoint find_key (k : key) (recs : list rec) : option nat :=
  match recs with
  | [] => None
  | r :: recs => if key_eqb r.1 (objID k) (typ k) (offset k) then Some 0%nat
                 else S <$> find_key k recs
  end.

Lemma findItemIdx_loop_packed buf c i k recs :
  0 <= i -> nodeHdrSize + (i + nrecs recs) * itemSize <= blen buf ->
  packed buf c i recs ->
  findItemIdx_loop (length recs) buf (objID k) (typ k) (offset k) i =
  Ok (match find_key k recs with Some j => i + Z.of_nat j | None => -1 end).
Proof.
  revert c i. induction recs as [|[k' d] recs IH]; intros c i Hi Hfit Hp; [done|].
  rewrite nrecs_cons in Hfit. cbn [packed] in Hp. destruct Hp as (H1&H2&H3&H4&H5).
  pose proof (nrecs_nonneg recs). cbn [length findItemIdx_loop].
  rewrite readKey_Ok by hdr_lia. cbn [mbind outcome_bind]. rewrite H1.
  cbn [find_key fst]. fold (key_eqb k' (objID k) (typ k) (offset k)).
  case_if; [f_equal; lia|]. rewrite (IH (c - blen d)) by (try done; hdr_lia).
  destruct (find_key k recs); cbn; [f_equal; lia|done].
Qed.

Lemma find_key_Some k recs j :
  find_key k recs = Some j -> exists d, recs !! j = Some (k, d).
Proof.
  revert j. induction recs as [|[k' d] recs IH]; intros j H; [done|]. cbn [find_key fst] in H.
  case_if_in H.
  - injection H as <-. exists d. apply key_eqb_eq in Heqb as ->. done.
  - destruct (find_key k recs) as [j'|]; [|done]. injection H as <-. cbn. by apply IH.
Qed.

Lemma find_key_None k recs : find_key k recs = None <-> ~ In k (map fst recs).
Proof.
  induction recs as [|[k' d] recs IH]; cbn [find_key map fst In]; [tauto|].
  destruct (key_eqb k' _ _ _) eqn:E.
  - apply key_eqb_eq in E as ->. split; [done|tauto].
  - split.
    + intros H [->|Hin]; [|apply IH; [|done]; by destruct (find_key k recs)].
      by rewrite (proj2 (key_eqb_eq k k) eq_refl) in E.
    + intros H. rewrite (proj2 IH); [done|tauto].
Qed.

Lemma leaf_repr_bounds buf recs :
  leaf_repr buf recs -> nodeHdrSize <= blen buf /\ nrecs recs < 2 ^ 32.
Proof.
  intros (_&_&H&H'&_). pose proof (nrecs_nonneg recs). pose proof (recs_size_nonneg recs). hdr_lia.
Qed.

Lemma leaf_repr_header buf recs :
  leaf_repr buf recs -> exists la, parseNodeHeader buf = Ok (NodeHeader la (nrecs recs) 0).
Proof.
  intros H. pose proof (leaf_repr_bounds _ _ H) as [Hb _]. destruct H as (Hn&Hl&_).
  unfold parseNodeHeader.
  repeat (rewrite get_le_Ok by hdr_lia; cbn [mbind outcome_bind]).
  rewrite Hn, Hl. by eexists.
Qed.

(** Two buffers of the same length that agree outside the item area carry the
    same header fields; used to transport [leaf_repr]. *)
Definition same_header (b b' : bytes) : Prop :=
  blen b' = blen b /\ agree b b' 0 0x60 /\ bnth b' 0x64 = bnth b 0x64.

Lemma nrecs_to_nat recs : Z.to_nat (nrecs recs) = length recs.
Proof. unfold nrecs. lia. Qed.

Lemma leaf_repr_intro buf buf0 recs :
  blen buf = blen buf0 -> bnth buf 0x64 = bnth buf0 0x64 -> rd 1 buf0 0x64 = 0 ->
  nodeHdrSize <= blen buf ->
  rd 4 buf 0x60 = nrecs recs -> leaf_need recs <= blen buf -> blen buf <= maxNodeSize ->
  packed buf (blen buf) 0 recs -> leaf_repr buf recs.
Proof.
  intros Hl Hlev Hlev0 Hh Hn Hneed Hmax Hp. split_and!; try done.
  rewrite <- Hlev0. apply rd_agree; [hdr_lia..|]. intros p Hp'.
  replace p with 0 by (cbn in *; lia). by rewrite !Z.add_0_r.
Qed.

Lemma leaf_need_insert_at (i : nat) k d recs :
  leaf_need (insert_at i (k, d) recs) = leaf_need recs + itemSize + blen d.
Proof.
  unfold leaf_need, insert_at. rewrite nrecs_app, nrecs_cons, recs_size_app, recs_size_cons.
  pose proof (nrecs_app (take i recs) (drop i recs)) as E1.
  pose proof (recs_size_app (take i recs) (drop i recs)) as E2.
  rewrite take_drop in E1, E2. lia.
Qed.

Lemma Forall_insert_at {A} (P : A -> Prop) i x l :
  P x -> Forall P l -> Forall P (insert_at i x l).
Proof. intros. rewrite insert_at_perm. by constructor. Qed.

(** Writing the item count leaves the packed items alone. *)
Lemma packed_wr_count buf recs n :
  leaf_need recs <= blen buf -> blen buf <= maxNodeSize -> 0 <= n < 2 ^ 32 ->
  packed buf (blen buf) 0 recs ->
  packed (wr 4 buf 0x60 n) (blen buf) 0 recs /\ rd 4 (wr 4 buf 0x60 n) 0x60 = n /\
  bnth (wr 4 buf 0x60 n) 0x64 = bnth buf 0x64 /\ agree buf (wr 4 buf 0x60 n) 0 0x60.
Proof.
  intros Hn Hm Hr Hp. unfold leaf_need in Hn. pose proof (nrecs_nonneg recs).
  pose proof (recs_size_nonneg recs).
  assert (blen buf >= 0x65) by hdr_lia. split_and!.
  - revert Hp. apply packed_agree; [lia|blen_tac|lia|hdr_lia| |];
      intros p Hp; by rewrite bnth_wr_out by hdr_lia.
  - rewrite rd_wr_same by lia. apply Z.mod_small. cbn. lia.
  - apply bnth_wr_out; lia.
  - intros p Hq. by rewrite bnth_wr_out by lia.
Qed.

(** The common end of the leaf operations: [pack] the new item list from the
    top of the node, then store its length. *)
Lemma repack_spec buf0 buf recs :
  blen buf = blen buf0 -> leaf_need recs <= blen buf -> blen buf <= maxNodeSize ->
  rd 1 buf0 0x64 = 0 -> bnth buf 0x64 = bnth buf0 0x64 -> agree buf buf0 0 0x60 ->
  Forall (fun r => key_ok r.1) recs ->
  exists b1, pack buf (blen buf) 0 recs = Ok b1 /\ blen b1 = blen buf /\
    rd 4 b1 0x60 = rd 4 buf 0x60 /\ packed b1 (blen buf) 0 recs /\ same_header buf0 b1 /\
    leaf_repr (wr 4 b1 0x60 (nrecs recs)) recs /\ same_header buf0 (wr 4 b1 0x60 (nrecs recs)).
Proof.
  intros Hl Hn Hm Hz Hlev Hag Hk. unfold leaf_need in Hn.
  pose proof (nrecs_nonneg recs). pose proof (recs_size_nonneg recs).
  destruct (pack_spec recs buf (blen buf) 0) as (b1&E&L&P&F); [hdr_lia..|done|].
  assert (F' : forall p, 0 <= p < nodeHdrSize -> bnth b1 p = bnth buf p) by
    (intros p Hp; apply F; hdr_lia).
  assert (same_header buf0 b1).
  { split_and!; [lia| |rewrite F' by hdr_lia; done].
    intros p Hp. rewrite F' by hdr_lia. symmetry. by apply Hag. }
  destruct (packed_wr_count b1 recs (nrecs recs)) as (P1&R1&B1&A1);
    [unfold leaf_need; lia|lia|hdr_lia|by rewrite L|].
  assert (blen (wr 4 b1 0x60 (nrecs recs)) = blen buf0) by (rewrite blen_wr; hdr_lia).
  assert (leaf_repr (wr 4 b1 0x60 (nrecs recs)) recs).
  { eapply (leaf_repr_intro _ buf0); try done; try hdr_lia.
    - rewrite B1, F' by hdr_lia. done.
    - unfold leaf_need. lia.
    - rewrite blen_wr by hdr_lia. rewrite L in P1 |- *. done. }
  assert (same_header buf0 (wr 4 b1 0x60 (nrecs recs))).
  { split_and!; [done| |rewrite B1, F' by hdr_lia; done].
    intros p Hp. rewrite <- A1 by done. rewrite F' by hdr_lia. symmetry. by apply Hag. }
  exists b1. do 2 (split; [done|]). split; [|done].
  apply rd_agree; [hdr_lia..|]. intros p Hp. apply F'. hdr_lia.
Qed.

Lemma leafInsertItem_spec buf recs k data :
  leaf_repr buf recs -> key_ok k ->
  if leaf_need recs + itemSize + blen data <=? blen buf
  then exists buf', leafInsertItem buf k data = Ok buf' /\ same_header buf buf' /\
         leaf_repr buf' (insert_at (first_gt k recs) (k, data) recs)
  else leafInsertItem buf k data = Err ErrLeafFull.
Proof.
  intros Hr Hk. destruct (leaf_repr_header _ _ Hr) as [la Hh].
  destruct (leaf_repr_bounds _ _ Hr) as [Hb _]. destruct Hr as (Hn&Hl&Hf&Hm&Hp).
  pose proof (first_gt_le k recs). pose proof (recs_size_nonneg recs). pose proof (nrecs_nonneg recs).
  unfold leafInsertItem. rewrite Hh. cbn [mbind outcome_bind hdr_nItems].
  rewrite nrecs_to_nat. rewrite data_area_end_packed by (try done; hdr_lia).
  cbn [mbind outcome_bind]. erewrite insert_idx_packed by (try done; hdr_lia).
  cbn [mbind outcome_bind]. unfold leaf_need.
  destruct (Z.leb_spec (nodeHdrSize + nrecs recs * itemSize + recs_size recs + itemSize + blen data)
    (blen buf)) as [Hfit|Hfull].
  - case_if; [lia|]. rewrite (snapshot_packed _ (blen buf)) by (try done; hdr_lia). cbn [mbind outcome_bind].
    rewrite Z.add_0_l, Nat2Z.id.
    destruct (repack_spec buf buf (insert_at (first_gt k recs) (k, data) recs))
      as (b1&E&L&_&_&_&R&S); try done.
    + rewrite leaf_need_insert_at. unfold leaf_need. lia.
    + apply Forall_insert_at; [done|by eapply packed_keys_ok].
    + rewrite E. cbn [mbind outcome_bind]. rewrite put_le_Ok by hdr_lia.
      replace (nrecs recs + 1) with (nrecs (insert_at (first_gt k recs) (k, data) recs)); [by eexists|].
      unfold nrecs. rewrite length_insert_at by done. lia.
  - case_if; [done|lia].
Qed.

(** ** Replacing an item's data *)
Lemma packed_app buf c i a b :
  packed buf c i (a ++ b) <->
  packed buf c i a /\ packed buf (c - recs_size a) (i + nrecs a) b.
Proof.
  revert c i. induction a as [|[k d] a IH]; intros c i; cbn [app].
  - change (recs_size []) with 0. change (nrecs []) with 0.
    rewrite Z.sub_0_r, Z.add_0_r. cbn. tauto.
  - cbn [packed]. rewrite IH, recs_size_cons, nrecs_cons.
    replace (c - blen d - recs_size a) with (c - (blen d + recs_size a)) by lia.
    replace (i + 1 + nrecs a) with (i + (1 + nrecs a)) by lia. tauto.
Qed.

Lemma leaf_need_app a b : leaf_need (a ++ b) = leaf_need a + leaf_need b - nodeHdrSize.
Proof. unfold leaf_need. rewrite nrecs_app, recs_size_app. lia. Qed.

Lemma leaf_need_cons k d l : leaf_need ((k, d) :: l) = itemSize + blen d + leaf_need l.
Proof. unfold leaf_need. rewrite nrecs_cons, recs_size_cons. lia. Qed.

Lemma leaf_need_pos l : nodeHdrSize <= leaf_need l.
Proof. unfold leaf_need. pose proof (nrecs_nonneg l). pose proof (recs_size_nonneg l). hdr_lia. Qed.

Lemma leafUpdateItemSameSize_spec buf pre k d post d' :
  leaf_repr buf (pre ++ (k, d) :: post) ->
  if blen d =? blen d'
  then exists buf', leafUpdateItemSameSize buf (nrecs pre) d' = Ok buf' /\
         same_header buf buf' /\ leaf_repr buf' (pre ++ (k, d') :: post)
  else leafUpdateItemSameSize buf (nrecs pre) d' = Err ErrOther.
Proof.
  intros Hr. pose proof (leaf_repr_bounds _ _ Hr) as [Hb _]. destruct Hr as (Hn&Hl&Hf&Hm&Hp).
  fold (leaf_need (pre ++ (k, d) :: post)) in Hf. rewrite leaf_need_app, leaf_need_cons in Hf.
  apply packed_app in Hp as [Hpre Hp]. cbn [packed] in Hp. destruct Hp as (H1&H2&H3&H4&H5).
  pose proof (nrecs_nonneg pre). pose proof (recs_size_nonneg pre). pose proof (blen_nonneg d).
  pose proof (nrecs_nonneg post). pose proof (recs_size_nonneg post). pose proof (blen_nonneg d').
  rewrite Z.add_0_l in *. unfold leaf_need in Hf.
  unfold leafUpdateItemSameSize. do 2 (rewrite get_le_Ok by hdr_lia; cbn [mbind outcome_bind]).
  rewrite H2, H3. destruct (Z.eqb_spec (blen d) (blen d')) as [E|E]; cbn [negb]; [|done].
  set (cur := blen buf - recs_size pre - blen d) in *.
  replace (nodeHdrSize + (cur - nodeHdrSize)) with cur by lia.
  rewrite copy_at_Ok by hdr_lia. eexists. split; [done|].
  assert (Hlen : blen (splice buf cur d') = blen buf) by (apply blen_splice; hdr_lia).
  assert (Hout : forall p, 0 <= p -> (p < cur \/ cur + blen d' <= p) ->
     bnth buf p = bnth (splice buf cur d') p).
  { intros p ??. symmetry. apply bnth_splice_out; hdr_lia. }
  split.
  - split_and!; [done| |symmetry; apply Hout; hdr_lia]. intros p Hp. apply Hout; hdr_lia.
  - apply (leaf_repr_intro _ buf); try done; try lia.
    + symmetry. apply Hout; hdr_lia.
    + rewrite rd_splice_out by hdr_lia. rewrite Hn, !nrecs_app, !nrecs_cons. done.
    + rewrite leaf_need_app, leaf_need_cons. unfold leaf_need. lia.
    + rewrite Hlen. apply packed_app. split.
      * revert Hpre. apply packed_agree; [lia|lia|lia|hdr_lia| |]; intros p Hp; apply Hout; hdr_lia.
      * cbn [packed]. rewrite Z.add_0_l. rewrite <- E. fold cur. split_and!.
        -- rewrite <- H1. symmetry. apply key_at_agree; [hdr_lia..|]. intros p Hp. apply Hout; hdr_lia.
        -- rewrite <- H2. apply rd_splice_out; hdr_lia.
        -- rewrite <- H3. apply rd_splice_out; hdr_lia.
        -- rewrite E. apply sub_splice_same; hdr_lia.
        -- revert H5. apply packed_agree; [lia|lia|lia|hdr_lia| |]; intros p Hp; apply Hout; hdr_lia.
Qed.

Lemma leafReplaceItemData_spec buf pre k d post d' :
  leaf_repr buf (pre ++ (k, d) :: post) ->
  if leaf_need (pre ++ (k, d') :: post) <=? blen buf
  then exists buf', leafReplaceItemData buf (nrecs pre) d' = Ok buf' /\
         same_header buf buf' /\ leaf_repr buf' (pre ++ (k, d') :: post)
  else leafReplaceItemData buf (nrecs pre) d' = Err ErrOther.
Proof.
  intros Hr0. pose proof Hr0 as Hr. destruct (leaf_repr_header _ _ Hr) as [la Hh].
  pose proof (leaf_repr_bounds _ _ Hr) as [Hb _]. destruct Hr as (Hn&Hl&Hf&Hm&Hp).
  fold (leaf_need (pre ++ (k, d) :: post)) in Hf.
  pose proof (leaf_need_pos post) as Hpost. pose proof (recs_size_nonneg pre). pose proof (nrecs_nonneg pre).
  pose proof (blen_nonneg d). pose proof (blen_nonneg d').
  assert (Hneed : forall x, leaf_need (pre ++ (k, x) :: post) = nodeHdrSize + nrecs (pre ++ (k, d) :: post)
     * itemSize + recs_size (pre ++ (k, d) :: post) - blen d + blen x).
  { intros x. unfold leaf_need. rewrite !nrecs_app, !nrecs_cons, !recs_size_app, !recs_size_cons. lia. }
  pose proof (packed_lookup _ _ _ _ (length pre) k d Hp) as (_&_&Hsz&_).
  { rewrite lookup_app_r by lia. by rewrite Nat.sub_diag. }
  rewrite Z.add_0_l in Hsz. change (Z.of_nat (length pre)) with (nrecs pre) in Hsz.
  assert (nodeHdrSize + nrecs pre * itemSize + 25 <= blen buf).
  { unfold leaf_need in *. rewrite nrecs_app, nrecs_cons, recs_size_app, recs_size_cons in Hf.
    pose proof (nrecs_nonneg post). pose proof (recs_size_nonneg post). hdr_lia. }
  unfold leafReplaceItemData. rewrite Hh. cbn [mbind outcome_bind hdr_nItems].
  rewrite get_le_Ok by hdr_lia. cbn [mbind outcome_bind]. rewrite Hsz, !nrecs_to_nat.
  destruct (Z.eqb_spec (blen d' - blen d) 0) as [E|E].
  - pose proof (leafUpdateItemSameSize_spec buf pre k d post d' Hr0) as HU.
    rewrite (proj2 (Z.eqb_eq _ _)) in HU by lia. rewrite (proj2 (Z.leb_le _ _)); [done|].
    rewrite Hneed in Hf |- *. lia.
  - rewrite (data_used_packed _ (blen buf) _ _) by (try done; unfold leaf_need in *;
      pose proof (recs_size_nonneg (pre ++ (k, d) :: post)); hdr_lia).
    cbn [mbind outcome_bind]. rewrite (Hneed d').
    destruct (Z.leb_spec (nodeHdrSize + nrecs (pre ++ (k, d) :: post) * itemSize +
      recs_size (pre ++ (k, d) :: post) - blen d + blen d') (blen buf)) as [Hfit|Hfit]; [|case_if; [done|lia]].
    case_if; [lia|]. rewrite (snapshot_packed _ (blen buf)) by (try done; unfold leaf_need in *; hdr_lia).
    cbn [mbind outcome_bind]. rewrite lookup_app_r, Nat.sub_diag by done. cbn [lookup list_lookup].
    rewrite insert_app_r_alt, Nat.sub_diag by done. cbn [insert list_insert].
    set (n := nrecs (pre ++ (k, d) :: post)) in *.
    rewrite put_le_Ok by hdr_lia. cbn [mbind outcome_bind].
    rewrite clear_range_Ok by (rewrite ?blen_wr by hdr_lia; hdr_lia). cbn [mbind outcome_bind].
    rewrite blen_wr by hdr_lia.
    set (b1 := splice (wr 4 buf 96 0) nodeHdrSize (zeros (blen buf - nodeHdrSize))).
    assert (L1 : blen b1 = blen buf) by (unfold b1; rewrite blen_splice; rewrite ?blen_zeros, ?blen_wr; hdr_lia).
    rewrite put_le_Ok by hdr_lia. cbn [mbind outcome_bind].
    assert (Hh1 : forall p, 0 <= p < 0x60 \/ p = 0x64 -> bnth (wr 4 b1 96 n) p = bnth buf p).
    { intros p Hq. rewrite bnth_wr_out by hdr_lia. unfold b1.
      rewrite bnth_splice_out by (rewrite ?blen_zeros, ?blen_wr; hdr_lia).
      apply bnth_wr_out; hdr_lia. }
    destruct (repack_spec buf (wr 4 b1 96 n) (pre ++ (k, d') :: post)) as (b2&E2&L2&R2&P2&S2&_&_); try done.
    + rewrite blen_wr; hdr_lia.
    + rewrite Hneed, blen_wr by hdr_lia. lia.
    + rewrite blen_wr; hdr_lia.
    + apply Hh1. lia.
    + intros p Hq. apply Hh1. lia.
    + apply packed_keys_ok in Hp. rewrite Forall_app, Forall_cons in Hp |- *. done.
    + rewrite blen_wr in E2, L2 by hdr_lia. rewrite L1 in E2. rewrite E2. eexists. split; [done|]. split; [done|].
      apply (leaf_repr_intro _ buf); try done; try hdr_lia.
      * apply S2.
      * rewrite R2, rd_wr_same by hdr_lia. destruct (leaf_repr_bounds _ _ Hr0). fold n in H5.
        rewrite Z.mod_small by (unfold n in *; pose proof (nrecs_nonneg (pre ++ (k, d) :: post)); cbn; lia).
        unfold n. rewrite !nrecs_app, !nrecs_cons. done.
      * rewrite Hneed. lia.
      * rewrite blen_wr in P2 by hdr_lia. rewrite L1 in P2. rewrite L2, L1. done.
Qed.

(** ** Deleting an item

    [packed] splits into the descriptors and the data they point at: the
    deletion moves the data first and the descriptors afterwards. *)
Fixpoint descs (buf : bytes) (cursor i : Z) (recs : list rec) : Prop :=
  match recs with
  | [] => True
  | (k, d) :: recs =>
      let off := nodeHdrSize + i * itemSize in
      let cursor := cursor - blen d in
      key_at buf off = k /\ rd 4 buf (off + 17) = cursor - nodeHdrSize /\
      rd 4 buf (off + 21) = blen d /\ descs buf cursor (i + 1) recs
  end.

Fixpoint datas (buf : bytes) (cursor : Z) (recs : list rec) : Prop :=
  match recs with
  | [] => True
  | (_, d) :: recs =>
      sub buf (cursor - blen d) (blen d) = d /\ datas buf (cursor - blen d) recs
  end.

Lemma packed_split buf c i recs : packed buf c i recs <-> descs buf c i recs /\ datas buf c recs.
Proof.
  revert c i. induction recs as [|[k d] recs IH]; intros c i; cbn [packed descs datas]; [tauto|].
  rewrite IH. tauto.
Qed.

(** The same descriptor bytes [delta] slots lower. *)
Lemma descs_agree b b' c i i' recs :
  0 <= i -> 0 <= i' -> nodeHdrSize + (i + nrecs recs) * itemSize <= blen b ->
  nodeHdrSize + (i' + nrecs recs) * itemSize <= blen b' ->
  (forall p, 0 <= p < nrecs recs * itemSize ->
     bnth b (nodeHdrSize + i * itemSize + p) = bnth b' (nodeHdrSize + i' * itemSize + p)) ->
  descs b c i recs -> descs b' c i' recs.
Proof.
  revert c i i'. induction recs as [|[k d] recs IH]; intros c i i' Hi Hi' Hf Hf' Ha; [done|].
  rewrite nrecs_cons in *. pose proof (nrecs_nonneg recs). cbn [descs]. intros (H1&H2&H3&H4).
  assert (Hr : forall n o, 0 <= o -> o + Z.of_nat n <= 25 ->
    rd n b' (nodeHdrSize + i' * itemSize + o) = rd n b (nodeHdrSize + i * itemSize + o)).
  { intros n o Ho Hn. symmetry. apply rd_agree; [hdr_lia..|]. intros p Hp.
    rewrite <- !Z.add_assoc, !(Z.add_assoc nodeHdrSize). apply Ha. hdr_lia. }
  split_and!.
  - rewrite <- H1. unfold key_at. pose proof (Hr 8%nat 0). rewrite !Z.add_0_r in H0.
    rewrite H0, !Hr by lia. done.
  - rewrite <- H2. apply Hr; lia.
  - rewrite <- H3. apply Hr; lia.
  - eapply IH; [| | | | |exact H4]; try hdr_lia. intros p Hp.
    replace (nodeHdrSize + (i + 1) * itemSize + p) with (nodeHdrSize + i * itemSize + (itemSize + p)) by lia.
    replace (nodeHdrSize + (i' + 1) * itemSize + p) with (nodeHdrSize + i' * itemSize + (itemSize + p)) by lia.
    apply Ha. hdr_lia.
Qed.

(** The same data bytes [delta] higher. *)
Lemma datas_agree b b' c c' recs :
  c <= blen b -> c' <= blen b' -> 0 <= c - recs_size recs -> 0 <= c' - recs_size recs ->
  (forall p, 0 < p <= recs_size recs -> bnth b (c - p) = bnth b' (c' - p)) ->
  datas b c recs -> datas b' c' recs.
Proof.
  revert c c'. induction recs as [|[k d] recs IH]; intros c c' Hc Hc' Hs Hs' Ha; [done|].
  rewrite recs_size_cons in *. pose proof (recs_size_nonneg recs). pose proof (blen_nonneg d).
  cbn [datas]. intros [H1 H2]. split.
  - transitivity (sub b (c - blen d) (blen d)); [|done]. symmetry.
    apply sub_ext; try lia. intros p Hp.
    replace (c - blen d + p) with (c - (blen d - p)) by lia.
    replace (c' - blen d + p) with (c' - (blen d - p)) by lia. apply Ha. lia.
  - eapply IH; [| | | | |exact H2]; try lia. intros p Hp.
    replace (c - blen d - p) with (c - (blen d + p)) by lia.
    replace (c' - blen d - p) with (c' - (blen d + p)) by lia. apply Ha. lia.
Qed.

(** The lowest data offset is the last item's, whichever item is left out. *)
Lemma min_data_off_packed buf idx delOff c i recs acc :
  0 <= i -> nodeHdrSize + (i + nrecs recs) * itemSize <= blen buf ->
  descs buf c i recs -> rd 4 buf (nodeHdrSize + idx * itemSize + 17) = delOff ->
  acc <= delOff -> c - recs_size recs - nodeHdrSize <= acc <= c - nodeHdrSize ->
  min_data_off (length recs) buf idx i acc = Ok (c - recs_size recs - nodeHdrSize).
Proof.
  revert c i acc. induction recs as [|[k d] recs IH]; intros c i acc Hi Hf Hd Hdel Ha Hb.
  - cbn. f_equal. change (recs_size []) with 0 in *. lia.
  - rewrite nrecs_cons, recs_size_cons in *. cbn [descs] in Hd. destruct Hd as (H1&H2&H3&H4).
    pose proof (nrecs_nonneg recs). pose proof (recs_size_nonneg recs). pose proof (blen_nonneg d).
    cbn [length min_data_off]. destruct (Z.eqb_spec i idx) as [->|Hne].
    + rewrite (IH (c - blen d)); try done; try hdr_lia. f_equal. lia.
    + rewrite get_le_Ok by hdr_lia. cbn [mbind outcome_bind]. rewrite H2.
      rewrite (IH (c - blen d)); try done; try hdr_lia; [f_equal; lia|case_if; lia|case_if; lia].
Qed.

(** Items above the deleted one keep their offsets ... *)
Lemma shift_offsets_skip buf idx delOff delSize c i recs m :
  0 <= i -> nodeHdrSize + (i + nrecs recs) * itemSize <= blen buf ->
  descs buf c i recs -> delOff <= c - recs_size recs - nodeHdrSize ->
  shift_offsets (length recs + m) buf idx i delOff delSize =
  shift_offsets m buf idx (i + nrecs recs) delOff delSize.
Proof.
  revert c i. induction recs as [|[k d] recs IH]; intros c i Hi Hf Hd Hdel.
  - cbn [length]. change (nrecs []) with 0. by rewrite Z.add_0_r.
  - rewrite nrecs_cons, recs_size_cons in *. cbn [descs] in Hd. destruct Hd as (H1&H2&H3&H4).
    pose proof (nrecs_nonneg recs). pose proof (recs_size_nonneg recs). pose proof (blen_nonneg d).
    cbn [length Nat.add shift_offsets].
    replace (i + (1 + nrecs recs)) with (i + 1 + nrecs recs) by lia.
    rewrite <- (IH (c - blen d)) by (try done; hdr_lia). case_if; [done|].
    rewrite get_le_Ok by hdr_lia. cbn [mbind outcome_bind]. rewrite H2. case_if; [lia|]. done.
Qed.

(** ... and those below move up by the size of the deleted data. *)
Lemma shift_offsets_below buf idx delOff delSize c i recs :
  0 <= i -> idx < i -> 0 <= delSize -> nodeHdrSize + (i + nrecs recs) * itemSize <= blen buf ->
  blen buf <= maxNodeSize -> nodeHdrSize <= c - recs_size recs -> c + delSize <= blen buf ->
  descs buf c i recs -> c - nodeHdrSize <= delOff -> Forall (fun r => r.2 <> []) recs ->
  exists buf', shift_offsets (length recs) buf idx i delOff delSize = Ok buf' /\
    blen buf' = blen buf /\ descs buf' (c + delSize) i recs /\
    forall p, 0 <= p ->
      (p < nodeHdrSize + i * itemSize \/ nodeHdrSize + (i + nrecs recs) * itemSize <= p) ->
      bnth buf' p = bnth buf p.
Proof.
  revert buf c i. induction recs as [|[k d] recs IH];
    intros buf c i Hi Hidx Hsz Hf Hm Hlo Hhi Hd Hdel Hne.
  - exists buf. done.
  - rewrite nrecs_cons, recs_size_cons in *. cbn [descs] in Hd. destruct Hd as (H1&H2&H3&H4).
    apply Forall_cons in Hne as [Hd Hne]. cbn in Hd.
    assert (0 < blen d) by (destruct d; [done|unfold blen; cbn; lia]).
    pose proof (nrecs_nonneg recs). pose proof (recs_size_nonneg recs).
    cbn [length shift_offsets]. case_if; [lia|].
    rewrite get_le_Ok by hdr_lia. cbn [mbind outcome_bind]. rewrite H2. case_if; [|lia].
    rewrite put_le_Ok by hdr_lia. cbn [mbind outcome_bind].
    set (b1 := wr 4 buf (nodeHdrSize + i * itemSize + 17) (c - blen d - nodeHdrSize + delSize)).
    assert (L1 : blen b1 = blen buf) by (apply blen_wr; hdr_lia).
    assert (F1 : forall p, 0 <= p -> (p < nodeHdrSize + i * itemSize + 17 \/
        nodeHdrSize + i * itemSize + 21 <= p) -> bnth b1 p = bnth buf p).
    { intros p ??. apply bnth_wr_out; hdr_lia. }
    destruct (IH b1 (c - blen d) (i + 1)) as (b2&E&L2&D2&F2); try done; try hdr_lia.
    { eapply (descs_agree buf); [| | | | |exact H4]; try hdr_lia.
      intros p Hp. symmetry. apply F1; hdr_lia. }
    exists b2. split_and!; [done|lia| |].
    + cbn [descs]. split_and!.
      * rewrite <- H1. symmetry. apply key_at_agree; [hdr_lia..|]. intros p Hp.
        rewrite F2, F1 by hdr_lia. done.
      * transitivity (rd 4 b1 (nodeHdrSize + i * itemSize + 17)).
        -- apply rd_agree; [hdr_lia..|]. intros p Hp. apply F2; hdr_lia.
        -- unfold b1. rewrite rd_wr_same by hdr_lia. rewrite Z.mod_small; hdr_lia.
      * rewrite <- H3. apply rd_agree; [hdr_lia..|]. intros p Hp. rewrite F2, F1 by hdr_lia. done.
      * replace (c + delSize - blen d) with (c - blen d + delSize) by lia. done.
    + intros p Hp Ho. rewrite F2 by hdr_lia. apply F1; hdr_lia.
Qed.

(** Closing the gap: the [len] bytes at [lo] move up by [sz], over the deleted
    data, and the vacated bytes are cleared. *)
Lemma close_gap buf lo len sz :
  0 <= lo -> 0 <= len -> 0 <= sz -> lo + len + sz <= blen buf ->
  exists b1,
    ((buf ← (if lo <? lo + len
             then src ← slice buf lo (lo + len);
                  _ ← slice buf (lo + sz) (lo + sz + (lo + len - lo));
                  copy_at buf (lo + sz) src
             else Ok buf);
      clear_range buf lo (lo + sz)) = Ok b1) /\ blen b1 = blen buf /\
    (forall p, 0 <= p < len -> bnth b1 (lo + sz + p) = bnth buf (lo + p)) /\
    (forall p, 0 <= p -> (p < lo \/ lo + sz + len <= p) -> bnth b1 p = bnth buf p).
Proof.
  intros Hlo Hlen Hsz Hf.
  assert (Hmv : exists b0, (if lo <? lo + len
             then src ← slice buf lo (lo + len);
                  _ ← slice buf (lo + sz) (lo + sz + (lo + len - lo));
                  copy_at buf (lo + sz) src
             else Ok buf) = Ok b0 /\ blen b0 = blen buf /\
      (forall p, 0 <= p < len -> bnth b0 (lo + sz + p) = bnth buf (lo + p)) /\
      (forall p, 0 <= p -> (p < lo + sz \/ lo + sz + len <= p) -> bnth b0 p = bnth buf p)).
  { case_if; [|exists buf; split_and!; [done|done|lia|done]].
    do 2 (rewrite slice_Ok by lia; cbn [mbind outcome_bind]).
    replace (lo + len - lo) with len by lia.
    assert (blen (sub buf lo len) = len) by (apply blen_sub; lia).
    rewrite copy_at_Ok by lia. eexists. split_and!; [done|blen_tac| |].
    - intros p Hp. rewrite bnth_splice_in by lia.
      replace (lo + sz + p - (lo + sz)) with p by lia. apply bnth_sub; lia.
    - intros p Hp Ho. apply bnth_splice_out; lia. }
  destruct Hmv as (b0&->&L0&M0&F0). cbn [mbind outcome_bind].
  rewrite clear_range_Ok by lia. replace (lo + sz - lo) with sz by lia.
  pose proof (blen_zeros sz Hsz). eexists. split_and!; [done|blen_tac| |].
  - intros p Hp. rewrite bnth_splice_out by lia. by apply M0.
  - intros p Hp Ho. rewrite bnth_splice_out by lia. apply F0; lia.
Qed.

(** Dropping slot [i] of [n]: the descriptors behind it move down one slot. *)
Lemma close_slot buf i n :
  0 <= i < n -> nodeHdrSize + n * itemSize <= blen buf ->
  exists b1,
    ((tail ← slice buf (nodeHdrSize + i * itemSize + itemSize) (nodeHdrSize + n * itemSize);
      buf ← copy_at buf (nodeHdrSize + i * itemSize) tail;
      buf ← clear_range buf (nodeHdrSize + (n - 1) * itemSize) (nodeHdrSize + n * itemSize);
      PutUint32 buf 0x60 (n - 1)) = Ok b1) /\ blen b1 = blen buf /\
    rd 4 b1 0x60 = (n - 1) mod 2 ^ 32 /\
    (forall p, 0 <= p < (n - 1 - i) * itemSize ->
       bnth b1 (nodeHdrSize + i * itemSize + p) = bnth buf (nodeHdrSize + (i + 1) * itemSize + p)) /\
    (forall p, 0 <= p -> (p < 0x60 \/ p = 0x64 \/ (nodeHdrSize <= p < nodeHdrSize + i * itemSize) \/
       nodeHdrSize + n * itemSize <= p) -> bnth b1 p = bnth buf p).
Proof.
  intros Hi Hf. rewrite slice_Ok by hdr_lia. cbn [mbind outcome_bind].
  set (tl := sub buf _ _).
  assert (Ht : blen tl = (n - 1 - i) * itemSize) by (unfold tl; rewrite blen_sub; hdr_lia).
  rewrite copy_at_Ok by hdr_lia. cbn [mbind outcome_bind].
  set (b0 := splice buf _ tl). assert (L0 : blen b0 = blen buf) by (unfold b0; rewrite blen_splice; hdr_lia).
  rewrite clear_range_Ok by hdr_lia. cbn [mbind outcome_bind].
  replace (nodeHdrSize + n * itemSize - (nodeHdrSize + (n - 1) * itemSize)) with itemSize by lia.
  assert (Hz : blen (zeros itemSize) = itemSize) by (apply blen_zeros; hdr_lia).
  set (b1 := splice b0 _ (zeros itemSize)).
  assert (L1 : blen b1 = blen buf) by (unfold b1; rewrite blen_splice; hdr_lia).
  rewrite put_le_Ok by hdr_lia. eexists. split_and!; [done|rewrite blen_wr; hdr_lia| | |].
  - rewrite rd_wr_same by hdr_lia. done.
  - intros p Hp. rewrite bnth_wr_out by hdr_lia. unfold b1. rewrite bnth_splice_out by hdr_lia.
    unfold b0. rewrite bnth_splice_in by hdr_lia. unfold tl. rewrite bnth_sub by hdr_lia. f_equal. lia.
  - intros p Hp Ho. rewrite bnth_wr_out by hdr_lia. unfold b1. rewrite bnth_splice_out by hdr_lia.
    unfold b0. apply bnth_splice_out; hdr_lia.
Qed.

Lemma leafDeleteItem_unfold buf idx hdr delDataOff delDataSize minDataOff b1 b2 :
  parseNodeHeader buf = Ok hdr ->
  Uint32 buf (nodeHdrSize + idx * itemSize + 17) = Ok delDataOff ->
  Uint32 buf (nodeHdrSize + idx * itemSize + 21) = Ok delDataSize ->
  min_data_off (Z.to_nat (hdr_nItems hdr)) buf idx 0 delDataOff = Ok minDataOff ->
  (let srcStart := nodeHdrSize + minDataOff in
   let srcEnd := nodeHdrSize + delDataOff in
   let dstStart := srcStart + delDataSize in
   buf ← (if srcStart <? srcEnd
         then src ← slice buf srcStart srcEnd;
              _ ← slice buf dstStart (dstStart + (srcEnd - srcStart));
              copy_at buf dstStart src
         else Ok buf);
   clear_range buf srcStart (srcStart + delDataSize)) = Ok b1 ->
  shift_offsets (Z.to_nat (hdr_nItems hdr)) b1 idx 0 delDataOff delDataSize = Ok b2 ->
  leafDeleteItem buf idx =
    (let n := hdr_nItems hdr in
     let descOff := nodeHdrSize + idx * itemSize in
     tail ← slice b2 (descOff + itemSize) (nodeHdrSize + n * itemSize);
     buf ← copy_at b2 descOff tail;
     buf ← clear_range buf (nodeHdrSize + (n - 1) * itemSize) (nodeHdrSize + n * itemSize);
     PutUint32 buf 0x60 (n - 1)).
Proof.
  intros H1 H2 H3 H4 H5 H6. unfold leafDeleteItem. rewrite H1. cbn [mbind outcome_bind].
  rewrite H2. cbn [mbind outcome_bind]. rewrite H3. cbn [mbind outcome_bind].
  rewrite H4. cbn [mbind outcome_bind]. cbv zeta in H5. apply outcome_bind_Ok in H5 as (b0&->&H5).
  cbn [mbind outcome_bind]. rewrite H5. cbn [mbind outcome_bind]. rewrite H6. done.
Qed.

Lemma descs_app buf c i a b :
  descs buf c i (a ++ b) <-> descs buf c i a /\ descs buf (c - recs_size a) (i + nrecs a) b.
Proof.
  revert c i. induction a as [|[k d] a IH]; intros c i; cbn [app].
  - change (recs_size []) with 0. change (nrecs []) with 0.
    rewrite Z.sub_0_r, Z.add_0_r. cbn. tauto.
  - cbn [descs]. rewrite IH, recs_size_cons, nrecs_cons.
    replace (c - blen d - recs_size a) with (c - (blen d + recs_size a)) by lia.
    replace (i + 1 + nrecs a) with (i + (1 + nrecs a)) by lia. tauto.
Qed.

Lemma datas_app buf c a b :
  datas buf c (a ++ b) <-> datas buf c a /\ datas buf (c - recs_size a) b.
Proof.
  revert c. induction a as [|[k d] a IH]; intros c; cbn [app datas].
  - change (recs_size []) with 0. rewrite Z.sub_0_r. tauto.
  - rewrite IH, recs_size_cons.
    replace (c - blen d - recs_size a) with (c - (blen d + recs_size a)) by lia. tauto.
Qed.

(** The two loops of the deletion, on the descriptors. *)
Lemma delete_loops buf pre k d post :
  leaf_repr buf (pre ++ (k, d) :: post) -> Forall (fun r => r.2 <> []) post ->
  let L := blen buf in
  let del := L - recs_size pre - blen d in
  min_data_off (length (pre ++ (k, d) :: post)) buf (nrecs pre) 0 (del - nodeHdrSize)
    = Ok (del - recs_size post - nodeHdrSize) /\
  forall b1, blen b1 = L ->
    agree buf b1 nodeHdrSize (nodeHdrSize + nrecs (pre ++ (k, d) :: post) * itemSize) ->
    exists b2,
      shift_offsets (length (pre ++ (k, d) :: post)) b1 (nrecs pre) 0 (del - nodeHdrSize) (blen d)
        = Ok b2 /\ blen b2 = L /\
      descs b2 L 0 pre /\ descs b2 (L - recs_size pre) (nrecs pre + 1) post /\
      forall p, 0 <= p ->
        (p < nodeHdrSize \/ nodeHdrSize + nrecs (pre ++ (k, d) :: post) * itemSize <= p) ->
        bnth b2 p = bnth b1 p.
Proof.
  intros Hr Hne. cbn zeta. pose proof (leaf_repr_bounds _ _ Hr) as [Hb _].
  destruct Hr as (_&_&Hf&Hm&Hp). apply packed_split in Hp as [Hd _].
  pose proof (nrecs_nonneg pre). pose proof (recs_size_nonneg pre). pose proof (blen_nonneg d).
  pose proof (nrecs_nonneg post). pose proof (recs_size_nonneg post).
  assert (Hdel : rd 4 buf (nodeHdrSize + nrecs pre * itemSize + 17) =
                 blen buf - recs_size pre - blen d - nodeHdrSize).
  { apply descs_app in Hd as [_ Hd]. cbn [descs] in Hd. apply Hd. }
  rewrite nrecs_app, nrecs_cons in *. rewrite recs_size_app, recs_size_cons in Hf. split.
  - rewrite (min_data_off_packed buf (nrecs pre) (blen buf - recs_size pre - blen d - nodeHdrSize)
      (blen buf));
      rewrite ?nrecs_app, ?nrecs_cons, ?recs_size_app, ?recs_size_cons; try done; try hdr_lia.
    f_equal. lia.
  - intros b1 L1 Ha. apply descs_app in Hd as [Hd1 Hd2]. cbn [descs] in Hd2.
    destruct Hd2 as (_&_&_&Hd2). rewrite Z.add_0_l in Hd2.
    assert (Hd1' : descs b1 (blen buf) 0 pre).
    { eapply (descs_agree buf); [| | | | |exact Hd1]; try hdr_lia. intros p Hp. apply Ha. hdr_lia. }
    rewrite length_app. rewrite (shift_offsets_skip b1 _ _ _ (blen buf)) by (try done; hdr_lia).
    cbn [length shift_offsets]. rewrite Z.add_0_l, Z.eqb_refl.
    destruct (shift_offsets_below b1 (nrecs pre) (blen buf - recs_size pre - blen d - nodeHdrSize)
      (blen d) (blen buf - recs_size pre - blen d) (nrecs pre + 1) post) as (b2&E&L2&D2&F2);
      try done; try hdr_lia.
    { eapply (descs_agree buf); [| | | | |exact Hd2]; try hdr_lia. intros p Hp. apply Ha. hdr_lia. }
    exists b2. split_and!; [done|lia| | |].
    + eapply (descs_agree b1); [| | | | |exact Hd1']; try hdr_lia. intros p Hp. symmetry. apply F2; hdr_lia.
    + replace (blen buf - recs_size pre) with (blen buf - recs_size pre - blen d + blen d) by lia. done.
    + intros p Hp0 Ho. apply F2; hdr_lia.
Qed.

Lemma leafDeleteItem_spec buf pre k d post :
  leaf_repr buf (pre ++ (k, d) :: post) -> Forall (fun r => r.2 <> []) post ->
  exists buf', leafDeleteItem buf (nrecs pre) = Ok buf' /\ same_header buf buf' /\
    leaf_repr buf' (pre ++ post).
Proof.
  intros Hr Hne. destruct (leaf_repr_header _ _ Hr) as [la Hh].
  destruct (delete_loops _ _ _ _ _ Hr Hne) as [Hmin Hshift]. cbn zeta in Hmin, Hshift.
  pose proof (leaf_repr_bounds _ _ Hr) as [Hb Hn32]. destruct Hr as (Hn&Hl&Hf&Hm&Hp).
  pose proof (nrecs_nonneg pre). pose proof (recs_size_nonneg pre). pose proof (blen_nonneg d).
  pose proof (nrecs_nonneg post). pose proof (recs_size_nonneg post).
  pose proof Hp as Hp'. apply packed_app in Hp' as [Hp1 Hp2]. cbn [packed] in Hp2.
  destruct Hp2 as (K1&K2&K3&K4&K5). apply packed_split in Hp1 as [_ Ht1].
  apply packed_split in K5 as [_ Ht2]. rewrite Z.add_0_l in *.
  assert (En : nrecs (pre ++ (k, d) :: post) = nrecs pre + 1 + nrecs post)
    by (rewrite nrecs_app, nrecs_cons; lia).
  rewrite recs_size_app, recs_size_cons, En in Hf. rewrite En in Hn32.
  set (L := blen buf) in *. set (del := L - recs_size pre - blen d) in *.
  destruct (close_gap buf (del - recs_size post) (recs_size post) (blen d)) as (b1&E1&L1&M1&F1);
    [hdr_lia..|].
  destruct (Hshift b1) as (b2&E2&L2&D2&D2'&F2); [done| |].
  { intros p Hq. rewrite En in Hq. symmetry. apply F1; hdr_lia. }
  destruct (close_slot b2 (nrecs pre) (nrecs (pre ++ (k, d) :: post))) as (b3&E3&L3&R3&M3&F3);
    [lia|hdr_lia|].
  rewrite En in R3, M3, F3, F2.
  rewrite (leafDeleteItem_unfold buf _ _ (del - nodeHdrSize) (blen d)
    (del - recs_size post - nodeHdrSize) b1 b2 Hh); cbn [hdr_nItems]; rewrite ?nrecs_to_nat; try done.
  - exists b3. split; [exact E3|].
    assert (Hh3 : forall p, 0 <= p < 0x60 \/ p = 0x64 -> bnth b3 p = bnth buf p).
    { intros p Hq. rewrite F3, F2, F1 by hdr_lia. done. }
    split; [split_and!; [lia|intros p Hq; symmetry; apply Hh3; lia|apply Hh3; lia]|].
    apply (leaf_repr_intro _ buf); try done; try hdr_lia.
    + apply Hh3. lia.
    + rewrite R3, nrecs_app. rewrite Z.mod_small; lia.
    + unfold leaf_need. rewrite nrecs_app, recs_size_app. hdr_lia.
    + replace (blen b3) with L by lia. rewrite packed_split, descs_app, Z.add_0_l. split; [split|].
      * eapply (descs_agree b2); [| | | | |exact D2]; try hdr_lia. intros p Hq. symmetry. apply F3; hdr_lia.
      * eapply (descs_agree b2); [| | | | |exact D2']; try hdr_lia. intros p Hq. symmetry. apply M3. hdr_lia.
      * apply datas_app. split.
        -- eapply (datas_agree buf); [| | | | |exact Ht1]; try hdr_lia. intros p Hq.
           rewrite F3, F2, F1 by hdr_lia. done.
        -- eapply (datas_agree buf); [| | | | |exact Ht2]; try hdr_lia. intros p Hq.
           rewrite F3, F2 by hdr_lia.
           replace (del - p) with (del - recs_size post + (recs_size post - p)) by lia.
           rewrite <- M1 by lia. f_equal. lia.
  - rewrite get_le_Ok by hdr_lia. f_equal. done.
  - rewrite get_le_Ok by hdr_lia. f_equal. done.
  - cbv zeta. rewrite <- E1. replace (nodeHdrSize + (del - recs_size post - nodeHdrSize)) with (del - recs_size post) by lia.
    replace (nodeHdrSize + (del - nodeHdrSize)) with (del - recs_size post + recs_size post) by lia. done.
Qed.

(** ** Abstract view: a leaf is a finite map from keys to data *)
#[global] Instance key_countable : Countable key.
Proof.
  apply (inj_countable' (fun k => (objID k, typ k, offset k)) (fun t => Key t.1.1 t.1.2 t.2)).
  by intros [].
Defined.

Definition leaf_map (recs : list rec) : gmap key bytes := list_to_map recs.
Definition keys_sorted (recs : list rec) : Prop := StronglySorted key_lt (map fst recs).

Lemma keys_sorted_NoDup recs : keys_sorted recs -> NoDup recs.*1.
Proof.
  unfold keys_sorted. change (map fst recs) with (recs.*1).
  induction 1 as [|k l _ IH Hk]; constructor; [|done].
  intros Hin. rewrite Forall_forall in Hk. specialize (Hk _ Hin). unfold key_lt in Hk. lia.
Qed.

Lemma keys_sorted_app a b :
  keys_sorted (a ++ b) <-> keys_sorted a /\ keys_sorted b /\
    (forall x y, x ∈ map fst a -> y ∈ map fst b -> key_lt x y).
Proof.
  unfold keys_sorted. rewrite map_app. split.
  - intros H. split_and!; [by eapply StronglySorted_app_1_l|by eapply StronglySorted_app_1_r|].
    intros x y. by apply StronglySorted_app_1_elem_of.
  - intros (H1&H2&H3). by apply StronglySorted_app_2.
Qed.

Lemma keys_sorted_cons k d l :
  keys_sorted ((k, d) :: l) <-> keys_sorted l /\ Forall (key_lt k) (map fst l).
Proof.
  unfold keys_sorted. cbn [map fst]. split; [intros H; by apply StronglySorted_inv in H|].
  intros [??]. by constructor.
Qed.

Lemma first_gt_bounds k recs :
  key_ok k -> Forall (fun r => key_ok r.1) recs -> keys_sorted recs -> ~ In k (map fst recs) ->
  Forall (fun x => key_lt x k) (map fst (take (first_gt k recs) recs)) /\
  Forall (key_lt k) (map fst (drop (first_gt k recs) recs)).
Proof.
  intros Hk. induction recs as [|[k' d] recs IH]; intros Ho Hs Hin; [split; constructor|].
  apply Forall_cons in Ho as [Ho Hos]. cbn [fst] in Ho. apply keys_sorted_cons in Hs as [Hs Hf].
  cbn [first_gt fst]. rewrite compareKey_gt by done. cbn [map fst In] in Hin.
  destruct (Z.ltb_spec (key_num k) (key_num k')) as [Hlt|Hge].
  - split; [constructor|]. cbn [drop map fst]. constructor; [done|].
    eapply Forall_impl; [exact Hf|]. unfold key_lt. intros; lia.
  - destruct IH as [IH1 IH2]; [done|done|tauto|]. cbn [take drop map fst]. split; [|done].
    constructor; [|done]. unfold key_lt. destruct (decide (key_num k' = key_num k)) as [E|]; [|lia].
    apply key_num_inj in E; [|done|done]. tauto.
Qed.

Lemma insert_at_sorted k d recs :
  key_ok k -> Forall (fun r => key_ok r.1) recs -> keys_sorted recs -> ~ In k (map fst recs) ->
  keys_sorted (insert_at (first_gt k recs) (k, d) recs).
Proof.
  intros Hk Ho Hs Hin. destruct (first_gt_bounds k recs) as [H1 H2]; try done.
  rewrite <- (take_drop (first_gt k recs) recs) in Hs. apply keys_sorted_app in Hs as (S1&S2&S3).
  apply keys_sorted_app. rewrite keys_sorted_cons. split_and!; try done.
  intros x y Hx Hy. cbn [map fst] in Hy. rewrite Forall_forall in H1.
  apply elem_of_cons in Hy as [->|Hy]; [by apply H1|by apply S3].
Qed.

Lemma leaf_map_insert_at i k d recs :
  NoDup recs.*1 -> ~ In k (map fst recs) ->
  leaf_map (insert_at i (k, d) recs) = <[k := d]> (leaf_map recs).
Proof.
  intros Hn Hin. unfold leaf_map. change (<[k:=d]> (list_to_map recs))
    with (list_to_map ((k, d) :: recs) : gmap key bytes).
  apply list_to_map_proper; [|apply insert_at_perm].
  rewrite insert_at_perm. cbn. constructor; [|done]. by rewrite list_elem_of_In.
Qed.

Lemma leaf_map_middle pre k d post :
  NoDup (pre ++ (k, d) :: post).*1 ->
  leaf_map (pre ++ (k, d) :: post) = <[k := d]> (leaf_map (pre ++ post)) /\
  leaf_map (pre ++ post) !! k = None.
Proof.
  intros Hn. assert (Hn' : NoDup (((k, d) :: pre ++ post)).*1) by by rewrite Permutation_middle.
  split.
  - unfold leaf_map. change (<[k:=d]> (list_to_map (pre ++ post)))
      with (list_to_map ((k, d) :: pre ++ post) : gmap key bytes).
    apply list_to_map_proper; [done|]. by rewrite Permutation_middle.
  - apply not_elem_of_list_to_map_1. cbn in Hn'. by apply NoDup_cons in Hn' as [? _].
Qed.

Lemma keys_sorted_middle pre k d d' post :
  keys_sorted (pre ++ (k, d) :: post) ->
  keys_sorted (pre ++ post) /\ keys_sorted (pre ++ (k, d') :: post).
Proof.
  rewrite !keys_sorted_app, !keys_sorted_cons. intros (H1&[H2 H3]&H4). split; split_and!; try done.
  intros x y Hx Hy. apply H4; [done|]. cbn [map fst]. by apply elem_of_cons; right.
Qed.

(** [findItemIdx] on a represented leaf. *)
Lemma findItemIdx_spec buf recs k :
  leaf_repr buf recs ->
  findItemIdx buf (objID k) (typ k) (offset k) =
  Ok (match find_key k recs with Some j => Z.of_nat j | None => -1 end).
Proof.
  intros Hr. destruct (leaf_repr_header _ _ Hr) as [la Hh].
  destruct Hr as (Hn&Hl&Hf&Hm&Hp). pose proof (recs_size_nonneg recs).
  unfold findItemIdx. rewrite Hh. cbn [mbind outcome_bind hdr_nItems]. rewrite nrecs_to_nat.
  erewrite findItemIdx_loop_packed by (try done; hdr_lia). by destruct (find_key k recs).
Qed.

(** A successful search splits the item list at the item found. *)
Lemma findItemIdx_split buf recs k idx :
  leaf_repr buf recs -> findItemIdx buf (objID k) (typ k) (offset k) = Ok idx -> 0 <= idx ->
  exists pre d post, recs = pre ++ (k, d) :: post /\ idx = nrecs pre.
Proof.
  intros Hr. rewrite (findItemIdx_spec _ recs) by done. intros [= <-] Hi.
  destruct (find_key k recs) as [j|] eqn:E; [|lia]. apply find_key_Some in E as [d E].
  exists (take j recs), d, (drop (S j) recs). split.
  - by rewrite take_drop_middle.
  - unfold nrecs. apply lookup_lt_Some in E. rewrite length_take. lia.
Qed.

(** ** Parsing *)
Lemma parseLeafItems_loop_Ok fuel buf n i :
  0 <= i -> Z.min n ((blen buf - nodeHdrSize) / itemSize) - i <= Z.of_nat fuel ->
  exists l, parseLeafItems_loop fuel buf n i = Ok l /\
    Z.of_nat (length l) = Z.max 0 (Z.min n ((blen buf - nodeHdrSize) / itemSize) - i) /\
    Forall (fun it => key_ok (it_k it)) l.
Proof.
  revert i. induction fuel as [|fuel IH]; intros i Hi Hfuel; cbn [parseLeafItems_loop];
    pose proof (Z.mul_div_le (blen buf - nodeHdrSize) itemSize ltac:(hdr_lia));
    pose proof (Z.mul_succ_div_gt (blen buf - nodeHdrSize) itemSize ltac:(hdr_lia)).
  - case_if; [exists []; split_and!; [done|cbn; lia|constructor]|].
    case_if; [exists []; split_and!; [done|cbn; hdr_lia|constructor]|]. exfalso. hdr_lia.
  - case_if; [exists []; split_and!; [done|cbn; lia|constructor]|].
    case_if; [exists []; split_and!; [done|cbn; hdr_lia|constructor]|].
    rewrite readKey_Ok by hdr_lia. cbn [mbind outcome_bind].
    do 2 (rewrite get_le_Ok by hdr_lia; cbn [mbind outcome_bind]).
    destruct (IH (i + 1)) as (l&E&L&K); [lia|lia|]. rewrite E. cbn [mbind outcome_bind].
    eexists. split_and!; [done|cbn [length]; hdr_lia|]. constructor; [apply key_at_ok|done].
Qed.

(** The descriptor [parseLeafItems] reads for each item of a leaf. *)
Fixpoint descriptors (cursor : Z) (recs : list rec) : list leafItem :=
  match recs with
  | [] => []
  | (k, d) :: recs => LeafItem k (cursor - blen d - nodeHdrSize) (blen d) :: descriptors (cursor - blen d) recs
  end.

Lemma parseLeafItems_packed fuel buf c i recs :
  0 <= i -> nodeHdrSize + (i + nrecs recs) * itemSize <= blen buf -> (length recs <= fuel)%nat ->
  packed buf c i recs ->
  parseLeafItems_loop fuel buf (i + nrecs recs) i = Ok (descriptors c recs).
Proof.
  revert fuel c i. induction recs as [|[k d] recs IH]; intros fuel c i Hi Hfit Hfuel Hp.
  - destruct fuel; cbn [parseLeafItems_loop]; change (nrecs []) with 0;
      rewrite (proj2 (Z.leb_le _ _)) by lia; done.
  - rewrite nrecs_cons in *. cbn [packed] in Hp. destruct Hp as (H1&H2&H3&H4&H5).
    pose proof (nrecs_nonneg recs). destruct fuel as [|fuel]; [cbn in Hfuel; lia|].
    cbn [parseLeafItems_loop length] in *. case_if; [lia|]. case_if; [hdr_lia|].
    rewrite readKey_Ok by hdr_lia. cbn [mbind outcome_bind].
    do 2 (rewrite get_le_Ok by hdr_lia; cbn [mbind outcome_bind]).
    rewrite Z.add_assoc, (IH fuel (c - blen d)) by (try done; try hdr_lia). cbn [mbind outcome_bind].
    by rewrite H1, H2, H3.
Qed.

Lemma descriptors_data buf c i recs :
  0 <= i -> nodeHdrSize + (i + nrecs recs) * itemSize <= c - recs_size recs -> c <= blen buf ->
  packed buf c i recs ->
  map (fun it => (it_k it, item_data it buf)) (descriptors c recs) = recs.
Proof.
  revert c i. induction recs as [|[k d] recs IH]; intros c i Hi Hf Hc Hp; [done|].
  rewrite nrecs_cons, recs_size_cons in *. cbn [packed] in Hp. destruct Hp as (H1&H2&H3&H4&H5).
  pose proof (nrecs_nonneg recs). pose proof (recs_size_nonneg recs). pose proof (blen_nonneg d).
  cbn [descriptors map it_k]. rewrite (IH _ (i + 1)) by (try done; hdr_lia). do 2 f_equal.
  unfold item_data. cbn [it_dataOff it_dataSize].
  replace (nodeHdrSize + (c - blen d - nodeHdrSize)) with (c - blen d) by lia.
  case_if; [exfalso; destruct Heqb; bool_prop; hdr_lia|]. done.
Qed.

Lemma itemsThatFit_Z buf n :
  nodeHdrSize <= blen buf -> 0 <= n ->
  itemsThatFit buf n itemSize = Z.min n ((blen buf - nodeHdrSize) / itemSize).
Proof.
  intros. unfold itemsThatFit. rewrite Z.quot_div_nonneg by hdr_lia.
  pose proof (Z.div_pos (blen buf - nodeHdrSize) itemSize). repeat case_if; hdr_lia.
Qed.

Lemma parseLeafItems_repr buf recs :
  leaf_repr buf recs ->
  exists items, parseLeafItems buf (nrecs recs) = Ok items /\
    map (fun it => (it_k it, item_data it buf)) items = recs.
Proof.
  intros Hr. pose proof (leaf_repr_bounds _ _ Hr) as [Hb _]. destruct Hr as (Hn&Hl&Hf&Hm&Hp).
  pose proof (nrecs_nonneg recs). pose proof (recs_size_nonneg recs).
  exists (descriptors (blen buf) recs). split; [|apply (descriptors_data _ _ 0); try done; hdr_lia].
  unfold parseLeafItems. apply (parseLeafItems_packed _ _ _ 0); [done|hdr_lia| |done].
  rewrite itemsThatFit_Z by done.
  pose proof (Z.div_le_lower_bound (blen buf - nodeHdrSize) itemSize (nrecs recs)).
  unfold nrecs in *. hdr_lia.
Qed.

(** ** The theorems of the component *)

(** [leafInsertItem] implements insertion into the finite map a sorted leaf
    stands for.  When the descriptor and the data fit in the free space, the
    result is again a packed leaf in strictly increasing key order that holds
    exactly the old items and the new one, the header outside the item count is
    untouched; when they do not fit, the call fails with [errLeafFull]. *)
Theorem leafInsertItem_refines buf recs k data :
  leaf_repr buf recs -> keys_sorted recs -> key_ok k -> ~ In k (map fst recs) ->
  if leaf_need recs + itemSize + blen data <=? blen buf
  then exists buf' recs', leafInsertItem buf k data = Ok buf' /\ leaf_repr buf' recs' /\
         keys_sorted recs' /\ leaf_map recs' = <[k := data]> (leaf_map recs) /\
         same_header buf buf'
  else leafInsertItem buf k data = Err ErrLeafFull.
Proof.
  intros Hr Hs Hk Hin. pose proof (leafInsertItem_spec buf recs k data Hr Hk) as H.
  case_if; [|done]. destruct H as (buf'&E&Hh&Hr'). exists buf', (insert_at (first_gt k recs) (k, data) recs).
  split_and!; try done.
  - apply insert_at_sorted; try done. destruct Hr as (_&_&_&_&Hp). by eapply packed_keys_ok.
  - apply leaf_map_insert_at; [by apply keys_sorted_NoDup|done].
Qed.

(** Deleting the item [findItemIdx] finds implements deletion from the map:
    [leafDeleteItem] cannot fail there, closes both the data gap and the
    descriptor gap, and leaves a packed sorted leaf.  Zero-length items behind
    the deleted one are excluded: their offsets are not moved by the code. *)
Theorem leafDeleteItem_refines buf recs k idx :
  leaf_repr buf recs -> keys_sorted recs -> Forall (fun r => r.2 <> []) recs ->
  findItemIdx buf (objID k) (typ k) (offset k) = Ok idx -> 0 <= idx ->
  exists buf' recs', leafDeleteItem buf idx = Ok buf' /\ leaf_repr buf' recs' /\
    keys_sorted recs' /\ leaf_map recs' = delete k (leaf_map recs) /\ same_header buf buf'.
Proof.
  intros Hr Hs Hne Hi H0. destruct (findItemIdx_split _ _ _ _ Hr Hi H0) as (pre&d&post&->&->).
  apply Forall_app in Hne as [_ Hne]. apply Forall_cons in Hne as [_ Hne].
  destruct (leafDeleteItem_spec _ _ _ _ _ Hr Hne) as (buf'&E&Hh&Hr').
  exists buf', (pre ++ post). split_and!; try done.
  - by eapply keys_sorted_middle.
  - destruct (leaf_map_middle pre k d post) as [-> Hnone]; [by apply keys_sorted_NoDup|].
    by rewrite delete_insert_id.
Qed.

(** Replacing the data of the item [findItemIdx] finds implements an update
    of the map: [leafReplaceItemData] succeeds exactly when the resulting item
    list fits in the node, and then stores the new data under the same key. *)
Theorem leafReplaceItemData_refines buf recs k idx data :
  leaf_repr buf recs -> keys_sorted recs ->
  findItemIdx buf (objID k) (typ k) (offset k) = Ok idx -> 0 <= idx ->
  exists old, leaf_map recs !! k = Some old /\
  if leaf_need recs - blen old + blen data <=? blen buf
  then exists buf' recs', leafReplaceItemData buf idx data = Ok buf' /\ leaf_repr buf' recs' /\
         keys_sorted recs' /\ leaf_map recs' = <[k := data]> (leaf_map recs) /\ same_header buf buf'
  else leafReplaceItemData buf idx data = Err ErrOther.
Proof.
  intros Hr Hs Hi H0. destruct (findItemIdx_split _ _ _ _ Hr Hi H0) as (pre&d&post&->&->).
  exists d. destruct (leaf_map_middle pre k d post) as [Em Hnone]; [by apply keys_sorted_NoDup|].
  rewrite Em. split; [by rewrite lookup_insert_eq|].
  pose proof (leafReplaceItemData_spec buf pre k d post data Hr) as H.
  replace (leaf_need (pre ++ (k, data) :: post)) with
    (leaf_need (pre ++ (k, d) :: post) - blen d + blen data) in H
    by (rewrite !leaf_need_app, !leaf_need_cons; lia).
  case_if; [|done]. destruct H as (buf'&E&Hh&Hr'). exists buf', (pre ++ (k, data) :: post).
  destruct (keys_sorted_middle pre k d data post Hs) as [_ Hs'].
  split_and!; try done. rewrite insert_insert_eq.
  apply (leaf_map_middle pre k data post). by apply keys_sorted_NoDup.
Qed.

(** [parseLeafItems] is safe on every buffer that holds a node header,
    however corrupt the item count: it never panics and returns exactly
    [itemsThatFit] descriptors; on a leaf that stores [recs] it returns the
    items of [recs], each descriptor's [data] being the item's bytes. *)
Theorem parseLeafItems_total buf n :
  nodeHdrSize <= blen buf -> 0 <= n ->
  exists items, parseLeafItems buf n = Ok items /\
    Z.of_nat (length items) = itemsThatFit buf n itemSize /\
    (forall recs, leaf_repr buf recs -> n = nrecs recs ->
       map (fun it => (it_k it, item_data it buf)) items = recs).
Proof.
  intros Hb Hn. pose proof (itemsThatFit_Z buf n Hb Hn) as Hfit.
  pose proof (Z.div_pos (blen buf - nodeHdrSize) itemSize ltac:(lia) ltac:(hdr_lia)).
  destruct (parseLeafItems_loop_Ok (Z.to_nat (itemsThatFit buf n itemSize)) buf n 0) as (l&E&L&_);
    [lia|lia|].
  exists l. split_and!; [done|lia|]. intros recs Hr ->.
  destruct (parseLeafItems_repr _ _ Hr) as (items&E'&Hi). unfold parseLeafItems in E'. congruence.
Qed.

(** ** Examples *)
Definition ex_k1 : key := Key 256 typeInodeItem 0.
Definition ex_k2 : key := Key 257 typeDirItem 77.
Definition ex_recs : list rec := [(ex_k1, le_enc 8 1); (ex_k2, le_enc 4 2)].
(** The leaf the two insertions build in an empty 256-byte node. *)
Definition ex_leaf : bytes :=
  match (b ← leafInsertItem (zeros 256) ex_k2 (le_enc 4 2); leafInsertItem b ex_k1 (le_enc 8 1)) with
  | Ok b => b
  | _ => []
  end.

Lemma ex_leaf_repr : leaf_repr ex_leaf ex_recs.
Proof. repeat split; vm_compute; first [reflexivity|discriminate]. Defined.
Lemma ex_recs_sorted : keys_sorted ex_recs.
Proof. repeat constructor; vm_compute; reflexivity. Defined.

Lemma leafInsertItem_refines_witness :
  exists buf' recs', leafInsertItem ex_leaf (Key 256 typeInodeRef 256) (le_enc 8 9) = Ok buf' /\
    leaf_repr buf' recs' /\ keys_sorted recs' /\
    leaf_map recs' = <[Key 256 typeInodeRef 256 := le_enc 8 9]> (leaf_map ex_recs) /\
    same_header ex_leaf buf'.
Proof.
  exact (leafInsertItem_refines ex_leaf ex_recs (Key 256 typeInodeRef 256) (le_enc 8 9)
    ex_leaf_repr ex_recs_sorted ltac:(repeat split; vm_compute; first [reflexivity|discriminate])
    ltac:(vm_compute; intuition discriminate)).
Defined.

Lemma leafDeleteItem_refines_witness :
  exists buf' recs', leafDeleteItem ex_leaf 0 = Ok buf' /\ leaf_repr buf' recs' /\
    keys_sorted recs' /\ leaf_map recs' = delete ex_k1 (leaf_map ex_recs) /\ same_header ex_leaf buf'.
Proof.
  apply (leafDeleteItem_refines ex_leaf ex_recs ex_k1 0 ex_leaf_repr ex_recs_sorted).
  - repeat constructor; discriminate.
  - vm_compute; reflexivity.
  - lia.
Defined.

Lemma leafReplaceItemData_refines_witness :
  exists old, leaf_map ex_recs !! ex_k2 = Some old /\
  if leaf_need ex_recs - blen old + blen (le_enc 8 5) <=? blen ex_leaf
  then exists buf' recs', leafReplaceItemData ex_leaf 1 (le_enc 8 5) = Ok buf' /\ leaf_repr buf' recs' /\
         keys_sorted recs' /\ leaf_map recs' = <[ex_k2 := le_enc 8 5]> (leaf_map ex_recs) /\
         same_header ex_leaf buf'
  else leafReplaceItemData ex_leaf 1 (le_enc 8 5) = Err ErrOther.
Proof.
  apply (leafReplaceItemData_refines ex_leaf ex_recs ex_k2 1 (le_enc 8 5) ex_leaf_repr ex_recs_sorted).
  - vm_compute; reflexivity.
  - lia.
Defined.

Lemma parseLeafItems_total_witness :
  exists items, parseLeafItems ex_leaf 4000000000 = Ok items /\
    Z.of_nat (length items) = itemsThatFit ex_leaf 4000000000 itemSize /\
    (forall recs, leaf_repr ex_leaf recs -> 4000000000 = nrecs recs ->
       map (fun it => (it_k it, item_data it ex_leaf)) items = recs).
Proof.
  apply (parseLeafItems_total ex_leaf 4000000000).
  - vm_compute; discriminate.
  - lia.
Defined.
