(* ===== verification/BTree.v ===== *)
(** * Reading B-trees (btree.go, nodecache.go, chunk.go)

    The walks take the node reader as an argument, [readNode : Z -> SM S bytes],
    where the state [S] is what the reader keeps: nothing for a plain device, the
    cache for a [cachedReader], the superblock while the chunk tree is being
    loaded.  [pure_reader] is the stateless case; [reader_like] says that a
    reader behaves as a function of the address, and the walks are shown to
    give the same result through any such reader.

    Correctness is stated against [tree], the abstract content of a B-tree, and
    [on_disk], which relates it to the node buffers. *)
From Stdlib Require Import ZArith Lia Strings.Byte.
From stdpp Require Import base option list numbers sorting gmap.
From S2P Require Import Prelude Bytes Layout SafeIO Chunk Node.
Local Open Scope Z_scope.
Local Open Scope btrfs_scope.

(** ** Nodes *)
Definition readNodeUncached `{SafeIO} (ReadAt : Z -> Z -> outcome bytes) (partOff : Z)
    (sb : superblock) (logAddr : Z) : outcome bytes :=
  phys ← physAddr sb partOff logAddr;
  buf ← MakeBytes (sb_nodeSize sb) maxNodeSize;
  ReadAt phys (blen buf).

(** [cachedReader]: the nodes by logical address and the generation it was built
    for; a reader without a cache is [None]. *)
Record cachedReader := CachedReader { cr_nodes : gmap Z bytes; cr_builtGen : Z }.

Definition newCachedReader (gen : Z) : cachedReader := CachedReader ∅ gen.
Definition cachedNode (c : cachedReader) (logAddr : Z) : option bytes := cr_nodes c !! logAddr.
Definition putNode (c : cachedReader) (logAddr : Z) (buf : bytes) : cachedReader :=
  CachedReader (<[logAddr := buf]> (cr_nodes c)) (cr_builtGen c).

Definition readNode `{SafeIO} (ReadAt : Z -> Z -> outcome bytes) (partOff : Z) (sb : superblock)
    (logAddr : Z) : SM (option cachedReader) bytes := fun cache =>
  match cache with
  | Some nc =>
      match cachedNode nc logAddr with
      | Some buf => (cache, Ok buf)
      | None =>
          match readNodeUncached ReadAt partOff sb logAddr with
          | Ok buf => (Some (putNode nc logAddr buf), Ok buf)
          | o => (cache, o)
          end
      end
  | None => (cache, readNodeUncached ReadAt partOff sb logAddr)
  end.

(** [btrfsFS.reader]: keep the cache while the generation stands. *)
Definition reader (cache : option cachedReader) (gen : Z) : cachedReader :=
  match cache with
  | Some c => if negb (cr_builtGen c =? gen) then newCachedReader gen else c
  | None => newCachedReader gen
  end.
Definition invalidateCache (_ : option cachedReader) : option cachedReader := None.

(** ** Walks *)

(** The loop over the key pointers of an internal node: the child pointers from
    slot [i] on, up to the first key [stop] rejects or the end of the buffer. *)
Fixpoint scan_ptrs (fuel : nat) (buf : bytes) (n : Z) (stop : key -> bool) (i : Z)
  : outcome (list Z) :=
  if n <=? i then Ok []
  else
    let off := nodeHdrSize + i * keyPtrSize in
    if blen buf <? off + keyPtrSize then Ok []
    else match fuel with
    | O => NoFuel
    | S fuel =>
        k ← readKey buf off;
        if stop k then Ok [] else
        p ← Uint64 buf (off + 17);
        rest ← scan_ptrs fuel buf n stop (i + 1);
        Ok (p :: rest)
    end.
Definition child_ptrs (buf : bytes) (n : Z) (stop : key -> bool) : outcome (list Z) :=
  scan_ptrs (Z.to_nat (itemsThatFit buf n keyPtrSize)) buf n stop 0.

(** [chosen]: the last pointer the loop assigned, 0 when there is none. *)
Definition chosen (ptrs : list Z) : Z := default 0 (last ptrs).

Definition past_prefix (o t : Z) (k : key) : bool :=
  (o <? objID k) || ((objID k =? o) && (t <? typ k)).
Definition has_prefix (o t : Z) (it : leafItem) : bool :=
  (objID (it_k it) =? o) && (typ (it_k it) =? t).
Definition has_key (o t f : Z) (it : leafItem) : bool :=
  (objID (it_k it) =? o) && (typ (it_k it) =? t) && (offset (it_k it) =? f).

(** Recursion stops at the latest when the depth passes [maxBtreeDepth]. *)
Definition depth_fuel : nat := 66.

Section Walks.
Context `{SafeIO} {S : Type} (readNode : Z -> SM S bytes).

Fixpoint searchTree_loop (fuel : nat) (seen : VisitSet) (logAddr prevLevel depth : Z)
    (wantObjID wantType wantOffset : Z) : SM S (bytes * leafItem) :=
  if maxBtreeDepth <? depth then sm_fail ErrLoopLimit
  else match fuel with
  | O => sm_lift NoFuel
  | Datatypes.S fuel =>
      seen ← sm_lift (visit_check seen logAddr);
      buf ← readNode logAddr;
      hdr ← sm_lift (parseNodeHeader buf);
      if (0 <=? prevLevel) && negb (hdr_level hdr =? prevLevel - 1) then sm_fail ErrNotFound else
      if hdr_level hdr =? 0 then
        items ← sm_lift (parseLeafItems buf (hdr_nItems hdr));
        match List.find (has_key wantObjID wantType wantOffset) items with
        | Some it => mret (buf, it)
        | None => sm_fail ErrNotFound
        end
      else
        ptrs ← sm_lift (child_ptrs buf (hdr_nItems hdr)
                 (fun k => 0 <? compareKeys k wantObjID wantType wantOffset));
        if chosen ptrs =? 0 then sm_fail ErrNotFound else
        searchTree_loop fuel seen (chosen ptrs) (hdr_level hdr) (depth + 1)
          wantObjID wantType wantOffset
  end.

Definition searchTree (rootLogAddr wantObjID wantType wantOffset : Z) : SM S (bytes * leafItem) :=
  searchTree_loop depth_fuel visit_empty rootLogAddr (-1) 0 wantObjID wantType wantOffset.

Fixpoint searchTreePrefix_loop (fuel : nat) (seen : VisitSet) (logAddr prevLevel depth : Z)
    (wantObjID wantType : Z) : SM S (bytes * list leafItem) :=
  if maxBtreeDepth <? depth then sm_fail ErrLoopLimit
  else match fuel with
  | O => sm_lift NoFuel
  | Datatypes.S fuel =>
      seen ← sm_lift (visit_check seen logAddr);
      buf ← readNode logAddr;
      hdr ← sm_lift (parseNodeHeader buf);
      if (0 <=? prevLevel) && negb (hdr_level hdr =? prevLevel - 1) then sm_fail ErrNotFound else
      if hdr_level hdr =? 0 then
        items ← sm_lift (parseLeafItems buf (hdr_nItems hdr));
        match List.filter (has_prefix wantObjID wantType) items with
        | [] => sm_fail ErrNotFound
        | matched => mret (buf, matched)
        end
      else
        ptrs ← sm_lift (child_ptrs buf (hdr_nItems hdr) (past_prefix wantObjID wantType));
        if chosen ptrs =? 0 then sm_fail ErrNotFound else
        searchTreePrefix_loop fuel seen (chosen ptrs) (hdr_level hdr) (depth + 1) wantObjID wantType
  end.

Definition searchTreePrefix (rootLogAddr wantObjID wantType : Z) : SM S (bytes * list leafItem) :=
  searchTreePrefix_loop depth_fuel visit_empty rootLogAddr (-1) 0 wantObjID wantType.

(** The callback over the matching items of one leaf; [None] when it asked to stop. *)
Fixpoint visit_items {A} (visit : A -> bytes -> leafItem -> A * bool) (buf : bytes)
    (items : list leafItem) (acc : A) : A * bool :=
  match items with
  | [] => (acc, true)
  | it :: items =>
      let '(acc, go) := visit acc buf it in
      if go then visit_items visit buf items acc else (acc, false)
  end.

(** The explicit stack holds (address, depth) frames, top first. *)
Fixpoint walkPrefixLeaves_loop {A} (fuel : nat) (seen : VisitSet) (guard : LoopGuard)
    (stack : list (Z * Z)) (wantObjID wantType : Z)
    (visit : A -> bytes -> leafItem -> A * bool) (acc : A) : SM S A :=
  match stack with
  | [] => mret acc
  | (logAddr, depth) :: stack =>
      if maxBtreeDepth <? depth then sm_fail ErrLoopLimit
      else match fuel with
      | O => sm_lift NoFuel
      | Datatypes.S fuel =>
          guard ← sm_lift (guard_next guard);
          seen ← sm_lift (visit_check seen logAddr);
          buf ← readNode logAddr;
          hdr ← sm_lift (parseNodeHeader buf);
          if hdr_level hdr =? 0 then
            items ← sm_lift (parseLeafItems buf (hdr_nItems hdr));
            let '(acc, go) :=
              visit_items visit buf (List.filter (has_prefix wantObjID wantType) items) acc in
            if go then walkPrefixLeaves_loop fuel seen guard stack wantObjID wantType visit acc
            else mret acc
          else
            children ← sm_lift (child_ptrs buf (hdr_nItems hdr) (past_prefix wantObjID wantType));
            walkPrefixLeaves_loop fuel seen guard
              (map (fun c => (c, depth + 1)) children ++ stack) wantObjID wantType visit acc
      end
  end.

(** The node guard allows [maxTreeNodes] nodes; one more round meets its error. *)
Definition walk_fuel : nat := Datatypes.S (Z.to_nat maxTreeNodes).

Definition walkPrefixLeaves {A} (rootLogAddr wantObjID wantType : Z)
    (visit : A -> bytes -> leafItem -> A * bool) (acc : A) : SM S A :=
  walkPrefixLeaves_loop walk_fuel visit_empty (NewLoopGuard maxTreeNodes) [(rootLogAddr, 0)]
    wantObjID wantType visit acc.

(** [prefixMatch] is a (key, data) pair. *)
Definition collectPrefixItems (rootLogAddr wantObjID wantType : Z) : SM S (list rec) :=
  out ← walkPrefixLeaves rootLogAddr wantObjID wantType
          (fun out buf it => (out ++ [(it_k it, item_data it buf)], true)) [];
  match out with
  | [] => sm_fail ErrNotFound
  | _ => mret out
  end.

(** [treeWalk.walkNode]; the visit set and the guard are threaded through. *)
Fixpoint walkNode_rec (fuel : nat) (fn : bytes -> list leafItem -> SM S unit)
    (w : VisitSet * LoopGuard) (logAddr depth : Z) : SM S (VisitSet * LoopGuard) :=
  if maxBtreeDepth <? depth then sm_fail ErrLoopLimit
  else match fuel with
  | O => sm_lift NoFuel
  | Datatypes.S fuel =>
      guard ← sm_lift (guard_next w.2);
      seen ← sm_lift (visit_check w.1 logAddr);
      buf ← readNode logAddr;
      hdr ← sm_lift (parseNodeHeader buf);
      if hdr_level hdr =? 0 then
        items ← sm_lift (parseLeafItems buf (hdr_nItems hdr));
        _ ← fn buf items;
        mret (seen, guard)
      else
        children ← sm_lift (child_ptrs buf (hdr_nItems hdr) (fun _ => false));
        (fix loop (l : list Z) (w : VisitSet * LoopGuard) : SM S (VisitSet * LoopGuard) :=
           match l with
           | [] => mret w
           | child :: l =>
               if child =? 0 then loop l w
               else w ← walkNode_rec fuel fn w child (depth + 1); loop l w
           end) children (seen, guard)
  end.

(** [walkNode], which [walkLeaves] calls. *)
Definition walkLeaves (rootLogAddr : Z) (fn : bytes -> list leafItem -> SM S unit) : SM S unit :=
  _ ← walkNode_rec depth_fuel fn (visit_empty, NewLoopGuard maxTreeNodes) rootLogAddr 0;
  mret tt.

(** [addrWalk.walk] (alloc.go): errors of [readNode] end the subtree quietly. *)
Fixpoint addrWalk_rec (fuel : nat) (fn : Z -> SM S unit) (w : VisitSet * LoopGuard)
    (logAddr depth : Z) : SM S (VisitSet * LoopGuard) :=
  if maxBtreeDepth <? depth then sm_fail ErrLoopLimit
  else match fuel with
  | O => sm_lift NoFuel
  | Datatypes.S fuel =>
      guard ← sm_lift (guard_next w.2);
      let '(seen, fresh) := visit_add w.1 logAddr in
      if negb fresh then mret (seen, guard) else
      _ ← fn logAddr;
      r ← sm_try (readNode logAddr);
      match r with
      | Err _ => mret (seen, guard)
      | Panic => sm_lift Panic
      | NoFuel => sm_lift NoFuel
      | Ok buf =>
          hdr ← sm_lift (parseNodeHeader buf);
          if hdr_level hdr =? 0 then mret (seen, guard)
          else
            children ← sm_lift (child_ptrs buf (hdr_nItems hdr) (fun _ => false));
            (fix loop (l : list Z) (w : VisitSet * LoopGuard) : SM S (VisitSet * LoopGuard) :=
               match l with
               | [] => mret w
               | child :: l =>
                   if child =? 0 then loop l w
                   else w ← addrWalk_rec fuel fn w child (depth + 1); loop l w
               end) children (seen, guard)
      end
  end.

Definition walkNodeAddrs (logAddr : Z) (fn : Z -> SM S unit) : SM S unit :=
  _ ← addrWalk_rec depth_fuel fn (visit_empty, NewLoopGuard maxTreeNodes) logAddr 0;
  mret tt.

(** [resolveRootTree] (chunk.go): the FS tree's root from its ROOT_ITEM. *)
Definition resolveRootTree (sb : superblock) : SM S Z :=
  '(buf, it) ← searchTree (sb_rootLogAddr sb) fsTreeObjID typeRootItem 0;
  let d := item_data it buf in
  if blen d <? 0xB0 + 8 then sm_fail ErrOther else sm_lift (Uint64 d 0xB0).
End Walks.

(** ** Readers that behave as a function of the address *)
Definition pure_reader (rn : Z -> outcome bytes) (a : Z) : SM unit bytes := sm_lift (rn a).

Class ReaderLike {S} (inv : S -> Prop) (readNode : Z -> SM S bytes) (rn : Z -> outcome bytes) : Prop :=
  reader_like a : sm_refines inv (readNode a) (rn a).

(** A cache is coherent when every node it holds is the device's. *)
Definition coherent `{SafeIO} ReadAt partOff sb (cache : option cachedReader) : Prop :=
  match cache with
  | None => True
  | Some c => forall a buf, cr_nodes c !! a = Some buf -> readNodeUncached ReadAt partOff sb a = Ok buf
  end.

#[global] Instance readNode_like `{SafeIO} ReadAt partOff sb :
  ReaderLike (coherent ReadAt partOff sb) (readNode ReadAt partOff sb)
    (readNodeUncached ReadAt partOff sb).
Proof.
  intros a cache Hc. unfold readNode. destruct cache as [c|]; [|done].
  unfold cachedNode. destruct (cr_nodes c !! a) as [buf|] eqn:E; cbn.
  - split; [|done]. symmetry. by apply Hc.
  - destruct (readNodeUncached ReadAt partOff sb a) as [buf|e| |] eqn:Eu; cbn; try done.
    split; [done|]. intros a' buf'. cbn. destruct (decide (a' = a)) as [->|Hne].
    + rewrite lookup_insert_eq. intros [= <-]. done.
    + rewrite lookup_insert_ne by done. apply Hc.
Qed.

Lemma coherent_new `{SafeIO} ReadAt partOff sb gen :
  coherent ReadAt partOff sb (Some (newCachedReader gen)).
Proof. intros a buf. cbn. by rewrite lookup_empty. Qed.

(** One step of a comparison of a walk through a reader with the pure walk. *)
Ltac refine_step :=
  rewrite ?sm_run_bind; apply sm_refines_bind;
  [first [apply reader_like|auto with btrfs]|intros ? _; try change (sm_run (pure_reader ?f ?a)) with (f a)].

Section Transparency.
Context `{SafeIO} {S : Type} (inv : S -> Prop) (rdn : Z -> SM S bytes) (rn : Z -> outcome bytes).
Context {HR : ReaderLike inv rdn rn}.

Lemma searchTree_loop_like fuel seen a pl d o t f :
  sm_refines inv (searchTree_loop rdn fuel seen a pl d o t f)
    (sm_run (searchTree_loop (pure_reader rn) fuel seen a pl d o t f)).
Proof using HR.
  revert seen a pl d. induction fuel as [|fuel IH]; intros seen a pl d; cbn [searchTree_loop];
    destruct (maxBtreeDepth <? d); try (by intros s Hs).
  do 3 refine_step. case_if; [auto with btrfs|]. case_if; refine_step.
  - destruct (List.find _ _); auto with btrfs.
  - case_if; [auto with btrfs|apply IH].
Qed.

Lemma searchTreePrefix_loop_like fuel seen a pl d o t :
  sm_refines inv (searchTreePrefix_loop rdn fuel seen a pl d o t)
    (sm_run (searchTreePrefix_loop (pure_reader rn) fuel seen a pl d o t)).
Proof using HR.
  revert seen a pl d. induction fuel as [|fuel IH]; intros seen a pl d; cbn [searchTreePrefix_loop];
    destruct (maxBtreeDepth <? d); try (by intros s Hs).
  do 3 refine_step. case_if; [auto with btrfs|]. case_if; refine_step.
  - destruct (List.filter _ _); auto with btrfs.
  - case_if; [auto with btrfs|apply IH].
Qed.

Lemma walkPrefixLeaves_loop_like {A} fuel seen g st o t (visit : A -> bytes -> leafItem -> A * bool) acc :
  sm_refines inv (walkPrefixLeaves_loop rdn fuel seen g st o t visit acc)
    (sm_run (walkPrefixLeaves_loop (pure_reader rn) fuel seen g st o t visit acc)).
Proof using HR.
  revert seen g st acc. induction fuel as [|fuel IH]; intros seen g st acc;
    destruct st as [|[a d] st]; cbn [walkPrefixLeaves_loop]; try (by intros s Hs);
    destruct (maxBtreeDepth <? d); try (by intros s Hs).
  do 4 refine_step. case_if; refine_step; [|apply IH].
  destruct (visit_items _ _ _ _) as [acc' go]. destruct go; [apply IH|auto with btrfs].
Qed.

Lemma collectPrefixItems_like root o t :
  sm_refines inv (collectPrefixItems rdn root o t)
    (sm_run (collectPrefixItems (pure_reader rn) root o t)).
Proof using HR.
  unfold collectPrefixItems. rewrite sm_run_bind. apply sm_refines_bind.
  - apply walkPrefixLeaves_loop_like.
  - intros out _. destruct out; auto with btrfs.
Qed.
End Transparency.

(** The node cache is transparent: from any coherent cache state, the exact
    search, the prefix search and the multi-leaf prefix scan return exactly what
    they return when every node is read from the device, and leave the cache
    coherent; a fresh cache, which [reader] installs after a generation change
    or an invalidation, is coherent. *)
Theorem node_cache_transparent `{SafeIO} ReadAt partOff sb cache root o t f :
  let direct := pure_reader (readNodeUncached ReadAt partOff sb) in
  let cached := readNode ReadAt partOff sb in
  let inv := coherent ReadAt partOff sb in
  inv cache ->
  ((searchTree cached root o t f cache).2 = sm_run (searchTree direct root o t f) /\
   inv (searchTree cached root o t f cache).1) /\
  ((searchTreePrefix cached root o t cache).2 = sm_run (searchTreePrefix direct root o t) /\
   inv (searchTreePrefix cached root o t cache).1) /\
  ((collectPrefixItems cached root o t cache).2 = sm_run (collectPrefixItems direct root o t) /\
   inv (collectPrefixItems cached root o t cache).1) /\
  (forall gen, match cache with Some c => cr_builtGen c <> gen | None => True end ->
     inv (Some (reader cache gen))).
Proof.
  cbn zeta. intros Hc. split; [|split; [|split]].
  - exact (searchTree_loop_like (coherent ReadAt partOff sb) _ _ _ _ _ _ _ _ _ _ cache Hc).
  - exact (searchTreePrefix_loop_like (coherent ReadAt partOff sb) _ _ _ _ _ _ _ _ _ cache Hc).
  - exact (collectPrefixItems_like (coherent ReadAt partOff sb) _ _ _ _ _ cache Hc).
  - intros gen Hg. unfold reader. destruct cache as [c|]; [|apply coherent_new].
    case_if; [apply coherent_new|]. done.
Qed.

(** ** Walks over untrusted nodes *)
Lemma parseNodeHeader_Ok buf :
  nodeHdrSize <= blen buf ->
  parseNodeHeader buf = Ok (NodeHeader (rd 8 buf 0x30) (rd 4 buf 0x60) (rd 1 buf 0x64)).
Proof.
  intros Hb. unfold parseNodeHeader. repeat (rewrite get_le_Ok by hdr_lia; cbn [mbind outcome_bind]). done.
Qed.

Definition hdr_of (buf : bytes) : nodeHeader :=
  NodeHeader (rd 8 buf 0x30) (rd 4 buf 0x60) (rd 1 buf 0x64).

Lemma hdr_of_bounds buf : 0 <= hdr_nItems (hdr_of buf) < 2 ^ 32 /\ 0 <= hdr_level (hdr_of buf) < 256.
Proof. pose proof (rd_range 4 buf 0x60). pose proof (rd_range 1 buf 0x64). cbn in *. lia. Qed.

Lemma hdr_nItems_nonneg buf : 0 <= hdr_nItems (hdr_of buf).
Proof. pose proof (hdr_of_bounds buf). lia. Qed.

Lemma scan_ptrs_safe fuel buf n stop i :
  0 <= i -> Z.min n ((blen buf - nodeHdrSize) / keyPtrSize) - i <= Z.of_nat fuel ->
  safe_with (scan_ptrs fuel buf n stop i) (fun l => Forall is_u64 l).
Proof.
  revert i. induction fuel as [|fuel IH]; intros i Hi Hfuel; cbn [scan_ptrs];
    pose proof (Z.mul_succ_div_gt (blen buf - nodeHdrSize) keyPtrSize ltac:(hdr_lia));
    (case_if; [constructor|]); (case_if; [constructor|]); [exfalso; hdr_lia|].
  rewrite readKey_Ok by hdr_lia. cbn [mbind outcome_bind]. case_if; [constructor|].
  rewrite get_le_Ok by hdr_lia. cbn [mbind outcome_bind].
  apply (safe_with_bind _ _ (fun l => Forall is_u64 l)); [apply IH; lia|].
  intros l Hl. cbn. constructor; [|done]. pose proof (rd_range 8 buf (nodeHdrSize + i * keyPtrSize + 17)).
  unfold is_u64. cbn in *. lia.
Qed.

Lemma child_ptrs_safe buf n stop :
  nodeHdrSize <= blen buf -> 0 <= n ->
  safe_with (child_ptrs buf n stop) (fun l => Forall is_u64 l).
Proof.
  intros Hb Hn. apply scan_ptrs_safe; [lia|]. unfold itemsThatFit.
  rewrite Z.quot_div_nonneg by hdr_lia.
  pose proof (Z.div_pos (blen buf - nodeHdrSize) keyPtrSize). repeat case_if; hdr_lia.
Qed.

Lemma parseLeafItems_safe buf n :
  nodeHdrSize <= blen buf -> 0 <= n -> safe_with (parseLeafItems buf n) (Forall (fun it => key_ok (it_k it))).
Proof.
  intros Hb Hn. destruct (parseLeafItems_loop_Ok (Z.to_nat (itemsThatFit buf n itemSize)) buf n 0)
    as (l&E&_&K); [lia| |unfold parseLeafItems; by rewrite E].
  rewrite itemsThatFit_Z by done. pose proof (Z.div_pos (blen buf - nodeHdrSize) itemSize). hdr_lia.
Qed.

(** A reader of untrusted nodes: it may fail, but what it returns holds a header. *)
Definition node_source {S} (inv : S -> Prop) (rdn : Z -> SM S bytes) : Prop :=
  forall a, sm_safe inv (rdn a) (fun buf => nodeHdrSize <= blen buf).

Section Untrusted.
Context `{HL : SafeIOLaws} {S : Type} (inv : S -> Prop) (rdn : Z -> SM S bytes).
Context (Hrd : node_source inv rdn).

Lemma visit_check_safe v id : safe_with (visit_check v id) (fun _ => True).
Proof using HL. destruct (visit_check_cases v id) as [[-> _]|(v'&->&_)]; done. Qed.

Lemma guard_next_safe g : safe_with (guard_next g) (fun g' => guard_left g' = guard_left g - 1 /\ 0 < guard_left g).
Proof using HL. destruct (guard_next_cases g) as [[-> _]|(g'&->&?&?)]; done. Qed.

Lemma parseNodeHeader_safe buf :
  nodeHdrSize <= blen buf -> safe_with (parseNodeHeader buf) (fun h => h = hdr_of buf).
Proof using. intros Hb. by rewrite parseNodeHeader_Ok. Qed.

(** The binds every walk starts a node with: visit set, read, header. *)
Ltac walk_step :=
  eapply sm_safe_bind;
  [lazymatch goal with
   | |- sm_safe _ (sm_lift (visit_check _ _)) _ => apply sm_safe_lift, visit_check_safe
   | |- sm_safe _ (sm_lift (guard_next _)) _ => apply sm_safe_lift, guard_next_safe
   | |- sm_safe _ (sm_lift (parseNodeHeader _)) _ =>
       apply sm_safe_lift, parseNodeHeader_safe; eassumption
   | |- sm_safe _ (sm_lift (parseLeafItems _ _)) _ =>
       apply sm_safe_lift, parseLeafItems_safe; [eassumption|apply hdr_nItems_nonneg]
   | |- sm_safe _ (sm_lift (child_ptrs _ _ _)) _ =>
       apply sm_safe_lift, child_ptrs_safe; [eassumption|apply hdr_nItems_nonneg]
   | |- sm_safe _ (rdn _) _ => apply Hrd
   end
  |intros ? ?; cbn beta in *].

Lemma searchTree_loop_safe fuel seen a pl d o t f :
  maxBtreeDepth + 1 - d < Z.of_nat fuel ->
  sm_safe inv (searchTree_loop rdn fuel seen a pl d o t f) (fun _ => True).
Proof using HL Hrd.
  revert seen a pl d. induction fuel as [|fuel IH]; intros seen a pl d Hf; cbn [searchTree_loop];
    (case_if; [auto with btrfs|]); [lia|].
  do 3 walk_step. subst. case_if; [auto with btrfs|]. case_if; walk_step.
  - destruct (List.find _ _); [by apply sm_safe_ret|auto with btrfs].
  - case_if; [auto with btrfs|apply IH; lia].
Qed.

Lemma searchTreePrefix_loop_safe fuel seen a pl d o t :
  maxBtreeDepth + 1 - d < Z.of_nat fuel ->
  sm_safe inv (searchTreePrefix_loop rdn fuel seen a pl d o t) (fun _ => True).
Proof using HL Hrd.
  revert seen a pl d. induction fuel as [|fuel IH]; intros seen a pl d Hf; cbn [searchTreePrefix_loop];
    (case_if; [auto with btrfs|]); [lia|].
  do 3 walk_step. subst. case_if; [auto with btrfs|]. case_if; walk_step.
  - destruct (List.filter _ _); [auto with btrfs|by apply sm_safe_ret].
  - case_if; [auto with btrfs|apply IH; lia].
Qed.

Lemma visit_items_keeps {A} (Q : A -> Prop) (visit : A -> bytes -> leafItem -> A * bool) buf items acc :
  (forall acc buf it, key_ok (it_k it) -> Q acc -> Q (visit acc buf it).1) ->
  Forall (fun it => key_ok (it_k it)) items -> Q acc -> Q (visit_items visit buf items acc).1.
Proof using.
  intros Hv Hk. revert acc. induction Hk as [|it items Hit _ IH]; intros acc Ha; [done|].
  cbn [visit_items]. specialize (Hv acc buf it Hit Ha). destruct (visit acc buf it) as [acc' go].
  destruct go; [by apply IH|done].
Qed.

(** [Q] is what the callback keeps true of its accumulator. *)
Lemma walkPrefixLeaves_loop_safe {A} (Q : A -> Prop) fuel seen g st o t
    (visit : A -> bytes -> leafItem -> A * bool) acc :
  0 <= guard_left g < Z.of_nat fuel ->
  (forall acc buf it, key_ok (it_k it) -> Q acc -> Q (visit acc buf it).1) -> Q acc ->
  sm_safe inv (walkPrefixLeaves_loop rdn fuel seen g st o t visit acc) Q.
Proof using HL Hrd.
  intros Hf Hv. revert seen g st acc Hf. induction fuel as [|fuel IH]; intros seen g st acc Hf Ha; [lia|].
  destruct st as [|[a d] st]; cbn [walkPrefixLeaves_loop]; [by apply sm_safe_ret|].
  case_if; [auto with btrfs|]. do 4 walk_step. subst. case_if; walk_step.
  - match goal with |- context [visit_items ?v ?b ?l ?a0] => pose proof (visit_items_keeps Q v b l a0 Hv) as Hq;
      destruct (visit_items v b l a0) as [acc' go] end.
    cbn [fst] in Hq. assert (Q acc').
    { apply Hq; [|done]. apply Forall_forall. intros it Hit. apply list_elem_of_In, filter_In in Hit as [Hit _].
      match goal with H : Forall _ _ |- _ => rewrite Forall_forall in H; by apply H, list_elem_of_In end. }
    destruct go; [apply IH; [lia|done]|by apply sm_safe_ret].
  - apply IH; [lia|done].
Qed.

Lemma collectPrefixItems_safe root o t :
  sm_safe inv (collectPrefixItems rdn root o t) (Forall (fun m : rec => key_ok m.1)).
Proof using HL Hrd.
  unfold collectPrefixItems. eapply sm_safe_bind.
  - apply (walkPrefixLeaves_loop_safe (Forall (fun m : rec => key_ok m.1))).
    + rewrite NewLoopGuard_spec by (unfold maxTreeNodes; lia).
      unfold walk_fuel. rewrite Nat2Z.inj_succ, Z2Nat.id by (unfold maxTreeNodes; lia).
      unfold maxTreeNodes. lia.
    + intros acc buf it Hk Ha. apply Forall_app_2; [done|]. by constructor.
    + constructor.
  - intros out Ho. destruct out; [auto with btrfs|by apply sm_safe_ret].
Qed.

Lemma searchTree_safe root o t f : sm_safe inv (searchTree rdn root o t f) (fun _ => True).
Proof using HL Hrd. apply searchTree_loop_safe. unfold maxBtreeDepth, depth_fuel. lia. Qed.

Lemma walkNode_rec_safe fuel fn w a d :
  (forall buf items, Forall (fun it => key_ok (it_k it)) items -> sm_safe inv (fn buf items) (fun _ => True)) ->
  maxBtreeDepth + 1 - d < Z.of_nat fuel ->
  sm_safe inv (walkNode_rec rdn fuel fn w a d) (fun _ => True).
Proof using HL Hrd.
  intros Hfn. revert w a d. induction fuel as [|fuel IH]; intros w a d Hf; cbn [walkNode_rec];
    (case_if; [auto with btrfs|]); [lia|].
  do 4 walk_step. subst. case_if; walk_step.
  - eapply sm_safe_bind; [by apply Hfn|]. intros _ _. by apply sm_safe_ret.
  - match goal with H : Forall is_u64 ?l |- sm_safe _ (_ ?l ?w) _ =>
      clear H; generalize w; induction l as [|c l IHl]; intros w' end.
    + by apply sm_safe_ret.
    + case_if; [apply IHl|].
      eapply sm_safe_bind; [apply IH; lia|]. intros w'' _. apply IHl.
Qed.

Lemma walkLeaves_safe fn root :
  (forall buf items, Forall (fun it => key_ok (it_k it)) items -> sm_safe inv (fn buf items) (fun _ => True)) ->
  sm_safe inv (walkLeaves rdn root fn) (fun _ => True).
Proof using HL Hrd.
  intros Hfn. eapply sm_safe_bind; [|intros _ _; by apply sm_safe_ret].
  apply walkNode_rec_safe; [done|unfold maxBtreeDepth, depth_fuel; lia].
Qed.

Lemma addrWalk_rec_safe fuel fn w a d :
  (forall x, sm_safe inv (fn x) (fun _ => True)) ->
  maxBtreeDepth + 1 - d < Z.of_nat fuel ->
  sm_safe inv (addrWalk_rec rdn fuel fn w a d) (fun _ => True).
Proof using HL Hrd.
  intros Hfn. revert w a d. induction fuel as [|fuel IH]; intros w a d Hf; cbn [addrWalk_rec];
    (case_if; [auto with btrfs|]); [lia|].
  walk_step. destruct (visit_add w.1 a) as [seen fresh]. case_if; [by apply sm_safe_ret|].
  eapply sm_safe_bind; [apply Hfn|]. intros _ _.
  eapply sm_safe_bind; [apply sm_safe_try, Hrd|]. intros r Hr.
  destruct r as [buf|e| |]; cbn in Hr; [|by apply sm_safe_ret|done|done].
  walk_step. subst. case_if; [by apply sm_safe_ret|]. walk_step.
  match goal with H : Forall is_u64 ?l |- sm_safe _ (_ ?l ?w) _ =>
      clear H; generalize w; induction l as [|c l IHl]; intros w' end.
  + by apply sm_safe_ret.
  + case_if; [apply IHl|].
    eapply sm_safe_bind; [apply IH; lia|]. intros w'' _. apply IHl.
Qed.

Lemma walkNodeAddrs_safe fn root :
  (forall x, sm_safe inv (fn x) (fun _ => True)) ->
  sm_safe inv (walkNodeAddrs rdn root fn) (fun _ => True).
Proof using HL Hrd.
  intros Hfn. eapply sm_safe_bind; [|intros _ _; by apply sm_safe_ret].
  apply addrWalk_rec_safe; [done|unfold maxBtreeDepth, depth_fuel; lia].
Qed.
End Untrusted.


(** ** Trees on disk *)

(** Slots [i ..] of an internal node hold the (key, child address) pairs. *)
Fixpoint ptr_slots (buf : bytes) (i : Z) (ptrs : list (key * Z)) : Prop :=
  match ptrs with
  | [] => True
  | (k, p) :: ptrs =>
      key_at buf (nodeHdrSize + i * keyPtrSize) = k /\
      rd 8 buf (nodeHdrSize + i * keyPtrSize + 17) = p /\ ptr_slots buf (i + 1) ptrs
  end.

Definition internal_repr (buf : bytes) (level : Z) (ptrs : list (key * Z)) : Prop :=
  rd 4 buf 0x60 = Z.of_nat (length ptrs) /\ rd 1 buf 0x64 = level /\ 0 < level /\
  nodeHdrSize + Z.of_nat (length ptrs) * keyPtrSize <= blen buf /\ blen buf <= maxNodeSize /\
  ptr_slots buf 0 ptrs.

(** A child of an internal node: its separator key and address, the items and
    the node addresses of its subtree. *)
Record kid := Kid { kid_key : key; kid_addr : Z; kid_recs : list rec; kid_addrs : list Z }.

Definition kid_ptr (k : kid) : key * Z := (kid_key k, kid_addr k).

(** The separators cut the key space: the items of a subtree are at or above its
    own separator and below every later one. *)
Fixpoint separated (kids : list kid) : Prop :=
  match kids with
  | [] => True
  | k :: kids =>
      Forall (fun r => key_num (kid_key k) <= key_num r.1) (kid_recs k) /\
      Forall (fun k' => key_num (kid_key k) < key_num (kid_key k') /\
                   Forall (fun r => key_num r.1 < key_num (kid_key k')) (kid_recs k)) kids /\
      separated kids
  end.

(** The subtree of height [h] at address [a] holds the items [c], and its nodes
    are at the addresses [ads] (pre-order). *)
Fixpoint subtree (rn : Z -> outcome bytes) (h : nat) (a : Z) (c : list rec) (ads : list Z) : Prop :=
  match h with
  | O => exists buf, rn a = Ok buf /\ leaf_repr buf c /\ keys_sorted c /\ ads = [a]
  | S h =>
      exists buf kids, rn a = Ok buf /\ internal_repr buf (Z.of_nat (S h)) (map kid_ptr kids) /\
        c = concat (map kid_recs kids) /\ ads = a :: concat (map kid_addrs kids) /\
        separated kids /\
        Forall (fun k => kid_addr k <> 0 /\ subtree rn h (kid_addr k) (kid_recs k) (kid_addrs k)) kids
  end.

Lemma subtree_level rn h a c ads :
  subtree rn h a c ads -> exists buf, rn a = Ok buf /\ rd 1 buf 0x64 = Z.of_nat h /\ nodeHdrSize <= blen buf.
Proof.
  destruct h; intros (buf&H).
  - destruct H as (Hr&Hl&_). pose proof (leaf_repr_bounds _ _ Hl) as [? _]. exists buf.
    split_and!; [done|apply Hl|done].
  - destruct H as (kids&Hr&Hi&_). destruct Hi as (?&?&?&?&_). exists buf. split_and!; [done|done|].
    unfold keyPtrSize in *. lia.
Qed.

Lemma subtree_keys_ok rn h a c ads : subtree rn h a c ads -> Forall (fun r => key_ok r.1) c.
Proof.
  revert a c ads. induction h as [|h IH]; intros a c ads.
  - intros (buf&_&Hl&_). destruct Hl as (_&_&_&_&Hp). by eapply packed_keys_ok.
  - intros (buf&kids&_&_&->&_&_&Hk). induction Hk as [|k kids [_ Hk] _ IHk]; [constructor|].
    cbn. apply Forall_app. split; [by eapply IH|done].
Qed.

(** The pointers a scan collects: those before the first key [stop] rejects. *)
Fixpoint take_until {A} (f : A -> bool) (l : list A) : list A :=
  match l with
  | [] => []
  | x :: l => if f x then [] else x :: take_until f l
  end.

Lemma scan_ptrs_slots fuel buf stop i ptrs :
  0 <= i -> nodeHdrSize + (i + Z.of_nat (length ptrs)) * keyPtrSize <= blen buf ->
  (length ptrs <= fuel)%nat -> ptr_slots buf i ptrs ->
  scan_ptrs fuel buf (i + Z.of_nat (length ptrs)) stop i =
  Ok (map snd (take_until (fun p => stop p.1) ptrs)).
Proof.
  revert fuel i. induction ptrs as [|[k p] ptrs IH]; intros fuel i Hi Hfit Hfuel Hs.
  - destruct fuel; cbn [scan_ptrs length]; rewrite (proj2 (Z.leb_le _ _)) by lia; done.
  - destruct fuel as [|fuel]; [cbn in Hfuel; lia|]. cbn [ptr_slots] in Hs. destruct Hs as (H1&H2&H3).
    cbn [scan_ptrs length take_until] in *. case_if; [lia|]. case_if; [hdr_lia|].
    rewrite readKey_Ok by hdr_lia. cbn [mbind outcome_bind fst]. rewrite H1.
    case_if; [done|]. rewrite get_le_Ok by hdr_lia. cbn [mbind outcome_bind].
    replace (i + Z.of_nat (S (length ptrs))) with (i + 1 + Z.of_nat (length ptrs)) by lia.
    rewrite IH by (try done; hdr_lia). cbn [mbind outcome_bind map]. by rewrite H2.
Qed.

Lemma child_ptrs_internal buf level ptrs stop :
  internal_repr buf level ptrs ->
  child_ptrs buf (Z.of_nat (length ptrs)) stop = Ok (map snd (take_until (fun p => stop p.1) ptrs)).
Proof.
  intros (Hn&Hl&Hp&Hf&Hm&Hs). unfold child_ptrs. apply (scan_ptrs_slots _ _ _ 0); [lia|done| |done].
  unfold itemsThatFit. rewrite Z.quot_div_nonneg by hdr_lia.
  pose proof (Z.div_le_lower_bound (blen buf - nodeHdrSize) keyPtrSize (Z.of_nat (length ptrs))).
  repeat case_if; hdr_lia.
Qed.

Lemma take_until_map {A B} (g : A -> B) f (l : list A) :
  take_until f (map g l) = map g (take_until (fun x => f (g x)) l).
Proof. induction l as [|x l IH]; cbn; [done|]. destruct (f (g x)); cbn; [done|]. by rewrite IH. Qed.

Lemma internal_hdr buf level ptrs :
  internal_repr buf level ptrs ->
  parseNodeHeader buf = Ok (NodeHeader (rd 8 buf 0x30) (Z.of_nat (length ptrs)) level).
Proof. intros (Hn&Hl&Hp&Hf&Hm&Hs). rewrite parseNodeHeader_Ok by hdr_lia. by rewrite Hn, Hl. Qed.

Lemma ptr_slots_keys_ok buf i ptrs : ptr_slots buf i ptrs -> Forall (fun p => key_ok p.1) ptrs.
Proof.
  revert i. induction ptrs as [|[k p] ptrs IH]; intros i; [constructor|].
  intros (<-&_&H). constructor; [apply key_at_ok|by eapply IH].
Qed.

(** ** Exact search *)
Lemma leaf_map_app_lookup a b k :
  leaf_map (a ++ b) !! k = match leaf_map a !! k with Some d => Some d | None => leaf_map b !! k end.
Proof.
  induction a as [|[k' d] a IH]; [done|].
  change (leaf_map (((k', d) :: a) ++ b)) with (<[k' := d]> (leaf_map (a ++ b))).
  change (leaf_map ((k', d) :: a)) with (<[k' := d]> (leaf_map a)).
  destruct (decide (k' = k)) as [->|?]; [by rewrite !lookup_insert_eq|].
  by rewrite !lookup_insert_ne.
Qed.

Lemma leaf_map_None_key k (c : list rec) :
  Forall (fun r => key_num r.1 <> key_num k) c -> leaf_map c !! k = None.
Proof.
  intros Hf. apply not_elem_of_list_to_map_1. intros Hin.
  apply list_elem_of_fmap in Hin as (r&->&Hr). rewrite Forall_forall in Hf. by eapply Hf.
Qed.

(** The subtrees whose separator is at most [k]: the search takes the last. *)
Definition upto (k : key) (kids : list kid) : list kid :=
  take_until (fun x => 0 <? compareKey (kid_key x) k) kids.

Lemma upto_elem k kids x : x ∈ upto k kids -> x ∈ kids.
Proof.
  unfold upto. induction kids as [|y kids IH]; cbn; [done|]. case_if; [by intros ?%not_elem_of_nil|].
  rewrite !elem_of_cons. intros [->|Hx]; [by left|right; by apply IH].
Qed.

Lemma upto_le k kids x :
  key_ok k -> Forall (fun x => key_ok (kid_key x)) kids -> x ∈ upto k kids ->
  key_num (kid_key x) <= key_num k.
Proof.
  unfold upto. intros Hk. induction 1 as [|y kids Hy _ IH]; cbn; [by intros ?%not_elem_of_nil|].
  rewrite compareKey_gt by done. case_if; [by intros ?%not_elem_of_nil|].
  rewrite elem_of_cons. intros [->|Hx]; [lia|by apply IH].
Qed.

Lemma separated_lookup k kids :
  key_ok k -> Forall (fun x => key_ok (kid_key x)) kids -> separated kids ->
  leaf_map (concat (map kid_recs kids)) !! k =
  match last (upto k kids) with
  | Some x => leaf_map (kid_recs x) !! k
  | None => None
  end.
Proof.
  intros Hk. induction kids as [|x kids IH]; intros Ho Hs; [done|].
  apply Forall_cons in Ho as [Hx Ho]. cbn [separated] in Hs. destruct Hs as (H1&H2&H3).
  specialize (IH Ho H3). cbn [map concat]. unfold upto. cbn [take_until]. rewrite compareKey_gt by done.
  destruct (Z.ltb_spec (key_num k) (key_num (kid_key x))) as [Hlt|Hge].
  - cbn. apply leaf_map_None_key. apply Forall_app. split.
    + eapply Forall_impl; [exact H1|]. intros r Hr. cbn in Hr. lia.
    + clear IH. induction kids as [|y kids IHy]; [constructor|].
      apply Forall_cons in H2 as [[Hxy _] H2]. apply Forall_cons in Ho as [_ Ho].
      cbn [separated] in H3. destruct H3 as (H31&H32&H33). cbn. apply Forall_app. split; [|by apply IHy].
      eapply Forall_impl; [exact H31|]. intros r Hr. cbn in Hr. lia.
  - fold (upto k kids). rewrite leaf_map_app_lookup, IH, last_cons.
    destruct (last (upto k kids)) as [y|] eqn:El; [|by destruct (leaf_map (kid_recs x) !! k)].
    rewrite leaf_map_None_key; [done|].
    apply last_Some in El as [pre El].
    assert (Hy : y ∈ upto k kids) by (rewrite El; apply elem_of_app; right; by left).
    pose proof (upto_le k kids y Hk Ho Hy). apply upto_elem in Hy.
    rewrite Forall_forall in H2. destruct (H2 _ Hy) as [_ H4].
    eapply Forall_impl; [exact H4|]. intros r Hr. cbn in Hr. lia.
Qed.

(** The linear scan of a leaf finds the item the map holds. *)
Lemma find_has_key buf recs items k :
  map (fun it => (it_k it, item_data it buf)) items = recs ->
  match List.find (has_key (objID k) (typ k) (offset k)) items with
  | Some it => it_k it = k /\ leaf_map recs !! k = Some (item_data it buf)
  | None => leaf_map recs !! k = None
  end.
Proof.
  revert recs. induction items as [|it items IH]; intros recs <-; [done|].
  specialize (IH _ eq_refl). set (g := fun it => _) in *.
  change (leaf_map (map g (it :: items))) with (<[it_k it := item_data it buf]> (leaf_map (map g items))).
  cbn [List.find].
  change (has_key (objID k) (typ k) (offset k) it) with (key_eqb (it_k it) (objID k) (typ k) (offset k)).
  destruct (key_eqb (it_k it) _ _ _) eqn:E.
  - apply key_eqb_eq in E. split; [done|]. rewrite <- E. apply lookup_insert_eq.
  - assert (it_k it <> k) by (intros Ek; rewrite Ek, (proj2 (key_eqb_eq k k) eq_refl) in E; done).
    rewrite lookup_insert_ne by done. done.
Qed.

Section Search.
Context `{HL : SafeIOLaws} (rn : Z -> outcome bytes).

(** The nodes already visited are at a higher level than [h]. *)
Definition seen_above (seen : VisitSet) (h : nat) : Prop :=
  forall x, x ∈ visit_seen seen -> exists buf, rn x = Ok buf /\ Z.of_nat h < rd 1 buf 0x64.

Lemma fresh_below seen h a c ads :
  subtree rn h a c ads -> seen_above seen h ->
  exists seen', visit_check seen a = Ok seen' /\
    forall h', (h = S h')%nat -> seen_above seen' h'.
Proof using HL.
  intros Ht Hs. destruct (subtree_level _ _ _ _ _ Ht) as (buf&Hr&Hl&_).
  destruct (visit_check_fresh seen a) as (v'&E&Ev).
  { intros Hin. destruct (Hs _ Hin) as (buf'&Hr'&Hl'). rewrite Hr in Hr'. injection Hr' as <-. lia. }
  exists v'. split; [done|]. intros h' ->. intros x. rewrite Ev, elem_of_cons. intros [->|Hx].
  - exists buf. split; [done|lia].
  - destruct (Hs _ Hx) as (b&?&?). exists b. split; [done|lia].
Qed.

Definition search_result (k : key) (c : list rec) (o : outcome (bytes * leafItem)) : Prop :=
  match leaf_map c !! k with
  | Some d => exists buf it, o = Ok (buf, it) /\ it_k it = k /\ item_data it buf = d
  | None => o = Err ErrNotFound
  end.

Lemma searchTree_loop_correct fuel seen h a c ads pl d k :
  subtree rn h a c ads -> key_ok k -> seen_above seen h ->
  d + Z.of_nat h <= maxBtreeDepth -> (h < fuel)%nat -> (pl = -1 \/ pl = Z.of_nat h + 1) ->
  search_result k c (sm_run (searchTree_loop (pure_reader rn) fuel seen a pl d
    (objID k) (typ k) (offset k))).
Proof using HL.
  revert fuel seen a c ads pl d. induction h as [|h IH]; intros fuel seen a c ads pl d Ht Hk Hseen Hd Hf Hpl;
    (destruct fuel as [|fuel]; [lia|]); cbn [searchTree_loop];
    (case_if; [lia|]); destruct (fresh_below seen _ a c ads Ht Hseen) as (seen'&Ev&Hseen');
    rewrite sm_run_bind, sm_run_lift, Ev; cbn [mbind outcome_bind]; rewrite sm_run_bind.
  - destruct Ht as (buf&Hr&Hl&Hs&_). change (sm_run (pure_reader rn a)) with (rn a). rewrite Hr.
    cbn [mbind outcome_bind]. destruct (leaf_repr_header _ _ Hl) as [la Hh].
    rewrite sm_run_bind, sm_run_lift, Hh. cbn [mbind outcome_bind hdr_level hdr_nItems].
    case_if; [destruct Hpl; lia|]. rewrite Z.eqb_refl, sm_run_bind, sm_run_lift.
    destruct (parseLeafItems_repr _ _ Hl) as (items&E&Hi). rewrite E. cbn [mbind outcome_bind].
    pose proof (find_has_key buf c items k Hi) as Hfind. unfold search_result.
    destruct (List.find _ items) as [it|].
    + destruct Hfind as [Hik ->]. by exists buf, it.
    + by rewrite Hfind.
  - destruct Ht as (buf&kids&Hr&Hi&->&_&Hsep&Hkids). change (sm_run (pure_reader rn a)) with (rn a).
    rewrite Hr. cbn [mbind outcome_bind]. rewrite sm_run_bind, sm_run_lift, (internal_hdr _ _ _ Hi).
    cbn [mbind outcome_bind hdr_level hdr_nItems]. case_if; [destruct Hpl; lia|]. case_if; [lia|].
    rewrite sm_run_bind, sm_run_lift, (child_ptrs_internal _ _ _ _ Hi). cbn [mbind outcome_bind].
    rewrite take_until_map, map_map. cbn [kid_ptr fst snd].
    assert (Hkok : Forall (fun x => key_ok (kid_key x)) kids).
    { destruct Hi as (_&_&_&_&_&Hslots). apply ptr_slots_keys_ok in Hslots. exact (proj1 (Forall_fmap _ _ _) Hslots). }
    unfold search_result. rewrite separated_lookup by done.
    change (take_until _ kids) with (upto k kids). unfold chosen.
    change (map _ (upto k kids)) with (kid_addr <$> upto k kids). rewrite fmap_last.
    destruct (last (upto k kids)) as [x|] eqn:El; cbn; [|done].
    assert (Hx : x ∈ kids).
    { apply last_Some in El as [pre El]. apply (upto_elem k). rewrite El. apply elem_of_app. right. by left. }
    rewrite Forall_forall in Hkids. destruct (Hkids _ Hx) as [Hnz Hsub]. case_if; [done|].
    apply (IH fuel seen' _ _ (kid_addrs x)); try done; [by apply Hseen'|lia|lia|right; lia].
Qed.
End Search.

Lemma searchTree_spec `{HL : SafeIOLaws} rn h root c ads k :
  subtree rn h root c ads -> Z.of_nat h <= maxBtreeDepth -> key_ok k ->
  match leaf_map c !! k with
  | Some d => exists buf it,
      sm_run (searchTree (pure_reader rn) root (objID k) (typ k) (offset k)) = Ok (buf, it) /\
      it_k it = k /\ item_data it buf = d
  | None => sm_run (searchTree (pure_reader rn) root (objID k) (typ k) (offset k)) = Err ErrNotFound
  end.
Proof.
  intros Ht Hh Hk. apply (searchTree_loop_correct rn depth_fuel visit_empty h root c ads (-1) 0 k);
    try done; [|unfold depth_fuel, maxBtreeDepth in *; lia|by left].
  intros x Hx. rewrite visit_empty_spec in Hx. by apply not_elem_of_nil in Hx.
Qed.

(** C29. The exact B-tree search is correct: on a tree of height at most
    [maxBtreeDepth] whose nodes are on disk, searching for a key returns the
    item stored under it (with the leaf that holds its data) when the tree has
    one, and the not-found error otherwise, so a search neither misses a key
    nor returns another one. *)
Theorem searchTree_correct `{HL : SafeIOLaws} rn h root c ads k :
  subtree rn h root c ads -> Z.of_nat h <= maxBtreeDepth -> key_ok k ->
  match leaf_map c !! k with
  | Some d => exists buf it,
      sm_run (searchTree (pure_reader rn) root (objID k) (typ k) (offset k)) = Ok (buf, it) /\
      it_k it = k /\ item_data it buf = d
  | None => sm_run (searchTree (pure_reader rn) root (objID k) (typ k) (offset k)) = Err ErrNotFound
  end.
Proof. apply searchTree_spec. Qed.

(** ** Prefix scan over all leaves *)
Definition rec_prefix (o t : Z) (r : rec) : bool := (objID r.1 =? o) && (typ r.1 =? t).

(** The first key number after the prefix. *)
Definition prefix_end (o t : Z) : Z := (o * 2 ^ 8 + t + 1) * 2 ^ 64.

Lemma past_prefix_num o t k :
  key_ok k -> 0 <= t < 2 ^ 8 -> past_prefix o t k = (prefix_end o t <=? key_num k).
Proof.
  intros (?&?&?) Ht. unfold past_prefix, prefix_end, key_num.
  destruct (Z.leb_spec ((o * 2 ^ 8 + t + 1) * 2 ^ 64) ((objID k * 2 ^ 8 + typ k) * 2 ^ 64 + offset k));
    [apply orb_true_iff|apply orb_false_iff; split; [|apply andb_false_iff]].
  - destruct (Z_lt_le_dec o (objID k)); [left; by apply Z.ltb_lt|right].
    apply andb_true_iff. rewrite Z.eqb_eq, Z.ltb_lt. nia.
  - apply Z.ltb_ge. nia.
  - destruct (Z.eqb_spec (objID k) o); [right; apply Z.ltb_ge; nia|by left].
Qed.

Lemma rec_prefix_num o t r :
  key_ok r.1 -> rec_prefix o t r = true -> key_num r.1 < prefix_end o t.
Proof.
  intros (?&?&?) Hp. unfold rec_prefix in Hp. bool_prop. unfold key_num, prefix_end. nia.
Qed.

Lemma filter_none {A} (f : A -> bool) l : Forall (fun x => f x = false) l -> List.filter f l = [].
Proof. induction 1 as [|x l Hx _ IH]; cbn; [done|]. by rewrite Hx. Qed.

(** The subtrees past the prefix hold no item of the prefix. *)
Lemma separated_prefix o t kids :
  0 <= t < 2 ^ 8 -> Forall (fun x => key_ok (kid_key x)) kids ->
  Forall (fun x => Forall (fun r => key_ok r.1) (kid_recs x)) kids -> separated kids ->
  List.filter (rec_prefix o t) (concat (map kid_recs kids)) =
  List.filter (rec_prefix o t)
    (concat (map kid_recs (take_until (fun x => past_prefix o t (kid_key x)) kids))).
Proof.
  intros Ht. induction kids as [|x kids IH]; intros Hk Hr Hs; [done|].
  apply Forall_cons in Hk as [Hx Hk]. apply Forall_cons in Hr as [Hrx Hr].
  cbn [separated] in Hs. destruct Hs as (H1&H2&H3). cbn [take_until map concat].
  rewrite (past_prefix_num o t (kid_key x)) by done.
  destruct (Z.leb_spec (prefix_end o t) (key_num (kid_key x))) as [Hp|Hp].
  - cbn. apply filter_none, Forall_app.
    assert (Hout : forall y, Forall (fun r => key_ok r.1) (kid_recs y) ->
        Forall (fun r => key_num (kid_key y) <= key_num r.1) (kid_recs y) ->
        prefix_end o t <= key_num (kid_key y) -> Forall (fun r => rec_prefix o t r = false) (kid_recs y)).
    { intros y Hy Hy' Hle. apply Forall_forall. intros r Hin. rewrite Forall_forall in Hy, Hy'.
      destruct (rec_prefix o t r) eqn:E; [|done]. apply rec_prefix_num in E; [|by apply Hy].
      specialize (Hy' _ Hin). cbn in Hy'. lia. }
    split; [by apply Hout|]. clear IH. induction kids as [|y kids IHy]; [constructor|].
    apply Forall_cons in H2 as [[Hxy _] H2]. apply Forall_cons in Hr as [Hry Hr].
    apply Forall_cons in Hk as [_ Hk]. cbn [separated] in H3. destruct H3 as (H31&_&H33).
    cbn. apply Forall_app. split; [apply Hout; done || lia|by apply IHy].
  - cbn [map concat]. rewrite !List.filter_app. f_equal. by apply IH.
Qed.

Lemma visit_items_collect buf items acc :
  visit_items (fun out buf it => (out ++ [(it_k it, item_data it buf)], true)) buf items acc =
  (acc ++ map (fun it => (it_k it, item_data it buf)) items, true).
Proof.
  revert acc. induction items as [|it items IH]; intros acc; cbn; [by rewrite app_nil_r|].
  by rewrite IH, <- app_assoc.
Qed.

Lemma filter_items_recs o t buf items recs :
  map (fun it => (it_k it, item_data it buf)) items = recs ->
  map (fun it => (it_k it, item_data it buf)) (List.filter (has_prefix o t) items) =
  List.filter (rec_prefix o t) recs.
Proof.
  intros <-. induction items as [|it items IH]; cbn; [done|].
  change (rec_prefix o t (it_k it, item_data it buf)) with (has_prefix o t it).
  destruct (has_prefix o t it); cbn; by rewrite IH.
Qed.

(** A stack frame of the walk and the subtree it stands for. *)
Record frame := Frame { fr_a : Z; fr_d : Z; fr_h : nat; fr_c : list rec; fr_ads : list Z }.
Definition fr_key (f : frame) : Z * Z := (fr_a f, fr_d f).
Definition frames_ads (l : list frame) : list Z := concat (map fr_ads l).
Definition frames_recs (l : list frame) : list rec := concat (map fr_c l).

Section Prefix.
Context `{HL : SafeIOLaws} (rn : Z -> outcome bytes) (o t : Z) (Ht : 0 <= t < 2 ^ 8).

Definition frame_ok (f : frame) : Prop :=
  subtree rn (fr_h f) (fr_a f) (fr_c f) (fr_ads f) /\ fr_d f + Z.of_nat (fr_h f) <= maxBtreeDepth.

Lemma sublist_take_until {A} (f : A -> bool) l : sublist (take_until f l) l.
Proof using.
  induction l as [|x l IH]; cbn; [constructor|]. destruct (f x); [apply sublist_nil_l|by constructor].
Qed.

Lemma frames_kids_ads kids d h :
  frames_ads (map (fun x => Frame (kid_addr x) d h (kid_recs x) (kid_addrs x)) kids) =
  concat (map kid_addrs kids).
Proof using. unfold frames_ads. by rewrite map_map. Qed.

Lemma sublist_concat_map {A} (f : A -> list Z) l k : sublist l k -> sublist (concat (map f l)) (concat (map f k)).
Proof using.
  induction 1 as [|x l k _ IH|x l k _ IH]; cbn; [constructor|by apply sublist_app|].
  by apply sublist_inserts_l.
Qed.

(** The frames an internal node pushes: the children up to the prefix's end. *)
Definition push (kids : list kid) (d : Z) (h : nat) : list frame :=
  map (fun x => Frame (kid_addr x) d h (kid_recs x) (kid_addrs x))
    (take_until (fun x => past_prefix o t (kid_key x)) kids).

Lemma push_spec kids d h :
  Forall (fun x => key_ok (kid_key x)) kids -> separated kids ->
  Forall (fun k => kid_addr k <> 0 /\ subtree rn h (kid_addr k) (kid_recs k) (kid_addrs k)) kids ->
  d + Z.of_nat h <= maxBtreeDepth ->
  Forall frame_ok (push kids d h) /\
  sublist (frames_ads (push kids d h)) (concat (map kid_addrs kids)) /\
  List.filter (rec_prefix o t) (frames_recs (push kids d h)) =
  List.filter (rec_prefix o t) (concat (map kid_recs kids)).
Proof using Ht.
  intros Hk Hs Hsub Hd. unfold push. split_and!.
  - apply Forall_forall. intros fr Hfr. apply list_elem_of_fmap in Hfr as (x&->&Hx).
    assert (x ∈ kids) by (eapply elem_of_submseteq; [exact Hx|apply sublist_submseteq, sublist_take_until]).
    rewrite Forall_forall in Hsub. destruct (Hsub _ H0). split; done.
  - rewrite frames_kids_ads. apply sublist_concat_map, sublist_take_until.
  - rewrite separated_prefix; try done.
    + unfold frames_recs. by rewrite map_map.
    + eapply Forall_impl; [exact Hsub|]. intros x [_ Hx]. by eapply subtree_keys_ok.
Qed.

Lemma walk_loop_correct fuel seen g frames acc :
  Forall frame_ok frames -> NoDup (frames_ads frames) ->
  (forall x, x ∈ frames_ads frames -> x ∉ visit_seen seen) ->
  Z.of_nat (length (frames_ads frames)) <= guard_left g ->
  (length (frames_ads frames) <= fuel)%nat ->
  sm_run (walkPrefixLeaves_loop (pure_reader rn) fuel seen g (map fr_key frames) o t
    (fun out buf it => (out ++ [(it_k it, item_data it buf)], true)) acc) =
  Ok (acc ++ List.filter (rec_prefix o t) (frames_recs frames)).
Proof using HL Ht.
  revert seen g frames acc. induction fuel as [|fuel IH]; intros seen g frames acc Hok Hnd Hfresh Hg Hf;
    (destruct frames as [|[a d h c ads] frames]; [cbn; by rewrite app_nil_r|]);
    apply Forall_cons in Hok as [[Hsub Hd] Hok]; cbn [fr_h fr_a fr_c fr_ads fr_d] in *;
    assert (Hads : exists rest, ads = a :: rest)
      by (destruct h; [destruct Hsub as (?&?&?&?&->)|destruct Hsub as (?&?&?&?&?&->&_)]; by eexists);
    destruct Hads as [rest ->]; unfold frames_ads in Hnd, Hfresh, Hg, Hf; cbn [map concat fr_ads] in *;
    [cbn in Hf; lia|].
  cbn [map fr_key fr_a fr_d walkPrefixLeaves_loop]. case_if; [lia|].
  destruct (guard_next_cases g) as [[_ Hbad]|(g'&Eg&Hg'&_)]; [cbn in Hg; lia|].
  destruct (visit_check_fresh seen a) as (seen'&Ev&Hv); [apply Hfresh; by left|].
  cbn [app] in Hnd, Hfresh, Hg, Hf. apply NoDup_cons in Hnd as [Hna Hnd].
  do 2 (rewrite sm_run_bind, sm_run_lift; first [rewrite Eg|rewrite Ev]; cbn [mbind outcome_bind]).
  rewrite sm_run_bind. change (sm_run (pure_reader rn a)) with (rn a).
  assert (Hfresh' : forall l, sublist l (rest ++ concat (map fr_ads frames)) ->
     NoDup l /\ (forall x, x ∈ l -> x ∉ visit_seen seen') /\
     Z.of_nat (length l) <= guard_left g' /\ (length l <= fuel)%nat).
  { intros l Hl. pose proof (sublist_length _ _ Hl). cbn [length] in Hg, Hf. split_and!; [| |lia|lia].
    - eapply sublist_NoDup; done.
    - intros x Hx. assert (x ∈ rest ++ concat (map fr_ads frames))
        by (eapply elem_of_submseteq; [exact Hx|by apply sublist_submseteq]).
      rewrite Hv, elem_of_cons. intros [->|Hin]; [done|]. eapply Hfresh; [by right|done]. }
  destruct h as [|h].
  - destruct Hsub as (buf&Hr&Hl&Hs&[= ->]). rewrite Hr. cbn [mbind outcome_bind].
    destruct (leaf_repr_header _ _ Hl) as [la Hh].
    rewrite sm_run_bind, sm_run_lift, Hh. cbn [mbind outcome_bind hdr_level hdr_nItems].
    rewrite Z.eqb_refl, sm_run_bind, sm_run_lift.
    destruct (parseLeafItems_repr _ _ Hl) as (items&E&Hi). rewrite E. cbn [mbind outcome_bind].
    rewrite visit_items_collect, (filter_items_recs o t buf items c Hi).
    destruct (Hfresh' (concat (map fr_ads frames)) ltac:(done)) as (?&?&?&?).
    rewrite IH by done. unfold frames_recs. cbn [map concat fr_c].
    by rewrite List.filter_app, app_assoc.
  - destruct Hsub as (buf&kids&Hr&Hi&->&[= ->]&Hsep&Hkids). rewrite Hr. cbn [mbind outcome_bind].
    rewrite sm_run_bind, sm_run_lift, (internal_hdr _ _ _ Hi).
    cbn [mbind outcome_bind hdr_level hdr_nItems]. case_if; [lia|].
    rewrite sm_run_bind, sm_run_lift, (child_ptrs_internal _ _ _ _ Hi). cbn [mbind outcome_bind].
    rewrite take_until_map, map_map. cbn [kid_ptr fst snd].
    assert (Hkok : Forall (fun x => key_ok (kid_key x)) kids).
    { destruct Hi as (_&_&_&_&_&Hslots). apply ptr_slots_keys_ok in Hslots.
      exact (proj1 (Forall_fmap _ _ _) Hslots). }
    destruct (push_spec kids (d + 1) h Hkok Hsep Hkids ltac:(lia)) as (P1&P2&P3).
    replace (map _ (map _ (take_until _ kids)) ++ map fr_key frames)
      with (map fr_key (push kids (d + 1) h ++ frames)); last first.
    { rewrite map_app. f_equal. unfold push. rewrite !map_map. done. }
    destruct (Hfresh' (frames_ads (push kids (d + 1) h ++ frames))) as (?&?&?&?).
    { unfold frames_ads. rewrite map_app, concat_app. by apply sublist_app. }
    rewrite IH; [|apply Forall_app; done|done..].
    unfold frames_recs. rewrite map_app, concat_app. cbn [map concat fr_c].
    rewrite !List.filter_app. unfold frames_recs in P3. by rewrite P3.
Qed.
End Prefix.

Lemma collectPrefixItems_spec `{HL : SafeIOLaws} rn h root c ads o t :
  subtree rn h root c ads -> Z.of_nat h <= maxBtreeDepth -> NoDup ads ->
  Z.of_nat (length ads) <= maxTreeNodes -> 0 <= t < 2 ^ 8 ->
  sm_run (collectPrefixItems (pure_reader rn) root o t) =
  match List.filter (rec_prefix o t) c with
  | [] => Err ErrNotFound
  | items => Ok items
  end.
Proof.
  intros Hs Hh Hnd Hlen Ht. unfold collectPrefixItems. rewrite sm_run_bind.
  pose proof (walk_loop_correct rn o t Ht walk_fuel visit_empty (NewLoopGuard maxTreeNodes)
    [Frame root 0 h c ads] []) as Hw.
  unfold walkPrefixLeaves. unfold fr_key in Hw. cbn [map fr_a fr_d] in Hw. rewrite Hw.
  - cbn [mbind outcome_bind app]. unfold frames_recs. cbn [map concat fr_c]. rewrite app_nil_r.
    by destruct (List.filter _ c).
  - repeat constructor; done.
  - unfold frames_ads. cbn. by rewrite app_nil_r.
  - intros x _. rewrite visit_empty_spec. apply not_elem_of_nil.
  - unfold frames_ads. cbn. rewrite app_nil_r, NewLoopGuard_spec by (unfold maxTreeNodes; lia). done.
  - unfold frames_ads, walk_fuel. cbn [map concat fr_ads]. rewrite app_nil_r. lia.
Qed.

(** C30. The prefix scan is complete across leaves: on a tree whose nodes are
    distinct and at most [maxTreeNodes] many, [collectPrefixItems] returns
    exactly the items with the given object id and type, in key order and with
    their data, however many leaves they are spread over; when there is none it
    fails with the not-found error. *)
Theorem collectPrefixItems_correct `{HL : SafeIOLaws} rn h root c ads o t :
  subtree rn h root c ads -> Z.of_nat h <= maxBtreeDepth -> NoDup ads ->
  Z.of_nat (length ads) <= maxTreeNodes -> 0 <= t < 2 ^ 8 ->
  sm_run (collectPrefixItems (pure_reader rn) root o t) =
  match List.filter (rec_prefix o t) c with
  | [] => Err ErrNotFound
  | items => Ok items
  end.
Proof. apply collectPrefixItems_spec. Qed.

(** ** Examples: a root with two leaves *)
Definition ex_leaf2 : bytes :=
  match leafInsertItem (zeros 256) (Key 258 typeDirItem 5) (le_enc 4 3) with Ok b => b | _ => [] end.
Definition ex_root : bytes :=
  let b := wr 1 (wr 4 (zeros 256) 0x60 2) 0x64 1 in
  let b := wr 8 (put_key b nodeHdrSize ex_k1) (nodeHdrSize + 17) 0x2000 in
  wr 8 (put_key b (nodeHdrSize + keyPtrSize) (Key 258 0 0)) (nodeHdrSize + keyPtrSize + 17) 0x3000.
Definition ex_nodes (a : Z) : outcome bytes :=
  if a =? 0x1000 then Ok ex_root else if a =? 0x2000 then Ok ex_leaf
  else if a =? 0x3000 then Ok ex_leaf2 else Err ErrIO.
Definition ex_items : list rec := ex_recs ++ [(Key 258 typeDirItem 5, le_enc 4 3)].

Lemma ex_subtree : subtree ex_nodes 1 0x1000 ex_items [0x1000; 0x2000; 0x3000].
Proof.
  exists ex_root, [Kid ex_k1 0x2000 ex_recs [0x2000];
                   Kid (Key 258 0 0) 0x3000 [(Key 258 typeDirItem 5, le_enc 4 3)] [0x3000]].
  split; [reflexivity|]. split; [repeat split; vm_compute; first [reflexivity|discriminate]|].
  split; [reflexivity|]. split; [reflexivity|]. split.
  - cbn [separated kid_key kid_recs]. repeat first [constructor|split]; vm_compute; first [reflexivity|discriminate].
  - constructor; [|constructor; [|constructor]]; (split; [done|]).
    + exists ex_leaf. split_and!; [reflexivity|apply ex_leaf_repr|apply ex_recs_sorted|reflexivity].
    + exists ex_leaf2. split_and!; [reflexivity| |repeat constructor|reflexivity].
      repeat split; vm_compute; first [reflexivity|discriminate].
Defined.

Lemma searchTree_correct_witness :
  match leaf_map ex_items !! ex_k2 with
  | Some d => exists buf it,
      sm_run (searchTree (H := listSafeIO) (pure_reader ex_nodes) 0x1000 257 typeDirItem 77) = Ok (buf, it) /\
      it_k it = ex_k2 /\ item_data it buf = d
  | None => sm_run (searchTree (H := listSafeIO) (pure_reader ex_nodes) 0x1000 257 typeDirItem 77)
            = Err ErrNotFound
  end.
Proof.
  apply (searchTree_correct (H := listSafeIO) ex_nodes 1 0x1000 ex_items [0x1000; 0x2000; 0x3000] ex_k2 ex_subtree).
  - unfold maxBtreeDepth. lia.
  - repeat split; vm_compute; first [reflexivity|discriminate].
Defined.

Lemma collectPrefixItems_correct_witness :
  sm_run (collectPrefixItems (H := listSafeIO) (pure_reader ex_nodes) 0x1000 258 typeDirItem) =
  match List.filter (rec_prefix 258 typeDirItem) ex_items with
  | [] => Err ErrNotFound
  | items => Ok items
  end.
Proof.
  apply (collectPrefixItems_correct (H := listSafeIO) ex_nodes 1 0x1000 ex_items [0x1000; 0x2000; 0x3000]
    258 typeDirItem ex_subtree).
  - unfold maxBtreeDepth. lia.
  - apply (bool_decide_unpack _). vm_compute. reflexivity.
  - unfold maxTreeNodes. cbn. lia.
  - unfold typeDirItem. lia.
Defined.


Definition ex_ReadAt (off n : Z) : outcome bytes := ex_nodes (off - 0x1000000).
Lemma node_cache_transparent_witness :
  let direct := pure_reader (readNodeUncached (H := listSafeIO) ex_ReadAt 0 ex_sb) in
  let cached := readNode (H := listSafeIO) ex_ReadAt 0 ex_sb in
  let inv := coherent (H := listSafeIO) ex_ReadAt 0 ex_sb in
  let cache := Some (newCachedReader 7) in
  ((searchTree cached 0x1001000 257 typeDirItem 77 cache).2
     = sm_run (searchTree direct 0x1001000 257 typeDirItem 77) /\
   inv (searchTree cached 0x1001000 257 typeDirItem 77 cache).1) /\
  ((searchTreePrefix cached 0x1001000 257 typeDirItem cache).2
     = sm_run (searchTreePrefix direct 0x1001000 257 typeDirItem) /\
   inv (searchTreePrefix cached 0x1001000 257 typeDirItem cache).1) /\
  ((collectPrefixItems cached 0x1001000 257 typeDirItem cache).2
     = sm_run (collectPrefixItems direct 0x1001000 257 typeDirItem) /\
   inv (collectPrefixItems cached 0x1001000 257 typeDirItem cache).1) /\
  (forall gen, match cache with Some c => cr_builtGen c <> gen | None => True end ->
     inv (Some (reader cache gen))).
Proof.
  exact (node_cache_transparent (H := listSafeIO) ex_ReadAt 0 ex_sb (Some (newCachedReader 7)) 0x1001000
    257 typeDirItem 77 (coherent_new (H := listSafeIO) ex_ReadAt 0 ex_sb 7)).
Defined.
