(* ===== verification/Walk.v ===== *)
(** * Walks of well-formed trees (btree.go, alloc.go)

    On a tree whose nodes are on disk, the two callback walks visit every node,
    or every item, exactly once and in order: running the callback on the way is
    a fold over the addresses, or over the items. *)
From Stdlib Require Import ZArith Lia Strings.Byte.
From stdpp Require Import base option list numbers sorting gmap.
From S2P Require Import Prelude Bytes Layout SafeIO Chunk Node BTree.
Local Open Scope Z_scope.
Local Open Scope btrfs_scope.

Section Visit.
Context `{HL : SafeIOLaws} {S : Type} (rn : Z -> outcome bytes).
(** The reader may depend on the state as long as it returns the tree's nodes. *)
Context (inv : S -> Prop) (rdn : Z -> SM S bytes).
Context (Hrdn : forall a s buf, inv s -> rn a = Ok buf -> rdn a s = (s, Ok buf)).

(** A walk state from which the addresses can be visited, and the one after. *)
Definition can_visit (w : VisitSet * LoopGuard) (ads : list Z) : Prop :=
  NoDup ads /\ (forall x, x ∈ ads -> x ∉ visit_seen w.1) /\ Z.of_nat (length ads) <= guard_left w.2.
Definition visited (w w' : VisitSet * LoopGuard) (ads : list Z) : Prop :=
  guard_left w'.2 = guard_left w.2 - Z.of_nat (length ads) /\
  forall x, x ∈ visit_seen w'.1 <-> x ∈ ads \/ x ∈ visit_seen w.1.

Lemma can_visit_app w a b : can_visit w (a ++ b) -> can_visit w a.
Proof using.
  intros (Hn&Hf&Hg). apply NoDup_app in Hn as (?&_&_). rewrite length_app in Hg. split_and!; [done| |lia].
  intros x Hx. apply Hf. apply elem_of_app. by left.
Qed.

Lemma can_visit_rest w w' a b : can_visit w (a ++ b) -> visited w w' a -> can_visit w' b.
Proof using.
  intros (Hn&Hf&Hg) [Hg' Hs]. apply NoDup_app in Hn as (_&Hd&Hb). rewrite length_app in Hg. split_and!; [done| |lia].
  intros x Hx. rewrite Hs. intros [Ha|Hin]; [by apply (Hd x)|]. by apply (Hf x); [apply elem_of_app; right|].
Qed.

Lemma visited_app w w' w'' a b : visited w w' a -> visited w' w'' b -> visited w w'' (a ++ b).
Proof using.
  intros [G1 S1] [G2 S2]. split; [rewrite length_app; lia|]. intros x. rewrite S2, S1, elem_of_app. tauto.
Qed.

Lemma visited_nil w : visited w w [].
Proof using. split; [cbn; lia|]. intros x. rewrite elem_of_nil. tauto. Qed.

(** Entering a node: the guard and the visit set accept it. *)
Lemma enter w a rest :
  can_visit w (a :: rest) ->
  exists g', guard_next w.2 = Ok g' /\
    (exists v, visit_check w.1 a = Ok v /\ visited w (v, g') [a]) /\
    (visit_add w.1 a).2 = true /\ visited w ((visit_add w.1 a).1, g') [a].
Proof using HL.
  intros (_&Hf&Hg). assert (Ha : a ∉ visit_seen w.1) by (apply Hf; by left).
  destruct (guard_next_cases w.2) as [[_ Hbad]|(g'&Eg&Hg'&_)]; [cbn in Hg; lia|]. exists g'. split; [done|].
  destruct (visit_check_fresh w.1 a Ha) as (v&Ev&Hv). destruct (visit_add_spec w.1 a) as [Hb Hs].
  split_and!.
  - exists v. split; [done|]. split; [cbn; lia|]. intros x. cbn [fst]. rewrite Hv, elem_of_cons, list_elem_of_singleton. tauto.
  - rewrite Hb. by apply bool_decide_eq_true_2.
  - split; [cbn; lia|]. intros x. cbn [fst]. rewrite Hs, list_elem_of_singleton. tauto.
Qed.

Lemma take_until_all {A} (l : list A) : take_until (fun _ => false) l = l.
Proof using. induction l as [|x l IH]; cbn; [done|]. by rewrite IH. Qed.

(** The children of an internal node on disk. *)
Lemma kids_of buf h kids :
  internal_repr buf (Z.of_nat (Datatypes.S h)) (map kid_ptr kids) ->
  parseNodeHeader buf = Ok (NodeHeader (rd 8 buf 0x30) (Z.of_nat (length (map kid_ptr kids))) (Z.of_nat (Datatypes.S h))) /\
  child_ptrs buf (Z.of_nat (length (map kid_ptr kids))) (fun _ => false) = Ok (map kid_addr kids).
Proof using.
  intros Hi. split; [by apply internal_hdr|]. rewrite (child_ptrs_internal _ _ _ _ Hi).
  rewrite take_until_all, map_map. done.
Qed.

(** A loop over the children, each of which extends the walk. *)
Lemma kids_loop {T} (step : VisitSet * LoopGuard -> Z -> SM S (VisitSet * LoopGuard)) (g : S -> T -> S)
    (out : kid -> list T) (loop : list Z -> VisitSet * LoopGuard -> SM S (VisitSet * LoopGuard)) kids w s :
  (forall w, loop [] w = mret w) ->
  (forall c l w, loop (c :: l) w = if c =? 0 then loop l w else w ← step w c; loop l w) ->
  (forall k w s, k ∈ kids -> inv s -> can_visit w (kid_addrs k) ->
     exists w', step w (kid_addr k) s = (foldl g s (out k), Ok w') /\ visited w w' (kid_addrs k) /\
       inv (foldl g s (out k))) ->
  Forall (fun k => kid_addr k <> 0) kids -> inv s -> can_visit w (concat (map kid_addrs kids)) ->
  exists w', loop (map kid_addr kids) w s = (foldl g s (concat (map out kids)), Ok w') /\
    visited w w' (concat (map kid_addrs kids)) /\ inv (foldl g s (concat (map out kids))).
Proof using.
  intros Hnil Hcons Hstep Hnz. revert w s. induction Hnz as [|k kids Hk _ IH]; intros w s Hs Hv; cbn [map concat] in *.
  - exists w. rewrite Hnil. split_and!; [done|apply visited_nil|done].
  - rewrite Hcons, (proj2 (Z.eqb_neq _ _) Hk).
    destruct (Hstep k w s) as (w1&E1&V1&Hinv); [by left|done|by eapply can_visit_app|].
    destruct (IH (fun k' w s Hin => Hstep k' w s (proj2 (elem_of_cons _ _ _) (or_intror Hin))) w1
      (foldl g s (out k)) Hinv) as (w2&E2&V2&I2); [by eapply can_visit_rest|].
    exists w2. rewrite foldl_app. split_and!; [|by eapply visited_app|done].
    by rewrite (sm_bind_Ok _ _ _ _ _ E1).
Qed.

Section Addrs.
Context (fn : Z -> SM S unit) (g : S -> Z -> S).
Context (Hfn : forall a s, inv s -> fn a s = (g s a, Ok tt)) (Hg : forall s a, inv s -> inv (g s a)).

Lemma addrWalk_tree fuel h a c ads w d s :
  subtree rn h a c ads -> can_visit w ads -> d + Z.of_nat h <= maxBtreeDepth -> (h < fuel)%nat -> inv s ->
  exists w', addrWalk_rec rdn fuel fn w a d s = (foldl g s ads, Ok w') /\ visited w w' ads /\ inv (foldl g s ads).
Proof using HL Hrdn Hfn Hg.
  revert fuel a c ads w d s. induction h as [|h IH]; intros fuel a c ads w d s Ht Hv Hd Hf Hs;
    (destruct fuel as [|fuel]; [lia|]); cbn [addrWalk_rec]; (case_if; [lia|]).
  - destruct Ht as (buf&Hr&Hl&_&->). destruct (enter w a [] Hv) as (g'&Eg&_&Ef&Hvis).
    rewrite (sm_lift_Ok _ _ _ g') by done. destruct (visit_add w.1 a) as [v fresh]. cbn [fst snd] in *. subst fresh.
    cbn [negb]. rewrite (sm_bind_Ok _ _ _ (g s a) tt) by auto.
    unfold sm_try at 1, mbind at 1, SM_bind at 1. rewrite (Hrdn a _ buf) by auto.
    destruct (leaf_repr_header _ _ Hl) as [la Hh]. rewrite (sm_lift_Ok _ _ _ _ Hh). cbn [hdr_level]. rewrite Z.eqb_refl.
    exists (v, g'). split_and!; [done|done|by apply Hg].
  - destruct Ht as (buf&kids&Hr&Hi&->&->&_&Hkids). destruct (enter w a _ Hv) as (g'&Eg&_&Ef&Hvis).
    rewrite (sm_lift_Ok _ _ _ g') by done. destruct (visit_add w.1 a) as [v fresh]. cbn [fst snd] in *. subst fresh.
    cbn [negb]. rewrite (sm_bind_Ok _ _ _ (g s a) tt) by auto.
    unfold sm_try at 1, mbind at 1, SM_bind at 1. rewrite (Hrdn a _ buf) by auto.
    destruct (kids_of _ _ _ Hi) as [Hh Hc]. rewrite (sm_lift_Ok _ _ _ _ Hh). cbn [hdr_level hdr_nItems].
    rewrite (proj2 (Z.eqb_neq _ _)) by lia. rewrite (sm_lift_Ok _ _ _ _ Hc).
    match goal with |- context [?l (map kid_addr kids) (v, g')] =>
      destruct (kids_loop (fun w c => addrWalk_rec rdn fuel fn w c (d + 1)) g kid_addrs l kids (v, g') (g s a))
        as (w'&E&V&I) end; try done; try (by auto).
    + intros k w1 s1 Hk Hs1 Hv1. rewrite Forall_forall in Hkids. destruct (Hkids _ Hk) as [_ Hsub].
      apply (IH fuel _ (kid_recs k)); try done; lia.
    + eapply Forall_impl; [exact Hkids|]. by intros ? [].
    + by eapply (can_visit_rest w _ [a]).
    + exists w'. split_and!; [done|by apply (visited_app w (v, g') w' [a])|done].
Qed.

Lemma walkNodeAddrs_tree h root c ads s :
  subtree rn h root c ads -> NoDup ads -> Z.of_nat (length ads) <= maxTreeNodes ->
  Z.of_nat h <= maxBtreeDepth -> inv s -> walkNodeAddrs rdn root fn s = (foldl g s ads, Ok tt).
Proof using HL Hrdn Hfn Hg.
  intros Ht Hn Hl Hh Hs. unfold walkNodeAddrs.
  destruct (addrWalk_tree depth_fuel h root c ads (visit_empty, NewLoopGuard maxTreeNodes) 0 s) as (w'&E&_); try done.
  - split_and!; [done| |cbn [snd]; rewrite NewLoopGuard_spec; [done|unfold maxTreeNodes; lia]].
    intros x _. cbn [fst]. rewrite visit_empty_spec. apply not_elem_of_nil.
  - unfold depth_fuel, maxBtreeDepth in *. lia.
  - by rewrite (sm_bind_Ok _ _ _ _ _ E).
Qed.
End Addrs.

Section Leaves.
Context (fn : bytes -> list leafItem -> SM S unit) (g : S -> rec -> S) (ok : rec -> Prop).
Context (Hfn : forall buf items s, inv s -> Forall ok (map (fun it => (it_k it, item_data it buf)) items) ->
  fn buf items s = (foldl g s (map (fun it => (it_k it, item_data it buf)) items), Ok tt)).
Context (Hg : forall s r, ok r -> inv s -> inv (g s r)).

Lemma inv_foldl c s : Forall ok c -> inv s -> inv (foldl g s c).
Proof using Hg.
  intros Hc. revert s. induction Hc as [|r c Hr _ IH]; intros s Hs; [done|]. cbn. apply IH. by apply Hg.
Qed.

Lemma walkNode_tree fuel h a c ads w d s :
  subtree rn h a c ads -> Forall ok c -> can_visit w ads -> d + Z.of_nat h <= maxBtreeDepth -> (h < fuel)%nat -> inv s ->
  exists w', walkNode_rec rdn fuel fn w a d s = (foldl g s c, Ok w') /\ visited w w' ads /\ inv (foldl g s c).
Proof using HL Hrdn Hfn Hg.
  revert fuel a c ads w d s. induction h as [|h IH]; intros fuel a c ads w d s Ht Hok Hv Hd Hf Hs;
    (destruct fuel as [|fuel]; [lia|]); cbn [walkNode_rec]; (case_if; [lia|]).
  - destruct Ht as (buf&Hr&Hl&_&->). destruct (enter w a [] Hv) as (g'&Eg&(v&Ev&Hvis)&_).
    rewrite (sm_lift_Ok _ _ _ g'), (sm_lift_Ok _ _ _ v) by done.
    rewrite (sm_bind_Ok _ _ _ s buf) by auto. destruct (leaf_repr_header _ _ Hl) as [la Hh].
    rewrite (sm_lift_Ok _ _ _ _ Hh). cbn [hdr_level hdr_nItems]. rewrite Z.eqb_refl.
    destruct (parseLeafItems_repr _ _ Hl) as (items&E&Hi). rewrite (sm_lift_Ok _ _ _ _ E).
    rewrite (sm_bind_Ok _ _ _ (foldl g s c) tt); [|rewrite <- Hi in Hok |- *; by apply Hfn].
    exists (v, g'). split_and!; [done|done|]. by apply inv_foldl.
  - destruct Ht as (buf&kids&Hr&Hi&->&->&_&Hkids). destruct (enter w a _ Hv) as (g'&Eg&(v&Ev&Hvis)&_).
    rewrite (sm_lift_Ok _ _ _ g'), (sm_lift_Ok _ _ _ v) by done.
    rewrite (sm_bind_Ok _ _ _ s buf) by auto.
    destruct (kids_of _ _ _ Hi) as [Hh Hc]. rewrite (sm_lift_Ok _ _ _ _ Hh). cbn [hdr_level hdr_nItems].
    rewrite (proj2 (Z.eqb_neq _ _)) by lia. rewrite (sm_lift_Ok _ _ _ _ Hc).
    match goal with |- context [?l (map kid_addr kids) (v, g')] =>
      destruct (kids_loop (fun w c => walkNode_rec rdn fuel fn w c (d + 1)) g kid_recs l kids (v, g') s)
        as (w'&E&V&I) end; try done.
    + intros k w1 s1 Hk Hs1 Hv1. rewrite Forall_forall in Hkids. destruct (Hkids _ Hk) as [_ Hsub].
      apply (IH fuel _ (kid_recs k)); try done; try lia. rewrite Forall_forall in Hok |- *. intros r Hr'. apply Hok.
      apply list_elem_of_In, in_concat. exists (kid_recs k). split; [|by apply list_elem_of_In].
      apply in_map. by apply list_elem_of_In.
    + eapply Forall_impl; [exact Hkids|]. by intros ? [].
    + by eapply (can_visit_rest w _ [a]).
    + exists w'. split_and!; [done|by apply (visited_app w (v, g') w' [a])|done].
Qed.

Lemma walkLeaves_tree h root c ads s :
  subtree rn h root c ads -> Forall ok c -> NoDup ads -> Z.of_nat (length ads) <= maxTreeNodes ->
  Z.of_nat h <= maxBtreeDepth -> inv s -> walkLeaves rdn root fn s = (foldl g s c, Ok tt).
Proof using HL Hrdn Hfn Hg.
  intros Ht Hok Hn Hl Hh Hs. unfold walkLeaves.
  destruct (walkNode_tree depth_fuel h root c ads (visit_empty, NewLoopGuard maxTreeNodes) 0 s) as (w'&E&_); try done.
  - split_and!; [done| |cbn [snd]; rewrite NewLoopGuard_spec; [done|unfold maxTreeNodes; lia]].
    intros x _. cbn [fst]. rewrite visit_empty_spec. apply not_elem_of_nil.
  - unfold depth_fuel, maxBtreeDepth in *. lia.
  - by rewrite (sm_bind_Ok _ _ _ _ _ E).
Qed.
End Leaves.
End Visit.

(** ** Walks over a set of addresses

    A set [P] of addresses is closed when the children of its nodes are in it.
    The walks stay in a closed set, whatever its nodes hold. *)
Definition kids_in (P : Z -> Prop) (buf : bytes) : Prop :=
  hdr_level (hdr_of buf) <> 0 ->
  forall l, child_ptrs buf (hdr_nItems (hdr_of buf)) (fun _ => false) = Ok l -> Forall (fun c => c = 0 \/ P c) l.

Definition leaf_items (buf : bytes) (items : list leafItem) : Prop :=
  hdr_level (hdr_of buf) = 0 /\ parseLeafItems buf (hdr_nItems (hdr_of buf)) = Ok items.

Lemma kids_in_u64 buf : nodeHdrSize <= blen buf -> kids_in is_u64 buf.
Proof.
  intros Hb _ l E. pose proof (child_ptrs_safe buf (hdr_nItems (hdr_of buf)) (fun _ => false) Hb (hdr_nItems_nonneg buf)) as Hs.
  rewrite E in Hs. eapply Forall_impl; [exact Hs|]. intros c Hc. by right.
Qed.

Section Closed.
Context `{HL : SafeIOLaws} {S : Type} (pan : Prop) (inv : S -> Prop) (rdn : Z -> SM S bytes) (P : Z -> Prop).

Lemma upto_kids {W} (step : W -> Z -> SM S W) (loop : list Z -> W -> SM S W) l w :
  (forall w, loop [] w = mret w) ->
  (forall c l w, loop (c :: l) w = if c =? 0 then loop l w else w ← step w c; loop l w) ->
  (forall w c, P c -> sm_upto pan inv (step w c) (fun _ => True)) ->
  Forall (fun c => c = 0 \/ P c) l -> sm_upto pan inv (loop l w) (fun _ => True).
Proof using.
  intros Hnil Hcons Hstep Hl. revert w. induction Hl as [|c l Hc _ IH]; intros w.
  - rewrite Hnil. by apply sm_upto_ret.
  - rewrite Hcons. destruct (Z.eqb_spec c 0) as [E|E]; [apply IH|].
    destruct Hc as [Hc|Hc]; [done|]. eapply sm_upto_bind; [by apply Hstep|]. intros w' _. apply IH.
Qed.

Section Leaves.
Context (fn : bytes -> list leafItem -> SM S unit).
Context (Hrd : forall a, P a -> sm_safe inv (rdn a) (fun buf => nodeHdrSize <= blen buf /\ kids_in P buf /\
  forall items, leaf_items buf items -> Forall (fun it => key_ok (it_k it)) items ->
    sm_upto pan inv (fn buf items) (fun _ => True))).

Lemma walkNode_rec_closed fuel w a d :
  P a -> maxBtreeDepth + 1 - d < Z.of_nat fuel ->
  sm_upto pan inv (walkNode_rec rdn fuel fn w a d) (fun _ => True).
Proof using HL Hrd.
  revert w a d. induction fuel as [|fuel IH]; intros w a d Ha Hf; cbn [walkNode_rec]; (case_if; [auto with btrfs|]); [lia|].
  eapply sm_upto_bind; [apply sm_upto_lift, guard_next_safe|]. intros g _.
  eapply sm_upto_bind; [apply sm_upto_lift, visit_check_safe|]. intros v _.
  eapply sm_upto_bind; [by apply sm_upto_safe, Hrd|]. intros buf (Hb&Hk&Hfn).
  rewrite parseNodeHeader_Ok by done. fold (hdr_of buf). eapply sm_upto_bind; [by apply (sm_upto_ret _ _ (hdr_of buf) (fun h => h = hdr_of buf))|].
  intros h ->. destruct (Z.eqb_spec (hdr_level (hdr_of buf)) 0) as [El|El].
  - pose proof (parseLeafItems_safe buf _ Hb (hdr_nItems_nonneg buf)) as Hs.
    destruct (parseLeafItems _ _) as [items| | |] eqn:Ei; try done.
    eapply sm_upto_bind; [by apply (sm_upto_ret _ _ items (fun l => l = items))|]. intros l ->.
    eapply sm_upto_bind; [by apply Hfn|]. intros _ _. by apply sm_upto_ret.
  - pose proof (child_ptrs_safe buf _ (fun _ => false) Hb (hdr_nItems_nonneg buf)) as Hs. specialize (Hk El).
    destruct (child_ptrs _ _ _) as [l| | |]; try done.
    eapply sm_upto_bind; [by apply (sm_upto_ret _ _ l (fun x => x = l))|]. intros x ->.
    apply (upto_kids (fun w c => walkNode_rec rdn fuel fn w c (d + 1))); try done; [|by apply Hk].
    intros w' c Hc. apply IH; [done|lia].
Qed.

Lemma walkLeaves_closed root : P root -> sm_upto pan inv (walkLeaves rdn root fn) (fun _ => True).
Proof using HL Hrd.
  intros Hr. eapply sm_upto_bind; [|intros _ _; by apply sm_upto_ret].
  apply walkNode_rec_closed; [done|unfold maxBtreeDepth, depth_fuel; lia].
Qed.
End Leaves.

Section Addrs.
Context (fn : Z -> SM S unit) (Hfn : forall a, P a -> sm_upto pan inv (fn a) (fun _ => True)).
Context (Hrd : forall a, P a -> sm_safe inv (rdn a) (fun buf => nodeHdrSize <= blen buf /\ kids_in P buf)).

Lemma addrWalk_rec_closed fuel w a d :
  P a -> maxBtreeDepth + 1 - d < Z.of_nat fuel ->
  sm_upto pan inv (addrWalk_rec rdn fuel fn w a d) (fun _ => True).
Proof using HL Hrd Hfn.
  revert w a d. induction fuel as [|fuel IH]; intros w a d Ha Hf; cbn [addrWalk_rec]; (case_if; [auto with btrfs|]); [lia|].
  eapply sm_upto_bind; [apply sm_upto_lift, guard_next_safe|]. intros g _.
  destruct (visit_add w.1 a) as [seen fresh]. case_if; [by apply sm_upto_ret|].
  eapply sm_upto_bind; [by apply Hfn|]. intros _ _.
  eapply sm_upto_bind; [by apply sm_upto_safe, sm_safe_try, Hrd|]. intros r Hr.
  destruct r as [buf|e| |]; cbn in Hr; [|by apply sm_upto_ret|done|done]. destruct Hr as [Hb Hk].
  rewrite parseNodeHeader_Ok by done. fold (hdr_of buf). eapply sm_upto_bind; [by apply (sm_upto_ret _ _ (hdr_of buf) (fun h => h = hdr_of buf))|].
  intros h ->. destruct (Z.eqb_spec (hdr_level (hdr_of buf)) 0) as [El|El]; [by apply sm_upto_ret|].
  pose proof (child_ptrs_safe buf _ (fun _ => false) Hb (hdr_nItems_nonneg buf)) as Hs. specialize (Hk El).
  destruct (child_ptrs _ _ _) as [l| | |]; try done.
  eapply sm_upto_bind; [by apply (sm_upto_ret _ _ l (fun x => x = l))|]. intros x ->.
  apply (upto_kids (fun w c => addrWalk_rec rdn fuel fn w c (d + 1))); try done; [|by apply Hk].
  intros w' c Hc. apply IH; [done|lia].
Qed.

Lemma walkNodeAddrs_closed root : P root -> sm_upto pan inv (walkNodeAddrs rdn root fn) (fun _ => True).
Proof using HL Hrd Hfn.
  intros Hr. eapply sm_upto_bind; [|intros _ _; by apply sm_upto_ret].
  apply addrWalk_rec_closed; [done|unfold maxBtreeDepth, depth_fuel; lia].
Qed.
End Addrs.
End Closed.
