(* ===== verification/Split.v ===== *)
(** * Node construction and splitting (btree_write.go)

    The functions of the write path that work on node buffers alone: building a
    leaf from an item list, splitting a leaf around a new item, and inserting,
    removing and splitting the key pointers of an internal node.  Leaves are
    described by [leaf_repr] (Node), internal nodes by [node_repr], which also
    fixes the generation of every pointer. *)
From Stdlib Require Import ZArith Lia Strings.Byte.
From stdpp Require Import base option list numbers sorting gmap.
From S2P Require Import Prelude Bytes Layout SafeIO Chunk Node BTree.
Local Open Scope Z_scope.
Local Open Scope btrfs_scope.

(** ** Leaves *)

(** The item loop of [buildLeafFromItems]. *)
Fixpoint build_items (buf : bytes) (nodeSize writePtr i : Z) (items : list rec) : outcome bytes :=
  match items with
  | [] => Ok buf
  | (k, d) :: items =>
      let used := nodeHdrSize + (i + 1) * itemSize + (nodeSize - writePtr) in
      if nodeSize <? used + blen d then Err ErrOther else
      let writePtr := writePtr - blen d in
      buf ← copy_at buf writePtr d;
      let off := nodeHdrSize + i * itemSize in
      buf ← putKey buf off k;
      buf ← PutUint32 buf (off + 17) (writePtr - nodeHdrSize);
      buf ← PutUint32 buf (off + 21) (blen d);
      build_items buf nodeSize writePtr (i + 1) items
  end.

Definition buildLeafFromItems (headerSrc : bytes) (items : list rec) (nodeSize : Z) : outcome bytes :=
  hdr ← slice headerSrc 0 nodeHdrSize;
  _ ← slice (zeros nodeSize) 0 nodeHdrSize;
  buf ← copy_at (zeros nodeSize) 0 hdr;
  buf ← PutUint32 buf 0x60 (nrecs items);
  buf ← PutUint8 buf 0x64 0;
  build_items buf nodeSize nodeSize 0 items.

(** The loop that picks [split]: the first prefix holding [target] data bytes,
    among the prefixes that leave an item on the right. *)
Fixpoint split_loop (all : list rec) (target cum : Z) (i : nat) : nat :=
  match all with
  | [] => 1
  | [_] => 1
  | (_, d) :: rest =>
      let cum := cum + blen d in
      if target <=? cum then S i else split_loop rest target cum (S i)
  end.

Definition split_point (all : list rec) : nat :=
  let split := split_loop all (recs_size all / 2) 0 0 in
  let split := if (split <? 1)%nat then 1%nat else split in
  if (length all - 1 <? split)%nat then (length all - 1)%nat else split.

Definition splitAndInsertLeaf (leafBuf : bytes) (k : key) (data : bytes) (nodeSize : Z)
  : outcome (bytes * bytes * key) :=
  hdr ← parseNodeHeader leafBuf;
  oldItems ← parseLeafItems leafBuf (hdr_nItems hdr);
  let all := map (fun it => (it_k it, item_data it leafBuf)) oldItems in
  let all := insert_at (first_gt k all) (k, data) all in
  let split := split_point all in
  let leftItems := take split all in
  let rightItems := drop split all in
  match rightItems with
  | [] => Panic
  | (splitKey, _) :: _ =>
      leftBuf ← buildLeafFromItems leafBuf leftItems nodeSize;
      rightBuf ← buildLeafFromItems leafBuf rightItems nodeSize;
      if nodeSize - nodeHdrSize <? itemSize + blen data then Err ErrOther
      else Ok (leftBuf, rightBuf, splitKey)
  end.

(** ** Internal nodes *)
Record kp := KP { kp_k : key; kp_child : Z; kp_gen : Z }.

Definition internalCanFitOneMore (nodeBuf : bytes) : outcome bool :=
  hdr ← parseNodeHeader nodeBuf;
  let used := nodeHdrSize + hdr_nItems hdr * keyPtrSize in
  Ok (used + keyPtrSize <=? blen nodeBuf).

(** The five stores that write one key pointer. *)
Definition putKP (buf : bytes) (off : Z) (e : kp) : outcome bytes :=
  buf ← putKey buf off (kp_k e);
  buf ← PutUint64 buf (off + 17) (kp_child e);
  PutUint64 buf (off + 25) (kp_gen e).

Definition internalInsertKeyPtr (nodeBuf : bytes) (insertIdx : Z) (k : key) (childLog generation : Z)
  : outcome bytes :=
  hdr ← parseNodeHeader nodeBuf;
  let n := hdr_nItems hdr in
  src ← slice nodeBuf (nodeHdrSize + insertIdx * keyPtrSize) (nodeHdrSize + n * keyPtrSize);
  let dst := nodeHdrSize + (insertIdx + 1) * keyPtrSize in
  _ ← slice nodeBuf dst (dst + blen src);
  buf ← copy_at nodeBuf dst src;
  buf ← putKP buf (nodeHdrSize + insertIdx * keyPtrSize) (KP k childLog generation);
  PutUint32 buf 0x60 (n + 1).

Definition internalRemoveKeyPtr (nodeBuf : bytes) (idx : Z) : outcome bytes :=
  hdr ← parseNodeHeader nodeBuf;
  let n := hdr_nItems hdr in
  if (idx <? 0) || (n <=? idx) then Ok nodeBuf else
  src ← slice nodeBuf (nodeHdrSize + (idx + 1) * keyPtrSize) (nodeHdrSize + n * keyPtrSize);
  let dst := nodeHdrSize + idx * keyPtrSize in
  _ ← slice nodeBuf dst (dst + blen src);
  buf ← copy_at nodeBuf dst src;
  let tail := nodeHdrSize + (n - 1) * keyPtrSize in
  buf ← clear_range buf tail (Z.min (tail + keyPtrSize) (blen buf));
  PutUint32 buf 0x60 (n - 1).

(** All key pointers of a node. *)
Fixpoint read_kps (fuel : nat) (buf : bytes) (i : Z) : outcome (list kp) :=
  match fuel with
  | O => Ok []
  | S fuel =>
      let off := nodeHdrSize + i * keyPtrSize in
      k ← readKey buf off;
      c ← Uint64 buf (off + 17);
      g ← Uint64 buf (off + 25);
      rest ← read_kps fuel buf (i + 1);
      Ok (KP k c g :: rest)
  end.

Fixpoint put_kps (buf : bytes) (i : Z) (l : list kp) : outcome bytes :=
  match l with
  | [] => Ok buf
  | e :: l =>
      buf ← putKP buf (nodeHdrSize + i * keyPtrSize) e;
      put_kps buf (i + 1) l
  end.

(** The closure [build] of [splitAndInsertInternal]. *)
Definition build_internal (nodeBuf : bytes) (level nodeSize : Z) (entries : list kp) : outcome bytes :=
  hdr ← slice nodeBuf 0 nodeHdrSize;
  _ ← slice (zeros nodeSize) 0 nodeHdrSize;
  out ← copy_at (zeros nodeSize) 0 hdr;
  out ← PutUint32 out 0x60 (Z.of_nat (length entries));
  out ← PutUint8 out 0x64 level;
  put_kps out 0 entries.

Definition splitAndInsertInternal (nodeBuf : bytes) (insertIdx : Z) (k : key)
    (childLog generation nodeSize : Z) : outcome (bytes * bytes * key) :=
  hdr ← parseNodeHeader nodeBuf;
  all ← read_kps (Z.to_nat (hdr_nItems hdr)) nodeBuf 0;
  if (insertIdx <? 0) || (Z.of_nat (length all) <? insertIdx) then Panic else
  let all := insert_at (Z.to_nat insertIdx) (KP k childLog generation) all in
  let split := (length all / 2)%nat in
  let split := if (split <? 1)%nat then 1%nat else split in
  match drop split all with
  | [] => Panic
  | e :: _ =>
      left ← build_internal nodeBuf (hdr_level hdr) nodeSize (take split all);
      right ← build_internal nodeBuf (hdr_level hdr) nodeSize (drop split all);
      Ok (left, right, kp_k e)
  end.

(** [buildNewRoot] after it has read the left child. *)
Definition new_root (leftBuf : bytes) (leftChildLog : Z) (rightFirstKey : key)
    (rightChildLog depth generation nodeSize : Z) : outcome bytes :=
  leftHdr ← parseNodeHeader leftBuf;
  leftFirstKey ← (if hdr_level leftHdr =? 0 then
                    items ← parseLeafItems leftBuf (hdr_nItems leftHdr);
                    match items with [] => Err ErrOther | it :: _ => Ok (it_k it) end
                  else readKey leftBuf nodeHdrSize);
  build_internal leftBuf depth nodeSize
    [KP leftFirstKey leftChildLog (u64 (generation + 1)); KP rightFirstKey rightChildLog (u64 (generation + 1))].

(** ** Building a leaf *)
Lemma build_items_pack buf nodeSize c i items :
  blen buf = nodeSize -> 0 <= i -> c <= nodeSize -> nodeHdrSize + i * itemSize <= c ->
  nodeSize <= maxNodeSize -> Forall (fun r => key_ok r.1) items ->
  build_items buf nodeSize c i items =
  if nodeHdrSize + (i + nrecs items) * itemSize + recs_size items <=? c
  then pack buf c i items else Err ErrOther.
Proof.
  revert buf c i. induction items as [|[k d] items IH]; intros buf c i Hb Hi Hc Hlo Hm Hk.
  - cbn [build_items pack]. change (nrecs []) with 0. change (recs_size []) with 0.
    rewrite (proj2 (Z.leb_le _ _)) by lia. done.
  - apply Forall_cons in Hk as [Hk Hks]. cbn [fst] in Hk. rewrite nrecs_cons, recs_size_cons.
    pose proof (nrecs_nonneg items). pose proof (recs_size_nonneg items). pose proof (blen_nonneg d).
    cbn [build_items]. destruct (Z.ltb_spec nodeSize
      (nodeHdrSize + (i + 1) * itemSize + (nodeSize - c) + blen d)) as [Hno|Hfit].
    + rewrite (proj2 (Z.leb_gt _ _)) by hdr_lia. done.
    + rewrite copy_at_Ok by hdr_lia. cbn [mbind outcome_bind].
      rewrite putKey_Ok by (rewrite ?blen_splice; hdr_lia). cbn [mbind outcome_bind].
      rewrite put_le_Ok by (rewrite ?blen_put_key, ?blen_splice; rewrite ?blen_splice; hdr_lia).
      cbn [mbind outcome_bind].
      rewrite put_le_Ok; [|hdr_lia|rewrite blen_wr; rewrite ?blen_put_key, ?blen_splice;
        rewrite ?blen_splice; hdr_lia].
      cbn [mbind outcome_bind].
      destruct (put_rec_spec buf c i k d) as (L1&_); [done|hdr_lia|lia|lia|done|].
      change (wr 4 _ _ (blen d)) with (put_rec buf c i (k, d)).
      rewrite IH by (try done; hdr_lia).
      replace (nodeHdrSize + (i + 1 + nrecs items) * itemSize + recs_size items <=? c - blen d)
        with (nodeHdrSize + (i + (1 + nrecs items)) * itemSize + (blen d + recs_size items) <=? c)
        by (repeat match goal with |- context [?a <=? ?b] => destruct (Z.leb_spec a b) end; hdr_lia).
      case_if; [|done]. rewrite pack_step by hdr_lia. done.
Qed.

(** A fresh node buffer with the header of [src]. *)
Definition fresh_header (src : bytes) (nodeSize n level : Z) : bytes :=
  wr 1 (wr 4 (splice (zeros nodeSize) 0 (sub src 0 nodeHdrSize)) 0x60 n) 0x64 level.

Lemma fresh_header_spec src nodeSize n level :
  nodeHdrSize <= blen src -> nodeHdrSize <= nodeSize -> 0 <= n < 2 ^ 32 -> 0 <= level < 256 ->
  let b := fresh_header src nodeSize n level in
  (hdr ← slice src 0 nodeHdrSize;
   _ ← slice (zeros nodeSize) 0 nodeHdrSize;
   buf ← copy_at (zeros nodeSize) 0 hdr;
   buf ← PutUint32 buf 0x60 n;
   PutUint8 buf 0x64 level) = Ok b /\
  blen b = nodeSize /\ rd 4 b 0x60 = n /\ rd 1 b 0x64 = level /\ agree src b 0 0x60.
Proof.
  intros Hs Hn Hr Hl. cbn zeta. unfold fresh_header. 
  assert (Hz : blen (zeros nodeSize) = nodeSize) by (apply blen_zeros; hdr_lia).
  assert (Hh : blen (sub src 0 nodeHdrSize) = nodeHdrSize) by (apply blen_sub; hdr_lia).
  set (b0 := splice (zeros nodeSize) 0 (sub src 0 nodeHdrSize)).
  assert (L0 : blen b0 = nodeSize) by (unfold b0; rewrite blen_splice; hdr_lia).
  split_and!.
  - do 2 (rewrite slice_Ok by hdr_lia; cbn [mbind outcome_bind]). rewrite Z.sub_0_r.
    rewrite copy_at_Ok by hdr_lia. cbn [mbind outcome_bind]. fold b0.
    rewrite put_le_Ok by hdr_lia. cbn [mbind outcome_bind].
    rewrite put_le_Ok by (rewrite ?blen_wr; hdr_lia). done.
  - rewrite !blen_wr by (rewrite ?blen_wr; hdr_lia). done.
  - rewrite rd_wr_out, rd_wr_same by (rewrite ?blen_wr; hdr_lia). apply Z.mod_small. cbn. lia.
  - rewrite rd_wr_same by (rewrite ?blen_wr; hdr_lia). apply Z.mod_small. cbn. lia.
  - intros p Hp. rewrite !bnth_wr_out by (rewrite ?blen_wr; hdr_lia). unfold b0.
    rewrite bnth_splice_in by hdr_lia. rewrite bnth_sub by hdr_lia. f_equal. lia.
Qed.

Lemma buildLeafFromItems_spec src items nodeSize :
  nodeHdrSize <= blen src -> nodeHdrSize <= nodeSize <= maxNodeSize ->
  nrecs items < 2 ^ 32 -> Forall (fun r => key_ok r.1) items ->
  if leaf_need items <=? nodeSize
  then exists buf, buildLeafFromItems src items nodeSize = Ok buf /\ leaf_repr buf items /\
         blen buf = nodeSize /\ agree src buf 0 0x60
  else buildLeafFromItems src items nodeSize = Err ErrOther.
Proof.
  intros Hs Hn Hc Hk. pose proof (nrecs_nonneg items).
  destruct (fresh_header_spec src nodeSize (nrecs items) 0) as (E&L&R4&R1&Ha); [done|lia|lia|lia|].
  set (b := fresh_header src nodeSize (nrecs items) 0) in *.
  assert (Eb : buildLeafFromItems src items nodeSize = build_items b nodeSize nodeSize 0 items).
  { unfold buildLeafFromItems. revert E. destruct (slice src 0 nodeHdrSize); cbn; try done.
    destruct (slice (zeros nodeSize) 0 nodeHdrSize); cbn; try done.
    destruct (copy_at (zeros nodeSize) 0 a); cbn; try done.
    destruct (PutUint32 a1 96 (nrecs items)); cbn; try done. intros ->. done. }
  rewrite Eb, build_items_pack by (try done; hdr_lia). rewrite Z.add_0_l.
  fold (leaf_need items). destruct (Z.leb_spec (leaf_need items) nodeSize) as [Hfit|]; [|done].
  destruct (repack_spec b b items) as (b1&E1&L1&R&P&S&_&_); try done; try lia.
  rewrite L in E1. rewrite E1. exists b1. split; [done|]. destruct S as (Sl&Sa&S64). split_and!; [|lia|].
  - eapply (leaf_repr_intro _ b); try done; try lia. by rewrite L1.
  - intros p Hp. rewrite Ha by done. by apply Sa.
Qed.

(** ** Splitting a leaf *)
Lemma split_loop_spec all target cum i :
  (exists j, (S j < length all)%nat /\ split_loop all target cum i = (i + j + 1)%nat /\
     target <= cum + recs_size (take (S j) all) /\
     (j = 0%nat \/ cum + recs_size (take j all) < target)) \/
  (split_loop all target cum i = 1%nat /\
   forall j, (S j < length all)%nat -> cum + recs_size (take (S j) all) < target).
Proof.
  revert cum i. induction all as [|[k d] all IH]; intros cum i; [right; split; [done|cbn; lia]|].
  destruct all as [|r all]; [right; split; [done|cbn; lia]|].
  change (split_loop ((k, d) :: r :: all) target cum i) with
    (if target <=? cum + blen d then S i else split_loop (r :: all) target (cum + blen d) (S i)).
  assert (E1 : forall j, recs_size (take (S j) ((k, d) :: r :: all)) = blen d + recs_size (take j (r :: all)))
    by (intros; apply recs_size_cons).
  destruct (Z.leb_spec target (cum + blen d)) as [Hle|Hlt].
  - left. exists 0%nat. rewrite E1. change (recs_size (take 0 (r :: all))) with 0.
    cbn [length]. split_and!; [lia|lia|lia|by left].
  - destruct (IH (cum + blen d) (S i)) as [(j&H1&H2&H3&H4)|[H1 H2]].
    + left. exists (S j). cbn [length] in *. split_and!; [lia|rewrite H2; lia|rewrite E1; lia|].
      right. destruct j as [|j].
      * rewrite E1. change (recs_size (take 0 (r :: all))) with 0. lia.
      * rewrite E1. destruct H4 as [?|H4]; [lia|]. lia.
    + right. split; [done|]. intros j Hj. rewrite E1. destruct j as [|j].
      * change (recs_size (take 0 (r :: all))) with 0. lia.
      * cbn [length] in Hj. specialize (H2 j ltac:(cbn [length]; lia)). lia.
Qed.

(** Where the split falls: both sides get an item, and unless one item holds more
    than a quarter of the data, each side gets at least a quarter of it. *)
Lemma split_point_spec all :
  (2 <= length all)%nat ->
  (1 <= split_point all < length all)%nat /\
  (Forall (fun r => 4 * blen r.2 <= recs_size all) all ->
   recs_size all / 4 <= recs_size (take (split_point all) all) /\
   recs_size all / 4 <= recs_size (drop (split_point all) all)).
Proof.
  intros Hlen. unfold split_point. set (T := recs_size all).
  pose proof (recs_size_nonneg all) as HT. fold T in HT.
  pose proof (Z.div_mod T 2 ltac:(lia)). pose proof (Z.mod_pos_bound T 2 ltac:(lia)).
  pose proof (Z.div_mod T 4 ltac:(lia)). pose proof (Z.mod_pos_bound T 4 ltac:(lia)).
  assert (Hsplit : forall j, recs_size (take j all) + recs_size (drop j all) = T)
    by (intros j; rewrite <- recs_size_app, take_drop; done).
  assert (Hone : forall j r, all !! j = Some r -> recs_size (take (S j) all) = recs_size (take j all) + blen r.2).
  { intros j [kk dd] Hj. pose proof (take_S_r all j (kk, dd) Hj) as E. rewrite E, recs_size_app. unfold recs_size at 2. cbn. lia. }
  destruct (split_loop_spec all (T / 2) 0 0) as [(j&J1&J2&J3&J4)|[J1 J2]].
  - replace (0 + j + 1)%nat with (S j) in J2 by lia. rewrite J2.
    rewrite (proj2 (Nat.ltb_ge (S j) 1)), (proj2 (Nat.ltb_ge (length all - 1) (S j))) by lia.
    split; [lia|]. intros Hsmall.
    destruct (lookup_lt_is_Some_2 all j ltac:(lia)) as [r Hr].
    pose proof (Forall_lookup_1 _ _ _ _ Hsmall Hr) as Hq. cbn in Hq. pose proof (Hone _ _ Hr).
    specialize (Hsplit (S j)). rewrite Z.add_0_l in J3. split; [lia|].
    destruct J4 as [->|J4].
    + change (recs_size (take 0 all)) with 0 in *. lia.
    + rewrite Z.add_0_l in J4. lia.
  - rewrite J1. rewrite (proj2 (Nat.ltb_ge 1 1)), (proj2 (Nat.ltb_ge (length all - 1) 1)) by lia.
    split; [lia|]. intros Hsmall. exfalso.
    specialize (J2 (length all - 2)%nat ltac:(lia)).
    replace (S (length all - 2)) with (length all - 1)%nat in J2 by lia.
    destruct (lookup_lt_is_Some_2 all (length all - 1)%nat ltac:(lia)) as [r Hr].
    pose proof (Forall_lookup_1 _ _ _ _ Hsmall Hr) as Hq. cbn in Hq. pose proof (Hone _ _ Hr) as Ho.
    replace (S (length all - 1)) with (length all) in Ho by lia. rewrite firstn_all in Ho. fold T in Ho. lia.
Qed.

Lemma leaf_need_split j all :
  leaf_need (take j all) + leaf_need (drop j all) = leaf_need all + nodeHdrSize.
Proof. rewrite <- (take_drop j all) at 3. rewrite leaf_need_app. lia. Qed.

Lemma leaf_need_ge_item l r : r ∈ l -> nodeHdrSize + itemSize + blen r.2 <= leaf_need l.
Proof.
  intros (a&b&->)%list_elem_of_split. destruct r as [k d]. rewrite leaf_need_app, leaf_need_cons. cbn.
  pose proof (leaf_need_pos a). pose proof (leaf_need_pos b). lia.
Qed.

Lemma leaf_need_ge_nrecs l : nodeHdrSize + nrecs l * itemSize <= leaf_need l.
Proof. unfold leaf_need. pose proof (recs_size_nonneg l). lia. Qed.

Lemma split_halves_fit recs k data nodeSize :
  let all := insert_at (first_gt k recs) (k, data) recs in
  recs <> [] -> leaf_need recs <= nodeSize -> Forall (fun r => 4 * blen r.2 <= recs_size all) all ->
  leaf_need (take (split_point all) all) <= nodeSize /\ leaf_need (drop (split_point all) all) <= nodeSize.
Proof.
  intros all Hne Hfit Hsmall.
  assert (Hlen : length all = S (length recs)) by (apply length_insert_at, first_gt_le).
  assert (2 <= length all)%nat by (destruct recs; [done|cbn in *; lia]).
  destruct (split_point_spec all H) as [Hs Hq]. destruct (Hq Hsmall) as [Hl Hr].
  assert (Hneed : leaf_need all = leaf_need recs + itemSize + blen data) by apply leaf_need_insert_at.
  assert (Hdata : 4 * blen data <= recs_size all).
  { rewrite Forall_forall in Hsmall. apply (Hsmall (k, data)). unfold all. rewrite insert_at_perm. by left. }
  pose proof (leaf_need_split (split_point all) all).
  pose proof (Z.div_mod (recs_size all) 4 ltac:(lia)). pose proof (Z.mod_pos_bound (recs_size all) 4 ltac:(lia)).
  assert (1 <= nrecs (take (split_point all) all)) by (unfold nrecs; rewrite length_take; lia).
  assert (1 <= nrecs (drop (split_point all) all)) by (unfold nrecs; rewrite length_drop; lia).
  unfold leaf_need in *. hdr_lia.
Qed.

(** [first_gt] on the parsed items is [first_gt] on the items of the leaf, so the
    call splits the list the leaf stands for, the new item inserted. *)
Lemma splitAndInsertLeaf_cases leafBuf recs k data nodeSize :
  leaf_repr leafBuf recs -> recs <> [] -> key_ok k -> nodeHdrSize <= nodeSize <= maxNodeSize ->
  let all := insert_at (first_gt k recs) (k, data) recs in
  let left := take (split_point all) all in
  let right := drop (split_point all) all in
  if (leaf_need left <=? nodeSize) && (leaf_need right <=? nodeSize)
  then exists l r sk, splitAndInsertLeaf leafBuf k data nodeSize = Ok (l, r, sk) /\
         leaf_repr l left /\ leaf_repr r right /\ blen l = nodeSize /\ blen r = nodeSize /\
         agree leafBuf l 0 0x60 /\ agree leafBuf r 0 0x60 /\ exists d rest, right = (sk, d) :: rest
  else splitAndInsertLeaf leafBuf k data nodeSize = Err ErrOther.
Proof.
  intros Hr Hne Hk Hn all left right. destruct (leaf_repr_header _ _ Hr) as [la Hh].
  pose proof (leaf_repr_bounds _ _ Hr) as [Hb Hcnt].
  assert (Hko : Forall (fun r => key_ok r.1) all).
  { apply Forall_insert_at; [done|]. destruct Hr as (_&_&_&_&Hp). by eapply packed_keys_ok. }
  assert (Hlen : length all = S (length recs)) by (apply length_insert_at, first_gt_le).
  destruct (split_point_spec all) as [Hs _]; [destruct recs; [done|cbn in *; lia]|].
  assert (Hcl : nrecs left < 2 ^ 32 /\ nrecs right < 2 ^ 32).
  { assert (nodeHdrSize + nrecs recs * itemSize <= maxNodeSize) by
      (destruct Hr as (_&_&?&?&_); pose proof (recs_size_nonneg recs); lia).
    unfold left, right, nrecs in *. rewrite length_take, length_drop. hdr_lia. }
  unfold splitAndInsertLeaf. rewrite Hh. cbn [mbind outcome_bind hdr_nItems].
  destruct (parseLeafItems_repr _ _ Hr) as (items&E&Hi). rewrite E. cbn [mbind outcome_bind].
  rewrite Hi. fold all. fold left. fold right.
  destruct right as [|[sk d] rest] eqn:Er.
  { exfalso. assert (length right = 0)%nat by (by rewrite Er). unfold right in H. rewrite length_drop in H. lia. }
  rewrite <- Er in *.
  pose proof (buildLeafFromItems_spec leafBuf left nodeSize Hb Hn (proj1 Hcl) (Forall_take _ _ _ Hko)) as Bl.
  pose proof (buildLeafFromItems_spec leafBuf right nodeSize Hb Hn (proj2 Hcl) (Forall_drop _ _ _ Hko)) as Br.
  destruct (Z.leb_spec (leaf_need left) nodeSize) as [Fl|Fl]; cbn [andb];
    [|by rewrite Bl].
  destruct Bl as (l&El&Rl&Ll&Al). rewrite El. cbn [mbind outcome_bind].
  destruct (Z.leb_spec (leaf_need right) nodeSize) as [Fr|Fr]; [|by rewrite Br].
  destruct Br as (r&Er'&Rr&Lr&Ar). rewrite Er'. cbn [mbind outcome_bind].
  assert (Hin : (k, data) ∈ left ++ right).
  { unfold left, right. rewrite take_drop. unfold all. rewrite insert_at_perm. by left. }
  assert (itemSize + blen data <= nodeSize - nodeHdrSize).
  { apply elem_of_app in Hin as [Hin|Hin]; pose proof (leaf_need_ge_item _ _ Hin); cbn in *; lia. }
  case_if; [lia|]. exists l, r, sk. rewrite Er in *. split_and!; try done. by exists d, rest.
Qed.

(** Splitting a full leaf around a new item loses and reorders nothing: on
    success the two new leaves hold, in this order, exactly the old items and
    the new one, neither is empty, the separator returned is the first key of
    the right leaf and lies above every key of the left one.  The call can fail
    only when some single item holds more than a quarter of all the data. *)
Theorem splitAndInsertLeaf_refines leafBuf recs k data nodeSize :
  leaf_repr leafBuf recs -> keys_sorted recs -> recs <> [] -> key_ok k -> ~ In k (map fst recs) ->
  blen leafBuf = nodeSize ->
  match splitAndInsertLeaf leafBuf k data nodeSize with
  | Ok (l, r, sk) => exists left right,
      leaf_repr l left /\ leaf_repr r right /\ left <> [] /\ head (map fst right) = Some sk /\
      keys_sorted (left ++ right) /\ leaf_map (left ++ right) = <[k := data]> (leaf_map recs) /\
      Forall (fun x => key_num x.1 < key_num sk) left /\ blen l = nodeSize /\ blen r = nodeSize
  | Err e => e = ErrOther /\
      exists x, x ∈ (k, data) :: recs /\ recs_size recs + blen data < 4 * blen x.2
  | _ => False
  end.
Proof.
  intros Hr Hs Hne Hk Hin Hl. pose proof (leaf_repr_bounds _ _ Hr) as [Hb _].
  assert (Hmax : blen leafBuf <= maxNodeSize) by apply Hr.
  pose proof (splitAndInsertLeaf_cases leafBuf recs k data nodeSize Hr Hne Hk ltac:(lia)) as Hc.
  cbn zeta in Hc. set (all := insert_at (first_gt k recs) (k, data) recs) in *.
  assert (Hko : Forall (fun r => key_ok r.1) recs)
    by (destruct Hr as (_&_&_&_&Hp); by eapply packed_keys_ok).
  assert (Hsort : keys_sorted all) by (by apply insert_at_sorted).
  assert (Hmap : leaf_map all = <[k := data]> (leaf_map recs))
    by (apply leaf_map_insert_at; [by apply keys_sorted_NoDup|done]).
  case_if_in Hc.
  - destruct Hc as (l&r&sk&->&Rl&Rr&Ll&Lr&_&_&d&rest&Er).
    exists (take (split_point all) all), (drop (split_point all) all). rewrite take_drop.
    split_and!; try done.
    + intros E. assert (Hz : length (take (split_point all) all) = 0%nat) by by rewrite E.
      destruct (split_point_spec all) as [Hsp _].
      { unfold all. rewrite length_insert_at by apply first_gt_le. destruct recs; [done|cbn; lia]. }
      rewrite length_take in Hz. lia.
    + by rewrite Er.
    + rewrite <- (take_drop (split_point all) all) in Hsort. apply keys_sorted_app in Hsort as (_&_&Hlt).
      apply Forall_forall. intros x Hx. apply (Hlt x.1 sk).
      * apply list_elem_of_fmap. by exists x.
      * rewrite Er. by left.
  - rewrite Hc. split; [done|].
    destruct (decide (Forall (fun r => 4 * blen r.2 <= recs_size all) all)) as [Hsm|Hbig].
    + exfalso. destruct (split_halves_fit recs k data nodeSize Hne) as [F1 F2]; [|done|].
      { destruct Hr as (_&_&Hf&_). unfold leaf_need. lia. }
      fold all in F1, F2. apply Z.leb_le in F1, F2. rewrite F1, F2 in Heqb. destruct Heqb; done.
    + apply not_Forall_Exists in Hbig; [|intros r; cbn; apply _]. apply Exists_exists in Hbig as (x&Hx&Hbig).
      exists x. split; [unfold all in Hx; by rewrite insert_at_perm in Hx|].
      assert (recs_size all = recs_size recs + blen data); [|cbn in Hbig; lia].
      pose proof (leaf_need_insert_at (first_gt k recs) k data recs) as Hneed. fold all in Hneed.
      unfold leaf_need in Hneed. unfold nrecs in Hneed. unfold all at 1 in Hneed.
      rewrite length_insert_at in Hneed by apply first_gt_le. lia.
Qed.

(** ** Internal nodes *)
Fixpoint kp_slots (buf : bytes) (i : Z) (l : list kp) : Prop :=
  match l with
  | [] => True
  | e :: l =>
      let off := nodeHdrSize + i * keyPtrSize in
      key_at buf off = kp_k e /\ rd 8 buf (off + 17) = kp_child e /\ rd 8 buf (off + 25) = kp_gen e /\
      kp_slots buf (i + 1) l
  end.
Definition kp_ok (e : kp) : Prop := key_ok (kp_k e) /\ is_u64 (kp_child e) /\ is_u64 (kp_gen e).
Definition nkps (l : list kp) : Z := Z.of_nat (length l).

Definition node_repr (buf : bytes) (level : Z) (l : list kp) : Prop :=
  rd 4 buf 0x60 = nkps l /\ rd 1 buf 0x64 = level /\
  nodeHdrSize + nkps l * keyPtrSize <= blen buf /\ blen buf <= maxNodeSize /\ kp_slots buf 0 l.

Lemma nkps_cons e l : nkps (e :: l) = 1 + nkps l.
Proof. unfold nkps. cbn [length]. lia. Qed.
Lemma nkps_app a b : nkps (a ++ b) = nkps a + nkps b.
Proof. unfold nkps. rewrite length_app. lia. Qed.
Lemma nkps_nonneg l : 0 <= nkps l.
Proof. unfold nkps. lia. Qed.

Lemma nkps_to_nat l : Z.to_nat (nkps l) = length l.
Proof. unfold nkps. lia. Qed.

Lemma kp_slots_ok buf i l : kp_slots buf i l -> Forall kp_ok l.
Proof.
  revert i. induction l as [|[k c g] l IH]; intros i; [constructor|]. cbn [kp_slots kp_k kp_child kp_gen].
  intros (<-&<-&<-&H). constructor; [|by eapply IH]. split_and!; [apply key_at_ok|apply rd64_u64..].
Qed.

(** An internal node as the readers see it. *)
Lemma node_repr_internal buf level l :
  node_repr buf level l -> 0 < level ->
  internal_repr buf level (map (fun e => (kp_k e, kp_child e)) l).
Proof.
  intros (Hn&Hl&Hf&Hm&Hs) Hp. unfold internal_repr. rewrite length_map. split_and!; try done.
  clear - Hs. revert Hs. generalize 0. induction l as [|e l IH]; intros i; [done|].
  cbn [kp_slots map ptr_slots]. intros (?&?&?&?). split_and!; [done|done|by apply IH].
Qed.

Lemma node_repr_hdr buf level l :
  node_repr buf level l -> parseNodeHeader buf = Ok (NodeHeader (rd 8 buf 0x30) (nkps l) level).
Proof.
  intros (Hn&Hl&Hf&Hm&Hs). pose proof (nkps_nonneg l).
  rewrite parseNodeHeader_Ok by hdr_lia. by rewrite Hn, Hl.
Qed.

Lemma kp_slots_app buf i a b : kp_slots buf i (a ++ b) <-> kp_slots buf i a /\ kp_slots buf (i + nkps a) b.
Proof.
  revert i. induction a as [|e a IH]; intros i; cbn [app kp_slots].
  - change (nkps []) with 0. rewrite Z.add_0_r. tauto.
  - rewrite IH, nkps_cons. replace (i + 1 + nkps a) with (i + (1 + nkps a)) by lia. tauto.
Qed.

(** The same key-pointer bytes at another slot. *)
Lemma kp_slots_agree b b' i i' l :
  0 <= i -> 0 <= i' -> nodeHdrSize + (i + nkps l) * keyPtrSize <= blen b ->
  nodeHdrSize + (i' + nkps l) * keyPtrSize <= blen b' ->
  (forall p, 0 <= p < nkps l * keyPtrSize ->
     bnth b (nodeHdrSize + i * keyPtrSize + p) = bnth b' (nodeHdrSize + i' * keyPtrSize + p)) ->
  kp_slots b i l -> kp_slots b' i' l.
Proof.
  revert i i'. induction l as [|e l IH]; intros i i' Hi Hi' Hf Hf' Ha; [done|].
  rewrite nkps_cons in *. pose proof (nkps_nonneg l). cbn [kp_slots]. intros (H1&H2&H3&H4).
  assert (Hr : forall n o, 0 <= o -> o + Z.of_nat n <= 33 ->
    rd n b' (nodeHdrSize + i' * keyPtrSize + o) = rd n b (nodeHdrSize + i * keyPtrSize + o)).
  { intros n o Ho Hn. symmetry. apply rd_agree; [hdr_lia..|]. intros p Hp.
    rewrite <- !Z.add_assoc, !(Z.add_assoc nodeHdrSize). apply Ha. hdr_lia. }
  split_and!.
  - rewrite <- H1. unfold key_at. pose proof (Hr 8%nat 0 ltac:(lia) ltac:(lia)) as H0.
    rewrite !Z.add_0_r in H0. rewrite H0, !Hr by lia. done.
  - rewrite <- H2. apply Hr; lia.
  - rewrite <- H3. apply Hr; lia.
  - eapply IH; [| | | | |exact H4]; try hdr_lia. intros p Hp.
    replace (nodeHdrSize + (i + 1) * keyPtrSize + p) with (nodeHdrSize + i * keyPtrSize + (keyPtrSize + p)) by lia.
    replace (nodeHdrSize + (i' + 1) * keyPtrSize + p) with (nodeHdrSize + i' * keyPtrSize + (keyPtrSize + p)) by lia.
    apply Ha. hdr_lia.
Qed.

Definition put_kp (buf : bytes) (off : Z) (e : kp) : bytes :=
  wr 8 (wr 8 (put_key buf off (kp_k e)) (off + 17) (kp_child e)) (off + 25) (kp_gen e).

Lemma putKP_spec buf off e :
  0 <= off -> off + keyPtrSize <= blen buf -> kp_ok e ->
  putKP buf off e = Ok (put_kp buf off e) /\ blen (put_kp buf off e) = blen buf /\
  key_at (put_kp buf off e) off = kp_k e /\ rd 8 (put_kp buf off e) (off + 17) = kp_child e /\
  rd 8 (put_kp buf off e) (off + 25) = kp_gen e /\
  (forall p, 0 <= p -> (p < off \/ off + keyPtrSize <= p) -> bnth (put_kp buf off e) p = bnth buf p).
Proof.
  intros Ho Hl (Hk&Hc&Hg). unfold putKP, put_kp. unfold is_u64 in *.
  assert (L1 : blen (put_key buf off (kp_k e)) = blen buf) by (apply blen_put_key; hdr_lia).
  rewrite putKey_Ok by hdr_lia. cbn [mbind outcome_bind].
  rewrite put_le_Ok by hdr_lia. cbn [mbind outcome_bind].
  rewrite put_le_Ok by (rewrite ?blen_wr; hdr_lia). split_and!; [done| | | | |].
  - rewrite !blen_wr by (rewrite ?blen_wr; hdr_lia). done.
  - rewrite <- (key_at_put_key buf off (kp_k e)) at 2 by (try done; hdr_lia).
    apply key_at_agree; [lia|rewrite !blen_wr by (rewrite ?blen_wr; hdr_lia); hdr_lia|hdr_lia|].
    intros p Hp. rewrite !bnth_wr_out by (rewrite ?blen_wr; hdr_lia). done.
  - rewrite rd_wr_out, rd_wr_same by (rewrite ?blen_wr; hdr_lia). apply Z.mod_small. cbn. lia.
  - rewrite rd_wr_same by (rewrite ?blen_wr; hdr_lia). apply Z.mod_small. cbn. lia.
  - intros p Hp Hout. rewrite !bnth_wr_out by (rewrite ?blen_wr; hdr_lia).
    apply bnth_put_key_out; hdr_lia.
Qed.

Lemma put_kps_spec l buf i :
  0 <= i -> nodeHdrSize + (i + nkps l) * keyPtrSize <= blen buf -> Forall kp_ok l ->
  exists buf', put_kps buf i l = Ok buf' /\ blen buf' = blen buf /\ kp_slots buf' i l /\
    forall p, 0 <= p -> (p < nodeHdrSize + i * keyPtrSize \/ nodeHdrSize + (i + nkps l) * keyPtrSize <= p) ->
      bnth buf' p = bnth buf p.
Proof.
  revert buf i. induction l as [|e l IH]; intros buf i Hi Hf Hok; [by exists buf|].
  rewrite nkps_cons in *. pose proof (nkps_nonneg l). apply Forall_cons in Hok as [He Hok].
  destruct (putKP_spec buf (nodeHdrSize + i * keyPtrSize) e) as (E&L&K&C&G&F); [hdr_lia|hdr_lia|done|].
  cbn [put_kps]. rewrite E. cbn [mbind outcome_bind].
  destruct (IH (put_kp buf (nodeHdrSize + i * keyPtrSize) e) (i + 1)) as (b&Eb&Lb&Sb&Fb); [lia|hdr_lia|done|].
  exists b. split_and!; [done|lia| |].
  - cbn [kp_slots]. split_and!; [rewrite <- K; apply key_at_agree|rewrite <- C; apply rd_agree
      |rewrite <- G; apply rd_agree|done]; try hdr_lia; intros p Hp; apply Fb; hdr_lia.
  - intros p Hp Hout. rewrite Fb by hdr_lia. apply F; hdr_lia.
Qed.

Lemma read_kps_slots buf i l :
  0 <= i -> nodeHdrSize + (i + nkps l) * keyPtrSize <= blen buf -> kp_slots buf i l ->
  read_kps (length l) buf i = Ok l.
Proof.
  revert i. induction l as [|[k c g] l IH]; intros i Hi Hf Hs; [done|].
  rewrite nkps_cons in Hf. pose proof (nkps_nonneg l). cbn [kp_slots kp_k kp_child kp_gen] in Hs.
  destruct Hs as (H1&H2&H3&H4). cbn [length read_kps]. rewrite readKey_Ok by hdr_lia.
  cbn [mbind outcome_bind]. do 2 (rewrite get_le_Ok by hdr_lia; cbn [mbind outcome_bind]).
  rewrite IH by (try done; hdr_lia). cbn [mbind outcome_bind]. by rewrite H1, H2, H3.
Qed.

Lemma build_internal_spec src level nodeSize l :
  nodeHdrSize <= blen src -> nodeHdrSize + nkps l * keyPtrSize <= nodeSize -> nodeSize <= maxNodeSize ->
  0 <= level < 256 -> Forall kp_ok l ->
  exists buf, build_internal src level nodeSize l = Ok buf /\ node_repr buf level l /\
    blen buf = nodeSize /\ agree src buf 0 0x60.
Proof.
  intros Hs Hf Hm Hl Hok. pose proof (nkps_nonneg l).
  destruct (fresh_header_spec src nodeSize (nkps l) level) as (E&L&R4&R1&Ha); [done|hdr_lia..|].
  set (b := fresh_header src nodeSize (nkps l) level) in *.
  destruct (put_kps_spec l b 0) as (b1&E1&L1&S1&F1); [lia|hdr_lia|done|].
  assert (Eb : build_internal src level nodeSize l = put_kps b 0 l).
  { unfold build_internal. revert E. destruct (slice src 0 nodeHdrSize); cbn; try done.
    destruct (slice (zeros nodeSize) 0 nodeHdrSize); cbn; try done.
    destruct (copy_at (zeros nodeSize) 0 a); cbn; try done. fold (nkps l).
    destruct (PutUint32 a1 96 (nkps l)); cbn; try done. intros ->. done. }
  exists b1. rewrite Eb. split; [done|]. split; [|split; [lia|]].
  - split_and!; [| |hdr_lia|lia|done].
    + rewrite <- R4. apply rd_agree; [hdr_lia..|]. intros p Hp. apply F1; hdr_lia.
    + rewrite <- R1. apply rd_agree; [hdr_lia..|]. intros p Hp. apply F1; hdr_lia.
  - intros p Hp. rewrite Ha by done. symmetry. apply F1; hdr_lia.
Qed.

(** Both directions of moving the entries behind slot [i]. *)
Lemma internalInsertKeyPtr_spec buf level pre post k child gen :
  node_repr buf level (pre ++ post) -> kp_ok (KP k child gen) ->
  nodeHdrSize + (nkps (pre ++ post) + 1) * keyPtrSize <= blen buf ->
  exists buf', internalInsertKeyPtr buf (nkps pre) k child gen = Ok buf' /\
    node_repr buf' level (pre ++ KP k child gen :: post) /\ same_header buf buf'.
Proof.
  intros Hr Hok Hf. pose proof (node_repr_hdr _ _ _ Hr) as Hh. destruct Hr as (Hn&Hl&Hf'&Hm&Hs).
  pose proof (nkps_nonneg pre). pose proof (nkps_nonneg post). rewrite nkps_app in *.
  apply kp_slots_app in Hs as [Hs1 Hs2]. rewrite Z.add_0_l in Hs2.
  unfold internalInsertKeyPtr. rewrite Hh. cbn [mbind outcome_bind hdr_nItems].
  rewrite slice_Ok by hdr_lia. cbn [mbind outcome_bind].
  set (src := sub buf _ _). assert (Lsrc : blen src = nkps post * keyPtrSize)
    by (unfold src; rewrite blen_sub; hdr_lia).
  rewrite slice_Ok by hdr_lia. cbn [mbind outcome_bind]. rewrite copy_at_Ok by hdr_lia.
  cbn [mbind outcome_bind]. set (b1 := splice buf _ src).
  assert (L1 : blen b1 = blen buf) by (unfold b1; rewrite blen_splice; hdr_lia).
  destruct (putKP_spec b1 (nodeHdrSize + nkps pre * keyPtrSize) (KP k child gen)) as (E&L&K&C&G&F);
    [hdr_lia|hdr_lia|done|]. cbn [kp_k kp_child kp_gen] in K, C, G.
  rewrite E. cbn [mbind outcome_bind]. set (b2 := put_kp b1 _ _) in *.
  rewrite put_le_Ok by hdr_lia. eexists. split; [done|]. set (b3 := wr 4 b2 96 _).
  assert (L3 : blen b3 = blen buf) by (unfold b3; rewrite blen_wr; hdr_lia).
  assert (F3 : forall p, 0 <= p -> (p < 0x60 \/ 0x64 <= p < nodeHdrSize + nkps pre * keyPtrSize) ->
     bnth b3 p = bnth buf p).
  { intros p Hp Hout. unfold b3. rewrite bnth_wr_out by hdr_lia. rewrite F by hdr_lia.
    unfold b1. apply bnth_splice_out; hdr_lia. }
  assert (F2 : forall p, nodeHdrSize <= p -> bnth b3 p = bnth b2 p) by
    (intros p Hp; unfold b3; apply bnth_wr_out; hdr_lia).
  split.
  - split_and!.
    + unfold b3. rewrite rd_wr_same by hdr_lia. rewrite nkps_app, nkps_cons.
      rewrite Z.mod_small; hdr_lia.
    + rewrite <- Hl. apply rd_agree; [hdr_lia..|]. intros p Hp. apply F3; hdr_lia.
    + rewrite nkps_app, nkps_cons. hdr_lia.
    + lia.
    + apply kp_slots_app. split.
      * eapply (kp_slots_agree buf); [| | | | |exact Hs1]; try hdr_lia. intros p Hp. symmetry. apply F3; hdr_lia.
      * cbn [kp_slots kp_k kp_child kp_gen]. rewrite Z.add_0_l. split_and!.
        -- rewrite <- K. apply key_at_agree; [hdr_lia..|]. intros p Hp. apply F2; hdr_lia.
        -- rewrite <- C. apply rd_agree; [hdr_lia..|]. intros p Hp. apply F2; hdr_lia.
        -- rewrite <- G. apply rd_agree; [hdr_lia..|]. intros p Hp. apply F2; hdr_lia.
        -- eapply (kp_slots_agree buf); [| | | | |exact Hs2]; try hdr_lia. intros p Hp.
           rewrite F2, F by hdr_lia. unfold b1. rewrite bnth_splice_in by hdr_lia.
           unfold src. rewrite bnth_sub by hdr_lia. f_equal. lia.
  - split_and!; [done|intros p Hp; symmetry; apply F3; hdr_lia|apply F3; hdr_lia].
Qed.

Lemma internalRemoveKeyPtr_spec buf level pre e post :
  node_repr buf level (pre ++ e :: post) ->
  exists buf', internalRemoveKeyPtr buf (nkps pre) = Ok buf' /\
    node_repr buf' level (pre ++ post) /\ same_header buf buf'.
Proof.
  intros Hr. pose proof (node_repr_hdr _ _ _ Hr) as Hh. destruct Hr as (Hn&Hl&Hf'&Hm&Hs).
  pose proof (nkps_nonneg pre). pose proof (nkps_nonneg post). rewrite nkps_app, nkps_cons in *.
  apply kp_slots_app in Hs as [Hs1 Hs2]. rewrite Z.add_0_l in Hs2. cbn [kp_slots] in Hs2.
  destruct Hs2 as (_&_&_&Hs2).
  unfold internalRemoveKeyPtr. rewrite Hh. cbn [mbind outcome_bind hdr_nItems].
  case_if; [destruct Heqb; bool_prop; lia|].
  rewrite slice_Ok by hdr_lia. cbn [mbind outcome_bind].
  set (src := sub buf _ _). assert (Lsrc : blen src = nkps post * keyPtrSize)
    by (unfold src; rewrite blen_sub; hdr_lia).
  rewrite slice_Ok by hdr_lia. cbn [mbind outcome_bind]. rewrite copy_at_Ok by hdr_lia.
  cbn [mbind outcome_bind]. set (b1 := splice buf _ src).
  assert (L1 : blen b1 = blen buf) by (unfold b1; rewrite blen_splice; hdr_lia).
  replace (nkps pre + (1 + nkps post) - 1) with (nkps pre + nkps post) by lia.
  rewrite Z.min_l by hdr_lia. rewrite clear_range_Ok by hdr_lia. cbn [mbind outcome_bind].
  set (b2 := splice b1 _ (zeros _)).
  assert (Lz : blen (zeros (nodeHdrSize + (nkps pre + nkps post) * keyPtrSize + keyPtrSize -
     (nodeHdrSize + (nkps pre + nkps post) * keyPtrSize))) = keyPtrSize) by (rewrite blen_zeros; hdr_lia).
  assert (L2 : blen b2 = blen buf) by (unfold b2; rewrite blen_splice; hdr_lia).
  rewrite put_le_Ok by hdr_lia. eexists. split; [done|]. set (b3 := wr 4 b2 96 _).
  assert (L3 : blen b3 = blen buf) by (unfold b3; rewrite blen_wr; hdr_lia).
  assert (F3 : forall p, 0 <= p -> (p < 0x60 \/ 0x64 <= p < nodeHdrSize + nkps pre * keyPtrSize) ->
     bnth b3 p = bnth buf p).
  { intros p Hp Hout. unfold b3. rewrite bnth_wr_out by hdr_lia. unfold b2.
    rewrite bnth_splice_out by hdr_lia. unfold b1. apply bnth_splice_out; hdr_lia. }
  split.
  - split_and!.
    + unfold b3. rewrite rd_wr_same by hdr_lia. rewrite nkps_app.
      rewrite Z.mod_small; hdr_lia.
    + rewrite <- Hl. apply rd_agree; [hdr_lia..|]. intros p Hp. apply F3; hdr_lia.
    + rewrite nkps_app. hdr_lia.
    + lia.
    + apply kp_slots_app. split.
      * eapply (kp_slots_agree buf); [| | | | |exact Hs1]; try hdr_lia. intros p Hp. symmetry. apply F3; hdr_lia.
      * rewrite Z.add_0_l. eapply (kp_slots_agree buf); [| | | | |exact Hs2]; try hdr_lia. intros p Hp.
        unfold b3. rewrite bnth_wr_out by hdr_lia. unfold b2. rewrite bnth_splice_out by hdr_lia.
        unfold b1. rewrite bnth_splice_in by hdr_lia. unfold src. rewrite bnth_sub by hdr_lia. f_equal. lia.
  - split_and!; [done|intros p Hp; symmetry; apply F3; hdr_lia|apply F3; hdr_lia].
Qed.

Lemma internalCanFitOneMore_spec buf level l :
  node_repr buf level l ->
  internalCanFitOneMore buf = Ok (nodeHdrSize + (nkps l + 1) * keyPtrSize <=? blen buf).
Proof.
  intros Hr. unfold internalCanFitOneMore. rewrite (node_repr_hdr _ _ _ Hr). cbn [mbind outcome_bind hdr_nItems].
  do 2 f_equal. lia.
Qed.

Lemma splitAndInsertInternal_spec buf level pre post k child gen :
  node_repr buf level (pre ++ post) -> kp_ok (KP k child gen) -> pre ++ post <> [] ->
  let all := pre ++ KP k child gen :: post in
  exists l r sk left right,
    splitAndInsertInternal buf (nkps pre) k child gen (blen buf) = Ok (l, r, sk) /\
    all = left ++ right /\ left <> [] /\ head (map kp_k right) = Some sk /\
    node_repr l level left /\ node_repr r level right /\ blen l = blen buf /\ blen r = blen buf /\
    agree buf l 0 0x60 /\ agree buf r 0 0x60.
Proof.
  intros Hr Hok Hne all. pose proof (node_repr_hdr _ _ _ Hr) as Hh. destruct Hr as (Hn&Hl&Hf&Hm&Hs).
  pose proof (nkps_nonneg pre). pose proof (nkps_nonneg post). rewrite nkps_app in Hn, Hf.
  pose proof (kp_slots_ok _ _ _ Hs) as Hoks. pose proof (rd_range 1 buf 0x64) as Hlev. rewrite Hl in Hlev.
  unfold splitAndInsertInternal. rewrite Hh. cbn [mbind outcome_bind hdr_nItems hdr_level].
  rewrite !nkps_to_nat, read_kps_slots by (rewrite ?nkps_app; try done; hdr_lia).
  cbn [mbind outcome_bind].
  destruct (Z.ltb_spec (nkps pre) 0); [lia|]. cbn [orb].
  destruct (Z.ltb_spec (Z.of_nat (length (pre ++ post))) (nkps pre));
    [rewrite length_app in *; unfold nkps in *; lia|].
  replace (insert_at (length pre) (KP k child gen) (pre ++ post)) with all; last first.
  { unfold insert_at. by rewrite take_app_length, drop_app_length. }
  assert (Hlen : (2 <= length all)%nat).
  { unfold all. rewrite length_app. cbn [length].
    destruct pre; [destruct post; [done|cbn; lia]|cbn; lia]. }
  assert (Hlen' : nkps all = nkps pre + nkps post + 1) by (unfold all; rewrite nkps_app, nkps_cons; lia).
  assert (Hoka : Forall kp_ok all).
  { unfold all. apply Forall_app in Hoks as [? ?]. apply Forall_app. split; [done|]. by constructor. }
  set (s := (length all / 2)%nat). pose proof (Nat.div_mod_eq (length all) 2).
  pose proof (Nat.mod_upper_bound (length all) 2 ltac:(lia)). fold s in H2.
  rewrite (proj2 (Nat.ltb_ge s 1)) by lia.
  destruct (drop s all) as [|e rest] eqn:Ed.
  { assert (Hz : length (drop s all) = 0%nat) by by rewrite Ed. rewrite length_drop in Hz. lia. }
  rewrite <- Ed.
  assert (Hnl : nkps (take s all) <= nkps pre + nkps post /\ nkps (drop s all) <= nkps pre + nkps post).
  { unfold nkps in *. rewrite length_take, length_drop. lia. }
  destruct (build_internal_spec buf level (blen buf) (take s all)) as (l&El&Rl&Ll&Al);
    [hdr_lia|hdr_lia|done|cbn in Hlev; lia|by apply Forall_take|].
  destruct (build_internal_spec buf level (blen buf) (drop s all)) as (r&Er&Rr&Lr&Ar);
    [hdr_lia|hdr_lia|done|cbn in Hlev; lia|by apply Forall_drop|].
  rewrite El. cbn [mbind outcome_bind]. rewrite Er. cbn [mbind outcome_bind].
  exists l, r, (kp_k e), (take s all), (drop s all). rewrite take_drop.
  split; [done|]. split; [done|]. split.
  { intros E0. assert (Hz : length (take s all) = 0%nat) by by rewrite E0. rewrite length_take in Hz. lia. }
  split; [by rewrite Ed|]. done.
Qed.

(** What the split path does at an internal node is exact.  When one more key
    pointer fits, [internalInsertKeyPtr] inserts it at the given index, every
    other pointer and the header kept, and [internalRemoveKeyPtr] of that index
    undoes it; when none fits, [splitAndInsertInternal] cuts the sequence with
    the new pointer into two non-empty nodes of the same level, the separator
    being the first key of the right one. *)
Theorem internal_insert_exact buf level pre post k child gen :
  node_repr buf level (pre ++ post) -> pre ++ post <> [] -> kp_ok (KP k child gen) ->
  match internalCanFitOneMore buf with
  | Ok true => exists buf' buf'',
      internalInsertKeyPtr buf (nkps pre) k child gen = Ok buf' /\
      node_repr buf' level (pre ++ KP k child gen :: post) /\ same_header buf buf' /\
      internalRemoveKeyPtr buf' (nkps pre) = Ok buf'' /\ node_repr buf'' level (pre ++ post)
  | Ok false => exists l r sk left right,
      splitAndInsertInternal buf (nkps pre) k child gen (blen buf) = Ok (l, r, sk) /\
      pre ++ KP k child gen :: post = left ++ right /\ left <> [] /\
      head (map kp_k right) = Some sk /\ node_repr l level left /\ node_repr r level right
  | _ => False
  end.
Proof.
  intros Hr Hne Hok. rewrite (internalCanFitOneMore_spec _ _ _ Hr). case_if.
  - destruct (internalInsertKeyPtr_spec buf level pre post k child gen) as (b1&E1&R1&S1); [done|done|lia|].
    destruct (internalRemoveKeyPtr_spec b1 level pre (KP k child gen) post R1) as (b2&E2&R2&_).
    exists b1, b2. done.
  - destruct (splitAndInsertInternal_spec buf level pre post k child gen Hr Hok Hne)
      as (l&r&sk&left&right&E&Ea&Hl&Hh&Rl&Rr&_). by exists l, r, sk, left, right.
Qed.

(** The first key of a node, as [buildNewRoot] determines it. *)
Lemma new_root_leaf_spec leftBuf k0 d0 recs leftLog rightKey rightLog depth gen nodeSize :
  leaf_repr leftBuf ((k0, d0) :: recs) -> key_ok rightKey -> is_u64 leftLog -> is_u64 rightLog ->
  0 <= depth < 256 -> nodeHdrSize + 2 * keyPtrSize <= nodeSize <= maxNodeSize ->
  exists buf, new_root leftBuf leftLog rightKey rightLog depth gen nodeSize = Ok buf /\
    node_repr buf depth [KP k0 leftLog (u64 (gen + 1)); KP rightKey rightLog (u64 (gen + 1))] /\
    blen buf = nodeSize.
Proof.
  intros Hr Hk Hl Hrl Hd Hn. destruct (leaf_repr_header _ _ Hr) as [la Hh].
  pose proof (leaf_repr_bounds _ _ Hr) as [Hb _].
  unfold new_root. rewrite Hh. cbn [mbind outcome_bind hdr_level hdr_nItems]. rewrite Z.eqb_refl.
  destruct (parseLeafItems_repr _ _ Hr) as (items&E&Hi). rewrite E. cbn [mbind outcome_bind].
  destruct items as [|it items]; [done|]. cbn in Hi. injection Hi as Hi1 _ _.
  cbn [mbind outcome_bind]. rewrite Hi1.
  destruct (build_internal_spec leftBuf depth nodeSize
    [KP k0 leftLog (u64 (gen + 1)); KP rightKey rightLog (u64 (gen + 1))]) as (buf&Eb&Rb&Lb&_);
    [done|unfold nkps; cbn [length]; hdr_lia|lia|done| |by exists buf].
  assert (key_ok k0).
  { destruct Hr as (_&_&_&_&Hp). apply packed_keys_ok in Hp. by apply Forall_cons in Hp as [? _]. }
  repeat constructor; cbn; first [apply u64_range|done|apply H|apply Hk|apply Hl|apply Hrl].
Qed.

Lemma new_root_internal_spec leftBuf level e l leftLog rightKey rightLog depth gen nodeSize :
  node_repr leftBuf level (e :: l) -> 0 < level -> key_ok rightKey -> is_u64 leftLog -> is_u64 rightLog ->
  0 <= depth < 256 -> nodeHdrSize + 2 * keyPtrSize <= nodeSize <= maxNodeSize ->
  exists buf, new_root leftBuf leftLog rightKey rightLog depth gen nodeSize = Ok buf /\
    node_repr buf depth [KP (kp_k e) leftLog (u64 (gen + 1)); KP rightKey rightLog (u64 (gen + 1))] /\
    blen buf = nodeSize.
Proof.
  intros Hr Hlv Hk Hl Hrl Hd Hn. pose proof (node_repr_hdr _ _ _ Hr) as Hh.
  destruct Hr as (Hc&Hlev&Hf&Hm&Hs). rewrite nkps_cons in Hf. pose proof (nkps_nonneg l).
  pose proof (kp_slots_ok _ _ _ Hs) as Hoks. apply Forall_cons in Hoks as [[Hek _] _].
  cbn [kp_slots] in Hs. destruct Hs as (Hk0&_).
  unfold new_root. rewrite Hh. cbn [mbind outcome_bind hdr_level hdr_nItems]. case_if; [lia|].
  rewrite readKey_Ok by hdr_lia. cbn [mbind outcome_bind].
  replace (nodeHdrSize + 0 * keyPtrSize) with nodeHdrSize in Hk0 by lia. rewrite Hk0.
  destruct (build_internal_spec leftBuf depth nodeSize
    [KP (kp_k e) leftLog (u64 (gen + 1)); KP rightKey rightLog (u64 (gen + 1))]) as (buf&Eb&Rb&Lb&_);
    [hdr_lia|unfold nkps; cbn [length]; hdr_lia|lia|done| |by exists buf].
  repeat constructor; cbn; first [apply u64_range|done|apply Hek|apply Hk|apply Hl|apply Hrl].
Qed.

(** ** Examples *)
Lemma splitAndInsertLeaf_refines_witness :
  match splitAndInsertLeaf ex_leaf (Key 256 typeInodeRef 1) (le_enc 8 3) 256 with
  | Ok (l, r, sk) => exists left right,
      leaf_repr l left /\ leaf_repr r right /\ left <> [] /\ head (map fst right) = Some sk /\
      keys_sorted (left ++ right) /\
      leaf_map (left ++ right) = <[Key 256 typeInodeRef 1 := le_enc 8 3]> (leaf_map ex_recs) /\
      Forall (fun x => key_num x.1 < key_num sk) left /\ blen l = 256 /\ blen r = 256
  | Err e => e = ErrOther /\
      exists x, x ∈ (Key 256 typeInodeRef 1, le_enc 8 3) :: ex_recs /\
        recs_size ex_recs + blen (le_enc 8 3) < 4 * blen x.2
  | _ => False
  end.
Proof.
  apply (splitAndInsertLeaf_refines ex_leaf ex_recs (Key 256 typeInodeRef 1) (le_enc 8 3) 256
    ex_leaf_repr ex_recs_sorted).
  - discriminate.
  - repeat split; vm_compute; first [reflexivity|discriminate].
  - vm_compute; intuition discriminate.
  - vm_compute; reflexivity.
Defined.

Definition ex_kps : list kp := [KP ex_k1 0x2000 0; KP (Key 258 0 0) 0x3000 0].
Lemma ex_root_repr : node_repr ex_root 1 ex_kps.
Proof. repeat split; vm_compute; first [reflexivity|discriminate]. Defined.

Lemma internal_insert_exact_witness :
  match internalCanFitOneMore ex_root with
  | Ok true => exists buf' buf'',
      internalInsertKeyPtr ex_root 1 ex_k2 0x4000 8 = Ok buf' /\
      node_repr buf' 1 [KP ex_k1 0x2000 0; KP ex_k2 0x4000 8; KP (Key 258 0 0) 0x3000 0] /\
      same_header ex_root buf' /\
      internalRemoveKeyPtr buf' 1 = Ok buf'' /\ node_repr buf'' 1 ex_kps
  | Ok false => exists l r sk left right,
      splitAndInsertInternal ex_root 1 ex_k2 0x4000 8 (blen ex_root) = Ok (l, r, sk) /\
      [KP ex_k1 0x2000 0; KP ex_k2 0x4000 8; KP (Key 258 0 0) 0x3000 0] = left ++ right /\ left <> [] /\
      head (map kp_k right) = Some sk /\ node_repr l 1 left /\ node_repr r 1 right
  | _ => False
  end.
Proof.
  apply (internal_insert_exact ex_root 1 [KP ex_k1 0x2000 0] [KP (Key 258 0 0) 0x3000 0] ex_k2 0x4000 8
    ex_root_repr).
  - discriminate.
  - repeat split; vm_compute; first [reflexivity|discriminate].
Defined.

(** Four small items in a 512-byte leaf, and a new item that holds most of the data. *)
Definition ex_small (i : Z) : rec := (Key 256 typeDirIndex i, zeros 10).
Definition ex_smalls : list rec := [ex_small 1; ex_small 2; ex_small 3; ex_small 4].
Definition ex_full_leaf : bytes :=
  match buildLeafFromItems (zeros nodeHdrSize) ex_smalls 512 with Ok b => b | _ => [] end.
Definition ex_big : rec := (Key 257 typeExtentData 0, zeros 300).

(** The split point is not always found when one exists: when the last item
    holds more than half of the data no prefix reaches the target, the split
    stays at 1, and inserting it is refused ("leaf cannot hold item") although
    keeping the four old items left and the new one right fits both leaves. *)
Theorem splitAndInsertLeaf_refuses_feasible :
  leaf_repr ex_full_leaf ex_smalls /\
  leaf_need (ex_smalls ++ [ex_big]) > 512 /\
  leaf_need ex_smalls <= 512 /\ leaf_need [ex_big] <= 512 /\
  splitAndInsertLeaf ex_full_leaf ex_big.1 ex_big.2 512 = Err ErrOther.
Proof.
  split; [repeat split; vm_compute; first [reflexivity|discriminate]|].
  split_and!; vm_compute; first [reflexivity|discriminate].
Qed.
