(* ===== verification/Crc32c.v ===== *)
(** * CRC32C checksums (crc32c.go, hashDirName of write.go)

    [crc32_Update] is [hash/crc32.Update] of the Go library with the Castagnoli
    table: the running value is inverted before and after the update. *)
From Stdlib Require Import ZArith Lia Strings.Byte.
From stdpp Require Import base option list numbers sorting.
From S2P Require Import Prelude Bytes Layout.
Local Open Scope Z_scope.

(** The reflected Castagnoli polynomial. *)
Definition castagnoli : Z := 0x82F63B78.

(** One bit of the shift register. *)
Definition crc_bit (c : Z) : Z :=
  if Z.odd c then Z.lxor (Z.shiftr c 1) castagnoli else Z.shiftr c 1.
Definition crc_byte (c : Z) (b : byte) : Z := Nat.iter 8 crc_bit (Z.lxor c (Z_of_byte b)).
Definition crc_raw (c : Z) (data : bytes) : Z := fold_left crc_byte data c.

Definition not32 (z : Z) : Z := Z.lxor z 0xFFFFFFFF.
Definition crc32_Update (crc : Z) (data : bytes) : Z := not32 (crc_raw (not32 crc) data).

Definition crc32cSum (data : bytes) (seed : Z) : Z := crc32_Update seed data.
Definition btrfsCsumSeed : Z := 0.

Definition updateNodeCRC (buf : bytes) : outcome bytes :=
  body ← slice buf 32 (blen buf);
  PutUint32 buf 0 (crc32cSum body btrfsCsumSeed).

Definition updateSuperblockCRC (buf : bytes) : outcome bytes :=
  body ← slice buf 32 0x1000;
  PutUint32 buf 0 (crc32cSum body btrfsCsumSeed).

(** The name hash in the offset of a DIR_ITEM key. *)
Definition hashDirName (name : bytes) : Z := Z.lxor (crc32cSum name 1) 0xFFFFFFFF.

(** ** The register *)
Definition is_u32 (z : Z) : Prop := 0 <= z < 2 ^ 32.

Lemma lxor_bound n a b : 0 < n -> 0 <= a < 2 ^ n -> 0 <= b < 2 ^ n -> 0 <= Z.lxor a b < 2 ^ n.
Proof.
  intros Hn Ha Hb. assert (0 <= Z.lxor a b) by (apply Z.lxor_nonneg; lia).
  split; [done|]. destruct (Z.eq_dec (Z.lxor a b) 0) as [->|Hne]; [lia|].
  apply Z.log2_lt_pow2; [lia|]. pose proof (Z.log2_lxor a b ltac:(lia) ltac:(lia)).
  assert (Hlog : forall x, 0 <= x < 2 ^ n -> Z.log2 x < n).
  { intros x Hx. destruct (Z.eq_dec x 0) as [->|]; [cbn; lia|]. apply Z.log2_lt_pow2; lia. }
  pose proof (Hlog a Ha). pose proof (Hlog b Hb). lia.
Qed.

Lemma shiftr1 c : Z.shiftr c 1 = c / 2.
Proof. rewrite Z.shiftr_div_pow2 by lia. done. Qed.

Lemma crc_bit_u32 c : is_u32 c -> is_u32 (crc_bit c).
Proof.
  unfold is_u32, crc_bit. intros Hc. rewrite shiftr1.
  assert (0 <= c / 2 < 2 ^ 32) by (split; [apply Z.div_pos; lia|apply Z.div_lt_upper_bound; lia]).
  destruct (Z.odd c); [|done]. apply lxor_bound; [lia|done|]. unfold castagnoli. lia.
Qed.

(** Bit 31 of the result is the bit shifted out, so a step can be undone. *)
Lemma crc_bit_inj c c' : is_u32 c -> is_u32 c' -> crc_bit c = crc_bit c' -> c = c'.
Proof.
  unfold is_u32. intros Hc Hc'. unfold crc_bit. rewrite !shiftr1.
  assert (Hh : forall x, 0 <= x < 2 ^ 32 -> Z.testbit (x / 2) 31 = false).
  { intros x Hx. rewrite <- shiftr1, Z.shiftr_spec by lia. apply Z.bits_above_log2; [lia|].
    destruct (Z.eq_dec x 0) as [->|]; [cbn; lia|]. apply Z.log2_lt_pow2; lia. }
  assert (Hp : Z.testbit castagnoli 31 = true) by (vm_compute; reflexivity).
  pose proof (Zdiv2_odd_eqn c) as Ec. pose proof (Zdiv2_odd_eqn c') as Ec'.
  rewrite !Z.div2_div in *.
  destruct (Z.odd c) eqn:O, (Z.odd c') eqn:O'; intros E.
  - assert (c / 2 = c' / 2); [|lia].
    apply (f_equal (fun x => Z.lxor x castagnoli)) in E. by rewrite !Z.lxor_assoc, !Z.lxor_nilpotent, !Z.lxor_0_r in E.
  - exfalso. apply (f_equal (fun x => Z.testbit x 31)) in E. rewrite Z.lxor_spec, !Hh, Hp in E by lia. done.
  - exfalso. apply (f_equal (fun x => Z.testbit x 31)) in E. rewrite Z.lxor_spec, !Hh, Hp in E by lia. done.
  - lia.
Qed.

Lemma crc_bits_inj n c c' : is_u32 c -> is_u32 c' -> Nat.iter n crc_bit c = Nat.iter n crc_bit c' -> c = c'.
Proof.
  intros Hc Hc'. assert (Hu : forall m x, is_u32 x -> is_u32 (Nat.iter m crc_bit x)).
  { induction m; intros x Hx; cbn; [done|]. by apply crc_bit_u32, IHm. }
  induction n as [|n IH]; cbn; [done|]. intros E. apply IH. by apply crc_bit_inj in E; [|apply Hu..].
Qed.

Lemma byte_u32 b : is_u32 (Z_of_byte b).
Proof. pose proof (Z_of_byte_range b). unfold is_u32. lia. Qed.

Lemma crc_byte_u32 c b : is_u32 c -> is_u32 (crc_byte c b).
Proof.
  intros Hc. unfold crc_byte. pose proof (byte_u32 b) as Hb.
  assert (Hx : is_u32 (Z.lxor c (Z_of_byte b))) by (apply lxor_bound; [lia|done|done]).
  generalize 8%nat. induction n as [|n IH]; cbn; [done|]. by apply crc_bit_u32.
Qed.

Lemma lxor_cancel_l a b c : Z.lxor a b = Z.lxor a c -> b = c.
Proof.
  intros E. apply (f_equal (Z.lxor a)) in E. by rewrite <- !Z.lxor_assoc, !Z.lxor_nilpotent, !Z.lxor_0_l in E.
Qed.
Lemma lxor_cancel_r a b c : Z.lxor b a = Z.lxor c a -> b = c.
Proof. rewrite !(Z.lxor_comm _ a). apply lxor_cancel_l. Qed.

(** A byte step loses neither the register nor the byte. *)
Lemma crc_byte_inj_state c c' b : is_u32 c -> is_u32 c' -> crc_byte c b = crc_byte c' b -> c = c'.
Proof.
  intros Hc Hc' E. pose proof (byte_u32 b). apply crc_bits_inj in E; [by eapply lxor_cancel_r|apply lxor_bound..]; done.
Qed.
Lemma crc_byte_inj_byte c b b' : is_u32 c -> crc_byte c b = crc_byte c b' -> b = b'.
Proof.
  intros Hc E. pose proof (byte_u32 b). pose proof (byte_u32 b').
  apply crc_bits_inj in E; [|apply lxor_bound; done..]. apply lxor_cancel_l in E.
  rewrite <- (byte_of_Z_of_byte b), <- (byte_of_Z_of_byte b'). by rewrite E.
Qed.

Lemma crc_raw_app c a b : crc_raw c (a ++ b) = crc_raw (crc_raw c a) b.
Proof. apply fold_left_app. Qed.

Lemma crc_raw_u32 c d : is_u32 c -> is_u32 (crc_raw c d).
Proof. revert c. induction d as [|b d IH]; intros c Hc; cbn; [done|]. by apply IH, crc_byte_u32. Qed.

Lemma crc_raw_inj_state c c' d : is_u32 c -> is_u32 c' -> crc_raw c d = crc_raw c' d -> c = c'.
Proof.
  revert c c'. induction d as [|b d IH]; intros c c' Hc Hc'; cbn; [done|]. intros E.
  apply IH in E; [|by apply crc_byte_u32..]. by apply crc_byte_inj_state in E.
Qed.

Lemma not32_u32 z : is_u32 z -> is_u32 (not32 z).
Proof. unfold is_u32, not32. intros. apply lxor_bound; lia. Qed.
Lemma not32_invol z : not32 (not32 z) = z.
Proof. unfold not32. by rewrite Z.lxor_assoc, Z.lxor_nilpotent, Z.lxor_0_r. Qed.

Lemma crc32cSum_u32 d seed : is_u32 seed -> is_u32 (crc32cSum d seed).
Proof. intros. by apply not32_u32, crc_raw_u32, not32_u32. Qed.

(** ** Checksummed blocks *)

(** The checksum field holds what [updateNodeCRC] stores in it.  No code of the repository
    verifies a checksum on reading. *)
Definition csum_ok (buf : bytes) : Prop :=
  rd 4 buf 0 = crc32cSum (sub buf 32 (blen buf - 32)) btrfsCsumSeed.

Lemma updateNodeCRC_Ok buf :
  32 <= blen buf ->
  updateNodeCRC buf = Ok (wr 4 buf 0 (crc32cSum (sub buf 32 (blen buf - 32)) btrfsCsumSeed)).
Proof.
  intros Hb. unfold updateNodeCRC. rewrite slice_Ok by lia. cbn [mbind outcome_bind].
  by rewrite put_le_Ok by lia.
Qed.

Lemma updateNodeCRC_csum buf :
  32 <= blen buf -> exists buf', updateNodeCRC buf = Ok buf' /\ csum_ok buf' /\ blen buf' = blen buf /\
    agree buf buf' 4 (blen buf).
Proof.
  intros Hb. rewrite updateNodeCRC_Ok by done. eexists. split; [done|].
  set (h := crc32cSum _ _). assert (Hh : is_u32 h) by (apply crc32cSum_u32; unfold is_u32, btrfsCsumSeed; lia).
  assert (L : blen (wr 4 buf 0 h) = blen buf) by (apply blen_wr; lia).
  split_and!; [|done|].
  - unfold csum_ok. rewrite L, rd_wr_same by lia. rewrite Z.mod_small by (unfold is_u32 in Hh; cbn; lia).
    by rewrite sub_wr_out by lia.
  - intros p Hp. symmetry. apply bnth_wr_out; lia.
Qed.

(** The name hash is the kernel's [crc32c(~1, name)] without a final inversion. *)
Lemma hashDirName_raw name : hashDirName name = crc_raw 0xFFFFFFFE name.
Proof. unfold hashDirName, crc32cSum, crc32_Update. fold (not32 (not32 (crc_raw (not32 1) name))). by rewrite not32_invol. Qed.

Definition str (l : list Z) : bytes := map byte_of_Z l.

(** The standard check value of CRC-32C, which is the inverted running value. *)
Example crc32c_check_value :
  crc32cSum (str [0x31; 0x32; 0x33; 0x34; 0x35; 0x36; 0x37; 0x38; 0x39]) 0 = 0xE3069283.
Proof. vm_compute. reflexivity. Qed.
