(* ===== verification/Crc32cSpec.v ===== *)
(** * The checksums are CRC-32C (crc32c.go)

    The polynomial definition of CRC-32C and the proof that the shift register of Crc32c,
    with the seed and the inversions of the code, computes it: the four bytes
    [updateNodeCRC] and [updateSuperblockCRC] store are the only number that satisfies
    the definition. *)
From Stdlib Require Import ZArith Lia Strings.Byte.
From stdpp Require Import base option list numbers sorting.
From S2P Require Import Prelude Bytes Layout Crc32c.
Local Open Scope Z_scope.

(** ** The checksum as a polynomial remainder

    The definition of CRC-32C (RFC 3720), which shares nothing with the shift register:
    a polynomial over GF(2) is a number whose bit [i] is the coefficient of [x^i]. *)

(** x^32 + x^28 + x^27 + x^26 + x^25 + x^23 + x^22 + x^20 + x^19 + x^18 + x^14 + x^13 +
    x^11 + x^10 + x^9 + x^8 + x^6 + 1 *)
Definition crc32c_poly : Z := 0x11EDC6F41.

(** The bits of a message, the least significant bit of each byte first. *)
Definition byte_bits (b : byte) : list bool := map (fun i => Z.testbit (Z_of_byte b) (Z.of_nat i)) (seq 0 8).
Definition message_bits (data : bytes) : list bool := flat_map byte_bits data.

(** The polynomial of a list of coefficients, the leading one first, and its product
    with the generator. *)
Definition poly_of (l : list bool) : Z := fold_left (fun acc b => 2 * acc + Z.b2z b) l 0.
Definition poly_times (l : list bool) : Z := fold_left (fun acc b => Z.lxor (2 * acc) (if b : bool then crc32c_poly else 0)) l 0.

(** The 32 coefficients of [r] in reverse. *)
Definition rev32 (r : Z) : Z := fold_left (fun acc i => 2 * acc + Z.b2z (Z.testbit r (Z.of_nat i))) (seq 0 32) 0.

(** [v] is the CRC-32C of [data]: the complement of the reversed remainder of
    M(x) x^32 + (x^31 + ... + 1) x^|M| modulo the generator. *)
Definition is_crc32c (data : bytes) (v : Z) : Prop :=
  exists q r, is_u32 r /\ v = not32 (rev32 r) /\
    Z.lxor (poly_of (message_bits data) * 2 ^ 32) (0xFFFFFFFF * 2 ^ (8 * blen data)) = Z.lxor (poly_times q) r.

Lemma poly_of_app l b : poly_of (l ++ [b]) = 2 * poly_of l + Z.b2z b.
Proof. unfold poly_of. by rewrite fold_left_app. Qed.
Lemma poly_times_app l b : poly_times (l ++ [b]) = Z.lxor (2 * poly_times l) (if b then crc32c_poly else 0).
Proof. unfold poly_times. by rewrite fold_left_app. Qed.

Lemma horner_bits (f : nat -> bool) n i :
  0 <= i -> Z.testbit (fold_left (fun acc k => 2 * acc + Z.b2z (f k)) (seq 0 n) 0) i = (i <? Z.of_nat n) && f (n - 1 - Z.to_nat i)%nat.
Proof.
  revert i. induction n as [|n IH]; intros i Hi.
  { rewrite (proj2 (Z.ltb_ge i (Z.of_nat 0))) by lia. apply Z.bits_0. }
  rewrite seq_S, fold_left_app. cbn [fold_left]. rewrite Nat.add_0_l. destruct (Z.eq_dec i 0) as [->|Hne].
  - rewrite Z.testbit_0_r. replace (S n - 1 - Z.to_nat 0)%nat with n by lia. by rewrite (proj2 (Z.ltb_lt _ _)) by lia.
  - replace i with (Z.succ (i - 1)) at 1 by lia. rewrite Z.testbit_succ_r, IH by lia.
    replace (S n - 1 - Z.to_nat i)%nat with (n - 1 - Z.to_nat (i - 1))%nat by lia. f_equal.
    destruct (Z.ltb_spec (i - 1) (Z.of_nat n)), (Z.ltb_spec i (Z.of_nat (S n))); lia || done.
Qed.
Lemma horner_nonneg {A} (f : A -> bool) l : forall acc, 0 <= acc -> 0 <= fold_left (fun acc k => 2 * acc + Z.b2z (f k)) l acc.
Proof. induction l as [|k l IH]; intros acc Ha; [done|]. apply IH. destruct (f k); cbn; lia. Qed.
Lemma rev32_bit r i : 0 <= i -> Z.testbit (rev32 r) i = (i <? 32) && Z.testbit r (31 - i).
Proof.
  intros Hi. unfold rev32. rewrite (horner_bits (fun k => Z.testbit r (Z.of_nat k)) 32) by done. change (Z.of_nat 32) with 32.
  destruct (Z.ltb_spec i 32); [|done]. cbn [andb]. f_equal. lia.
Qed.
Lemma u32_bit c i : is_u32 c -> 32 <= i -> Z.testbit c i = false.
Proof.
  intros [H0 H1] Hi. destruct (Z.eq_dec c 0) as [->|]; [apply Z.bits_0|]. apply Z.bits_above_log2; [done|].
  apply Z.lt_le_trans with 32; [|done]. apply Z.log2_lt_pow2; lia.
Qed.
Lemma rev32_u32 r : is_u32 (rev32 r).
Proof.
  assert (H0 : 0 <= rev32 r) by (by apply (horner_nonneg (fun k => Z.testbit r (Z.of_nat k)))).
  split; [done|]. destruct (Z.eq_dec (rev32 r) 0) as [->|]; [lia|]. apply Z.log2_lt_pow2; [lia|].
  destruct (Z_lt_ge_dec (Z.log2 (rev32 r)) 32); [done|]. exfalso.
  pose proof (Z.bit_log2 (rev32 r) ltac:(lia)) as Hb. rewrite rev32_bit in Hb by apply Z.log2_nonneg.
  rewrite (proj2 (Z.ltb_ge _ _)) in Hb by lia. done.
Qed.
Lemma rev32_invol c : is_u32 c -> rev32 (rev32 c) = c.
Proof.
  intros Hc. apply Z.bits_inj'. intros i Hi. rewrite rev32_bit by done. destruct (Z.ltb_spec i 32).
  - cbn [andb]. rewrite rev32_bit by lia. rewrite (proj2 (Z.ltb_lt _ _)) by lia. cbn [andb]. f_equal. lia.
  - cbn [andb]. symmetry. by apply u32_bit.
Qed.

(** One step of the register is one step of the division: the reversed register is the
    remainder so far, which is multiplied by x and reduced. *)
Lemma crc_bit_div c : is_u32 c ->
  rev32 (crc_bit c) = Z.lxor (2 * rev32 c) (if Z.odd c then crc32c_poly else 0).
Proof.
  intros Hc. assert (Hs : forall i, 0 <= i -> Z.testbit (2 * rev32 c) i = (0 <? i) && (i <? 33) && Z.testbit c (32 - i)).
  { intros i Hi. destruct (Z.eq_dec i 0) as [->|]; [by rewrite Z.testbit_even_0|].
    replace i with (Z.succ (i - 1)) at 1 by lia. rewrite Z.testbit_even_succ, rev32_bit by lia.
    rewrite (proj2 (Z.ltb_lt 0 i)) by lia. replace (31 - (i - 1)) with (32 - i) by lia. cbn [andb]. f_equal.
    destruct (Z.ltb_spec (i - 1) 32), (Z.ltb_spec i 33); lia || done. }
  assert (Hp : forall i, 0 <= i < 32 -> Z.testbit crc32c_poly i = Z.testbit castagnoli (31 - i)).
  { intros i Hi. assert (Hall : forallb (fun k => Bool.eqb (Z.testbit crc32c_poly k) (Z.testbit castagnoli (31 - k))) (seqZ 0 32) = true) by (vm_compute; reflexivity).
    rewrite forallb_forall in Hall. apply Bool.eqb_prop, Hall. apply list_elem_of_In, elem_of_seqZ. lia. }
  apply Z.bits_inj'. intros i Hi. rewrite Z.lxor_spec, rev32_bit, Hs by done.
  assert (H0 : Z.testbit c 0 = Z.odd c) by apply Z.bit0_odd.
  destruct (Z.ltb_spec i 32) as [Hlt|Hge]; cbn [andb].
  - unfold crc_bit. destruct (Z.odd c) eqn:Eo.
    + rewrite Z.lxor_spec, Z.shiftr_spec, Hp by lia. f_equal. replace (31 - i + 1) with (32 - i) by lia.
      rewrite (proj2 (Z.ltb_lt i 33)) by lia. destruct (Z.ltb_spec 0 i); cbn [andb]; [done|]. apply u32_bit; [done|lia].
    + rewrite Z.shiftr_spec, Z.bits_0, xorb_false_r by lia. replace (31 - i + 1) with (32 - i) by lia.
      rewrite (proj2 (Z.ltb_lt i 33)) by lia. destruct (Z.ltb_spec 0 i); cbn [andb]; [done|]. apply u32_bit; [done|lia].
  - destruct (Z.eq_dec i 32) as [->|].
    + change (0 <? 32) with true. change (32 <? 33) with true. cbn [andb]. change (32 - 32) with 0. rewrite H0. by destruct (Z.odd c).
    + rewrite (proj2 (Z.ltb_ge i 33)) by lia. rewrite andb_false_r. cbn [andb]. destruct (Z.odd c); [|by rewrite Z.bits_0].
      symmetry. rewrite xorb_false_l. apply Z.bits_above_log2; [vm_compute; discriminate|]. change (Z.log2 crc32c_poly) with 32. lia.
Qed.

(** ** Feeding the register bit by bit *)
Definition crc_feed (c : Z) (b : bool) : Z := crc_bit (Z.lxor c (Z.b2z b)).

Lemma double_lxor a b : 2 * Z.lxor a b = Z.lxor (2 * a) (2 * b).
Proof. rewrite !(Z.mul_comm 2), <- (Z.pow_1_r 2), <- !Z.shiftl_mul_pow2 by lia. apply Z.shiftl_lxor. Qed.
Lemma double_add a b : 2 * a + Z.b2z b = Z.lxor (2 * a) (Z.b2z b).
Proof.
  apply Z.add_nocarry_lxor, Z.bits_inj'. intros i Hi. rewrite Z.land_spec, Z.bits_0.
  destruct (Z.eq_dec i 0) as [->|]; [by rewrite Z.testbit_even_0|]. destruct b; cbn [Z.b2z]; [|by rewrite Z.bits_0, andb_false_r].
  rewrite (Z.bits_above_log2 1) by (cbn; lia). by rewrite andb_false_r.
Qed.
Lemma crc_bit_low c y b : crc_bit (Z.lxor c (2 * y + Z.b2z b)) = Z.lxor (crc_feed c b) y.
Proof.
  unfold crc_feed, crc_bit. rewrite double_add, <- Z.lxor_assoc, (Z.lxor_comm c), (Z.lxor_assoc (2 * y)).
  set (x := Z.lxor c (Z.b2z b)). assert (Ho : Z.odd (Z.lxor (2 * y) x) = Z.odd x).
  { rewrite <- !Z.bit0_odd, Z.lxor_spec, Z.testbit_even_0. by destruct (Z.testbit x 0). }
  assert (Hs : Z.shiftr (Z.lxor (2 * y) x) 1 = Z.lxor y (Z.shiftr x 1)).
  { rewrite Z.shiftr_lxor. f_equal. rewrite Z.shiftr_div_pow2 by lia. change (2 ^ 1) with 2. rewrite (Z.mul_comm 2). by apply Z.div_mul. }
  rewrite Ho, Hs. destruct (Z.odd x); [|apply Z.lxor_comm]. rewrite Z.lxor_assoc. apply Z.lxor_comm.
Qed.
Lemma crc_feed_low n : forall c y, 0 <= y < 2 ^ Z.of_nat n ->
  Nat.iter n crc_bit (Z.lxor c y) = fold_left crc_feed (map (fun i => Z.testbit y (Z.of_nat i)) (seq 0 n)) c.
Proof.
  induction n as [|n IH]; intros c y Hy; [assert (y = 0) as -> by (cbn in Hy; lia); apply Z.lxor_0_r|].
  rewrite Nat.iter_succ_r. cbn [seq map fold_left]. rewrite <- seq_shift, map_map.
  pose proof (Zdiv2_odd_eqn y) as Ey. rewrite Z.div2_div in Ey.
  assert (Ey' : y = 2 * (y / 2) + Z.b2z (Z.testbit y 0)) by (rewrite Z.bit0_odd; revert Ey; destruct (Z.odd y); cbn [Z.b2z]; lia).
  rewrite Ey' at 1. rewrite crc_bit_low, IH.
  - f_equal. apply map_ext. intros i. rewrite <- shiftr1, Z.shiftr_spec by lia. f_equal. lia.
  - rewrite Nat2Z.inj_succ, Z.pow_succ_r in Hy by lia. split; [apply Z.div_pos; lia|apply Z.div_lt_upper_bound; lia].
Qed.
Lemma crc_raw_bits d : forall c, crc_raw c d = fold_left crc_feed (message_bits d) c.
Proof.
  induction d as [|b d IH]; intros c; [done|]. cbn [crc_raw fold_left message_bits flat_map]. rewrite fold_left_app. fold (message_bits d).
  fold (crc_raw (crc_byte c b) d). rewrite IH. f_equal. unfold crc_byte, byte_bits. apply crc_feed_low. apply Z_of_byte_range.
Qed.

(** The division invariant. *)
Lemma crc_feed_div l : forall c0, is_u32 c0 -> exists q, is_u32 (fold_left crc_feed l c0) /\
  Z.lxor (poly_of l * 2 ^ 32) (rev32 c0 * 2 ^ Z.of_nat (length l)) = Z.lxor (poly_times q) (rev32 (fold_left crc_feed l c0)).
Proof.
  intros c0 Hc0. induction l as [|b l IH] using rev_ind.
  { exists []. split; [done|]. cbn. by rewrite Z.mul_1_r. }
  destruct IH as (q&Hc&E). rewrite fold_left_app. cbn [fold_left]. set (c := fold_left crc_feed l c0) in *.
  assert (Hb : is_u32 (Z.b2z b)) by (destruct b; unfold is_u32; cbn; lia).
  assert (Hx : is_u32 (Z.lxor c (Z.b2z b))) by (apply lxor_bound; [lia|done|done]).
  exists (q ++ [Z.odd (Z.lxor c (Z.b2z b))]). split; [by apply crc_bit_u32|].
  unfold crc_feed. rewrite crc_bit_div, poly_times_app, poly_of_app by done. set (t := if Z.odd _ then _ else _).
  assert (Hr : rev32 (Z.lxor c (Z.b2z b)) = Z.lxor (rev32 c) (Z.b2z b * 2 ^ 31)).
  { apply Z.bits_inj'. intros i Hi. rewrite Z.lxor_spec, !rev32_bit, Z.lxor_spec by done.
    rewrite <- Z.shiftl_mul_pow2, Z.shiftl_spec by lia. destruct (Z.ltb_spec i 32); cbn [andb]; last first.
    { symmetry. destruct b; cbn [Z.b2z]; [|apply Z.bits_0]. apply Z.bits_above_log2; cbn; lia. }
    f_equal. destruct (Z.eq_dec i 31) as [->|]; [done|]. rewrite (Z.testbit_neg_r _ (i - 31)) by lia.
    destruct b; cbn [Z.b2z]; [|apply Z.bits_0]. apply Z.bits_above_log2; cbn; lia. }
  rewrite Hr, length_app. cbn [length]. replace (Z.of_nat (length l + 1)) with (Z.succ (Z.of_nat (length l))) by lia.
  rewrite Z.pow_succ_r by lia. rewrite double_add.
  assert (Hm : Z.lxor (2 * poly_of l) (Z.b2z b) * 2 ^ 32 = Z.lxor (2 * (poly_of l * 2 ^ 32)) (Z.b2z b * 2 ^ 32)).
  { rewrite <- !(Z.shiftl_mul_pow2 _ 32), Z.shiftl_lxor by lia. done. }
  rewrite Hm. replace (rev32 c0 * (2 * 2 ^ Z.of_nat (length l))) with (2 * (rev32 c0 * 2 ^ Z.of_nat (length l))) by lia.
  rewrite double_lxor. replace (2 * (Z.b2z b * 2 ^ 31)) with (Z.b2z b * 2 ^ 32) by (destruct b; reflexivity).
  apply (f_equal (Z.mul 2)) in E. rewrite !double_lxor in E.
  apply Z.bits_inj'. intros i Hi. apply (f_equal (fun z => Z.testbit z i)) in E. rewrite !Z.lxor_spec in *.
  revert E. generalize (Z.testbit (2 * (poly_of l * 2 ^ 32)) i) (Z.testbit (2 * (rev32 c0 * 2 ^ Z.of_nat (length l))) i)
    (Z.testbit (2 * poly_times q) i) (Z.testbit (2 * rev32 c) i) (Z.testbit t i) (Z.testbit (Z.b2z b * 2 ^ 32) i).
  intros [] [] [] [] [] []; done.
Qed.

Lemma crc32cSum_is_crc32c d : is_crc32c d (crc32cSum d 0).
Proof.
  assert (Hs : is_u32 (not32 0)) by (vm_compute; split; [discriminate|reflexivity]).
  destruct (crc_feed_div (message_bits d) _ Hs) as (q&Hc&E). rewrite <- crc_raw_bits in *.
  exists q, (rev32 (crc_raw (not32 0) d)). split; [apply rev32_u32|]. split; [by rewrite rev32_invol|].
  rewrite <- E. f_equal. change (rev32 (not32 0)) with 0xFFFFFFFF. f_equal. f_equal. unfold message_bits, blen.
  clear. induction d as [|b d IH]; [done|]. cbn [flat_map]. rewrite length_app, Nat2Z.inj_add, <- IH. cbn [length byte_bits map seq]. lia.
Qed.

(** ** There is one remainder *)
Lemma bit_ge x i : 0 <= i -> 0 <= x -> Z.testbit x i = true -> 2 ^ i <= x.
Proof.
  intros Hi Hx Hb. destruct (Z_lt_le_dec x (2 ^ i)) as [Hlt|]; [|done]. exfalso. destruct (Z.eq_dec x 0) as [->|]; [by rewrite Z.bits_0 in Hb|].
  rewrite Z.bits_above_log2 in Hb; [done|done|]. apply Z.log2_lt_pow2; lia.
Qed.
Lemma poly_times_deg l : poly_times l = 0 \/ 2 ^ 32 <= poly_times l.
Proof.
  induction l as [|b l IH] using rev_ind; [by left|]. rewrite poly_times_app.
  assert (Hn : 0 <= Z.lxor (2 * poly_times l) (if b then crc32c_poly else 0)) by (apply Z.lxor_nonneg; destruct b; unfold crc32c_poly; lia).
  destruct IH as [E|Hge]; [rewrite E; destruct b; [right; vm_compute; discriminate|by left]|right].
  destruct b; [|rewrite Z.lxor_0_r; lia]. set (k := Z.log2 (2 * poly_times l)).
  assert (Hk : 33 <= k) by (apply Z.log2_le_pow2; lia). assert (2 ^ 32 <= 2 ^ k) by (apply Z.pow_le_mono_r; lia).
  enough (2 ^ k <= Z.lxor (2 * poly_times l) crc32c_poly) by lia. apply bit_ge; [lia|done|]. rewrite Z.lxor_spec. unfold k at 1.
  rewrite Z.bit_log2 by lia. rewrite Z.bits_above_log2; [done|vm_compute; discriminate|]. change (Z.log2 crc32c_poly) with 32. lia.
Qed.
Lemma poly_times_pad n l : poly_times (replicate n false ++ l) = poly_times l.
Proof. induction n as [|n IH]; [done|]. cbn. exact IH. Qed.
Lemma poly_times_zip : forall l l', length l = length l' -> poly_times (zip_with xorb l l') = Z.lxor (poly_times l) (poly_times l').
Proof.
  induction l as [|b l IH] using rev_ind; intros l' Hl; destruct l' as [|b' l' _] using rev_ind; rewrite ?length_app in Hl; cbn in Hl; try lia; [done|].
  rewrite zip_with_app by lia. cbn [zip_with]. rewrite !poly_times_app, IH, double_lxor by lia.
  apply Z.bits_inj'. intros i _. rewrite !Z.lxor_spec. destruct b, b'; cbn [xorb]; rewrite ?Z.bits_0;
    generalize (Z.testbit (2 * poly_times l) i) (Z.testbit (2 * poly_times l') i) (Z.testbit crc32c_poly i); intros [] [] []; done.
Qed.
Lemma remainder_unique q q' r r' : is_u32 r -> is_u32 r' -> Z.lxor (poly_times q) r = Z.lxor (poly_times q') r' -> r = r'.
Proof.
  intros Hr Hr' E. set (a := replicate (length q') false ++ q). set (b := replicate (length q) false ++ q').
  assert (Hl : length a = length b) by (unfold a, b; rewrite !length_app, !length_replicate; lia).
  assert (Ez : poly_times (zip_with xorb a b) = Z.lxor r r').
  { rewrite poly_times_zip by done. unfold a, b. rewrite !poly_times_pad. apply Z.bits_inj'. intros i _.
    apply (f_equal (fun z => Z.testbit z i)) in E. rewrite !Z.lxor_spec in *. revert E.
    generalize (Z.testbit (poly_times q) i) (Z.testbit (poly_times q') i) (Z.testbit r i) (Z.testbit r' i). intros [] [] [] []; done. }
  assert (Hx : is_u32 (Z.lxor r r')) by (apply lxor_bound; [lia|done|done]). unfold is_u32 in Hx.
  destruct (poly_times_deg (zip_with xorb a b)) as [E0|Hge]; [|lia]. rewrite Ez in E0. by apply Z.lxor_eq in E0.
Qed.
Lemma is_crc32c_iff d v : is_crc32c d v <-> v = crc32cSum d 0.
Proof.
  split; [|intros ->; apply crc32cSum_is_crc32c]. intros (q&r&Hr&->&E). destruct (crc32cSum_is_crc32c d) as (q'&r'&Hr'&->&E').
  f_equal. f_equal. eapply remainder_unique; [done|done|]. by rewrite <- E, <- E'.
Qed.

(** Two messages of the same length that differ in one byte have different checksums. *)
Lemma crc32cSum_single pre b b' post seed : is_u32 seed -> b <> b' -> crc32cSum (pre ++ b :: post) seed <> crc32cSum (pre ++ b' :: post) seed.
Proof.
  intros Hs Hne E. apply Hne. unfold crc32cSum, crc32_Update in E. apply (f_equal not32) in E. rewrite !not32_invol, !crc_raw_app in E. cbn in E.
  pose proof (crc_raw_u32 _ pre (not32_u32 _ Hs)). apply crc_raw_inj_state in E; [|by apply crc_byte_u32..]. by apply crc_byte_inj_byte in E.
Qed.

(** ** The stored checksums *)
Lemma blen_changed buf pre b b' post : 32 <= blen buf -> sub buf 32 (blen buf - 32) = pre ++ b :: post ->
  let bad := take 32 buf ++ pre ++ b' :: post in blen bad = blen buf /\ sub bad 32 (blen bad - 32) = pre ++ b' :: post.
Proof.
  intros Hb Hs bad. assert (Lb : blen bad = blen buf).
  { assert (Hl : blen (sub buf 32 (blen buf - 32)) = blen buf - 32) by (apply blen_sub; lia).
    rewrite Hs in Hl. unfold bad, blen in *. rewrite !length_app, length_take in *. cbn [length] in *. lia. }
  split; [done|]. unfold sub, bad. rewrite drop_app_ge by (rewrite length_take; unfold blen in *; lia).
  rewrite length_take, take_ge; [|rewrite length_drop; unfold blen, bad in *; rewrite !length_app, !length_take in *; lia].
  replace (Z.to_nat 32 - 32 `min` length buf)%nat with 0%nat by (unfold blen in *; lia). done.
Qed.

Lemma stored_crc buf n : 32 <= n <= blen buf ->
  let buf' := wr 4 buf 0 (crc32cSum (sub buf 32 (n - 32)) btrfsCsumSeed) in
  blen buf' = blen buf /\ agree buf buf' 4 (blen buf) /\ forall v, is_crc32c (sub buf 32 (n - 32)) v <-> v = rd 4 buf' 0.
Proof.
  intros Hn. cbv zeta. set (h := crc32cSum _ _). assert (Hh : is_u32 h) by (apply crc32cSum_u32; unfold is_u32, btrfsCsumSeed; lia).
  assert (L : blen (wr 4 buf 0 h) = blen buf) by (apply blen_wr; lia). split_and!; [done| |].
  - intros p Hp. symmetry. apply bnth_wr_out; lia.
  - intros v. rewrite is_crc32c_iff, rd_wr_same by lia. rewrite Z.mod_small by (unfold is_u32 in Hh; cbn; lia). done.
Qed.

(** C39. The checksums on disk are CRC-32C.  [updateNodeCRC] stores in the first four bytes of
    a block the CRC-32C of everything from byte 32 on, and [updateSuperblockCRC] that of
    bytes 32 to 4095; no other byte changes.  CRC-32C is the polynomial definition of
    [is_crc32c] (generator, initial value, reflection and final complement of RFC 3720),
    which exactly one number satisfies.  A node block in which one covered byte is
    changed, to whatever value, gets another checksum. *)
Theorem stored_checksum_is_crc32c buf :
  32 <= blen buf ->
  exists buf', updateNodeCRC buf = Ok buf' /\ blen buf' = blen buf /\ agree buf buf' 4 (blen buf) /\
    (forall v, is_crc32c (sub buf 32 (blen buf - 32)) v <-> v = rd 4 buf' 0) /\
    (0x1000 <= blen buf -> exists sb, updateSuperblockCRC buf = Ok sb /\ blen sb = blen buf /\ agree buf sb 4 (blen buf) /\
       forall v, is_crc32c (sub buf 32 (0x1000 - 32)) v <-> v = rd 4 sb 0) /\
    forall pre b b' post, sub buf 32 (blen buf - 32) = pre ++ b :: post -> b <> b' ->
      exists bad', updateNodeCRC (take 32 buf ++ pre ++ b' :: post) = Ok bad' /\ rd 4 bad' 0 <> rd 4 buf' 0.
Proof.
  intros Hb. rewrite updateNodeCRC_Ok by done. destruct (stored_crc buf (blen buf) ltac:(lia)) as (L&A&V).
  eexists. split; [reflexivity|]. split_and!; [done|done|done| |].
  - intros Hsb. destruct (stored_crc buf 0x1000 ltac:(lia)) as (L'&A'&V'). eexists. split; [|split_and!; [exact L'|exact A'|exact V']].
    unfold updateSuperblockCRC. rewrite slice_Ok by lia. cbn [mbind outcome_bind]. by rewrite put_le_Ok by lia.
  - intros pre b b' post Hs Hne. destruct (blen_changed buf pre b b' post Hb Hs) as [Lb Sb]. rewrite updateNodeCRC_Ok by lia.
    eexists. split; [reflexivity|]. destruct (stored_crc (take 32 buf ++ pre ++ b' :: post) (blen (take 32 buf ++ pre ++ b' :: post)) ltac:(lia)) as (_&_&Vb). intros E.
    assert (Hu : is_u32 0) by (unfold is_u32; lia). apply (crc32cSum_single pre b b' post 0 Hu Hne). rewrite <- Hs, <- Sb.
    rewrite (proj1 (is_crc32c_iff _ _) (proj2 (V _) eq_refl)) in E. rewrite (proj1 (is_crc32c_iff _ _) (proj2 (Vb _) eq_refl)) in E. done.
Qed.

Lemma stored_checksum_is_crc32c_witness :
  exists buf', updateNodeCRC (zeros 40) = Ok buf' /\ is_crc32c (zeros 8) (rd 4 buf' 0) /\ rd 4 buf' 0 = 0x8C28B28A.
Proof.
  destruct (stored_checksum_is_crc32c (zeros 40)) as (buf'&E&_&_&V&_); [vm_compute; discriminate|]. exists buf'. split; [exact E|].
  change (sub (zeros 40) 32 (blen (zeros 40) - 32)) with (zeros 8) in V. split; [by apply V|].
  symmetry. apply V. apply is_crc32c_iff. vm_compute. reflexivity.
Defined.
