(* ===== verification/Cow.v ===== *)
(** * Copy-on-write tree mutations (btree_write.go)

    The stateful write path: the state is the device and the space manager.  The
    device is an instance of [ReaderWriterAt], the interface the Go code uses
    ([readerWriterAt]); reads of nodes go through [readNodeUncached], since the
    write path is given the raw device and not the cached reader. *)
From Stdlib Require Import ZArith Lia Strings.Byte.
From stdpp Require Import base option list numbers sorting gmap.
From S2P Require Import Prelude Bytes Alloc Layout SafeIO Chunk Node BTree Split Crc32c.
Local Open Scope Z_scope.
Local Open Scope btrfs_scope.

Class ReaderWriterAt (D : Type) := {
  ReadAt : D -> Z -> Z -> outcome bytes;
  WriteAt : D -> Z -> bytes -> D * outcome unit;
}.

Record cowState (D : Type) := CowState { st_dev : D; st_sm : spaceManager }.
Arguments CowState {D}.
Arguments st_dev {D}.
Arguments st_sm {D}.

(** One node on the root-to-leaf path. *)
Record pathEntry := PathEntry { pe_logAddr : Z; pe_buf : bytes; pe_level : Z; pe_childIdx : Z }.

(** How the walk up the path ends: with a collapsed root, or at the root with
    the address of the topmost node written and the blocks to free. *)
Inductive up_result :=
| UpRoot (log : Z)
| UpDone (deleted : bool) (newChildLog : Z) (freedOld : list Z).

(** An error becomes [None], a panic stays a panic. *)
Definition sm_opt {S A} (m : SM S A) : SM S (option A) := fun s =>
  match m s with
  | (s', Ok a) => (s', Ok (Some a))
  | (s', Err _) => (s', Ok None)
  | (s', Panic) => (s', Panic)
  | (s', NoFuel) => (s', NoFuel)
  end.

Section Cow.
Context `{SafeIO} {D : Type} `{RW : ReaderWriterAt D} (partOff : Z) (sb : superblock).
Abbreviation M := (SM (cowState D)).

Definition node_read (a : Z) : M bytes := fun s =>
  (s, readNodeUncached (ReadAt (st_dev s)) partOff sb a).
Definition m_alloc : M Z := fun s =>
  let '(sm, r) := allocNodeBlock (st_sm s) in (CowState (st_dev s) sm, r).
Definition m_free (a : Z) : M unit := fun s =>
  (CowState (st_dev s) (freeRange (st_sm s) (physFromLog sb a) (sb_nodeSize sb)), Ok tt).
Definition m_write (off : Z) (b : bytes) : M unit := fun s =>
  let '(d, r) := WriteAt (st_dev s) off b in (CowState d (st_sm s), r).

Fixpoint free_all (l : list Z) : M unit :=
  match l with
  | [] => mret tt
  | a :: l => _ ← m_free a; free_all l
  end.

(** The new generation every written node carries. *)
Definition next_gen : Z := sb_generation sb +₆₄ 1.

Definition writeCowNode (nodeBuf : bytes) : M Z :=
  newPhys ← m_alloc;
  let newLog := physToLog sb newPhys in
  buf ← sm_lift (PutUint64 nodeBuf 0x30 newLog);
  buf ← sm_lift (PutUint64 buf 0x50 next_gen);
  buf ← sm_lift (updateNodeCRC buf);
  _ ← m_write (i64 (partOff + i64 (physFromLog sb newLog))) buf;
  mret newLog.

(** The loop over the key pointers that picks the child to follow: its index and
    address, starting from the leftmost child when no key is at most [k]. *)
Fixpoint choose_loop (fuel : nat) (buf : bytes) (n : Z) (k : key) (i : Z) (acc : Z * Z) : outcome (Z * Z) :=
  if n <=? i then Ok acc
  else
    let off := nodeHdrSize + i * keyPtrSize in
    if blen buf <? off + keyPtrSize then Ok acc
    else match fuel with
    | O => NoFuel
    | S fuel =>
        ik ← readKey buf off;
        if compareKey ik k <=? 0
        then p ← Uint64 buf (off + 17); choose_loop fuel buf n k (i + 1) (i, p)
        else Ok acc
    end.

Fixpoint tracePath_loop (fuel : nat) (seen : VisitSet) (logAddr depth : Z) (routeKey : key)
  : M (list pathEntry) :=
  if maxBtreeDepth <? depth then sm_fail ErrLoopLimit
  else match fuel with
  | O => sm_lift NoFuel
  | S fuel =>
      seen ← sm_lift (visit_check seen logAddr);
      buf ← node_read logAddr;
      hdr ← sm_lift (parseNodeHeader buf);
      if hdr_level hdr =? 0 then mret [PathEntry logAddr buf 0 0]
      else
        c ← sm_lift (choose_loop (Z.to_nat (itemsThatFit buf (hdr_nItems hdr) keyPtrSize))
                       buf (hdr_nItems hdr) routeKey 0 (-1, 0));
        '(chosenIdx, chosenLog) ←
           (if c.1 <? 0 then p ← sm_lift (Uint64 buf (nodeHdrSize + 17)); mret (0, p) else mret c);
        rest ← tracePath_loop fuel seen chosenLog (depth + 1) routeKey;
        mret (PathEntry logAddr buf (hdr_level hdr) chosenIdx :: rest)
  end.
Definition tracePath (rootLogAddr : Z) (routeKey : key) : M (list pathEntry) :=
  tracePath_loop depth_fuel visit_empty rootLogAddr 0 routeKey.

(** Copying the internal nodes of the path, bottom up; [rpath] lists them from
    the leaf's parent to the root. *)
Fixpoint mutate_up (rpath : list pathEntry) (deleted : bool) (newChildLog : Z) (freedOld : list Z)
  : M up_result :=
  match rpath with
  | [] => mret (UpDone deleted newChildLog freedOld)
  | pe :: rpath =>
      let is_root := match rpath with [] => true | _ => false end in
      let freedOld' := freedOld ++ [pe_logAddr pe] in
      if deleted then
        nodeCopy ← sm_lift (internalRemoveKeyPtr (pe_buf pe) (pe_childIdx pe));
        nh ← sm_lift (parseNodeHeader nodeCopy);
        if (hdr_nItems nh =? 0) && negb is_root then mutate_up rpath true newChildLog freedOld'
        else if is_root && (hdr_nItems nh =? 1) then
          childLog ← sm_lift (Uint64 nodeCopy (nodeHdrSize + 17));
          _ ← free_all freedOld';
          mret (UpRoot childLog)
        else
          newNodeLog ← writeCowNode nodeCopy;
          mutate_up rpath false newNodeLog freedOld'
      else
        let off := nodeHdrSize + pe_childIdx pe * keyPtrSize + 17 in
        nodeCopy ← sm_lift (PutUint64 (pe_buf pe) off newChildLog);
        nodeCopy ← sm_lift (PutUint64 nodeCopy (off + 8) next_gen);
        newNodeLog ← writeCowNode nodeCopy;
        mutate_up rpath false newNodeLog freedOld'
  end.

(** [tryCollapseTwoLeafRoot]: [None] is [(rootLogAddr, false)]. *)
Definition tryCollapseTwoLeafRoot (rootLogAddr : Z) : M (option Z) :=
  rootBuf ← sm_opt (node_read rootLogAddr);
  match rootBuf with
  | None => mret None
  | Some rootBuf =>
      rootHdr ← sm_lift (parseNodeHeader rootBuf);
      if negb (hdr_level rootHdr =? 1) || negb (hdr_nItems rootHdr =? 2) then mret None else
      leftLog ← sm_lift (Uint64 rootBuf (nodeHdrSize + 17));
      rightLog ← sm_lift (Uint64 rootBuf (nodeHdrSize + keyPtrSize + 17));
      leftBuf ← sm_opt (node_read leftLog);
      match leftBuf with
      | None => mret None
      | Some leftBuf =>
          rightBuf ← sm_opt (node_read rightLog);
          match rightBuf with
          | None => mret None
          | Some rightBuf =>
              leftHdr ← sm_lift (parseNodeHeader leftBuf);
              rightHdr ← sm_lift (parseNodeHeader rightBuf);
              if negb (hdr_level leftHdr =? 0) || negb (hdr_level rightHdr =? 0) then mret None else
              leftItems ← sm_lift (parseLeafItems leftBuf (hdr_nItems leftHdr));
              rightItems ← sm_lift (parseLeafItems rightBuf (hdr_nItems rightHdr));
              let combined :=
                map (fun it => (it_k it, item_data it leftBuf)) leftItems ++
                map (fun it => (it_k it, item_data it rightBuf)) rightItems in
              if sb_nodeSize sb <? leaf_need combined then mret None else
              mergedBuf ← sm_opt (sm_lift (buildLeafFromItems leftBuf combined (sb_nodeSize sb)));
              match mergedBuf with
              | None => mret None
              | Some mergedBuf =>
                  mergedLog ← sm_opt (writeCowNode mergedBuf);
                  match mergedLog with
                  | None => mret None
                  | Some mergedLog =>
                      _ ← free_all [rootLogAddr; leftLog; rightLog];
                      mret (Some mergedLog)
                  end
              end
          end
      end
  end.

Definition cowMutate (rootLogAddr : Z) (routeKey : key) (fn : bytes -> outcome bytes) : M Z :=
  path ← tracePath rootLogAddr routeKey;
  match last path with
  | None => sm_lift Panic
  | Some leafEntry =>
      leafCopy ← sm_lift (fn (pe_buf leafEntry));
      hdr ← sm_lift (parseNodeHeader leafCopy);
      let deleted := (hdr_nItems hdr =? 0) && (1 <? Z.of_nat (length path)) in
      newChildLog ← (if deleted then mret 0 else writeCowNode leafCopy);
      r ← mutate_up (rev (removelast path)) deleted newChildLog [pe_logAddr leafEntry];
      match r with
      | UpRoot childLog => mret childLog
      | UpDone deleted newChildLog freedOld =>
          _ ← free_all freedOld;
          if deleted then
            hdrBytes ← sm_lift (slice (pe_buf leafEntry) 0 nodeHdrSize);
            emptyLeaf ← sm_lift (copy_at (zeros (sb_nodeSize sb)) 0 hdrBytes);
            emptyLeaf ← sm_lift (PutUint32 emptyLeaf 0x60 0);
            emptyLeaf ← sm_lift (PutUint8 emptyLeaf 0x64 0);
            writeCowNode emptyLeaf
          else
            collapsed ← tryCollapseTwoLeafRoot newChildLog;
            match collapsed with
            | Some root => mret root
            | None => mret newChildLog
            end
      end
  end.

(** Propagating a split up the path: the left half replaces the followed child
    and (key, child) of [pending] is inserted right after it. *)
Fixpoint split_up (rpath : list pathEntry) (newChildLog : Z) (pending : option (key * Z))
    (freedOld : list Z) : M (Z * option (key * Z) * list Z) :=
  match rpath with
  | [] => mret (newChildLog, pending, freedOld)
  | pe :: rpath =>
      let freedOld' := freedOld ++ [pe_logAddr pe] in
      let off := nodeHdrSize + pe_childIdx pe * keyPtrSize + 17 in
      nodeCopy ← sm_lift (PutUint64 (pe_buf pe) off newChildLog);
      nodeCopy ← sm_lift (PutUint64 nodeCopy (off + 8) next_gen);
      match pending with
      | None =>
          newNodeLog ← writeCowNode nodeCopy;
          split_up rpath newNodeLog None freedOld'
      | Some (pendingKey, pendingChild) =>
          fits ← sm_lift (internalCanFitOneMore nodeCopy);
          if fits : bool then
            nodeCopy ← sm_lift (internalInsertKeyPtr nodeCopy (pe_childIdx pe + 1) pendingKey
                                  pendingChild next_gen);
            newNodeLog ← writeCowNode nodeCopy;
            split_up rpath newNodeLog None freedOld'
          else
            '(leftI, rightI, splitK) ← sm_lift (splitAndInsertInternal nodeCopy (pe_childIdx pe + 1)
                pendingKey pendingChild next_gen (sb_nodeSize sb));
            leftIL ← writeCowNode leftI;
            rightIL ← writeCowNode rightI;
            split_up rpath leftIL (Some (splitK, rightIL)) freedOld'
      end
  end.

Definition buildNewRoot (leftChildLog : Z) (rightFirstKey : key) (rightChildLog depth : Z) : M bytes :=
  leftBuf ← node_read leftChildLog;
  sm_lift (new_root leftBuf leftChildLog rightFirstKey rightChildLog depth (sb_generation sb)
             (sb_nodeSize sb)).

Definition cowInsertSplit (rootLogAddr : Z) (k : key) (data : bytes) : M Z :=
  path ← tracePath rootLogAddr k;
  match last path with
  | None => sm_lift Panic
  | Some leafEntry =>
      '(leftBuf, rightBuf, splitKey) ← sm_lift (splitAndInsertLeaf (pe_buf leafEntry) k data (sb_nodeSize sb));
      leftLog ← writeCowNode leftBuf;
      rightLog ← writeCowNode rightBuf;
      '(newChildLog, pending, freedOld) ←
         split_up (rev (removelast path)) leftLog (Some (splitKey, rightLog)) [pe_logAddr leafEntry];
      rootLog ← match pending with
                | Some (pendingKey, pendingChild) =>
                    newRootBuf ← buildNewRoot newChildLog pendingKey pendingChild
                                   (u8 (Z.of_nat (length path)));
                    writeCowNode newRootBuf
                | None => mret newChildLog
                end;
      _ ← free_all freedOld;
      mret rootLog
  end.

(** The mutators; each is [cowMutate] with the leaf operation it applies. *)
Definition cowInsert (rootLogAddr : Z) (k : key) (data : bytes) : M Z := fun s =>
  match cowMutate rootLogAddr k (fun leafBuf => leafInsertItem leafBuf k data) s with
  | (s', Err ErrLeafFull) => cowInsertSplit rootLogAddr k data s'
  | r => r
  end.

Definition update_leaf (k : key) (newData : bytes) (leafBuf : bytes) : outcome bytes :=
  idx ← findItemIdx leafBuf (objID k) (typ k) (offset k);
  if idx <? 0 then Err ErrOther else leafReplaceItemData leafBuf idx newData.

Definition cowUpdate (rootLogAddr : Z) (k : key) (newData : bytes) : M Z :=
  cowMutate rootLogAddr k (update_leaf k newData).

Definition delete_leaf (k : key) (leafBuf : bytes) : outcome bytes :=
  idx ← findItemIdx leafBuf (objID k) (typ k) (offset k);
  if idx <? 0 then Err ErrNotFound else leafDeleteItem leafBuf idx.

Definition cowDelete (rootLogAddr : Z) (k : key) : M Z :=
  cowMutate rootLogAddr k (delete_leaf k).

(** [findLeafContainingPrefix]: the children that are not past the prefix. *)
Fixpoint prefix_ptrs (fuel : nat) (buf : bytes) (n objID typ i : Z) : outcome (list Z) :=
  if n <=? i then Ok []
  else
    let off := nodeHdrSize + i * keyPtrSize in
    if blen buf <? off + keyPtrSize then Ok []
    else match fuel with
    | O => NoFuel
    | S fuel =>
        k ← readKey buf off;
        p ← Uint64 buf (off + 17);
        rest ← prefix_ptrs fuel buf n objID typ (i + 1);
        Ok (if past_prefix objID typ k then rest else p :: rest)
    end.

Fixpoint findLeaf_loop (fuel : nat) (seen : VisitSet) (guard : LoopGuard) (stack : list (Z * Z))
    (objID typ : Z) : M (option (bytes * Z)) :=
  match stack with
  | [] => mret None
  | (logAddr, depth) :: stack =>
      if maxBtreeDepth <? depth then sm_fail ErrLoopLimit
      else match fuel with
      | O => sm_lift NoFuel
      | S fuel =>
          guard ← sm_lift (guard_next guard);
          seen ← sm_lift (visit_check seen logAddr);
          buf ← node_read logAddr;
          hdr ← sm_lift (parseNodeHeader buf);
          if hdr_level hdr =? 0 then
            items ← sm_lift (parseLeafItems buf (hdr_nItems hdr));
            if existsb (has_prefix objID typ) items then mret (Some (buf, logAddr))
            else findLeaf_loop fuel seen guard stack objID typ
          else
            children ← sm_lift (prefix_ptrs (Z.to_nat (itemsThatFit buf (hdr_nItems hdr) keyPtrSize))
                                  buf (hdr_nItems hdr) objID typ 0);
            findLeaf_loop fuel seen guard (map (fun c => (c, depth + 1)) children ++ stack) objID typ
      end
  end.
Definition findLeafContainingPrefix (rootLogAddr objID typ : Z) : M (option (bytes * Z)) :=
  findLeaf_loop walk_fuel visit_empty (NewLoopGuard maxTreeNodes) [(rootLogAddr, 0)] objID typ.

(** Delete the matched items, highest index first. *)
Fixpoint delete_idxs (idxs : list Z) (leafBuf : bytes) : outcome bytes :=
  match idxs with
  | [] => Ok leafBuf
  | i :: idxs => b ← leafDeleteItem leafBuf i; delete_idxs idxs b
  end.
Definition delete_prefix_leaf (objID typ : Z) (leafBuf : bytes) : outcome bytes :=
  idx ← findItemIdxPrefix leafBuf objID typ;
  b ← delete_idxs (rev idx) leafBuf;
  match idx with
  | [] => Err ErrOther
  | _ => Ok b
  end.

(** Each round empties one leaf of its matches, so [walk_fuel] rounds cover every
    tree the node guard admits. *)
Fixpoint cowDeletePrefix_loop (fuel : nat) (curRoot objID typ : Z) : M Z :=
  match fuel with
  | O => sm_lift NoFuel
  | S fuel =>
      l ← findLeafContainingPrefix curRoot objID typ;
      match l with
      | None => mret curRoot
      | Some _ =>
          newRoot ← cowMutate curRoot (Key objID typ 0) (delete_prefix_leaf objID typ);
          cowDeletePrefix_loop fuel newRoot objID typ
      end
  end.
Definition cowDeletePrefix (rootLogAddr objID typ : Z) : M Z :=
  cowDeletePrefix_loop walk_fuel rootLogAddr objID typ.
End Cow.
