(* ===== verification/Store.v ===== *)
(** * Nodes on a device: allocation, writing and freeing under an invariant

    The laws of a device ([RWLaws]: what is written is read back, other ranges
    are unaffected) and the invariant [Inv] that ties the space manager to the
    nodes in use: every live node lies in a mapped, non-free block and no two
    live blocks overlap.  Under it, writing a copy-on-write node never disturbs
    a live node. *)
From Stdlib Require Import ZArith Lia Strings.Byte.
From stdpp Require Import base option list numbers sorting gmap.
From S2P Require Import Prelude Bytes Alloc Layout SafeIO Chunk Node BTree Split Crc32c Cow.
Local Open Scope Z_scope.
Local Open Scope btrfs_scope.

Class RWLaws (D : Type) `{RW : ReaderWriterAt D} := {
  dev_size : D -> Z;
  ReadAt_blen d off n b : 0 <= n -> ReadAt d off n = Ok b -> blen b = n;
  ReadAt_safe d off n : safe (ReadAt d off n);
  WriteAt_in d off b :
    0 <= off -> off + blen b <= dev_size d ->
    exists d', WriteAt d off b = (d', Ok tt) /\ dev_size d' = dev_size d /\
      ReadAt d' off (blen b) = Ok b /\
      forall off' n, 0 <= n -> off' + n <= off \/ off + blen b <= off' ->
        ReadAt d' off' n = ReadAt d off' n;
}.

(** Node content from the generation field on: what the tree code reads. *)
Definition same_body (b b' : bytes) : Prop := blen b' = blen b /\ agree b b' 0x58 (blen b).

Lemma same_body_rd n b b' off :
  same_body b b' -> 0x58 <= off -> off + Z.of_nat n <= blen b -> rd n b' off = rd n b off.
Proof. intros [Hl Ha] Ho Hn. symmetry. apply rd_agree; [lia..|]. intros p Hp. apply Ha. lia. Qed.

Lemma leaf_repr_body b b' recs : leaf_repr b recs -> same_body b b' -> leaf_repr b' recs.
Proof.
  intros Hr Hs. pose proof (leaf_repr_bounds _ _ Hr) as [Hb _]. destruct Hr as (Hn&Hl&Hf&Hm&Hp).
  pose proof (recs_size_nonneg recs). pose proof (nrecs_nonneg recs).
  unfold leaf_repr. destruct Hs as [Hlen Ha].
  rewrite !(same_body_rd _ b b') by (first [done|hdr_lia]). rewrite Hlen.
  split_and!; try done. revert Hp. apply packed_agree; try done; try hdr_lia;
    intros p Hp; apply Ha; hdr_lia.
Qed.

Lemma node_repr_body b b' level l : node_repr b level l -> same_body b b' -> node_repr b' level l.
Proof.
  intros (Hn&Hl&Hf&Hm&Hp) Hs. pose proof (nkps_nonneg l). unfold node_repr.
  pose proof Hs as [Hlen Ha].
  rewrite !(same_body_rd _ b b') by (first [done|hdr_lia]). rewrite Hlen.
  split_and!; try done. revert Hp. apply kp_slots_agree; try done; try hdr_lia.
  intros p Hp. apply Ha. hdr_lia.
Qed.

Lemma internal_repr_body b b' level l : internal_repr b level l -> same_body b b' -> internal_repr b' level l.
Proof.
  intros (Hn&Hl&Hlv&Hf&Hm&Hp) Hs. unfold internal_repr. pose proof Hs as [Hlen Ha].
  rewrite !(same_body_rd _ b b') by (first [done|hdr_lia]). rewrite Hlen.
  split_and!; try done.
  assert (Hg : forall i, 0 <= i -> nodeHdrSize + (i + Z.of_nat (length l)) * keyPtrSize <= blen b ->
     ptr_slots b i l -> ptr_slots b' i l); [|apply Hg; [lia|hdr_lia|done]].
  clear Hp Hn Hf. induction l as [|[k p] l IH]; intros i Hi Hf; [done|]. cbn [ptr_slots length] in *.
  intros (H1&H2&H3). split_and!.
  - rewrite <- H1. symmetry. apply key_at_agree; [hdr_lia..|]. intros q Hq. apply Ha. hdr_lia.
  - rewrite <- H2. apply same_body_rd; [done|hdr_lia..].
  - apply IH; [lia|hdr_lia|done].
Qed.

(** Stamping a node for its new address. *)
Lemma stamp_node buf a gen :
  nodeHdrSize <= blen buf ->
  exists buf', (buf ← PutUint64 buf 0x30 a; buf ← PutUint64 buf 0x50 gen; updateNodeCRC buf) = Ok buf' /\
    same_body buf buf' /\ csum_ok buf'.
Proof.
  intros Hb. rewrite put_le_Ok by hdr_lia. cbn [mbind outcome_bind].
  rewrite put_le_Ok by (rewrite ?blen_wr; hdr_lia). cbn [mbind outcome_bind].
  set (b1 := wr 8 _ _ _). assert (L : blen b1 = blen buf) by (unfold b1; rewrite !blen_wr; rewrite ?blen_wr; hdr_lia).
  destruct (updateNodeCRC_csum b1) as (b2&E&Hc&L2&A2); [hdr_lia|].
  exists b2. split; [done|]. split; [split; [by rewrite L2|]|done]. intros p Hp. rewrite <- A2 by hdr_lia.
  unfold b1. rewrite !bnth_wr_out by (rewrite ?blen_wr; hdr_lia). done.
Qed.

(** The device beside the tree nodes: its size, the bytes (relative to the
    partition) that belong to files, and what a read of such bytes gives. *)
Record dataView := DataView { dv_size : Z; dv_held : Z -> Prop; dv_read : Z -> Z -> outcome bytes }.
Definition no_data (size : Z) : dataView := DataView size (fun _ => False) (fun _ _ => Panic).

Section Store.
Context `{HL : SafeIOLaws} {D : Type} `{RWL : RWLaws D} (partOff : Z) (sb : superblock) (dv : dataView).
Abbreviation St := (cowState D).
Abbreviation NS := (sb_nodeSize sb).

(** The node reader of a state. *)
Definition rn (s : St) (a : Z) : outcome bytes := readNodeUncached (ReadAt (st_dev s)) partOff sb a.

(** Device and chunk map: one flat device, logical addresses are offsets. *)
Definition flat_map : Prop :=
  nodeHdrSize + 2 * keyPtrSize <= NS <= maxNodeSize /\ 0 <= partOff /\
  chunk_map_wf (sb_sysChunks sb) /\ Forall (fun m => cm_logStart m = cm_physStart m) (sb_sysChunks sb) /\
  Forall (fun m => partOff + cm_logStart m + cm_size m < 2 ^ 63) (sb_sysChunks sb).

Definition mapped (a : Z) : Prop :=
  exists m, m ∈ sb_sysChunks sb /\ cm_logStart m <= a < cm_logStart m + cm_size m.

Definition block_ok (s : St) (a : Z) : Prop :=
  0 < a /\ (forall p, a <= p < a + NS -> mapped p) /\ partOff + a + NS <= dev_size (st_dev s) < 2 ^ 63.

Definition block_free (s : St) (a : Z) : Prop :=
  exists p, a <= p < a + NS /\ is_free (st_sm s) p.

(** File data is in no free extent and in no live node, and reads as [dv_read]. *)
Definition data_ok (s : St) (live : list Z) : Prop :=
  dev_size (st_dev s) = dv_size dv /\
  (forall p, dv_held dv p -> ~ is_free (st_sm s) p /\ forall a, a ∈ live -> ~ (a <= p < a + NS)) /\
  (forall a n, 0 < n -> (forall p, a <= p < a + n -> dv_held dv p) ->
     ReadAt (st_dev s) (partOff + a) n = dv_read dv a n).

Definition Inv (s : St) (live : list Z) : Prop :=
  sm_wf (st_sm s) /\ sm_nodeSize (st_sm s) = NS /\
  (forall p, is_free (st_sm s) p -> 0 < p /\ mapped p /\ partOff + p < dev_size (st_dev s) < 2 ^ 63) /\
  Forall (block_ok s) live /\ NoDup live /\
  (forall a b, a ∈ live -> b ∈ live -> a = b \/ a + NS <= b \/ b + NS <= a) /\
  (forall a, a ∈ live -> ~ block_free s a) /\ data_ok s live.

(** The allocator has no node block to give. *)
Definition full (s : St) : Prop := (allocNodeBlock (st_sm s)).2 = Err ErrOther.

Context (Hflat : flat_map).

Lemma mapped_addr a :
  mapped a -> physFromLog sb a = a /\ physToLog sb a = a /\ 0 <= a < 2 ^ 63 /\ partOff + a < 2 ^ 63 /\
  physAddr sb partOff a = Ok (partOff + a).
Proof using Hflat.
  intros (m&Hm&Ha). destruct Hflat as (_&Hp&Hwf&Hid&Hb). rewrite Forall_forall in Hid, Hb.
  specialize (Hid _ Hm). specialize (Hb _ Hm). pose proof (proj1 Hwf _ Hm).
  split_and!; try lia.
  - rewrite (physFromLog_in sb Hwf m) by done. lia.
  - rewrite (physToLog_in sb Hwf m) by (done || lia). lia.
  - unfold physAddr, lookupChunk. rewrite (find_chunk sb Hwf m) by done. cbn [mbind outcome_bind].
    rewrite !i64_small by (rewrite ?i64_small; lia). done.
Qed.

Lemma NS_bounds : nodeHdrSize + 2 * keyPtrSize <= NS <= maxNodeSize.
Proof using Hflat. apply Hflat. Qed.

Lemma rn_read s a : mapped a -> rn s a = ReadAt (st_dev s) (partOff + a) NS.
Proof using Hflat HL.
  intros Ha. destruct (mapped_addr a Ha) as (_&_&_&_&Hphys). pose proof NS_bounds.
  unfold rn, readNodeUncached. rewrite Hphys. cbn [mbind outcome_bind].
  pose proof (MakeBytes_spec NS maxNodeSize) as Hmb.
  rewrite !(proj2 (Z.leb_le _ _)) in Hmb by hdr_lia. cbn [andb] in Hmb. rewrite Hmb.
  cbn [mbind outcome_bind]. rewrite blen_zeros by hdr_lia. done.
Qed.

Lemma rn_blen s a buf : mapped a -> rn s a = Ok buf -> blen buf = NS.
Proof using Hflat HL RWL.
  intros Ha. rewrite rn_read by done. apply ReadAt_blen. pose proof NS_bounds. hdr_lia.
Qed.

Lemma Inv_perm s live live' : live ≡ₚ live' -> Inv s live -> Inv s live'.
Proof using.
  intros Hp (H1&H2&H3&H4&H5&H6&H7&H0&H8&H9). split_and!; try done.
  - by rewrite <- Hp.
  - by rewrite <- Hp.
  - intros a b. rewrite <- Hp. apply H6.
  - intros a. rewrite <- Hp. apply H7.
  - split_and!; [done| |done]. intros p Hd. destruct (H8 p Hd) as [? Hl]. split; [done|]. intros a. rewrite <- Hp. apply Hl.
Qed.

Lemma Inv_live_nonzero s live a : Inv s live -> a ∈ live -> 0 < a /\ mapped a.
Proof using Hflat.
  intros (_&_&_&Hok&_) Ha. rewrite Forall_forall in Hok. destruct (Hok _ Ha) as (?&Hm&_).
  split; [done|]. apply Hm. pose proof NS_bounds. hdr_lia.
Qed.

(** Nothing but the first live block is covered by a block that starts at [a]. *)
Lemma m_free_spec s a live :
  Inv s (a :: live) ->
  exists s', m_free sb a s = (s', Ok tt) /\ Inv s' live /\ st_dev s' = st_dev s.
Proof using Hflat HL RWL.
  intros (Hwf&Hns&Hfree&Hok&Hnd&Hdis&Hnf&Hsz&Hdat&Hread).
  apply Forall_cons in Hok as [Ha Hok]. apply NoDup_cons in Hnd as [Hna Hnd].
  destruct Ha as (Ha0&Hma&Hda). pose proof NS_bounds as Hnsb.
  destruct (mapped_addr a (Hma a ltac:(hdr_lia))) as (Hpl&_&Hab&_&_).
  destruct (freeRange_wf (st_sm s) a NS) as (Hwf'&Hcov&_&_); [done| | |].
  { unfold fe_ok. cbn. hdr_lia. }
  { intros p Hp Hf. apply (Hnf a); [by left|]. exists p. done. }
  unfold m_free. rewrite Hpl. eexists. split; [done|]. split; [|done].
  set (sm' := freeRange (st_sm s) a NS) in *.
  assert (Hiff : forall p, is_free sm' p <-> is_free (st_sm s) p \/ a <= p < a + NS).
  { intros p. unfold is_free. rewrite Hcov. pose proof (cov_nonneg (sm_freeExts (st_sm s)) p).
    destruct (inr_spec a NS p) as [[? ->]|[? ->]]; lia. }
  split_and!; cbn [st_sm st_dev]; try done.
  - intros p Hp. apply Hiff in Hp as [Hp|Hp]; [by apply Hfree|].
    split_and!; [lia|by apply Hma|lia|lia].
  - intros x y Hx Hy. apply Hdis; by right.
  - intros x Hx (p&Hp&Hf). apply Hiff in Hf as [Hf|Hf].
    + apply (Hnf x); [by right|]. exists p. done.
    + destruct (Hdis a x) as [->|Hd]; [by left|by right|done|lia].
  - split_and!; [done| |done]. intros p Hd. destruct (Hdat p Hd) as [Hf Hl]. split; [|intros x Hx; apply Hl; by right].
    intros Hf'. apply Hiff in Hf' as [?|Hb]; [done|]. by apply (Hl a); [left|].
Qed.

Lemma free_all_spec s l live :
  Inv s (l ++ live) ->
  exists s', free_all sb l s = (s', Ok tt) /\ Inv s' live /\ st_dev s' = st_dev s.
Proof using Hflat HL RWL.
  revert s. induction l as [|a l IH]; intros s Hi; cbn [free_all app] in *; [by exists s|].
  destruct (m_free_spec s a (l ++ live) Hi) as (s1&E1&I1&D1).
  destruct (IH s1 I1) as (s2&E2&I2&D2). exists s2. unfold mbind, SM_bind. rewrite E1, E2.
  split_and!; [done|done|congruence].
Qed.

(** A fresh node block, or no space and nothing changed. *)
Lemma m_alloc_spec s live :
  Inv s live ->
  (m_alloc s = (s, Err ErrOther) /\ full s) \/
  (exists s' a, m_alloc s = (s', Ok a) /\ Inv s' (a :: live) /\ st_dev s' = st_dev s /\
     physToLog sb a = a /\ physFromLog sb a = a).
Proof using Hflat.
  intros Hi. pose proof Hi as (Hwf&Hns&Hfree&Hok&Hnd&Hdis&Hnf&Hsz&Hdat&Hread). pose proof NS_bounds as Hnsb.
  unfold m_alloc, full. destruct (allocNodeBlock (st_sm s)) as [sm' r] eqn:Ea.
  assert (Hcase : (sm' = st_sm s /\ r = Err ErrOther) \/ exists phys, r = Ok phys).
  { unfold allocNodeBlock in Ea. destruct (take_first _ _) as [[ph l]|]; injection Ea as <- <-; eauto. }
  destruct Hcase as [[-> ->]|[phys ->]]; [left; by destruct s|]. right.
  destruct (allocNodeBlock_wf _ _ _ Hwf ltac:(hdr_lia) Ea) as (Hwf'&Hfe&Hns'&Hcov).
  rewrite Hns in *. unfold fe_ok in Hfe. cbn in Hfe.
  assert (Hin : forall p, phys <= p < phys + NS -> is_free (st_sm s) p).
  { intros p Hp. unfold is_free. rewrite Hcov. pose proof (cov_nonneg (sm_freeExts sm') p).
    destruct (inr_spec phys NS p) as [[? ->]|[? ?]]; lia. }
  assert (Hout : forall p, is_free sm' p -> is_free (st_sm s) p /\ ~ phys <= p < phys + NS).
  { intros p. unfold is_free. intros Hp. specialize (Hcov p). pose proof (proj1 (proj2 Hwf) p).
    pose proof (cov_nonneg (sm_freeExts sm') p). destruct (inr_spec phys NS p) as [[? ?]|[? ?]]; split; lia. }
  assert (Hmap : forall p, phys <= p < phys + NS -> mapped p) by (intros p Hp; apply Hfree, Hin, Hp).
  destruct (Hfree phys (Hin phys ltac:(hdr_lia))) as (Hp0&_&_).
  destruct (Hfree (phys + NS - 1) (Hin (phys + NS - 1) ltac:(hdr_lia))) as (_&_&Hdev).
  destruct (mapped_addr phys (Hmap phys ltac:(hdr_lia))) as (Hpl&Hlp&_).
  assert (Hdisj : forall x, x ∈ live -> x + NS <= phys \/ phys + NS <= x).
  { intros x Hx. destruct (Z_le_gt_dec (x + NS) phys); [by left|].
    destruct (Z_le_gt_dec (phys + NS) x); [by right|]. exfalso.
    apply (Hnf x Hx). exists (Z.max x phys). split; [lia|]. apply Hin. lia. }
  eexists _, phys. split; [done|]. split; [|done]. split_and!; cbn [st_sm st_dev]; try done.
  - intros p Hp. apply Hout in Hp as [Hp _]. by apply Hfree.
  - constructor; [|done]. split_and!; [lia|done|cbn [st_dev]; lia|cbn [st_dev]; lia].
  - apply NoDup_cons. split; [|done]. intros Hx. specialize (Hdisj _ Hx). hdr_lia.
  - intros x y Hx Hy. apply elem_of_cons in Hx as [->|Hx]; apply elem_of_cons in Hy as [->|Hy].
    + by left.
    + right. specialize (Hdisj _ Hy). lia.
    + right. specialize (Hdisj _ Hx). lia.
    + by apply Hdis.
  - intros x Hx (p&Hp&Hf). apply Hout in Hf as [Hf Hnp].
    apply elem_of_cons in Hx as [->|Hx]; [done|]. apply (Hnf x Hx). by exists p.
  - split_and!; cbn [st_sm st_dev]; [done| |done].
    intros p Hd. destruct (Hdat p Hd) as [Hf Hl]. split; [intros Hf'; by apply Hout in Hf' as [? _]|].
    intros x Hx. apply elem_of_cons in Hx as [->|Hx]; [|by apply Hl]. intros Hp. apply Hf, Hin, Hp.
Qed.

(** Writing the bytes of a live node touches no other node and no file data. *)
Lemma m_write_spec s live a buf :
  Inv s live -> a ∈ live -> blen buf = NS ->
  exists s', m_write (partOff + a) buf s = (s', Ok tt) /\ Inv s' live /\ st_sm s' = st_sm s /\ rn s' a = Ok buf /\
    forall x, x ∈ live -> x <> a -> rn s' x = rn s x.
Proof using Hflat HL RWL.
  intros Hi Ha Hb. pose proof Hi as (Hwf&Hns&Hfree&Hok&Hnd&Hdis&Hnf&Hsz&Hdat&Hread). pose proof NS_bounds as Hnsb.
  pose proof Hok as Hok'. rewrite Forall_forall in Hok'. destruct (Hok' _ Ha) as (Ha0&Hma&Hda).
  destruct (WriteAt_in (st_dev s) (partOff + a) buf) as (d'&Ew&Hd'&Hrd&Hfr);
    [destruct Hflat as (_&?&_); lia|lia|].
  exists (CowState d' (st_sm s)). unfold m_write. rewrite Ew. split; [done|]. split; [|split; [done|split]].
  - split_and!; cbn [st_sm st_dev]; try done.
    + intros p Hp. rewrite Hd'. by apply Hfree.
    + eapply Forall_impl; [exact Hok|]. intros x (?&?&?). split_and!; try done; cbn [st_dev]; rewrite Hd'; lia.
    + split_and!; cbn [st_sm st_dev]; [by rewrite Hd'|done|].
      intros x n Hn Hd. rewrite <- Hread by done. apply Hfr; [lia|]. rewrite Hb.
      destruct (Z_le_gt_dec (x + n) a); [left; lia|]. destruct (Z_le_gt_dec (a + NS) x); [right; lia|].
      exfalso. assert (Hp : x <= Z.max x a < x + n) by lia. apply (proj2 (Hdat _ (Hd _ Hp)) a Ha). hdr_lia.
  - rewrite rn_read by (apply Hma; hdr_lia). cbn [st_dev]. by rewrite <- Hb.
  - intros x Hx Hne. destruct (Hdis x a Hx Ha) as [|Hdj]; [done|].
    rewrite !rn_read by (by eapply Inv_live_nonzero). cbn [st_dev]. apply Hfr; [hdr_lia|]. lia.
Qed.

(** Writing a node: either the space is exhausted and nothing changes, or the
    node is at a fresh address and every live node still reads the same. *)
Lemma writeCowNode_spec s live buf :
  Inv s live -> blen buf = NS ->
  (writeCowNode partOff sb buf s = (s, Err ErrOther) /\ full s) \/
  (exists s' a buf', writeCowNode partOff sb buf s = (s', Ok a) /\ Inv s' (a :: live) /\
     rn s' a = Ok buf' /\ same_body buf buf' /\ csum_ok buf' /\
     (forall x, x ∈ live -> rn s' x = rn s x) /\
     (forall x, x ∈ a :: live -> forall p, x <= p < x + NS -> mapped p)).
Proof using Hflat HL RWL.
  intros Hi Hb. pose proof NS_bounds as Hnsb. unfold writeCowNode.
  destruct (m_alloc_spec s live Hi) as [[E Hf]|(s1&a&E&Hi1&Hd1&Hlp&Hpl)].
  { left. by erewrite sm_bind_Err by exact E. }
  right. erewrite sm_bind_Ok by exact E. rewrite Hlp. cbv zeta.
  destruct (stamp_node buf a (next_gen sb)) as (buf'&Est&Hbody&Hcs); [hdr_lia|].
  assert (Hb' : blen buf' = NS) by (destruct Hbody; lia).
  destruct (m_write_spec s1 (a :: live) a buf' Hi1 ltac:(by left) Hb') as (s2&Ew&Hi2&_&Hr2&Hsame).
  destruct (Inv_live_nonzero s1 (a :: live) a Hi1 ltac:(by left)) as [_ Hma].
  destruct (mapped_addr a Hma) as (_&_&Hab&Hpa&_).
  exists s2, a, buf'. split_and!; try done.
  - apply outcome_bind_Ok in Est as (b1&E1&Est). apply outcome_bind_Ok in Est as (b2&E2&Est).
    erewrite sm_lift_Ok by exact E1. erewrite sm_lift_Ok by exact E2. erewrite sm_lift_Ok by exact Est.
    rewrite Hpl, (i64_small a), i64_small by (destruct Hflat as (_&?&_); lia). by erewrite sm_bind_Ok by exact Ew.
  - intros x Hx. rewrite Hsame; [unfold rn; by rewrite Hd1|by right|]. intros ->.
    destruct Hi1 as (_&_&_&_&Hnd&_). by apply NoDup_cons in Hnd as [? _].
  - intros x Hx p Hp. destruct Hi2 as (_&_&_&Hok&_). rewrite Forall_forall in Hok. by apply (Hok x Hx).
Qed.
End Store.
