(* ===== verification/CowCorrect.v ===== *)
(** * Correctness of the copy-on-write mutations (btree_write.go)

    The tree a mutation works on is described by [wtree], the on-disk tree of
    BTree with no empty node below the root.  The path [tracePath] returns is a
    zipper: a list of frames, leaf's parent first, each with the subtrees left
    and right of the child that was followed.  Rewriting the frames bottom-up
    is [plug]; the functions of the walk up are shown to implement it, one
    fresh block per node, with every old block still readable. *)
From Stdlib Require Import ZArith Lia Strings.Byte.
From stdpp Require Import base option list numbers sorting gmap.
From S2P Require Import Prelude Bytes Alloc Layout SafeIO Chunk Node BTree Split Crc32c Cow Store.
Local Open Scope Z_scope.
Local Open Scope btrfs_scope.

Section Correct.
(** Whether the separators are tight as well: the first separator of a node is
    not above the separator its parent has for it.  Insertions and updates keep
    this, so it is a parameter: deletions in trees of more than two levels can
    break it, and then a key between the two is not covered by its route. *)
Context (tight : Prop).

(** The first separator of the node at [a] is at most [z]. *)
Definition low (rn : Z -> outcome bytes) (h : nat) (a z : Z) : Prop :=
  match h with
  | O => True
  | S _ => exists buf k p ptrs, rn a = Ok buf /\ internal_repr buf (Z.of_nat h) ((k, p) :: ptrs) /\ key_num k <= z
  end.

(** ** Trees without empty nodes *)
Fixpoint wtree (rn : Z -> outcome bytes) (h : nat) (a : Z) (c : list rec) (ads : list Z) : Prop :=
  match h with
  | O => exists buf, rn a = Ok buf /\ leaf_repr buf c /\ keys_sorted c /\ ads = [a]
  | S h =>
      exists buf kids, rn a = Ok buf /\ internal_repr buf (Z.of_nat (S h)) (map kid_ptr kids) /\
        c = concat (map kid_recs kids) /\ ads = a :: concat (map kid_addrs kids) /\
        separated kids /\ kids <> [] /\
        Forall (fun k => kid_addr k <> 0 /\ kid_recs k <> [] /\
                  (tight -> low rn h (kid_addr k) (key_num (kid_key k))) /\
                  wtree rn h (kid_addr k) (kid_recs k) (kid_addrs k)) kids
  end.

Definition kid_ok (rn : Z -> outcome bytes) (h : nat) (k : kid) : Prop :=
  kid_addr k <> 0 /\ kid_recs k <> [] /\
  (tight -> low rn h (kid_addr k) (key_num (kid_key k))) /\
  wtree rn h (kid_addr k) (kid_recs k) (kid_addrs k).

Lemma wtree_subtree rn h a c ads : wtree rn h a c ads -> subtree rn h a c ads.
Proof.
  revert a c ads. induction h as [|h IH]; intros a c ads; [done|].
  intros (buf&kids&Hr&Hi&Hc&Ha&Hs&_&Hk). exists buf, kids. split_and!; try done.
  eapply Forall_impl; [exact Hk|]. intros k (?&_&_&?). split; [done|by apply IH].
Qed.

Lemma wtree_head rn h a c ads : wtree rn h a c ads -> exists rest, ads = a :: rest.
Proof. destruct h; [intros (?&_&_&_&->)|intros (?&?&_&_&_&->&_)]; by eexists. Qed.

Lemma elem_of_kid_addrs k (kids : list kid) x :
  k ∈ kids -> x ∈ kid_addrs k -> x ∈ concat (map kid_addrs kids).
Proof.
  intros Hk Hx. induction kids as [|y kids IH]; [by apply not_elem_of_nil in Hk|].
  cbn. apply elem_of_app. apply elem_of_cons in Hk as [->|Hk]; [by left|right; by apply IH].
Qed.

Lemma low_agree rn rn' h a z : low rn h a z -> rn' a = rn a -> low rn' h a z.
Proof. destruct h; [done|]. intros (buf&k&p&l&?&?&?) E. exists buf, k, p, l. by rewrite E. Qed.

(** A tree depends only on the nodes at its own addresses. *)
Lemma wtree_agree rn rn' h a c ads :
  wtree rn h a c ads -> (forall x, x ∈ ads -> rn' x = rn x) -> wtree rn' h a c ads.
Proof.
  revert a c ads. induction h as [|h IH]; intros a c ads.
  - intros (buf&Hr&Hl&Hs&->) Hag. exists buf. rewrite Hag by (by left). done.
  - intros (buf&kids&Hr&Hi&->&->&Hs&Hn&Hk) Hag. exists buf, kids.
    split_and!; try done; [rewrite Hag by (by left); done|].
    apply Forall_forall. intros k Hin. rewrite Forall_forall in Hk. destruct (Hk _ Hin) as (?&?&Hlow&Hw).
    destruct (wtree_head _ _ _ _ _ Hw) as [rest Ea].
    split_and!; try done.
    + intros Ht. eapply low_agree; [by apply Hlow|]. apply Hag. right. eapply elem_of_kid_addrs; [done|].
      rewrite Ea. by left.
    + apply IH; [done|]. intros x Hx. apply Hag. right. by eapply elem_of_kid_addrs.
Qed.

Lemma kids_ok_agree rn rn' h kids :
  Forall (kid_ok rn h) kids -> (forall x, x ∈ concat (map kid_addrs kids) -> rn' x = rn x) ->
  Forall (kid_ok rn' h) kids.
Proof.
  intros Hk Hag. apply Forall_forall. intros k Hin. rewrite Forall_forall in Hk.
  destruct (Hk _ Hin) as (?&?&Hlow&Hw). destruct (wtree_head _ _ _ _ _ Hw) as [rest Ea].
  split_and!; try done.
  - intros Ht. eapply low_agree; [by apply Hlow|]. apply Hag. eapply elem_of_kid_addrs; [done|]. rewrite Ea. by left.
  - eapply wtree_agree; [exact Hw|]. intros x Hx. apply Hag. by eapply elem_of_kid_addrs.
Qed.

(** [separated], as a condition on pairs. *)
Definition sep_self (x : kid) : Prop := Forall (fun r => key_num (kid_key x) <= key_num r.1) (kid_recs x).
Definition sep_pair (x y : kid) : Prop :=
  key_num (kid_key x) < key_num (kid_key y) /\ Forall (fun r => key_num r.1 < key_num (kid_key y)) (kid_recs x).

Lemma separated_cons x l : separated (x :: l) <-> sep_self x /\ Forall (sep_pair x) l /\ separated l.
Proof. done. Qed.

Lemma separated_app a b :
  separated (a ++ b) <-> separated a /\ separated b /\ Forall (fun x => Forall (sep_pair x) b) a.
Proof.
  induction a as [|x a IH]; [cbn; intuition|]. cbn [app]. rewrite !separated_cons, IH, Forall_app, Forall_cons.
  tauto.
Qed.

Lemma separated_sorted kids :
  separated kids -> Forall (fun k => keys_sorted (kid_recs k)) kids -> keys_sorted (concat (map kid_recs kids)).
Proof.
  induction kids as [|x kids IH]; [constructor|]. rewrite separated_cons. intros (Hx&Hp&Hs) Hk.
  apply Forall_cons in Hk as [Hkx Hk]. cbn. apply keys_sorted_app. split_and!; [done|by apply IH|].
  intros p q Hp' Hq. apply list_elem_of_fmap in Hp' as (r&->&Hr). apply list_elem_of_fmap in Hq as (r'&->&Hr').
  assert (exists y, y ∈ kids /\ r' ∈ kid_recs y) as (y&Hy&Hry).
  { clear -Hr'. induction kids as [|y kids IH]; [by apply not_elem_of_nil in Hr'|]. cbn in Hr'.
    apply elem_of_app in Hr' as [?|H]; [exists y; split; [by left|done]|].
    destruct (IH H) as (z&?&?). exists z. split; [by right|done]. }
  rewrite Forall_forall in Hp. destruct (Hp _ Hy) as [_ Hlt]. rewrite Forall_forall in Hlt.
  specialize (Hlt _ Hr). cbn in Hlt. apply list_elem_of_split in Hy as (l1&l2&->).
  apply separated_app in Hs as (_&Hs&_). apply separated_cons in Hs as (Hself&_).
  unfold sep_self in Hself. rewrite Forall_forall in Hself. specialize (Hself _ Hry). cbn in Hself.
  unfold key_lt. lia.
Qed.

Lemma wtree_sorted rn h a c ads : wtree rn h a c ads -> keys_sorted c.
Proof.
  revert a c ads. induction h as [|h IH]; intros a c ads.
  - by intros (buf&_&_&?&_).
  - intros (buf&kids&_&_&->&_&Hs&_&Hk). apply separated_sorted; [done|].
    eapply Forall_impl; [exact Hk|]. intros k (_&_&_&?). by eapply IH.
Qed.

(** ** The path as a zipper *)
Record zframe := Zframe { zf_addr : Z; zf_buf : bytes; zf_kl : list kid; zf_x : kid; zf_kr : list kid }.

Definition zf_kids (f : zframe) : list kid := zf_kl f ++ zf_x f :: zf_kr f.
Definition zf_side (f : zframe) : list kid := zf_kl f ++ zf_kr f.

Definition zentry (h : nat) (f : zframe) : pathEntry :=
  PathEntry (zf_addr f) (zf_buf f) (Z.of_nat h) (Z.of_nat (length (zf_kl f))).
(** The entries of the path above a node of height [h]. *)
Fixpoint zentries (h : nat) (zs : list zframe) : list pathEntry :=
  match zs with
  | [] => []
  | f :: zs => zentry (S h) f :: zentries (S h) zs
  end.

(** Content and node addresses around a hole. *)
Fixpoint zrecs (zs : list zframe) (c : list rec) : list rec :=
  match zs with
  | [] => c
  | f :: zs => zrecs zs (concat (map kid_recs (zf_kl f)) ++ c ++ concat (map kid_recs (zf_kr f)))
  end.
Definition zside (zs : list zframe) : list Z := concat (map (fun f => concat (map kid_addrs (zf_side f))) zs).
Definition zpath (zs : list zframe) : list Z := map zf_addr zs.

(** The key range of the hole. *)
Fixpoint zin (zs : list zframe) (z : Z) : Prop :=
  match zs with
  | [] => True
  | f :: zs => key_num (kid_key (zf_x f)) <= z /\
      Forall (fun y => z < key_num (kid_key y)) (zf_kr f) /\ zin zs z
  end.
Definition recs_in (zs : list zframe) (c : list rec) : Prop := Forall (fun r => zin zs (key_num r.1)) c.

(** The first separator of a frame against its parent's separator for it. *)
Definition zlow (kids : list kid) (zs : list zframe) : Prop :=
  match zs with
  | [] => True
  | g :: _ => match kids with
              | [] => False
              | y :: _ => key_num (kid_key y) <= key_num (kid_key (zf_x g))
              end
  end.
(** The same for a node that takes the place of the hole. *)
Definition hlow (rn : Z -> outcome bytes) (zs : list zframe) (h : nat) (a : Z) : Prop :=
  tight -> match zs with [] => True | f :: _ => low rn h a (key_num (kid_key (zf_x f))) end.

Fixpoint zwf (ns : Z) (rn : Z -> outcome bytes) (h : nat) (zs : list zframe) : Prop :=
  match zs with
  | [] => True
  | f :: zs =>
      blen (zf_buf f) = ns /\ internal_repr (zf_buf f) (Z.of_nat (S h)) (map kid_ptr (zf_kids f)) /\
      separated (zf_kids f) /\ Forall (kid_ok rn h) (zf_side f) /\
      recs_in zs (concat (map kid_recs (zf_side f))) /\ (tight -> zlow (zf_kids f) zs) /\ zwf ns rn (S h) zs
  end.

Lemma zin_convex zs a b z : zin zs a -> zin zs b -> a <= z <= b -> zin zs z.
Proof.
  induction zs as [|f zs IH]; [done|]. cbn. intros (?&_&Ha) (_&Hb&Hb') Hz. split_and!; [lia| |by apply IH].
  eapply Forall_impl; [exact Hb|]. intros y Hy. cbn in Hy. lia.
Qed.

Lemma zwf_agree ns rn rn' h zs :
  zwf ns rn h zs -> (forall x, x ∈ zside zs -> rn' x = rn x) -> zwf ns rn' h zs.
Proof.
  revert h. induction zs as [|f zs IH]; intros h; [done|]. cbn [zwf]. intros (H1&H2&H3&H4&H5&H6&H7) Hag.
  unfold zside in Hag. cbn [map concat] in Hag. split_and!; try done.
  - eapply kids_ok_agree; [done|]. intros x Hx. apply Hag. apply elem_of_app. by left.
  - apply IH; [done|]. intros x Hx. apply Hag. apply elem_of_app. by right.
Qed.

Lemma zrecs_split zs c : exists l r, zrecs zs c = l ++ c ++ r /\ forall c', zrecs zs c' = l ++ c' ++ r.
Proof.
  revert c. induction zs as [|f zs IH]; intros c; [exists [], []; split; [by rewrite app_nil_r|intros; by rewrite app_nil_r]|].
  cbn [zrecs]. destruct (IH (concat (map kid_recs (zf_kl f)) ++ c ++ concat (map kid_recs (zf_kr f)))) as (l&r&E&Hall).
  exists (l ++ concat (map kid_recs (zf_kl f))), (concat (map kid_recs (zf_kr f)) ++ r).
  split; [rewrite E|intros c'; rewrite Hall]; by rewrite <- !app_assoc.
Qed.

(** ** Rewriting one node of the path *)
Definition kp_ptr (e : kp) : key * Z := (kp_k e, kp_child e).

Lemma internal_repr_node buf level ptrs :
  internal_repr buf level ptrs -> exists l, node_repr buf level l /\ map kp_ptr l = ptrs.
Proof.
  intros (Hn&Hl&_&Hf&Hm&Hs).
  assert (Hg : forall i ptrs, ptr_slots buf i ptrs -> exists l, kp_slots buf i l /\ map kp_ptr l = ptrs).
  { clear. intros i ptrs. revert i. induction ptrs as [|[k p] ptrs IH]; intros i; [by exists []|].
    cbn [ptr_slots]. intros (H1&H2&H3). destruct (IH _ H3) as (l&Hl&<-).
    exists (KP k p (rd 8 buf (nodeHdrSize + i * keyPtrSize + 25)) :: l). split; [|done].
    cbn [kp_slots kp_k kp_child kp_gen]. done. }
  destruct (Hg 0 ptrs Hs) as (l&Hk&E). exists l. split; [|done]. rewrite <- E in *. rewrite length_map in *.
  split_and!; done.
Qed.

(** Redirecting pointer number [length pre]. *)
Lemma repoint_spec buf level pre e post a gen :
  node_repr buf level (pre ++ e :: post) -> is_u64 a -> is_u64 gen ->
  exists buf',
    (b ← PutUint64 buf (nodeHdrSize + nkps pre * keyPtrSize + 17) a;
     PutUint64 b (nodeHdrSize + nkps pre * keyPtrSize + 17 + 8) gen) = Ok buf' /\
    node_repr buf' level (pre ++ KP (kp_k e) a gen :: post) /\ blen buf' = blen buf.
Proof.
  intros (Hn&Hl&Hf&Hm&Hs) Ha Hg. rewrite nkps_app, nkps_cons in *. unfold is_u64 in *.
  pose proof (nkps_nonneg pre). pose proof (nkps_nonneg post).
  apply kp_slots_app in Hs as [Hs1 Hs2]. rewrite Z.add_0_l in Hs2. cbn [kp_slots] in Hs2.
  destruct Hs2 as (K&_&_&Hs2). set (o := nodeHdrSize + nkps pre * keyPtrSize) in *.
  assert (Ho : nodeHdrSize <= o /\ o + 33 + nkps post * 33 <= blen buf) by (unfold o; hdr_lia).
  rewrite put_le_Ok by hdr_lia. cbn [mbind outcome_bind].
  assert (L1 : blen (wr 8 buf (o + 17) a) = blen buf) by (apply blen_wr; hdr_lia).
  rewrite put_le_Ok by hdr_lia. eexists. split; [done|]. set (b2 := wr 8 _ (o + 17 + 8) gen).
  assert (L2 : blen b2 = blen buf) by (unfold b2; rewrite blen_wr; hdr_lia).
  assert (F : forall p, 0 <= p -> (p < o + 17 \/ o + 33 <= p) -> bnth b2 p = bnth buf p).
  { intros p Hp Hout. unfold b2. rewrite !bnth_wr_out by hdr_lia. done. }
  split; [|done]. split_and!.
  - rewrite nkps_app, nkps_cons, <- Hn. apply rd_agree; [hdr_lia..|]. intros p Hp. apply F; hdr_lia.
  - rewrite <- Hl. apply rd_agree; [hdr_lia..|]. intros p Hp. apply F; hdr_lia.
  - rewrite nkps_app, nkps_cons. lia.
  - lia.
  - apply kp_slots_app. split; [|cbn [kp_slots kp_k kp_child kp_gen]; rewrite Z.add_0_l; fold o; split_and!].
    + eapply (kp_slots_agree buf); [| | | | |exact Hs1]; try hdr_lia. intros p Hp. symmetry. apply F; unfold o; hdr_lia.
    + rewrite <- K. apply key_at_agree; [hdr_lia..|]. intros p Hp. apply F; hdr_lia.
    + unfold b2. rewrite rd_wr_out, rd_wr_same by hdr_lia. apply Z.mod_small. cbn. lia.
    + unfold b2. replace (o + 25) with (o + 17 + 8) by lia. rewrite rd_wr_same by hdr_lia.
      apply Z.mod_small. cbn. lia.
    + eapply (kp_slots_agree buf); [| | | | |exact Hs2]; try (unfold o in *; hdr_lia).
      intros p Hp. symmetry. apply F; unfold o in *; hdr_lia.
Qed.

(** The three rewritings of a frame's node, in terms of its children. *)
Lemma frame_node f level :
  internal_repr (zf_buf f) level (map kid_ptr (zf_kids f)) ->
  exists pre e post, node_repr (zf_buf f) level (pre ++ e :: post) /\
    map kp_ptr pre = map kid_ptr (zf_kl f) /\ kp_ptr e = kid_ptr (zf_x f) /\
    map kp_ptr post = map kid_ptr (zf_kr f) /\ nkps pre = Z.of_nat (length (zf_kl f)).
Proof.
  intros Hi. destruct (internal_repr_node _ _ _ Hi) as (l&Hn&E). unfold zf_kids in E. rewrite map_app in E.
  apply map_eq_app in E as (pre&post'&->&E1&E2). destruct post' as [|e post]; [done|].
  cbn in E2. injection E2 as E2a E2b E3. exists pre, e, post. split_and!; try done.
  - unfold kp_ptr, kid_ptr. congruence.
  - unfold nkps. rewrite <- (length_map kp_ptr), E1, length_map. done.
Qed.

Lemma frame_repoint f level a gen :
  internal_repr (zf_buf f) level (map kid_ptr (zf_kids f)) -> is_u64 a -> is_u64 gen ->
  exists buf' pre post,
    (b ← PutUint64 (zf_buf f) (nodeHdrSize + Z.of_nat (length (zf_kl f)) * keyPtrSize + 17) a;
     PutUint64 b (nodeHdrSize + Z.of_nat (length (zf_kl f)) * keyPtrSize + 17 + 8) gen) = Ok buf' /\
    node_repr buf' level (pre ++ post) /\ map kp_ptr pre = map kid_ptr (zf_kl f) ++ [(kid_key (zf_x f), a)] /\
    map kp_ptr post = map kid_ptr (zf_kr f) /\ nkps pre = Z.of_nat (length (zf_kl f)) + 1 /\
    blen buf' = blen (zf_buf f).
Proof.
  intros Hi Ha Hg. destruct (frame_node f level Hi) as (pre&e&post&Hn&E1&E2&E3&E4).
  destruct (repoint_spec _ _ pre e post a gen Hn Ha Hg) as (buf'&E&Hn'&L).
  exists buf', (pre ++ [KP (kp_k e) a gen]), post. rewrite <- E4. split_and!; try done.
  - by rewrite <- app_assoc.
  - rewrite map_app, E1. cbn. unfold kp_ptr at 1. cbn. unfold kp_ptr, kid_ptr in E2. injection E2 as -> _. done.
  - rewrite nkps_app. unfold nkps. cbn. lia.
Qed.

Lemma frame_remove f level :
  internal_repr (zf_buf f) level (map kid_ptr (zf_kids f)) -> 0 < level ->
  exists buf', internalRemoveKeyPtr (zf_buf f) (Z.of_nat (length (zf_kl f))) = Ok buf' /\
    internal_repr buf' level (map kid_ptr (zf_side f)) /\ blen buf' = blen (zf_buf f).
Proof.
  intros Hi Hl. destruct (frame_node f level Hi) as (pre&e&post&Hn&E1&E2&E3&E4).
  destruct (internalRemoveKeyPtr_spec _ _ _ _ _ Hn) as (buf'&E&Hn'&Hh). exists buf'. rewrite <- E4.
  split_and!; [done| |apply Hh]. unfold zf_side. rewrite map_app, <- E1, <- E3, <- map_app.
  by apply node_repr_internal.
Qed.

(** ** Permutations of address lists, by counting *)
Definition cnt1 (a x : Z) : nat := if Z.eq_dec a x then 1%nat else 0%nat.
Lemma cnt_cons a l x : count_occ Z.eq_dec (a :: l) x = (cnt1 a x + count_occ Z.eq_dec l x)%nat.
Proof. unfold cnt1. cbn. by destruct (Z.eq_dec a x). Qed.
Lemma perm_by_cnt l l' :
  (forall x, count_occ Z.eq_dec l x = count_occ Z.eq_dec l' x) -> l ≡ₚ l'.
Proof. apply (Permutation_count_occ Z.eq_dec). Qed.
Lemma zside_cons f zs :
  zside (f :: zs) = concat (map kid_addrs (zf_kl f)) ++ concat (map kid_addrs (zf_kr f)) ++ zside zs.
Proof. unfold zside, zf_side. cbn [map concat]. by rewrite map_app, concat_app, <- app_assoc. Qed.
Ltac perm :=
  apply perm_by_cnt; intros ?;
  rewrite ?zside_cons, ?map_app, ?concat_app; cbn [map concat kid_addrs];
  repeat first [rewrite count_occ_app|rewrite cnt_cons]; cbn [count_occ]; lia.
Ltac perm_with H :=
  apply perm_by_cnt; intros q; generalize (proj1 (Permutation_count_occ Z.eq_dec _ _) H q);
  rewrite ?zside_cons, ?map_app, ?concat_app; cbn [map concat kid_addrs];
  repeat first [rewrite count_occ_app|rewrite cnt_cons]; cbn [count_occ]; lia.
(** Membership in lists of addresses. *)
Ltac mem := rewrite ?zside_cons, ?elem_of_app, ?elem_of_cons, ?elem_of_app, ?elem_of_nil in *; tauto.

Lemma separated_plug kl x kr a c ads :
  separated (kl ++ x :: kr) ->
  Forall (fun r => key_num (kid_key x) <= key_num r.1 /\
                   Forall (fun y => key_num r.1 < key_num (kid_key y)) kr) c ->
  separated (kl ++ Kid (kid_key x) a c ads :: kr).
Proof.
  rewrite !separated_app, !separated_cons. intros (H1&(H2&H3&H4)&H5) Hc. split_and!; try done.
  - eapply Forall_impl; [exact Hc|]. intros r [? _]. done.
  - apply Forall_forall. intros y Hy. rewrite Forall_forall in H3. destruct (H3 _ Hy) as [? _].
    split; [done|]. eapply Forall_impl; [exact Hc|]. intros r [_ Hr]. rewrite Forall_forall in Hr. by apply Hr.
  - eapply Forall_impl; [exact H5|]. intros y Hy. apply Forall_cons in Hy as [[??] ?]. constructor; done.
Qed.

Lemma separated_remove kl x kr : separated (kl ++ x :: kr) -> separated (kl ++ kr).
Proof.
  rewrite !separated_app, separated_cons. intros (H1&(H2&H3&H4)&H5). split_and!; try done.
  eapply Forall_impl; [exact H5|]. intros y Hy. by apply Forall_cons in Hy as [_ ?].
Qed.

Lemma recs_in_cons f zs c :
  recs_in (f :: zs) c <->
  Forall (fun r => key_num (kid_key (zf_x f)) <= key_num r.1 /\
                   Forall (fun y => key_num r.1 < key_num (kid_key y)) (zf_kr f)) c /\ recs_in zs c.
Proof. unfold recs_in. rewrite <- Forall_and. apply Forall_iff. intros r. cbn. tauto. Qed.

(** ** Following the route key *)

Lemma choose_loop_slots fuel buf k i ptrs acc :
  0 <= i -> nodeHdrSize + (i + Z.of_nat (length ptrs)) * keyPtrSize <= blen buf ->
  (length ptrs <= fuel)%nat -> ptr_slots buf i ptrs ->
  choose_loop fuel buf (i + Z.of_nat (length ptrs)) k i acc =
  let l := take_until (fun p => 0 <? compareKey p.1 k) ptrs in
  Ok (match last l with Some p => (i + Z.of_nat (length l) - 1, p.2) | None => acc end).
Proof.
  revert fuel i acc. induction ptrs as [|[kk p] ptrs IH]; intros fuel i acc Hi Hfit Hfuel Hs.
  - destruct fuel; cbn [choose_loop length]; rewrite (proj2 (Z.leb_le _ _)) by lia; done.
  - destruct fuel as [|fuel]; [cbn in Hfuel; lia|]. cbn [ptr_slots] in Hs. destruct Hs as (H1&H2&H3).
    cbn [choose_loop length take_until] in *. case_if; [lia|]. case_if; [hdr_lia|].
    rewrite readKey_Ok by hdr_lia. cbn [mbind outcome_bind fst]. rewrite H1.
    destruct (Z.leb_spec (compareKey kk k) 0), (Z.ltb_spec 0 (compareKey kk k)); try lia; [|done].
    rewrite get_le_Ok by hdr_lia. cbn [mbind outcome_bind].
    replace (i + Z.of_nat (S (length ptrs))) with (i + 1 + Z.of_nat (length ptrs)) by lia.
    rewrite IH by (try done; hdr_lia). rewrite H2. cbn zeta. rewrite last_cons.
    destruct (last (take_until _ ptrs)) as [q|] eqn:El; cbn [length]; do 2 f_equal; try lia.
    destruct (take_until _ ptrs) as [|y l] eqn:Et; [cbn; lia|]. by rewrite last_cons in El; destruct (last l).
Qed.

(** The subtrees up to [k], then those above it. *)
Lemma upto_split k kids :
  key_ok k -> Forall (fun x => key_ok (kid_key x)) kids -> separated kids ->
  exists rest, kids = upto k kids ++ rest /\ Forall (fun y => key_num k < key_num (kid_key y)) rest.
Proof.
  intros Hk. induction kids as [|x kids IH]; intros Ho Hs; [by exists []|].
  apply Forall_cons in Ho as [Hx Ho]. apply separated_cons in Hs as (_&Hp&Hs).
  unfold upto. cbn [take_until]. rewrite compareKey_gt by done.
  destruct (Z.ltb_spec (key_num k) (key_num (kid_key x))) as [Hlt|Hge].
  - exists (x :: kids). split; [done|]. constructor; [done|]. eapply Forall_impl; [exact Hp|].
    intros y [? _]. lia.
  - destruct (IH Ho Hs) as (rest&E&Hr). exists rest. split; [|done]. cbn [app]. f_equal. exact E.
Qed.

(** The child [tracePath] follows: the last one at or below [k], the leftmost
    when every separator is above [k]. *)
Lemma route_split k kids :
  key_ok k -> Forall (fun x => key_ok (kid_key x)) kids -> separated kids -> kids <> [] ->
  exists kl x kr, kids = kl ++ x :: kr /\
    leaf_map (concat (map kid_recs kids)) !! k = leaf_map (kid_recs x) !! k /\
    match last (upto k kids) with
    | Some y => y = x /\ upto k kids = kl ++ [x] /\ key_num (kid_key x) <= key_num k /\
                Forall (fun y => key_num k < key_num (kid_key y)) kr
    | None => kl = []
    end.
Proof.
  intros Hk Ho Hs Hne. destruct (upto_split k kids Hk Ho Hs) as (rest&E&Hr).
  pose proof (separated_lookup k kids Hk Ho Hs) as Hlk.
  destruct (last (upto k kids)) as [y|] eqn:El.
  - apply last_Some in El as [pre El]. exists pre, y, rest. rewrite El, <- app_assoc in E. split_and!; try done.
    apply (upto_le k kids); try done. rewrite El. apply elem_of_app. right. by left.
  - destruct kids as [|x kids]; [done|]. exists [], x, kids. split_and!; try done. rewrite Hlk. symmetry.
    apply last_None in El. rewrite El in E. cbn in E. rewrite <- E in Hr. apply Forall_cons in Hr as [Hr _].
    apply separated_cons in Hs as (Hself&_). apply leaf_map_None_key. eapply Forall_impl; [exact Hself|].
    intros r Hle. cbn in Hle. lia.
Qed.

(** Every internal node on the route has a separator at or below [k]. *)
Fixpoint covers (rn : Z -> outcome bytes) (h : nat) (a : Z) (k : key) : Prop :=
  match h with
  | O => True
  | S h => exists buf ptrs p, rn a = Ok buf /\ internal_repr buf (Z.of_nat (S h)) ptrs /\
      last (take_until (fun p => 0 <? compareKey p.1 k) ptrs) = Some p /\ covers rn h p.2 k
  end.

Lemma ptr_slots_inj buf i l l' :
  length l = length l' -> ptr_slots buf i l -> ptr_slots buf i l' -> l = l'.
Proof.
  revert i l'. induction l as [|[k p] l IH]; intros i [|[k' p'] l'] Hl; try done. cbn [ptr_slots].
  intros (E1&E2&H) (E1'&E2'&H'). rewrite (IH _ l' ltac:(cbn in Hl; lia) H H'). congruence.
Qed.
Lemma internal_repr_inj buf lv lv' l l' : internal_repr buf lv l -> internal_repr buf lv' l' -> l = l'.
Proof.
  intros (H1&_&_&_&_&H2) (H1'&_&_&_&_&H2'). eapply ptr_slots_inj; [|done..]. lia.
Qed.

Lemma zrecs_app zs zs' c : zrecs (zs ++ zs') c = zrecs zs' (zrecs zs c).
Proof. revert c. induction zs as [|f zs IH]; intros c; [done|]. cbn. apply IH. Qed.

Lemma keys_sorted_head k d l :
  keys_sorted ((k, d) :: l) -> Forall (fun r => key_num k <= key_num r.1) ((k, d) :: l).
Proof.
  intros [_ Hs]%keys_sorted_cons. constructor; [cbn; lia|]. apply Forall_forall. intros r Hr.
  rewrite Forall_forall in Hs. specialize (Hs r.1 (list_elem_of_fmap_2 fst _ _ Hr)). unfold key_lt in Hs. lia.
Qed.

(** Two subtrees in the place of one. *)
Lemma separated_plug2 kl x kr a1 c1 ads1 sk a2 c2 ads2 :
  let ok c := Forall (fun r => key_num (kid_key x) <= key_num r.1 /\
                   Forall (fun y => key_num r.1 < key_num (kid_key y)) kr) c in
  separated (kl ++ x :: kr) -> ok c1 -> ok c2 -> c1 <> [] -> c2 <> [] ->
  Forall (fun r => key_num r.1 < key_num sk) c1 -> Forall (fun r => key_num sk <= key_num r.1) c2 ->
  separated (kl ++ Kid (kid_key x) a1 c1 ads1 :: Kid sk a2 c2 ads2 :: kr).
Proof.
  cbn zeta. intros Hs H1 H2 N1 N2 L1 L2.
  pose proof (separated_plug _ _ _ a1 c1 ads1 Hs H1) as P1. pose proof (separated_plug _ _ _ a2 c2 ads2 Hs H2) as P2.
  rewrite separated_app, separated_cons in P1. destruct P1 as (P1&(P2'&P3&P4)&P5).
  rewrite separated_app, separated_cons in P2. destruct P2 as (_&(_&P6&_)&_).
  assert (Hlo : key_num (kid_key x) < key_num sk).
  { destruct c1 as [|r c1]; [done|]. apply Forall_cons in H1 as [[? _] _]. apply Forall_cons in L1 as [? _]. lia. }
  assert (Hhi : Forall (fun y => key_num sk < key_num (kid_key y)) kr).
  { destruct c2 as [|r c2]; [done|]. apply Forall_cons in H2 as [[_ H2] _]. apply Forall_cons in L2 as [? _].
    eapply Forall_impl; [exact H2|]. intros y Hy. cbn in Hy. lia. }
  rewrite separated_app, !separated_cons. split_and!; try done.
  - constructor; [|done]. done.
  - apply Forall_forall. intros y Hy. rewrite Forall_forall in Hhi, P6. split; [by apply Hhi|]. by apply P6.
  - eapply Forall_impl; [exact P5|]. intros y Hy. apply Forall_cons in Hy as [Hy Hr]. constructor; [done|].
    constructor; [|done]. destruct Hy as [Hy1 Hy2]. cbn [kid_key] in *. split; [cbn [kid_key]; lia|].
    eapply Forall_impl; [exact Hy2|]. intros r Hr'. cbn [kid_key] in *. lia.
Qed.

(** Cutting a list of children in two. *)
Lemma separated_cut kl y kr :
  separated (kl ++ y :: kr) ->
  Forall (fun r => key_num r.1 < key_num (kid_key y)) (concat (map kid_recs kl)) /\
  Forall (fun r => key_num (kid_key y) <= key_num r.1) (concat (map kid_recs (y :: kr))).
Proof.
  rewrite separated_app, separated_cons. intros (_&(Hs&Hp&Hr)&Hx). split.
  - induction kl as [|x kl IH]; [constructor|]. apply Forall_cons in Hx as [Hx Hx'].
    apply Forall_cons in Hx as [[_ Hx] _]. cbn. apply Forall_app. split; [done|by apply IH].
  - cbn. apply Forall_app. split; [done|]. clear Hx. induction kr as [|z kr IH]; [constructor|].
    apply Forall_cons in Hp as [[Hz _] Hp]. apply separated_cons in Hr as (Hsz&_&Hr). cbn.
    apply Forall_app. split; [|by apply IH]. eapply Forall_impl; [exact Hsz|]. intros r Hle. cbn in Hle. lia.
Qed.

(** ** Coverage from tightness *)
Lemma low_mono rn h a z z' : low rn h a z -> z <= z' -> low rn h a z'.
Proof. destruct h; [done|]. intros (buf&k&p&l&?&?&?) Hz. exists buf, k, p, l. split_and!; [done..|lia]. Qed.

(** A tree with an item at or below [z] has a root separator at or below it. *)
Lemma wtree_low rn h a c ads r z :
  wtree rn h a c ads -> r ∈ c -> key_num r.1 <= z -> low rn h a z.
Proof.
  destruct h as [|h]; [done|]. intros (buf&kids&Hr&Hi&->&_&Hs&Hne&_) Hin Hz.
  destruct kids as [|y kids]; [done|]. exists buf, (kid_key y), (kid_addr y), (map kid_ptr kids).
  split_and!; [done..|]. destruct (separated_cut [] y kids Hs) as [_ Hall].
  rewrite Forall_forall in Hall. specialize (Hall _ Hin). cbn in Hall. lia.
Qed.

Lemma wtree_covers rn h a c ads k :
  tight -> wtree rn h a c ads -> key_ok k -> low rn h a (key_num k) -> covers rn h a k.
Proof.
  intros Ht. revert a c ads. induction h as [|h IH]; intros a c ads; [done|].
  intros (buf&kids&Hr&Hi&_&_&Hs&_&Hks) Hk (b'&k0&p0&l0&Hr'&Hi'&Hle).
  rewrite Hr in Hr'. injection Hr' as <-. pose proof (internal_repr_inj _ _ _ _ _ Hi' Hi) as E.
  assert (Hko : Forall (fun x => key_ok (kid_key x)) kids).
  { destruct Hi as (_&_&_&_&_&Hslots). apply ptr_slots_keys_ok in Hslots. exact (proj1 (Forall_fmap _ _ _) Hslots). }
  destruct kids as [|y kids]; [done|]. cbn in E. injection E as -> -> ->.
  assert (Hu : exists x, last (upto k (y :: kids)) = Some x).
  { unfold upto. cbn [take_until]. apply Forall_cons in Hko as [Hy _]. rewrite compareKey_gt by done.
    rewrite (proj2 (Z.ltb_ge _ _)) by lia. rewrite last_cons. destruct (last _); eauto. }
  destruct Hu as [x Hx]. assert (Hin : x ∈ upto k (y :: kids)).
  { apply last_Some in Hx as [l' ->]. apply elem_of_app. right. by left. }
  destruct (upto_split k (y :: kids) Hk Hko Hs) as (rest&Ek&_).
  assert (Hin' : x ∈ y :: kids) by (rewrite Ek; apply elem_of_app; by left).
  rewrite Forall_forall in Hks. destruct (Hks _ Hin') as (_&_&Hlow&Hw).
  exists buf, (map kid_ptr (y :: kids)), (kid_ptr x). split_and!; try done.
  - rewrite take_until_map. change (map kid_ptr ?l) with (kid_ptr <$> l). rewrite fmap_last.
    change (take_until _ (y :: kids)) with (upto k (y :: kids)). by rewrite Hx.
  - apply (IH _ _ _ Hw Hk). eapply low_mono; [by apply Hlow|]. by apply (upto_le k (y :: kids)).
Qed.

Section Mutate.
Context `{HL : SafeIOLaws} {D : Type} `{RWL : RWLaws D} (partOff : Z) (sb : superblock) (dv : dataView).
Context (Hflat : flat_map partOff sb).
Abbreviation St := (cowState D).
Abbreviation NS := (sb_nodeSize sb).
Abbreviation rn := (rn partOff sb).
Abbreviation Inv := (Inv partOff sb dv).
Abbreviation writeCowNode := (writeCowNode partOff sb).

Lemma hlow_kids (rn : Z -> outcome bytes) kids zs h a :
  (tight -> zlow kids zs) ->
  (forall z, match kids with [] => True | y :: _ => key_num (kid_key y) <= z -> low rn h a z end) ->
  hlow rn zs h a.
Proof using.
  intros Hz Hl Ht. specialize (Hz Ht). destruct zs as [|g zs]; [done|]. cbn in Hz.
  specialize (Hl (key_num (kid_key (zf_x g)))). destruct kids; [done|]. by apply Hl.
Qed.

Lemma write_leaf s live buf c :
  Inv s live -> blen buf = NS -> leaf_repr buf c -> keys_sorted c ->
  (writeCowNode buf s = (s, Err ErrOther) /\ full s) \/
  exists s' a, writeCowNode buf s = (s', Ok a) /\ Inv s' (a :: live) /\
    (forall x, x ∈ live -> rn s' x = rn s x) /\ wtree (rn s') 0 a c [a].
Proof using Hflat HL RWL.
  intros Hi Hb Hl Hs. destruct (writeCowNode_spec partOff sb dv Hflat s live buf Hi Hb) as [E|(s'&a&buf'&E&Hi'&Hr&Hbody&_&Hsame&_)];
    [by left|]. right. exists s', a. split_and!; try done. exists buf'. split_and!; try done.
  by eapply leaf_repr_body.
Qed.

Lemma write_internal s live buf h kids :
  Inv s live -> blen buf = NS -> internal_repr buf (Z.of_nat (S h)) (map kid_ptr kids) ->
  separated kids -> kids <> [] -> Forall (kid_ok (rn s) h) kids ->
  (forall x, x ∈ concat (map kid_addrs kids) -> x ∈ live) ->
  (writeCowNode buf s = (s, Err ErrOther) /\ full s) \/
  exists s' a, writeCowNode buf s = (s', Ok a) /\ Inv s' (a :: live) /\
    (forall x, x ∈ live -> rn s' x = rn s x) /\
    (forall z, match kids with [] => True | y :: _ => key_num (kid_key y) <= z -> low (rn s') (S h) a z end) /\
    wtree (rn s') (S h) a (concat (map kid_recs kids)) (a :: concat (map kid_addrs kids)).
Proof using Hflat HL RWL.
  intros Hi Hb Hin Hs Hne Hk Hl.
  destruct (writeCowNode_spec partOff sb dv Hflat s live buf Hi Hb) as [E|(s'&a&buf'&E&Hi'&Hr&Hbody&_&Hsame&_)];
    [by left|]. right. exists s', a. assert (Hin' := internal_repr_body _ _ _ _ Hin Hbody).
  split_and!; try done.
  { intros z. destruct kids as [|y kids]; [done|]. intros Hz. exists buf', (kid_key y), (kid_addr y), (map kid_ptr kids). done. }
  exists buf', kids. split_and!; try done.
  - apply (kids_ok_agree (rn s)); [done|]. intros x Hx. apply Hsame, Hl, Hx.
Qed.

Lemma live_u64 s live a : Inv s live -> a ∈ live -> a <> 0 /\ is_u64 a.
Proof using Hflat.
  intros Hi Ha. destruct (Inv_live_nonzero partOff sb dv Hflat _ _ _ Hi Ha) as [? Hm].
  pose proof (mapped_addr partOff sb Hflat a Hm). unfold is_u64. lia.
Qed.

(** Copying the path above a rewritten subtree. *)
Definition up_post (zs : list zframe) (h : nat) (s : St) (c : list rec) (ads freed keep : list Z)
    (r : St * outcome up_result) : Prop :=
  match r with
  | (s', Ok (UpDone false a' freed')) =>
      freed' = freed ++ zpath zs /\
      exists ads', wtree (rn s') (h + length zs) a' (zrecs zs c) ads' /\
        Inv s' (ads' ++ keep) /\ forall x, x ∈ keep -> rn s' x = rn s x
  | (s', Err e) =>
      e = ErrOther /\ full s' /\ exists leak, Inv s' (leak ++ ads ++ zside zs ++ keep) /\
        forall x, x ∈ ads ++ zside zs ++ keep -> rn s' x = rn s x
  | _ => False
  end.

Lemma mutate_up_live zs : forall h s a c ads freed keep,
  Inv s (ads ++ zside zs ++ keep) -> wtree (rn s) h a c ads -> (zs <> [] -> c <> []) ->
  recs_in zs c -> zwf NS (rn s) h zs -> hlow (rn s) zs h a ->
  up_post zs h s c ads freed keep (mutate_up partOff sb (zentries h zs) false a freed s).
Proof using Hflat HL RWL.
  induction zs as [|f zs IH]; intros h s a c ads freed keep Hi Hw Hc Hin Hz Hlow.
  - cbn. rewrite Nat.add_0_r, app_nil_r. split; [done|]. exists ads. done.
  - cbn [zwf] in Hz. destruct Hz as (Hb&Hnode&Hsep&Hside&Hsin&Hzl&Hz). specialize (Hc ltac:(done)).
    destruct (wtree_head _ _ _ _ _ Hw) as [rest Eads].
    destruct (live_u64 s _ a Hi) as [Ha0 Hau]; [rewrite Eads; by left|].
    destruct (frame_repoint f _ a (next_gen sb) Hnode Hau (u64_range _)) as (buf'&pre&post&E&Hn&E1&E2&_&L).
    apply outcome_bind_Ok in E as (b1&Eb1&Eb2).
    cbn [zentries mutate_up zentry pe_buf pe_childIdx pe_logAddr].
    erewrite sm_lift_Ok by exact Eb1. erewrite sm_lift_Ok by exact Eb2.
    apply recs_in_cons in Hin as [Hin Hin'].
    set (kids := zf_kl f ++ Kid (kid_key (zf_x f)) a c ads :: zf_kr f).
    assert (Hik : internal_repr buf' (Z.of_nat (S h)) (map kid_ptr kids)).
    { apply node_repr_internal in Hn; [|lia]. rewrite map_app in Hn. revert Hn.
      change (fun e => (kp_k e, kp_child e)) with kp_ptr. rewrite E1, E2, <- app_assoc.
      unfold kids. by rewrite map_app. }
    unfold zf_side in Hside. apply Forall_app in Hside as [Hkl Hkr].
    destruct (write_internal s (ads ++ zside (f :: zs) ++ keep) buf' h kids) as [[Ew Hfull]|(s'&a'&Ew&Hi'&Hsame&Hlow'&Hw')]; try done.
    { lia. }
    { by apply separated_plug. }
    { unfold kids. by destruct (zf_kl f). }
    { unfold kids. apply Forall_app. split; [done|]. constructor; [done|done]. }
    { intros x. unfold kids. rewrite map_app, concat_app. cbn [map concat kid_addrs]. intros Hx. mem. }
    + erewrite sm_bind_Err by exact Ew. cbn. split; [done|]. split; [done|]. exists []. done.
    + erewrite sm_bind_Ok by exact Ew.
      set (ads1 := a' :: concat (map kid_addrs kids)) in *.
      assert (Hi1 : Inv s' (ads1 ++ zside zs ++ keep)).
      { eapply Inv_perm; [|exact Hi']. unfold ads1, kids. perm. }
      specialize (IH (S h) s' a' (concat (map kid_recs kids)) ads1 (freed ++ [zf_addr f]) keep Hi1 Hw').
      assert (Erec : concat (map kid_recs kids) =
        concat (map kid_recs (zf_kl f)) ++ c ++ concat (map kid_recs (zf_kr f)))
        by (unfold kids; rewrite map_app, concat_app; done).
      cbn [zrecs zpath map] in *. specialize (IH ltac:(intros _; rewrite Erec; by intros [_ [? _]%app_eq_nil]%app_eq_nil)).
      assert (Hin1 : recs_in zs (concat (map kid_recs kids))).
      { rewrite Erec. unfold zf_side in Hsin. rewrite map_app, concat_app in Hsin. unfold recs_in in *.
        rewrite !Forall_app in *. tauto. }
      specialize (IH Hin1 ltac:(eapply zwf_agree; [exact Hz|intros x Hx; apply Hsame; mem])).
      assert (Hl1 : hlow (rn s') zs (S h) a').
      { apply (hlow_kids _ kids); [|done]. intros Ht. specialize (Hzl Ht). destruct zs; [done|].
        unfold kids. unfold zf_kids in Hzl. by destruct (zf_kl f). }
      specialize (IH Hl1). revert IH. unfold up_post. destruct (mutate_up _ _ _ _ _ _ s') as [s2 [[?|[|] a2 fr2]|e| |]]; try done.
      * intros (->&ads2&Hw2&Hi2&Hs2). split; [by rewrite <- app_assoc|]. exists ads2.
        cbn [zrecs length]. rewrite <- Erec. replace (h + S (length zs))%nat with (S h + length zs)%nat by lia.
        split_and!; try done. intros x Hx. rewrite Hs2 by done. apply Hsame. mem.
      * intros (->&Hfull&leak&Hi2&Hs2). split; [done|]. split; [done|]. exists (a' :: leak). split.
        -- eapply Inv_perm; [|exact Hi2]. unfold ads1, kids. perm.
        -- intros x Hx. rewrite Hs2; [apply Hsame; done|]. unfold ads1, kids.
           rewrite map_app, concat_app. cbn [map concat kid_addrs]. mem.
Qed.

(** Dropping an emptied subtree and copying what is left of the path. *)
Definition drop_post (zs : list zframe) (h : nat) (s : St) (freed others : list Z)
    (r : St * outcome up_result) : Prop :=
  let freed' := freed ++ zpath zs in
  match r with
  | (s', Ok (UpRoot a')) =>
      exists h' ads', (h' <= h + length zs)%nat /\ wtree (rn s') h' a' (zrecs zs []) ads' /\
        Inv s' (ads' ++ others) /\ forall x, x ∈ others -> rn s' x = rn s x
  | (s', Ok (UpDone false a' freed'')) =>
      freed'' = freed' /\
      exists ads', wtree (rn s') (h + length zs) a' (zrecs zs []) ads' /\
        Inv s' (ads' ++ freed' ++ others) /\ forall x, x ∈ freed' ++ others -> rn s' x = rn s x
  | (s', Err e) =>
      e = ErrOther /\ full s' /\ exists leak, Inv s' (leak ++ zside zs ++ freed' ++ others) /\
        forall x, x ∈ zside zs ++ freed' ++ others -> rn s' x = rn s x
  | _ => False
  end.

Lemma single_ptr buf level k :
  internal_repr buf level [kid_ptr k] -> Uint64 buf (nodeHdrSize + 17) = Ok (kid_addr k).
Proof using.
  intros (_&_&_&Hf&_&Hp). cbn in Hf, Hp. destruct Hp as (_&E&_). rewrite get_le_Ok by hdr_lia.
  rewrite Z.add_0_r in E. by rewrite E.
Qed.

Lemma mutate_up_drop zs : forall h s a0 freed others,
  zs <> [] -> Inv s (zside zs ++ freed ++ zpath zs ++ others) -> zwf NS (rn s) h zs -> zrecs zs [] <> [] ->
  (tight -> (length zs <= 1)%nat) ->
  drop_post zs h s freed others (mutate_up partOff sb (zentries h zs) true a0 freed s).
Proof using Hflat HL RWL.
  induction zs as [|f zs IH]; intros h s a0 freed others Hne Hi Hz Hc Hshort; [done|].
  cbn [zwf] in Hz. destruct Hz as (Hb&Hnode&Hsep&Hside&Hsin&Hzl&Hz).
  destruct (frame_remove f _ Hnode ltac:(lia)) as (buf'&E&Hnode'&L).
  cbn [zentries mutate_up zentry pe_buf pe_childIdx pe_logAddr].
  erewrite sm_lift_Ok by exact E. erewrite sm_lift_Ok by exact (internal_hdr _ _ _ Hnode').
  cbn [hdr_nItems]. rewrite length_map. unfold zf_kids in Hsep. apply separated_remove in Hsep.
  change (zf_kl f ++ zf_kr f) with (zf_side f) in Hsep.
  assert (Erec : zrecs (f :: zs) [] = zrecs zs (concat (map kid_recs (zf_side f))))
    by (cbn [zrecs]; unfold zf_side; by rewrite map_app, concat_app).
  assert (Eside : zside (f :: zs) = concat (map kid_addrs (zf_side f)) ++ zside zs) by done.
  destruct (zf_side f) as [|k kids] eqn:Es.
  - destruct zs as [|g zs]; [by rewrite Erec in Hc|]. cbn [zentries].
    cbn [length Z.of_nat Z.eqb negb andb]. rewrite Eside in Hi. cbn [map concat app] in Hi.
    specialize (IH (S h) s a0 (freed ++ [zf_addr f]) others ltac:(done)).
    rewrite Erec in Hc. cbn [map concat] in Hc.
    assert (Hi1 : Inv s (zside (g :: zs) ++ (freed ++ [zf_addr f]) ++ zpath (g :: zs) ++ others))
      by (rewrite <- app_assoc; exact Hi).
    specialize (IH Hi1 Hz Hc ltac:(intros Ht; specialize (Hshort Ht); cbn in Hshort; lia)). revert IH. unfold drop_post. rewrite Eside, Erec. cbn [zentries map concat app zpath].
    rewrite <- app_assoc. cbn [app length].
    replace (S h + S (length zs))%nat with (h + S (S (length zs)))%nat by lia. done.
  - assert (Hlen : (Z.of_nat (length (k :: kids)) =? 0) = false) by (apply Z.eqb_neq; cbn; lia).
    rewrite Hlen. cbn [andb].
    destruct (match zentries (S h) zs with [] => true | _ => false end && (Z.of_nat (length (k :: kids)) =? 1)) eqn:Eroot.
    + bool_prop. destruct zs as [|g zs]; [|done]. destruct kids as [|? ?]; [|cbn in *; lia].
      erewrite sm_lift_Ok by exact (single_ptr _ _ _ Hnode').
      apply Forall_cons in Hside as [(Hk0&Hkr&_&Hkw) _]. rewrite Eside in Hi. cbn in Hi. rewrite app_nil_r in Hi.
      destruct (free_all_spec partOff sb dv Hflat s (freed ++ [zf_addr f]) (kid_addrs k ++ others)) as (s'&Ef&Hi'&Hd).
      { eapply Inv_perm; [|exact Hi]. rewrite app_nil_r. perm. }
      erewrite sm_bind_Ok by exact Ef. cbn [drop_post]. exists h, (kid_addrs k).
      assert (Hag : forall x, rn s' x = rn s x) by (intros x; unfold Store.rn; by rewrite Hd).
      split_and!; [lia| |done|done]. rewrite Erec. cbn. rewrite app_nil_r. eapply wtree_agree; [exact Hkw|done].
    + destruct (write_internal s (zside (f :: zs) ++ freed ++ zpath (f :: zs) ++ others) buf' h (k :: kids))
        as [[Ew Hfull]|(s'&a'&Ew&Hi'&Hsame&_&Hw')]; try done; [lia| | |].
      { rewrite Eside. intros x Hx. mem. }
      * erewrite sm_bind_Err by exact Ew. cbn [drop_post]. split; [done|]. split; [done|]. exists [].
        rewrite <- app_assoc. done.
      * erewrite sm_bind_Ok by exact Ew. rewrite Eside in Hi', Hsame.
        set (ads1 := a' :: concat (map kid_addrs (k :: kids))) in *.
        pose proof (mutate_up_live zs (S h) s' a' (concat (map kid_recs (k :: kids))) ads1 (freed ++ [zf_addr f])
          ((freed ++ zpath (f :: zs)) ++ others)) as Hlive.
        assert (Hi1 : Inv s' (ads1 ++ zside zs ++ (freed ++ zpath (f :: zs)) ++ others)).
        { eapply Inv_perm; [|exact Hi']. unfold ads1. perm. }
        specialize (Hlive Hi1 Hw').
        assert (Hkr : concat (map kid_recs (k :: kids)) <> []).
        { apply Forall_cons in Hside as [(_&Hkr&_) _]. cbn. by intros [? _]%app_eq_nil. }
        specialize (Hlive (fun _ => Hkr) Hsin ltac:(eapply zwf_agree; [exact Hz|intros x Hx; apply Hsame; mem])).
        specialize (Hlive ltac:(intros Ht; specialize (Hshort Ht); destruct zs; [done|cbn in Hshort; lia])).
        revert Hlive. unfold up_post, drop_post. destruct (mutate_up _ _ _ _ _ _ s') as [s2 [[?|[|] a2 fr2]|e| |]]; try done.
        -- intros (->&ads2&Hw2&Hi2&Hs2). cbn [zpath map]. rewrite <- app_assoc. split; [done|]. exists ads2.
           rewrite Erec. cbn [length]. replace (h + S (length zs))%nat with (S h + length zs)%nat by lia.
           split_and!; [done| |].
           ++ eapply Inv_perm; [|exact Hi2]. cbn [zpath map]. perm.
           ++ intros x Hx. rewrite Hs2 by (cbn [zpath map]; mem). apply Hsame. cbn [zpath map] in *. mem.
        -- intros (->&Hfull&leak&Hi2&Hs2). split; [done|]. split; [done|]. exists (a' :: leak). rewrite Eside. split.
           ++ eapply Inv_perm; [|exact Hi2]. unfold ads1. perm.
           ++ intros x Hx. rewrite Hs2; [apply Hsame; mem|]. unfold ads1. mem.
Qed.

(** The frames [znew] lead from the node at [a] down to the leaf. *)
Record traced (s : St) (zs : list zframe) (h : nat) (a : Z) (c : list rec) (ads : list Z) (k : key)
    (znew : list zframe) (leaf : Z) (buf : bytes) (recs : list rec) : Prop := {
  tr_len : length znew = h;
  tr_zwf : zwf NS (rn s) 0 (znew ++ zs);
  tr_read : rn s leaf = Ok buf;
  tr_leaf : leaf_repr buf recs;
  tr_sorted : keys_sorted recs;
  tr_content : c = zrecs znew recs;
  tr_ads : ads ≡ₚ leaf :: zside znew ++ zpath znew;
  tr_nonempty : znew <> [] -> recs <> [];
  tr_in : recs_in (znew ++ zs) recs;
  tr_covered : covers (rn s) h a k -> zin zs (key_num k) -> zin (znew ++ zs) (key_num k);
  tr_lookup : leaf_map c !! k = leaf_map recs !! k;
}.

Lemma zentries_snoc h zs f : zentries h (zs ++ [f]) = zentries h zs ++ [zentry (S (h + length zs)) f].
Proof using.
  revert h. induction zs as [|g zs IH]; intros h; cbn [zentries app length]; [by rewrite Nat.add_0_r|].
  rewrite IH. by replace (S h + length zs)%nat with (h + S (length zs))%nat by lia.
Qed.

(** One step down: the child the loop chooses, and the frame around it. *)
Lemma choose_child s zs h a c ads buf kids k :
  rn s a = Ok buf -> blen buf = NS -> internal_repr buf (Z.of_nat (S h)) (map kid_ptr kids) ->
  c = concat (map kid_recs kids) -> ads = a :: concat (map kid_addrs kids) ->
  separated kids -> kids <> [] -> Forall (kid_ok (rn s) h) kids -> key_ok k ->
  zwf NS (rn s) (S h) zs -> recs_in zs c -> hlow (rn s) zs (S h) a ->
  exists f,
    (c ← choose_loop (Z.to_nat (itemsThatFit buf (Z.of_nat (length (map kid_ptr kids))) keyPtrSize))
           buf (Z.of_nat (length (map kid_ptr kids))) k 0 (-1, 0);
     if c.1 <? 0 then p ← Uint64 buf (nodeHdrSize + 17); Ok (0, p) else Ok c) =
    Ok (Z.of_nat (length (zf_kl f)), kid_addr (zf_x f)) /\
    zf_addr f = a /\ zf_buf f = buf /\ zf_kids f = kids /\ zwf NS (rn s) h (f :: zs) /\
    recs_in (f :: zs) (kid_recs (zf_x f)) /\ leaf_map c !! k = leaf_map (kid_recs (zf_x f)) !! k /\
    (covers (rn s) (S h) a k -> zin zs (key_num k) ->
     covers (rn s) h (kid_addr (zf_x f)) k /\ zin (f :: zs) (key_num k)).
Proof using Hflat HL RWL.
  intros Hr Hb Hi Ec Ea Hs Hne Hk Hkey Hz Hin Hlow.
  assert (Hkok : Forall (fun x => key_ok (kid_key x)) kids).
  { destruct Hi as (_&_&_&_&_&Hslots). apply ptr_slots_keys_ok in Hslots. exact (proj1 (Forall_fmap _ _ _) Hslots). }
  destruct (route_split k kids Hkey Hkok Hs Hne) as (kl&x&kr&Ek&Hlk&Hroute).
  exists (Zframe a buf kl x kr). cbn [zf_kl zf_x zf_addr zf_buf zf_kr].
  assert (Hkids : zf_kids (Zframe a buf kl x kr) = kids) by done.
  pose proof Hi as (Hn&_&_&Hf&_&Hslots).
  assert (Hupto : take_until (fun p => 0 <? compareKey p.1 k) (map kid_ptr kids) = map kid_ptr (upto k kids))
    by (rewrite take_until_map; done).
  split_and!; try done.
  - rewrite (choose_loop_slots _ buf k 0 (map kid_ptr kids) (-1, 0)) by
      (try done; unfold itemsThatFit; rewrite Z.quot_div_nonneg by hdr_lia;
       pose proof (Z.div_le_lower_bound (blen buf - nodeHdrSize) keyPtrSize (Z.of_nat (length (map kid_ptr kids))));
       repeat case_if; hdr_lia).
    cbn zeta. cbn [mbind outcome_bind]. rewrite Hupto.
    change (map kid_ptr (upto k kids)) with (kid_ptr <$> upto k kids). rewrite fmap_last.
    destruct (last (upto k kids)) as [y|] eqn:El; cbn [fmap option_fmap option_map].
    + destruct Hroute as (->&Eu&_). rewrite Eu, length_fmap, length_app. cbn [length fst snd kid_ptr].
      case_if; [lia|]. do 2 f_equal. lia.
    + cbn [fst snd]. subst kl. rewrite Ek in Hslots. cbn [app map ptr_slots kid_ptr] in Hslots.
      destruct Hslots as (_&Hp&_). rewrite get_le_Ok by (rewrite Ek in Hf; cbn [map length app] in Hf; hdr_lia).
      cbn. rewrite Z.add_0_r in Hp. by rewrite Hp.
  - cbn [zwf zf_buf]. rewrite Hkids. split_and!; try done.
    + unfold zf_side. cbn [zf_kl zf_kr]. rewrite Ek in Hk. apply Forall_app in Hk as [? Hk].
      apply Forall_cons in Hk as [_ ?]. by apply Forall_app.
    + unfold zf_side. cbn [zf_kl zf_kr]. rewrite Ec, Ek in Hin. unfold recs_in in *.
      rewrite map_app, concat_app in *. cbn [map concat] in Hin. rewrite !Forall_app in *. tauto.
    + intros Ht. specialize (Hlow Ht). destruct zs as [|g zs]; [done|]. destruct Hlow as (b'&k'&p'&l'&Hr'&Hi'&Hle).
      rewrite Hr in Hr'. injection Hr' as <-. pose proof (internal_repr_inj _ _ _ _ _ Hi' Hi) as E.
      destruct kids as [|y kids]; [done|]. cbn in E |- *. injection E as -> _ _. done.
  - apply recs_in_cons. cbn [zf_x zf_kr]. rewrite Ek in Hs. apply separated_app in Hs as (_&Hs&_).
    apply separated_cons in Hs as (Hself&Hp&_). split.
    + apply Forall_forall. intros r Hr'. unfold sep_self in Hself. rewrite Forall_forall in Hself.
      split; [by apply Hself|]. eapply Forall_impl; [exact Hp|]. intros y [_ Hy]. rewrite Forall_forall in Hy. by apply Hy.
    + rewrite Ec, Ek in Hin. unfold recs_in in *. rewrite map_app, concat_app in Hin. cbn [map concat] in Hin.
      rewrite !Forall_app in Hin. tauto.
  - by rewrite Ec.
  - intros (buf'&ptrs&p&Hr'&Hi'&Hl&Hcov) Hzin. rewrite Hr in Hr'. injection Hr' as <-.
    rewrite (internal_repr_inj _ _ _ _ _ Hi' Hi), Hupto in Hl.
    change (map kid_ptr (upto k kids)) with (kid_ptr <$> upto k kids) in Hl. rewrite fmap_last in Hl.
    destruct (last (upto k kids)) as [y|]; [|done]. destruct Hroute as (->&_&Hle&Hlt).
    cbn in Hl. injection Hl as <-. split; [done|]. cbn [zin zf_x zf_kr]. done.
Qed.

Lemma tracePath_loop_spec h : forall fuel seen zs a c ads d k s,
  wtree (rn s) h a c ads -> (forall x, x ∈ ads -> mapped sb x) -> key_ok k ->
  seen_above (rn s) seen h -> d + Z.of_nat h <= maxBtreeDepth -> (h < fuel)%nat ->
  zwf NS (rn s) h zs -> recs_in zs c -> hlow (rn s) zs h a ->
  exists znew leaf buf recs,
    tracePath_loop partOff sb fuel seen a d k s =
      (s, Ok (rev (zentries 0 znew) ++ [PathEntry leaf buf 0 0])) /\
    ((h <> 0%nat \/ c <> []) -> recs <> []) /\
    traced s zs h a c ads k znew leaf buf recs.
Proof using Hflat HL RWL.
  induction h as [|h IH]; intros fuel seen zs a c ads d k s Hw Hmap Hk Hseen Hd Hfuel Hz Hin Hlow;
    (destruct fuel as [|fuel]; [lia|]); cbn [tracePath_loop]; (case_if; [lia|]);
    destruct (fresh_below (rn s) seen _ a c ads (wtree_subtree _ _ _ _ _ Hw) Hseen) as (seen'&Ev&Hseen');
    erewrite sm_lift_Ok by exact Ev.
  - destruct Hw as (buf&Hr&Hl&Hs&->). erewrite sm_bind_Ok by (unfold node_read; fold (rn s a); by rewrite Hr).
    destruct (leaf_repr_header _ _ Hl) as [la Hh]. erewrite sm_lift_Ok by exact Hh.
    cbn [hdr_level]. rewrite Z.eqb_refl. exists [], a, buf, c. split; [done|]. split; [tauto|]. by constructor.
  - destruct Hw as (buf&kids&Hr&Hi&Ec&Ea&Hs&Hne&Hks).
    erewrite sm_bind_Ok by (unfold node_read; fold (rn s a); by rewrite Hr).
    erewrite sm_lift_Ok by exact (internal_hdr _ _ _ Hi). cbn [hdr_level hdr_nItems].
    case_if; [lia|].
    assert (Hb : blen buf = NS) by (eapply rn_blen; [done|apply Hmap; rewrite Ea; by left|done]).
    destruct (choose_child s zs h a c ads buf kids k Hr Hb Hi Ec Ea Hs Hne Hks Hk Hz Hin Hlow)
      as (f&Ech&Efa&Efb&Efk&Hz'&Hin'&Hlk&Hcov).
    apply outcome_bind_Ok in Ech as (c0&Ec0&Ec1). erewrite sm_lift_Ok by exact Ec0.
    assert (Hstep : (if c0.1 <? 0 then p ← sm_lift (Uint64 buf (nodeHdrSize + 17)); mret (0, p) else mret c0) s =
      (s, Ok (Z.of_nat (length (zf_kl f)), kid_addr (zf_x f)))).
    { revert Ec1. case_if; [|by intros [= ->]]. intros Eo. apply outcome_bind_Ok in Eo as (p&Ep&[= <- <-]).
      by erewrite sm_lift_Ok by exact Ep. }
    erewrite sm_bind_Ok by exact Hstep.
    assert (Hx : zf_x f ∈ kids) by (rewrite <- Efk; unfold zf_kids; apply elem_of_app; right; by left).
    rewrite Forall_forall in Hks. destruct (Hks _ Hx) as (_&Hxr&Hxl&Hxw).
    destruct (IH fuel seen' (f :: zs) (kid_addr (zf_x f)) (kid_recs (zf_x f)) (kid_addrs (zf_x f)) (d + 1) k s Hxw)
      as (znew&leaf&lbuf&recs&Et&Hre&[T1 T2 T3 T4 T5 T6 T7 T8 T9 T10 T11]); try done.
    { intros x Hxa. apply Hmap. rewrite Ea. right. by eapply elem_of_kid_addrs. }
    { by apply Hseen'. }
    { lia. }
    { lia. }
    erewrite sm_bind_Ok by exact Et. exists (znew ++ [f]), leaf, lbuf, recs. split.
    { rewrite zentries_snoc, rev_app_distr. cbn [rev app]. unfold zentry. rewrite T1, Efa, Efb. done. }
    assert (Eapp : (znew ++ [f]) ++ zs = znew ++ f :: zs) by by rewrite <- app_assoc.
    split; [intros _; apply Hre; by right|]. constructor; rewrite ?Eapp; try done.
    + rewrite length_app, T1. cbn. lia.
    + rewrite zrecs_app, <- T6. cbn [zrecs]. rewrite Ec, <- Efk. unfold zf_kids. by rewrite map_app, concat_app.
    + rewrite Ea, <- Efk. unfold zf_kids. rewrite map_app, concat_app. cbn [map concat]. rewrite T7.
      unfold zside, zpath. rewrite !map_app, concat_app. cbn [map concat]. rewrite Efa. unfold zf_side.
      rewrite map_app, concat_app, app_nil_r. fold (zside znew). fold (zpath znew). perm.
    + intros _. apply Hre. by right.
    + intros Hc Hzin. destruct (Hcov Hc Hzin) as [Hc' Hzin']. by apply T10.
    + by rewrite Hlk.
Qed.

Lemma tracePath_spec s h root c ads others k :
  wtree (rn s) h root c ads -> Inv s (ads ++ others) -> key_ok k -> Z.of_nat h <= maxBtreeDepth ->
  exists zs leaf buf recs,
    tracePath partOff sb root k s = (s, Ok (rev (zentries 0 zs) ++ [PathEntry leaf buf 0 0])) /\
    (c <> [] -> recs <> []) /\ traced s [] h root c ads k zs leaf buf recs.
Proof using Hflat HL RWL.
  intros Hw Hi Hk Hh. destruct (tracePath_loop_spec h depth_fuel visit_empty [] root c ads 0 k s Hw)
    as (zs&leaf&buf&recs&E&Hne&Ht); try done.
  - intros x Hx. eapply Inv_live_nonzero; [done|done|]. apply elem_of_app. by left.
  - intros x Hx. rewrite visit_empty_spec in Hx. by apply not_elem_of_nil in Hx.
  - unfold depth_fuel, maxBtreeDepth in *. lia.
  - by apply Forall_forall.
  - exists zs, leaf, buf, recs. split_and!; try done. tauto.
Qed.

(** What a mutation leaves behind.  On success a tree with the content [c'] and
    every other live node untouched, the old tree's blocks reclaimed. *)
Definition cow_ok (hmax : nat) (s : St) (c' : list rec) (others : list Z) (s' : St) (root' : Z) : Prop :=
  exists h' ads', (h' <= hmax)%nat /\ wtree (rn s') h' root' c' ads' /\ Inv s' (ads' ++ others) /\
    forall x, x ∈ others -> rn s' x = rn s x.
(** On an error every node of the old tree is intact; blocks written on the way
    stay allocated. *)
Definition cow_err (s : St) (ads others : list Z) (s' : St) : Prop :=
  exists leak, Inv s' (leak ++ ads ++ others) /\ forall x, x ∈ ads ++ others -> rn s' x = rn s x.

Lemma sm_opt_Ok {A} (m : SM St A) s s' a : m s = (s', Ok a) -> sm_opt m s = (s', Ok (Some a)).
Proof using. intros E. unfold sm_opt. by rewrite E. Qed.
Lemma sm_opt_Err {A} (m : SM St A) s s' e : m s = (s', Err e) -> sm_opt m s = (s', Ok None).
Proof using. intros E. unfold sm_opt. by rewrite E. Qed.
Lemma node_read_Ok s a buf : rn s a = Ok buf -> node_read partOff sb a s = (s, Ok buf).
Proof using. intros E. unfold node_read. fold (rn s a). by rewrite E. Qed.

Lemma two_ptrs buf level k1 k2 :
  internal_repr buf level [kid_ptr k1; kid_ptr k2] ->
  Uint64 buf (nodeHdrSize + 17) = Ok (kid_addr k1) /\
  Uint64 buf (nodeHdrSize + keyPtrSize + 17) = Ok (kid_addr k2).
Proof using.
  intros (_&_&_&Hf&_&Hp). cbn in Hf, Hp. destruct Hp as (_&E1&_&E2&_). rewrite Z.add_0_r in E1.
  rewrite !get_le_Ok by hdr_lia. rewrite E1. split; [done|]. f_equal. rewrite <- E2. f_equal.
Qed.

(** Merging the two leaves [k1], [k2] of a root, once all three are read. *)
Lemma collapse_merge s root k1 k2 b1 b2 c others :
  rn s (kid_addr k1) = Ok b1 -> leaf_repr b1 (kid_recs k1) -> leaf_repr b2 (kid_recs k2) ->
  c = kid_recs k1 ++ kid_recs k2 -> keys_sorted c -> leaf_need c <= NS ->
  Inv s ([root; kid_addr k1; kid_addr k2] ++ others) ->
  exists merged, buildLeafFromItems b1 c NS = Ok merged /\
    (writeCowNode merged s = (s, Err ErrOther) \/
     exists s1 s' a, writeCowNode merged s = (s1, Ok a) /\
       free_all sb [root; kid_addr k1; kid_addr k2] s1 = (s', Ok tt) /\ cow_ok 0 s c others s' a).
Proof using Hflat HL RWL.
  intros Hr H1 H2 Ec Hs Hneed Hi. pose proof (NS_bounds partOff sb Hflat).
  pose proof (leaf_repr_bounds _ _ H1) as [Hb1 _].
  pose proof (leaf_need_ge_nrecs c).
  assert (Hko : Forall (fun r => key_ok r.1) c).
  { rewrite Ec. apply Forall_app. split; [destruct H1 as (_&_&_&_&Hp)|destruct H2 as (_&_&_&_&Hp)];
      by eapply packed_keys_ok. }
  pose proof (buildLeafFromItems_spec b1 c NS Hb1 ltac:(hdr_lia) ltac:(hdr_lia) Hko) as Hbuild.
  rewrite (proj2 (Z.leb_le _ _)) in Hbuild by done. destruct Hbuild as (m&Em&Rm&Lm&_). exists m. split; [done|].
  destruct (write_leaf s _ m c Hi Lm Rm Hs) as [[E _]|(s1&a&E&Hi1&Hsame&Hw)]; [by left|right].
  destruct (free_all_spec partOff sb dv Hflat s1 [root; kid_addr k1; kid_addr k2] (a :: others)) as (s'&Ef&Hi'&Hd).
  { eapply Inv_perm; [|exact Hi1]. perm. }
  assert (Hag : forall x, rn s' x = rn s1 x) by (intros x; unfold Store.rn; by rewrite Hd).
  exists s1, s', a. split_and!; try done. exists 0%nat, [a]. split_and!; [lia| |done|].
  - eapply wtree_agree; [exact Hw|done].
  - intros x Hx. rewrite Hag. apply Hsame. mem.
Qed.

Lemma tryCollapse_spec s h root c ads others :
  wtree (rn s) h root c ads -> Inv s (ads ++ others) ->
  (tryCollapseTwoLeafRoot partOff sb root s = (s, Ok None)) \/
  (exists s' a, tryCollapseTwoLeafRoot partOff sb root s = (s', Ok (Some a)) /\ cow_ok h s c others s' a).
Proof using Hflat HL RWL.
  intros Hw Hi. unfold tryCollapseTwoLeafRoot. pose proof (wtree_sorted _ _ _ _ _ Hw) as Hsorted.
  destruct h as [|h].
  { destruct Hw as (buf&Hr&Hl&_). left. erewrite sm_bind_Ok by (eapply sm_opt_Ok, node_read_Ok, Hr); cbv beta iota.
    destruct (leaf_repr_header _ _ Hl) as [la Hh]. erewrite sm_lift_Ok by exact Hh. done. }
  destruct Hw as (buf&kids&Hr&Hint&->&->&Hs&Hne&Hks).
  erewrite sm_bind_Ok by (eapply sm_opt_Ok, node_read_Ok, Hr); cbv beta iota.
  erewrite sm_lift_Ok by exact (internal_hdr _ _ _ Hint). cbn [hdr_level hdr_nItems].
  case_if; [by left|]. rewrite length_map in *.
  destruct h as [|h]; [|cbn in *; lia].
  destruct kids as [|k1 [|k2 [|? ?]]]; try (cbn in *; lia).
  destruct (two_ptrs _ _ _ _ Hint) as [E1 E2].
  erewrite sm_lift_Ok by exact E1. erewrite sm_lift_Ok by exact E2.
  apply Forall_cons in Hks as [(_&_&_&b1&Hr1&Hl1&_&A1) Hks]. apply Forall_cons in Hks as [(_&_&_&b2&Hr2&Hl2&_&A2) _].
  erewrite sm_bind_Ok by (eapply sm_opt_Ok, node_read_Ok, Hr1); cbv beta iota.
  erewrite sm_bind_Ok by (eapply sm_opt_Ok, node_read_Ok, Hr2); cbv beta iota.
  destruct (leaf_repr_header _ _ Hl1) as [la1 Hh1]. destruct (leaf_repr_header _ _ Hl2) as [la2 Hh2].
  erewrite sm_lift_Ok by exact Hh1. erewrite sm_lift_Ok by exact Hh2. cbn [hdr_level hdr_nItems].
  rewrite Z.eqb_refl. cbn [negb orb].
  destruct (parseLeafItems_repr _ _ Hl1) as (i1&Ei1&M1). destruct (parseLeafItems_repr _ _ Hl2) as (i2&Ei2&M2).
  erewrite sm_lift_Ok by exact Ei1. erewrite sm_lift_Ok by exact Ei2. cbn zeta. rewrite M1, M2.
  cbn [map concat] in *. rewrite app_nil_r in *. rewrite A1, A2 in Hi. case_if; [by left|].
  destruct (collapse_merge s root k1 k2 b1 b2 (kid_recs k1 ++ kid_recs k2) others) as (m&Em&Hm); try done.
  erewrite sm_bind_Ok by (eapply sm_opt_Ok; unfold sm_lift; by rewrite Em); cbv beta iota.
  destruct Hm as [Ew|(s1&s'&a&Ew&Ef&Hok)].
  - left. erewrite sm_bind_Ok by (eapply sm_opt_Err, Ew). done.
  - right. exists s', a. erewrite sm_bind_Ok by (eapply sm_opt_Ok, Ew); cbv beta iota. erewrite sm_bind_Ok by exact Ef.
    split; [done|]. destruct Hok as (h'&ads'&?&?). exists h', ads'. split; [lia|done].
Qed.

(** The end of [cowMutate]: reclaim the old blocks, then try to shrink. *)
Lemma reclaim_collapse s s1 h a c ads freed others :
  wtree (rn s1) h a c ads -> Inv s1 (ads ++ freed ++ others) ->
  (forall x, x ∈ freed ++ others -> rn s1 x = rn s x) ->
  exists s' root', (_ ← free_all sb freed;
    collapsed ← tryCollapseTwoLeafRoot partOff sb a;
    match collapsed with Some root => mret root | None => mret a end) s1 = (s', Ok root') /\
    cow_ok h s c others s' root'.
Proof using Hflat HL RWL.
  intros Hw Hi Hsame.
  destruct (free_all_spec partOff sb dv Hflat s1 freed (ads ++ others)) as (s2&Ef&Hi2&Hd).
  { eapply Inv_perm; [|exact Hi]. perm. }
  assert (Hag : forall x, rn s2 x = rn s1 x) by (intros x; unfold Store.rn; by rewrite Hd).
  assert (Hw2 : wtree (rn s2) h a c ads) by (eapply wtree_agree; [exact Hw|done]).
  erewrite sm_bind_Ok by exact Ef.
  destruct (tryCollapse_spec s2 h a c ads others Hw2 Hi2) as [E|(s'&a'&E&h'&ads'&?&?&?&Hs')];
    erewrite sm_bind_Ok by exact E; eexists _, _; (split; [done|]).
  - exists h, ads. split_and!; try done. intros x Hx. rewrite Hag. apply Hsame. mem.
  - exists h', ads'. split_and!; try done. intros x Hx. rewrite Hs' by done. rewrite Hag. apply Hsame. mem.
Qed.

Lemma traced_live s h root c ads k zs leaf buf recs others :
  traced s [] h root c ads k zs leaf buf recs -> Inv s (ads ++ others) ->
  Inv s (leaf :: zside zs ++ zpath zs ++ others) /\ blen buf = NS.
Proof using Hflat HL RWL.
  intros Ht Hi. assert (Hi' : Inv s (leaf :: zside zs ++ zpath zs ++ others)).
  { eapply Inv_perm; [|exact Hi]. rewrite (tr_ads _ _ _ _ _ _ _ _ _ _ _ Ht). perm. }
  split; [done|]. eapply rn_blen; [done| |exact (tr_read _ _ _ _ _ _ _ _ _ _ _ Ht)].
  eapply Inv_live_nonzero; [done|exact Hi'|by left].
Qed.

(** [cowMutate] applies [fn] to the leaf the key routes to and installs the
    result in a new tree. *)
Definition mutated (strict : Prop) (s : St) (h : nat) (c' : list rec) (ads others : list Z) (r : St * outcome Z) : Prop :=
  match r with
  | (s', Ok root') => cow_ok h s c' others s' root'
  | (s', Err e) => e = ErrOther /\ (strict -> full s') /\ cow_err s ads others s'
  | _ => False
  end.

Lemma mutated_kept s h root c ads k zs leaf buf recs others a' buf' recs' :
  traced s [] h root c ads k zs leaf buf recs -> Inv s (ads ++ others) ->
  leaf_repr buf' recs' -> keys_sorted recs' -> blen buf' = NS -> recs_in zs recs' ->
  (zs <> [] -> recs' <> []) ->
  mutated True s h (zrecs zs recs') ads others
    ((newChildLog ← writeCowNode buf';
      r ← mutate_up partOff sb (zentries 0 zs) false newChildLog [leaf];
      match r with
      | UpRoot childLog => mret childLog
      | UpDone deleted newChildLog freedOld =>
          _ ← free_all sb freedOld;
          if deleted then a' else
            collapsed ← tryCollapseTwoLeafRoot partOff sb newChildLog;
            match collapsed with Some root => mret root | None => mret newChildLog end
      end) s).
Proof using Hflat HL RWL.
  intros Ht Hi Hl Hs Hb Hin Hne. destruct (traced_live _ _ _ _ _ _ _ _ _ _ _ Ht Hi) as [Hi0 _].
  pose proof (tr_ads _ _ _ _ _ _ _ _ _ _ _ Ht) as Hads.
  destruct (write_leaf s _ buf' recs' Hi0 Hb Hl Hs) as [[E Hfull]|(s1&a1&E&Hi1&Hsame1&Hw1)].
  { erewrite sm_bind_Err by exact E. split; [done|]. split; [done|]. exists []. done. }
  erewrite sm_bind_Ok by exact E.
  pose proof (tr_zwf _ _ _ _ _ _ _ _ _ _ _ Ht) as Hz. rewrite app_nil_r in Hz.
  pose proof (mutate_up_live zs 0 s1 a1 recs' [a1] [leaf] (leaf :: zpath zs ++ others)) as Hup.
  specialize (Hup ltac:(eapply Inv_perm; [|exact Hi1]; perm) Hw1 Hne Hin
    ltac:(eapply zwf_agree; [exact Hz|intros x Hx; apply Hsame1; mem]) ltac:(intros _; by destruct zs)).
  unfold up_post in Hup. destruct (mutate_up _ _ _ _ _ _ s1) as [s2 r] eqn:Eup.
  destruct r as [[?|[|] a2 fr2]|e| |]; try done.
  - erewrite sm_bind_Ok by exact Eup. destruct Hup as (->&ads2&Hw2&Hi2&Hsame2).
    cbn [Nat.add] in Hw2. rewrite (tr_len _ _ _ _ _ _ _ _ _ _ _ Ht) in Hw2.
    destruct (reclaim_collapse s s2 h a2 (zrecs zs recs') ads2 ([leaf] ++ zpath zs) others Hw2)
      as (s'&root'&Er&Hok).
    + eapply Inv_perm; [|exact Hi2]. perm.
    + intros x Hx. rewrite Hsame2 by mem. apply Hsame1. mem.
    + cbv beta iota. rewrite Er. done.
  - destruct Hup as (->&Hfull&leak&Hi2&Hsame2). erewrite sm_bind_Err by exact Eup. split; [done|]. split; [done|].
    exists (leak ++ [a1]). split.
    + eapply Inv_perm; [|exact Hi2]. rewrite Hads. perm.
    + intros x. rewrite Hads. intros Hx. rewrite Hsame2 by mem. apply Hsame1. mem.
Qed.

Lemma mutated_dropped s h root c ads k zs leaf buf recs others a' :
  traced s [] h root c ads k zs leaf buf recs -> Inv s (ads ++ others) -> zs <> [] -> zrecs zs [] <> [] ->
  (tight -> (h <= 1)%nat) ->
  mutated True s h (zrecs zs []) ads others
    ((r ← mutate_up partOff sb (zentries 0 zs) true 0 [leaf];
      match r with
      | UpRoot childLog => mret childLog
      | UpDone deleted newChildLog freedOld =>
          _ ← free_all sb freedOld;
          if deleted then a' else
            collapsed ← tryCollapseTwoLeafRoot partOff sb newChildLog;
            match collapsed with Some root => mret root | None => mret newChildLog end
      end) s).
Proof using Hflat HL RWL.
  intros Ht Hi Hzs Hne Hshort. destruct (traced_live _ _ _ _ _ _ _ _ _ _ _ Ht Hi) as [Hi0 _].
  pose proof (tr_ads _ _ _ _ _ _ _ _ _ _ _ Ht) as Hads.
  pose proof (tr_zwf _ _ _ _ _ _ _ _ _ _ _ Ht) as Hz. rewrite app_nil_r in Hz.
  pose proof (mutate_up_drop zs 0 s 0 [leaf] others Hzs ltac:(eapply Inv_perm; [|exact Hi0]; perm) Hz Hne
    ltac:(by rewrite (tr_len _ _ _ _ _ _ _ _ _ _ _ Ht))) as Hup.
  unfold drop_post in Hup. rewrite (tr_len _ _ _ _ _ _ _ _ _ _ _ Ht) in Hup. cbn [Nat.add] in Hup.
  destruct (mutate_up _ _ _ _ _ _ s) as [s2 r] eqn:Eup. destruct r as [[?|[|] a2 fr2]|e| |]; try done.
  - erewrite sm_bind_Ok by exact Eup. done.
  - erewrite sm_bind_Ok by exact Eup. destruct Hup as (->&ads2&Hw2&Hi2&Hsame2).
    destruct (reclaim_collapse s s2 h a2 (zrecs zs []) ads2 ([leaf] ++ zpath zs) others Hw2 Hi2 Hsame2)
      as (s'&root'&Er&Hok). cbv beta iota. rewrite Er. done.
  - destruct Hup as (->&Hfull&leak&Hi2&Hsame2). erewrite sm_bind_Err by exact Eup. split; [done|]. split; [done|].
    exists leak. split.
    + eapply Inv_perm; [|exact Hi2]. rewrite Hads. perm.
    + intros x. rewrite Hads. intros Hx. apply Hsame2. mem.
Qed.

Lemma cowMutate_unfold s root k fn zs leaf buf :
  tracePath partOff sb root k s = (s, Ok (rev (zentries 0 zs) ++ [PathEntry leaf buf 0 0])) ->
  (forall e, fn buf = Err e -> cowMutate partOff sb root k fn s = (s, Err e)) /\
  (forall buf' recs', fn buf = Ok buf' -> leaf_repr buf' recs' ->
     exists a', cowMutate partOff sb root k fn s =
       ((newChildLog ← (if (nrecs recs' =? 0) && negb (match zs with [] => true | _ => false end)
                        then mret 0 else writeCowNode buf');
         r ← mutate_up partOff sb (zentries 0 zs)
               ((nrecs recs' =? 0) && negb (match zs with [] => true | _ => false end)) newChildLog [leaf];
         match r with
         | UpRoot childLog => mret childLog
         | UpDone deleted newChildLog freedOld =>
             _ ← free_all sb freedOld;
             if deleted then a' else
               collapsed ← tryCollapseTwoLeafRoot partOff sb newChildLog;
               match collapsed with Some root => mret root | None => mret newChildLog end
         end) s)).
Proof using.
  intros Et. unfold cowMutate. split.
  - intros e Ef. erewrite sm_bind_Ok by exact Et. rewrite last_snoc. cbn [pe_buf].
    unfold mbind, SM_bind, sm_lift. by rewrite Ef.
  - intros buf' recs' Ef Hl. destruct (leaf_repr_header _ _ Hl) as [la Hh]. eexists.
    erewrite sm_bind_Ok by exact Et. rewrite last_snoc. cbn [pe_buf].
    erewrite sm_lift_Ok by exact Ef. erewrite sm_lift_Ok by exact Hh. cbn [hdr_nItems].
    rewrite removelast_last, rev_involutive.
    replace (1 <? Z.of_nat (length (rev (zentries 0 zs) ++ [PathEntry leaf buf 0 0])))
      with (negb (match zs with [] => true | _ => false end)); last first.
    { rewrite length_app, length_rev. destruct zs; cbn [zentries length negb]; symmetry;
        [apply Z.ltb_ge|apply Z.ltb_lt]; lia. }
    reflexivity.
Qed.

Lemma cowMutate_spec s h root c ads others k fn :
  wtree (rn s) h root c ads -> Inv s (ads ++ others) -> key_ok k -> Z.of_nat h <= maxBtreeDepth ->
  exists zs leaf buf recs,
    traced s [] h root c ads k zs leaf buf recs /\ blen buf = NS /\
    (forall e, fn buf = Err e -> cowMutate partOff sb root k fn s = (s, Err e)) /\
    (forall buf' recs', fn buf = Ok buf' -> leaf_repr buf' recs' -> keys_sorted recs' -> blen buf' = NS ->
       recs_in zs recs' -> (zs <> [] -> zrecs zs recs' <> []) -> (tight -> recs' = [] -> (h <= 1)%nat) ->
       mutated True s h (zrecs zs recs') ads others (cowMutate partOff sb root k fn s)).
Proof using Hflat HL RWL.
  intros Hw Hi Hk Hh. destruct (tracePath_spec s h root c ads others k Hw Hi Hk Hh) as (zs&leaf&buf&recs&Et&_&Ht).
  exists zs, leaf, buf, recs. destruct (traced_live _ _ _ _ _ _ _ _ _ _ _ Ht Hi) as [_ Hb].
  destruct (cowMutate_unfold s root k fn zs leaf buf Et) as [Herr Hok]. split_and!; try done.
  intros buf' recs' Ef Hl Hs Hb' Hin Hne Hshort. destruct (Hok _ _ Ef Hl) as [a' ->].
  destruct (Z.eqb_spec (nrecs recs') 0) as [Hz|Hz], zs as [|f zs]; cbn [negb andb].
  - apply (mutated_kept s h root c ads k [] leaf buf recs others a' buf' recs'); done.
  - rewrite sm_ret_bind. assert (recs' = []) as -> by (destruct recs'; [done|unfold nrecs in Hz; cbn in Hz; lia]).
    apply (mutated_dropped s h root c ads k (f :: zs) leaf buf recs others a'); try done; [by apply Hne|].
    intros Ht'. by apply Hshort.
  - apply (mutated_kept s h root c ads k [] leaf buf recs others a' buf' recs'); done.
  - apply (mutated_kept s h root c ads k (f :: zs) leaf buf recs others a' buf' recs'); try done.
    intros _ ->. done.
Qed.

(** Changing the binding of [k] in the leaf changes it in the whole tree. *)
Lemma zrecs_rebind zs recs recs' k :
  keys_sorted (zrecs zs recs) -> leaf_map (zrecs zs recs) !! k = leaf_map recs !! k ->
  (is_Some (leaf_map recs !! k) \/ ~ In k (map fst (zrecs zs recs))) ->
  (forall k', k' <> k -> leaf_map recs' !! k' = leaf_map recs !! k') ->
  forall k', leaf_map (zrecs zs recs') !! k' =
    if decide (k' = k) then leaf_map recs' !! k else leaf_map (zrecs zs recs) !! k'.
Proof using.
  intros Hs Hlk Hk Hag k'. destruct (zrecs_split zs recs) as (l&r&E&Hall). rewrite (Hall recs'), E in *.
  assert (Hout : leaf_map l !! k = None /\ leaf_map r !! k = None).
  { destruct Hk as [[d Hd]|Hk].
    - apply keys_sorted_app in Hs as (_&Hs&Hlr). apply keys_sorted_app in Hs as (_&_&Hrr).
      apply elem_of_list_to_map_2 in Hd. apply (list_elem_of_fmap_2 fst) in Hd. cbn [fst] in Hd.
      split; apply leaf_map_None_key, Forall_forall; intros x Hx Hn.
      + assert (key_lt x.1 k); [|unfold key_lt in *; lia]. apply Hlr; [by apply list_elem_of_fmap_2|].
        rewrite map_app. apply elem_of_app. by left.
      + assert (key_lt k x.1); [|unfold key_lt in *; lia]. apply Hrr; [done|by apply list_elem_of_fmap_2].
    - split; apply not_elem_of_list_to_map_1; rewrite list_elem_of_In; intros Hin; apply Hk;
        rewrite !map_app, !in_app_iff; tauto. }
  destruct Hout as [Hl Hr]. rewrite !leaf_map_app_lookup. case_decide as Hd.
  - subst k'. rewrite Hl, Hr. by destruct (leaf_map recs' !! k).
  - by rewrite (Hag k' Hd).
Qed.

Lemma recs_in_sub zs (l l' : list rec) :
  (forall x, x ∈ map fst l' -> x ∈ map fst l) -> recs_in zs l -> recs_in zs l'.
Proof using.
  unfold recs_in. rewrite !Forall_forall. intros Hsub H1 r Hr.
  destruct (list_elem_of_fmap_1 _ _ _ (Hsub r.1 (list_elem_of_fmap_2 fst _ _ Hr))) as (r'&->&Hr').
  by apply H1.
Qed.

(** The leaf holds [k] exactly when the index search finds it. *)
Lemma find_key_lookup k recs :
  match find_key k recs with
  | Some j => exists pre d post, recs = pre ++ (k, d) :: post /\ Z.of_nat j = nrecs pre
  | None => leaf_map recs !! k = None
  end.
Proof using.
  destruct (find_key k recs) as [j|] eqn:E.
  - apply find_key_Some in E as [d E]. exists (take j recs), d, (drop (S j) recs).
    rewrite take_drop_middle by done. apply lookup_lt_Some in E. unfold nrecs. rewrite length_take. split; [done|lia].
  - apply find_key_None in E. apply not_elem_of_list_to_map_1. by rewrite list_elem_of_In.
Qed.

Lemma cowUpdate_spec s h root c ads others k data :
  wtree (rn s) h root c ads -> Inv s (ads ++ others) -> key_ok k -> Z.of_nat h <= maxBtreeDepth ->
  match leaf_map c !! k, cowUpdate partOff sb root k data s with
  | None, r => r = (s, Err ErrOther)
  | Some _, (s', Ok root') => exists c', leaf_map c' = <[k := data]> (leaf_map c) /\
      cow_ok h s c' others s' root'
  | Some d, (s', Err e) => e = ErrOther /\ (blen data = blen d -> full s') /\ cow_err s ads others s'
  | _, _ => False
  end.
Proof using Hflat HL RWL.
  intros Hw Hi Hk Hh. pose proof (wtree_sorted _ _ _ _ _ Hw) as Hsorted.
  destruct (cowMutate_spec s h root c ads others k (update_leaf k data) Hw Hi Hk Hh)
    as (zs&leaf&buf&recs&[_ _ _ Hl Hs Hc _ _ Hin _ Hlk]&Hb&Herr&Hok).
  pose proof (find_key_lookup k recs) as Hf. rewrite app_nil_r in Hin.
  pose proof (findItemIdx_spec buf recs k Hl) as Hidx. fold (cowUpdate partOff sb root k data s) in *.
  assert (Hu : forall b, update_leaf k data buf = b -> update_leaf k data buf = b) by done.
  unfold update_leaf in Hu at 1. rewrite Hidx in Hu. cbn [mbind outcome_bind] in Hu. rewrite Hlk.
  destruct (find_key k recs) as [j|]; last first.
  { rewrite Hf. cbn zeta. apply (Herr ErrOther (Hu _ eq_refl)). }
  destruct Hf as (pre&d&post&->&Ej). rewrite Ej in Hu. pose proof (nrecs_nonneg pre).
  rewrite (proj2 (Z.ltb_ge _ _)) in Hu by lia.
  destruct (leaf_map_middle pre k d post) as [Em Hnone]; [by apply keys_sorted_NoDup|].
  destruct (leaf_map_middle pre k data post) as [Em' _];
    [apply keys_sorted_NoDup; by eapply keys_sorted_middle|].
  rewrite Em, lookup_insert_eq. pose proof (leafReplaceItemData_spec buf pre k d post data Hl) as Hr.
  case_if_in Hr.
  - destruct Hr as (buf'&Er&Hh'&Hl'). specialize (Hok _ _ (Hu _ Er) Hl').
    destruct (keys_sorted_middle pre k d data post Hs) as [_ Hs'].
    specialize (Hok Hs' ltac:(destruct Hh' as [? _]; lia)).
    specialize (Hok ltac:(eapply recs_in_sub; [|exact Hin]; intros x; by rewrite !map_app)).
    specialize (Hok ltac:(intros _ E; destruct (zrecs_split zs (pre ++ (k, data) :: post)) as (l&r&E'&_);
      rewrite E' in E; apply (f_equal length) in E; rewrite !length_app in E; cbn in E; lia)).
    specialize (Hok ltac:(intros _ E; by destruct pre)). unfold cowUpdate, mutated in *. destruct (cowMutate _ _ _ _ _ s) as [s' [root'|e| |]]; try done.
    2: { destruct Hok as (?&Hf&?). split_and!; auto. }
    exists (zrecs zs (pre ++ (k, data) :: post)). split; [|done]. apply map_eq. intros k'.
    rewrite (zrecs_rebind zs (pre ++ (k, d) :: post) (pre ++ (k, data) :: post) k), <- Hc.
    + case_decide; [subst; by rewrite Em', !lookup_insert_eq|by rewrite lookup_insert_ne].
    + by rewrite <- Hc.
    + by rewrite <- Hc.
    + left. rewrite Em, lookup_insert_eq. by eexists.
    + intros k2 Hk2. by rewrite Em, Em', !lookup_insert_ne.
  - rewrite (Herr _ (Hu _ Hr)). split_and!; [done| |by exists []]. intros Hsame. exfalso.
    destruct Hl as (_&_&Hfit&_). fold (leaf_need (pre ++ (k, d) :: post)) in Hfit.
    rewrite leaf_need_app, leaf_need_cons in *. lia.
Qed.

(** C8. Updating an item of a tree is an update of the finite map the tree stands
    for.  If the key is absent nothing is written and the call fails.  If it is
    present, a successful call returns the root of a tree on disk whose content
    is the old one with the new data under the key, every node that belongs to
    no part of the old tree still reads the same, and the live blocks of the
    device are exactly the new tree's and those of the other trees; a call that
    fails leaves every node of the old tree and of the others readable as
    before. *)
Theorem cowUpdate_refines s h root c ads others k data :
  wtree (rn s) h root c ads -> Inv s (ads ++ others) -> key_ok k -> Z.of_nat h <= maxBtreeDepth ->
  match leaf_map c !! k, cowUpdate partOff sb root k data s with
  | None, r => r = (s, Err ErrOther)
  | Some _, (s', Ok root') => exists c', leaf_map c' = <[k := data]> (leaf_map c) /\
      cow_ok h s c' others s' root'
  | Some d, (s', Err e) => e = ErrOther /\ (blen data = blen d -> full s') /\ cow_err s ads others s'
  | _, _ => False
  end.
Proof using Hflat HL RWL. apply cowUpdate_spec. Qed.

Lemma cowDelete_spec s h root c ads others k :
  wtree (rn s) h root c ads -> Inv s (ads ++ others) -> key_ok k -> Z.of_nat h <= maxBtreeDepth ->
  Forall (fun r => r.2 <> []) c -> (h = 0%nat \/ delete k (leaf_map c) <> ∅) -> (tight -> (h <= 1)%nat) ->
  match leaf_map c !! k, cowDelete partOff sb root k s with
  | None, r => r = (s, Err ErrNotFound)
  | Some _, (s', Ok root') => exists c', leaf_map c' = delete k (leaf_map c) /\
      cow_ok h s c' others s' root'
  | Some _, (s', Err e) => e = ErrOther /\ full s' /\ cow_err s ads others s'
  | _, _ => False
  end.
Proof using Hflat HL RWL.
  intros Hw Hi Hk Hh Hdata Hleft Hshort. pose proof (wtree_sorted _ _ _ _ _ Hw) as Hsorted.
  destruct (cowMutate_spec s h root c ads others k (delete_leaf k) Hw Hi Hk Hh)
    as (zs&leaf&buf&recs&[Hzl _ _ Hl Hs Hc _ _ Hin _ Hlk]&Hb&Herr&Hok).
  pose proof (find_key_lookup k recs) as Hf. rewrite app_nil_r in Hin.
  pose proof (findItemIdx_spec buf recs k Hl) as Hidx. fold (cowDelete partOff sb root k s) in *.
  assert (Hu : forall b, delete_leaf k buf = b -> delete_leaf k buf = b) by done.
  unfold delete_leaf in Hu at 1. rewrite Hidx in Hu. cbn [mbind outcome_bind] in Hu. rewrite Hlk.
  destruct (find_key k recs) as [j|]; last first.
  { rewrite Hf. apply (Herr ErrNotFound (Hu _ eq_refl)). }
  destruct Hf as (pre&d&post&->&Ej). rewrite Ej in Hu. pose proof (nrecs_nonneg pre).
  rewrite (proj2 (Z.ltb_ge _ _)) in Hu by lia.
  destruct (leaf_map_middle pre k d post) as [Em Hnone]; [by apply keys_sorted_NoDup|].
  rewrite Em, lookup_insert_eq.
  assert (Hpost : Forall (fun r => r.2 <> []) post).
  { destruct (zrecs_split zs (pre ++ (k, d) :: post)) as (l&r&E&_). rewrite Hc, E in Hdata.
    rewrite !Forall_app, Forall_cons in Hdata. tauto. }
  destruct (leafDeleteItem_spec buf pre k d post Hl Hpost) as (buf'&Er&Hh'&Hl').
  assert (Emap : leaf_map (zrecs zs (pre ++ post)) = delete k (leaf_map c)).
  { apply map_eq. intros k'. rewrite (zrecs_rebind zs (pre ++ (k, d) :: post) (pre ++ post) k), <- Hc.
    - case_decide; [subst k'; by rewrite Hnone, lookup_delete_eq|by rewrite lookup_delete_ne].
    - by rewrite <- Hc.
    - by rewrite <- Hc.
    - left. rewrite Em, lookup_insert_eq. by eexists.
    - intros k2 Hk2. by rewrite Em, lookup_insert_ne. }
  specialize (Hok _ _ (Hu _ Er) Hl'). destruct (keys_sorted_middle pre k d d post Hs) as [Hs' _].
  specialize (Hok Hs' ltac:(destruct Hh' as [? _]; lia)).
  specialize (Hok ltac:(eapply recs_in_sub; [|exact Hin]; intros x; rewrite !map_app; cbn [map];
    rewrite !elem_of_app, elem_of_cons; tauto)).
  specialize (Hok ltac:(intros Hzs E; destruct Hleft as [->|Hleft]; [by destruct zs|];
    apply Hleft; by rewrite <- Emap, E) ltac:(intros Ht _; by apply Hshort)).
  unfold cowDelete, mutated in *. destruct (cowMutate _ _ _ _ _ s) as [s' [root'|e| |]]; try done.
  - by exists (zrecs zs (pre ++ post)).
  - destruct Hok as (?&Hf&?). split_and!; auto.
Qed.

(** C7. Deleting an item of a tree is deletion from the finite map the tree
    stands for.  An absent key gives the not-found error and nothing is written;
    a present one gives, on success, the root of a tree without it, no taller
    than before: emptied leaves and the internal nodes above them are dropped, a
    root with one child left gives way to it and two sibling leaves under the
    root are merged when they fit.  Trees of several nodes must keep an item,
    and no item may be empty. *)
Theorem cowDelete_refines s h root c ads others k :
  wtree (rn s) h root c ads -> Inv s (ads ++ others) -> key_ok k -> Z.of_nat h <= maxBtreeDepth ->
  Forall (fun r => r.2 <> []) c -> (h = 0%nat \/ delete k (leaf_map c) <> ∅) -> (tight -> (h <= 1)%nat) ->
  match leaf_map c !! k, cowDelete partOff sb root k s with
  | None, r => r = (s, Err ErrNotFound)
  | Some _, (s', Ok root') => exists c', leaf_map c' = delete k (leaf_map c) /\
      cow_ok h s c' others s' root'
  | Some _, (s', Err e) => e = ErrOther /\ full s' /\ cow_err s ads others s'
  | _, _ => False
  end.
Proof using Hflat HL RWL. apply cowDelete_spec. Qed.

(** ** Insertion with splits *)

(** Without a pending sibling, the walk up is the one of [cowMutate]. *)
Lemma split_up_none rpath : forall a freed s,
  split_up partOff sb rpath a None freed s =
  match mutate_up partOff sb rpath false a freed s with
  | (s', Ok (UpDone _ a' freed')) => (s', Ok (a', None, freed'))
  | (s', Ok (UpRoot _)) => (s', Panic)
  | (s', Err e) => (s', Err e)
  | (s', Panic) => (s', Panic)
  | (s', NoFuel) => (s', NoFuel)
  end.
Proof using.
  induction rpath as [|pe rpath IH]; intros a freed s; [done|]. cbn [split_up mutate_up].
  unfold mbind, SM_bind, sm_lift. destruct (PutUint64 (pe_buf pe) _ _) as [b1| | |]; try done.
  destruct (PutUint64 b1 _ _) as [b2| | |]; try done.
  destruct (writeCowNode b2 s) as [s1 [a1| | |]]; try done.
Qed.

(** Two adjacent subtrees with a separator between them. *)
Definition halves (s : St) (h : nat) (a1 : Z) (sk : key) (a2 : Z) (c1 c2 : list rec) (ads1 ads2 : list Z) : Prop :=
  wtree (rn s) h a1 c1 ads1 /\ wtree (rn s) h a2 c2 ads2 /\ c1 <> [] /\ c2 <> [] /\ key_ok sk /\
  Forall (fun r => key_num r.1 < key_num sk) c1 /\ Forall (fun r => key_num sk <= key_num r.1) c2 /\
  (tight -> low (rn s) h a2 (key_num sk)).

Definition split_post (zs : list zframe) (h : nat) (s : St) (c : list rec) (ads freed keep : list Z)
    (r : St * outcome (Z * option (key * Z) * list Z)) : Prop :=
  match r with
  | (s', Ok (a', pending, freed')) =>
      freed' = freed ++ zpath zs /\
      match pending with
      | None => (forall x, x ∈ keep -> rn s' x = rn s x) /\
          exists ads', wtree (rn s') (h + length zs) a' (zrecs zs c) ads' /\ Inv s' (ads' ++ keep)
      | Some (sk', b') => (forall x, x ∈ ads ++ zside zs ++ keep -> rn s' x = rn s x) /\
          exists c1' c2' ads1' ads2' extra,
          halves s' (h + length zs) a' sk' b' c1' c2' ads1' ads2' /\ c1' ++ c2' = zrecs zs c /\
          ads1' ++ ads2' ≡ₚ extra ++ ads ++ zside zs /\ Inv s' (ads1' ++ ads2' ++ keep)
      end
  | (s', Err e) => e = ErrOther /\ exists leak, Inv s' (leak ++ ads ++ zside zs ++ keep) /\
      forall x, x ∈ ads ++ zside zs ++ keep -> rn s' x = rn s x
  | _ => False
  end.

Lemma halves_agree s s' h a1 sk a2 c1 c2 ads1 ads2 :
  halves s h a1 sk a2 c1 c2 ads1 ads2 -> (forall x, x ∈ ads1 ++ ads2 -> rn s' x = rn s x) ->
  halves s' h a1 sk a2 c1 c2 ads1 ads2.
Proof using.
  intros (H1&H2&?&?&?&?&?&Hlow) Hag. destruct (wtree_head _ _ _ _ _ H2) as [rest Ea].
  split_and!; try done; try ((eapply wtree_agree; [done|]); intros x Hx; apply Hag; mem).
  intros Ht. eapply low_agree; [by apply Hlow|]. apply Hag. rewrite Ea. mem.
Qed.

(** Writing the two halves of a list of children. *)
Lemma write_halves s live bl br h kl y kr :
  Inv s live -> blen bl = NS -> blen br = NS ->
  internal_repr bl (Z.of_nat (S h)) (map kid_ptr kl) -> internal_repr br (Z.of_nat (S h)) (map kid_ptr (y :: kr)) ->
  kl <> [] -> separated (kl ++ y :: kr) -> Forall (kid_ok (rn s) h) (kl ++ y :: kr) ->
  (forall x, x ∈ concat (map kid_addrs (kl ++ y :: kr)) -> x ∈ live) -> key_ok (kid_key y) ->
  writeCowNode bl s = (s, Err ErrOther) \/
  (exists s1 a1, writeCowNode bl s = (s1, Ok a1) /\ writeCowNode br s1 = (s1, Err ErrOther) /\
     Inv s1 (a1 :: live) /\ (forall x, x ∈ live -> rn s1 x = rn s x)) \/
  (exists s1 s2 a1 a2, writeCowNode bl s = (s1, Ok a1) /\ writeCowNode br s1 = (s2, Ok a2) /\
     Inv s2 (a2 :: a1 :: live) /\ (forall x, x ∈ live -> rn s2 x = rn s x) /\
     halves s2 (S h) a1 (kid_key y) a2 (concat (map kid_recs kl)) (concat (map kid_recs (y :: kr)))
       (a1 :: concat (map kid_addrs kl)) (a2 :: concat (map kid_addrs (y :: kr))) /\
     forall z, match kl with [] => True | x :: _ => key_num (kid_key x) <= z -> low (rn s2) (S h) a1 z end).
Proof using Hflat HL RWL.
  intros Hi Lb Lr Hl Hr Hne Hs Hk Hlive Hky. pose proof Hs as Hs0.
  apply separated_app in Hs as (Hsl&Hsr&_). apply Forall_app in Hk as [Hkl Hkr].
  rewrite map_app, concat_app in Hlive.
  destruct (write_internal s live bl h kl Hi Lb Hl Hsl Hne Hkl) as [[E _]|(s1&a1&E&Hi1&Hsame1&Hlow1&Hw1)];
    [intros x Hx; apply Hlive; mem|by left|right].
  assert (Hkr1 : Forall (kid_ok (rn s1) h) (y :: kr)).
  { eapply kids_ok_agree; [exact Hkr|]. intros x Hx. apply Hsame1, Hlive. mem. }
  destruct (write_internal s1 (a1 :: live) br h (y :: kr) Hi1 Lr Hr Hsr ltac:(done) Hkr1)
    as [[E2 _]|(s2&a2&E2&Hi2&Hsame2&Hlow2&Hw2)]; [intros x Hx; right; apply Hlive; mem|left|right].
  { by exists s1, a1. }
  exists s1, s2, a1, a2. destruct (separated_cut _ _ _ Hs0) as [C1 C2].
  split_and!; try done.
  - intros x Hx. rewrite Hsame2 by (by right). by apply Hsame1.
  - unfold halves. split_and!; try done.
    + eapply wtree_agree; [exact Hw1|]. intros x Hx. apply Hsame2. apply elem_of_cons in Hx as [->|Hx]; [by left|right].
      apply Hlive. mem.
    + destruct kl as [|k kl]; [done|]. apply Forall_cons in Hkl as [(_&?&_) _]. cbn. by intros [? _]%app_eq_nil.
    + apply Forall_cons in Hkr as [(_&?&_) _]. cbn. by intros [? _]%app_eq_nil.
    + intros _. by apply Hlow2.
  - intros z. specialize (Hlow1 z). destruct kl as [|x kl]; [done|]. intros Hz.
    eapply low_agree; [by apply Hlow1|]. apply Hsame2. by left.
Qed.

(** The node of a frame with the followed child replaced by the two halves:
    it fits in one node, or is cut into two. *)
Lemma frame_grow f h a1 sk a2 c1 c2 ads1 ads2 gen :
  blen (zf_buf f) = NS -> internal_repr (zf_buf f) (Z.of_nat (S h)) (map kid_ptr (zf_kids f)) ->
  is_u64 a1 -> is_u64 a2 -> is_u64 gen -> key_ok sk ->
  let kids := zf_kl f ++ Kid (kid_key (zf_x f)) a1 c1 ads1 :: Kid sk a2 c2 ads2 :: zf_kr f in
  let idx := Z.of_nat (length (zf_kl f)) in
  exists b0 b1, PutUint64 (zf_buf f) (nodeHdrSize + idx * keyPtrSize + 17) a1 = Ok b0 /\
    PutUint64 b0 (nodeHdrSize + idx * keyPtrSize + 17 + 8) gen = Ok b1 /\
    ((internalCanFitOneMore b1 = Ok true /\
      exists b2, internalInsertKeyPtr b1 (idx + 1) sk a2 gen = Ok b2 /\ blen b2 = NS /\
        internal_repr b2 (Z.of_nat (S h)) (map kid_ptr kids)) \/
     (internalCanFitOneMore b1 = Ok false /\
      exists l r KL y KR, splitAndInsertInternal b1 (idx + 1) sk a2 gen NS = Ok (l, r, kid_key y) /\
        kids = KL ++ y :: KR /\ KL <> [] /\ blen l = NS /\ blen r = NS /\
        internal_repr l (Z.of_nat (S h)) (map kid_ptr KL) /\
        internal_repr r (Z.of_nat (S h)) (map kid_ptr (y :: KR)))).
Proof using.
  intros Hb Hnode U1 U2 Ug Hsk kids idx.
  destruct (frame_repoint f _ a1 gen Hnode U1 Ug) as (b1&pre&post&E&Hn&E1&E2&Epre&L).
  apply outcome_bind_Ok in E as (b0&Eb0&Eb1). exists b0, b1. split; [done|]. split; [done|].
  assert (Hok : kp_ok (KP sk a2 gen)) by done.
  assert (Eall : map kp_ptr (pre ++ KP sk a2 gen :: post) = map kid_ptr kids).
  { unfold kids. rewrite map_app, E1. cbn [map]. rewrite E2, map_app, <- app_assoc. done. }
  assert (Hcast : forall b l, node_repr b (Z.of_nat (S h)) l -> internal_repr b (Z.of_nat (S h)) (map kp_ptr l)).
  { intros b l Hr. apply node_repr_internal in Hr; [exact Hr|lia]. }
  pose proof (internalCanFitOneMore_spec _ _ _ Hn) as Hfit. fold idx in Epre. rewrite <- Epre.
  destruct (Z.leb_spec (nodeHdrSize + (nkps (pre ++ post) + 1) * keyPtrSize) (blen b1)) as [Hle|Hgt]; [left|right];
    (split; [done|]).
  - destruct (internalInsertKeyPtr_spec b1 _ pre post sk a2 gen Hn Hok Hle) as (b2&E3&R2&S2).
    exists b2. rewrite <- Eall. split_and!; [done|destruct S2 as [? _]; lia|by apply Hcast].
  - destruct (splitAndInsertInternal_spec b1 _ pre post sk a2 gen Hn Hok) as (l&r&sk'&left&right&E3&Ea&Hnl&Hh&Rl&Rr&Ll&Lr&_).
    { destruct pre; [|done]. unfold nkps in Epre. cbn in Epre. lia. }
    rewrite Ea, map_app in Eall. unfold kids in *. symmetry in Eall. apply map_eq_app in Eall as (KL&KR'&Ek&M1&M2).
    destruct right as [|e right]; [done|]. destruct KR' as [|y KR]; [done|].
    exists l, r, KL, y, KR. cbn in Hh. injection Hh as <-. cbn [map] in M2. injection M2 as My1 My2 M2.
    rewrite L, Hb in *. split_and!; try done.
    + rewrite My1. done.
    + intros ->. cbn in M1. by destruct left.
    + rewrite M1. by apply Hcast.
    + apply Hcast in Rr. cbn [map] in *. rewrite M2. unfold kid_ptr. rewrite My1, My2. done.
Qed.

Lemma split_up_spec zs : forall h s a1 c1 ads1 sk a2 c2 ads2 freed keep,
  Inv s (ads1 ++ ads2 ++ zside zs ++ keep) -> halves s h a1 sk a2 c1 c2 ads1 ads2 ->
  recs_in zs (c1 ++ c2) -> zwf NS (rn s) h zs -> hlow (rn s) zs h a1 ->
  split_post zs h s (c1 ++ c2) (ads1 ++ ads2) freed keep
    (split_up partOff sb (zentries h zs) a1 (Some (sk, a2)) freed s).
Proof using Hflat HL RWL.
  induction zs as [|f zs IH]; intros h s a1 c1 ads1 sk a2 c2 ads2 freed keep Hi Hv Hin Hz Hlow.
  { cbn. rewrite app_nil_r, Nat.add_0_r. split; [done|]. split; [done|].
    exists c1, c2, ads1, ads2, []. cbn [app]. unfold zside. cbn. by rewrite app_nil_r. }
  cbn [zwf] in Hz. destruct Hz as (Hb&Hnode&Hsep&Hside&Hsin&Hzl&Hz).
  pose proof Hv as (Hw1&Hw2&N1&N2&Hsk&L1&L2&Hlow2).
  destruct (wtree_head _ _ _ _ _ Hw1) as [rest1 Eads1]. destruct (wtree_head _ _ _ _ _ Hw2) as [rest2 Eads2].
  destruct (live_u64 s _ a1 Hi) as [Z1 U1]; [rewrite Eads1; by left|].
  destruct (live_u64 s _ a2 Hi) as [Z2 U2]; [apply elem_of_app; right; rewrite Eads2; by left|].
  apply recs_in_cons in Hin as [Hin Hin'].
  destruct (frame_grow f h a1 sk a2 c1 c2 ads1 ads2 (next_gen sb) Hb Hnode U1 U2 (u64_range _) Hsk)
    as (b0&b1&E0&E1&Hcases).
  set (kids := zf_kl f ++ Kid (kid_key (zf_x f)) a1 c1 ads1 :: Kid sk a2 c2 ads2 :: zf_kr f) in *.
  assert (Hsk2 : separated kids).
  { apply Forall_app in Hin as [??]. by apply separated_plug2. }
  unfold zf_side in Hside, Hsin. apply Forall_app in Hside as [Hkl Hkr].
  assert (Hkids : Forall (kid_ok (rn s) h) kids).
  { apply Forall_app. split; [done|]. constructor; [done|]. constructor; done. }
  assert (Hlive : forall x, x ∈ concat (map kid_addrs kids) -> x ∈ (ads1 ++ ads2) ++ zside (f :: zs) ++ keep).
  { intros x. unfold kids. rewrite map_app, concat_app. cbn [map concat kid_addrs]. intros Hx. mem. }
  assert (Hi0 : Inv s ((ads1 ++ ads2) ++ zside (f :: zs) ++ keep)) by (by rewrite <- app_assoc).
  assert (Erec : zrecs (f :: zs) (c1 ++ c2) = zrecs zs (concat (map kid_recs kids))).
  { cbn [zrecs]. f_equal. unfold kids. rewrite map_app, concat_app. cbn [map concat kid_recs].
    by rewrite <- !app_assoc. }
  assert (Hin1 : recs_in zs (concat (map kid_recs kids))).
  { unfold kids. rewrite map_app, concat_app in *. cbn [map concat kid_recs]. unfold recs_in in *.
    rewrite !Forall_app in *. tauto. }
  assert (Hzk : tight -> zlow kids zs).
  { intros Ht. specialize (Hzl Ht). destruct zs; [done|]. unfold kids. unfold zf_kids in Hzl. by destruct (zf_kl f). }
  assert (Eads : concat (map kid_addrs kids) ≡ₚ (ads1 ++ ads2) ++ concat (map kid_addrs (zf_kl f)) ++ concat (map kid_addrs (zf_kr f))).
  { unfold kids. perm. }
  cbn [zentries split_up zentry pe_buf pe_childIdx pe_logAddr].
  erewrite sm_lift_Ok by exact E0. erewrite sm_lift_Ok by exact E1.
  destruct Hcases as [(Ef&b2&E2&Lb2&Hr2)|(Ef&l&r&KL&y&KR&E2&Ek&NKL&Ll&Lr&Rl&Rr)];
    erewrite sm_lift_Ok by exact Ef; cbv beta iota; erewrite sm_lift_Ok by exact E2.
  - destruct (write_internal s _ b2 h kids Hi0 Lb2 Hr2 Hsk2 ltac:(unfold kids; by destruct (zf_kl f)) Hkids Hlive)
      as [[Ew _]|(s1&a'&Ew&Hi1&Hsame1&Hlow'&Hw')].
    { erewrite sm_bind_Err by exact Ew. split; [done|]. by exists []. }
    erewrite sm_bind_Ok by exact Ew. rewrite split_up_none.
    pose proof (mutate_up_live zs (S h) s1 a' (concat (map kid_recs kids)) (a' :: concat (map kid_addrs kids))
      (freed ++ [zf_addr f]) keep) as Hup.
    specialize (Hup ltac:(eapply Inv_perm; [|exact Hi1]; rewrite Eads; perm) Hw').
    specialize (Hup ltac:(intros _; unfold kids; rewrite map_app, concat_app; cbn [map concat kid_recs];
      by intros [_ [? _]%app_eq_nil]%app_eq_nil) Hin1).
    specialize (Hup ltac:(eapply zwf_agree; [exact Hz|intros x Hx; apply Hsame1; mem])).
    specialize (Hup (hlow_kids (rn s1) kids zs (S h) a' Hzk Hlow')).
    unfold up_post in Hup. destruct (mutate_up _ _ _ _ _ _ s1) as [s2 [[?|[|] a'' fr]|e| |]]; try done.
    + destruct Hup as (->&ads'&Hw2'&Hi2&Hsame2). unfold split_post. rewrite Erec. cbn [zpath map length].
      rewrite <- app_assoc. split; [done|]. split; [intros x Hx; rewrite Hsame2 by done; apply Hsame1; mem|].
      exists ads'. replace (h + S (length zs))%nat with (S h + length zs)%nat by lia. done.
    + destruct Hup as (->&_&leak&Hi2&Hsame2). split; [done|]. exists (a' :: leak). split.
      * eapply Inv_perm; [|exact Hi2]. rewrite Eads. perm.
      * intros x Hx. rewrite Hsame2; [by apply Hsame1|]. rewrite Eads. mem.
  - assert (Hky : key_ok (kid_key y)).
    { destruct Rr as (_&_&_&_&_&Hslots). apply ptr_slots_keys_ok in Hslots. by apply Forall_cons in Hslots as [? _]. }
    rewrite Ek in Hsk2, Hkids, Hlive, Erec, Hin1, Eads, Hzk. rewrite map_app, concat_app in Erec, Hin1.
    destruct (write_halves s _ l r h KL y KR Hi0 Ll Lr Rl Rr NKL Hsk2 Hkids Hlive Hky)
      as [Ew|[(s1&a1'&Ew&Ew2&Hi1&Hsame1)|(s1&s2&a1'&a2'&Ew&Ew2&Hi2&Hsame2&Hv2&Hlow')]].
    { erewrite sm_bind_Err by exact Ew. split; [done|]. by exists []. }
    { erewrite sm_bind_Ok by exact Ew. erewrite sm_bind_Err by exact Ew2. split; [done|]. by exists [a1']. }
    erewrite sm_bind_Ok by exact Ew. erewrite sm_bind_Ok by exact Ew2.
    rewrite map_app, concat_app in Eads.
    assert (Hi2' : Inv s2 ((a1' :: concat (map kid_addrs KL)) ++ (a2' :: concat (map kid_addrs (y :: KR))) ++ zside zs ++ keep))
      by (eapply Inv_perm; [|exact Hi2]; perm_with Eads).
    specialize (IH (S h) s2 a1' _ _ (kid_key y) a2' _ _ (freed ++ [zf_addr f]) keep Hi2' Hv2 Hin1
      ltac:(eapply zwf_agree; [exact Hz|intros x Hx; apply Hsame2; mem])).
    specialize (IH (hlow_kids (rn s2) KL zs (S h) a1' ltac:(intros Ht; specialize (Hzk Ht); destruct zs; [done|];
      by destruct KL) Hlow')).
    revert IH. unfold split_post. destruct (split_up _ _ _ _ _ _ s2) as [s3 [[[a3 p3] fr3]|e| |]]; try done.
    + intros (->&Hp3). rewrite Erec. cbn [zpath map length]. rewrite <- app_assoc. split; [done|].
      replace (h + S (length zs))%nat with (S h + length zs)%nat by lia. destruct p3 as [[sk3 b3]|].
      * destruct Hp3 as (Hs3&c1'&c2'&ads1'&ads2'&extra&Hv3&Ec3&Ea3&Hi3). split.
        -- intros x Hx. rewrite Hs3; [by apply Hsame2|].
           assert (Hx' : x ∈ (concat (map kid_addrs KL) ++ concat (map kid_addrs (y :: KR))) ++ zside zs ++ keep)
             by (rewrite Eads; mem).
           mem.
        -- exists c1', c2', ads1', ads2', (extra ++ [a1'; a2']). split_and!; try done. rewrite Ea3. perm_with Eads.
      * destruct Hp3 as (Hs3&Hp3). split; [|done]. intros x Hx. rewrite Hs3 by done. apply Hsame2. mem.
    + intros (->&leak&Hi3&Hs3). split; [done|]. exists (a1' :: a2' :: leak). split.
      * eapply Inv_perm; [|exact Hi3]. perm_with Eads.
      * intros x Hx. rewrite Hs3; [by apply Hsame2|].
        assert (Hx' : x ∈ (concat (map kid_addrs KL) ++ concat (map kid_addrs (y :: KR))) ++ zside zs ++ keep)
          by (rewrite Eads; mem).
        mem.
Qed.

(** A new root above two halves. *)
Lemma grow_root s h a1 sk a2 c1 c2 ads1 ads2 keep :
  halves s h a1 sk a2 c1 c2 ads1 ads2 -> Inv s (ads1 ++ ads2 ++ keep) -> Z.of_nat h <= maxBtreeDepth ->
  exists buf, buildNewRoot partOff sb a1 sk a2 (Z.of_nat (S h)) s = (s, Ok buf) /\
    (writeCowNode buf s = (s, Err ErrOther) \/
     exists s' a, writeCowNode buf s = (s', Ok a) /\ Inv s' ((a :: ads1 ++ ads2) ++ keep) /\
       (forall x, x ∈ ads1 ++ ads2 ++ keep -> rn s' x = rn s x) /\
       wtree (rn s') (S h) a (c1 ++ c2) (a :: ads1 ++ ads2)).
Proof using Hflat HL RWL.
  intros (Hw1&Hw2&N1&N2&Hsk&L1&L2&Hlow2) Hi Hh. pose proof (NS_bounds partOff sb Hflat) as Hns.
  destruct (wtree_head _ _ _ _ _ Hw1) as [rest1 Eads1]. destruct (wtree_head _ _ _ _ _ Hw2) as [rest2 Eads2].
  destruct (live_u64 s _ a1 Hi) as [Z1 U1]; [rewrite Eads1; by left|].
  destruct (live_u64 s _ a2 Hi) as [Z2 U2]; [apply elem_of_app; right; rewrite Eads2; by left|].
  assert (Hroot : exists buf lk, buildNewRoot partOff sb a1 sk a2 (Z.of_nat (S h)) s = (s, Ok buf) /\ blen buf = NS /\
    internal_repr buf (Z.of_nat (S h)) (map kid_ptr [Kid lk a1 c1 ads1; Kid sk a2 c2 ads2]) /\
    Forall (fun r => key_num lk <= key_num r.1) c1 /\ low (rn s) h a1 (key_num lk)).
  { unfold buildNewRoot. unfold maxBtreeDepth in Hh. destruct h as [|h].
    - destruct Hw1 as (b&Hr&Hl&Hs&_). erewrite sm_bind_Ok by (eapply node_read_Ok, Hr). unfold sm_lift.
      destruct c1 as [|[k0 d0] c1]; [done|].
      destruct (new_root_leaf_spec b k0 d0 c1 a1 sk a2 1 (sb_generation sb) NS Hl Hsk U1 U2 ltac:(lia) Hns) as (buf&E&R&L).
      exists buf, k0. change (Z.of_nat 1) with 1. rewrite E. split_and!; try done.
      + by apply node_repr_internal in R.
      + by eapply keys_sorted_head.
    - destruct Hw1 as (b&kids&Hr&Hint&->&_&Hs&Hne&_). erewrite sm_bind_Ok by (eapply node_read_Ok, Hr). unfold sm_lift.
      destruct (internal_repr_node _ _ _ Hint) as (l&Hn&El). destruct kids as [|k kids]; [done|].
      destruct l as [|e l]; [done|]. cbn in El. injection El as El1 El2 El3.
      destruct (new_root_internal_spec b _ e l a1 sk a2 (Z.of_nat (S (S h))) (sb_generation sb) NS Hn ltac:(lia) Hsk U1 U2
        ltac:(lia) Hns) as (buf&E&R&L).
      exists buf, (kp_k e). rewrite E. split_and!; try done.
      + apply node_repr_internal in R; [done|lia].
      + rewrite El1. by apply (separated_cut [] k kids).
      + exists b, (kp_k e), (kid_addr k), (map kid_ptr kids). split_and!; [done| |lia]. rewrite El1. done. }
  destruct Hroot as (buf&lk&E&Lb&Hr&Hlk&Hlow1). exists buf. split; [done|].
  assert (Hsep : separated [Kid lk a1 c1 ads1; Kid sk a2 c2 ads2]).
  { rewrite !separated_cons. split_and!; try done. constructor; [|constructor]. split; [|done]. cbn [kid_key].
    destruct c1 as [|r c1]; [done|]. apply Forall_cons in L1 as [? _]. apply Forall_cons in Hlk as [? _]. lia. }
  destruct (write_internal s _ buf h [Kid lk a1 c1 ads1; Kid sk a2 c2 ads2] Hi Lb Hr Hsep ltac:(done))
    as [[Ew _]|(s'&a&Ew&Hi'&Hsame&_&Hw)]; [repeat constructor; done| |by left|right].
  { cbn. rewrite app_nil_r. intros x Hx. mem. }
  exists s', a. cbn [map concat kid_recs kid_addrs] in Hw. rewrite !app_nil_r in Hw.
  split_and!; try done. cbn [app]. by rewrite <- app_assoc.
Qed.

(** The two halves of a split leaf, written. *)
Lemma write_leaf_halves s live l r sk left right :
  Inv s live -> blen l = NS -> blen r = NS -> leaf_repr l left -> leaf_repr r right ->
  keys_sorted (left ++ right) -> left <> [] -> head (map fst right) = Some sk -> key_ok sk ->
  writeCowNode l s = (s, Err ErrOther) \/
  (exists s1 a1, writeCowNode l s = (s1, Ok a1) /\ writeCowNode r s1 = (s1, Err ErrOther) /\
     Inv s1 (a1 :: live) /\ (forall x, x ∈ live -> rn s1 x = rn s x)) \/
  (exists s1 s2 a1 a2, writeCowNode l s = (s1, Ok a1) /\ writeCowNode r s1 = (s2, Ok a2) /\
     Inv s2 (a2 :: a1 :: live) /\ (forall x, x ∈ live -> rn s2 x = rn s x) /\
     halves s2 0 a1 sk a2 left right [a1] [a2]).
Proof using Hflat HL RWL.
  intros Hi Ll Lr Rl Rr Hs Hne Hsk Hk. apply keys_sorted_app in Hs as (Hs1&Hs2&Hlt).
  destruct (write_leaf s live l left Hi Ll Rl Hs1) as [[E _]|(s1&a1&E&Hi1&Hsame1&Hw1)]; [by left|right].
  destruct (write_leaf s1 _ r right Hi1 Lr Rr Hs2) as [[E2 _]|(s2&a2&E2&Hi2&Hsame2&Hw2)]; [left; by exists s1, a1|right].
  exists s1, s2, a1, a2. destruct right as [|[sk' d] right]; [done|]. cbn in Hsk. injection Hsk as ->.
  split_and!; try done; [intros x Hx; rewrite Hsame2 by (by right); by apply Hsame1|].
  unfold halves. split_and!; try done.
  - eapply wtree_agree; [exact Hw1|]. intros x Hx. apply Hsame2. apply elem_of_cons in Hx as [->|Hx]; [by left|].
    by apply not_elem_of_nil in Hx.
  - apply Forall_forall. intros x Hx. apply (Hlt x.1 sk); [by apply list_elem_of_fmap_2|by left].
  - by eapply keys_sorted_head.
Qed.

Lemma split_finish s s2 h zs leaf a1 sk a2 left right ads others :
  length zs = h -> Z.of_nat h <= maxBtreeDepth -> ads ≡ₚ leaf :: zside zs ++ zpath zs ->
  Inv s2 (a2 :: a1 :: leaf :: zside zs ++ zpath zs ++ others) ->
  (forall x, x ∈ leaf :: zside zs ++ zpath zs ++ others -> rn s2 x = rn s x) ->
  halves s2 0 a1 sk a2 left right [a1] [a2] -> recs_in zs (left ++ right) -> zwf NS (rn s2) 0 zs ->
  mutated False s (S h) (zrecs zs (left ++ right)) ads others
    (('(newChildLog, pending, freedOld) ← split_up partOff sb (zentries 0 zs) a1 (Some (sk, a2)) [leaf];
      rootLog ← match pending with
                | Some (pendingKey, pendingChild) =>
                    newRootBuf ← buildNewRoot partOff sb newChildLog pendingKey pendingChild (Z.of_nat (S h));
                    writeCowNode newRootBuf
                | None => mret newChildLog
                end;
      _ ← free_all sb freedOld;
      mret rootLog) s2).
Proof using Hflat HL RWL.
  intros Hlen Hh Hads Hi Hsame Hv Hin Hz.
  pose proof (split_up_spec zs 0 s2 a1 left [a1] sk a2 right [a2] [leaf] (leaf :: zpath zs ++ others)
    ltac:(eapply Inv_perm; [|exact Hi]; perm) Hv Hin Hz ltac:(intros _; by destruct zs)) as Hup.
  unfold split_post in Hup. destruct (split_up _ _ _ _ _ _ s2) as [s3 r] eqn:Eup.
  rewrite Hlen in Hup. cbn [Nat.add] in Hup.
  assert (Hfin : forall s4 a h' c' ads', wtree (rn s4) h' a c' ads' -> (h' <= S h)%nat ->
    Inv s4 (ads' ++ leaf :: zpath zs ++ others) -> (forall x, x ∈ others -> rn s4 x = rn s x) ->
    exists s5, (_ ← free_all sb ([leaf] ++ zpath zs); mret a) s4 = (s5, Ok a) /\ cow_ok (S h) s c' others s5 a).
  { intros s4 a h' c' ads' Hw4 Hle Hi4 Hs4.
    destruct (free_all_spec partOff sb dv Hflat s4 ([leaf] ++ zpath zs) (ads' ++ others)) as (s5&Ef&Hi5&Hd).
    { eapply Inv_perm; [|exact Hi4]. perm. }
    assert (Hag : forall x, rn s5 x = rn s4 x) by (intros x; unfold Store.rn; by rewrite Hd).
    exists s5. erewrite sm_bind_Ok by exact Ef. split; [done|]. exists h', ads'. split_and!; try done.
    - eapply wtree_agree; [exact Hw4|done].
    - intros x Hx. rewrite Hag. by apply Hs4. }
  destruct r as [[[a' pending] fr]|e| |]; try done.
  - erewrite sm_bind_Ok by exact Eup. cbv beta iota. destruct Hup as [-> Hup]. destruct pending as [[sk' b']|].
    + destruct Hup as (Hs3&c1'&c2'&ads1'&ads2'&extra&Hv3&Ec&Ea&Hi3).
      destruct (grow_root s3 h a' sk' b' c1' c2' ads1' ads2' _ Hv3 Hi3 Hh) as (buf&Eb&[Ew|(s4&a4&Ew&Hi4&Hs4&Hw4)]).
      * assert (Ebw : (newRootBuf ← buildNewRoot partOff sb a' sk' b' (Z.of_nat (S h)); writeCowNode newRootBuf) s3 = (s3, Err ErrOther))
          by (by erewrite sm_bind_Ok by exact Eb).
        erewrite sm_bind_Err by exact Ebw. split; [done|]. split; [done|]. exists (extra ++ [a1; a2]). split.
        -- eapply Inv_perm; [|exact Hi3]. rewrite Hads, app_assoc, Ea. perm.
        -- intros x. rewrite Hads. intros Hx. rewrite Hs3 by mem. apply Hsame. mem.
      * assert (Ebw : (newRootBuf ← buildNewRoot partOff sb a' sk' b' (Z.of_nat (S h)); writeCowNode newRootBuf) s3 = (s4, Ok a4))
          by (by erewrite sm_bind_Ok by exact Eb).
        erewrite sm_bind_Ok by exact Ebw. rewrite Ec in Hw4.
        destruct (Hfin s4 a4 (S h) _ _ Hw4 ltac:(lia) Hi4) as (s5&E5&Hok).
        { intros x Hx. rewrite Hs4 by mem. rewrite Hs3 by mem. apply Hsame. mem. }
        by rewrite E5.
    + destruct Hup as (Hs3&ads'&Hw3&Hi3). rewrite sm_ret_bind.
      destruct (Hfin s3 a' h _ _ Hw3 ltac:(lia) Hi3) as (s5&E5&Hok); [|by rewrite E5].
      intros x Hx. rewrite Hs3 by mem. apply Hsame. mem.
  - destruct Hup as (->&leak&Hi3&Hs3). erewrite sm_bind_Err by exact Eup. split; [done|]. split; [done|].
    exists (leak ++ [a1; a2]). split.
    + eapply Inv_perm; [|exact Hi3]. rewrite Hads. perm.
    + intros x. rewrite Hads. intros Hx. rewrite Hs3 by mem. apply Hsame. mem.
Qed.

Lemma cowInsertSplit_spec s h root c ads others k data zs leaf buf recs :
  traced s [] h root c ads k zs leaf buf recs -> recs <> [] ->
  tracePath partOff sb root k s = (s, Ok (rev (zentries 0 zs) ++ [PathEntry leaf buf 0 0])) ->
  Inv s (ads ++ others) -> Z.of_nat h <= maxBtreeDepth ->
  key_ok k -> ~ In k (map fst recs) -> zin zs (key_num k) ->
  mutated False s (S h) (zrecs zs (insert_at (first_gt k recs) (k, data) recs)) ads others
    (cowInsertSplit partOff sb root k data s).
Proof using Hflat HL RWL.
  intros Ht Hne Et Hi Hh Hk Hnin Hzin. destruct (traced_live _ _ _ _ _ _ _ _ _ _ _ Ht Hi) as [Hi0 Hb].
  destruct Ht as [Hzl Hz _ Hl Hs Hc Hads _ Hin _ _]. rewrite app_nil_r in Hz, Hin.
  pose proof (NS_bounds partOff sb Hflat) as Hns.
  unfold cowInsertSplit. erewrite sm_bind_Ok by exact Et. rewrite last_snoc. cbn [pe_buf pe_logAddr].
  rewrite removelast_last, rev_involutive, length_app, length_rev. cbn [length].
  assert (Hlen : length (zentries 0 zs) = h).
  { rewrite <- Hzl. clear. generalize 0%nat. induction zs; intros n; cbn; [done|]. by rewrite IHzs. }
  rewrite Hlen. replace (u8 (Z.of_nat (h + 1))) with (Z.of_nat (S h))
    by (unfold u8, maxBtreeDepth in *; rewrite Z.mod_small; lia).
  pose proof (splitAndInsertLeaf_cases buf recs k data NS Hl Hne Hk ltac:(hdr_lia)) as Hsplit. cbn zeta in Hsplit.
  set (all := insert_at (first_gt k recs) (k, data) recs) in *.
  assert (Hko : Forall (fun r => key_ok r.1) all).
  { apply Forall_insert_at; [done|]. destruct Hl as (_&_&_&_&Hp). by eapply packed_keys_ok. }
  assert (Hko' : Forall (fun r => key_ok r.1) recs) by (destruct Hl as (_&_&_&_&Hp); by eapply packed_keys_ok).
  assert (Hsort : keys_sorted all) by (by apply insert_at_sorted).
  assert (Hin' : recs_in zs all) by (by apply Forall_insert_at).
  case_if_in Hsplit; last first.
  { erewrite sm_bind_Err by (unfold sm_lift; by rewrite Hsplit). split; [done|]. split; [done|]. by exists []. }
  destruct Hsplit as (l&r&sk&E&Rl&Rr&Ll&Lr&_&_&d&rest&Er). erewrite sm_lift_Ok by exact E. cbv beta iota.
  destruct (split_point_spec all) as [Hsp _].
  { unfold all. rewrite length_insert_at by apply first_gt_le. destruct recs; [done|cbn; lia]. }
  assert (Hsk : key_ok sk).
  { apply (Forall_drop _ (split_point all)) in Hko. rewrite Er in Hko. by apply Forall_cons in Hko as [? _]. }
  rewrite <- (take_drop (split_point all) all) in Hsort, Hin' |- * at 1.
  destruct (write_leaf_halves s _ l r sk _ _ Hi0 Ll Lr Rl Rr Hsort)
    as [Ew|[(s1&a1&Ew&Ew2&Hi1&Hsame1)|(s1&s2&a1&a2&Ew&Ew2&Hi2&Hsame2&Hv2)]]; try done.
  { intros E0. apply (f_equal length) in E0. rewrite length_take in E0. cbn in E0. lia. }
  { by rewrite Er. }
  { erewrite sm_bind_Err by exact Ew. split; [done|]. split; [done|]. by exists []. }
  { erewrite sm_bind_Ok by exact Ew. erewrite sm_bind_Err by exact Ew2. split; [done|]. split; [done|]. exists [a1]. split.
    - eapply Inv_perm; [|exact Hi1]. rewrite Hads. perm.
    - intros x. rewrite Hads. intros Hx. apply Hsame1. mem. }
  erewrite sm_bind_Ok by exact Ew. erewrite sm_bind_Ok by exact Ew2.
  apply split_finish; try done. eapply zwf_agree; [exact Hz|]. intros x Hx. apply Hsame2. mem.
Qed.

Lemma cowInsert_spec s h root c ads others k data :
  wtree (rn s) h root c ads -> Inv s (ads ++ others) -> key_ok k -> Z.of_nat h <= maxBtreeDepth ->
  ~ In k (map fst c) -> c <> [] -> covers (rn s) h root k ->
  match cowInsert partOff sb root k data s with
  | (s', Ok root') => exists c', leaf_map c' = <[k := data]> (leaf_map c) /\
      cow_ok (S h) s c' others s' root'
  | (s', Err e) => e = ErrOther /\ cow_err s ads others s'
  | _ => False
  end.
Proof using Hflat HL RWL.
  intros Hw Hi Hk Hh Hnin Hne Hcov. pose proof (wtree_sorted _ _ _ _ _ Hw) as Hsorted.
  destruct (tracePath_spec s h root c ads others k Hw Hi Hk Hh) as (zs&leaf&buf&recs&Et&Hrne&Ht).
  destruct (traced_live _ _ _ _ _ _ _ _ _ _ _ Ht Hi) as [_ Hb].
  pose proof Ht as [_ _ _ Hl Hs Hc _ _ Hin Hzin Hlk]. specialize (Hzin Hcov I). rewrite app_nil_r in Hin, Hzin.
  assert (Hnin' : ~ In k (map fst recs)).
  { intros Hx. apply Hnin. rewrite Hc. destruct (zrecs_split zs recs) as (l&r&E&_). rewrite E, !map_app, !in_app_iff. tauto. }
  assert (Hko : Forall (fun r => key_ok r.1) recs) by (destruct Hl as (_&_&_&_&Hp); by eapply packed_keys_ok).
  set (recs' := insert_at (first_gt k recs) (k, data) recs).
  assert (Emap' : leaf_map recs' = <[k := data]> (leaf_map recs))
    by (apply leaf_map_insert_at; [by apply keys_sorted_NoDup|done]).
  assert (Emap : leaf_map (zrecs zs recs') = <[k := data]> (leaf_map c)).
  { apply map_eq. intros k'. rewrite (zrecs_rebind zs recs recs' k), <- Hc; try by rewrite <- Hc.
    - case_decide; [subst k'; by rewrite Emap', !lookup_insert_eq|by rewrite lookup_insert_ne].
    - right. by rewrite <- Hc.
    - intros k2 Hk2. by rewrite Emap', lookup_insert_ne. }
  unfold cowInsert.
  destruct (cowMutate_unfold s root k (fun b => leafInsertItem b k data) zs leaf buf Et) as [Herr Hok].
  pose proof (leafInsertItem_spec buf recs k data Hl Hk) as Hins. case_if_in Hins.
  - destruct Hins as (buf'&E&Hh'&Hl'). fold recs' in Hl'. destruct (Hok buf' recs' E Hl') as [a' ->].
    assert (Hnz : (nrecs recs' =? 0) = false).
    { apply Z.eqb_neq. unfold recs', nrecs. rewrite length_insert_at by apply first_gt_le. lia. }
    rewrite Hnz. cbn [andb].
    pose proof (mutated_kept s h root c ads k zs leaf buf recs others a' buf' recs' Ht Hi Hl') as Hm.
    specialize (Hm ltac:(by apply insert_at_sorted) ltac:(destruct Hh' as [? _]; lia) ltac:(by apply Forall_insert_at)).
    specialize (Hm ltac:(intros _ E0; rewrite E0 in Hnz; done)).
    unfold mutated in Hm. match type of Hm with match ?r with _ => _ end => destruct r as [s' [root'|e| |]] end; try done.
    + exists (zrecs zs recs'). split; [done|]. destruct Hm as (h'&ads'&?&?). exists h', ads'. split; [lia|done].
    + by destruct Hm as (->&_&Hm).
  - rewrite (Herr _ Hins).
    pose proof (cowInsertSplit_spec s h root c ads others k data zs leaf buf recs Ht (Hrne Hne) Et Hi Hh Hk Hnin' Hzin) as Hm.
    fold recs' in Hm. unfold mutated in Hm. destruct (cowInsertSplit _ _ _ _ _ s) as [s' [root'|e| |]]; try done.
    + by exists (zrecs zs recs').
    + by destruct Hm as (->&_&Hm).
Qed.

(** C6. Inserting into a tree is insertion into the finite map it stands for.
    For a key that is not in a non-empty tree and that is covered by the
    separators on its route, [cowInsert] either returns the root of a tree, at
    most one level taller, whose content is the old one with the new item, or
    fails.  This covers the in-place insert into a leaf with room and the split
    path: the leaf is cut in two, full internal nodes on the way up are cut in
    two and the root grows a level.  On success the blocks of the old path are
    reclaimed and no other live node has changed; on failure every node of the
    old tree is still there. *)
Theorem cowInsert_refines s h root c ads others k data :
  wtree (rn s) h root c ads -> Inv s (ads ++ others) -> key_ok k -> Z.of_nat h <= maxBtreeDepth ->
  ~ In k (map fst c) -> c <> [] -> covers (rn s) h root k ->
  match cowInsert partOff sb root k data s with
  | (s', Ok root') => exists c', leaf_map c' = <[k := data]> (leaf_map c) /\
      cow_ok (S h) s c' others s' root'
  | (s', Err e) => e = ErrOther /\ cow_err s ads others s'
  | _ => False
  end.
Proof using Hflat HL RWL. apply cowInsert_spec. Qed.
End Mutate.
End Correct.
