(* ===== verification/CowExamples.v ===== *)
(** * Copy-on-write on a concrete device

    A memory-backed device that satisfies the laws of Store, a small tree on it,
    the theorems of CowCorrect applied to that tree, and the cases outside their
    hypotheses where the code misbehaves. *)
From Stdlib Require Import ZArith Lia Strings.Byte.
From stdpp Require Import base option list numbers sorting gmap.
From S2P Require Import Prelude Bytes Alloc Layout SafeIO Chunk Node BTree Split Crc32c Cow Store CowCorrect.
Local Open Scope Z_scope.
Local Open Scope btrfs_scope.

(** ** A memory device *)
Definition mem_in (d : bytes) (off n : Z) : bool := (0 <=? off) && (0 <=? n) && (off + n <=? blen d).
#[global] Instance memRW : ReaderWriterAt bytes := {|
  ReadAt d off n := if mem_in d off n then Ok (sub d off n) else Err ErrIO;
  WriteAt d off b := if mem_in d off (blen b) then (splice d off b, Ok tt) else (d, Err ErrIO);
|}.

Lemma mem_in_true d off n : mem_in d off n = true <-> 0 <= off /\ 0 <= n /\ off + n <= blen d.
Proof. unfold mem_in. rewrite !andb_true_iff, !Z.leb_le. tauto. Qed.

#[global] Instance memRW_laws : RWLaws bytes.
Proof.
  refine {| dev_size := blen |}.
  - intros d off n b Hn. cbn. destruct (mem_in d off n) eqn:E; [|done]. intros [= <-].
    apply mem_in_true in E. apply blen_sub; lia.
  - intros d off n. cbn. by destruct (mem_in d off n).
  - intros d off b H0 Hf. pose proof (blen_nonneg b). cbn.
    rewrite (proj2 (mem_in_true _ _ _)) by lia. eexists. split; [done|].
    assert (L : blen (splice d off b) = blen d) by (apply blen_splice; lia).
    split; [done|]. split.
    + rewrite (proj2 (mem_in_true _ _ _)) by lia. f_equal. apply sub_splice_same; lia.
    + intros off' n Hn Hd. unfold mem_in. rewrite L. destruct ((0 <=? off') && (0 <=? n) && (off' + n <=? blen d)) eqn:E; [|done].
      apply mem_in_true in E. f_equal. apply sub_splice_out; lia.
Defined.

(** ** A tree of three nodes on it *)
Definition exd_chunk : chunkMapping := ChunkMapping 0x100 0x700 0x100 0 0x4 0x10000 1 [ChunkStripe 1 0x100].
Definition exd_sb : superblock :=
  Superblock 256 4096 256 4096 0x800 0x100 0x100 7 1 (zeros 16) (zeros 256) [exd_chunk].

(** A leaf of [l], an internal node of (key, child) pairs. *)
Definition mk_leaf (l : list rec) : bytes :=
  match buildLeafFromItems (zeros 256) l 256 with Ok b => b | _ => [] end.
Definition mk_node (level : Z) (l : list (key * Z)) : bytes :=
  match build_internal (zeros 256) level 256 (map (fun p => KP p.1 p.2 7) l) with Ok b => b | _ => [] end.

Definition exd_l1 : list rec := [(ex_k1, le_enc 8 1); (ex_k2, le_enc 4 2)].
Definition exd_l2 : list rec := [(Key 258 typeDirItem 5, zeros 40); (Key 259 typeDirItem 5, zeros 40)].
Definition exd_dev : bytes :=
  zeros 0x100 ++ mk_node 1 [(ex_k1, 0x200); (Key 258 0 0, 0x300)] ++ mk_leaf exd_l1 ++ mk_leaf exd_l2 ++ zeros 0x400.
Definition exd_st : cowState bytes := CowState exd_dev (SpaceManager [FreeExtent 0x400 0x400] 256).
Definition exd_ads : list Z := [0x100; 0x200; 0x300].

Lemma exd_flat : flat_map 0 exd_sb.
Proof.
  split; [vm_compute; split; discriminate|]. split; [lia|]. split; [split|].
  - intros m. cbn. rewrite elem_of_cons, elem_of_nil. intros [->|[]]. cbn. lia.
  - intros m m'. cbn. rewrite !elem_of_cons, !elem_of_nil. intros [->|[]] [->|[]]. by left.
  - split; repeat constructor.
Defined.

Lemma exd_tree : wtree True (rn (H := listSafeIO) 0 exd_sb exd_st) 1 0x100 (exd_l1 ++ exd_l2) exd_ads.
Proof.
  exists (mk_node 1 [(ex_k1, 0x200); (Key 258 0 0, 0x300)]),
    [Kid ex_k1 0x200 exd_l1 [0x200]; Kid (Key 258 0 0) 0x300 exd_l2 [0x300]].
  split; [vm_compute; reflexivity|]. split; [repeat split; vm_compute; first [reflexivity|discriminate]|].
  split; [reflexivity|]. split; [reflexivity|]. split; [|split; [discriminate|]].
  - cbn [separated kid_key kid_recs]. repeat first [constructor|split]; vm_compute; first [reflexivity|discriminate].
  - constructor; [|constructor; [|constructor]]; (split; [done|]); (split; [discriminate|]); (split; [done|]).
    + exists (mk_leaf exd_l1). split; [vm_compute; reflexivity|].
      split; [repeat split; vm_compute; first [reflexivity|discriminate]|].
      split; [repeat constructor; vm_compute; reflexivity|reflexivity].
    + exists (mk_leaf exd_l2). split; [vm_compute; reflexivity|].
      split; [repeat split; vm_compute; first [reflexivity|discriminate]|].
      split; [repeat constructor; vm_compute; reflexivity|reflexivity].
Defined.

Lemma exd_Inv : Inv 0 exd_sb (no_data 0x800) exd_st (exd_ads ++ []).
Proof.
  assert (Hfree : forall p, is_free (st_sm exd_st) p <-> 0x400 <= p < 0x800).
  { intros p. unfold is_free, cov. cbn [exd_st st_sm sm_freeExts map sumZ foldr fe_physStart fe_size].
    destruct (inr_spec 0x400 0x400 p) as [[? ->]|[? ->]]; lia. }
  assert (Hmap : forall p, 0x100 <= p < 0x800 -> mapped exd_sb p).
  { intros p Hp. exists exd_chunk. split; [by left|cbn; lia]. }
  assert (Hsz : dev_size (st_dev exd_st) = 0x800) by (vm_compute; reflexivity).
  assert (Hads : forall a, a ∈ exd_ads ++ [] -> a = 0x100 \/ a = 0x200 \/ a = 0x300).
  { intros a. cbn. rewrite !elem_of_cons, elem_of_nil. tauto. }
  split; [|split; [reflexivity|split; [|split; [|split; [|split; [|split]]]]]].
  - split; [repeat constructor; unfold fe_ok; cbn; lia|]. split; [|cbn; lia].
    intros p. cbn. destruct (inr_spec 0x400 0x400 p) as [[? ->]|[? ->]]; lia.
  - intros p Hp. apply Hfree in Hp. rewrite Hsz. split; [lia|]. split; [apply Hmap; lia|lia].
  - apply Forall_forall. intros a Ha. apply Hads in Ha. unfold block_ok. rewrite Hsz.
    change (sb_nodeSize exd_sb) with 256. split; [lia|]. split; [intros p Hp; apply Hmap; lia|lia].
  - apply (bool_decide_unpack _). vm_compute. reflexivity.
  - intros a b Ha Hb. apply Hads in Ha, Hb. change (sb_nodeSize exd_sb) with 256. lia.
  - intros a Ha (p&Hp&Hf). apply Hads in Ha. apply Hfree in Hf. change (sb_nodeSize exd_sb) with 256 in Hp. lia.
  - split; [done|]. split; [intros p []|]. intros a n Hn Hd. destruct (Hd a ltac:(lia)).
Defined.

(** ** The theorems on that tree *)
Abbreviation exd_rn := (rn (H := listSafeIO) 0 exd_sb).
Definition is_ok {A B} (r : A * outcome B) : bool := match r.2 with Ok _ => true | _ => false end.

Lemma key_ok_dec k : (0 <=? objID k) && (objID k <? 2 ^ 64) && (0 <=? typ k) && (typ k <? 2 ^ 8) &&
  (0 <=? offset k) && (offset k <? 2 ^ 64) = true -> key_ok k.
Proof. intros E. bool_prop. unfold key_ok. lia. Defined.

(** An update that makes an item longer, so the leaf is repacked. *)
Lemma cowUpdate_refines_witness :
  exists s' root' c',
    cowUpdate (H := listSafeIO) 0 exd_sb 0x100 ex_k2 (zeros 20) exd_st = (s', Ok root') /\
    leaf_map c' = <[ex_k2 := zeros 20]> (leaf_map (exd_l1 ++ exd_l2)) /\
    cow_ok True (H := listSafeIO) 0 exd_sb (no_data 0x800) 1 exd_st c' [] s' root'.
Proof.
  assert (Hok : is_ok (cowUpdate (H := listSafeIO) 0 exd_sb 0x100 ex_k2 (zeros 20) exd_st) = true)
    by (vm_compute; reflexivity).
  pose proof (cowUpdate_refines True (H := listSafeIO) 0 exd_sb (no_data 0x800) exd_flat exd_st 1 0x100 (exd_l1 ++ exd_l2) exd_ads []
    ex_k2 (zeros 20) exd_tree exd_Inv ltac:(apply key_ok_dec; vm_compute; reflexivity)
    ltac:(vm_compute; discriminate)) as Hw.
  change (leaf_map (exd_l1 ++ exd_l2) !! ex_k2) with (Some (le_enc 4 2)) in Hw. cbv beta iota in Hw.
  destruct (cowUpdate 0 exd_sb 0x100 ex_k2 (zeros 20) exd_st) as [s' [root'|e| |]]; try discriminate Hok.
  destruct Hw as (c'&Ec&Hc). exists s', root', c'. split; [reflexivity|]. split; [exact Ec|exact Hc].
Defined.

(** A deletion that empties the first leaf's second item only. *)
Lemma cowDelete_refines_witness :
  exists s' root' c',
    cowDelete (H := listSafeIO) 0 exd_sb 0x100 ex_k2 exd_st = (s', Ok root') /\
    leaf_map c' = delete ex_k2 (leaf_map (exd_l1 ++ exd_l2)) /\
    cow_ok True (H := listSafeIO) 0 exd_sb (no_data 0x800) 1 exd_st c' [] s' root'.
Proof.
  assert (Hok : is_ok (cowDelete (H := listSafeIO) 0 exd_sb 0x100 ex_k2 exd_st) = true)
    by (vm_compute; reflexivity).
  pose proof (cowDelete_refines True (H := listSafeIO) 0 exd_sb (no_data 0x800) exd_flat exd_st 1 0x100 (exd_l1 ++ exd_l2) exd_ads []
    ex_k2 exd_tree exd_Inv ltac:(apply key_ok_dec; vm_compute; reflexivity) ltac:(vm_compute; discriminate)
    ltac:(repeat constructor; discriminate)
    ltac:(right; intros E; apply (f_equal (lookup ex_k1)) in E; discriminate E) ltac:(lia)) as Hw.
  change (leaf_map (exd_l1 ++ exd_l2) !! ex_k2) with (Some (le_enc 4 2)) in Hw. cbv beta iota in Hw.
  destruct (cowDelete 0 exd_sb 0x100 ex_k2 exd_st) as [s' [root'|e| |]]; try discriminate Hok.
  destruct Hw as (c'&Ec&Hc). exists s', root', c'. split; [reflexivity|]. split; [exact Ec|exact Hc].
Defined.

(** An insertion into the full second leaf: it is split and the root rewritten. *)
Definition exd_k : key := Key 258 typeDirIndex 9.
Lemma cowInsert_refines_witness :
  exists s' root' c',
    cowInsert (H := listSafeIO) 0 exd_sb 0x100 exd_k (zeros 60) exd_st = (s', Ok root') /\
    leaf_map c' = <[exd_k := zeros 60]> (leaf_map (exd_l1 ++ exd_l2)) /\
    cow_ok True (H := listSafeIO) 0 exd_sb (no_data 0x800) 2 exd_st c' [] s' root'.
Proof.
  assert (Hok : is_ok (cowInsert (H := listSafeIO) 0 exd_sb 0x100 exd_k (zeros 60) exd_st) = true)
    by (vm_compute; reflexivity).
  pose proof (cowInsert_refines True (H := listSafeIO) 0 exd_sb (no_data 0x800) exd_flat exd_st 1 0x100 (exd_l1 ++ exd_l2) exd_ads []
    exd_k (zeros 60) exd_tree exd_Inv ltac:(apply key_ok_dec; vm_compute; reflexivity)
    ltac:(vm_compute; discriminate) ltac:(vm_compute; intuition discriminate) ltac:(discriminate)) as Hw.
  specialize (Hw ltac:(eexists (mk_node 1 [(ex_k1, 0x200); (Key 258 0 0, 0x300)]),
    [(ex_k1, 0x200); (Key 258 0 0, 0x300)], (Key 258 0 0, 0x300);
    split; [vm_compute; reflexivity|];
    split; [repeat split; vm_compute; first [reflexivity|discriminate]|];
    split; [vm_compute; reflexivity|exact I])).
  destruct (cowInsert 0 exd_sb 0x100 exd_k (zeros 60) exd_st) as [s' [root'|e| |]]; try discriminate Hok.
  destruct Hw as (c'&Ec&Hc). exists s', root', c'. split; [reflexivity|]. split; [exact Ec|exact Hc].
Defined.

(** ** Outside the hypotheses *)

(** A root over the given leaves, at 0x200, 0x300, ...; the rest of the device is
    free.  The separator of a leaf is its first key. *)
Definition leaf_addr (i : nat) : Z := 0x200 + 0x100 * Z.of_nat i.
Definition first_key (l : list rec) : key := match l with (k, _) :: _ => k | [] => Key 0 0 0 end.
Definition mk_state (leaves : list (list rec)) : cowState bytes :=
  let n := Z.of_nat (length leaves) in
  CowState (zeros 0x100 ++ mk_node 1 (zip (map first_key leaves) (map leaf_addr (seq 0 (length leaves)))) ++
            concat (map mk_leaf leaves) ++ zeros (0x600 - 0x100 * n))
           (SpaceManager [FreeExtent (0x200 + 0x100 * n) (0x600 - 0x100 * n)] 256).

Definition drop_leaves : list (list rec) :=
  [[(ex_k1, le_enc 8 1)]; [(Key 258 typeDirItem 5, zeros 30); (Key 258 typeDirItem 6, zeros 30)];
   [(Key 259 typeDirItem 5, zeros 30); (Key 259 typeDirItem 6, zeros 30)]].

(** An inserted item can be unreachable.  Deleting the only item of the
    leftmost leaf drops the leaf and its separator; inserting an item with that
    key again succeeds, but [tracePath] falls back to the leftmost leaf without
    lowering its separator, and the search for the key then reports that it
    does not exist.  This is the case the coverage hypothesis of the insertion
    theorem excludes. *)
Theorem cowInsert_unreachable :
  let r1 := cowDelete (H := listSafeIO) 0 exd_sb 0x100 ex_k1 (mk_state drop_leaves) in
  exists root1 root2, r1.2 = Ok root1 /\
  let r2 := cowInsert (H := listSafeIO) 0 exd_sb root1 ex_k1 (le_enc 8 1) r1.1 in
  r2.2 = Ok root2 /\
  sm_run (searchTree (H := listSafeIO) (pure_reader (exd_rn r2.1)) root2 (objID ex_k1) (typ ex_k1) (offset ex_k1))
    = Err ErrNotFound.
Proof.
  cbn zeta. exists 0x500, 0x200. split; [vm_compute; reflexivity|]. split; [vm_compute; reflexivity|].
  vm_compute. reflexivity.
Qed.

Definition span_leaves : list (list rec) :=
  [[(ex_k1, zeros 50); (Key 257 typeExtentData 0, zeros 53)];
   [(Key 257 typeExtentData 4096, zeros 53); (Key 258 typeInodeItem 0, zeros 45)]].

(** [cowDeletePrefix] fails on items that span two leaves.  It empties the
    first leaf of them, then finds the next leaf but routes to it with offset 0,
    which leads back to the first leaf, and gives up with an error; the blocks
    of the old tree, which the caller's root still names, have been freed by
    then. *)
Theorem cowDeletePrefix_span_fails :
  let r := cowDeletePrefix (H := listSafeIO) 0 exd_sb 0x100 257 typeExtentData (mk_state span_leaves) in
  r.2 = Err ErrOther /\ rangeFree (st_sm r.1) 0x100 0x200 = true.
Proof. cbn zeta. split; vm_compute; reflexivity. Qed.

(** Deleting the last item below a one-child root leaves an internal root
    without children: the call succeeds, and every later insertion into the tree
    fails because [tracePath] follows the zeroed first pointer. *)
Theorem cowDelete_empty_root_stuck :
  let r1 := cowDelete (H := listSafeIO) 0 exd_sb 0x100 ex_k1 (mk_state [[(ex_k1, le_enc 8 1)]]) in
  exists root1, r1.2 = Ok root1 /\
  forall k data, is_ok (cowInsert (H := listSafeIO) 0 exd_sb root1 k data r1.1) = false.
Proof.
  cbn zeta. exists 0x300. split; [vm_compute; reflexivity|]. intros k data. vm_compute. reflexivity.
Qed.
