(* ===== verification/Codec.v ===== *)
(** * Item payloads (write.go, dir.go, xattr_write.go, fs.go, subvol.go, inode.go)

    The encoders and parsers of the item bodies of an FS tree: directory
    entries, inode back references, inodes, extended attributes, file extents
    and root references.  Strings are byte lists.  An encoder writes into a
    buffer it has sized itself, so its stores never panic and are written as the
    pure stores [wr] and [splice]; the parsers read untrusted bytes and keep the
    panicking accessors. *)
From Stdlib Require Import ZArith Lia Strings.Byte.
From stdpp Require Import base option list numbers sorting gmap.
From S2P Require Import Prelude Bytes Layout.
Local Open Scope Z_scope.
Local Open Scope btrfs_scope.

(** ** Directory entries *)
Record dirEntry := DirEntry { de_objID : Z; de_name : bytes; de_type : Z }.

Definition encodeDirItem (locationObjID locationTyp ftype : Z) (name : bytes) : bytes :=
  let buf := zeros (dirItemHdrSize + blen name) in
  let buf := wr 8 buf 0x00 locationObjID in
  let buf := wr 1 buf 0x08 locationTyp in
  let buf := wr 8 buf 0x09 0 in
  let buf := wr 8 buf 0x11 0 in
  let buf := wr 2 buf 0x19 0 in
  let buf := wr 2 buf 0x1B (u16 (blen name)) in
  let buf := wr 1 buf 0x1D ftype in
  splice buf 0x1E name.

(** One step of the two parse loops: the entry at [off] and the next offset. *)
Definition dir_entry_at (data : bytes) (off : Z) : outcome (option (dirEntry * Z)) :=
  childObjID ← Uint64 data off;
  nameLen ← Uint16 data (off + 0x1B);
  ftype ← Uint8 data (off + 0x1D);
  let nameEnd := off + dirItemHdrSize + nameLen in
  if blen data <? nameEnd then Ok None else
  name ← slice data (off + dirItemHdrSize) nameEnd;
  dataLen ← Uint16 data (off + 0x19);
  Ok (Some (DirEntry childObjID name ftype, nameEnd + dataLen)).

(** Every round consumes a header, so [blen data] rounds are enough. *)
Fixpoint parseDirItems_loop (fuel : nat) (data name : bytes) (off : Z) : outcome (Z * Z) :=
  if off + dirItemHdrSize <=? blen data then
    match fuel with
    | O => NoFuel
    | S fuel =>
        e ← dir_entry_at data off;
        match e with
        | None => Err ErrNotFound
        | Some (e, next) =>
            if bool_decide (de_name e = name) then Ok (de_objID e, de_type e)
            else parseDirItems_loop fuel data name next
        end
    end
  else Err ErrNotFound.
Definition parseDirItems (data name : bytes) : outcome (Z * Z) :=
  parseDirItems_loop (length data) data name 0.

Definition dot : bytes := [byte_of_Z 46].
Definition dotdot : bytes := [byte_of_Z 46; byte_of_Z 46].
Definition not_dot (e : dirEntry) : bool :=
  negb (bool_decide (de_name e = dot)) && negb (bool_decide (de_name e = dotdot)).

Fixpoint parseDirItemsAll_loop (fuel : nat) (data : bytes) (off : Z) : outcome (list dirEntry) :=
  if off + dirItemHdrSize <=? blen data then
    match fuel with
    | O => NoFuel
    | S fuel =>
        e ← dir_entry_at data off;
        match e with
        | None => Ok []
        | Some (e, next) =>
            rest ← parseDirItemsAll_loop fuel data next;
            Ok (if not_dot e then e :: rest else rest)
        end
    end
  else Ok [].
Definition parseDirItemsAll (data : bytes) : outcome (list dirEntry) :=
  parseDirItemsAll_loop (length data) data 0.

(** ** Inode back references *)
Record inodeRefEntry := InodeRefEntry { ir_idx : Z; ir_name : bytes }.

Definition encodeInodeRef (idxOff : Z) (name : bytes) : bytes :=
  let buf := zeros (8 + 2 + blen name) in
  let buf := wr 8 buf 0 idxOff in
  let buf := wr 2 buf 8 (u16 (blen name)) in
  splice buf 10 name.

Definition encodeInodeRefEntries (entries : list inodeRefEntry) : bytes :=
  concat (map (fun e => encodeInodeRef (ir_idx e) (ir_name e)) entries).

Fixpoint parseInodeRefEntries_loop (fuel : nat) (d : bytes) (off : Z) : outcome (list inodeRefEntry) :=
  if off + 10 <=? blen d then
    match fuel with
    | O => NoFuel
    | S fuel =>
        idx ← Uint64 d off;
        nameLen ← Uint16 d (off + 8);
        if blen d <? off + 10 + nameLen then Ok [] else
        name ← slice d (off + 10) (off + 10 + nameLen);
        rest ← parseInodeRefEntries_loop fuel d (off + (10 + nameLen));
        Ok (InodeRefEntry idx name :: rest)
    end
  else Ok [].
Definition parseInodeRefEntries (d : bytes) : outcome (list inodeRefEntry) :=
  parseInodeRefEntries_loop (length d) d 0.

(** The entry lists [appendInodeRef] and [removeInodeRef] write back; [None]
    when the name is there already. *)
Definition append_ref (entries : list inodeRefEntry) (idx : Z) (name : bytes) : option (list inodeRefEntry) :=
  if existsb (fun e => bool_decide (ir_name e = name)) entries then None
  else Some (entries ++ [InodeRefEntry idx name]).
Definition keep_refs (entries : list inodeRefEntry) (name : bytes) : list inodeRefEntry :=
  List.filter (fun e => negb (bool_decide (ir_name e = name))) entries.

(** ** Extended attributes *)
Definition encodeXattrItemPayload (name value : bytes) : bytes :=
  let buf := zeros (dirItemHdrSize + blen name + blen value) in
  let buf := wr 2 buf 0x19 (u16 (blen value)) in
  let buf := wr 2 buf 0x1B (u16 (blen name)) in
  let buf := splice buf dirItemHdrSize name in
  splice buf (dirItemHdrSize + blen name) value.

Definition parseXattrItem (d : bytes) : outcome (option (bytes * bytes)) :=
  if blen d <? dirItemHdrSize then Ok None else
  dataLen ← Uint16 d 0x19;
  nameLen ← Uint16 d 0x1B;
  if blen d <? dirItemHdrSize + nameLen + dataLen then Ok None else
  name ← slice d dirItemHdrSize (dirItemHdrSize + nameLen);
  value ← slice d (dirItemHdrSize + nameLen) (dirItemHdrSize + nameLen + dataLen);
  Ok (Some (name, value)).

(** ** Root references *)
Record rootRef := RootRef { rr_dirID : Z; rr_name : bytes }.

Definition parseRootRef (d : bytes) : outcome (option rootRef) :=
  if blen d <? rootRefHdrSize then Ok None else
  nameLen ← Uint16 d 16;
  if blen d <? rootRefHdrSize + nameLen then Ok None else
  dirID ← Uint64 d 0;
  name ← slice d rootRefHdrSize (rootRefHdrSize + nameLen);
  Ok (Some (RootRef dirID name)).

(** ** Inodes *)
Record inodeItem := InodeItem { in_num : Z; in_mode : Z; in_size : Z; in_nlink : Z }.

Definition isRegular (i : inodeItem) : bool := Z.land (in_mode i) 0xF000 =? 0x8000.
Definition isDir (i : inodeItem) : bool := Z.land (in_mode i) 0xF000 =? 0x4000.
Definition isSymlink (i : inodeItem) : bool := Z.land (in_mode i) 0xF000 =? 0xA000.

(** A point in time: seconds and nanoseconds. *)
Definition timespec : Type := Z * Z.
Definition writeBtrfsTimespec (buf : bytes) (off : Z) (t : timespec) : bytes :=
  wr 4 (wr 8 buf off (u64 t.1)) (off + 8) (u32 t.2).

Definition encodeInodeItem (ino size mode generation nbytes nlink : Z) (now : timespec) : bytes :=
  let buf := zeros inodeItemSize in
  let buf := wr 8 buf inodeOffGeneration generation in
  let buf := wr 8 buf inodeOffTransID generation in
  let buf := wr 8 buf inodeOffSize size in
  let buf := wr 8 buf inodeOffNBytes nbytes in
  let buf := wr 4 buf inodeOffNLink nlink in
  let buf := wr 4 buf inodeOffMode mode in
  let buf := wr 8 buf inodeOffFlags inodeFlagNoDataSum in
  let buf := writeBtrfsTimespec buf inodeOffATime now in
  let buf := writeBtrfsTimespec buf inodeOffCTime now in
  let buf := writeBtrfsTimespec buf inodeOffMTime now in
  writeBtrfsTimespec buf inodeOffOTime now.

(** The body of [readInode] after the search. *)
Definition decode_inode (ino : Z) (d : bytes) : outcome inodeItem :=
  if blen d <? inodeItemSize then Err ErrOther else
  size ← Uint64 d inodeOffSize;
  nlink ← Uint32 d inodeOffNLink;
  mode ← Uint32 d inodeOffMode;
  Ok (InodeItem ino (u16 mode) size nlink).

Definition bumpInodeTransIDSequence (inodeBuf : bytes) (currentGeneration : Z) : outcome bytes :=
  buf ← PutUint64 inodeBuf inodeOffTransID currentGeneration;
  seq ← Uint64 buf inodeOffSequence;
  PutUint64 buf inodeOffSequence (seq +₆₄ 1).

(** ** File extents *)
Definition maxInlineSize : Z := 2048.

Definition isAllZero (b : bytes) : bool := forallb (fun x => Z_of_byte x =? 0) b.

Definition classifyExtent (data : bytes) (sectorSize : Z) : outcome (Z * Z) :=
  if blen data =? 0 then Ok (extentDataInline, 0)
  else if blen data <=? maxInlineSize then Ok (extentDataInline, blen data)
  else if isAllZero data then Ok (extentDataRegular, 0)
  else if sectorSize =? 0 then Panic
  else Ok (extentDataRegular, ((blen data +₆₄ sectorSize) -₆₄ 1) / sectorSize *₆₄ sectorSize).

Definition encodeExtentData (diskBytenr diskNumBytes fileOffset numBytes generation : Z) : bytes :=
  let buf := zeros extDataRegularSize in
  let buf := wr 8 buf 0x00 generation in
  let buf := wr 8 buf 0x08 numBytes in
  let buf := wr 1 buf 0x10 compressionNone in
  let buf := wr 1 buf 0x14 extentDataRegular in
  let buf := wr 8 buf 0x15 diskBytenr in
  let buf := wr 8 buf 0x1D diskNumBytes in
  let buf := wr 8 buf 0x25 fileOffset in
  wr 8 buf 0x2D numBytes.

Definition encodeExtentDataInline (inlineData : bytes) (generation : Z) : bytes :=
  let buf := zeros (extDataHdrSize + blen inlineData) in
  let buf := wr 8 buf 0x00 generation in
  let buf := wr 8 buf 0x08 (blen inlineData) in
  let buf := wr 1 buf 0x14 extentDataInline in
  splice buf extDataHdrSize inlineData.

(** ** Directory entries round trip *)
Definition enc_entry (e : dirEntry) : bytes := encodeDirItem (de_objID e) 1 (de_type e) (de_name e).
Definition entry_ok (e : dirEntry) : Prop :=
  is_u64 (de_objID e) /\ 0 <= de_type e < 256 /\ blen (de_name e) < 2 ^ 16.
Ltac codec_lia := unfold dirItemHdrSize, rootRefHdrSize, inodeItemSize, extDataHdrSize, extDataRegularSize in *; lia.

Lemma encodeDirItem_fields o t ft name :
  is_u64 o -> 0 <= ft < 256 -> blen name < 2 ^ 16 ->
  let b := encodeDirItem o t ft name in
  blen b = dirItemHdrSize + blen name /\ rd 8 b 0 = o /\ rd 2 b 0x19 = 0 /\
  rd 2 b 0x1B = blen name /\ rd 1 b 0x1D = ft /\ sub b dirItemHdrSize (blen name) = name.
Proof.
  intros Ho Hf Hn. cbn zeta. unfold encodeDirItem, is_u64 in *. pose proof (blen_nonneg name).
  set (n := blen name) in *. unfold dirItemHdrSize in *.
  split; [unfold n; blen_tac|]. unfold u16. rewrite (Z.mod_small n) by lia.
  split_and!.
  - rd_tac. apply Z.mod_small. cbn. lia.
  - rd_tac. done.
  - rd_tac. apply Z.mod_small. cbn. lia.
  - rd_tac. apply Z.mod_small. cbn. lia.
  - apply sub_splice_same; [lia|]. fold n. blen_tac.
Qed.

Lemma dir_entry_at_enc pre e rest :
  entry_ok e ->
  dir_entry_at (pre ++ enc_entry e ++ rest) (blen pre) = Ok (Some (e, blen pre + blen (enc_entry e))).
Proof.
  intros (Ho&Ht&Hn). destruct (encodeDirItem_fields (de_objID e) 1 (de_type e) (de_name e) Ho Ht Hn)
    as (L&R0&R19&R1B&R1D&S). fold (enc_entry e) in *. pose proof (blen_nonneg pre). pose proof (blen_nonneg rest).
  pose proof (blen_nonneg (de_name e)).
  set (data := pre ++ enc_entry e ++ rest).
  assert (Ld : blen data = blen pre + dirItemHdrSize + blen (de_name e) + blen rest)
    by (unfold data; rewrite !blen_app; lia).
  assert (Hrd : forall n p, 0 <= p -> p + Z.of_nat n <= dirItemHdrSize -> rd n data (blen pre + p) = rd n (enc_entry e) p)
    by (intros n p Hp Hq; apply rd_app_mid; lia).
  assert (R0' : rd 8 data (blen pre) = de_objID e)
    by (rewrite <- R0, <- Hrd by codec_lia; by rewrite Z.add_0_r).
  unfold dir_entry_at. rewrite (get_le_Ok 8) by codec_lia. cbn [mbind outcome_bind]. rewrite R0'.
  rewrite (get_le_Ok 2 _ (_ + 0x1B)), Hrd, R1B by codec_lia. cbn [mbind outcome_bind].
  rewrite (get_le_Ok 1), Hrd, R1D by codec_lia. cbn [mbind outcome_bind]. case_if; [codec_lia|].
  rewrite slice_Ok by codec_lia. cbn [mbind outcome_bind]. rewrite get_le_Ok by codec_lia.
  rewrite Hrd, R19 by codec_lia. cbn [mbind outcome_bind].
  replace (blen pre + dirItemHdrSize + blen (de_name e) - (blen pre + dirItemHdrSize)) with (blen (de_name e)) by lia.
  unfold data. rewrite sub_app_mid by codec_lia. rewrite S. rewrite L. destruct e; cbn [de_objID de_name de_type].
  do 3 f_equal. lia.
Qed.

Lemma enc_entry_long e : dirItemHdrSize <= blen (enc_entry e).
Proof.
  pose proof (blen_nonneg (de_name e)). unfold enc_entry, encodeDirItem, dirItemHdrSize. blen_tac.
Qed.

Lemma parse_dir_stop pre (data := pre) : (blen pre + dirItemHdrSize <=? blen data) = false.
Proof. apply Z.leb_gt. unfold data. codec_lia. Qed.

Lemma parseDirItems_loop_enc fuel pre es name :
  Forall entry_ok es -> (length (concat (map enc_entry es)) <= fuel)%nat ->
  parseDirItems_loop fuel (pre ++ concat (map enc_entry es)) name (blen pre) =
  match List.find (fun e => bool_decide (de_name e = name)) es with
  | Some e => Ok (de_objID e, de_type e)
  | None => Err ErrNotFound
  end.
Proof.
  revert fuel pre. induction es as [|e es IH]; intros fuel pre Hok Hf.
  - cbn [map concat]. rewrite app_nil_r. destruct fuel; cbn [parseDirItems_loop]; by rewrite parse_dir_stop.
  - apply Forall_cons in Hok as [He Hok]. cbn [map concat List.find] in *. pose proof (enc_entry_long e).
    pose proof (blen_nonneg (concat (map enc_entry es))). rewrite length_app in Hf.
    destruct fuel as [|fuel]; [unfold blen in *; codec_lia|]. cbn [parseDirItems_loop].
    rewrite (proj2 (Z.leb_le _ _)) by (rewrite !blen_app; lia).
    rewrite dir_entry_at_enc by done. cbn [mbind outcome_bind]. case_bool_decide; [done|].
    rewrite (app_assoc pre (enc_entry e)), <- (blen_app pre (enc_entry e)). apply IH; [done|]. unfold blen in *. codec_lia.
Qed.

Lemma parseDirItemsAll_loop_enc fuel pre es :
  Forall entry_ok es -> (length (concat (map enc_entry es)) <= fuel)%nat ->
  parseDirItemsAll_loop fuel (pre ++ concat (map enc_entry es)) (blen pre) = Ok (List.filter not_dot es).
Proof.
  revert fuel pre. induction es as [|e es IH]; intros fuel pre Hok Hf.
  - cbn [map concat]. rewrite app_nil_r. destruct fuel; cbn [parseDirItemsAll_loop]; by rewrite parse_dir_stop.
  - apply Forall_cons in Hok as [He Hok]. cbn [map concat List.filter] in *. pose proof (enc_entry_long e).
    pose proof (blen_nonneg (concat (map enc_entry es))). rewrite length_app in Hf.
    destruct fuel as [|fuel]; [unfold blen in *; codec_lia|]. cbn [parseDirItemsAll_loop].
    rewrite (proj2 (Z.leb_le _ _)) by (rewrite !blen_app; lia).
    rewrite dir_entry_at_enc by done. cbn [mbind outcome_bind].
    rewrite (app_assoc pre (enc_entry e)), <- (blen_app pre (enc_entry e)), IH; [done|done|]. unfold blen in *. codec_lia.
Qed.

(** A directory item reads back: on the concatenation of encoded entries,
    which is what several names with the same hash share one item for, the
    listing returns the entries other than the dot names in order, and looking
    a name up returns the first entry of that name, or the not-found error when
    there is none. *)
Theorem dir_items_roundtrip es name :
  Forall entry_ok es ->
  let data := concat (map enc_entry es) in
  parseDirItemsAll data = Ok (List.filter not_dot es) /\
  parseDirItems data name =
    match List.find (fun e => bool_decide (de_name e = name)) es with
    | Some e => Ok (de_objID e, de_type e)
    | None => Err ErrNotFound
    end.
Proof.
  intros Hok. split.
  - apply (parseDirItemsAll_loop_enc _ []); done.
  - apply (parseDirItems_loop_enc _ []); done.
Qed.

(** ** Inode references round trip *)
Definition enc_ref (e : inodeRefEntry) : bytes := encodeInodeRef (ir_idx e) (ir_name e).
Definition ref_ok (e : inodeRefEntry) : Prop := is_u64 (ir_idx e) /\ blen (ir_name e) < 2 ^ 16.

Lemma encodeInodeRef_fields idx name :
  is_u64 idx -> blen name < 2 ^ 16 ->
  let b := encodeInodeRef idx name in
  blen b = 10 + blen name /\ rd 8 b 0 = idx /\ rd 2 b 8 = blen name /\ sub b 10 (blen name) = name.
Proof.
  intros Hi Hn. cbn zeta. unfold encodeInodeRef, is_u64 in *. pose proof (blen_nonneg name).
  set (n := blen name) in *. split; [unfold n; blen_tac|]. unfold u16. rewrite (Z.mod_small n) by lia.
  split_and!.
  - rd_tac. apply Z.mod_small. cbn. lia.
  - rd_tac. apply Z.mod_small. cbn. lia.
  - apply sub_splice_same; [lia|]. fold n. blen_tac.
Qed.

Lemma parseInodeRefEntries_loop_enc fuel pre es :
  Forall ref_ok es -> (length (concat (map enc_ref es)) <= fuel)%nat ->
  parseInodeRefEntries_loop fuel (pre ++ concat (map enc_ref es)) (blen pre) = Ok es.
Proof.
  revert fuel pre. induction es as [|e es IH]; intros fuel pre Hok Hf.
  - cbn [map concat]. rewrite app_nil_r. destruct fuel; cbn [parseInodeRefEntries_loop];
      by rewrite (proj2 (Z.leb_gt _ _)) by lia.
  - apply Forall_cons in Hok as [[Hi Hn] Hok]. cbn [map concat] in *.
    destruct (encodeInodeRef_fields (ir_idx e) (ir_name e) Hi Hn) as (L&R0&R8&Hsub). fold (enc_ref e) in *.
    pose proof (blen_nonneg pre). pose proof (blen_nonneg (ir_name e)).
    pose proof (blen_nonneg (concat (map enc_ref es))). rewrite length_app in Hf.
    destruct fuel as [|fuel]; [unfold blen in *; lia|]. cbn [parseInodeRefEntries_loop].
    set (data := pre ++ enc_ref e ++ concat (map enc_ref es)).
    assert (Ld : blen data = blen pre + 10 + blen (ir_name e) + blen (concat (map enc_ref es)))
      by (unfold data; rewrite !blen_app; lia).
    assert (R0' : rd 8 data (blen pre) = ir_idx e).
    { rewrite <- R0, <- (Z.add_0_r (blen pre)). apply rd_app_mid; lia. }
    assert (R8' : rd 2 data (blen pre + 8) = blen (ir_name e)) by (rewrite <- R8; apply rd_app_mid; lia).
    rewrite (proj2 (Z.leb_le _ _)) by lia.
    rewrite (get_le_Ok 8), R0' by lia. cbn [mbind outcome_bind]. rewrite (get_le_Ok 2), R8' by lia.
    cbn [mbind outcome_bind]. case_if; [lia|]. rewrite slice_Ok by lia. cbn [mbind outcome_bind].
    replace (blen pre + 10 + blen (ir_name e) - (blen pre + 10)) with (blen (ir_name e)) by lia.
    unfold data at 1. rewrite sub_app_mid, Hsub by lia.
    rewrite <- L, <- (blen_app pre (enc_ref e)). unfold data. rewrite (app_assoc pre (enc_ref e)).
    rewrite IH; [by destruct e|done|]. unfold blen in *. lia.
Qed.

(** An INODE_REF item holds its back references faithfully: the encoded list
    parses back to the list, the name added by [appendInodeRef] is then present
    exactly once more while the others keep their order, and after the removal
    that [removeInodeRef] makes no entry of that name is left and every other
    entry is. *)
Theorem inode_refs_roundtrip es idx name :
  Forall ref_ok es -> ref_ok (InodeRefEntry idx name) ->
  parseInodeRefEntries (encodeInodeRefEntries es) = Ok es /\
  (match append_ref es idx name with
   | Some es' => parseInodeRefEntries (encodeInodeRefEntries es') = Ok (es ++ [InodeRefEntry idx name]) /\
       ~ In name (map ir_name es)
   | None => In name (map ir_name es)
   end) /\
  exists kept, parseInodeRefEntries (encodeInodeRefEntries (keep_refs es name)) = Ok kept /\
    ~ In name (map ir_name kept) /\ (forall e, In e es -> ir_name e <> name -> In e kept).
Proof.
  intros Hes He.
  assert (Hrt : forall l, Forall ref_ok l -> parseInodeRefEntries (encodeInodeRefEntries l) = Ok l)
    by (intros l Hl; apply (parseInodeRefEntries_loop_enc _ []); done).
  split; [by apply Hrt|]. split.
  - unfold append_ref. destruct (existsb _ es) eqn:Ex.
    + apply existsb_exists in Ex as (e&Hin&Hn). apply bool_decide_eq_true in Hn as <-. by apply in_map.
    + split; [apply Hrt, Forall_app; split; [done|by constructor]|]. intros Hin.
      apply in_map_iff in Hin as (e&<-&Hin). assert (Ht : existsb (fun x => bool_decide (ir_name x = ir_name e)) es = true).
      { apply existsb_exists. exists e. split; [done|]. by apply bool_decide_eq_true. }
      congruence.
  - exists (keep_refs es name). split_and!.
    + apply Hrt. apply Forall_forall. intros e Hin. rewrite Forall_forall in Hes. apply Hes.
      apply list_elem_of_In in Hin. apply filter_In in Hin as [Hin _]. by apply list_elem_of_In.
    + intros Hin. apply in_map_iff in Hin as (e&<-&Hin). apply filter_In in Hin as [_ Hn].
      rewrite bool_decide_eq_true_2 in Hn by done. done.
    + intros e Hin Hne. apply filter_In. split; [done|]. by rewrite bool_decide_eq_false_2.
Qed.

(** ** Extended attributes, inodes and extents *)

(** An extended attribute reads back: the payload built for a name and a value
    parses to them, and parsing arbitrary bytes never panics and only returns a
    name and a value that lie inside the payload. *)
Theorem xattr_roundtrip name value :
  blen name < 2 ^ 16 -> blen value < 2 ^ 16 ->
  parseXattrItem (encodeXattrItemPayload name value) = Ok (Some (name, value)) /\
  forall d, exists r, parseXattrItem d = Ok r /\
    match r with
    | Some (n, v) => dirItemHdrSize + blen n + blen v <= blen d
    | None => True
    end.
Proof.
  intros Hn Hv. pose proof (blen_nonneg name). pose proof (blen_nonneg value). split.
  - unfold parseXattrItem, encodeXattrItemPayload, dirItemHdrSize.
    set (n := blen name) in *. set (v := blen value) in *. set (b := splice _ (0x1E + n) value).
    assert (L : blen b = 0x1E + n + v) by (unfold b; blen_tac).
    assert (R19 : rd 2 b 0x19 = v).
    { unfold b, u16. rewrite (Z.mod_small n), (Z.mod_small v) by lia. rd_tac. apply Z.mod_small. cbn. lia. }
    assert (R1B : rd 2 b 0x1B = n).
    { unfold b, u16. rewrite (Z.mod_small n), (Z.mod_small v) by lia. rd_tac. apply Z.mod_small. cbn. lia. }
    case_if; [lia|]. rewrite (get_le_Ok 2 _ 0x19), R19 by lia. cbn [mbind outcome_bind].
    rewrite (get_le_Ok 2), R1B by lia. cbn [mbind outcome_bind]. case_if; [lia|].
    do 2 (rewrite slice_Ok by lia; cbn [mbind outcome_bind]). do 3 f_equal.
    + replace (0x1E + n - 0x1E) with n by lia. unfold b. rewrite sub_splice_out by blen_tac.
      apply sub_splice_same; [lia|]. blen_tac.
    + replace (0x1E + n + v - (0x1E + n)) with v by lia. unfold b. apply sub_splice_same; [lia|]. blen_tac.
  - intros d. unfold parseXattrItem, dirItemHdrSize. case_if; [by exists None|].
    rewrite (get_le_Ok 2 _ 0x19) by lia. cbn [mbind outcome_bind]. rewrite (get_le_Ok 2) by lia.
    cbn [mbind outcome_bind]. pose proof (rd_range 2 d 0x19). pose proof (rd_range 2 d 0x1B).
    case_if; [by exists None|]. do 2 (rewrite slice_Ok by lia; cbn [mbind outcome_bind]).
    eexists. split; [done|]. cbn beta iota. rewrite !blen_sub by lia. lia.
Qed.

Ltac inode_offs := unfold inodeOffGeneration, inodeOffTransID, inodeOffSize, inodeOffNBytes, inodeOffNLink,
  inodeOffMode, inodeOffFlags, inodeOffSequence, inodeOffATime, inodeOffCTime, inodeOffMTime, inodeOffOTime,
  inodeItemSize in *.

(** The inode item as a list of fields. *)
Lemma encodeInodeItem_put ino size mode gen nbytes nlink now :
  encodeInodeItem ino size mode gen nbytes nlink now =
  put_fields (zeros inodeItemSize)
    [(8%nat, inodeOffGeneration, gen); (8%nat, inodeOffTransID, gen); (8%nat, inodeOffSize, size);
     (8%nat, inodeOffNBytes, nbytes); (4%nat, inodeOffNLink, nlink); (4%nat, inodeOffMode, mode);
     (8%nat, inodeOffFlags, inodeFlagNoDataSum);
     (8%nat, inodeOffATime, u64 now.1); (4%nat, inodeOffATime + 8, u32 now.2);
     (8%nat, inodeOffCTime, u64 now.1); (4%nat, inodeOffCTime + 8, u32 now.2);
     (8%nat, inodeOffMTime, u64 now.1); (4%nat, inodeOffMTime + 8, u32 now.2);
     (8%nat, inodeOffOTime, u64 now.1); (4%nat, inodeOffOTime + 8, u32 now.2)].
Proof. reflexivity. Qed.

(** Any item of the right size decodes by its fields. *)
Lemma decode_inode_fields ino b size nlink mode :
  blen b = inodeItemSize -> rd 8 b inodeOffSize = size -> rd 4 b inodeOffNLink = nlink ->
  rd 4 b inodeOffMode = mode -> 0 <= mode < 2 ^ 16 -> decode_inode ino b = Ok (InodeItem ino mode size nlink).
Proof.
  intros Lb E1 E2 E3 Hm. unfold decode_inode. inode_offs. case_if; [lia|].
  rewrite (get_le_Ok 8), E1 by lia. cbn [mbind outcome_bind]. rewrite (get_le_Ok 4 _ 0x28), E2 by lia.
  cbn [mbind outcome_bind]. rewrite (get_le_Ok 4), E3 by lia. cbn [mbind outcome_bind].
  unfold u16. by rewrite Z.mod_small by lia.
Qed.

Lemma encodeInodeItem_fields ino size mode gen nbytes nlink now :
  is_u64 size -> 0 <= mode < 2 ^ 16 -> 0 <= nlink < 2 ^ 32 ->
  let d := encodeInodeItem ino size mode gen nbytes nlink now in
  blen d = inodeItemSize /\ rd 8 d inodeOffSize = size /\ rd 4 d inodeOffNLink = nlink /\ rd 4 d inodeOffMode = mode.
Proof.
  intros Hs Hm Hl. cbn zeta. rewrite encodeInodeItem_put. set (l := [_; _; _; _; _; _; _; _; _; _; _; _; _; _; _]).
  set (d := put_fields _ l). unfold is_u64 in *.
  assert (Lz : blen (zeros inodeItemSize) = inodeItemSize) by (apply blen_zeros; inode_offs; lia).
  assert (L : blen d = inodeItemSize)
    by (unfold d; rewrite (blen_put_fields inodeItemSize); [done|reflexivity|lia]).
  assert (Hf : forall l1 n off v l2, l = l1 ++ (n, off, v) :: l2 -> fields_off off (Z.of_nat n) l2 = true ->
     0 <= v < 256 ^ Z.of_nat n -> rd n d off = v).
  { intros l1 n off v l2 El Ho Hv. unfold d. rewrite El, (rd_put_fields inodeItemSize); [|rewrite <- El; reflexivity|lia|done].
    by apply Z.mod_small. }
  split_and!; [done|..].
  - apply (Hf (take 2 l) _ _ _ (drop 3 l)); [reflexivity|reflexivity|cbn; lia].
  - apply (Hf (take 4 l) _ _ _ (drop 5 l)); [reflexivity|reflexivity|cbn; lia].
  - apply (Hf (take 5 l) _ _ _ (drop 6 l)); [reflexivity|reflexivity|cbn; lia].
Qed.

(** An inode item reads back: the number, size, link count and mode written by
    [encodeInodeItem] are what [readInode] decodes; bumping the transaction id
    and the sequence changes neither of them, stores the generation, and counts
    the sequence up by one modulo 2^64. *)
Theorem inode_item_roundtrip ino size mode gen nbytes nlink now g :
  is_u64 size -> 0 <= mode < 2 ^ 16 -> 0 <= nlink < 2 ^ 32 -> is_u64 g ->
  let d := encodeInodeItem ino size mode gen nbytes nlink now in
  decode_inode ino d = Ok (InodeItem ino mode size nlink) /\
  exists d', bumpInodeTransIDSequence d g = Ok d' /\
    decode_inode ino d' = Ok (InodeItem ino mode size nlink) /\
    rd 8 d' inodeOffTransID = g /\ rd 8 d' inodeOffSequence = rd 8 d inodeOffSequence +₆₄ 1 /\
    rd 8 d' inodeOffGeneration = rd 8 d inodeOffGeneration.
Proof.
  intros Hs Hm Hl Hg. cbn zeta.
  destruct (encodeInodeItem_fields ino size mode gen nbytes nlink now Hs Hm Hl) as (L&F1&F2&F3).
  set (d := encodeInodeItem _ _ _ _ _ _ _) in *. unfold is_u64 in *.
  split; [by apply decode_inode_fields|]. unfold bumpInodeTransIDSequence. clearbody d.
  rewrite put_le_Ok by (inode_offs; lia). cbn [mbind outcome_bind].
  assert (L1 : blen (wr 8 d inodeOffTransID g) = inodeItemSize) by (rewrite blen_wr; inode_offs; lia).
  rewrite (get_le_Ok 8) by (inode_offs; lia). cbn [mbind outcome_bind].
  rewrite put_le_Ok by (inode_offs; lia). eexists. split; [done|].
  set (sq := _ +₆₄ 1). set (d1 := wr 8 d _ g) in *.
  assert (L2 : blen (wr 8 d1 inodeOffSequence sq) = inodeItemSize) by (rewrite blen_wr; inode_offs; lia).
  split_and!.
  - apply decode_inode_fields; try done; rewrite rd_wr_out by (inode_offs; lia); unfold d1;
      rewrite rd_wr_out by (inode_offs; lia); done.
  - rewrite rd_wr_out by (inode_offs; lia). unfold d1. rewrite rd_wr_same by (inode_offs; lia).
    apply Z.mod_small. cbn. lia.
  - rewrite rd_wr_same by (inode_offs; lia). unfold sq, d1. rewrite rd_wr_out by (inode_offs; lia).
    apply Z.mod_small. apply u64_range.
  - rewrite rd_wr_out by (inode_offs; lia). unfold d1. by rewrite rd_wr_out by (inode_offs; lia).
Qed.

(** ** Parsers on untrusted bytes *)
Lemma dir_entry_at_total data off :
  0 <= off -> off + dirItemHdrSize <= blen data ->
  exists r, dir_entry_at data off = Ok r /\
    match r with Some (_, next) => off + dirItemHdrSize <= next | None => True end.
Proof.
  intros Ho Hl. unfold dir_entry_at. rewrite (get_le_Ok 8) by codec_lia. cbn [mbind outcome_bind].
  rewrite (get_le_Ok 2 _ (_ + 0x1B)) by codec_lia. cbn [mbind outcome_bind].
  rewrite (get_le_Ok 1) by codec_lia. cbn [mbind outcome_bind].
  pose proof (rd_range 2 data (off + 0x1B)). case_if; [by exists None|].
  rewrite slice_Ok by codec_lia. cbn [mbind outcome_bind]. rewrite (get_le_Ok 2) by codec_lia. cbn [mbind outcome_bind].
  pose proof (rd_range 2 data (off + 0x19)). eexists. split; [done|]. cbn beta iota. lia.
Qed.

Lemma parseDirItems_loop_safe fuel data name off :
  0 <= off -> blen data < off + Z.of_nat fuel + dirItemHdrSize -> safe (parseDirItems_loop fuel data name off).
Proof.
  revert off. induction fuel as [|fuel IH]; intros off Ho Hf; cbn [parseDirItems_loop]; (case_if; [|done]);
    [lia|].
  destruct (dir_entry_at_total data off Ho ltac:(lia)) as ([[e next]|]&->&Hn); cbn [mbind outcome_bind]; [|done].
  case_bool_decide; [done|]. apply IH; codec_lia.
Qed.

Lemma parseDirItemsAll_loop_safe fuel data off :
  0 <= off -> blen data < off + Z.of_nat fuel + dirItemHdrSize -> safe (parseDirItemsAll_loop fuel data off).
Proof.
  revert off. induction fuel as [|fuel IH]; intros off Ho Hf; cbn [parseDirItemsAll_loop]; (case_if; [|done]);
    [lia|].
  destruct (dir_entry_at_total data off Ho ltac:(lia)) as ([[e next]|]&->&Hn); cbn [mbind outcome_bind]; [|done].
  apply safe_bind; [apply IH; codec_lia|done].
Qed.

Lemma parseInodeRefEntries_loop_safe fuel d off :
  0 <= off -> blen d < off + Z.of_nat fuel + 10 -> safe (parseInodeRefEntries_loop fuel d off).
Proof.
  revert off. induction fuel as [|fuel IH]; intros off Ho Hf; cbn [parseInodeRefEntries_loop]; (case_if; [|done]);
    [lia|].
  rewrite (get_le_Ok 8) by lia. cbn [mbind outcome_bind]. rewrite (get_le_Ok 2) by lia. cbn [mbind outcome_bind].
  pose proof (rd_range 2 d (off + 8)). case_if; [done|]. rewrite slice_Ok by lia. cbn [mbind outcome_bind].
  apply safe_bind; [apply IH; lia|done].
Qed.

Lemma parseDirItems_safe d name : safe (parseDirItems d name).
Proof. apply parseDirItems_loop_safe; unfold blen; codec_lia. Qed.
Lemma parseDirItemsAll_safe d : safe (parseDirItemsAll d).
Proof. apply parseDirItemsAll_loop_safe; unfold blen; codec_lia. Qed.

Lemma decode_inode_safe ino d :
  safe_with (decode_inode ino d) (fun i => in_num i = ino /\ is_u64 (in_size i)).
Proof.
  unfold decode_inode. inode_offs. case_if; [done|]. rewrite (get_le_Ok 8) by lia. cbn [mbind outcome_bind].
  rewrite (get_le_Ok 4 _ 0x28) by lia. cbn [mbind outcome_bind]. rewrite (get_le_Ok 4) by lia.
  split; [done|]. exact (rd_range 8 d 0x10).
Qed.

(** The item parsers are safe on untrusted bytes: whatever an item holds, the
    directory lookup and listing, the back-reference list, the root reference and
    the inode decoder end without a panic and within their loop bounds. *)
Theorem item_parsers_total d name ino :
  safe (parseDirItems d name) /\ safe (parseDirItemsAll d) /\ safe (parseInodeRefEntries d) /\
  safe (parseRootRef d) /\ safe (decode_inode ino d).
Proof.
  split_and!.
  - apply parseDirItems_safe.
  - apply parseDirItemsAll_safe.
  - apply parseInodeRefEntries_loop_safe; unfold blen; lia.
  - unfold parseRootRef, rootRefHdrSize. case_if; [done|]. rewrite (get_le_Ok 2) by lia. cbn [mbind outcome_bind].
    pose proof (rd_range 2 d 16). case_if; [done|]. rewrite (get_le_Ok 8) by lia. cbn [mbind outcome_bind].
    by rewrite slice_Ok by lia.
  - pose proof (decode_inode_safe ino d) as Hd. by destruct (decode_inode ino d).
Qed.

(** ** Examples *)
Definition ex_name (l : list Z) : bytes := map byte_of_Z l.
Definition ex_entries : list dirEntry :=
  [DirEntry 257 (ex_name [97; 98]) 1; DirEntry 258 dotdot 2; DirEntry 259 (ex_name [99]) 7].

Lemma dir_items_roundtrip_witness :
  parseDirItemsAll (concat (map enc_entry ex_entries)) = Ok (List.filter not_dot ex_entries) /\
  parseDirItems (concat (map enc_entry ex_entries)) (ex_name [99]) = Ok (259, 7).
Proof.
  apply (dir_items_roundtrip ex_entries (ex_name [99])).
  repeat constructor; vm_compute; first [reflexivity|discriminate].
Defined.

Lemma inode_refs_roundtrip_witness :
  let es := [InodeRefEntry 2 (ex_name [97]); InodeRefEntry 3 (ex_name [98])] in
  let name := ex_name [98] in
  parseInodeRefEntries (encodeInodeRefEntries es) = Ok es /\
  (match append_ref es 4 name with
   | Some es' => parseInodeRefEntries (encodeInodeRefEntries es') = Ok (es ++ [InodeRefEntry 4 name]) /\
       ~ In name (map ir_name es)
   | None => In name (map ir_name es)
   end) /\
  exists kept, parseInodeRefEntries (encodeInodeRefEntries (keep_refs es name)) = Ok kept /\
    ~ In name (map ir_name kept) /\ (forall e, In e es -> ir_name e <> name -> In e kept).
Proof.
  cbn zeta. apply (inode_refs_roundtrip [InodeRefEntry 2 (ex_name [97]); InodeRefEntry 3 (ex_name [98])] 4 (ex_name [98]));
    repeat constructor; vm_compute; first [reflexivity|discriminate].
Defined.

Lemma xattr_roundtrip_witness :
  parseXattrItem (encodeXattrItemPayload (ex_name [117; 46; 120]) (ex_name [1; 2])) =
    Ok (Some (ex_name [117; 46; 120], ex_name [1; 2])).
Proof.
  apply (xattr_roundtrip (ex_name [117; 46; 120]) (ex_name [1; 2])); vm_compute; reflexivity.
Defined.

Lemma inode_item_roundtrip_witness :
  decode_inode 257 (encodeInodeItem 257 5000 0x81A4 9 8192 1 (1700000000, 5)) = Ok (InodeItem 257 0x81A4 5000 1).
Proof.
  apply (inode_item_roundtrip 257 5000 0x81A4 9 8192 1 (1700000000, 5) 10); unfold is_u64; lia.
Defined.
