(* ===== verification/Read.v ===== *)
(** * Reading files (inode.go, dir.go, read.go, lzo.go, openfile.go)

    Path resolution, directory listing and the two ways to read a file: whole
    ([readFileData]) and positional ([btrfsFile.ReadAt]).  The decompressors are
    not part of the repository: they are an interface, a decoder being a
    function of the compressed bytes and of the limit the code reads at most. *)
From Stdlib Require Import ZArith Lia Strings.Byte.
From stdpp Require Import base option list numbers sorting gmap.
From S2P Require Import Prelude Bytes Layout SafeIO Chunk Node BTree Crc32c Codec.
Local Open Scope Z_scope.
Local Open Scope btrfs_scope.

(** ** Decompression *)
Class Decoders := {
  (** [zlib.NewReader] then [io.ReadAll] of the first [limit] bytes *)
  zlib_read : bytes -> Z -> outcome bytes;
  (** the same for the zstd decoder *)
  zstd_read : bytes -> Z -> outcome bytes;
  (** [lzo.Decompress] into a buffer of the given size *)
  lzo_Decompress : bytes -> Z -> outcome bytes;
}.
Class DecodersLaws (H : Decoders) := {
  zlib_spec src limit : safe_with (zlib_read src limit) (fun out => blen out <= Z.max 0 limit);
  zstd_spec src limit : safe_with (zstd_read src limit) (fun out => blen out <= Z.max 0 limit);
  lzo_spec src n : 0 <= n -> safe_with (lzo_Decompress src n) (fun out => blen out <= n);
}.

Definition clampRAM (ramBytes contextMax : Z) : Z :=
  let ramBytes := if maxDecompressRAM <? ramBytes then maxDecompressRAM else ramBytes in
  if contextMax <? ramBytes then contextMax else ramBytes.

Definition decompressLimit (ramBytes : Z) : Z :=
  let ramBytes := if maxDecompressRAM <? ramBytes then maxDecompressRAM else ramBytes in
  ramBytes + 1.

Definition btrfsLzoPageSize : Z := 4096.

(** The segment loop; a round moves [i] forward by at least 4. *)
Fixpoint lzo_loop `{Decoders} (fuel : nat) (src : bytes) (fin limit i : Z) (out : bytes) : outcome bytes :=
  if fin <=? i then Ok out
  else match fuel with
  | O => NoFuel
  | S fuel =>
      let straddles := negb (i / btrfsLzoPageSize =? (i + 4 - 1) / btrfsLzoPageSize) in
      let i := if straddles then (i / btrfsLzoPageSize + 1) * btrfsLzoPageSize else i in
      if straddles && (fin <=? i) then Ok out else
      if fin <? i + 4 then Err ErrOther else
      hdr ← slice src i (i + 4);
      segLen ← Uint32 hdr 0;
      let i := i + 4 in
      if segLen =? 0 then lzo_loop fuel src fin limit i out else
      if fin - i <? segLen then Err ErrOther else
      seg ← slice src i (i + segLen);
      d ← lzo_Decompress seg btrfsLzoPageSize;
      if limit <? blen out + blen d then Err ErrOther else
      lzo_loop fuel src fin limit (i + segLen) (out ++ d)
  end.

Definition decompressLzo `{Decoders} (src : bytes) (ramBytes : Z) : outcome bytes :=
  if blen src <? 4 then Err ErrOther else
  hdr ← slice src 0 4;
  totalSize ← Uint32 hdr 0;
  if (blen src <? totalSize) || (totalSize <? 4) then Err ErrOther else
  let limit := if ramBytes =? 0 then totalSize * 16 else ramBytes in
  let limit := if maxDecompressRAM <? limit then maxDecompressRAM else limit in
  let maxOut := (totalSize / 5 + 1) * btrfsLzoPageSize in
  let limit := if maxOut <? limit then maxOut else limit in
  lzo_loop (Z.to_nat totalSize) src totalSize limit 4 [].

Definition decompressZstd `{Decoders} (src : bytes) (ramBytes : Z) : outcome bytes :=
  zstd_read src (decompressLimit ramBytes).

Definition decompressExtent `{Decoders} (src : bytes) (compression ramBytes : Z) : outcome bytes :=
  if compression =? compressionNone then Ok src
  else if compression =? compressionZlib then zlib_read src (decompressLimit ramBytes)
  else if compression =? compressionLzo then decompressLzo src ramBytes
  else if compression =? compressionZstd then decompressZstd src ramBytes
  else Err ErrOther.

(** ** Whole-file reads *)
Definition deviceSize (size : option Z) : Z :=
  match size with
  | Some n => if 0 <? n then n else hardSizeCeiling
  | None => hardSizeCeiling
  end.

Section Read.
Context `{SafeIO} `{Decoders} (ReadAt : Z -> Z -> outcome bytes) (dev partOff : Z) (sb : superblock).

(** One extent item of [readFileData]: the output so far and [prevEnd]. *)
Definition read_item (size : Z) (m : rec) (acc : bytes * Z) : outcome (bytes * Z) :=
  let '(out, prevEnd) := acc in
  let fileOffset := offset m.1 in
  let d := m.2 in
  if size <=? fileOffset then Ok (out, prevEnd) else
  let remaining := size - fileOffset in
  if blen d <=? extDataOffType then Ok (out, prevEnd) else
  compression ← Uint8 d extDataOffCompression;
  extType ← Uint8 d extDataOffType;
  if extType =? extentDataInline then
    rawInline ← slice d extDataHdrSize (blen d);
    ram ← Uint64 d extDataOffRamBytes;
    inlineData ← decompressExtent rawInline compression (clampRAM ram remaining);
    let n := if remaining <? blen inlineData then remaining else blen inlineData in
    _ ← Slice out (i64 fileOffset) (i64 n);
    src ← slice inlineData 0 n;
    Ok (splice out (i64 fileOffset) src, prevEnd)
  else if extType =? extentDataRegular then
    if blen d <? extDataRegularSize then Ok (out, prevEnd) else
    nb ← Uint64 d extDataOffNumBytes;
    let fin := fileOffset +₆₄ nb in
    if (fin <? fileOffset) || (fileOffset <? prevEnd) then Err ErrOutOfBounds else
    diskBytenr ← Uint64 d extDataOffDiskBytenr;
    if diskBytenr =? 0 then Ok (out, fin) else
    diskNumBytes ← Uint64 d extDataOffDiskNumBytes;
    extOffset ← Uint64 d extDataOffOffset;
    let numBytes := if remaining <? nb then remaining else nb in
    _ ← CheckBounds (i64 fileOffset) (i64 numBytes) (blen out);
    if compression =? compressionNone then
      phys ← physAddr sb partOff (diskBytenr +₆₄ extOffset);
      _ ← slice out fileOffset (fileOffset +₆₄ numBytes);
      b ← ReadAt phys numBytes;
      Ok (splice out fileOffset b, fin)
    else
      buf ← MakeBytes (i64 diskNumBytes) dev;
      phys ← physAddr sb partOff diskBytenr;
      compressed ← ReadAt phys (blen buf);
      ram ← Uint64 d extDataOffRamBytes;
      plain ← decompressExtent compressed compression (clampRAM ram (extOffset +₆₄ numBytes));
      _ ← CheckBounds (i64 extOffset) (i64 numBytes) (blen plain);
      _ ← slice out fileOffset (fileOffset +₆₄ numBytes);
      src ← slice plain extOffset (extOffset +₆₄ numBytes);
      Ok (splice out fileOffset src, fin)
  else Ok (out, prevEnd).

Fixpoint read_items (size : Z) (items : list rec) (acc : bytes * Z) : outcome (bytes * Z) :=
  match items with
  | [] => Ok acc
  | m :: items => acc ← read_item size m acc; read_items size items acc
  end.

(** The body of [readFileData] once the extent items are collected. *)
Definition read_extents (size : Z) (items : list rec) : outcome bytes :=
  out ← MakeBytes (i64 size) dev;
  r ← read_items size items (out, 0);
  Ok r.1.

(** ** Positional reads *)
Definition copyWindow (dst : bytes) (off srcOff : Z) (src : bytes) : outcome bytes :=
  let hi := off +₆₄ blen dst in
  let srcEnd := srcOff +₆₄ blen src in
  let lo := if off <? srcOff then srcOff else off in
  let top := if srcEnd <? hi then srcEnd else hi in
  if top <=? lo then Ok dst else
  part ← slice src (lo - srcOff) (top - srcOff);
  _ ← slice dst (lo - off) (top - off);
  Ok (splice dst (lo - off) part).

(** The overlap check [openBtrfsFile] makes once over the items. *)
Fixpoint check_items (items : list rec) (prevEnd : Z) : outcome unit :=
  match items with
  | [] => Ok tt
  | m :: items =>
      let d := m.2 in
      if blen d <=? extDataOffType then check_items items prevEnd else
      extType ← Uint8 d extDataOffType;
      if negb (extType =? extentDataRegular) || (blen d <? extDataRegularSize) then check_items items prevEnd
      else
        nb ← Uint64 d extDataOffNumBytes;
        let fin := offset m.1 +₆₄ nb in
        if (fin <? offset m.1) || (offset m.1 <? prevEnd) then Err ErrOutOfBounds
        else check_items items fin
  end.

(** One item of [fill]: [None] ends the loop. *)
Definition fill_item (size off : Z) (m : rec) (dst : bytes) : outcome (option bytes) :=
  let hi := off +₆₄ blen dst in
  let fileOffset := offset m.1 in
  let d := m.2 in
  if hi <=? fileOffset then Ok None else
  if size <=? fileOffset then Ok (Some dst) else
  let remaining := size - fileOffset in
  if blen d <=? extDataOffType then Ok (Some dst) else
  compression ← Uint8 d extDataOffCompression;
  extType ← Uint8 d extDataOffType;
  if extType =? extentDataInline then
    ram ← Uint64 d extDataOffRamBytes;
    rawInline ← slice d extDataHdrSize (blen d);
    inline ← decompressExtent rawInline compression (clampRAM ram remaining);
    let n := Z.min (blen inline) remaining in
    src ← slice inline 0 n;
    dst ← copyWindow dst off fileOffset src;
    Ok (Some dst)
  else if extType =? extentDataRegular then
    if blen d <? extDataRegularSize then Ok (Some dst) else
    nb ← Uint64 d extDataOffNumBytes;
    let numBytes := Z.min nb remaining in
    let fin := fileOffset +₆₄ numBytes in
    if (fin <? fileOffset) || (fin <=? off) then Ok (Some dst) else
    diskBytenr ← Uint64 d extDataOffDiskBytenr;
    if diskBytenr =? 0 then Ok (Some dst) else
    extOffset ← Uint64 d extDataOffOffset;
    let lo := Z.max fileOffset off in
    let top := Z.min fin hi in
    if compression =? compressionNone then
      phys ← physAddr sb partOff ((diskBytenr +₆₄ extOffset) +₆₄ (lo - fileOffset));
      _ ← slice dst (lo - off) (top - off);
      b ← ReadAt phys (top - lo);
      Ok (Some (splice dst (lo - off) b))
    else
      diskNumBytes ← Uint64 d extDataOffDiskNumBytes;
      buf ← MakeBytes (i64 diskNumBytes) dev;
      phys ← physAddr sb partOff diskBytenr;
      compressed ← ReadAt phys (blen buf);
      ram ← Uint64 d extDataOffRamBytes;
      plain ← decompressExtent compressed compression (clampRAM ram (extOffset +₆₄ numBytes));
      _ ← CheckBounds (i64 extOffset) (i64 numBytes) (blen plain);
      src ← slice plain extOffset (extOffset +₆₄ numBytes);
      dst ← copyWindow dst off fileOffset src;
      Ok (Some dst)
  else Ok (Some dst).

Fixpoint fill (size off : Z) (items : list rec) (dst : bytes) : outcome bytes :=
  match items with
  | [] => Ok dst
  | m :: items =>
      r ← fill_item size off m dst;
      match r with
      | None => Ok dst
      | Some dst => fill size off items dst
      end
  end.

Record btrfsFile := BtrfsFile { bf_num : Z; bf_size : Z; bf_items : list rec }.

(** [ReadAt(p, off)]: the bytes read and whether the call returns [io.EOF]. *)
Definition file_ReadAt (f : btrfsFile) (len off : Z) : outcome (bytes * bool) :=
  if off <? 0 then Err ErrOther else
  if bf_size f <=? off then Ok ([], true) else
  let want := if bf_size f <? off +₆₄ len then bf_size f - off else len in
  dst ← fill (bf_size f) off (bf_items f) (zeros want);
  Ok (dst, want <? len).
End Read.

(** ** Paths (path.Clean and strings.Split of the Go library) *)
Definition slash : byte := byte_of_Z 47.

(** [strings.Split(s, "/")] *)
Fixpoint split_slash (s : bytes) : list bytes :=
  match s with
  | [] => [[]]
  | c :: s =>
      if bool_decide (c = slash) then [] :: split_slash s
      else match split_slash s with
           | w :: ws => (c :: w) :: ws
           | [] => [[c]]
           end
  end.

Fixpoint join_slash (ws : list bytes) : bytes :=
  match ws with
  | [] => []
  | [w] => w
  | w :: ws => w ++ slash :: join_slash ws
  end.

(** The components of the cleaned path; [stack] holds them in reverse. *)
Fixpoint clean_parts (rooted : bool) (parts stack : list bytes) : list bytes :=
  match parts with
  | [] => rev stack
  | w :: parts =>
      if bool_decide (w = []) || bool_decide (w = dot) then clean_parts rooted parts stack
      else if bool_decide (w = dotdot) then
        match stack with
        | t :: stack' =>
            if bool_decide (t = dotdot) then clean_parts rooted parts (w :: stack)
            else clean_parts rooted parts stack'
        | [] => if rooted then clean_parts rooted parts [] else clean_parts rooted parts [w]
        end
      else clean_parts rooted parts (w :: stack)
  end.

Definition path_Clean (p : bytes) : bytes :=
  match p with
  | [] => dot
  | c :: _ =>
      let rooted := bool_decide (c = slash) in
      let body := join_slash (clean_parts rooted (split_slash p) []) in
      if rooted then slash :: body else match body with [] => dot | _ => body end
  end.

(** [strings.TrimPrefix(p, "/")] *)
Definition trim_slash (p : bytes) : bytes :=
  match p with
  | c :: p' => if bool_decide (c = slash) then p' else p
  | [] => []
  end.

(** ** Lookups through a node reader *)
Section Lookup.
Context `{SafeIO} `{Decoders} {S : Type} (readNode : Z -> SM S bytes).
Context (ReadAt : Z -> Z -> outcome bytes) (dev partOff : Z) (sb : superblock) (fsTreeRoot : Z).

Definition readInode (ino : Z) : SM S inodeItem :=
  '(buf, it) ← searchTree readNode fsTreeRoot ino typeInodeItem 0;
  sm_lift (decode_inode ino (item_data it buf)).

(** Whether the name is in the payload of one item. *)
Definition entry_in (name d : bytes) : outcome (option (Z * Z)) :=
  match parseDirItems d name with
  | Ok r => Ok (Some r)
  | Err _ => Ok None
  | Panic => Panic
  | NoFuel => NoFuel
  end.

Fixpoint first_entry (name : bytes) (items : list rec) : outcome (option (Z * Z)) :=
  match items with
  | [] => Ok None
  | m :: items =>
      r ← entry_in name m.2;
      match r with
      | Some r => Ok (Some r)
      | None => first_entry name items
      end
  end.

Definition lookupDirEntry (dirIno : Z) (name : bytes) : SM S (Z * Z) :=
  hit ← sm_try (searchTree readNode fsTreeRoot dirIno typeDirItem (hashDirName name));
  r ← sm_lift (match hit with
               | Ok (leafBuf, it) => entry_in name (item_data it leafBuf)
               | Err _ => Ok None
               | Panic => Panic
               | NoFuel => NoFuel
               end);
  match r with
  | Some r => mret r
  | None =>
      items ← sm_try (collectPrefixItems readNode fsTreeRoot dirIno typeDirIndex);
      r ← sm_lift (match items with
                   | Ok items => first_entry name items
                   | Err _ => Ok None
                   | Panic => Panic
                   | NoFuel => NoFuel
                   end);
      match r with
      | Some r => mret r
      | None => sm_fail ErrNotExist
      end
  end.

Fixpoint walk_path (parts : list bytes) (curIno : Z) : SM S Z :=
  match parts with
  | [] => mret curIno
  | name :: parts => r ← lookupDirEntry curIno name; walk_path parts r.1
  end.

Definition pathLookup (p : bytes) : SM S inodeItem :=
  let p := path_Clean p in
  if bool_decide (p = [slash]) || bool_decide (p = dot) then readInode rootDirObjID
  else ino ← walk_path (split_slash (trim_slash p)) rootDirObjID; readInode ino.

Fixpoint list_entries (items : list rec) : outcome (list dirEntry) :=
  match items with
  | [] => Ok []
  | m :: items => es ← parseDirItemsAll m.2; rest ← list_entries items; Ok (es ++ rest)
  end.

Definition readDir (dirIno : Z) : SM S (list dirEntry) :=
  items ← sm_try (collectPrefixItems readNode fsTreeRoot dirIno typeDirIndex);
  match items with
  | Ok items => sm_lift (list_entries items)
  | Err _ => mret []
  | Panic => sm_lift Panic
  | NoFuel => sm_lift NoFuel
  end.

Definition readFileData (i : inodeItem) : SM S bytes :=
  if in_size i =? 0 then mret [] else
  items ← collectPrefixItems readNode fsTreeRoot (in_num i) typeExtentData;
  sm_lift (read_extents ReadAt dev partOff sb (in_size i) items).

Definition readSymlink (i : inodeItem) : SM S bytes := readFileData i.

Definition openBtrfsFile (p : bytes) : SM S btrfsFile :=
  i ← pathLookup p;
  if negb (isRegular i) then sm_fail ErrOther else
  let size := if 2 ^ 62 <? in_size i then 2 ^ 62 else in_size i in
  if in_size i =? 0 then mret (BtrfsFile (in_num i) size []) else
  items ← collectPrefixItems readNode fsTreeRoot (in_num i) typeExtentData;
  _ ← sm_lift (check_items items 0);
  mret (BtrfsFile (in_num i) size items).
End Lookup.

(** ** Decompression is bounded *)
Lemma Uint32_hdr src i : 0 <= i -> i + 4 <= blen src ->
  (hdr ← slice src i (i + 4); Uint32 hdr 0) = Ok (rd 4 src i).
Proof.
  intros Hi Hl. rewrite slice_Ok by lia. cbn [mbind outcome_bind]. replace (i + 4 - i) with 4 by lia.
  rewrite get_le_Ok by (try rewrite blen_sub by lia; lia). f_equal. rewrite rd_sub by lia. f_equal. lia.
Qed.

Section Lzo.
Context `{HD : DecodersLaws} (src : bytes) (fin : Z) (Hfin : fin <= blen src).

(** The round of the loop after the page skip. *)
Definition next_header (i : Z) : Z :=
  if negb (i / btrfsLzoPageSize =? (i + 4 - 1) / btrfsLzoPageSize)
  then (i / btrfsLzoPageSize + 1) * btrfsLzoPageSize else i.

Lemma next_header_ge i : i <= next_header i.
Proof using.
  unfold next_header, btrfsLzoPageSize. case_if; [|lia].
  pose proof (Z.div_mod i 4096 ltac:(lia)). pose proof (Z.mod_pos_bound i 4096 ltac:(lia)). lia.
Qed.

Lemma lzo_loop_step fuel limit i out :
  0 <= i < fin ->
  lzo_loop (S fuel) src fin limit i out =
  let j := next_header i in
  if fin <=? j then Ok out else
  if fin <? j + 4 then Err ErrOther else
  if rd 4 src j =? 0 then lzo_loop fuel src fin limit (j + 4) out else
  if fin - (j + 4) <? rd 4 src j then Err ErrOther else
  d ← lzo_Decompress (sub src (j + 4) (rd 4 src j)) btrfsLzoPageSize;
  if limit <? blen out + blen d then Err ErrOther else
  lzo_loop fuel src fin limit (j + 4 + rd 4 src j) (out ++ d).
Proof using Hfin.
  intros Hi. cbn [lzo_loop]. rewrite (proj2 (Z.leb_gt _ _)) by lia. fold (next_header i). cbn zeta.
  pose proof (next_header_ge i). set (j := next_header i) in *.
  assert (Hb : negb (i / btrfsLzoPageSize =? (i + 4 - 1) / btrfsLzoPageSize) && (fin <=? j) = (fin <=? j)).
  { unfold j, next_header. destruct (negb _); [done|]. cbn [andb]. symmetry. apply Z.leb_gt. lia. }
  rewrite Hb. case_if; [done|]. case_if; [done|]. pose proof (Uint32_hdr src j ltac:(lia) ltac:(lia)) as Hh.
  apply outcome_bind_Ok in Hh as (h&Hs&Hu). rewrite Hs. cbn [mbind outcome_bind]. rewrite Hu. cbn [mbind outcome_bind].
  pose proof (rd_range 4 src j). case_if; [done|]. case_if; [done|].
  rewrite slice_Ok by lia. cbn [mbind outcome_bind].
  by replace (j + 4 + rd 4 src j - (j + 4)) with (rd 4 src j) by lia.
Qed.

Lemma lzo_loop_end fuel limit i out : fin <= i -> lzo_loop fuel src fin limit i out = Ok out.
Proof using. intros. destruct fuel; cbn [lzo_loop]; by rewrite (proj2 (Z.leb_le _ _)) by lia. Qed.

Lemma lzo_loop_safe fuel limit i out :
  0 <= i -> fin - i <= Z.of_nat fuel -> blen out <= limit ->
  safe_with (lzo_loop fuel src fin limit i out) (fun o => blen o <= limit).
Proof using HD Hfin.
  revert i out. induction fuel as [|fuel IH]; intros i out Hi Hf Ho;
    (destruct (Z_le_gt_dec fin i); [by rewrite lzo_loop_end|]); [lia|].
  rewrite lzo_loop_step by lia. cbn zeta. pose proof (next_header_ge i).
  pose proof (rd_range 4 src (next_header i)).
  case_if; [done|]. case_if; [done|]. case_if; [apply IH; lia|]. case_if; [done|].
  pose proof (lzo_spec (sub src (next_header i + 4) (rd 4 src (next_header i))) btrfsLzoPageSize) as Hd.
  specialize (Hd ltac:(unfold btrfsLzoPageSize; lia)).
  destruct (lzo_Decompress _ _) as [d| | |]; cbn [mbind outcome_bind] in *; try done.
  case_if; [done|]. apply IH; [lia|lia|rewrite blen_app; lia].
Qed.

Lemma lzo_loop_grows fuel limit i out res :
  lzo_loop fuel src fin limit i out = Ok res -> blen out <= blen res.
Proof using.
  revert i out. induction fuel as [|fuel IH]; intros i out; cbn [lzo_loop]; (case_if; [by intros [= <-]|]); [done|].
  set (j := (if negb _ then (_ + 1) * _ else i)). case_if; [by intros [= <-]|]. case_if; [done|].
  destruct (slice src j (j + 4)) as [h| | |]; cbn [mbind outcome_bind]; try done.
  destruct (Uint32 h 0) as [sl| | |]; cbn [mbind outcome_bind]; try done.
  case_if; [apply IH|]. case_if; [done|].
  destruct (slice src _ _) as [seg| | |]; cbn [mbind outcome_bind]; try done.
  destruct (lzo_Decompress _ _) as [d| | |]; cbn [mbind outcome_bind]; try done.
  case_if; [done|]. intros E. apply IH in E. rewrite blen_app in E. pose proof (blen_nonneg d). lia.
Qed.

(** A lower limit changes the result only by refusing it. *)
Lemma lzo_loop_limit fuel limit w i out res :
  0 <= i -> blen out <= w -> w <= limit -> lzo_loop fuel src fin limit i out = Ok res ->
  lzo_loop fuel src fin w i out = if blen res <=? w then Ok res else Err ErrOther.
Proof using Hfin HD.
  revert i out. induction fuel as [|fuel IH]; intros i out Hi Ho Hw;
    (destruct (Z_le_gt_dec fin i);
     [rewrite !lzo_loop_end by done; intros [= <-]; by rewrite (proj2 (Z.leb_le _ _)) by lia|]).
  - cbn [lzo_loop]. by rewrite (proj2 (Z.leb_gt _ _)) by lia.
  - rewrite !lzo_loop_step by lia. cbn zeta. pose proof (next_header_ge i).
    pose proof (rd_range 4 src (next_header i)).
    case_if; [intros [= <-]; by rewrite (proj2 (Z.leb_le _ _)) by lia|]. case_if; [done|].
    case_if; [apply IH; lia|]. case_if; [done|].
    destruct (lzo_Decompress _ _) as [d| | |]; cbn [mbind outcome_bind]; try done.
    case_if; [done|]. intros E. destruct (Z.ltb_spec w (blen out + blen d)).
    + pose proof (lzo_loop_grows _ _ _ _ _ E) as Hlen.
      rewrite blen_app in Hlen. by rewrite (proj2 (Z.leb_gt _ _)) by lia.
    + apply IH; [lia|rewrite blen_app; lia|done|done].
Qed.
End Lzo.

Section Bounds.
Context `{HD : DecodersLaws}.

(** The header of the LZO framing and the loop it starts. *)
Lemma decompressLzo_cases src ram :
  decompressLzo src ram = Err ErrOther \/
  (4 <= rd 4 src 0 <= blen src /\
   decompressLzo src ram =
   lzo_loop (Z.to_nat (rd 4 src 0)) src (rd 4 src 0)
     (Z.min (Z.min (if ram =? 0 then rd 4 src 0 * 16 else ram) maxDecompressRAM)
            ((rd 4 src 0 / 5 + 1) * btrfsLzoPageSize)) 4 []).
Proof using.
  unfold decompressLzo. case_if; [by left|]. pose proof (Uint32_hdr src 0 ltac:(lia) ltac:(lia)) as Hh.
  change (0 + 4) with 4 in Hh. apply outcome_bind_Ok in Hh as (h&Hs&Hu).
  rewrite Hs. cbn [mbind outcome_bind]. rewrite Hu. cbn [mbind outcome_bind].
  case_if; [by left|]. right. split; [lia|]. cbn zeta. f_equal.
  set (l := if ram =? 0 then _ else _). set (mo := (_ / 5 + 1) * _).
  destruct (Z.ltb_spec maxDecompressRAM l); [rewrite (Z.min_r l) by lia|rewrite (Z.min_l l) by lia];
    case_if; lia.
Qed.

(** C40. Decompression is bounded whatever an image declares: for every payload,
    compression code and declared size the call ends without a panic, and the
    output of a decoder is at most 128 KiB plus the one byte that reveals an
    overlong stream; for LZO it is at most the declared size when that is not
    zero. *)
Theorem decompressExtent_bounded src compression ram :
  0 <= ram ->
  safe_with (decompressExtent src compression ram) (fun out =>
    (compression = compressionNone /\ out = src) \/
    (blen out <= maxDecompressRAM + 1 /\
     (compression = compressionLzo -> ram <> 0 -> blen out <= ram))).
Proof using HD.
  intros Hram. unfold decompressExtent. case_if; [by left|].
  assert (Hlim : 0 <= decompressLimit ram <= maxDecompressRAM + 1).
  { unfold decompressLimit, maxDecompressRAM. case_if; lia. }
  case_if; [|case_if; [|case_if; [|done]]].
  - eapply safe_with_impl; [apply zlib_spec|]. intros out Ho. right. split; [cbn in Ho; lia|].
    subst. discriminate.
  - destruct (decompressLzo_cases src ram) as [->|[Ht ->]]; [done|].
    eapply safe_with_impl; [apply lzo_loop_safe; [lia|lia|lia|]|].
    + change (blen []) with 0. unfold maxDecompressRAM, btrfsLzoPageSize.
      pose proof (Z.div_pos (rd 4 src 0) 5 ltac:(lia) ltac:(lia)). case_if; lia.
    + intros out Ho. cbn beta in Ho. right. split; [lia|]. intros _ Hnz.
      rewrite (proj2 (Z.eqb_neq _ _)) in Ho by done. lia.
  - eapply safe_with_impl; [apply zstd_spec|]. intros out Ho. right. split; [cbn in Ho; lia|].
    subst. discriminate.
Qed.

(** For LZO the size bound is not a cut-off but a refusal.  If a payload
    decompresses to [out] under its full size, then every smaller non-zero bound
    makes the same payload fail.  [readFileData] and [ReadAt] pass the end of the
    referenced window as the bound, so an LZO extent of which a file references
    only a leading part cannot be read, while the zlib and zstd paths stop at
    the bound and return the data. *)
Theorem lzo_window_refused src ram w out :
  decompressLzo src ram = Ok out -> 0 < w < blen out -> w <= ram ->
  decompressLzo src (clampRAM ram w) = Err ErrOther.
Proof using HD.
  intros E Hw Hr. destruct (decompressLzo_cases src ram) as [E'|[Ht E']]; [congruence|]. rewrite E in E'.
  symmetry in E'. rewrite (proj2 (Z.eqb_neq ram 0)) in E' by lia.
  assert (Hmax : blen out <= maxDecompressRAM).
  { pose proof (Z.div_pos (rd 4 src 0) 5 ltac:(lia) ltac:(lia)) as Hd5.
    pose proof (lzo_loop_safe src (rd 4 src 0) ltac:(lia) (Z.to_nat (rd 4 src 0)) (Z.min (Z.min ram maxDecompressRAM)
      ((rd 4 src 0 / 5 + 1) * btrfsLzoPageSize)) 4 [] ltac:(lia) ltac:(lia)
      ltac:(change (blen []) with 0; unfold maxDecompressRAM, btrfsLzoPageSize; lia)) as Hs.
    rewrite E' in Hs. unfold safe_with in Hs. lia. }
  assert (Hc : clampRAM ram w = w).
  { unfold clampRAM. repeat case_if; lia. }
  rewrite Hc. destruct (decompressLzo_cases src w) as [->|[_ ->]]; [done|].
  rewrite (proj2 (Z.eqb_neq w 0)) by lia.
  pose proof (Z.div_pos (rd 4 src 0) 5 ltac:(lia) ltac:(lia)) as Hd5.
  erewrite (lzo_loop_limit src (rd 4 src 0) ltac:(lia)); [|lia| | |exact E'];
    [|change (blen []) with 0; unfold maxDecompressRAM, btrfsLzoPageSize; lia|lia].
  by rewrite (proj2 (Z.leb_gt _ _)) by lia.
Qed.
End Bounds.

(** ** Examples *)

(** A decoder for streams that store their data: the identity, up to the limit. *)
#[local] Instance storedDecoders : Decoders := {|
  zlib_read src limit := Ok (take (Z.to_nat limit) src);
  zstd_read src limit := Ok (take (Z.to_nat limit) src);
  lzo_Decompress src n := if blen src <=? n then Ok src else Err ErrOther;
|}.
#[local] Instance storedDecoders_laws : DecodersLaws storedDecoders.
Proof.
  split; cbn [zlib_read zstd_read lzo_Decompress storedDecoders].
  - intros. unfold safe_with, blen. rewrite length_take. lia.
  - intros. unfold safe_with, blen. rewrite length_take. lia.
  - intros src n Hn. case_if; cbn; [lia|done].
Defined.

Definition ex_plain : bytes := map byte_of_Z [10; 20; 30; 40; 50; 60; 70; 80].
Definition ex_lzo : bytes := le_enc 4 16 ++ le_enc 4 8 ++ ex_plain.

Lemma decompressExtent_bounded_witness :
  safe_with (decompressExtent ex_lzo compressionLzo 8) (fun out =>
    (compressionLzo = compressionNone /\ out = ex_lzo) \/
    (blen out <= maxDecompressRAM + 1 /\
     (compressionLzo = compressionLzo -> 8 <> 0 -> blen out <= 8))).
Proof. apply (decompressExtent_bounded ex_lzo compressionLzo 8). lia. Defined.

Lemma lzo_window_refused_witness :
  decompressLzo ex_lzo 8 = Ok ex_plain /\ decompressLzo ex_lzo (clampRAM 8 5) = Err ErrOther.
Proof.
  split; [vm_compute; reflexivity|].
  apply (lzo_window_refused ex_lzo 8 5 ex_plain); [vm_compute; reflexivity|vm_compute; split; reflexivity|lia].
Defined.
