(* ===== verification/FileRead.v ===== *)
(** * Correctness of file reads

    Two results about the operations of [Read]: every read of an untrusted image
    ends with data or an error, and the positional reads a server makes return
    the same bytes as a read of the whole file. *)
From Stdlib Require Import ZArith Lia Strings.Byte.
From stdpp Require Import base option list numbers sorting gmap.
From S2P Require Import Prelude Bytes Layout SafeIO Chunk Node BTree Crc32c Codec Read.
Local Open Scope Z_scope.
Local Open Scope btrfs_scope.

(** ** Reads of untrusted files *)
Ltac ext_offs := unfold extDataOffType, extDataOffCompression, extDataOffRamBytes, extDataOffNumBytes,
  extDataOffDiskBytenr, extDataOffDiskNumBytes, extDataOffOffset, extDataHdrSize, extDataRegularSize in *.

Lemma clampRAM_nonneg ram c : 0 <= ram -> 0 <= c -> 0 <= clampRAM ram c.
Proof. intros. unfold clampRAM, maxDecompressRAM. repeat case_if; lia. Qed.

Lemma decompressExtent_safe `{HD : DecodersLaws} src compression ram :
  0 <= ram -> safe (decompressExtent src compression ram).
Proof.
  intros Hram. unfold decompressExtent. case_if; [done|]. case_if.
  { pose proof (zlib_spec src (decompressLimit ram)) as Hz. by destruct (zlib_read _ _). }
  case_if.
  - destruct (decompressLzo_cases src ram) as [->|[Ht ->]]; [done|].
    pose proof (Z.div_pos (rd 4 src 0) 5 ltac:(lia) ltac:(lia)) as Hd5.
    pose proof (lzo_loop_safe src (rd 4 src 0) ltac:(lia) (Z.to_nat (rd 4 src 0)) (Z.min (Z.min
      (if ram =? 0 then rd 4 src 0 * 16 else ram) maxDecompressRAM)
      ((rd 4 src 0 / 5 + 1) * btrfsLzoPageSize)) 4 [] ltac:(lia) ltac:(lia)
      ltac:(change (blen []) with 0; unfold maxDecompressRAM, btrfsLzoPageSize; case_if; lia)) as Hs.
    by destruct (lzo_loop _ _ _ _ _ _).
  - case_if; [|done]. pose proof (zstd_spec src (decompressLimit ram)) as Hz. unfold decompressZstd.
    by destruct (zstd_read _ _).
Qed.

(** ** What one extent item contributes *)
Lemma i64_big z : 2 ^ 63 <= z < 2 ^ 64 -> i64 z < 0.
Proof.
  intros. unfold i64. rewrite <- (Z.mod_unique (z + 2 ^ 63) (2 ^ 64) 1 (z + 2 ^ 63 - 2 ^ 64)); lia.
Qed.

Section Items.
Context `{HL : SafeIOLaws} `{HD : DecodersLaws}.
Context (ReadAt : Z -> Z -> outcome bytes) (dev partOff : Z) (sb : superblock).

(** The bytes of an inline extent that lie in the file. *)
Definition inline_src (d : bytes) (remaining : Z) : outcome bytes :=
  plain ← decompressExtent (sub d extDataHdrSize (blen d - extDataHdrSize)) (rd 1 d extDataOffCompression)
            (clampRAM (rd 8 d extDataOffRamBytes) remaining);
  Ok (sub plain 0 (Z.min (blen plain) remaining)).

(** The [n] bytes a file references of a compressed extent. *)
Definition packed_src (d : bytes) (n : Z) : outcome bytes :=
  buf ← MakeBytes (i64 (rd 8 d extDataOffDiskNumBytes)) dev;
  phys ← physAddr sb partOff (rd 8 d extDataOffDiskBytenr);
  compressed ← ReadAt phys (blen buf);
  plain ← decompressExtent compressed (rd 1 d extDataOffCompression)
            (clampRAM (rd 8 d extDataOffRamBytes) (rd 8 d extDataOffOffset +₆₄ n));
  _ ← CheckBounds (i64 (rd 8 d extDataOffOffset)) (i64 n) (blen plain);
  Ok (sub plain (rd 8 d extDataOffOffset) n).

(** The device address of the data of an uncompressed extent. *)
Definition data_addr (d : bytes) : Z := rd 8 d extDataOffDiskBytenr +₆₄ rd 8 d extDataOffOffset.

(** The source window of a compressed extent never wraps once it is checked. *)
Lemma window_small eo n (plain : bytes) :
  is_u64 eo -> 0 <= n < 2 ^ 63 -> CheckBounds (i64 eo) (i64 n) (blen plain) = Ok tt ->
  eo +₆₄ n = eo + n /\ eo + n <= blen plain.
Proof using HL.
  intros He Hn E. destruct (CheckBounds_cases (i64 eo) (i64 n) (blen plain)) as [(_&Hb)|E2]; [|congruence].
  unfold is_u64 in He. destruct (Z_lt_le_dec eo (2 ^ 63)); [|pose proof (i64_big eo); lia].
  rewrite !i64_small in Hb by lia. rewrite u64_small by (unfold is_u64; lia). lia.
Qed.

Lemma read_item_eq size k d out prevEnd :
  key_ok k -> blen out = size -> 0 <= size < 2 ^ 63 ->
  let n := Z.min (rd 8 d extDataOffNumBytes) (size - offset k) in
  let fin := offset k +₆₄ rd 8 d extDataOffNumBytes in
  read_item ReadAt dev partOff sb size (k, d) (out, prevEnd) =
  if size <=? offset k then Ok (out, prevEnd) else
  if blen d <=? extDataOffType then Ok (out, prevEnd) else
  if rd 1 d extDataOffType =? extentDataInline then
    src ← inline_src d (size - offset k); Ok (splice out (offset k) src, prevEnd)
  else if rd 1 d extDataOffType =? extentDataRegular then
    if blen d <? extDataRegularSize then Ok (out, prevEnd) else
    if (fin <? offset k) || (offset k <? prevEnd) then Err ErrOutOfBounds else
    if rd 8 d extDataOffDiskBytenr =? 0 then Ok (out, fin) else
    src ← (if rd 1 d extDataOffCompression =? compressionNone
           then phys ← physAddr sb partOff (data_addr d); ReadAt phys n
           else packed_src d n);
    Ok (splice out (offset k) src, fin)
  else Ok (out, prevEnd).
Proof using HL.
  intros (_&_&Hk) Lo Hs n fin. unfold read_item. cbn [fst snd].
  case_if; [done|]. case_if; [done|]. rewrite !(get_le_Ok 1) by (ext_offs; lia). cbn [mbind outcome_bind].
  assert (Hi : i64 (offset k) = offset k) by (apply i64_small; lia). case_if.
  - rewrite slice_Ok by (ext_offs; lia). cbn [mbind outcome_bind]. rewrite (get_le_Ok 8) by (ext_offs; lia).
    cbn [mbind outcome_bind]. unfold inline_src.
    destruct (decompressExtent _ _ _) as [inl| | |]; cbn [mbind outcome_bind]; try done.
    pose proof (blen_nonneg inl). set (c := if _ <? _ then _ else _).
    replace c with (Z.min (blen inl) (size - offset k)) by (unfold c; case_if; lia).
    rewrite Hi, (i64_small (Z.min _ _)) by lia.
    rewrite Slice_Ok by lia. cbn [mbind outcome_bind]. rewrite slice_Ok by lia. cbn [mbind outcome_bind].
    by rewrite Z.sub_0_r.
  - case_if; [|done]. case_if; [done|]. rewrite (get_le_Ok 8 _ extDataOffNumBytes) by (ext_offs; lia).
    cbn [mbind outcome_bind]. fold fin. case_if; [done|].
    rewrite (get_le_Ok 8 _ extDataOffDiskBytenr) by (ext_offs; lia). cbn [mbind outcome_bind]. case_if; [done|].
    rewrite (get_le_Ok 8 _ extDataOffDiskNumBytes) by (ext_offs; lia). cbn [mbind outcome_bind].
    rewrite (get_le_Ok 8 _ extDataOffOffset) by (ext_offs; lia). cbn [mbind outcome_bind].
    pose proof (rd64_u64 d extDataOffNumBytes) as Hnb. unfold is_u64 in Hnb.
    set (c := if _ <? rd 8 d extDataOffNumBytes then _ else _).
    replace c with n by (unfold n, c; case_if; lia). clear c.
    assert (Hn : 0 <= n <= size - offset k) by (unfold n; lia).
    rewrite Hi, (CheckBounds_Ok (offset k)) by (rewrite ?i64_small by lia; lia). cbn [mbind outcome_bind].
    rewrite (u64_small (offset k + n)) by (unfold is_u64; lia). fold (data_addr d). case_if.
    + destruct (physAddr _ _ _); cbn [mbind outcome_bind]; try done. rewrite slice_Ok by lia. idtac.  done.
    + unfold packed_src. destruct (MakeBytes _ _); cbn [mbind outcome_bind]; try done.
      destruct (physAddr _ _ _); cbn [mbind outcome_bind]; try done.
      destruct (ReadAt _ _); cbn [mbind outcome_bind]; try done.
      rewrite (get_le_Ok 8) by (ext_offs; lia). cbn [mbind outcome_bind].
      destruct (decompressExtent _ _ _) as [plain| | |]; cbn [mbind outcome_bind]; try done.
      destruct (CheckBounds _ _ (blen plain)) as [[]| | |] eqn:E; cbn [mbind outcome_bind]; try done.
      apply window_small in E as [Ew Hw]; [|apply rd64_u64|lia]. rewrite Ew, (slice_Ok out) by lia.
      cbn [mbind outcome_bind]. pose proof (rd64_u64 d extDataOffOffset) as Heo. unfold is_u64 in Heo.
      rewrite slice_Ok by lia. cbn [mbind outcome_bind]. by rewrite Z.add_simpl_l.
Qed.

(** [copyWindow] as a function: the part of [src] (at file offset [fo]) that lies
    in the window [dst] (at file offset [off]). *)
Definition place (dst : bytes) (off fo : Z) (src : bytes) : bytes :=
  let lo := Z.max fo off in
  let top := Z.min (fo + blen src) (off + blen dst) in
  splice dst (lo - off) (sub src (lo - fo) (top - lo)).

Lemma splice_nil b off : splice b off [] = b.
Proof using. unfold splice. cbn [length app]. rewrite Nat.add_0_r. apply take_drop. Qed.

Lemma copyWindow_eq dst off fo src :
  0 <= off -> 0 <= fo -> off + blen dst < 2 ^ 64 -> fo + blen src < 2 ^ 64 ->
  copyWindow dst off fo src = Ok (place dst off fo src).
Proof using.
  intros. pose proof (blen_nonneg dst). pose proof (blen_nonneg src).
  unfold copyWindow, place. rewrite !u64_small by (unfold is_u64; lia).
  set (lo := if off <? fo then _ else _). set (top := if _ <? off + _ then _ else _).
  replace (Z.max fo off) with lo by (unfold lo; case_if; lia).
  replace (Z.min (fo + blen src) (off + blen dst)) with top by (unfold top; case_if; lia). case_if.
  - unfold sub. rewrite (Z2Nat.nonpos (top - lo)) by lia. by rewrite take_0, splice_nil.
  - assert (off <= lo /\ fo <= lo /\ top <= fo + blen src /\ top <= off + blen dst) as (?&?&?&?)
      by (unfold lo, top; repeat case_if; lia).
    rewrite (slice_Ok src) by lia. cbn [mbind outcome_bind]. rewrite (slice_Ok dst) by lia. cbn [mbind outcome_bind].
    do 3 f_equal. lia.
Qed.

Lemma blen_place dst off fo src :
  0 <= off -> 0 <= fo -> blen (place dst off fo src) = blen dst.
Proof using.
  intros. pose proof (blen_nonneg dst). pose proof (blen_nonneg src). unfold place.
  destruct (Z_le_gt_dec (Z.min (fo + blen src) (off + blen dst)) (Z.max fo off)).
  - unfold sub. rewrite (Z2Nat.nonpos (_ - _)) by lia. by rewrite take_0, splice_nil.
  - rewrite blen_splice; rewrite ?blen_sub; lia.
Qed.

(** Writing into the file and then taking the window is writing into the window. *)
Lemma place_window out off w fo src :
  0 <= off -> 0 <= w -> off + w <= blen out -> 0 <= fo -> fo + blen src <= blen out ->
  place (sub out off w) off fo src = sub (splice out fo src) off w.
Proof using.
  intros. pose proof (blen_nonneg src). unfold place. rewrite blen_sub by lia.
  set (lo := Z.max fo off). set (top := Z.min (fo + blen src) (off + w)).
  destruct (Z_le_gt_dec top lo).
  - unfold sub at 2. rewrite (Z2Nat.nonpos (top - lo)) by lia. rewrite take_0, splice_nil.
    apply sub_agree; rewrite ?blen_splice; try lia. intros p Hp. symmetry. apply bnth_splice_out; lia.
  - apply bytes_ext; rewrite ?blen_splice, !blen_sub; rewrite ?blen_splice, ?blen_sub; try lia.
    intros p Hp. rewrite (bnth_sub (splice out fo src)) by (rewrite ?blen_splice; lia).
    destruct (decide (lo - off <= p < top - off)).
    + rewrite bnth_splice_in by (rewrite ?blen_sub by lia; rewrite ?blen_sub by lia; lia).
      rewrite bnth_sub by lia. rewrite bnth_splice_in by lia. f_equal. lia.
    + rewrite bnth_splice_out by (rewrite ?blen_sub by lia; rewrite ?blen_sub by lia; lia).
      rewrite bnth_sub by lia. symmetry. apply bnth_splice_out; lia.
Qed.

Lemma fill_item_eq size off k d dst :
  key_ok k -> 0 <= off -> off + blen dst <= size <= 2 ^ 62 ->
  let n := Z.min (rd 8 d extDataOffNumBytes) (size - offset k) in
  let lo := Z.max (offset k) off in
  let top := Z.min (offset k + n) (off + blen dst) in
  fill_item ReadAt dev partOff sb size off (k, d) dst =
  if off + blen dst <=? offset k then Ok None else
  if size <=? offset k then Ok (Some dst) else
  if blen d <=? extDataOffType then Ok (Some dst) else
  if rd 1 d extDataOffType =? extentDataInline then
    src ← inline_src d (size - offset k); Ok (Some (place dst off (offset k) src))
  else if rd 1 d extDataOffType =? extentDataRegular then
    if blen d <? extDataRegularSize then Ok (Some dst) else
    if offset k + n <=? off then Ok (Some dst) else
    if rd 8 d extDataOffDiskBytenr =? 0 then Ok (Some dst) else
    if rd 1 d extDataOffCompression =? compressionNone then
      phys ← physAddr sb partOff (data_addr d +₆₄ (lo - offset k));
      b ← ReadAt phys (top - lo);
      Ok (Some (splice dst (lo - off) b))
    else src ← packed_src d n; Ok (Some (place dst off (offset k) src))
  else Ok (Some dst).
Proof using HL.
  intros (_&_&Hk) Ho Hs n lo top. pose proof (blen_nonneg dst). unfold fill_item. cbn [fst snd].
  rewrite (u64_small (off + blen dst)) by (unfold is_u64; lia).
  case_if; [done|]. case_if; [done|]. case_if; [done|]. rewrite !(get_le_Ok 1) by (ext_offs; lia).
  cbn [mbind outcome_bind]. case_if.
  - rewrite (get_le_Ok 8) by (ext_offs; lia). cbn [mbind outcome_bind].
    rewrite slice_Ok by (ext_offs; lia). cbn [mbind outcome_bind]. unfold inline_src.
    destruct (decompressExtent _ _ _) as [inl| | |]; cbn [mbind outcome_bind]; try done.
    pose proof (blen_nonneg inl). rewrite slice_Ok by lia. cbn [mbind outcome_bind]. rewrite Z.sub_0_r.
    by rewrite copyWindow_eq by (rewrite ?blen_sub; lia).
  - case_if; [|done]. case_if; [done|]. rewrite (get_le_Ok 8 _ extDataOffNumBytes) by (ext_offs; lia).
    cbn [mbind outcome_bind]. fold n. pose proof (rd64_u64 d extDataOffNumBytes) as Hnb. unfold is_u64 in Hnb.
    assert (Hn : 0 <= n <= size - offset k) by (unfold n; lia).
    rewrite (u64_small (offset k + n)) by (unfold is_u64; lia). fold lo top.
    rewrite (proj2 (Z.ltb_ge (offset k + n) (offset k))) by lia. cbn [orb]. case_if; [done|].
    rewrite (get_le_Ok 8 _ extDataOffDiskBytenr) by (ext_offs; lia). cbn [mbind outcome_bind]. case_if; [done|].
    rewrite (get_le_Ok 8 _ extDataOffOffset) by (ext_offs; lia). cbn [mbind outcome_bind].
    fold (data_addr d). case_if.
    + destruct (physAddr _ _ _); cbn [mbind outcome_bind]; try done. by rewrite slice_Ok by lia.
    + rewrite (get_le_Ok 8 _ extDataOffDiskNumBytes) by (ext_offs; lia). cbn [mbind outcome_bind].
      unfold packed_src. destruct (MakeBytes _ _); cbn [mbind outcome_bind]; try done.
      destruct (physAddr _ _ _); cbn [mbind outcome_bind]; try done.
      destruct (ReadAt _ _); cbn [mbind outcome_bind]; try done.
      rewrite (get_le_Ok 8) by (ext_offs; lia). cbn [mbind outcome_bind].
      destruct (decompressExtent _ _ _) as [plain| | |]; cbn [mbind outcome_bind]; try done.
      destruct (CheckBounds _ _ (blen plain)) as [[]| | |] eqn:E; cbn [mbind outcome_bind]; try done.
      apply window_small in E as [Ew Hw]; [|apply rd64_u64|lia]. rewrite Ew.
      pose proof (rd64_u64 d extDataOffOffset) as Heo. unfold is_u64 in Heo.
      rewrite slice_Ok by lia. cbn [mbind outcome_bind]. rewrite Z.add_simpl_l.
      by rewrite copyWindow_eq by (rewrite ?blen_sub; lia).
Qed.
End Items.

(** ** Reads of untrusted images are total *)
Section Untrusted.
Context `{HL : SafeIOLaws} `{HD : DecodersLaws}.
Context (ReadAt : Z -> Z -> outcome bytes) (dev partOff : Z) (sb : superblock).
(** A device read fails or fills the buffer. *)
Context (Hdev : forall p n, 0 <= n -> safe_with (ReadAt p n) (fun b => blen b = n)).

Lemma inline_src_safe d r : 0 <= r -> safe_with (inline_src d r) (fun src => blen src <= r).
Proof using HD.
  intros Hr. pose proof (rd_range 8 d extDataOffRamBytes). unfold inline_src.
  pose proof (decompressExtent_safe (sub d extDataHdrSize (blen d - extDataHdrSize)) (rd 1 d extDataOffCompression)
    (clampRAM (rd 8 d extDataOffRamBytes) r) ltac:(apply clampRAM_nonneg; lia)) as Hdec.
  destruct (decompressExtent _ _ _) as [b| | |]; cbn [mbind outcome_bind]; try done.
  pose proof (blen_nonneg b). unfold safe_with. rewrite blen_sub; lia.
Qed.

Lemma packed_src_safe d n : 0 <= n < 2 ^ 63 -> safe_with (packed_src ReadAt dev partOff sb d n) (fun src => blen src = n).
Proof using HL HD Hdev.
  intros Hn. unfold packed_src.
  destruct (MakeBytes_cases (i64 (rd 8 d extDataOffDiskNumBytes)) dev) as [[-> Hm]| ->]; [|done].
  cbn [mbind outcome_bind]. destruct (physAddr_cases sb partOff (rd 8 d extDataOffDiskBytenr)) as [->| ->]; [|done].
  cbn [mbind outcome_bind]. rewrite blen_zeros by lia. eapply safe_with_bind; [apply Hdev; lia|]. intros b _.
  pose proof (rd_range 8 d extDataOffRamBytes).
  pose proof (decompressExtent_safe b (rd 1 d extDataOffCompression)
    (clampRAM (rd 8 d extDataOffRamBytes) (rd 8 d extDataOffOffset +₆₄ n))
    ltac:(apply clampRAM_nonneg; [lia|apply u64_range])) as Hdec.
  destruct (decompressExtent _ _ _) as [plain| | |]; cbn [mbind outcome_bind]; try done.
  destruct (CheckBounds _ _ (blen plain)) as [[]| | |] eqn:E; cbn [mbind outcome_bind];
    [|done|destruct (CheckBounds_cases (i64 (rd 8 d extDataOffOffset)) (i64 n) (blen plain)) as [[? _]|?]; congruence..].
  pose proof (rd64_u64 d extDataOffOffset) as Heo. apply window_small in E as [_ Hw]; [|done|done].
  unfold is_u64 in Heo. unfold safe_with. rewrite blen_sub; lia.
Qed.

Lemma read_item_safe size m out prevEnd :
  key_ok m.1 -> blen out = size -> 0 <= size < 2 ^ 63 ->
  safe_with (read_item ReadAt dev partOff sb size m (out, prevEnd)) (fun r => blen r.1 = size).
Proof using HL HD Hdev.
  intros Hk Lo Hs. destruct m as [k d]. cbn [fst] in Hk. rewrite read_item_eq by done. cbn zeta.
  pose proof Hk as (_&_&Hk'). pose proof (rd64_u64 d extDataOffNumBytes) as Hnb. unfold is_u64 in Hnb.
  case_if; [done|]. case_if; [done|]. case_if.
  - eapply safe_with_bind; [apply inline_src_safe; lia|]. intros src Hl. cbn beta in Hl.
    unfold safe_with. cbn [fst]. rewrite blen_splice; lia.
  - case_if; [|done]. case_if; [done|]. case_if; [done|]. case_if; [done|].
    eapply (safe_with_bind _ _ (fun src => blen src = Z.min (rd 8 d extDataOffNumBytes) (size - offset k))).
    + case_if; [|apply packed_src_safe; lia].
      destruct (physAddr_cases sb partOff (data_addr d)) as [->| ->]; [|done]. apply Hdev. lia.
    + intros src Hl. cbn beta in Hl. unfold safe_with. cbn [fst]. rewrite blen_splice; lia.
Qed.

Lemma read_items_safe size items acc :
  Forall (fun m : rec => key_ok m.1) items -> blen acc.1 = size -> 0 <= size < 2 ^ 63 ->
  safe_with (read_items ReadAt dev partOff sb size items acc) (fun r => blen r.1 = size).
Proof using HL HD Hdev.
  intros Hk. revert acc. induction Hk as [|m items Hm _ IH]; intros [out pe] Lo Hs; [done|].
  cbn [read_items]. eapply safe_with_bind; [by apply read_item_safe|]. intros acc' Ha. by apply IH.
Qed.

Lemma read_extents_safe size items :
  Forall (fun m : rec => key_ok m.1) items -> 0 <= size < 2 ^ 64 -> dev < 2 ^ 63 ->
  safe_with (read_extents ReadAt dev partOff sb size items) (fun out => blen out = size /\ size <= dev).
Proof using HL HD Hdev.
  intros Hk Hs Hd. unfold read_extents.
  destruct (MakeBytes_cases (i64 size) dev) as [[E Hm]|E]; rewrite E; [|done].
  destruct (Z_lt_le_dec size (2 ^ 63)) as [|Hge]; [|pose proof (i64_big size); lia].
  rewrite i64_small in * by lia. cbn [mbind outcome_bind].
  eapply safe_with_bind; [apply read_items_safe; [done|cbn [fst]; apply blen_zeros; lia|lia]|].
  intros r Hr. split; [done|lia].
Qed.

Lemma fill_item_safe size off m dst :
  key_ok m.1 -> size <= 2 ^ 62 -> 0 <= off -> off + blen dst <= size ->
  safe_with (fill_item ReadAt dev partOff sb size off m dst)
    (fun r => match r with Some dst' => blen dst' = blen dst | None => True end).
Proof using HL HD Hdev.
  intros Hk Hs Ho Hw. destruct m as [k d]. cbn [fst] in Hk. rewrite fill_item_eq by done. cbn zeta.
  pose proof Hk as (_&_&Hk'). pose proof (rd64_u64 d extDataOffNumBytes) as Hnb. unfold is_u64 in Hnb.
  pose proof (blen_nonneg dst). case_if; [done|]. case_if; [done|]. case_if; [done|]. case_if.
  - eapply safe_with_bind; [apply inline_src_safe; lia|]. intros src Hl. apply blen_place; lia.
  - case_if; [|done]. case_if; [done|]. case_if; [done|]. case_if; [done|]. case_if.
    + match goal with |- context [physAddr sb partOff ?a] => destruct (physAddr_cases sb partOff a) as [->| ->] end; [|done].
      cbn [mbind outcome_bind]. eapply safe_with_bind; [apply Hdev; lia|]. intros b Hb. cbn beta in Hb.
      unfold safe_with. rewrite blen_splice; lia.
    + eapply safe_with_bind; [apply packed_src_safe; lia|]. intros src Hl. apply blen_place; lia.
Qed.

Lemma fill_safe size off items dst :
  Forall (fun m : rec => key_ok m.1) items -> size <= 2 ^ 62 -> 0 <= off -> off + blen dst <= size ->
  safe_with (fill ReadAt dev partOff sb size off items dst) (fun dst' => blen dst' = blen dst).
Proof using HL HD Hdev.
  intros Hk. revert dst. induction Hk as [|m items Hm _ IH]; intros dst Hs Ho Hw; [done|].
  cbn [fill]. eapply safe_with_bind; [by apply fill_item_safe|]. intros [dst'|] Hd; [|done].
  rewrite <- Hd. apply IH; lia.
Qed.

Lemma check_items_safe items prevEnd : safe_with (check_items items prevEnd) (fun _ => True).
Proof using.
  revert prevEnd. induction items as [|m items IH]; intros prevEnd; cbn [check_items]; [done|].
  case_if; [apply IH|]. rewrite (get_le_Ok 1) by (ext_offs; lia). cbn [mbind outcome_bind].
  case_if; [apply IH|]. rewrite (get_le_Ok 8) by (ext_offs; lia). cbn [mbind outcome_bind].
  case_if; [done|apply IH].
Qed.
End Untrusted.

Section Api.
Context `{HL : SafeIOLaws} `{HD : DecodersLaws} {S : Type} (inv : S -> Prop) (rdn : Z -> SM S bytes).
Context (Hrd : node_source inv rdn) (fsTreeRoot : Z).

Lemma entry_in_safe name d : safe_with (entry_in name d) (fun _ => True).
Proof using. unfold entry_in. pose proof (parseDirItems_safe d name) as Hp. by destruct (parseDirItems d name). Qed.

Lemma first_entry_safe name items : safe_with (first_entry name items) (fun _ => True).
Proof using.
  induction items as [|m items IH]; cbn [first_entry]; [done|].
  eapply safe_with_bind; [apply entry_in_safe|]. intros [r|] _; [done|apply IH].
Qed.

Lemma list_entries_safe items : safe_with (list_entries items) (fun _ => True).
Proof using.
  induction items as [|m items IH]; cbn [list_entries]; [done|].
  pose proof (parseDirItemsAll_safe m.2) as Hp. destruct (parseDirItemsAll m.2); cbn [mbind outcome_bind]; try done.
  eapply safe_with_bind; [apply IH|]. done.
Qed.

Lemma lookupDirEntry_safe dirIno name : sm_safe inv (lookupDirEntry rdn fsTreeRoot dirIno name) (fun _ => True).
Proof using HL Hrd.
  unfold lookupDirEntry. eapply sm_safe_bind; [by apply sm_safe_try, searchTree_safe|]. intros hit Hh.
  eapply (sm_safe_bind _ _ _ (fun _ => True)).
  { apply sm_safe_lift. destruct hit as [[buf it]| | |]; cbn in Hh; try done. apply entry_in_safe. }
  intros [r|] _; [by apply sm_safe_ret|].
  eapply sm_safe_bind; [by apply sm_safe_try, collectPrefixItems_safe|]. intros items Hi.
  eapply (sm_safe_bind _ _ _ (fun _ => True)).
  { apply sm_safe_lift. destruct items as [items| | |]; cbn in Hi; try done. apply first_entry_safe. }
  intros [r|] _; [by apply sm_safe_ret|apply sm_safe_fail].
Qed.

Lemma walk_path_safe parts ino : sm_safe inv (walk_path rdn fsTreeRoot parts ino) (fun _ => True).
Proof using HL Hrd.
  revert ino. induction parts as [|name parts IH]; intros ino; cbn [walk_path]; [by apply sm_safe_ret|].
  eapply sm_safe_bind; [apply lookupDirEntry_safe|]. intros r _. apply IH.
Qed.

Lemma readInode_safe ino :
  sm_safe inv (readInode rdn fsTreeRoot ino) (fun i => in_num i = ino /\ is_u64 (in_size i)).
Proof using HL Hrd.
  unfold readInode. eapply sm_safe_bind; [by apply searchTree_safe|]. intros [buf it] _.
  apply sm_safe_lift, decode_inode_safe.
Qed.

Lemma pathLookup_safe p : sm_safe inv (pathLookup rdn fsTreeRoot p) (fun i => is_u64 (in_size i)).
Proof using HL Hrd.
  unfold pathLookup. case_if; [eapply sm_safe_impl; [apply readInode_safe|by intros ? []]|].
  eapply sm_safe_bind; [apply walk_path_safe|]. intros ino _.
  eapply sm_safe_impl; [apply readInode_safe|by intros ? []].
Qed.

(** C33. The read API is total on untrusted images.  For any bytes in the tree
    nodes and any device that either fails or fills a buffer, path lookup,
    directory listing, whole-file reads, opening a file and positional reads end
    with a result or an error: never a panic, never an endless loop.  A file that
    is read has exactly the size its inode declares, and that size fits the
    device. *)
Theorem file_api_total (ReadAt : Z -> Z -> outcome bytes) (dev partOff : Z) (sb : superblock) :
  (forall p n, 0 <= n -> safe_with (ReadAt p n) (fun b => blen b = n)) -> dev < 2 ^ 63 ->
  (forall p, sm_safe inv (pathLookup rdn fsTreeRoot p) (fun i => is_u64 (in_size i))) /\
  (forall ino, sm_safe inv (readDir rdn fsTreeRoot ino) (fun _ => True)) /\
  (forall i, is_u64 (in_size i) ->
     sm_safe inv (readFileData rdn ReadAt dev partOff sb fsTreeRoot i)
       (fun out => blen out = in_size i /\ (in_size i = 0 \/ in_size i <= dev))) /\
  (forall p, sm_safe inv (openBtrfsFile rdn fsTreeRoot p)
     (fun f => forall len off, 0 <= len < 2 ^ 63 -> off < 2 ^ 63 ->
        safe_with (file_ReadAt ReadAt dev partOff sb f len off)
          (fun r => r.2 = (blen r.1 <? len) \/ bf_size f <= off))).
Proof using HL HD Hrd.
  intros Hdev Hd. split_and!.
  - apply pathLookup_safe.
  - intros ino. unfold readDir. eapply sm_safe_bind; [by apply sm_safe_try, collectPrefixItems_safe|].
    intros items Hi. destruct items as [items| | |]; cbn in Hi; try done.
    apply sm_safe_lift, list_entries_safe.
  - intros i Hi. unfold readFileData. case_if; [apply sm_safe_ret; split; [done|by left]|].
    eapply sm_safe_bind; [by apply collectPrefixItems_safe|]. intros items Hk. apply sm_safe_lift.
    eapply safe_with_impl; [by apply read_extents_safe|]. cbn beta. tauto.
  - intros p. unfold openBtrfsFile. eapply sm_safe_bind; [apply pathLookup_safe|]. intros i Hi. cbn beta in Hi.
    case_if; [apply sm_safe_fail|].
    assert (Hopen : forall items, Forall (fun m : rec => key_ok m.1) items ->
      forall size len off, size <= 2 ^ 62 -> 0 <= len < 2 ^ 63 -> off < 2 ^ 63 ->
      safe_with (file_ReadAt ReadAt dev partOff sb (BtrfsFile (in_num i) size items) len off)
        (fun r => r.2 = (blen r.1 <? len) \/ size <= off)).
    { intros items Hk size len off Hs Hl Ho. unfold file_ReadAt. cbn [bf_size bf_items].
      case_if; [done|]. case_if; [by right|]. rewrite u64_small by (unfold is_u64; lia).
      set (want := if _ <? _ then _ else _).
      assert (Hw : 0 <= want /\ off + want <= size) by (unfold want; case_if; lia).
      eapply safe_with_bind; [apply fill_safe; rewrite ?blen_zeros; try done; lia|].
      intros dst Hlen. cbn beta in Hlen. rewrite blen_zeros in Hlen by lia. left. cbn [fst snd]. by rewrite Hlen. }
    assert (Hs : (if 2 ^ 62 <? in_size i then 2 ^ 62 else in_size i) <= 2 ^ 62) by (case_if; lia).
    case_if; [apply sm_safe_ret; intros len off; apply Hopen; [by apply Forall_nil|exact Hs]|].
    eapply sm_safe_bind; [by apply collectPrefixItems_safe|]. intros items Hk.
    eapply sm_safe_bind; [apply sm_safe_lift, check_items_safe|]. intros _ _.
    apply sm_safe_ret. intros len off. apply Hopen; [done|exact Hs].
Qed.
End Api.

(** ** Positional reads agree with whole-file reads *)

(** A regular extent whose data lies on the device as it is. *)
Definition plain_extent (d : bytes) : bool :=
  (extDataRegularSize <=? blen d) && (rd 1 d extDataOffType =? extentDataRegular)
  && (rd 1 d extDataOffCompression =? compressionNone) && negb (rd 8 d extDataOffDiskBytenr =? 0).

(** The chunk map knows every address of [[a, a + n)]. *)
Definition mapped (sb : superblock) (a n : Z) : Prop :=
  0 <= a /\ a + n <= 2 ^ 62 /\ forall x, 0 <= x < n -> is_Ok (lookupChunk sb (a + x)).

Lemma physAddr_mapped sb partOff a n x :
  0 <= partOff <= 2 ^ 62 -> mapped sb a n -> 0 <= x < n ->
  physAddr sb partOff (a +₆₄ x) = Ok (partOff + a + x).
Proof.
  intros Hp (Ha&Hn&Hm) Hx. rewrite u64_small by (unfold is_u64; lia). unfold physAddr.
  destruct (Hm x Hx) as [c ->]. cbn [mbind outcome_bind]. rewrite (i64_small (a + x)), i64_small by lia. f_equal. lia.
Qed.

Lemma physAddr_shift sb partOff a n x p :
  is_u64 a -> 0 <= partOff <= 2 ^ 62 -> mapped sb a n -> physAddr sb partOff a = Ok p -> 0 <= x < Z.max 1 n ->
  physAddr sb partOff (a +₆₄ x) = Ok (p + x).
Proof.
  intros Ha Hp Hm Ep Hx. destruct (decide (x = 0)) as [->|Hx0].
  - by rewrite !Z.add_0_r, u64_small.
  - rewrite (physAddr_mapped _ _ _ n) by (done || lia).
    pose proof (physAddr_mapped sb partOff a n 0 Hp Hm ltac:(lia)) as E0.
    rewrite Z.add_0_r, u64_small in E0 by done. rewrite E0 in Ep. injection Ep as <-. f_equal. lia.
Qed.

Section Window.
Context `{HL : SafeIOLaws} `{HD : DecodersLaws}.
Context (ReadAt : Z -> Z -> outcome bytes) (dev partOff : Z) (sb : superblock).
Context (Hdev : forall p n, 0 <= n -> safe_with (ReadAt p n) (fun b => blen b = n)).
(** The device is not written between the two reads: a part of a range that can
    be read reads as that part. *)
Context (Hsub : forall p n b x m, ReadAt p n = Ok b -> 0 <= x -> 0 <= m -> x + m <= n ->
  ReadAt (p + x) m = Ok (sub b x m)).
Context (Hpart : 0 <= partOff <= 2 ^ 62).

(** A successful step leaves the output alone or writes one run into the file. *)
Lemma read_item_writes size k d out prevEnd r :
  key_ok k -> blen out = size -> 0 <= size < 2 ^ 63 ->
  read_item ReadAt dev partOff sb size (k, d) (out, prevEnd) = Ok r ->
  blen r.1 = size /\
  (r.1 = out \/ exists src, r.1 = splice out (offset k) src /\ offset k + blen src <= size).
Proof using HL HD Hdev.
  intros Hk Lo Hs E. pose proof Hk as (_&_&Hk').
  pose proof (read_item_safe ReadAt dev partOff sb Hdev size (k, d) out prevEnd Hk Lo Hs) as Hsafe.
  rewrite E in Hsafe. split; [exact Hsafe|]. rewrite read_item_eq in E by done. cbn zeta in E.
  pose proof (rd64_u64 d extDataOffNumBytes) as Hnb. unfold is_u64 in Hnb.
  case_if_in E; [injection E as <-; by left|]. case_if_in E; [injection E as <-; by left|]. case_if_in E.
  - apply outcome_bind_Ok in E as (src&Es&[= <-]). right. exists src. split; [done|].
    pose proof (inline_src_safe d (size - offset k) ltac:(lia)) as Hi. rewrite Es in Hi. cbn in Hi. lia.
  - case_if_in E; [|injection E as <-; by left]. case_if_in E; [injection E as <-; by left|].
    case_if_in E; [done|]. case_if_in E; [injection E as <-; by left|].
    apply outcome_bind_Ok in E as (src&Es&[= <-]). right. exists src. split; [done|].
    assert (blen src = Z.min (rd 8 d extDataOffNumBytes) (size - offset k)); [|lia]. case_if_in Es.
    + apply outcome_bind_Ok in Es as (p&_&Es).
      pose proof (Hdev p (Z.min (rd 8 d extDataOffNumBytes) (size - offset k)) ltac:(lia)) as Hr. by rewrite Es in Hr.
    + pose proof (packed_src_safe ReadAt dev partOff sb Hdev d
        (Z.min (rd 8 d extDataOffNumBytes) (size - offset k)) ltac:(lia)) as Hr. by rewrite Es in Hr.
Qed.

(** An item behind the window does not change it. *)
Lemma read_items_behind size items acc r off w :
  Forall (fun m : rec => key_ok m.1 /\ off + w <= offset m.1) items ->
  blen acc.1 = size -> 0 <= size < 2 ^ 63 -> 0 <= off -> 0 <= w -> off + w <= size ->
  read_items ReadAt dev partOff sb size items acc = Ok r -> sub r.1 off w = sub acc.1 off w.
Proof using HL HD Hdev.
  intros Hi. revert acc. induction Hi as [|[k d] items [Hk Hb] _ IH]; intros [out pe] Lo Hs Ho Hw Hl E; cbn in E.
  - by injection E as <-.
  - apply outcome_bind_Ok in E as (acc'&E1&E2). cbn [fst] in *.
    destruct (read_item_writes _ _ _ _ _ _ Hk Lo Hs E1) as [L' Hw'].
    rewrite (IH acc' L' Hs Ho Hw Hl E2). destruct Hw' as [->|(src&->&Hsrc)]; [done|].
    pose proof (blen_nonneg src). apply sub_splice_out; lia.
Qed.

(** The step of the positional read is the step of the whole-file read, seen
    through the window. *)
Lemma fill_item_window size k d out prevEnd r off w :
  key_ok k -> blen out = size -> 0 <= size <= 2 ^ 62 -> 0 <= off -> 0 <= w -> off + w <= size ->
  offset k < off + w ->
  (plain_extent d = true -> mapped sb (data_addr d) (rd 8 d extDataOffNumBytes)) ->
  read_item ReadAt dev partOff sb size (k, d) (out, prevEnd) = Ok r ->
  fill_item ReadAt dev partOff sb size off (k, d) (sub out off w) = Ok (Some (sub r.1 off w)).
Proof using HL HD Hdev Hsub Hpart.
  intros Hk Lo Hs Ho Hw Hl Hin Hmap E. pose proof Hk as (_&_&Hk').
  pose proof (rd64_u64 d extDataOffNumBytes) as Hnb. unfold is_u64 in Hnb.
  rewrite fill_item_eq by (try rewrite blen_sub; done || lia). rewrite read_item_eq in E by (done || lia).
  cbn zeta in *. rewrite blen_sub by lia. rewrite (proj2 (Z.leb_gt (off + w) _)) by lia.
  set (n := Z.min (rd 8 d extDataOffNumBytes) (size - offset k)) in *.
  assert (Hn : 0 <= n <= size - offset k \/ size <= offset k) by (unfold n; lia).
  revert E. case_if; [by intros [= <-]|]. case_if; [by intros [= <-]|]. case_if.
  - intros E. apply outcome_bind_Ok in E as (src&Es&[= <-]). rewrite Es. cbn [mbind outcome_bind].
    pose proof (inline_src_safe d (size - offset k) ltac:(lia)) as Hi. rewrite Es in Hi. cbn in Hi.
    cbn [fst]. do 2 f_equal. apply place_window; lia.
  - case_if; [|by intros [= <-]]. case_if; [by intros [= <-]|]. case_if; [done|].
    destruct (rd 8 d extDataOffDiskBytenr =? 0) eqn:Ez; [intros [= <-]; by case_if|].
    assert (Hbefore : forall src, blen src = n -> offset k + n <= off ->
      sub out off w = sub (splice out (offset k) src) off w).
    { intros src Hl1 Hl2. symmetry. apply sub_splice_out; lia. }
    intros E. apply outcome_bind_Ok in E as (src&Es&[= <-]). cbn [fst]. revert Es. case_if.
    + intros Es. apply outcome_bind_Ok in Es as (p&Ep&Es).
      pose proof (Hdev p n ltac:(lia)) as Hr. rewrite Es in Hr. cbn in Hr.
      case_if; [do 2 f_equal; by apply Hbefore|].
      set (lo := Z.max (offset k) off). set (top := Z.min (offset k + n) (off + w)).
      assert (Ep' : physAddr sb partOff (data_addr d +₆₄ (lo - offset k)) = Ok (p + (lo - offset k))).
      { apply physAddr_shift with (n := rd 8 d extDataOffNumBytes); [apply u64_range|done| |done|lia].
        apply Hmap. unfold plain_extent. rewrite (proj2 (Z.eqb_neq _ _) Ez), !(proj2 (Z.eqb_eq _ _)) by done.
        by rewrite (proj2 (Z.leb_le _ _)) by lia. }
      rewrite Ep'. cbn [mbind outcome_bind]. rewrite (Hsub _ _ _ _ _ Es) by lia. cbn [mbind outcome_bind].
      rewrite <- place_window by lia. unfold place. rewrite blen_sub by lia. rewrite Hr. done.
    + intros Es. pose proof (packed_src_safe ReadAt dev partOff sb Hdev d n ltac:(lia)) as Hr.
      rewrite Es in Hr. cbn in Hr. case_if; [do 2 f_equal; by apply Hbefore|].
      rewrite Es. cbn [mbind outcome_bind]. do 2 f_equal. apply place_window; lia.
Qed.

(** What the two reads need of the items: keys in file order, as the tree keeps
    them, and the data of uncompressed extents in mapped chunks. *)
Definition extents_wf (items : list rec) : Prop :=
  StronglySorted (fun m m' : rec => offset m.1 < offset m'.1) items /\
  Forall (fun m : rec => key_ok m.1 /\
    (plain_extent m.2 = true -> mapped sb (data_addr m.2) (rd 8 m.2 extDataOffNumBytes))) items.

Lemma fill_window size items acc r off w :
  extents_wf items -> blen acc.1 = size -> 0 <= size <= 2 ^ 62 -> 0 <= off -> 0 < w -> off + w <= size ->
  read_items ReadAt dev partOff sb size items acc = Ok r ->
  fill ReadAt dev partOff sb size off items (sub acc.1 off w) = Ok (sub r.1 off w).
Proof using HL HD Hdev Hsub Hpart.
  intros [Hsort Hwf]. revert acc. induction items as [|[k d] items IH]; intros [out pe] Lo Hs Ho Hw Hl E; cbn in E.
  { by injection E as <-. }
  apply StronglySorted_inv in Hsort as [Hsort Hhd]. apply Forall_cons in Hwf as [[Hk Hm] Hwf]. cbn [fst snd] in *.
  cbn [fill]. destruct (Z_lt_le_dec (offset k) (off + w)) as [Hin|Hout].
  - apply outcome_bind_Ok in E as ([out' pe']&E1&E2).
    destruct (read_item_writes _ _ _ _ _ _ Hk Lo ltac:(lia) E1) as [L' _].
    rewrite (fill_item_window size k d out pe (out', pe') off w) by (done || lia). cbn [mbind outcome_bind].
    by apply (IH Hsort Hwf (out', pe')).
  - rewrite fill_item_eq by (try rewrite blen_sub; done || lia). cbn zeta.
    rewrite blen_sub, (proj2 (Z.leb_le _ _)) by lia. cbn [mbind outcome_bind]. f_equal. symmetry.
    apply (read_items_behind size ((k, d) :: items) (out, pe) r); try done; try lia.
    constructor; [done|]. rewrite !Forall_forall in *. intros m Hin. split; [by apply Hwf|].
    specialize (Hhd m Hin). cbn in Hhd. lia.
Qed.

(** C28. Positional reads and whole-file reads agree.  When [readFileData] returns
    the content [out] of a file, [ReadAt] of the opened file returns, at every
    offset and for every buffer length, exactly the window of [out] at that
    offset, cut at the end of the file, and reports end-of-file exactly when the
    window is shorter than the buffer.  It decompresses and reads only the
    extents that meet the window. *)
Theorem positional_read_is_window num size items out len off :
  extents_wf items -> 0 <= size <= 2 ^ 62 -> 0 <= off < size -> 0 < len < 2 ^ 63 ->
  read_extents ReadAt dev partOff sb size items = Ok out ->
  file_ReadAt ReadAt dev partOff sb (BtrfsFile num size items) len off =
    Ok (sub out off (Z.min len (size - off)), size <? off + len).
Proof using HL HD Hdev Hsub Hpart.
  intros Hwf Hs Ho Hl E. unfold read_extents in E. rewrite i64_small in E by lia.
  destruct (MakeBytes_cases size dev) as [[Em _]|Em]; rewrite Em in E; [|done]. cbn [mbind outcome_bind] in E.
  apply outcome_bind_Ok in E as (r&Er&[= <-]). unfold file_ReadAt. cbn [bf_size bf_items].
  rewrite (proj2 (Z.ltb_ge off 0)), (proj2 (Z.leb_gt size off)) by lia.
  rewrite u64_small by (unfold is_u64; lia).
  set (want := if size <? off + len then _ else _).
  replace (Z.min len (size - off)) with want by (unfold want; case_if; lia).
  assert (Hw : 0 < want <= size - off) by (unfold want; case_if; lia).
  assert (Ez : zeros want = sub (zeros size) off want).
  { apply bytes_ext; rewrite ?blen_sub, ?blen_zeros; rewrite ?blen_zeros; try lia.
    intros p Hp. rewrite bnth_sub, !bnth_zeros by (rewrite ?blen_zeros; lia). done. }
  assert (Ef : fill ReadAt dev partOff sb size off items (zeros want) = Ok (sub r.1 off want)).
  { rewrite Ez. apply (fill_window size items (zeros size, 0)); try done; try lia.
    cbn [fst]. apply blen_zeros. lia. }
  rewrite Ef. cbn [mbind outcome_bind]. do 2 f_equal. unfold want. case_if; apply Bool.eq_iff_eq_true;
    rewrite ?Z.ltb_lt; lia.
Qed.
End Window.

(** ** Examples *)
#[local] Existing Instance storedDecoders.
#[local] Existing Instance storedDecoders_laws.

(** A device whose byte at address [p] is [p mod 256]. *)
Definition ex_dev (p n : Z) : outcome bytes := Ok (map byte_of_Z (seqZ p n)).

Lemma ex_dev_fills p n : 0 <= n -> safe_with (ex_dev p n) (fun b => blen b = n).
Proof. intros. unfold ex_dev, safe_with, blen. rewrite length_map, length_seqZ. lia. Qed.

Lemma ex_dev_part p n b x m :
  ex_dev p n = Ok b -> 0 <= x -> 0 <= m -> x + m <= n -> ex_dev (p + x) m = Ok (sub b x m).
Proof.
  unfold ex_dev. intros [= <-] Hx Hm Hn. f_equal. unfold sub.
  rewrite <- fmap_drop, <- fmap_take. f_equal. apply list_eq. intros i.
  destruct (decide (i < Z.to_nat m)%nat).
  - rewrite lookup_take_lt, lookup_drop by done. rewrite !lookup_seqZ_lt by lia. f_equal. lia.
  - rewrite lookup_take_ge, lookup_seqZ_ge by lia. done.
Qed.

Definition ex_regular (compression ram diskBytenr diskNum off num : Z) : bytes :=
  le_enc 8 7 ++ le_enc 8 ram ++ le_enc 1 compression ++ le_enc 3 0 ++ le_enc 1 extentDataRegular ++
  le_enc 8 diskBytenr ++ le_enc 8 diskNum ++ le_enc 8 off ++ le_enc 8 num.

(** A raw extent, a hole and a compressed extent. *)
Definition ex_extents : list rec :=
  [(Key 257 typeExtentData 0, ex_regular compressionNone 8 0x1000010 8 0 8);
   (Key 257 typeExtentData 8, ex_regular compressionNone 4 0 0 0 4);
   (Key 257 typeExtentData 12, ex_regular compressionZlib 8 0x1000100 8 2 6)].

Lemma ex_mapped : mapped ex_sb 0x1000010 8.
Proof.
  split_and!; [lia|lia|]. intros x Hx. exists ex_chunk2. unfold lookupChunk.
  rewrite (find_chunk ex_sb ex_chunk_map_wf ex_chunk2); [done| |cbn; lia].
  apply elem_of_cons. right. apply elem_of_cons. by left.
Defined.

Lemma ex_extents_wf : extents_wf ex_sb ex_extents.
Proof.
  split; unfold ex_extents.
  - repeat constructor.
  - repeat (apply Forall_cons_2; [split; [unfold key_ok; cbn; unfold typeExtentData; lia|]|]); [| | |by apply Forall_nil].
    + intros _. exact ex_mapped.
    + intros E. vm_compute in E. discriminate E.
    + intros E. vm_compute in E. discriminate E.
Defined.

Definition ex_content : bytes :=
  map byte_of_Z (seqZ 0x10 8) ++ zeros 4 ++ map byte_of_Z (seqZ 2 6).

Lemma positional_read_is_window_witness :
  file_ReadAt ex_dev (2 ^ 30) 0 ex_sb (BtrfsFile 257 18 ex_extents) 100 5 =
    Ok (sub ex_content 5 13, true).
Proof.
  apply (positional_read_is_window ex_dev (2 ^ 30) 0 ex_sb ex_dev_fills ex_dev_part ltac:(lia)
    257 18 ex_extents ex_content 100 5 ex_extents_wf); try lia. vm_compute. reflexivity.
Defined.

(** A reader over a tree that is one leaf of zeros. *)
Definition ex_zero_nodes : Z -> SM unit bytes := fun _ s => (s, Ok (zeros 200)).

Lemma file_api_total_witness :
  (forall p, sm_safe (fun _ => True) (pathLookup (H := listSafeIO) ex_zero_nodes 0x4000 p) (fun i => is_u64 (in_size i))) /\
  (forall ino, sm_safe (fun _ => True) (readDir (H := listSafeIO) ex_zero_nodes 0x4000 ino) (fun _ => True)) /\
  (forall i, is_u64 (in_size i) ->
     sm_safe (fun _ => True) (readFileData (H := listSafeIO) ex_zero_nodes ex_dev (2 ^ 30) 0 ex_sb 0x4000 i)
       (fun out => blen out = in_size i /\ (in_size i = 0 \/ in_size i <= 2 ^ 30))) /\
  (forall p, sm_safe (fun _ => True) (openBtrfsFile (H := listSafeIO) ex_zero_nodes 0x4000 p)
     (fun f => forall len off, 0 <= len < 2 ^ 63 -> off < 2 ^ 63 ->
        safe_with (file_ReadAt (H := listSafeIO) ex_dev (2 ^ 30) 0 ex_sb f len off)
          (fun r => r.2 = (blen r.1 <? len) \/ bf_size f <= off))).
Proof.
  apply (file_api_total (H := listSafeIO) (fun _ => True) ex_zero_nodes).
  - intros a s _. split; [done|]. vm_compute. discriminate.
  - exact ex_dev_fills.
  - lia.
Defined.
