(* ===== verification/Mount.v ===== *)
(** * Mounting (fs.go, chunk.go, alloc.go, partition.go)

    Opening a set of devices: the partition, the superblock, the device pool,
    the chunk map loaded from the chunk tree, the FS tree's root and the space
    manager bootstrapped from the trees on disk.

    While the chunk tree is loaded the superblock grows: the node reader and the
    pool both translate through it, so the walk's state is the superblock.  The
    space manager is built with the superblock fixed, so there the state of the
    walks is the free list.  The partition table parser is a library: an
    interface of two operations. *)
From Stdlib Require Import ZArith Lia Strings.Byte.
From stdpp Require Import base option list numbers sorting gmap.
From S2P Require Import Prelude Bytes Alloc Layout SafeIO Chunk MultiDev Node BTree Walk Codec Read.
Local Open Scope Z_scope.
Local Open Scope btrfs_scope.

(** ** Partitions *)
Inductive scheme := SchemeGPT | SchemeMBR.
#[global] Instance scheme_eq_dec : EqDecision scheme.
Proof. solve_decision. Defined.

Record partition := Partition {
  p_Scheme : scheme; p_TypeGUID : bytes; p_MBRType : Z; p_StartOffset : Z }.

(** The result of the parser: [gpt.ErrNoTable] is told apart from other errors. *)
Inductive gpt_result (A : Type) := GptOk (a : A) | GptNoTable | GptErr.
Arguments GptOk {A} a.
Arguments GptNoTable {A}.
Arguments GptErr {A}.

Class Gpt := {
  gpt_ByIndex : blockBackend -> Z -> Z -> gpt_result partition;
  gpt_List : blockBackend -> Z -> gpt_result (list partition);
  LinuxFilesystemGUID : bytes;
}.

(** A device: its reads and, when it has one, the answer of [Size]. *)
Record device := Device { dev_read : blockBackend; dev_size : option Z }.

Definition partitionOffset `{Gpt} (r : device) (partIndex : Z) : outcome Z :=
  let dev := deviceSize (dev_size r) in
  if 0 <=? partIndex then
    match gpt_ByIndex (dev_read r) dev partIndex with
    | GptOk p => Ok (p_StartOffset p)
    | GptNoTable => if partIndex =? 0 then Ok 0 else Err ErrOther
    | GptErr => Err ErrOther
    end
  else
    match gpt_List (dev_read r) dev with
    | GptNoTable => Ok 0
    | GptErr => Err ErrOther
    | GptOk parts =>
        match List.find (fun p => bool_decide (p_Scheme p = SchemeGPT)
                                  && bool_decide (p_TypeGUID p = LinuxFilesystemGUID)) parts with
        | Some p => Ok (p_StartOffset p)
        | None =>
            match List.find (fun p => bool_decide (p_Scheme p = SchemeMBR) && (p_MBRType p =? 0x83)) parts with
            | Some p => Ok (p_StartOffset p)
            | None => Err ErrOther
            end
        end
    end.

(** ** The chunk tree *)

(** [for _, x := range l { f(x) }] *)
Fixpoint each {S A} (f : A -> SM S unit) (l : list A) : SM S unit :=
  match l with
  | [] => mret tt
  | x :: l => _ ← f x; each f l
  end.

(** The pool holds a pointer to the superblock that is being extended. *)
Definition with_sb (p : devicePool) (sb : superblock) : devicePool :=
  DevicePool (dp_partOff p) (dp_devices p) (Some sb) (dp_primary p).

Definition pool_node `{SafeIO} (p : devicePool) (partOff a : Z) : SM superblock bytes := fun sb =>
  (sb, readNodeUncached (pool_ReadAt (with_sb p sb)) partOff sb a).

(** One item of [loadChunkTree]. *)
Definition load_chunk (k : key) (d : bytes) : SM superblock unit :=
  if negb (typ k =? 0xE4) then mret tt else
  if blen d <? chunkHeaderSize + chunkStripeSize then mret tt else
  numStripes ← sm_lift (Uint16 d chunkNumStripes);
  if numStripes =? 0 then mret tt else
  sb ← sm_gets id;
  m ← sm_lift (decode_chunk (offset k) (sb_devID sb) d);
  if hasChunkMapping sb m then mret tt
  else sm_modify (fun sb => set_sysChunks sb (sb_sysChunks sb ++ [m])).

Definition loadChunkTree `{SafeIO} (p : devicePool) (partOff : Z) : SM superblock unit :=
  sb ← sm_gets id;
  walkLeaves (pool_node p partOff) (sb_chunkLogAddr sb)
    (fun buf items => each (fun it => load_chunk (it_k it) (item_data it buf)) items).

(** ** The space manager *)

(** [_ = f()]: an error is dropped. *)
Definition sm_ignore {S} (m : SM S unit) : SM S unit :=
  r ← sm_try m;
  match r with
  | Ok _ | Err _ => mret tt
  | Panic => sm_lift Panic
  | NoFuel => sm_lift NoFuel
  end.

Section Space.
Context `{SafeIO} (rn : Z -> outcome bytes) (sb : superblock).

(** The trees are read through a reader that leaves the free list alone. *)
Definition node_of (a : Z) : SM spaceManager bytes := sm_lift (rn a).

Definition reserve (logAddr size : Z) : SM spaceManager unit :=
  match logToPhys sb logAddr with
  | Ok phys => sm_modify (fun sm => remove sm (u64 phys) size)
  | Err _ => mret tt
  | Panic => sm_lift Panic
  | NoFuel => sm_lift NoFuel
  end.

Definition reserveTreeNodes (rootLogAddr : Z) : SM spaceManager unit :=
  walkNodeAddrs node_of rootLogAddr (fun logAddr => reserve logAddr (sb_nodeSize sb)).

Definition reserve_root (r : rec) : SM spaceManager unit :=
  if negb (typ r.1 =? typeRootItem) then mret tt else
  if blen r.2 <? rootItemOffBytenr + 8 then mret tt else
  bytenr ← sm_lift (Uint64 r.2 rootItemOffBytenr);
  if bytenr =? 0 then mret tt else sm_ignore (reserveTreeNodes bytenr).

Definition reserveRootTreeReferencedTrees : SM spaceManager unit :=
  walkLeaves node_of (sb_rootLogAddr sb)
    (fun buf items => each (fun it => reserve_root (it_k it, item_data it buf)) items).

Definition reserve_extent (r : rec) : SM spaceManager unit :=
  let d := r.2 in
  if negb (typ r.1 =? typeExtentData) then mret tt else
  if blen d <=? extDataOffType then mret tt else
  extType ← sm_lift (Uint8 d extDataOffType);
  if negb (extType =? extentDataRegular) then mret tt else
  if blen d <? extDataRegularSize then mret tt else
  diskBytenr ← sm_lift (Uint64 d extDataOffDiskBytenr);
  diskNumBytes ← sm_lift (Uint64 d extDataOffDiskNumBytes);
  if diskBytenr =? 0 then mret tt else reserve diskBytenr diskNumBytes.

Definition reserveDataExtents (fsTreeRoot : Z) : SM spaceManager unit :=
  walkLeaves node_of fsTreeRoot
    (fun buf items => each (fun it => reserve_extent (it_k it, item_data it buf)) items).

(** A chunk that holds only system data: its space is never handed out. *)
Definition system_only (m : chunkMapping) : bool :=
  negb (Z.land (cm_profile m) blockGroupSystem =? 0)
  && (Z.land (cm_profile m) (Z.lor blockGroupData blockGroupMeta) =? 0).

Definition seed_chunks (l : list chunkMapping) : list freeExtent :=
  flat_map (fun m => if system_only m then [] else [FreeExtent (cm_physStart m) (cm_size m)]) l.

(** Steps 1 and 2: the chunks, without the fixed regions. *)
Definition seed : spaceManager :=
  let sm := SpaceManager (seed_chunks (sb_sysChunks sb)) (sb_nodeSize sb) in
  let sm := remove sm 0 (sb_nodeSize sb) in
  remove (remove sm 0x10000 (sb_nodeSize sb)) 0x4000000 (sb_nodeSize sb).

(** Steps 3 and 4: the trees and the data extents. *)
Definition reserve_all (fsTreeRoot : Z) : SM spaceManager unit :=
  _ ← sm_ignore (reserveTreeNodes (sb_rootLogAddr sb));
  _ ← sm_ignore (reserveTreeNodes (sb_chunkLogAddr sb));
  _ ← sm_ignore (reserveTreeNodes fsTreeRoot);
  _ ← sm_ignore reserveRootTreeReferencedTrees;
  reserveDataExtents fsTreeRoot.

Definition buildSpaceManager (fsTreeRoot : Z) : outcome spaceManager :=
  let '(sm, r) := reserve_all fsTreeRoot seed in
  _ ← r; Ok sm.
End Space.

(** ** Opening *)
Record btrfsFS := BtrfsFS {
  fs_pool : devicePool; fs_partOffset : Z; fs_sb : superblock; fs_fsTreeRoot : Z;
  fs_sm : spaceManager; fs_cache : option cachedReader }.

(** The loop that adds the secondary devices to the pool. *)
Fixpoint add_devices `{SafeIO} (off : Z) (sb : superblock) (devs : list device) (pool : devicePool)
  : outcome devicePool :=
  match devs with
  | [] => Ok pool
  | secondary :: devs =>
      ssb ← readSuperblock (dev_read secondary) off;
      if sb_devID ssb =? 0 then Err ErrOther else
      if sb_devID ssb =? sb_devID sb then Err ErrOther else
      add_devices off sb devs (addDevice pool (sb_devID ssb) (dev_read secondary))
  end.

Definition OpenFromDevices `{SafeIO} `{Gpt} (devs : list device) (partIndex : Z) : outcome btrfsFS :=
  match devs with
  | [] => Err ErrOther
  | primary :: rest =>
      off ← partitionOffset primary partIndex;
      sb ← readSuperblock (dev_read primary) off;
      pool ← add_devices off sb rest (newDevicePool (dev_read primary) off sb);
      let '(sb, r) := loadChunkTree pool off sb in
      _ ← r;
      let pool := with_sb pool sb in
      let rn := readNodeUncached (pool_ReadAt pool) off sb in
      fsRoot ← sm_run (resolveRootTree (pure_reader rn) sb);
      sm ← buildSpaceManager rn sb fsRoot;
      Ok (BtrfsFS pool off sb fsRoot sm None)
  end.

(** ** Mounting untrusted devices is total *)
Section Total.
Context `{HL : SafeIOLaws}.

Lemma readSuperblock_safe dev off : backend_safe dev -> safe_with (readSuperblock dev off) sb_ok.
Proof using HL.
  intros Hd. unfold readSuperblock. eapply safe_with_bind; [apply Hd; unfold sbfSize; lia|].
  intros buf Hl. eapply safe_with_impl; [by apply parse_superblock_safe|]. by intros sb [].
Qed.

Lemma readNode_fills ReadAt partOff sb a :
  sb_ok sb -> (forall off n, 0 <= n -> fills n (ReadAt off n)) ->
  safe_with (readNodeUncached ReadAt partOff sb a) (fun buf => nodeHdrSize <= blen buf).
Proof using HL.
  intros (Hns&_) Hr. unfold readNodeUncached.
  destruct (physAddr_cases sb partOff a) as [->| ->]; cbn [mbind outcome_bind]; [|done].
  destruct (MakeBytes_cases (sb_nodeSize sb) maxNodeSize) as [[-> _]| ->]; cbn [mbind outcome_bind]; [|done].
  unfold nodeHdrSize in Hns. rewrite blen_zeros by lia.
  eapply safe_with_impl; [apply Hr; lia|]. cbn beta. intros b ->. unfold nodeHdrSize. lia.
Qed.

Lemma pool_reads_fill p off n : pool_safe p -> 0 <= n -> fills n (pool_ReadAt p off n).
Proof using. intros Hp Hn. apply pool_ReadAt_loop_safe; [done|lia]. Qed.

Lemma each_safe {S A} (inv : S -> Prop) (f : A -> SM S unit) l :
  Forall (fun x => sm_safe inv (f x) (fun _ => True)) l -> sm_safe inv (each f l) (fun _ => True).
Proof using.
  induction 1 as [|x l Hx _ IH]; cbn [each]; [by apply sm_safe_ret|].
  eapply sm_safe_bind; [exact Hx|]. intros _ _. exact IH.
Qed.

Lemma ignore_safe {S} (inv : S -> Prop) (m : SM S unit) :
  sm_safe inv m (fun _ => True) -> sm_safe inv (sm_ignore m) (fun _ => True).
Proof using.
  intros Hm. eapply sm_safe_bind; [by apply sm_safe_try|]. intros [u|e| |] Hr; by try apply sm_safe_ret.
Qed.

Lemma sb_ok_app sb m : sb_ok sb -> chunk_ok m -> sb_ok (set_sysChunks sb (sb_sysChunks sb ++ [m])).
Proof using.
  unfold sb_ok. cbn [set_sysChunks sb_nodeSize sb_sectorSize sb_totalBytes sb_rootLogAddr
    sb_chunkLogAddr sb_generation sb_devID sb_uuid sb_label sb_sysChunks].
  intros (?&?&?&?&?&?&?&?&?&?&?) Hm. repeat (split; [done|]). apply Forall_app_2; [done|by constructor].
Qed.

(** What the walk keeps: the geometry and the well-formed mappings. *)
Lemma load_chunk_safe k d : key_ok k -> sm_safe sb_ok (load_chunk k d) (fun _ => True).
Proof using.
  intros (_&_&Hk). unfold load_chunk. case_if; [by apply sm_safe_ret|]. case_if; [by apply sm_safe_ret|].
  rewrite get_le_Ok by chk_lia. eapply (sm_safe_bind _ _ _ (fun _ => True)); [by apply sm_safe_lift|].
  intros n _. case_if; [by apply sm_safe_ret|].
  intros sb Hsb. unfold mbind, SM_bind, sm_gets. cbn [id].
  destruct (decode_chunk_Ok (offset k) (sb_devID sb) d) as (m&E&Hm&_); [unfold is_u64; lia|chk_lia|].
  unfold sm_lift. rewrite E. destruct (hasChunkMapping sb m); [done|]. split; [|done].
  unfold sm_modify. cbn [fst]. by apply sb_ok_app.
Qed.

Lemma loadChunkTree_safe p off : pool_safe p -> sm_safe sb_ok (loadChunkTree p off) (fun _ => True).
Proof using HL.
  intros Hp. unfold loadChunkTree. eapply (sm_safe_bind _ _ _ (fun _ => True)); [by intros s Hs|]. intros sb _.
  apply walkLeaves_safe.
  - intros a s Hs. split; [done|]. apply readNode_fills; [done|]. intros o n Hn. by apply pool_reads_fill.
  - intros buf items Hk. apply each_safe. eapply Forall_impl; [exact Hk|]. intros it Hit. by apply load_chunk_safe.
Qed.

Section Space.
Context (rn : Z -> outcome bytes) (sb : superblock) (inv : spaceManager -> Prop).
Context (Hrn : forall a, safe_with (rn a) (fun buf => nodeHdrSize <= blen buf)).

Lemma node_of_source : node_source inv (node_of rn).
Proof using Hrn. intros a s Hs. split; [done|]. apply Hrn. Qed.

(** Any property of the free list that reservations keep is kept throughout. *)
Lemma reserveTreeNodes_safe root :
  (forall a, sm_safe inv (reserve sb a (sb_nodeSize sb)) (fun _ => True)) ->
  sm_safe inv (reserveTreeNodes rn sb root) (fun _ => True).
Proof using HL Hrn. intros Hr. apply walkNodeAddrs_safe; [apply node_of_source|done]. Qed.

Lemma reserveRoots_safe :
  (forall a, sm_safe inv (reserve sb a (sb_nodeSize sb)) (fun _ => True)) ->
  sm_safe inv (reserveRootTreeReferencedTrees rn sb) (fun _ => True).
Proof using HL Hrn.
  intros Hr. apply walkLeaves_safe; [apply node_of_source|]. intros buf items _. apply each_safe.
  apply Forall_forall. intros it _. unfold reserve_root. cbn [fst snd].
  case_if; [by apply sm_safe_ret|]. case_if; [by apply sm_safe_ret|].
  rewrite get_le_Ok by (unfold rootItemOffBytenr in *; lia).
  eapply (sm_safe_bind _ _ _ (fun _ => True)); [by apply sm_safe_lift|]. intros b _.
  case_if; [by apply sm_safe_ret|]. by apply ignore_safe, reserveTreeNodes_safe.
Qed.

Lemma reserve_extent_safe r :
  (forall n, is_u64 n -> sm_safe inv (reserve sb (rd 8 r.2 extDataOffDiskBytenr) n) (fun _ => True)) ->
  sm_safe inv (reserve_extent sb r) (fun _ => True).
Proof using.
  intros Hr. unfold reserve_extent. case_if; [by apply sm_safe_ret|]. case_if; [by apply sm_safe_ret|].
  rewrite (get_le_Ok 1) by (unfold extDataOffType in *; lia).
  eapply (sm_safe_bind _ _ _ (fun _ => True)); [by apply sm_safe_lift|]. intros t _.
  case_if; [by apply sm_safe_ret|]. case_if; [by apply sm_safe_ret|].
  unfold extDataRegularSize, extDataHdrSize in *.
  rewrite (get_le_Ok 8 _ extDataOffDiskBytenr), (get_le_Ok 8 _ extDataOffDiskNumBytes)
    by (unfold extDataOffDiskBytenr, extDataOffDiskNumBytes in *; lia).
  eapply (sm_safe_bind _ _ _ (fun v => v = rd 8 r.2 extDataOffDiskBytenr)); [by apply sm_safe_lift|]. intros b ->.
  eapply (sm_safe_bind _ _ _ (fun v => is_u64 v)); [apply sm_safe_lift, rd64_u64|]. intros n Hn.
  case_if; [by apply sm_safe_ret|]. by apply Hr.
Qed.
End Space.

Lemma logToPhys_cases sb a : (exists phys, logToPhys sb a = Ok phys) \/ logToPhys sb a = Err ErrOther.
Proof using.
  unfold logToPhys, lookupChunk. destruct (List.find _ _) as [m|]; cbn; [|by right].
  case_if; [by right|left; by eexists].
Qed.

Lemma reserve_safe (inv : spaceManager -> Prop) sb a n :
  (forall phys sm, logToPhys sb a = Ok phys -> inv sm -> inv (remove sm (u64 phys) n)) ->
  sm_safe inv (reserve sb a n) (fun _ => True).
Proof using.
  intros Hi. unfold reserve. destruct (logToPhys_cases sb a) as [[phys E]|E]; rewrite E.
  - intros sm Hs. split; [|done]. by apply Hi.
  - by apply sm_safe_ret.
Qed.

Lemma remove_nodeSize sm s n : sm_nodeSize (remove sm s n) = sm_nodeSize sm.
Proof using. unfold remove. by case_if. Qed.

Lemma buildSpaceManager_safe rn sb root :
  (forall a, safe_with (rn a) (fun buf => nodeHdrSize <= blen buf)) ->
  safe_with (buildSpaceManager rn sb root) (fun sm => sm_nodeSize sm = sb_nodeSize sb).
Proof using HL.
  intros Hrn. unfold buildSpaceManager.
  set (inv := fun sm => sm_nodeSize sm = sb_nodeSize sb).
  assert (Hr : forall a n, sm_safe inv (reserve sb a n) (fun _ => True)).
  { intros a n. apply reserve_safe. intros phys sm _ Hs. unfold inv. by rewrite remove_nodeSize. }
  assert (Hall : sm_safe inv (reserve_all rn sb root) (fun _ => True)).
  { unfold reserve_all. repeat (eapply sm_safe_bind;
      [apply ignore_safe; first [by apply reserveTreeNodes_safe|by apply reserveRoots_safe]|intros _ _]).
    apply walkLeaves_safe; [by apply node_of_source|]. intros buf items _. apply each_safe.
    apply Forall_forall. intros it _. apply reserve_extent_safe. intros n _. apply Hr. }
  destruct (Hall (seed sb)) as [Hi Ho]; [unfold inv, seed; by rewrite !remove_nodeSize|].
  destruct (reserve_all rn sb root (seed sb)) as [sm [u|e| |]]; cbn in *; done.
Qed.

Lemma add_devices_safe off sb devs pool :
  Forall (fun d => backend_safe (dev_read d)) devs -> pool_safe pool ->
  safe_with (add_devices off sb devs pool) pool_safe.
Proof using HL.
  intros Hd. revert pool. induction Hd as [|d devs Hd _ IH]; intros pool Hp; [done|]. cbn [add_devices].
  eapply safe_with_bind; [by apply readSuperblock_safe|]. intros ssb Hs. case_if; [done|]. case_if; [done|].
  apply IH. destruct Hp as [Hp1 Hp2]. split; [done|]. by apply map_Forall_insert_2.
Qed.

(** C32. Mounting is total on untrusted devices.  For any devices that fail or
    fill a buffer and whatever bytes they hold, opening ends with an error or
    with a mounted file system; then the superblock's geometry is valid and all
    chunk mappings decoded for it are well formed, the pool routes through that
    superblock, the allocator works at the node size of the image, and every
    later node read returns a buffer that holds a node header. *)
Theorem OpenFromDevices_total `{Gpt} devs partIndex :
  Forall (fun d => backend_safe (dev_read d)) devs ->
  safe_with (OpenFromDevices devs partIndex) (fun fs =>
    sb_ok (fs_sb fs) /\ pool_safe (fs_pool fs) /\ dp_sb (fs_pool fs) = Some (fs_sb fs) /\
    sm_nodeSize (fs_sm fs) = sb_nodeSize (fs_sb fs) /\
    forall a, safe_with (readNodeUncached (pool_ReadAt (fs_pool fs)) (fs_partOffset fs) (fs_sb fs) a)
                (fun buf => nodeHdrSize <= blen buf)).
Proof using HL.
  intros Hd. unfold OpenFromDevices. destruct Hd as [|d devs Hd Hds]; [done|].
  eapply (safe_with_bind _ _ (fun _ => True)).
  { unfold partitionOffset. case_if.
    - destruct (gpt_ByIndex _ _ _); try done. by case_if.
    - destruct (gpt_List _ _) as [parts| |]; try done. do 2 (destruct (List.find _ _); [done|]). done. }
  intros off _. eapply safe_with_bind; [by apply readSuperblock_safe|]. intros sb Hsb.
  eapply safe_with_bind.
  { apply add_devices_safe; [done|]. split; [done|]. cbn [newDevicePool dp_devices].
    case_if; repeat (apply map_Forall_insert_2; [done|]); apply map_Forall_empty. }
  intros pool Hp. destruct (loadChunkTree_safe pool off Hp sb Hsb) as [Hsb' Hr].
  destruct (loadChunkTree pool off sb) as [sb' r]. cbn [fst snd] in *.
  eapply safe_with_bind; [exact Hr|]. intros _ _.
  assert (Hrn : forall a, safe_with (readNodeUncached (pool_ReadAt (with_sb pool sb')) off sb' a)
    (fun buf => nodeHdrSize <= blen buf)).
  { intros a. apply readNode_fills; [done|]. intros o n Hn. by apply pool_reads_fill. }
  eapply (safe_with_bind _ _ (fun _ => True)).
  { assert (Hs : sm_safe (fun _ => True) (resolveRootTree (pure_reader
      (readNodeUncached (pool_ReadAt (with_sb pool sb')) off sb')) sb') (fun _ => True)).
    { unfold resolveRootTree. eapply sm_safe_bind; [apply searchTree_safe; intros a s _; split; [done|apply Hrn]|].
      intros [buf it] _. case_if; [apply sm_safe_fail|]. apply sm_safe_lift. by rewrite get_le_Ok by lia. }
    by destruct (Hs tt I). }
  intros fsRoot _. eapply safe_with_bind; [by apply buildSpaceManager_safe|]. intros sm Hsm. done.
Qed.
End Total.

(** ** The chunk map after the load *)

(** The mapping a CHUNK_ITEM stands for, if the item is well formed. *)
Definition chunk_of (devID : Z) (r : rec) : option chunkMapping :=
  if (typ r.1 =? 0xE4) && (chunkHeaderSize + chunkStripeSize <=? blen r.2)
     && negb (rd 2 r.2 chunkNumStripes =? 0)
  then match decode_chunk (offset r.1) devID r.2 with Ok m => Some m | _ => None end
  else None.

Definition add_mapping (l : list chunkMapping) (m : chunkMapping) : list chunkMapping :=
  if existsb (same_mapping m) l then l else l ++ [m].

Definition map_id (m : chunkMapping) : Z * Z * Z := (cm_logStart m, cm_size m, cm_physStart m).

Lemma same_mapping_id m e : same_mapping m e = true <-> map_id m = map_id e.
Proof.
  unfold same_mapping, map_id. rewrite !andb_true_iff, !Z.eqb_eq. split; [intros [[-> ->] ->]; done|by intros [= -> -> ->]].
Qed.

Lemma existsb_same m l : existsb (same_mapping m) l = true <-> map_id m ∈ map map_id l.
Proof.
  rewrite existsb_exists, list_elem_of_In, in_map_iff. split.
  - intros (e&He&Hs). apply same_mapping_id in Hs. by exists e.
  - intros (e&He&Hin). exists e. split; [done|]. by apply same_mapping_id.
Qed.

Lemma add_mapping_spec l m :
  map_id m ∈ map map_id (add_mapping l m) /\ (exists l', add_mapping l m = l ++ l') /\
  (NoDup (map map_id l) -> NoDup (map map_id (add_mapping l m))).
Proof.
  unfold add_mapping. destruct (existsb (same_mapping m) l) eqn:E.
  - apply existsb_same in E. split_and!; [done|exists []; by rewrite app_nil_r|done].
  - split_and!; [rewrite map_app; apply elem_of_app; right; by left|by exists [m]|].
    intros Hn. rewrite map_app. apply NoDup_app. split_and!; [done| |apply NoDup_singleton].
    intros x Hx ->%list_elem_of_singleton. apply existsb_same in Hx. congruence.
Qed.

Lemma add_mappings_spec ms l :
  (forall m, m ∈ ms -> map_id m ∈ map map_id (foldl add_mapping l ms)) /\
  (exists l', foldl add_mapping l ms = l ++ l') /\
  (NoDup (map map_id l) -> NoDup (map map_id (foldl add_mapping l ms))).
Proof.
  revert l. induction ms as [|m ms IH]; intros l; cbn [foldl].
  - split_and!; [by intros m ?%not_elem_of_nil|exists []; by rewrite app_nil_r|done].
  - destruct (add_mapping_spec l m) as (Hm&(l1&E1)&Hn). destruct (IH (add_mapping l m)) as (Hms&(l2&E2)&Hn2). split_and!.
    + intros x [->|Hx]%elem_of_cons; [|by apply Hms]. rewrite E2, map_app. apply elem_of_app. by left.
    + exists (l1 ++ l2). by rewrite E2, E1, app_assoc.
    + intros Hl. by apply Hn2, Hn.
Qed.

(** Profiles whose chunks a single leg can serve. *)
Definition mirrored (m : chunkMapping) : bool :=
  let profile := Z.land (cm_profile m) blockGroupProfileMask in
  (profile =? 0) || (profile =? blockGroupDup)
  || negb (Z.land profile (Z.lor (Z.lor blockGroupRAID1 blockGroupRAID1C3) blockGroupRAID1C4) =? 0).

(** The nodes that can be read with the boot chunk map, through a single or
    mirrored chunk. *)
Definition boot_node `{SafeIO} (p : devicePool) (off : Z) (sb : superblock) (a : Z) : outcome bytes :=
  match lookupChunk sb a with
  | Ok m => if mirrored m && (0 <=? a) && (a <? 2 ^ 62)
            then readNodeUncached (pool_ReadAt (with_sb p sb)) off sb a else Err ErrOther
  | _ => Err ErrOther
  end.

Lemma find_app_l {A} (f : A -> bool) l l' x : List.find f l = Some x -> List.find f (l ++ l') = Some x.
Proof. induction l as [|y l IH]; cbn; [done|]. by destruct (f y). Qed.

Section Load.
Context `{HL : SafeIOLaws} (p : devicePool) (off : Z) (sb : superblock).
Context (Hoff : 0 <= off <= 2 ^ 62) (Hp : dp_partOff p = off).

(** Mappings that are appended do not change a translation that succeeds. *)
Lemma lookupChunk_app l a m :
  lookupChunk sb a = Ok m -> lookupChunk (set_sysChunks sb (sb_sysChunks sb ++ l)) a = Ok m.
Proof using.
  unfold lookupChunk. cbn [sb_sysChunks set_sysChunks].
  destruct (List.find _ (sb_sysChunks sb)) as [e|] eqn:E; [|done]. by rewrite (find_app_l _ _ _ _ E).
Qed.

Lemma mirror_with_sb sb' n a m : readSingleOrMirror (with_sb p sb') n a m = readSingleOrMirror p n a m.
Proof using.
  assert (Hm : forall d i j l e, mirror_loop (with_sb p sb') n d i j l e = mirror_loop p n d i j l e).
  { intros d i j l. revert j. induction l as [|s l IH]; intros j e; cbn [mirror_loop]; [done|].
    change (tryStripe (with_sb p sb') n d s) with (tryStripe p n d s).
    case_if; [apply IH|]. destruct (tryStripe p n d s) as [[]|]; done. }
  unfold readSingleOrMirror. case_if; [|apply Hm]. destruct (cm_stripes m !! _) as [s|]; [|done].
  change (tryStripe (with_sb p sb') n (a -₆₄ cm_logStart m) s) with (tryStripe p n (a -₆₄ cm_logStart m) s).
  destruct (tryStripe p n _ s) as [[]|]; try done; apply Hm.
Qed.

Lemma readNode_mirrored sb' a m :
  lookupChunk sb' a = Ok m -> mirrored m = true -> 0 <= a < 2 ^ 62 ->
  readNodeUncached (pool_ReadAt (with_sb p sb')) off sb' a =
  (buf ← MakeBytes (sb_nodeSize sb') maxNodeSize; readSingleOrMirror p (blen buf) a m).
Proof using Hoff Hp.
  intros E Hm Ha. unfold readNodeUncached, physAddr. rewrite E. cbn [mbind outcome_bind].
  destruct (MakeBytes _ _) as [buf| | |]; cbn [mbind outcome_bind]; try done.
  unfold pool_ReadAt. cbn [pool_ReadAt_loop with_sb dp_sb dp_partOff]. rewrite Hp.
  rewrite (i64_small a), i64_small by lia. rewrite Z.add_simpl_l, u64_small by (unfold is_u64; lia). rewrite E.
  unfold mirrored in Hm. unfold readFromChunk. 
  destruct (orb (_ =? 0) _); [apply mirror_with_sb|]. cbn [orb] in Hm. rewrite Hm. apply mirror_with_sb.
Qed.

Lemma boot_node_stable l a buf :
  boot_node p off sb a = Ok buf ->
  readNodeUncached (pool_ReadAt (with_sb p (set_sysChunks sb (sb_sysChunks sb ++ l)))) off
    (set_sysChunks sb (sb_sysChunks sb ++ l)) a = Ok buf.
Proof using Hoff Hp.
  unfold boot_node. destruct (lookupChunk sb a) as [m| | |] eqn:E; try done. case_if; [|done].
  rewrite (readNode_mirrored sb a m) by (done || lia). intros <-.
  rewrite (readNode_mirrored _ a m); [done|by apply lookupChunk_app|done|lia].
Qed.

Lemma load_chunk_eq l r :
  key_ok r.1 ->
  load_chunk r.1 r.2 (set_sysChunks sb l) =
  (set_sysChunks sb (match chunk_of (sb_devID sb) r with Some m => add_mapping l m | None => l end), Ok tt).
Proof using.
  destruct r as [k d]. intros (_&_&Hk). unfold load_chunk, chunk_of. cbn [fst snd].
  destruct (typ k =? 0xE4); [|done]. cbn [negb andb].
  rewrite (Z.leb_antisym (blen d)). case_if; [done|]. cbn [negb andb].
  rewrite get_le_Ok by chk_lia. rewrite (sm_lift_Ok _ _ _ _ eq_refl). case_if; [done|]. cbn [negb].
  rewrite (sm_bind_Ok _ _ _ (set_sysChunks sb l) (set_sysChunks sb l)) by done.
  change (sb_devID (set_sysChunks sb l)) with (sb_devID sb).
  destruct (decode_chunk_Ok (offset k) (sb_devID sb) d) as (m&E&_); [done|chk_lia|].
  rewrite E, (sm_lift_Ok _ _ _ _ eq_refl). unfold hasChunkMapping, add_mapping. cbn [sb_sysChunks set_sysChunks].
  by case_if.
Qed.

Lemma load_items_eq recs l :
  Forall (fun r => key_ok r.1) recs ->
  each (fun r => load_chunk r.1 r.2) recs (set_sysChunks sb l) =
  (set_sysChunks sb (foldl add_mapping l (omap (chunk_of (sb_devID sb)) recs)), Ok tt).
Proof using.
  intros Hk. revert l. induction Hk as [|r recs Hr _ IH]; intros l; [done|]. cbn [each].
  rewrite (sm_bind_Ok _ _ _ _ _ (load_chunk_eq l r Hr)), IH. cbn [omap list_omap]. by destruct (chunk_of _ r).
Qed.

(** The load as a fold over the items of the chunk tree. *)
Definition load_step (s : superblock) (r : rec) : superblock :=
  set_sysChunks s (match chunk_of (sb_devID s) r with
                   | Some m => add_mapping (sb_sysChunks s) m
                   | None => sb_sysChunks s
                   end).

Lemma load_fold c l :
  foldl load_step (set_sysChunks sb l) c =
  set_sysChunks sb (foldl add_mapping l (omap (chunk_of (sb_devID sb)) c)).
Proof using.
  revert l. induction c as [|r c IH]; intros l; [done|]. cbn [foldl omap list_omap]. unfold load_step at 2.
  cbn [sb_devID sb_sysChunks set_sysChunks].
  change (set_sysChunks (set_sysChunks sb l) ?x) with (set_sysChunks sb x).
  rewrite IH. by destruct (chunk_of _ r).
Qed.

Lemma set_sysChunks_id s : set_sysChunks s (sb_sysChunks s) = s.
Proof using. by destruct s. Qed.

Lemma add_extends l m : exists l', add_mapping (sb_sysChunks sb ++ l) m = sb_sysChunks sb ++ l'.
Proof using.
  destruct (add_mapping_spec (sb_sysChunks sb ++ l) m) as (_&(l'&->)&_). exists (l ++ l'). by rewrite app_assoc.
Qed.

Lemma each_map {S A B} (f : B -> SM S unit) (g : A -> B) l s : each (fun x => f (g x)) l s = each f (map g l) s.
Proof using.
  revert s. induction l as [|x l IH]; intros s; [done|]. cbn [each map]. unfold mbind, SM_bind.
  destruct (f (g x) s) as [s' [u| | |]]; done || apply IH.
Qed.

Lemma loadChunkTree_spec h c ads :
  subtree (boot_node p off sb) h (sb_chunkLogAddr sb) c ads -> NoDup ads ->
  Z.of_nat (length ads) <= maxTreeNodes -> Z.of_nat h <= maxBtreeDepth ->
  exists sb', loadChunkTree p off sb = (sb', Ok tt) /\
    sb_sysChunks sb' = foldl add_mapping (sb_sysChunks sb) (omap (chunk_of (sb_devID sb)) c) /\
    (exists l, sb' = set_sysChunks sb (sb_sysChunks sb ++ l)) /\
    (forall r m, r ∈ c -> chunk_of (sb_devID sb) r = Some m -> hasChunkMapping sb' m = true) /\
    (NoDup (map map_id (sb_sysChunks sb)) -> NoDup (map map_id (sb_sysChunks sb'))).
Proof using HL Hoff Hp.
  intros Ht Hn Hl Hh. set (ms := omap (chunk_of (sb_devID sb)) c).
  exists (set_sysChunks sb (foldl add_mapping (sb_sysChunks sb) ms)).
  destruct (add_mappings_spec ms (sb_sysChunks sb)) as (Hin&(l'&El)&Hnd). split_and!.
  - unfold loadChunkTree. rewrite (sm_bind_Ok _ _ _ sb sb) by done.
    unfold ms. rewrite <- load_fold, set_sysChunks_id.
    apply (walkLeaves_tree (boot_node p off sb) (fun s => exists l, s = set_sysChunks sb (sb_sysChunks sb ++ l))
      (pool_node p off)) with (ok := fun r => key_ok r.1) (h := h) (ads := ads); try done.
    + intros a s buf [l ->] Hb. unfold pool_node. by rewrite (boot_node_stable l a buf Hb).
    + intros buf items s [l ->] Hk.
      rewrite (each_map (fun r => load_chunk r.1 r.2) (fun it => (it_k it, item_data it buf)) items).
      rewrite load_items_eq by done. by rewrite load_fold.
    + intros s r _ [l ->]. unfold load_step. cbn [sb_devID sb_sysChunks set_sysChunks].
      destruct (chunk_of _ r) as [m|]; [|by exists l]. destruct (add_extends l m) as [l2 ->]. by exists l2.
    + by eapply subtree_keys_ok.
    + exists []. by rewrite app_nil_r, set_sysChunks_id.
  - done.
  - exists l'. by rewrite El.
  - intros r m Hr Hm. unfold hasChunkMapping. apply existsb_same, Hin. apply list_elem_of_omap. by exists r.
  - exact Hnd.
Qed.

(** C31. Loading the chunk tree completes the chunk map.  For a chunk tree on disk
    that the boot map of the superblock reaches, the load succeeds, keeps the
    boot mappings in front, adds the mapping of every well-formed CHUNK_ITEM in
    tree order, and lists none twice, so the space manager that is seeded from
    the map cannot hand out the same chunk twice. *)
Theorem loadChunkTree_correct h c ads :
  subtree (boot_node p off sb) h (sb_chunkLogAddr sb) c ads -> NoDup ads ->
  Z.of_nat (length ads) <= maxTreeNodes -> Z.of_nat h <= maxBtreeDepth ->
  exists sb', loadChunkTree p off sb = (sb', Ok tt) /\
    sb_sysChunks sb' = foldl add_mapping (sb_sysChunks sb) (omap (chunk_of (sb_devID sb)) c) /\
    (exists l, sb' = set_sysChunks sb (sb_sysChunks sb ++ l)) /\
    (forall r m, r ∈ c -> chunk_of (sb_devID sb) r = Some m -> hasChunkMapping sb' m = true) /\
    (NoDup (map map_id (sb_sysChunks sb)) -> NoDup (map map_id (sb_sysChunks sb'))).
Proof using HL Hoff Hp. apply loadChunkTree_spec. Qed.
End Load.

(** ** The space manager after the mount *)

(** The free space of [sm'] is part of that of [sm]. *)
Definition shrinks (sm sm' : spaceManager) : Prop :=
  sm_wf sm' /\ forall p, cov (sm_freeExts sm') p <= cov (sm_freeExts sm) p.

Lemma shrinks_refl sm : sm_wf sm -> shrinks sm sm.
Proof. done. Qed.
Lemma shrinks_trans a b c : shrinks a b -> shrinks b c -> shrinks a c.
Proof. intros [_ H1] [H2 H3]. split; [done|]. intros p. specialize (H1 p). specialize (H3 p). lia. Qed.

(** No byte of the physical range is free. *)
Definition taken (s n : Z) (sm : spaceManager) : Prop := forall p, s <= p < s + n -> ~ is_free sm p.

Lemma taken_shrinks s n sm sm' : shrinks sm sm' -> taken s n sm -> taken s n sm'.
Proof. intros [_ Hc] Ht p Hp Hf. apply (Ht p Hp). specialize (Hc p). unfold is_free in *. lia. Qed.

Lemma remove_takes sm s n :
  sm_wf sm -> 0 <= s -> 0 <= n -> s + n < 2 ^ 64 -> shrinks sm (remove sm s n) /\ taken s n (remove sm s n).
Proof.
  intros Hw Hs Hn Hl. destruct (decide (n = 0)) as [->|Hn0].
  - unfold remove. cbn. split; [done|]. intros p Hp. lia.
  - destruct (remove_wf sm s n) as [Hw' Hc]; [done|lia|lia|lia|]. split; [split; [done|]|].
    + intros p. rewrite Hc. pose proof (cov_nonneg (sm_freeExts sm) p). case_if; lia.
    + intros p Hp. unfold is_free. rewrite Hc. case_if; lia.
Qed.

(** A fold of steps that only take space away: each establishes what it stands for. *)
Lemma foldl_takes {T} (g : spaceManager -> T -> spaceManager) (l : list T) sm :
  (forall s t, t ∈ l -> sm_wf s -> shrinks s (g s t)) -> sm_wf sm ->
  shrinks sm (foldl g sm l) /\
  forall t s n, t ∈ l -> (forall sm0, sm_wf sm0 -> taken s n (g sm0 t)) -> taken s n (foldl g sm l).
Proof.
  revert sm. induction l as [|x l IH]; intros sm Hs Hw; cbn [foldl].
  - split; [by apply shrinks_refl|]. by intros t s n ?%not_elem_of_nil.
  - assert (Hx : shrinks sm (g sm x)) by (apply Hs; [by left|done]).
    destruct (IH (g sm x)) as [H1 H2]; [intros s t Ht; apply Hs; by right|apply Hx|].
    split; [by eapply shrinks_trans|]. intros t s n [->|Ht]%elem_of_cons Hg; [|by apply (H2 t)].
    eapply taken_shrinks; [exact H1|]. by apply Hg.
Qed.

(** A tree on disk within the bounds of the walks. *)
Definition tree_at (rn : Z -> outcome bytes) (root : Z) (c : list rec) (ads : list Z) : Prop :=
  exists h, subtree rn h root c ads /\ NoDup ads /\ Z.of_nat (length ads) <= maxTreeNodes /\
    Z.of_nat h <= maxBtreeDepth.

(** The data of a regular, non-sparse extent item. *)
Definition extent_range (r : rec) : option (Z * Z) :=
  if (typ r.1 =? typeExtentData) && (extDataRegularSize <=? blen r.2)
     && (rd 1 r.2 extDataOffType =? extentDataRegular) && negb (rd 8 r.2 extDataOffDiskBytenr =? 0)
  then Some (rd 8 r.2 extDataOffDiskBytenr, rd 8 r.2 extDataOffDiskNumBytes) else None.

(** The tree a ROOT_ITEM points at. *)
Definition root_bytenr (r : rec) : option Z :=
  if (typ r.1 =? typeRootItem) && (rootItemOffBytenr + 8 <=? blen r.2)
     && negb (rd 8 r.2 rootItemOffBytenr =? 0)
  then Some (rd 8 r.2 rootItemOffBytenr) else None.

Section Reserved.
Context `{HL : SafeIOLaws} (rn : Z -> outcome bytes) (sb : superblock).
Context (Hrn : forall a, safe_with (rn a) (fun buf => nodeHdrSize <= blen buf)).
Context (Hwf : chunk_map_wf (sb_sysChunks sb)) (Hns : 0 < sb_nodeSize sb <= maxNodeSize).

(** The range a logical address and a length stand for is not free. *)
Definition reserved (a n : Z) (sm : spaceManager) : Prop :=
  forall phys, logToPhys sb a = Ok phys -> taken phys n sm.

Lemma logToPhys_range a phys : logToPhys sb a = Ok phys -> 0 <= phys < 2 ^ 63.
Proof using Hwf.
  unfold logToPhys, lookupChunk. destruct (List.find _ _) as [m|] eqn:E; cbn [mbind outcome_bind]; [|done].
  apply find_some in E as [Hm Ha]. apply list_elem_of_In in Hm. apply (in_chunk_iff sb Hwf m a Hm) in Ha.
  destruct Hwf as [Hb _]. specialize (Hb _ Hm). case_if; [done|]. intros [= <-]. u64_tac. rewrite i64_small; lia.
Qed.

Definition reserve_step (n : Z) (sm : spaceManager) (a : Z) : spaceManager :=
  match logToPhys sb a with Ok phys => remove sm (u64 phys) n | _ => sm end.

Lemma reserve_eq a n sm : reserve sb a n sm = (reserve_step n sm a, Ok tt).
Proof using. unfold reserve, reserve_step. by destruct (logToPhys_cases sb a) as [[phys ->]| ->]. Qed.

(** A reservation that does not wrap around the address space. *)
Definition no_wrap (a n : Z) : Prop := 0 <= n /\ forall phys, logToPhys sb a = Ok phys -> phys + n < 2 ^ 64.

Lemma reserve_step_takes n sm a :
  no_wrap a n -> sm_wf sm -> shrinks sm (reserve_step n sm a) /\ reserved a n (reserve_step n sm a).
Proof using Hwf.
  intros [Hn Hl] Hw. unfold reserve_step, reserved. destruct (logToPhys sb a) as [phys| | |] eqn:E; try done.
  pose proof (logToPhys_range _ _ E). rewrite u64_small by (unfold is_u64; lia).
  specialize (Hl _ eq_refl). destruct (remove_takes sm phys n) as [Hs Ht]; try done; try lia.
  split; [done|]. by intros phys' [= <-].
Qed.

Lemma node_no_wrap a : no_wrap a (sb_nodeSize sb).
Proof using Hwf Hns. split; [lia|]. intros phys E. apply logToPhys_range in E. unfold maxNodeSize in Hns. lia. Qed.

(** Whatever the tree, walking it only takes space away. *)
Lemma reserveTreeNodes_shrinks root sm :
  sm_wf sm -> exists sm', sm_ignore (reserveTreeNodes rn sb root) sm = (sm', Ok tt) /\ shrinks sm sm'.
Proof using HL Hrn Hwf Hns.
  intros Hw. assert (Hs : sm_safe (shrinks sm) (sm_ignore (reserveTreeNodes rn sb root)) (fun _ => True)).
  { apply ignore_safe, reserveTreeNodes_safe; [done|]. intros a s Hs. rewrite reserve_eq. split; [|done].
    eapply shrinks_trans; [exact Hs|]. apply reserve_step_takes; [apply node_no_wrap|apply Hs]. }
  destruct (Hs sm) as [H1 H2]; [done|]. exists (sm_ignore (reserveTreeNodes rn sb root) sm).1. split; [|done].
  unfold sm_ignore, mbind, SM_bind, sm_try in *. destruct (reserveTreeNodes rn sb root sm) as [s [[]| | |]]; done.
Qed.

(** A tree on disk is reserved completely. *)
Lemma reserveTreeNodes_tree root c ads sm :
  tree_at rn root c ads -> sm_wf sm ->
  exists sm', sm_ignore (reserveTreeNodes rn sb root) sm = (sm', Ok tt) /\ shrinks sm sm' /\
    forall a, a ∈ ads -> reserved a (sb_nodeSize sb) sm'.
Proof using HL Hwf Hns.
  intros (h&Ht&Hn&Hl&Hh) Hw. exists (foldl (reserve_step (sb_nodeSize sb)) sm ads).
  destruct (foldl_takes (reserve_step (sb_nodeSize sb)) ads sm) as [Hs Htk]; [|done|].
  { intros s t _ Hs. apply reserve_step_takes; [apply node_no_wrap|done]. }
  split_and!; [|done|].
  - unfold sm_ignore, mbind, SM_bind, sm_try, reserveTreeNodes.
    rewrite (walkNodeAddrs_tree rn (fun _ => True) (node_of rn)) with
      (g := reserve_step (sb_nodeSize sb)) (h := h) (c := c) (ads := ads); try done.
    + intros a s buf _ E. unfold node_of, sm_lift. by rewrite E.
    + intros a s _. apply reserve_eq.
  - intros a Ha phys E. apply (Htk a); [done|]. intros sm0 Hw0.
    by apply (reserve_step_takes (sb_nodeSize sb) sm0 a (node_no_wrap a) Hw0).
Qed.

Lemma each_foldl {S T} (inv : S -> Prop) (f : T -> SM S unit) (g : S -> T -> S) (ok : T -> Prop) l s :
  (forall t s, ok t -> inv s -> f t s = (g s t, Ok tt) /\ inv (g s t)) -> Forall ok l -> inv s ->
  each f l s = (foldl g s l, Ok tt).
Proof using.
  intros Hf Hl. revert s. induction Hl as [|t l Ht _ IH]; intros s Hs; [done|]. cbn [each foldl].
  destruct (Hf t s Ht Hs) as [E Hi]. rewrite (sm_bind_Ok _ _ _ _ _ E). by apply IH.
Qed.

(** The walk over the leaves of a tree on disk whose items only take space. *)
Lemma take_leaves root c ads (f : rec -> SM spaceManager unit) (ok : rec -> Prop) sm :
  tree_at rn root c ads -> Forall ok c -> sm_wf sm ->
  (forall r s, ok r -> sm_wf s -> exists s', f r s = (s', Ok tt) /\ shrinks s s') ->
  exists sm', walkLeaves (node_of rn) root
      (fun buf items => each (fun it => f (it_k it, item_data it buf)) items) sm = (sm', Ok tt) /\
    shrinks sm sm' /\
    forall r s n, r ∈ c -> (forall sm0 sm1, sm_wf sm0 -> f r sm0 = (sm1, Ok tt) -> taken s n sm1) -> taken s n sm'.
Proof using HL.
  intros (h&Ht&Hn&Hl&Hh) Hok Hw Hf. set (g := fun s r => (f r s).1).
  assert (Hg : forall r s, ok r -> sm_wf s -> f r s = (g s r, Ok tt) /\ shrinks s (g s r)).
  { intros r s Hr Hs. destruct (Hf r s Hr Hs) as (s'&E&Hsh). unfold g. by rewrite E. }
  assert (Hok' : forall r, r ∈ c -> ok r) by (by apply Forall_forall).
  exists (foldl g sm c). destruct (foldl_takes g c sm) as [Hs Htk]; [|done|].
  { intros s t Hin Hs. apply Hg; auto. }
  split_and!; [|done|].
  - apply (walkLeaves_tree rn sm_wf (node_of rn)) with (ok := ok) (h := h) (ads := ads); try done.
    + intros a s buf _ E. unfold node_of, sm_lift. by rewrite E.
    + intros buf items s Hs0 Hi. rewrite (each_map f (fun it => (it_k it, item_data it buf)) items).
      apply (each_foldl sm_wf f g ok); try done. intros r s0 Hr H0. destruct (Hg r s0 Hr H0) as [E [Hw' _]]. done.
    + intros s r Hr H0. by apply Hg.
  - intros r s n Hr Hq. apply (Htk r s n Hr). intros sm0 Hw0. apply (Hq sm0 _ Hw0). by apply Hg; [apply Hok'|].
Qed.

Lemma reserve_root_eq r sm :
  reserve_root rn sb r sm =
  match root_bytenr r with Some b => sm_ignore (reserveTreeNodes rn sb b) sm | None => (sm, Ok tt) end.
Proof using.
  unfold reserve_root, root_bytenr. destruct (typ r.1 =? typeRootItem); [|done]. cbn [negb andb].
  rewrite (Z.leb_antisym (blen r.2)). case_if; [done|]. cbn [negb andb].
  rewrite get_le_Ok by (unfold rootItemOffBytenr in *; lia). rewrite (sm_lift_Ok _ _ _ _ eq_refl). by case_if.
Qed.

Lemma reserve_extent_eq r sm :
  reserve_extent sb r sm =
  match extent_range r with Some (b, n) => reserve sb b n sm | None => (sm, Ok tt) end.
Proof using.
  unfold reserve_extent, extent_range. destruct (typ r.1 =? typeExtentData); [|done]. cbn [negb andb].
  rewrite (Z.leb_antisym (blen r.2)).
  destruct (blen r.2 <=? extDataOffType) eqn:E1; bool_prop.
  { rewrite (proj2 (Z.ltb_lt (blen r.2) _)) by (unfold extDataRegularSize, extDataHdrSize, extDataOffType in *; lia). done. }
  rewrite (get_le_Ok 1) by (unfold extDataOffType in *; lia). rewrite (sm_lift_Ok _ _ _ _ eq_refl).
  destruct (rd 1 r.2 extDataOffType =? extentDataRegular); cbn [negb]; [|by rewrite andb_false_r].
  case_if; [done|]. cbn [negb andb].
  unfold extDataRegularSize, extDataHdrSize in *.
  rewrite (get_le_Ok 8 _ extDataOffDiskBytenr), (get_le_Ok 8 _ extDataOffDiskNumBytes)
    by (unfold extDataOffDiskBytenr, extDataOffDiskNumBytes in *; lia).
  do 2 rewrite (sm_lift_Ok _ _ _ _ eq_refl). by case_if.
Qed.

(** The extents of the file tree that can be subtracted exactly. *)
Definition extents_no_wrap (c : list rec) : Prop :=
  Forall (fun r => match extent_range r with Some (b, n) => no_wrap b n | None => True end) c.

(** ** Seeding *)
Lemma cov_seed l p :
  0 < cov (seed_chunks l) p ->
  exists m, m ∈ l /\ system_only m = false /\ cm_physStart m <= p < cm_physStart m + cm_size m.
Proof using.
  unfold seed_chunks. induction l as [|m l IH]; cbn [flat_map]; [by rewrite cov_nil|]. rewrite cov_app.
  destruct (system_only m) eqn:E.
  - rewrite cov_nil. intros Hp. destruct IH as (m'&Hm&H'); [lia|]. exists m'. split; [by right|done].
  - rewrite cov_cons, cov_nil. cbn [fe_physStart fe_size]. intros Hp.
    destruct (inr_spec (cm_physStart m) (cm_size m) p) as [[Hi _]|[_ Hi]].
    + exists m. split_and!; [by left|done|lia|lia].
    + destruct IH as (m'&Hm&H'); [lia|]. exists m'. split; [by right|done].
Qed.

Lemma seed_chunks_wf l :
  chunk_map_wf l -> NoDup l -> (forall m, m ∈ l -> 0 < cm_size m) -> sm_wf (SpaceManager (seed_chunks l) (sb_nodeSize sb)).
Proof using Hns.
  intros Hw Hn Hpos. split_and!; cbn [sm_freeExts sm_nodeSize]; [| |lia].
  - apply Forall_forall. intros fe Hfe. unfold seed_chunks in Hfe. apply list_elem_of_In, in_flat_map in Hfe as (m&Hm&Hfe).
    apply list_elem_of_In in Hm. destruct (system_only m); [done|]. destruct Hfe as [<-|[]].
    destruct Hw as [Hb _]. specialize (Hb _ Hm). specialize (Hpos _ Hm). unfold fe_ok. cbn. lia.
  - intros p. revert Hw Hn. clear Hpos. induction l as [|m l IH]; intros Hw Hn; [cbn; lia|].
    apply NoDup_cons in Hn as [Hm Hn].
    assert (Hw' : chunk_map_wf l).
    { destruct Hw as [H1 H2]. split; intros; [apply H1; by right|apply H2; by right]. }
    specialize (IH Hw' Hn). unfold seed_chunks in *. cbn [flat_map]. rewrite cov_app.
    destruct (system_only m) eqn:E; [rewrite cov_nil; lia|]. rewrite cov_cons, cov_nil. cbn [fe_physStart fe_size].
    destruct (inr_spec (cm_physStart m) (cm_size m) p) as [[Hi ->]|[_ ->]]; [|lia].
    destruct (Z_le_gt_dec (cov (seed_chunks l) p) 0) as [Hle|Hgt]; [unfold seed_chunks in Hle; lia|exfalso].
    destruct (cov_seed l p) as (m'&Hm'&_&Hi'); [lia|]. destruct Hw as [_ Hd].
    destruct (Hd m m') as [<-|[_ Hdis]]; [by left|by right|done|]. unfold disjoint_ranges in Hdis. lia.
Qed.

Lemma seed_takes :
  NoDup (sb_sysChunks sb) -> (forall m, m ∈ sb_sysChunks sb -> 0 < cm_size m) ->
  shrinks (SpaceManager (seed_chunks (sb_sysChunks sb)) (sb_nodeSize sb)) (seed sb) /\
  taken 0 (sb_nodeSize sb) (seed sb) /\ taken 0x10000 (sb_nodeSize sb) (seed sb) /\
  taken 0x4000000 (sb_nodeSize sb) (seed sb).
Proof using Hns Hwf.
  intros Hn Hpos. pose proof (seed_chunks_wf _ Hwf Hn Hpos) as Hw. unfold seed. unfold maxNodeSize in Hns.
  destruct (remove_takes _ 0 (sb_nodeSize sb) Hw) as [S1 T1]; [lia..|].
  destruct (remove_takes _ 0x10000 (sb_nodeSize sb) (proj1 S1)) as [S2 T2]; [lia..|].
  destruct (remove_takes _ 0x4000000 (sb_nodeSize sb) (proj1 S2)) as [S3 T3]; [lia..|].
  split_and!; [|by do 2 (eapply taken_shrinks; [eassumption|])|by eapply taken_shrinks|done].
  eapply shrinks_trans; [|exact S3]. by eapply shrinks_trans.
Qed.

(** A step of the bootstrap followed by the rest. *)
Lemma then_shrinks {A} (m : SM spaceManager unit) (rest : SM spaceManager A) sm sm' :
  m sm = (sm', Ok tt) -> (_ ← m; rest) sm = rest sm'.
Proof using. intros E. by rewrite (sm_bind_Ok _ _ _ _ _ E). Qed.

Lemma reserveRoots_tree c ads sm :
  tree_at rn (sb_rootLogAddr sb) c ads -> sm_wf sm ->
  exists sm', sm_ignore (reserveRootTreeReferencedTrees rn sb) sm = (sm', Ok tt) /\ shrinks sm sm' /\
    forall r b c' ads' a, r ∈ c -> root_bytenr r = Some b -> tree_at rn b c' ads' -> a ∈ ads' ->
      reserved a (sb_nodeSize sb) sm'.
Proof using HL Hrn Hwf Hns.
  intros Ht Hw.
  destruct (take_leaves (sb_rootLogAddr sb) c ads (reserve_root rn sb) (fun _ => True) sm Ht) as (sm'&E&Hs&Htk);
    [by apply Forall_true|done| |].
  { intros r s _ Hs. rewrite reserve_root_eq. destruct (root_bytenr r) as [b|]; [by apply reserveTreeNodes_shrinks|].
    exists s. by split. }
  exists sm'. split_and!; [|done|].
  - unfold sm_ignore, mbind, SM_bind, sm_try, reserveRootTreeReferencedTrees. by rewrite E.
  - intros r b c' ads' a Hr Hb Ht' Ha phys Ep. apply (Htk r); [done|]. intros sm0 sm1 Hw0 E0.
    rewrite reserve_root_eq, Hb in E0. destruct (reserveTreeNodes_tree b c' ads' sm0 Ht' Hw0) as (sm2&E2&_&Hres).
    rewrite E2 in E0. injection E0 as <-. by apply (Hres a).
Qed.

Lemma reserveDataExtents_tree root c ads sm :
  tree_at rn root c ads -> extents_no_wrap c -> sm_wf sm ->
  exists sm', reserveDataExtents rn sb root sm = (sm', Ok tt) /\ shrinks sm sm' /\
    forall r b n, r ∈ c -> extent_range r = Some (b, n) -> reserved b n sm'.
Proof using HL Hwf.
  intros Ht Hc Hw.
  destruct (take_leaves root c ads (reserve_extent sb)
    (fun r => match extent_range r with Some (b, n) => no_wrap b n | None => True end) sm Ht Hc Hw) as (sm'&E&Hs&Htk).
  { intros r s Hr Hs. rewrite reserve_extent_eq. destruct (extent_range r) as [[b n]|]; [|by exists s].
    rewrite reserve_eq. eexists. split; [done|]. by apply reserve_step_takes. }
  exists sm'. split_and!; [done|done|]. intros r b n Hr Hx phys Ep. apply (Htk r); [done|]. intros sm0 sm1 Hw0 E0.
  rewrite reserve_extent_eq, Hx, reserve_eq in E0. injection E0 as <-.
  unfold extents_no_wrap in Hc. rewrite Forall_forall in Hc. specialize (Hc r Hr). rewrite Hx in Hc.
  by apply (reserve_step_takes n sm0 b Hc Hw0).
Qed.

Lemma buildSpaceManager_spec fsRoot cr adsr cc adsc cf adsf :
  NoDup (sb_sysChunks sb) -> (forall m, m ∈ sb_sysChunks sb -> 0 < cm_size m) ->
  tree_at rn (sb_rootLogAddr sb) cr adsr -> tree_at rn (sb_chunkLogAddr sb) cc adsc ->
  tree_at rn fsRoot cf adsf -> extents_no_wrap cf ->
  exists sm, buildSpaceManager rn sb fsRoot = Ok sm /\ sm_wf sm /\
    (forall p, is_free sm p -> exists m, m ∈ sb_sysChunks sb /\ system_only m = false /\
       cm_physStart m <= p < cm_physStart m + cm_size m) /\
    taken 0 (sb_nodeSize sb) sm /\ taken 0x10000 (sb_nodeSize sb) sm /\ taken 0x4000000 (sb_nodeSize sb) sm /\
    (forall a, a ∈ adsr ++ adsc ++ adsf -> reserved a (sb_nodeSize sb) sm) /\
    (forall r b c' ads' a, r ∈ cr -> root_bytenr r = Some b -> tree_at rn b c' ads' -> a ∈ ads' ->
       reserved a (sb_nodeSize sb) sm) /\
    (forall r b n, r ∈ cf -> extent_range r = Some (b, n) -> reserved b n sm).
Proof using HL Hrn Hwf Hns.
  intros Hn Hpos Hr Hc Hf Hx. destruct (seed_takes Hn Hpos) as (S0&T1&T2&T3).
  destruct (reserveTreeNodes_tree _ _ _ (seed sb) Hr (proj1 S0)) as (s1&E1&S1&R1).
  destruct (reserveTreeNodes_tree _ _ _ s1 Hc (proj1 S1)) as (s2&E2&S2&R2).
  destruct (reserveTreeNodes_tree _ _ _ s2 Hf (proj1 S2)) as (s3&E3&S3&R3).
  destruct (reserveRoots_tree _ _ s3 Hr (proj1 S3)) as (s4&E4&S4&R4).
  destruct (reserveDataExtents_tree _ _ _ s4 Hf Hx (proj1 S4)) as (s5&E5&S5&R5).
  pose proof (shrinks_trans _ _ _ S4 S5) as S35. pose proof (shrinks_trans _ _ _ S3 S35) as S25.
  pose proof (shrinks_trans _ _ _ S2 S25) as S15. pose proof (shrinks_trans _ _ _ S1 S15) as S05.
  exists s5. split_and!.
  - unfold buildSpaceManager, reserve_all.
    rewrite (then_shrinks _ _ _ _ E1), (then_shrinks _ _ _ _ E2), (then_shrinks _ _ _ _ E3), (then_shrinks _ _ _ _ E4).
    by rewrite E5.
  - apply S5.
  - intros p Hp. apply cov_seed. destruct (shrinks_trans _ _ _ S0 S05) as [_ Hle]. specialize (Hle p).
    unfold is_free in Hp. cbn [sm_freeExts] in Hle. lia.
  - by eapply taken_shrinks.
  - by eapply taken_shrinks.
  - by eapply taken_shrinks.
  - intros a Ha phys Ep. rewrite !elem_of_app in Ha. destruct Ha as [Ha|[Ha|Ha]].
    + eapply taken_shrinks; [exact S15|]. by apply (R1 a).
    + eapply taken_shrinks; [exact S25|]. by apply (R2 a).
    + eapply taken_shrinks; [exact S35|]. by apply (R3 a).
  - intros r b c' ads' a Hin Hb Ht Ha phys Ep. eapply taken_shrinks; [exact S5|]. by eapply (R4 r b c' ads' a).
  - exact R5.
Qed.

(** C26. The allocator never starts out owning live data.  On an image whose
    chunk map has no overlaps and whose root, chunk and FS trees are on disk,
    building the space manager succeeds; the free list is well formed and lies
    inside the data and metadata chunks; and no byte of it belongs to the regions of
    one node size at 0, at 64 KiB (the superblock) and at 64 MiB (its first mirror), to a
    node of the root, chunk or FS tree, to a node of any tree a ROOT_ITEM points at, or
    to the data of a regular extent of the FS tree.  The mirror at 256 GiB is not among
    them ([second_mirror_free]). *)
Theorem buildSpaceManager_reserves fsRoot cr adsr cc adsc cf adsf :
  NoDup (sb_sysChunks sb) -> (forall m, m ∈ sb_sysChunks sb -> 0 < cm_size m) ->
  tree_at rn (sb_rootLogAddr sb) cr adsr -> tree_at rn (sb_chunkLogAddr sb) cc adsc ->
  tree_at rn fsRoot cf adsf -> extents_no_wrap cf ->
  exists sm, buildSpaceManager rn sb fsRoot = Ok sm /\ sm_wf sm /\
    (forall p, is_free sm p -> exists m, m ∈ sb_sysChunks sb /\ system_only m = false /\
       cm_physStart m <= p < cm_physStart m + cm_size m) /\
    taken 0 (sb_nodeSize sb) sm /\ taken 0x10000 (sb_nodeSize sb) sm /\ taken 0x4000000 (sb_nodeSize sb) sm /\
    (forall a, a ∈ adsr ++ adsc ++ adsf -> reserved a (sb_nodeSize sb) sm) /\
    (forall r b c' ads' a, r ∈ cr -> root_bytenr r = Some b -> tree_at rn b c' ads' -> a ∈ ads' ->
       reserved a (sb_nodeSize sb) sm) /\
    (forall r b n, r ∈ cf -> extent_range r = Some (b, n) -> reserved b n sm).
Proof using HL Hrn Hwf Hns. apply buildSpaceManager_spec. Qed.
End Reserved.

(** ** Examples *)

(** A chunk that reaches over the superblock mirror at 256 GiB: the mirror is free space. *)
Example second_mirror_free :
  let sb := Superblock 16384 4096 16384 4096 (2 ^ 40) 0x500000 0x500000 7 1 (zeros 16) (zeros 256)
    [ChunkMapping 0x500000 (2 ^ 39) 0x500000 0 blockGroupData 0x10000 1 [ChunkStripe 1 0x500000]] in
  forall p, 0x4000000000 <= p < 0x4000000000 + 4096 -> is_free (seed sb) p.
Proof.
  cbv zeta. intros p Hp. unfold is_free. set (l := sm_freeExts _). assert (El : l = [FreeExtent 0x500000 0x3B00000; FreeExtent 0x4004000 (2 ^ 39 - 0x3B04000)]) by (vm_compute; reflexivity).
  rewrite El, !cov_cons, cov_nil. cbn [fe_physStart fe_size]. destruct (inr_spec 0x500000 0x3B00000 p) as [[? ->]|[? ->]],
    (inr_spec 0x4004000 (2 ^ 39 - 0x3B04000) p) as [[? ->]|[? ->]]; lia.
Qed.
Definition ex_leaf_of (size : Z) (items : list rec) : bytes :=
  foldl (fun b r => match leafInsertItem b r.1 r.2 with Ok b => b | _ => [] end) (zeros size) items.

(** A chunk item of one stripe on device 1. *)
Definition ex_chunk_item (size type phys : Z) : bytes :=
  let b := wr 8 (zeros (chunkHeaderSize + chunkStripeSize)) chunkSize size in
  let b := wr 8 (wr 8 b chunkType type) chunkStripeLen 0x10000 in
  let b := wr 2 (wr 2 b chunkNumStripes 1) chunkSubStripes 1 in
  wr 8 (wr 8 b chunkHeaderSize 1) (chunkHeaderSize + 8) phys.

(** A 64 MiB image with a system chunk and a data and metadata chunk. *)
Definition ex_boot : superblock :=
  Superblock 512 512 512 512 0x4000000 0x1001000 0x100200 7 1 (zeros 16) (zeros 256)
    [ChunkMapping 0x100000 0x400000 0x200000 0 0x02 0x10000 1 [ChunkStripe 1 0x200000]].
Definition ex_chunk_items : list rec :=
  [(Key 256 0xE4 0x100000, ex_chunk_item 0x400000 0x02 0x200000);
   (Key 256 0xE4 0x1000000, ex_chunk_item 0x800000 0x05 0x800000)].
Definition ex_chunk_leaf : bytes := ex_leaf_of 512 ex_chunk_items.

Definition ex_root_items : list rec := [(Key 4 typeRootItem 0, wr 8 (zeros 0xB8) 0xB0 0x1003000)].
Definition ex_extent : bytes :=
  le_enc 8 7 ++ le_enc 8 4096 ++ le_enc 4 0 ++ le_enc 1 extentDataRegular ++
  le_enc 8 0x1010000 ++ le_enc 8 4096 ++ le_enc 8 0 ++ le_enc 8 4096.
Definition ex_fs_items : list rec := [(Key 257 typeExtentData 0, ex_extent)].

(** The device: the nodes at their physical addresses, zeros elsewhere. *)
Definition ex_disk (off n : Z) : outcome bytes :=
  if n <? 0 then Panic else
  if (off =? 0x200200) && (n =? 512) then Ok ex_chunk_leaf
  else if (off =? 0x801000) && (n =? 512) then Ok (ex_leaf_of 512 ex_root_items)
  else if (off =? 0x802000) && (n =? 512) then Ok (ex_leaf_of 512 ex_fs_items)
  else Ok (zeros n).

Definition ex_mount_pool : devicePool := newDevicePool ex_disk 0 ex_boot.

Lemma ex_disk_safe : backend_safe ex_disk.
Proof.
  intros off n Hn. unfold ex_disk. rewrite (proj2 (Z.ltb_ge n 0)) by lia.
  repeat case_if; subst; cbn [fills safe_with]; [vm_compute; reflexivity..|by apply blen_zeros].
Qed.

Lemma loadChunkTree_correct_witness :
  exists sb', loadChunkTree (H := listSafeIO) ex_mount_pool 0 ex_boot = (sb', Ok tt) /\
    sb_sysChunks sb' =
      foldl add_mapping (sb_sysChunks ex_boot) (omap (chunk_of (sb_devID ex_boot)) ex_chunk_items) /\
    (exists l, sb' = set_sysChunks ex_boot (sb_sysChunks ex_boot ++ l)) /\
    (forall r m, r ∈ ex_chunk_items -> chunk_of (sb_devID ex_boot) r = Some m -> hasChunkMapping sb' m = true) /\
    (NoDup (map map_id (sb_sysChunks ex_boot)) -> NoDup (map map_id (sb_sysChunks sb'))).
Proof.
  apply (loadChunkTree_correct (H := listSafeIO) ex_mount_pool 0 ex_boot ltac:(lia) eq_refl 0 ex_chunk_items [0x100200]).
  - exists ex_chunk_leaf. split_and!; [vm_compute; reflexivity| |repeat constructor|reflexivity].
    repeat split; vm_compute; first [reflexivity|discriminate].
  - apply NoDup_singleton.
  - vm_compute. discriminate.
  - vm_compute. discriminate.
Defined.

(** A partition parser that finds no table. *)
#[local] Instance bareGpt : Gpt := {|
  gpt_ByIndex _ _ _ := GptNoTable;
  gpt_List _ _ := GptNoTable;
  LinuxFilesystemGUID := zeros 16;
|}.

Lemma OpenFromDevices_total_witness :
  safe_with (OpenFromDevices (H := listSafeIO) [Device ex_disk (Some 0x4000000)] (-1)) (fun fs =>
    sb_ok (fs_sb fs) /\ pool_safe (fs_pool fs) /\ dp_sb (fs_pool fs) = Some (fs_sb fs) /\
    sm_nodeSize (fs_sm fs) = sb_nodeSize (fs_sb fs) /\
    forall a, safe_with (readNodeUncached (H := listSafeIO) (pool_ReadAt (fs_pool fs)) (fs_partOffset fs) (fs_sb fs) a)
                (fun buf => nodeHdrSize <= blen buf)).
Proof.
  apply (OpenFromDevices_total (H := listSafeIO) [Device ex_disk (Some 0x4000000)] (-1)).
  apply Forall_singleton. exact ex_disk_safe.
Defined.

Definition ex_loaded : superblock :=
  set_sysChunks ex_boot
    [ChunkMapping 0x100000 0x400000 0x200000 0 0x02 0x10000 1 [ChunkStripe 1 0x200000];
     ChunkMapping 0x1000000 0x800000 0x800000 0 0x05 0x10000 1 [ChunkStripe 1 0x800000]].
Definition ex_node (a : Z) : outcome bytes :=
  if a =? 0x100200 then Ok ex_chunk_leaf
  else if a =? 0x1001000 then Ok (ex_leaf_of 512 ex_root_items)
  else if a =? 0x1002000 then Ok (ex_leaf_of 512 ex_fs_items)
  else Ok (zeros 512).

Lemma ex_node_safe a : safe_with (ex_node a) (fun buf => nodeHdrSize <= blen buf).
Proof. unfold ex_node. repeat case_if; vm_compute; discriminate. Qed.

Lemma ex_loaded_wf : chunk_map_wf (sb_sysChunks ex_loaded).
Proof.
  split.
  - intros m. cbn [sb_sysChunks ex_loaded set_sysChunks]. rewrite !elem_of_cons, elem_of_nil.
    intros [->|[->|[]]]; cbn; lia.
  - intros m m'. cbn [sb_sysChunks ex_loaded set_sysChunks]. rewrite !elem_of_cons, !elem_of_nil. unfold disjoint_ranges.
    intros [->|[->|[]]] [->|[->|[]]]; first [left; reflexivity|right; cbn; lia].
Qed.

Lemma ex_tree_at a items :
  ex_node a = Ok (ex_leaf_of 512 items) -> leaf_repr (ex_leaf_of 512 items) items -> keys_sorted items ->
  tree_at ex_node a items [a].
Proof.
  intros E Hl Hs. exists 0%nat. split_and!; [by exists (ex_leaf_of 512 items)|apply NoDup_singleton|
    vm_compute; discriminate|vm_compute; discriminate].
Qed.

Lemma ex_extent_range : extent_range (Key 257 typeExtentData 0, ex_extent) = Some (0x1010000, 4096).
Proof. vm_compute. reflexivity. Qed.
Lemma ex_extent_phys : logToPhys ex_loaded 0x1010000 = Ok 0x810000.
Proof. vm_compute. reflexivity. Qed.

Lemma ex_no_wrap : extents_no_wrap ex_loaded ex_fs_items.
Proof.
  apply Forall_singleton. rewrite ex_extent_range. split; [lia|]. intros phys Ep.
  rewrite ex_extent_phys in Ep. injection Ep as <-. lia.
Qed.

Lemma ex_trees :
  tree_at ex_node 0x1001000 ex_root_items [0x1001000] /\ tree_at ex_node 0x100200 ex_chunk_items [0x100200] /\
  tree_at ex_node 0x1002000 ex_fs_items [0x1002000].
Proof.
  split_and!; (apply ex_tree_at; [vm_compute; reflexivity| |repeat constructor]);
    repeat split; vm_compute; first [reflexivity|discriminate].
Qed.

Lemma buildSpaceManager_reserves_witness :
  exists sm, buildSpaceManager (H := listSafeIO) ex_node ex_loaded 0x1002000 = Ok sm /\ sm_wf sm /\
    ~ is_free sm 0x810123.
Proof.
  destruct (buildSpaceManager_reserves (H := listSafeIO) ex_node ex_loaded ex_node_safe ex_loaded_wf
    ltac:(vm_compute; split; [reflexivity|discriminate]) 0x1002000 ex_root_items [0x1001000]
    ex_chunk_items [0x100200] ex_fs_items [0x1002000]) as (sm&E&Hw&_&_&_&_&_&_&Hx).
  - repeat constructor; vm_compute; [intros [E|E]%elem_of_cons; [discriminate E|by apply not_elem_of_nil in E]|apply not_elem_of_nil].
  - intros m. cbn [sb_sysChunks ex_loaded set_sysChunks]. rewrite !elem_of_cons, elem_of_nil.
    intros [->|[->|[]]]; cbn; lia.
  - apply ex_trees.
  - apply ex_trees.
  - apply ex_trees.
  - exact ex_no_wrap.
  - exists sm. split_and!; [exact E|exact Hw|].
    refine (Hx (Key 257 typeExtentData 0, ex_extent) 0x1010000 4096 _ _ 0x810000 _ 0x810123 _);
      [by left|exact ex_extent_range|exact ex_extent_phys|lia].
Defined.

(** A hostile extent length breaks the free list.  The length of an extent
    item is taken from the image unchecked, and its end is computed modulo
    2^64: for an extent whose end wraps to an address inside the chunk before its
    start, the reservation during the mount leaves two free extents that overlap, so the
    allocator can hand out the same block twice. *)
Theorem wrapping_extent_double_frees :
  let d := wr 8 ex_extent extDataOffDiskNumBytes (2 ^ 64 - 0x8000) in
  let sm := (reserve_extent ex_loaded (Key 257 typeExtentData 0, d) (seed ex_loaded)).1 in
  sm_freeExts (seed ex_loaded) = [FreeExtent 0x800000 0x800000] /\
  sm_freeExts sm = [FreeExtent 0x800000 0x10000; FreeExtent 0x808000 0x7F8000] /\
  cov (sm_freeExts sm) 0x809000 = 2.
Proof. vm_compute. split_and!; reflexivity. Qed.

(** A chunk without a stripe on the opened device is seeded as free space at
    physical address 0 of that device, over whatever is stored there. *)
Theorem absent_chunk_seeds_zero :
  let m := ChunkMapping 0x2000000 0x800000 0 (-1) 0x01 0x10000 1 [ChunkStripe 2 0x900000] in
  decode_chunk 0x2000000 1 (wr 8 (ex_chunk_item 0x800000 0x01 0x900000) chunkHeaderSize 2) = Ok m /\
  seed_chunks [m] = [FreeExtent 0 0x800000] /\
  is_free (seed (set_sysChunks ex_loaded (sb_sysChunks ex_loaded ++ [m]))) 0x201000.
Proof. vm_compute. split_and!; reflexivity. Qed.
