(* ===== verification/Pool.v ===== *)
(** * The device pool as a device (multidev.go)

    The pool with the backends it holds: every backend has an identity, the map of devices
    leads from device numbers to identities, and several numbers can lead to one backend.
    Reads are routed as in MultiDev; writes and the rest go to the primary.  Over one
    device whose chunks lie at their logical addresses the pool is a device like the one
    it holds, which is what the theorems on writes ask for. *)
From Stdlib Require Import ZArith Lia Strings.Byte.
From stdpp Require Import base option list numbers sorting gmap.
From S2P Require Import Prelude Bytes Alloc Layout SafeIO Chunk MultiDev Node BTree Walk Split Crc32c Cow Store.
From S2P Require Import CowCorrect CowExamples Codec Read FileRead Mount.
Local Open Scope Z_scope.
Local Open Scope btrfs_scope.

(** The methods of a backend besides [ReadAt] and [WriteAt]. *)
Class BackendOps (D : Type) := {
  bb_Sync : D -> D * outcome unit;
  bb_Size : D -> outcome Z;
  bb_Truncate : D -> Z -> D * outcome unit;
  bb_Close : D -> D * outcome unit;
}.

Record pool (D : Type) := Pool {
  pl_partOff : Z;
  pl_backends : nat -> D;
  pl_devices : gmap Z nat;
  pl_sb : option superblock;
  pl_primary : nat }.
Arguments Pool {D}.
Arguments pl_partOff {D}.
Arguments pl_backends {D}.
Arguments pl_devices {D}.
Arguments pl_sb {D}.
Arguments pl_primary {D}.

Section Pool.
Context {D : Type} `{RW : ReaderWriterAt D} `{BO : BackendOps D}.

Definition set_backend (p : pool D) (h : nat) (d : D) : pool D :=
  Pool (pl_partOff p) (fun h' => if Nat.eqb h' h then d else pl_backends p h') (pl_devices p) (pl_sb p) (pl_primary p).
Definition primary (p : pool D) : D := pl_backends p (pl_primary p).
(** A method of the primary that can change it. *)
Definition on_primary {A} (f : D -> D * outcome A) (p : pool D) : pool D * outcome A :=
  let '(d, r) := f (primary p) in (set_backend p (pl_primary p) d, r).

(** The pool of MultiDev that reads are routed through. *)
Definition routed (p : pool D) : devicePool :=
  DevicePool (pl_partOff p) ((fun h => ReadAt (pl_backends p h)) <$> pl_devices p) (pl_sb p) (ReadAt (primary p)).

Definition pool_new (backends : nat -> D) (primary : nat) (partOff : Z) (sb : superblock) : pool D :=
  let devs : gmap Z nat := {[ sb_devID sb := primary ]} in
  let devs := if sb_devID sb =? 0 then <[1 := primary]> devs else devs in
  Pool partOff backends devs (Some sb) primary.
Definition pool_addDevice (p : pool D) (devID : Z) (dev : nat) : pool D :=
  Pool (pl_partOff p) (pl_backends p) (<[devID := dev]> (pl_devices p)) (pl_sb p) (pl_primary p).

Definition pool_read (p : pool D) (off n : Z) : outcome bytes := pool_ReadAt (routed p) off n.
Definition pool_WriteAt (off : Z) (buf : bytes) : pool D -> pool D * outcome unit := on_primary (fun d => WriteAt d off buf).
Definition pool_Sync : pool D -> pool D * outcome unit := on_primary bb_Sync.
Definition pool_Size (p : pool D) : outcome Z := bb_Size (primary p).
Definition pool_Truncate (s : Z) : pool D -> pool D * outcome unit := on_primary (fun d => bb_Truncate d s).

(** [Close] ranges over the map in some order, and closes each backend at its first
    occurrence. *)
Fixpoint close_loop (devs : list nat) (seen : gset nat) (firstErr : option error) (p : pool D) : pool D * option error :=
  match devs with
  | [] => (p, firstErr)
  | dev :: devs =>
      if decide (dev ∈ seen) then close_loop devs seen firstErr p else
      let '(d, r) := bb_Close (pl_backends p dev) in
      let firstErr := match r, firstErr with Err e, None => Some e | _, _ => firstErr end in
      close_loop devs ({[dev]} ∪ seen) firstErr (set_backend p dev d)
  end.
Definition pool_Close (range : gmap Z nat -> list (Z * nat)) (p : pool D) : pool D * option error :=
  close_loop (map snd (range (pl_devices p))) ∅ None p.

(** ** Closing *)
Lemma set_backend_eq p h d : pl_backends (set_backend p h d) h = d.
Proof. cbn. by rewrite Nat.eqb_refl. Qed.
Lemma set_backend_ne p h d h' : h' <> h -> pl_backends (set_backend p h d) h' = pl_backends p h'.
Proof. intros Hne. cbn. by rewrite (proj2 (Nat.eqb_neq _ _) Hne). Qed.

Lemma close_loop_spec devs seen fe p :
  let r := close_loop devs seen fe p in
  (forall h, pl_backends r.1 h = (if decide (h ∈ devs /\ h ∉ seen) then (bb_Close (pl_backends p h)).1 else pl_backends p h)) /\
  (r.2 = None <-> (fe = None /\ forall h, h ∈ devs -> h ∉ seen -> forall e, (bb_Close (pl_backends p h)).2 <> Err e)) /\
  (forall e, r.2 = Some e -> fe = Some e \/ exists h, h ∈ devs /\ h ∉ seen /\ (bb_Close (pl_backends p h)).2 = Err e).
Proof.
  revert seen fe p. induction devs as [|dev devs IH]; intros seen fe p; cbn [close_loop]; cbv zeta; cbn [fst snd].
  - split_and!.
    + intros h. rewrite decide_False; [done|]. intros [Hx _]. by apply not_elem_of_nil in Hx.
    + split; [intros ->; split; [done|]; intros h Hx; by apply not_elem_of_nil in Hx|by intros [-> _]].
    + intros e ->. by left.
  - destruct (decide (dev ∈ seen)) as [Hs|Hs].
    + destruct (IH seen fe p) as (H1&H2&H3). cbv zeta in *. split_and!.
      * intros h. rewrite H1. apply decide_ext. rewrite elem_of_cons. split; [tauto|]. intros [[->|?] ?]; tauto.
      * rewrite H2. split; intros [Hf Hx]; (split; [done|]); intros h Hh; [apply elem_of_cons in Hh as [->|Hh]; [tauto|by apply Hx]|].
        apply Hx. by right.
      * intros e He. destruct (H3 e He) as [?|(h&?&?&?)]; [by left|right]. exists h. rewrite elem_of_cons. tauto.
    + destruct (bb_Close (pl_backends p dev)) as [d r] eqn:Ed.
      set (fe' := match r, fe with Err e, None => Some e | _, _ => fe end). set (p' := set_backend p dev d).
      assert (Hb : forall h, h ∉ {[dev]} ∪ seen -> pl_backends p' h = pl_backends p h).
      { intros h Hh. apply set_backend_ne. intros ->. apply Hh. set_solver. }
      destruct (IH ({[dev]} ∪ seen) fe' p') as (H1&H2&H3). cbv zeta in *. split_and!.
      * intros h. rewrite H1. destruct (decide (h = dev)) as [->|Hne].
        -- rewrite decide_False by set_solver. rewrite decide_True by (split; [by left|done]). unfold p'. by rewrite set_backend_eq, Ed.
        -- unfold p'. rewrite set_backend_ne by done. apply decide_ext. rewrite elem_of_cons. set_solver.
      * rewrite H2. assert (Hfe : fe' = None <-> (fe = None /\ forall e, r <> Err e)).
        { unfold fe'. destruct r as [u|e| |], fe as [e'|]; naive_solver. }
        rewrite Hfe. split.
        -- intros [[Hf Hr] Hx]. split; [done|]. intros h Hh Hn. apply elem_of_cons in Hh as [->|Hh]; [by rewrite Ed|].
           destruct (decide (h = dev)) as [->|Hne]; [by rewrite Ed|]. rewrite <- Hb by set_solver. apply Hx; [done|set_solver].
        -- intros [Hf Hx]. split; [split; [done|]|].
           ++ specialize (Hx dev ltac:(by left) Hs). by rewrite Ed in Hx.
           ++ intros h Hh Hn. rewrite Hb by done. apply Hx; [by right|set_solver].
      * intros e He. destruct (H3 e He) as [Hf|(h&Hh&Hn&Eh)].
        -- unfold fe' in Hf. destruct r as [u|e'| |], fe as [e''|]; try (by left); try done. injection Hf as ->.
           right. exists dev. rewrite Ed. split_and!; [by left|done|done].
        -- right. exists h. rewrite Hb in Eh by done. split_and!; [by right|set_solver|done].
Qed.

(** [Close] of the pool: every backend that a device number leads to is closed exactly
    once, whatever the order of the map and however many numbers lead to it, and no other
    is touched; the call fails exactly when the closing of one of them does, with the error
    of one that failed. *)
Theorem pool_Close_once (range : gmap Z nat -> list (Z * nat)) (p : pool D) :
  (forall m, range m ≡ₚ map_to_list m) ->
  let registered h := exists devID, pl_devices p !! devID = Some h in
  let r := pool_Close range p in
  (forall h, registered h -> pl_backends r.1 h = (bb_Close (pl_backends p h)).1) /\
  (forall h, ~ registered h -> pl_backends r.1 h = pl_backends p h) /\
  (r.2 = None <-> (forall h, registered h -> forall e, (bb_Close (pl_backends p h)).2 <> Err e)) /\
  (forall e, r.2 = Some e -> exists h, registered h /\ (bb_Close (pl_backends p h)).2 = Err e).
Proof.
  intros Hrange registered r.
  assert (Hin : forall h, h ∈ map snd (range (pl_devices p)) <-> registered h).
  { intros h. rewrite list_elem_of_fmap. unfold registered. setoid_rewrite (Hrange (pl_devices p)). split.
    - intros ([k x]&->&Hk). apply elem_of_map_to_list in Hk. by exists k.
    - intros [k Hk]. exists (k, h). split; [done|]. by apply elem_of_map_to_list. }
  destruct (close_loop_spec (map snd (range (pl_devices p))) ∅ None p) as (H1&H2&H3). fold (pool_Close range p) in H1, H2, H3. cbv zeta in H1, H2, H3. unfold r. clear r. split_and!.
  - intros h Hh. rewrite H1. rewrite decide_True; [done|]. split; [by apply Hin|apply not_elem_of_empty].
  - intros h Hh. rewrite H1. rewrite decide_False; [done|]. rewrite Hin. tauto.
  - rewrite H2. split; [intros [_ Hx] h Hh; apply Hx; [by apply Hin|apply not_elem_of_empty]|].
    intros Hx. split; [done|]. intros h Hh _. apply Hx. by apply Hin.
  - intros e He. destruct (H3 e He) as [?|(h&Hh&_&Eh)]; [done|]. exists h. split; [by apply Hin|done].
Qed.
End Pool.

(** ** A pool over one device *)

(** Every chunk lies on the device, at its logical address, in one copy. *)
Definition flat_single (partOff : Z) (sb : superblock) : Prop :=
  0 <= partOff /\ Forall (fun m => mirrored m = true /\ cm_localStripeIdx m = 0 /\ cm_stripes m = [ChunkStripe (sb_devID sb) (cm_logStart m)] /\
    0 <= cm_logStart m /\ 0 <= cm_size m /\ partOff + cm_logStart m + cm_size m < 2 ^ 63) (sb_sysChunks sb).
Definition is_i64 (z : Z) : Prop := - 2 ^ 63 <= z < 2 ^ 63.
(** A failed read of a mapped address is reported as a failure of all copies. *)
Definition relabel (o : outcome bytes) : outcome bytes := match o with Err _ => Err ErrOther | o => o end.

Lemma readFromChunk_mirrored rec p n a c : mirrored c = true -> readFromChunk rec p n a c = readSingleOrMirror p n a c.
Proof.
  unfold mirrored, readFromChunk. set (pr := Z.land (cm_profile c) blockGroupProfileMask). intros H. apply orb_true_iff in H as [->| ->]; [done|].
  by destruct (_ || _).
Qed.

Section Single.
Context {D : Type} `{RW : ReaderWriterAt D} (partOff : Z) (sb : superblock) (Hflat : flat_single partOff sb).

Lemma newDevicePool_own f : dp_devices (newDevicePool f partOff sb) !! sb_devID sb = Some f.
Proof using.
  unfold newDevicePool. cbn [dp_devices]. case_if; [|by apply lookup_singleton_Some]. bool_prop. rewrite lookup_insert_ne by lia. by apply lookup_singleton_Some.
Qed.

Lemma read_own_stripe rec f n a m phys :
  mirrored m = true -> cm_localStripeIdx m = 0 -> cm_stripes m = [ChunkStripe (sb_devID sb) phys] ->
  readFromChunk rec (newDevicePool f partOff sb) n a m = relabel (f (i64 (partOff + i64 (phys +₆₄ (a -₆₄ cm_logStart m)))) n).
Proof using.
  intros Hm Hi Hs. rewrite readFromChunk_mirrored by done. unfold readSingleOrMirror. rewrite Hi, Hs.
  change ([ChunkStripe (sb_devID sb) phys] !! Z.to_nat 0) with (Some (ChunkStripe (sb_devID sb) phys)).
  cbn [length]. change ((0 <=? 0) && (0 <? Z.of_nat 1)) with true. cbv match. unfold tryStripe. cbn [cs_devID cs_offset].
  rewrite newDevicePool_own. cbn [newDevicePool dp_partOff mirror_loop]. change (0 =? 0) with true. cbv match. by destruct (f _ n).
Qed.

Lemma pool_read_single f off n : is_i64 off ->
  pool_ReadAt (newDevicePool f partOff sb) off n =
  match lookupChunk sb (u64 (off - partOff)) with Ok _ => relabel (f off n) | _ => f off n end.
Proof using Hflat.
  intros Hoff. destruct Hflat as [Hp Hch]. unfold pool_ReadAt. cbn [pool_ReadAt_loop].
  change (dp_sb (newDevicePool f partOff sb)) with (Some sb). change (dp_partOff (newDevicePool f partOff sb)) with partOff.
  change (dp_primary (newDevicePool f partOff sb)) with f. cbv iota zeta. unfold lookupChunk.
  destruct (List.find _ _) as [m|] eqn:Ef; [|done]. apply find_some in Ef as [Hm Hin]. apply list_elem_of_In in Hm.
  rewrite Forall_forall in Hch. destruct (Hch m Hm) as (Hmir&Hi&Hs&Hl1&Hl2&Hl3).
  unfold in_chunk in Hin. unfold is_i64 in Hoff. rewrite (u64_small (cm_logStart m + cm_size m)) in Hin by (unfold is_u64; lia).
  apply andb_true_iff in Hin as [H1%Z.leb_le H2%Z.ltb_lt].
  assert (Ea : u64 (off - partOff) = off - partOff).
  { destruct (Z_lt_le_dec (off - partOff) 0) as [Hneg|Hpos]; [|apply u64_small; unfold is_u64; lia]. exfalso.
    assert (E : u64 (off - partOff) = off - partOff + 2 ^ 64); [|lia].
    unfold u64. rewrite <- (Z_mod_plus_full (off - partOff) 1 (2 ^ 64)), Z.mul_1_l. apply Z.mod_small. lia. }
  rewrite Ea in *. rewrite (read_own_stripe _ f n _ m (cm_logStart m)) by done.
  rewrite (u64_small (off - partOff - cm_logStart m)) by (unfold is_u64; lia). replace (cm_logStart m + (off - partOff - cm_logStart m)) with (off - partOff) by lia.
  rewrite u64_small by (unfold is_u64; lia). rewrite !i64_small by (rewrite ?i64_small; lia). by replace (partOff + (off - partOff)) with off by lia.
Qed.

(** The pool over the device, as a device. *)
Definition PoolRW : ReaderWriterAt D := {|
  ReadAt d off n := if decide (is_i64 off) then pool_ReadAt (newDevicePool (ReadAt d) partOff sb) off n else Err ErrOther;
  WriteAt d off b := WriteAt d off b |}.

Lemma PoolRW_read d off n : is_i64 off -> @ReadAt D PoolRW d off n =
  match lookupChunk sb (u64 (off - partOff)) with Ok _ => relabel (ReadAt d off n) | _ => ReadAt d off n end.
Proof using Hflat. intros Hoff. cbn. rewrite decide_True by done. by apply pool_read_single. Qed.

(** The laws of devices hold of the pool when they hold of the device. *)
#[local] Instance pool_laws `{RWL : !RWLaws D} : @RWLaws D PoolRW.
Proof using Hflat.
  unshelve eapply (@Build_RWLaws D PoolRW (fun d => Z.min (Store.dev_size d) (2 ^ 63 - 1))).
  - intros d off n b Hn. destruct (decide (is_i64 off)) as [Hoff|Hoff]; [|cbn; by rewrite decide_False].
    rewrite PoolRW_read by done. intros E. apply (ReadAt_blen d off n b Hn). destruct (lookupChunk _ _); try done. by destruct (ReadAt d off n).
  - intros d off n. destruct (decide (is_i64 off)) as [Hoff|Hoff]; [|cbn; by rewrite decide_False].
    rewrite PoolRW_read by done. pose proof (ReadAt_safe d off n) as Hs. destruct (lookupChunk _ _); try done. by destruct (ReadAt d off n).
  - cbv beta. intros d off b Ho Hb. assert (Hx : off + blen b <= Store.dev_size d) by lia. destruct (WriteAt_in d off b Ho Hx) as (d'&E&Hsz&Hr&Hf). exists d'. split_and!; [done|by rewrite Hsz| |].
    + rewrite PoolRW_read by (unfold is_i64; pose proof (blen_nonneg b); lia). rewrite Hr. by destruct (lookupChunk _ _).
    + intros off' n Hn Hd. destruct (decide (is_i64 off')) as [Hoff|Hoff]; [|cbn; by rewrite !decide_False].
      rewrite !PoolRW_read by done. by rewrite Hf.
Defined.
End Single.

(** C35. A pool over one device whose chunks lie at their logical addresses is a device like it:
    a read of the pool is the read of the device at that offset, a write reaches it, and what
    was written is read back while other ranges stay. *)
Theorem pool_over_flat_device {D : Type} `{RWL : RWLaws D} (partOff : Z) (sb : superblock) (backends : nat -> D) (h : nat) :
  flat_single partOff sb ->
  let p := pool_new backends h partOff sb in
  (forall off n b, is_i64 off -> pool_read p off n = Ok b <-> ReadAt (backends h) off n = Ok b) /\
  forall off buf, 0 <= off -> off + blen buf <= Store.dev_size (backends h) < 2 ^ 63 ->
    exists d, pool_WriteAt off buf p = (set_backend p h d, Ok tt) /\ pool_read (set_backend p h d) off (blen buf) = Ok buf /\
      forall off' n, is_i64 off' -> 0 <= n -> off' + n <= off \/ off + blen buf <= off' -> pool_read (set_backend p h d) off' n = pool_read p off' n.
Proof.
  intros Hflat p.
  assert (Hread : forall bk, bk h = primary (Pool partOff bk (pl_devices p) (pl_sb p) h) ->
    forall off n, is_i64 off -> pool_read (Pool partOff bk (pl_devices p) (pl_sb p) h) off n =
    match lookupChunk sb (u64 (off - partOff)) with Ok _ => relabel (ReadAt (bk h) off n) | _ => ReadAt (bk h) off n end).
  { intros bk _ off n Hoff. rewrite <- (pool_read_single partOff sb Hflat (ReadAt (bk h)) off n Hoff). unfold pool_read. f_equal.
    unfold routed, newDevicePool, p, pool_new, primary. cbn [pl_partOff pl_devices pl_sb pl_primary pl_backends].
    f_equal. destruct (sb_devID sb =? 0); by rewrite ?fmap_insert, ?map_fmap_singleton. }
  pose proof (Hread backends eq_refl) as Hp. change (Pool partOff backends (pl_devices p) (pl_sb p) h) with p in Hp. split.
  - intros off n b Hoff. rewrite Hp by done.
    destruct (lookupChunk _ _); [|done..]. by destruct (ReadAt (backends h) off n).
  - intros off buf Ho Hb. destruct (WriteAt_in (backends h) off buf Ho (proj1 Hb)) as (d&E&_&Hr&Hf). exists d.
    assert (Hset : forall off' n, is_i64 off' -> pool_read (set_backend p h d) off' n =
      match lookupChunk sb (u64 (off' - partOff)) with Ok _ => relabel (ReadAt d off' n) | _ => ReadAt d off' n end).
    { intros off' n Hoff. unfold set_backend. cbn [pl_partOff pl_primary p pool_new]. fold p. rewrite Hread by done. by rewrite Nat.eqb_refl. }
    split_and!.
    + unfold pool_WriteAt, on_primary, primary. cbn [p pool_new pl_backends pl_primary]. by rewrite E.
    + rewrite Hset by (unfold is_i64; pose proof (blen_nonneg buf); lia). rewrite Hr. by destruct (lookupChunk _ _).
    + intros off' n Hoff Hn Hd. rewrite Hset, Hp by done. by rewrite Hf.
Qed.

Definition px_chunk : chunkMapping := ChunkMapping 0x10 0x20 0x10 0 0x4 0x10000 1 [ChunkStripe 1 0x10].
Definition px_sb : superblock := Superblock 1024 4096 1024 4096 0x40 0x10 0x10 7 1 (zeros 16) (zeros 256) [px_chunk].
Lemma pool_over_flat_device_witness :
  let p := pool_new (fun _ => zeros 64) 0 0 px_sb in
  exists d, pool_WriteAt 0x18 [x01] p = (set_backend p 0%nat d, Ok tt) /\ pool_read (set_backend p 0%nat d) 0x18 1 = Ok [x01] /\
    lookupChunk px_sb 0x18 = Ok px_chunk.
Proof.
  cbv zeta. destruct (pool_over_flat_device 0 px_sb (fun _ => zeros 64) 0%nat) as [_ Hw].
  { split; [done|]. repeat constructor; vm_compute; done. }
  destruct (Hw 0x18 [x01]) as (d&E&Hr&_); [lia|vm_compute; split; [discriminate|reflexivity]|].
  exists d. split; [exact E|split; [exact Hr|reflexivity]].
Defined.

(** Backends that fail to close when they are empty; two numbers lead to the first. *)
#[local] Instance memOps : BackendOps bytes := {|
  bb_Sync d := (d, Ok tt); bb_Size d := Ok (blen d);
  bb_Truncate d s := (take (Z.to_nat s) d, Ok tt);
  bb_Close d := match d with [] => (d, Err ErrOther) | _ => ([], Ok tt) end |}.
Lemma pool_Close_once_witness :
  let p := Pool 0 (fun _ => zeros 4) {[0 := 0%nat; 1 := 0%nat]} None 0 in
  (pool_Close map_to_list p).2 = None /\ pl_backends (pool_Close map_to_list p).1 0%nat = [].
Proof.
  cbv zeta. set (p := Pool _ _ _ _ _). destruct (pool_Close_once map_to_list p ltac:(done)) as (H1&_&H3&_). split.
  - apply H3. intros h _ e. cbn. discriminate.
  - rewrite H1; [reflexivity|]. exists 0. reflexivity.
Defined.

(** A write through the pool is not translated.  The address that [physAddr] gives for a
    logical address is the one a read of the pool takes; a write to it reaches the primary at
    that offset.  When the chunk lies elsewhere on the device, a read of the same address
    returns what it returned before the write. *)
Theorem pool_write_not_translated {D : Type} `{RWL : RWLaws D} (partOff : Z) (sb : superblock) (backends : nat -> D) (h : nat)
    (a : Z) (m : chunkMapping) (phys : Z) (buf : bytes) :
  let p := pool_new backends h partOff sb in
  0 <= partOff -> 0 <= cm_logStart m <= a -> 0 <= phys -> partOff + phys + (a - cm_logStart m) < 2 ^ 63 -> partOff + a < 2 ^ 63 ->
  lookupChunk sb a = Ok m -> mirrored m = true -> cm_localStripeIdx m = 0 -> cm_stripes m = [ChunkStripe (sb_devID sb) phys] ->
  partOff + a + blen buf <= Store.dev_size (backends h) ->
  a + blen buf <= phys + (a - cm_logStart m) \/ phys + (a - cm_logStart m) + blen buf <= a ->
  physAddr sb partOff a = Ok (partOff + a) /\
  exists d, pool_WriteAt (partOff + a) buf p = (set_backend p h d, Ok tt) /\
    pool_read (set_backend p h d) (partOff + a) (blen buf) = pool_read p (partOff + a) (blen buf).
Proof.
  intros p Hp Ha Hph Hb1 Hb2 El Hm Hi Hs Hsz Hdis. pose proof (blen_nonneg buf) as Hn.
  assert (Hread : forall bk, pool_read (Pool partOff bk (pl_devices p) (pl_sb p) h) (partOff + a) (blen buf) =
    relabel (ReadAt (bk h) (partOff + phys + (a - cm_logStart m)) (blen buf))).
  { intros bk. unfold pool_read. replace (routed _) with (newDevicePool (ReadAt (bk h)) partOff sb).
    2: { unfold routed, newDevicePool, p, pool_new, primary. cbn [pl_partOff pl_devices pl_sb pl_primary pl_backends].
         f_equal. destruct (sb_devID sb =? 0); by rewrite ?fmap_insert, ?map_fmap_singleton. }
    unfold pool_ReadAt. cbn [pool_ReadAt_loop]. change (dp_sb (newDevicePool (ReadAt (bk h)) partOff sb)) with (Some sb).
    change (dp_partOff (newDevicePool (ReadAt (bk h)) partOff sb)) with partOff. cbv iota zeta. replace (partOff + a - partOff) with a by lia.
    rewrite u64_small, El, (read_own_stripe partOff sb _ _ _ _ m phys) by (done || (unfold is_u64; lia)).
    rewrite (u64_small (a - cm_logStart m)) by (unfold is_u64; lia). rewrite u64_small by (unfold is_u64; lia).
    rewrite !i64_small by (rewrite ?i64_small; lia). by rewrite Z.add_assoc. }
  split; [unfold physAddr; rewrite El; cbn [mbind outcome_bind]; f_equal; rewrite !i64_small; rewrite ?i64_small; lia|].
  assert (H0 : 0 <= partOff + a) by lia. destruct (WriteAt_in (backends h) (partOff + a) buf H0 Hsz) as (d&E&_&_&Hf). exists d. split.
  - unfold pool_WriteAt, on_primary, primary. cbn [p pool_new pl_backends pl_primary]. by rewrite E.
  - unfold set_backend. cbn [pl_partOff pl_primary p pool_new]. fold p. rewrite Hread, Nat.eqb_refl.
    pose proof (Hread backends) as Hr. change (Pool partOff backends (pl_devices p) (pl_sb p) h) with p in Hr. rewrite Hr. rewrite Hf; [done|done|lia].
Qed.

(** A chunk at logical address 16 that lies at 32 on the device. *)
Definition py_chunk : chunkMapping := ChunkMapping 16 16 32 0 0x4 0x10000 1 [ChunkStripe 1 32].
Definition py_sb : superblock := Superblock 1024 4096 1024 4096 0x18000 0x11000 0x11000 7 1 (zeros 16) (zeros 256) [py_chunk].
Lemma pool_write_not_translated_witness :
  let p := pool_new (fun _ => zeros 64) 0 0 py_sb in
  exists d, pool_WriteAt 16 [x01] p = (set_backend p 0%nat d, Ok tt) /\ pool_read (set_backend p 0%nat d) 16 1 = Ok [x00].
Proof.
  cbv zeta. destruct (pool_write_not_translated 0 py_sb (fun _ => zeros 64) 0 16 py_chunk 32 [x01]) as [_ (d&E&Hr)];
    [lia|cbn; lia|lia|cbn; lia|lia|reflexivity|reflexivity|reflexivity|reflexivity|vm_compute; discriminate|left; vm_compute; discriminate|]. exists d. split; [exact E|]. etrans; [exact Hr|]. vm_compute. reflexivity.
Defined.
