(* ===== verification/Tx.v ===== *)
(** * The state of a write operation

    The Go functions of the write path are handed the device, the superblock, the
    space manager and the root of the FS tree, all of them mutable; [txState] is
    that state, with the number of times the clock has been read.  The node reads
    and copy-on-write calls of the other files become steps on it: [fs_insert] is
    [newRoot, err := cowInsert(...)] followed by the error check and
    [*fsTreeRoot = newRoot], and so on.

    [wp] is the weakest precondition of such a step: it separates success from a
    returned error and excludes panics and exhausted fuel. *)
From Stdlib Require Import ZArith Lia Strings.Byte.
From stdpp Require Import base option list numbers sorting gmap.
From S2P Require Import Prelude Bytes Alloc Layout SafeIO Chunk Node BTree Split Crc32c Cow Codec.
Local Open Scope Z_scope.
Local Open Scope btrfs_scope.

Record txState (D : Type) := TxState {
  tx_cow : cowState D; tx_sb : superblock; tx_root : Z; tx_tick : nat }.
Arguments TxState {D}.
Arguments tx_cow {D}.
Arguments tx_sb {D}.
Arguments tx_root {D}.
Arguments tx_tick {D}.

(** [time.Now().UTC()], one reading after the other. *)
Class Clock := clock_at : nat -> timespec.

(** Closures: a step beside a captured local variable, a step that updates it,
    and a walk whose error is dropped ([_ = walkLeaves(...)]) but whose effect on
    the variable stays. *)
Definition with_var {S A R} (m : SM S R) : SM (S * A) R := fun sa =>
  let '(s, r) := m sa.1 in ((s, sa.2), r).
Definition var_step {S A} (f : A -> SM S A) : SM (S * A) unit := fun sa =>
  let '(s, r) := f sa.2 sa.1 in
  match r with
  | Ok a => ((s, a), Ok tt)
  | Err e => ((s, sa.2), Err e)
  | Panic => ((s, sa.2), Panic)
  | NoFuel => ((s, sa.2), NoFuel)
  end.
Definition run_var {S A} (m : SM (S * A) unit) (a : A) : SM S A := fun s =>
  let '((s, a), r) := m (s, a) in
  (s, match r with Ok _ | Err _ => Ok a | Panic => Panic | NoFuel => NoFuel end).

Section Tx.
Context `{SafeIO} {D : Type} `{RW : ReaderWriterAt D} `{Clock} (partOff : Z).
Abbreviation T := (SM (txState D)).

(** A step of the device and the space manager under the current superblock. *)
Definition tx_lift {A} (f : superblock -> SM (cowState D) A) : T A := fun w =>
  let '(s, r) := f (tx_sb w) (tx_cow w) in (TxState s (tx_sb w) (tx_root w) (tx_tick w), r).
Definition set_root (root : Z) : T unit :=
  sm_modify (fun w => TxState (tx_cow w) (tx_sb w) root (tx_tick w)).
Definition set_sb (f : superblock -> superblock) : T unit :=
  sm_modify (fun w => TxState (tx_cow w) (f (tx_sb w)) (tx_root w) (tx_tick w)).
Definition Now : T timespec := fun w =>
  (TxState (tx_cow w) (tx_sb w) (tx_root w) (S (tx_tick w)), Ok (clock_at (tx_tick w))).

(** Reads of a tree. *)
Definition tx_search (root : Z) (k : key) : T (bytes * leafItem) :=
  tx_lift (fun sb => searchTree (node_read partOff sb) root (objID k) (typ k) (offset k)).
Definition fs_search (k : key) : T (bytes * leafItem) :=
  root ← sm_gets tx_root; tx_search root k.
Definition fs_prefix (o t : Z) : T (list rec) :=
  root ← sm_gets tx_root; tx_lift (fun sb => collectPrefixItems (node_read partOff sb) root o t).

(** [_ = walkLeaves(...)] with a closure that only updates a local variable. *)
Definition walk_var {A} (root : Z) (fn : bytes -> list leafItem -> A -> A) (a : A) : T A :=
  tx_lift (fun sb => run_var (walkLeaves (fun x => with_var (node_read partOff sb x)) root
    (fun buf items => var_step (fun a => mret (fn buf items a)))) a).

(** Mutations of the FS tree. *)
Definition fs_mutate (f : superblock -> Z -> SM (cowState D) Z) : T unit :=
  root ← sm_gets tx_root;
  newRoot ← tx_lift (fun sb => f sb root);
  set_root newRoot.
Definition fs_insert (k : key) (d : bytes) : T unit := fs_mutate (fun sb r => cowInsert partOff sb r k d).
Definition fs_update (k : key) (d : bytes) : T unit := fs_mutate (fun sb r => cowUpdate partOff sb r k d).
Definition fs_delete (k : key) : T unit := fs_mutate (fun sb r => cowDelete partOff sb r k).
Definition fs_delete_prefix (o t : Z) : T unit :=
  fs_mutate (fun sb r => cowDeletePrefix partOff sb r o t).

(** [if err != nil && !isNotFoundErr(err) { return err }] around a step. *)
Definition tolerate_missing (m : T unit) : T unit :=
  r ← sm_try m;
  match r with
  | Ok _ => mret tt
  | Err e => if is_not_found e then mret tt else sm_fail e
  | Panic => sm_lift Panic
  | NoFuel => sm_lift NoFuel
  end.

(** Data blocks. *)
Definition alloc_data (size : Z) : T (Z * Z) :=
  tx_lift (fun sb s => let '(sm, r) := allocDataBytes (st_sm s) size (sb_sectorSize sb) in
                       (CowState (st_dev s) sm, r)).
Definition alloc_data_up_to (size : Z) : T (Z * Z) :=
  tx_lift (fun sb s => let '(sm, r) := allocDataBytesUpTo (st_sm s) size (sb_sectorSize sb) in
                       (CowState (st_dev s) sm, r)).
Definition free_data (phys size : Z) : T unit :=
  tx_lift (fun _ s => (CowState (st_dev s) (freeRange (st_sm s) phys size), Ok tt)).
Definition dev_write (off : Z) (b : bytes) : T unit := tx_lift (fun _ => m_write off b).
Definition dev_read (off n : Z) : T bytes := tx_lift (fun _ s => (s, ReadAt (st_dev s) off n)).

(** [d := make([]byte, it.dataSize); copy(d, it.data(buf))] *)
Definition item_copy (buf : bytes) (it : leafItem) : bytes :=
  splice (zeros (it_dataSize it)) 0 (item_data it buf).
End Tx.

(** ** Weakest preconditions

    [X] is what holds when the step panics; most steps have [X := fun _ => False]. *)
Definition wp {S A} (X : S -> Prop) (m : SM S A) (s : S) (Q : A -> S -> Prop) (E : error -> S -> Prop) : Prop :=
  match m s with
  | (s', Ok a) => Q a s'
  | (s', Err e) => E e s'
  | (s', Panic) => X s'
  | (_, NoFuel) => False
  end.

Definition never {S} (_ : S) : Prop := False.

Section Wp.
Context {S : Type} (X : S -> Prop).

Lemma wp_bind {A B} (m : SM S A) (f : A -> SM S B) s Q E :
  wp X m s (fun a s' => wp X (f a) s' Q E) E -> wp X (m ≫= f) s Q E.
Proof. unfold wp, mbind, SM_bind. destruct (m s) as [s' [a|e| |]]; done. Qed.
Lemma wp_assoc {A B C} (m : SM S A) (f : A -> SM S B) (g : B -> SM S C) s Q E :
  wp X ((m ≫= f) ≫= g) s Q E -> wp X (m ≫= (fun a => f a ≫= g)) s Q E.
Proof using. unfold wp, mbind, SM_bind. destruct (m s) as [s1 [a|e| |]]; done. Qed.
Lemma wp_ret {A} (a : A) s (Q : A -> S -> Prop) E : Q a s -> wp X (mret a) s Q E.
Proof. done. Qed.
Lemma wp_lift {A} (o : outcome A) s (Q : A -> S -> Prop) (E : error -> S -> Prop) :
  match o with Ok a => Q a s | Err e => E e s | _ => False end -> wp X (sm_lift o) s Q E.
Proof. unfold wp, sm_lift. by destruct o. Qed.
Lemma wp_lift_ok {A} (o : outcome A) a s (Q : A -> S -> Prop) (E : error -> S -> Prop) :
  o = Ok a -> Q a s -> wp X (sm_lift o) s Q E.
Proof. by intros ->. Qed.
Lemma wp_fail {A} e s (Q : A -> S -> Prop) (E : error -> S -> Prop) : E e s -> wp X (sm_fail e) s Q E.
Proof. done. Qed.
Lemma wp_gets {A} (f : S -> A) s (Q : A -> S -> Prop) E : Q (f s) s -> wp X (sm_gets f) s Q E.
Proof. done. Qed.
Lemma wp_modify f s (Q : unit -> S -> Prop) E : Q tt (f s) -> wp X (sm_modify f) s Q E.
Proof. done. Qed.
Lemma wp_try {A} (m : SM S A) s (Q : outcome A -> S -> Prop) E :
  wp never m s (fun a => Q (Ok a)) (fun e => Q (Err e)) -> wp X (sm_try m) s Q E.
Proof. unfold wp, sm_try. destruct (m s) as [s' [a|e| |]]; done. Qed.
Lemma wp_mono {A} (m : SM S A) s (Q Q' : A -> S -> Prop) (E E' : error -> S -> Prop) :
  wp X m s Q E -> (forall a s', Q a s' -> Q' a s') -> (forall e s', E e s' -> E' e s') -> wp X m s Q' E'.
Proof. unfold wp. intros Hw HQ HE. destruct (m s) as [s' [a|e| |]]; auto. Qed.
Lemma wp_total {A} (m : SM S A) s (Q : A -> S -> Prop) (E : error -> S -> Prop) :
  wp never m s Q E -> wp X m s Q E.
Proof. unfold wp. by destruct (m s) as [s' [a|e| |]]. Qed.
Lemma wp_upto {A} (pan : Prop) (m : SM S A) s (G : A -> Prop) (Q : A -> S -> Prop) (E : error -> S -> Prop) :
  sm_upto pan (fun s' => s' = s) m G -> (pan -> X s) -> (forall a, G a -> Q a s) -> (forall e, E e s) -> wp X m s Q E.
Proof.
  intros Hm HX HQ HE. destruct (Hm s eq_refl) as [Es Ho]. unfold wp. destruct (m s) as [s' o]. cbn in *. subst s'.
  destruct o; auto.
Qed.
Lemma wp_eq {A} (m : SM S A) s s' o (Q : A -> S -> Prop) (E : error -> S -> Prop) :
  m s = (s', o) -> match o with Ok a => Q a s' | Err e => E e s' | _ => False end -> wp X m s Q E.
Proof. unfold wp. intros ->. by destruct o. Qed.
(** A step whose run the postconditions may name. *)
Lemma wp_run {A} (m : SM S A) s (Q : A -> S -> Prop) (E : error -> S -> Prop) :
  wp X m s (fun a s' => m s = (s', Ok a) -> Q a s') (fun e s' => m s = (s', Err e) -> E e s') -> wp X m s Q E.
Proof. unfold wp. destruct (m s) as [s' [a|e| |]]; auto. Qed.
End Wp.

(** A step with a known result and state. *)
Lemma wp_is {S A} (m : SM S A) s s' a :
  wp never m s (fun a' s'' => s'' = s' /\ a' = a) (fun _ _ => False) -> m s = (s', Ok a).
Proof. unfold wp. destruct (m s) as [s'' [a'|e| |]]; try done. by intros [-> ->]. Qed.

(** Sequences under [tx_lift]. *)
Section WpTx.
Context {D : Type} (X : txState D -> Prop).
(** A step of the device under the current superblock. *)
Lemma wp_tx_of {A} (f : superblock -> SM (cowState D) A) w (Q : A -> txState D -> Prop) (E : error -> txState D -> Prop) :
  let up s := TxState s (tx_sb w) (tx_root w) (tx_tick w) in
  wp (fun s => X (up s)) (f (tx_sb w)) (tx_cow w) (fun a s => Q a (up s)) (fun e s => E e (up s)) -> wp X (tx_lift f) w Q E.
Proof. cbv zeta. unfold wp, tx_lift. by destruct (f (tx_sb w) (tx_cow w)) as [s [a|e| |]]. Qed.
Lemma wp_tx_bind {A B} (f : superblock -> SM (cowState D) A) (g : superblock -> A -> SM (cowState D) B) w Q E :
  wp X (tx_lift f) w (fun a w' => wp X (tx_lift (fun sb => g sb a)) w' Q E) E ->
  wp X (tx_lift (fun sb => f sb ≫= g sb)) w Q E.
Proof.
  unfold wp, tx_lift, mbind, SM_bind. by destruct (f _ _) as [s [a|e| |]].
Qed.
Lemma wp_tx_try {A} (f : superblock -> SM (cowState D) A) w (Q : outcome A -> txState D -> Prop) E :
  wp never (tx_lift f) w (fun a => Q (Ok a)) (fun e => Q (Err e)) ->
  wp X (tx_lift (fun sb => sm_try (f sb))) w Q E.
Proof. unfold wp, tx_lift, sm_try. by destruct (f _ _) as [s [a|e| |]]. Qed.
Lemma wp_tx_lift {A} (o : superblock -> outcome A) w (Q : A -> txState D -> Prop) (E : error -> txState D -> Prop) :
  match o (tx_sb w) with Ok a => Q a w | Err e => E e w | _ => False end ->
  wp X (tx_lift (fun sb => sm_lift (o sb))) w Q E.
Proof. unfold wp, tx_lift, sm_lift. destruct w. by destruct (o _). Qed.
Lemma wp_tx_ret {A} (a : A) w (Q : A -> txState D -> Prop) E : Q a w -> wp X (tx_lift (fun _ => mret a)) w Q E.
Proof. by destruct w. Qed.
Lemma wp_tx_fail {A} e w (Q : A -> txState D -> Prop) (E : error -> txState D -> Prop) :
  E e w -> wp X (tx_lift (fun _ => sm_fail e)) w Q E.
Proof. by destruct w. Qed.
End WpTx.

(** Run the next step of a sequence by a lemma about it. *)
Ltac wp_step lem := apply wp_bind; eapply wp_mono; [eapply lem| |].
Ltac wp_pure := first [apply wp_ret|apply wp_lift|apply wp_fail|apply wp_gets|apply wp_modify].
