(* ===== verification/Extent.v ===== *)
(** * The extent tree rebuild and the commit (extent_rebuild.go, extent_multilevel.go, write.go)

    Every write operation ends in [updateFsTreeRoot]: the FS tree's ROOT_ITEM is
    updated, the extent tree is recomputed from the live trees and the superblock
    is rewritten.  The rebuild collects the live blocks and data extents, writes
    them as one leaf in place when they fit, and otherwise lays them out over a
    new multi-level tree whose own blocks are among the records, found by
    iterating on the number of blocks.

    Go map iteration order and [sort.Slice] leave the order of records with equal
    keys open; here it is the order of the input. *)
From Stdlib Require Import ZArith Lia Strings.Byte.
From stdpp Require Import base option list numbers sorting gmap.
From S2P Require Import Prelude Bytes Alloc Layout SafeIO Chunk Node BTree Split Crc32c Cow Codec Tx.
Local Open Scope Z_scope.
Local Open Scope btrfs_scope.

Record metaBlock := MetaBlock { mb_logAddr : Z; mb_owner : Z; mb_level : Z }.
Record dataExtent := DataExtent {
  dx_logAddr : Z; dx_length : Z; dx_owner : Z; dx_objectid : Z; dx_fileOffset : Z }.

Definition fmtMetadataItemSize : Z := 33.
Definition fmtBlockGroupItemSize : Z := 24.

Definition buildMetadataItemBytes (owner : Z) : bytes :=
  let d := zeros fmtMetadataItemSize in
  let d := wr 8 d 0 1 in
  let d := wr 8 d 8 1 in
  let d := wr 8 d 16 extentFlagTreeBlock in
  let d := wr 1 d 24 typeTreeBlockRef in
  wr 8 d 25 owner.

Definition buildBlockGroupItemBytes (used flags : Z) : bytes :=
  let d := zeros fmtBlockGroupItemSize in
  let d := wr 8 d 0 used in
  let d := wr 8 d 8 firstChunkTreeObjID in
  wr 8 d 16 flags.

Definition buildDataExtentItemBytes (owner objectid fileOffset : Z) : bytes :=
  let d := zeros (24 + 1 + 28) in
  let d := wr 8 d 0 1 in
  let d := wr 8 d 8 1 in
  let d := wr 8 d 16 1 in
  let d := wr 1 d 24 0xB2 in
  let d := wr 8 d 25 owner in
  let d := wr 8 d 33 objectid in
  let d := wr 8 d 41 fileOffset in
  wr 4 d 49 1.

(** [sort.Slice] by key. *)
Fixpoint insert_rec (r : rec) (l : list rec) : list rec :=
  match l with
  | [] => [r]
  | x :: l => if compareKey r.1 x.1 <? 0 then r :: x :: l else x :: insert_rec r l
  end.
Definition sort_recs (l : list rec) : list rec := foldl (fun acc r => insert_rec r acc) [] l.

(** ** Layout arithmetic (extent_multilevel.go) *)
Fixpoint part_leaf (recs : list rec) (capBytes used start i : Z) : Z :=
  match recs with
  | [] => i
  | r :: recs =>
      let need := itemSize + blen r.2 in
      if (capBytes <? used + need) && (start <? i) then i
      else part_leaf recs capBytes (used + need) start (i + 1)
  end.
Fixpoint partition_loop (fuel : nat) (recs : list rec) (capBytes i : Z) : list (Z * Z) :=
  match fuel with
  | O => []
  | S fuel =>
      if i <? Z.of_nat (length recs) then
        let fin := part_leaf (drop (Z.to_nat i) recs) capBytes 0 i i in
        (i, fin) :: partition_loop fuel recs capBytes fin
      else []
  end.
(** Every leaf takes a record, so [length recs] rounds are enough. *)
Definition partitionLeaves (recs : list rec) (capBytes : Z) : list (Z * Z) :=
  partition_loop (length recs) recs capBytes 0.

Fixpoint shape_loop (fuel : nat) (children icap : Z) : list Z :=
  match fuel with
  | O => []
  | S fuel =>
      if 1 <? children then
        let nodes := (children + icap - 1) / icap in
        nodes :: shape_loop fuel nodes icap
      else []
  end.
(** [(levels, total, rootLevel)]; with [2 <= icap] the number of children falls
    in every round. *)
Definition interiorShape (nLeaves icap : Z) : list Z * Z * Z :=
  let levels := shape_loop (Z.to_nat nLeaves) nLeaves icap in
  (levels, sumZ levels, u8 (Z.of_nat (length levels))).

(** The scan for the number of leaves [L] with [L + interior(L) = blockCount]. *)
Fixpoint leaf_count (l : nat) (blockCount icap : Z) : Z :=
  match l with
  | O => blockCount
  | S l' =>
      let n := Z.of_nat l in
      if n + (interiorShape n icap).1.2 =? blockCount then n
      else if n =? 1 then n else leaf_count l' blockCount icap
  end.

Record extentLayout := ExtentLayout {
  el_leafLogs : list Z; el_interiorLogs : list (list Z); el_levels : list Z; el_rootLevel : Z;
  el_recs : list rec; el_ranges : list (Z * Z); el_bgUsed : gmap Z Z; el_allocated : list Z }.

Record multiLevelExtentInput := MultiLevelExtentInput {
  ml_baseRecs : list rec; ml_baseBGUsed : gmap Z Z; ml_bgLenFlags : gmap Z (Z * Z);
  ml_oldExtRoot : Z; ml_oldExtSafe : bool; ml_hdrTemplate : bytes }.

Definition interiorRootLog (leafLogs : list Z) (interiorLogs : list (list Z)) : outcome Z :=
  match last interiorLogs with
  | None => match leafLogs with a :: _ => Ok a | [] => Panic end
  | Some top => match top with a :: _ => Ok a | [] => Panic end
  end.

Definition bg_add (m : gmap Z Z) (cs n : Z) : gmap Z Z := <[cs := default 0 (m !! cs) +₆₄ n]> m.
Definition bg_total (m : gmap Z Z) : Z := foldr (fun u acc => u +₆₄ acc) 0 (map_to_list m).*2.

Section Extent.
Context `{SafeIO} {D : Type} `{RW : ReaderWriterAt D} (partOff : Z) (sb : superblock).
Abbreviation M := (SM (cowState D)).
Abbreviation rdn := (node_read partOff sb).

Definition leafCapacity : Z := sb_nodeSize sb - nodeHdrSize.
Definition internalCapacity : Z := (sb_nodeSize sb - nodeHdrSize) ÷ keyPtrSize.

Definition dev_ReadAt (off n : Z) : M bytes := fun s => (s, ReadAt (st_dev s) off n).

(** ** Locating and editing ROOT_ITEMs *)
Definition extentTreeRoot : M Z :=
  '(buf, it) ← searchTree rdn (sb_rootLogAddr sb) extentTreeObjID typeRootItem 0;
  let d := item_data it buf in
  if blen d <? rootItemOffBytenr + 8 then sm_fail ErrOther else sm_lift (Uint64 d rootItemOffBytenr).

Definition rootItemLeafLogAddr (objID : Z) : M Z :=
  rootBuf ← rdn (sb_rootLogAddr sb);
  hdr ← sm_lift (parseNodeHeader rootBuf);
  if hdr_level hdr =? 0 then mret (sb_rootLogAddr sb) else
  path ← tracePath partOff sb (sb_rootLogAddr sb) (Key objID typeRootItem 0);
  match last path with
  | Some pe => mret (pe_logAddr pe)
  | None => sm_lift Panic
  end.

Definition extentHeaderTemplate : M bytes :=
  src ← rdn (sb_rootLogAddr sb);
  hdr ← sm_lift (slice src 0 nodeHdrSize);
  buf ← sm_lift (copy_at (zeros (sb_nodeSize sb)) 0 hdr);
  sm_lift (PutUint64 buf 0x58 extentTreeObjID).

(** Writing through [d := items[idx].data(leaf)], which aliases the leaf. *)
Definition edit_item (leaf : bytes) (it : leafItem) (f : bytes -> outcome bytes) : outcome bytes :=
  d ← f (item_data it leaf);
  Ok (splice leaf (nodeHdrSize + it_dataOff it) d).

Definition put_generation (d : bytes) : outcome bytes :=
  d ← PutUint64 d rootItemOffGeneration (next_gen sb);
  if rootItemOffGenerationV2 + 8 <? blen d then PutUint64 d rootItemOffGenerationV2 (next_gen sb) else Ok d.

Definition updateExtentRootGeneration (extRoot : Z) : M unit :=
  leafLog ← rootItemLeafLogAddr extentTreeObjID;
  phys ← sm_lift (physAddr sb partOff leafLog);
  leaf ← dev_ReadAt phys (sb_nodeSize sb);
  hdr ← sm_lift (parseNodeHeader leaf);
  if negb (hdr_level hdr =? 0) then sm_fail ErrOther else
  idx ← sm_lift (findItemIdx leaf extentTreeObjID typeRootItem 0);
  if idx <? 0 then mret tt else
  items ← sm_lift (parseLeafItems leaf (hdr_nItems hdr));
  match items !! Z.to_nat idx with
  | None => sm_lift Panic
  | Some it =>
      if blen (item_data it leaf) <? rootItemOffBytenr + 8 then mret tt else
      leaf ← sm_lift (edit_item leaf it (fun d =>
        d ← put_generation d;
        PutUint64 d rootItemOffBytenr extRoot));
      leaf ← sm_lift (updateNodeCRC leaf);
      m_write phys leaf
  end.

Definition repointExtentRoot (newRoot level : Z) : M unit :=
  leafLog ← rootItemLeafLogAddr extentTreeObjID;
  phys ← sm_lift (physAddr sb partOff leafLog);
  leaf ← dev_ReadAt phys (sb_nodeSize sb);
  idx ← sm_lift (findItemIdx leaf extentTreeObjID typeRootItem 0);
  if idx <? 0 then sm_fail ErrOther else
  hdr ← sm_lift (parseNodeHeader leaf);
  items ← sm_lift (parseLeafItems leaf (hdr_nItems hdr));
  match items !! Z.to_nat idx with
  | None => sm_lift Panic
  | Some it =>
      if blen (item_data it leaf) <=? rootItemOffLevel then sm_fail ErrOther else
      leaf ← sm_lift (edit_item leaf it (fun d =>
        d ← PutUint64 d rootItemOffBytenr newRoot;
        d ← put_generation d;
        PutUint8 d rootItemOffLevel level));
      leaf ← sm_lift (updateNodeCRC leaf);
      m_write phys leaf
  end.

(** ** Collecting the live blocks and data extents *)
Abbreviation acc := (list metaBlock * gset Z)%type.

Definition visit_block (owner a : Z) (v : acc) : M acc :=
  if bool_decide (a ∈ v.2) then mret v else
  nb ← sm_try (rdn a);
  lvl ← sm_lift (match nb with
                 | Ok nb => hdr ← parseNodeHeader nb; Ok (hdr_level hdr)
                 | Err _ => Ok 0
                 | Panic => Panic
                 | NoFuel => NoFuel
                 end);
  mret (v.1 ++ [MetaBlock a owner lvl], {[a]} ∪ v.2).

Definition collect (root owner : Z) (v : acc) : M acc :=
  run_var (walkNodeAddrs (fun x => with_var (rdn x)) root (fun a => var_step (visit_block owner a))) v.

Fixpoint collect_items (buf : bytes) (items : list leafItem) (v : acc) : M acc :=
  match items with
  | [] => mret v
  | it :: items =>
      let d := item_data it buf in
      if negb (typ (it_k it) =? typeRootItem) || (blen d <? rootItemOffBytenr + 8)
      then collect_items buf items v
      else
        bytenr ← sm_lift (Uint64 d rootItemOffBytenr);
        v ← (if bytenr =? 0 then mret v else collect bytenr (objID (it_k it)) v);
        collect_items buf items v
  end.

Definition collect_blocks : M (list metaBlock) :=
  v ← collect (sb_chunkLogAddr sb) chunkTreeObjID ([], ∅);
  v ← collect (sb_rootLogAddr sb) rootTreeObjID v;
  v ← run_var (walkLeaves (fun x => with_var (rdn x)) (sb_rootLogAddr sb)
                 (fun buf items => var_step (collect_items buf items))) v;
  mret v.1.

(** The tree roots [collectDataExtents] scans. *)
Fixpoint data_roots (objIDs : list Z) : M (list Z) :=
  match objIDs with
  | [] => mret []
  | o :: objIDs =>
      r ← sm_try (searchTree rdn (sb_rootLogAddr sb) o typeRootItem 0);
      here ← sm_lift (match r with
                      | Ok (buf, it) =>
                          let d := item_data it buf in
                          if blen d <? rootItemOffBytenr + 8 then Ok []
                          else br ← Uint64 d rootItemOffBytenr; Ok (if br =? 0 then [] else [br])
                      | Err _ => Ok []
                      | Panic => Panic
                      | NoFuel => NoFuel
                      end);
      rest ← data_roots objIDs;
      mret (here ++ rest)
  end.

(** One item of a leaf; a regular extent item shorter than its disk fields
    panics, as the slice expressions of the code do. *)
Definition data_extent_of (owner : Z) (k : key) (ed : bytes) : outcome (option dataExtent) :=
  if negb (typ k =? typeExtentData) then Ok None else
  if blen ed <? extDataHdrSize then Ok None else
  extType ← Uint8 ed extDataOffType;
  if negb (extType =? extentDataRegular) then Ok None else
  disk ← Uint64 ed extDataOffDiskBytenr;
  num ← Uint64 ed extDataOffDiskNumBytes;
  if (disk =? 0) || (num =? 0) then Ok None else
  extOff ← (if extDataOffOffset + 8 <=? blen ed then Uint64 ed extDataOffOffset else Ok 0);
  Ok (Some (DataExtent disk num owner (objID k) (offset k -₆₄ extOff))).

Fixpoint leaf_extents (owner : Z) (buf : bytes) (items : list leafItem) (out : list dataExtent)
  : outcome (list dataExtent) :=
  match items with
  | [] => Ok out
  | it :: items =>
      e ← data_extent_of owner (it_k it) (item_data it buf);
      leaf_extents owner buf items (out ++ option_list e)
  end.

Fixpoint scan_roots (i : nat) (roots : list Z) (out : list dataExtent) : M (list dataExtent) :=
  match roots with
  | [] => mret out
  | root :: roots =>
      let owner := if (i =? 1)%nat then dataRelocTreeObjID else fsTreeObjID in
      out ← run_var (walkLeaves (fun x => with_var (rdn x)) root
              (fun buf items => var_step (fun out => sm_lift (leaf_extents owner buf items out)))) out;
      scan_roots (S i) roots out
  end.

Definition collectDataExtents : M (list dataExtent) :=
  roots ← data_roots [fsTreeObjID; dataRelocTreeObjID];
  scan_roots 0 roots [].

(** ** Accounting *)
Definition bgLenFlags : gmap Z (Z * Z) :=
  foldl (fun m c => <[cm_logStart c := (cm_size c, cm_profile c)]> m) ∅ (sb_sysChunks sb).

Definition chunkOf (logAddr : Z) : option Z :=
  cm_logStart <$> List.find (fun c => (cm_logStart c <=? logAddr) && (logAddr <? cm_logStart c +₆₄ cm_size c))
                    (sb_sysChunks sb).

Definition bg_account (m : gmap Z Z) (logAddr n : Z) : gmap Z Z :=
  match chunkOf logAddr with Some cs => bg_add m cs n | None => m end.

Definition blocks_used (blocks : list metaBlock) (m : gmap Z Z) : gmap Z Z :=
  foldl (fun m b => bg_account m (mb_logAddr b) (sb_nodeSize sb)) m blocks.
Definition extents_used (exts : list dataExtent) (m : gmap Z Z) : gmap Z Z :=
  foldl (fun m e => bg_account m (dx_logAddr e) (dx_length e)) m exts.

Definition block_rec (b : metaBlock) : rec :=
  (Key (mb_logAddr b) typeMetadataItem (mb_level b), buildMetadataItemBytes (mb_owner b)).
Definition extent_rec (e : dataExtent) : rec :=
  (Key (dx_logAddr e) typeExtentItem (dx_length e),
   buildDataExtentItemBytes (dx_owner e) (dx_objectid e) (dx_fileOffset e)).
Definition group_recs (bgUsed : gmap Z Z) : list rec :=
  map (fun p : Z * (Z * Z) =>
         (Key p.1 typeBlockGroupItem p.2.1,
          buildBlockGroupItemBytes (default 0 (bgUsed !! p.1)) p.2.2))
      (map_to_list bgLenFlags).

Definition updateSuperBytesUsed (used : Z) : M unit :=
  buf ← dev_ReadAt (partOff + superblockOffset) sbfSize;
  buf ← sm_lift (PutUint64 buf sbfBytesUsed used);
  buf ← sm_lift (updateSuperblockCRC buf);
  m_write (partOff + superblockOffset) buf.

(** ** The multi-level rebuild *)
Fixpoint alloc_nodes (n : nat) : M (list Z) :=
  match n with
  | O => mret []
  | S n =>
      phys ← m_alloc;
      rest ← alloc_nodes n;
      mret (physToLog sb phys :: rest)
  end.
Fixpoint alloc_levels (levels : list Z) : M (list (list Z)) :=
  match levels with
  | [] => mret []
  | n :: levels =>
      l ← alloc_nodes (Z.to_nat n);
      rest ← alloc_levels levels;
      mret (l :: rest)
  end.

Fixpoint level_blocks (lvl : Z) (interiorLogs : list (list Z)) : list (Z * Z) :=
  match interiorLogs with
  | [] => []
  | l :: rest => map (fun a => (a, u8 lvl)) l ++ level_blocks (lvl + 1) rest
  end.

Definition tryExtentLayout (inp : multiLevelExtentInput) (blockCount : Z) : M extentLayout :=
  let nLeaves := leaf_count (Z.to_nat blockCount) blockCount internalCapacity in
  let '(levels, _, rootLevel) := interiorShape nLeaves internalCapacity in
  leafLogs ← alloc_nodes (Z.to_nat nLeaves);
  interiorLogs ← alloc_levels levels;
  let allBlocks := map (fun a => (a, 0)) leafLogs ++ level_blocks 1 interiorLogs in
  let bgUsed := foldl (fun m b => bg_account m b.1 (sb_nodeSize sb)) (ml_baseBGUsed inp) allBlocks in
  let recs := sort_recs (ml_baseRecs inp ++
    map (fun b : Z * Z => (Key b.1 typeMetadataItem b.2, buildMetadataItemBytes extentTreeObjID)) allBlocks ++
    group_recs bgUsed) in
  mret (ExtentLayout leafLogs interiorLogs levels rootLevel recs (partitionLeaves recs leafCapacity)
          bgUsed (leafLogs ++ concat interiorLogs)).

Definition freeLayout (lay : extentLayout) : M unit := free_all sb (el_allocated lay).

(** At most 64 attempts, as in the code. *)
Fixpoint layout_loop (iter : nat) (inp : multiLevelExtentInput) (blockCount : Z) : M extentLayout :=
  match iter with
  | O => sm_fail ErrOther
  | S iter =>
      lay ← tryExtentLayout inp blockCount;
      let realLeaves := Z.of_nat (length (el_ranges lay)) in
      if realLeaves =? Z.of_nat (length (el_leafLogs lay)) then mret lay else
      _ ← freeLayout lay;
      layout_loop iter inp (realLeaves + (interiorShape realLeaves internalCapacity).1.2)
  end.

Fixpoint insert_recs (leaf : bytes) (recs : list rec) : outcome bytes :=
  match recs with
  | [] => Ok leaf
  | r :: recs => leaf ← leafInsertItem leaf r.1 r.2; insert_recs leaf recs
  end.

(** A node that starts from the header template. *)
Definition template_node (hdrTemplate : bytes) (level logAddr : Z) : outcome bytes :=
  hdr ← slice hdrTemplate 0 nodeHdrSize;
  node ← copy_at (zeros (sb_nodeSize sb)) 0 hdr;
  node ← PutUint8 node 0x64 level;
  node ← PutUint64 node 0x30 logAddr;
  PutUint64 node 0x50 (next_gen sb).

Definition extent_leaf (hdrTemplate : bytes) (logAddr : Z) (recs : list rec) : outcome bytes :=
  leaf ← template_node hdrTemplate 0 logAddr;
  leaf ← PutUint32 leaf 0x60 0;
  leaf ← insert_recs leaf recs;
  updateNodeCRC leaf.

Definition write_node (logAddr : Z) (node : bytes) : M unit :=
  m_write (i64 (partOff + i64 (physFromLog sb logAddr))) node.

(** The leaves, with the first key of each. *)
Fixpoint write_leaves (hdrTemplate : bytes) (recs : list rec) (ranges : list (Z * Z)) (leafLogs : list Z)
  : M (list key) :=
  match ranges, leafLogs with
  | (lo, hi) :: ranges, a :: leafLogs =>
      let here := take (Z.to_nat (hi - lo)) (drop (Z.to_nat lo) recs) in
      leaf ← sm_lift (extent_leaf hdrTemplate a here);
      _ ← write_node a leaf;
      k ← sm_lift (match here with r :: _ => Ok r.1 | [] => Panic end);
      rest ← write_leaves hdrTemplate recs ranges leafLogs;
      mret (k :: rest)
  | _, _ => mret []
  end.

Fixpoint put_ptrs (node : bytes) (cnt : Z) (children : list (key * Z)) : outcome bytes :=
  match children with
  | [] => Ok node
  | (k, child) :: children =>
      let off := nodeHdrSize + cnt * keyPtrSize in
      node ← PutUint64 node off (objID k);
      node ← PutUint8 node (off + 8) (typ k);
      node ← PutUint64 node (off + 9) (offset k);
      node ← PutUint64 node (off + 17) child;
      node ← PutUint64 node (off + 25) (next_gen sb);
      put_ptrs node (cnt + 1) children
  end.

Definition interior_node (hdrTemplate : bytes) (level logAddr : Z) (children : list (key * Z)) : outcome bytes :=
  node ← template_node hdrTemplate level logAddr;
  node ← put_ptrs node 0 children;
  node ← PutUint32 node 0x60 (u32 (Z.of_nat (length children)));
  updateNodeCRC node.

(** One level: node [ni] of [nNodes] takes an even share of what is left. *)
Fixpoint write_level (hdrTemplate : bytes) (level : Z) (nodeLogs : list Z) (children : list (key * Z))
  : M (list (key * Z)) :=
  match nodeLogs with
  | [] => mret []
  | a :: nodeLogs =>
      let nodesLeft := Z.of_nat (length nodeLogs) + 1 in
      let perNode := (Z.of_nat (length children) + nodesLeft - 1) / nodesLeft in
      let here := take (Z.to_nat perNode) children in
      firstKey ← sm_lift (match children with c :: _ => Ok c.1 | [] => Panic end);
      node ← sm_lift (interior_node hdrTemplate level a here);
      _ ← write_node a node;
      rest ← write_level hdrTemplate level nodeLogs (drop (Z.to_nat perNode) children);
      mret ((firstKey, a) :: rest)
  end.
Fixpoint write_levels (hdrTemplate : bytes) (lvl : Z) (interiorLogs : list (list Z)) (levels : list Z)
    (children : list (key * Z)) : M unit :=
  match levels, interiorLogs with
  | n :: levels, nodeLogs :: interiorLogs =>
      if negb (Z.of_nat (length nodeLogs) =? n) then sm_fail ErrOther else
      children ← write_level hdrTemplate (u8 (lvl + 1)) nodeLogs children;
      write_levels hdrTemplate (lvl + 1) interiorLogs levels children
  | [], _ => mret tt
  | _ :: _, [] => sm_lift Panic
  end.

Definition writeMultiLevelTree (hdrTemplate : bytes) (lay : extentLayout) : M unit :=
  if negb (Z.of_nat (length (el_ranges lay)) =? Z.of_nat (length (el_leafLogs lay))) then sm_fail ErrOther else
  keys ← write_leaves hdrTemplate (el_recs lay) (el_ranges lay) (el_leafLogs lay);
  write_levels hdrTemplate 0 (el_interiorLogs lay) (el_levels lay) (combine keys (el_leafLogs lay)).

(** Freeing every block of the old extent tree once. *)
Definition free_old_tree (oldExtRoot : Z) : M unit :=
  _ ← run_var (walkNodeAddrs (fun x => with_var (rdn x)) oldExtRoot
        (fun a => var_step (fun freed : gset Z =>
           if bool_decide (a ∈ freed) then mret freed
           else _ ← m_free sb a; mret ({[a]} ∪ freed)))) ∅;
  mret tt.

Definition buildMultiLevelExtentTree (inp : multiLevelExtentInput) : M unit :=
  if internalCapacity <? 2 then sm_fail ErrOther else
  _ ← (if ml_oldExtSafe inp then free_old_tree (ml_oldExtRoot inp) else mret tt);
  final ← layout_loop 64 inp 1;
  _ ← writeMultiLevelTree (ml_hdrTemplate inp) final;
  rootLog ← sm_lift (interiorRootLog (el_leafLogs final) (el_interiorLogs final));
  _ ← repointExtentRoot rootLog (el_rootLevel final);
  updateSuperBytesUsed (bg_total (el_bgUsed final)).

(** ** The rebuild *)

(** The leaf that is filled and whether it was read from the old root. *)
Definition extent_leaf_buffer (extRoot : Z) : M (bytes * bool) :=
  r ← sm_try (phys ← sm_lift (physAddr sb partOff extRoot); dev_ReadAt phys (sb_nodeSize sb));
  match r with
  | Ok leaf => mret (leaf, true)
  | Err _ => tpl ← extentHeaderTemplate; mret (tpl, false)
  | Panic => sm_lift Panic
  | NoFuel => sm_lift NoFuel
  end.

(** The insertion loop: the leaf as it is left and whether it overflowed. *)
Fixpoint fill_leaf (leaf : bytes) (recs : list rec) : outcome (bytes * bool) :=
  match recs with
  | [] => Ok (leaf, false)
  | r :: recs =>
      match leafInsertItem leaf r.1 r.2 with
      | Ok leaf => fill_leaf leaf recs
      | Err _ => Ok (leaf, true)
      | Panic => Panic
      | NoFuel => NoFuel
      end
  end.

(** What the multi-level rebuild keeps of the records. *)
Definition base_rec (blocks : list metaBlock) (r : rec) : bool :=
  negb (typ r.1 =? typeBlockGroupItem) &&
  negb ((typ r.1 =? typeMetadataItem) &&
        existsb (fun b => (mb_owner b =? extentTreeObjID) && (mb_logAddr b =? objID r.1)) blocks).

Definition rebuild_with (extRoot : Z) : M unit :=
  blocks ← collect_blocks;
  exts ← collectDataExtents;
  let bgUsed := extents_used exts (blocks_used blocks ∅) in
  let baseBGUsed := extents_used exts
        (blocks_used (List.filter (fun b => negb (mb_owner b =? extentTreeObjID)) blocks) ∅) in
  let recs := sort_recs (map block_rec blocks ++ map extent_rec exts ++ group_recs bgUsed) in
  '(leaf, extRootSafe) ← extent_leaf_buffer extRoot;
  leaf ← sm_lift (PutUint32 leaf 0x60 0);
  leaf ← sm_lift (PutUint64 leaf 0x50 (next_gen sb));
  leaf ← sm_lift (PutUint8 leaf 0x64 0);
  '(leaf, overflow) ← sm_lift (fill_leaf leaf recs);
  if overflow || negb extRootSafe then
    buildMultiLevelExtentTree (MultiLevelExtentInput (List.filter (base_rec blocks) recs) baseBGUsed
      bgLenFlags extRoot extRootSafe leaf)
  else
    phys ← sm_lift (physAddr sb partOff extRoot);
    leaf ← sm_lift (updateNodeCRC leaf);
    _ ← m_write phys leaf;
    _ ← updateExtentRootGeneration extRoot;
    updateSuperBytesUsed (bg_total bgUsed).

Definition rebuildExtentTree : M unit :=
  extRoot ← sm_try extentTreeRoot;
  match extRoot with
  | Ok extRoot => rebuild_with extRoot
  | Err _ => mret tt
  | Panic => sm_lift Panic
  | NoFuel => sm_lift NoFuel
  end.
End Extent.

(** ** The commit (write.go) *)
Definition set_rootLogAddr (sb : superblock) (a : Z) : superblock :=
  Superblock (sb_nodeSize sb) (sb_sectorSize sb) (sb_leafSize sb) (sb_stripeSize sb)
    (sb_totalBytes sb) a (sb_chunkLogAddr sb) (sb_generation sb)
    (sb_devID sb) (sb_uuid sb) (sb_label sb) (sb_sysChunks sb).
Definition set_generation (sb : superblock) (g : Z) : superblock :=
  Superblock (sb_nodeSize sb) (sb_sectorSize sb) (sb_leafSize sb) (sb_stripeSize sb)
    (sb_totalBytes sb) (sb_rootLogAddr sb) (sb_chunkLogAddr sb) g
    (sb_devID sb) (sb_uuid sb) (sb_label sb) (sb_sysChunks sb).

Section Commit.
Context `{SafeIO} {D : Type} `{RW : ReaderWriterAt D} (partOff : Z).
Abbreviation T := (SM (txState D)).

Definition fsRootNodeGeneration (logAddr fallback : Z) : T Z :=
  buf ← sm_try (tx_lift (fun sb => node_read partOff sb logAddr));
  sm_lift (match buf with
           | Ok buf => Uint64 buf 0x50
           | Err _ => Ok fallback
           | Panic => Panic
           | NoFuel => NoFuel
           end).

Definition fsRootNodeLevel (logAddr : Z) : T Z :=
  buf ← sm_try (tx_lift (fun sb => node_read partOff sb logAddr));
  sm_lift (match buf with
           | Ok buf => hdr ← parseNodeHeader buf; Ok (hdr_level hdr)
           | Err _ => Ok 0
           | Panic => Panic
           | NoFuel => NoFuel
           end).

Definition writeSuperblock : T unit :=
  buf ← dev_read (partOff + superblockOffset) sbfSize;
  sb ← sm_gets tx_sb;
  buf ← sm_lift (PutUint64 buf sbfRootLogAddr (sb_rootLogAddr sb));
  gen ← sm_lift (Uint64 buf sbfGeneration);
  buf ← sm_lift (PutUint64 buf sbfGeneration (gen +₆₄ 1));
  buf ← sm_lift (updateSuperblockCRC buf);
  _ ← dev_write (partOff + superblockOffset) buf;
  set_sb (fun sb => set_generation sb (gen +₆₄ 1)).

(** The new payload of the FS tree's ROOT_ITEM. *)
Definition root_item_payload (d : bytes) (newFsRoot fsRootGen level : Z) : outcome bytes :=
  d ← PutUint64 d 0xB0 newFsRoot;
  d ← PutUint64 d rootItemOffGeneration fsRootGen;
  d ← (if rootItemOffGenerationV2 + 8 <? blen d then PutUint64 d rootItemOffGenerationV2 fsRootGen else Ok d);
  if rootItemOffLevel <? blen d then PutUint8 d rootItemOffLevel level else Ok d.

Definition fsRootKey : key := Key fsTreeObjID typeRootItem 0.

(** Updating the ROOT_ITEM; a failed [cowUpdate] is not reported. *)
Definition update_root_item (newFsRoot : Z) : T unit :=
  sb ← sm_gets tx_sb;
  r ← sm_try (tx_search partOff (sb_rootLogAddr sb) fsRootKey);
  match r with
  | Ok (leafBuf, it) =>
      fsRootGen ← fsRootNodeGeneration newFsRoot (next_gen sb);
      level ← fsRootNodeLevel newFsRoot;
      d ← sm_lift (root_item_payload (item_copy leafBuf it) newFsRoot fsRootGen level);
      newRootRoot ← sm_try (tx_lift (fun sb => cowUpdate partOff sb (sb_rootLogAddr sb) fsRootKey d));
      match newRootRoot with
      | Ok a => set_sb (fun sb => set_rootLogAddr sb a)
      | Err _ => mret tt
      | Panic => sm_lift Panic
      | NoFuel => sm_lift NoFuel
      end
  | Err _ => mret tt
  | Panic => sm_lift Panic
  | NoFuel => sm_lift NoFuel
  end.

Definition updateFsTreeRoot (newFsRoot : Z) : T unit :=
  _ ← update_root_item newFsRoot;
  _ ← tx_lift (fun sb => rebuildExtentTree partOff sb);
  writeSuperblock.
End Commit.
