(* ===== verification/Ops.v ===== *)
(** * The file operations (write.go, mkdir.go, symlink.go, link.go, delete.go, rename.go,
      truncate.go, setattr.go, xattr_write.go, extended_stat.go, label.go, fs.go)

    The operations of the API, as steps on the state of [Tx].  Each follows its Go
    function: the order of the tree mutations, the errors that are returned, those
    that are tolerated and those that are dropped. *)
From Stdlib Require Import ZArith Lia Strings.Byte.
From stdpp Require Import base option list numbers sorting gmap.
From S2P Require Import Prelude Bytes Alloc Layout SafeIO Chunk Node BTree Split Crc32c Cow Codec Read Tx Extent.
Local Open Scope Z_scope.
Local Open Scope btrfs_scope.

(** ** Paths *)

(** [path.Split]: up to and including the last slash, and the rest. *)
Definition path_Split (p : bytes) : bytes * bytes :=
  let name := rev (take_until (fun c => bool_decide (c = slash)) (rev p)) in
  (take (length p - length name) p, name).

(** The first lines of [writeFile], [makeDir] and [symlinkInode]. *)
Definition split_dir (p : bytes) : bytes * bytes :=
  let '(dir, name) := path_Split (path_Clean p) in
  let dir := if bool_decide (dir = []) then [slash] else dir in
  (path_Clean dir, name).

Definition splitPath (p : bytes) : bytes * bytes :=
  let p := path_Clean p in
  if bool_decide (p = [slash]) then ([slash], []) else
  let '(dir, name) := path_Split p in
  match dir with
  | [] => ([slash], p)
  | _ => let d := take (length dir - 1) dir in
         (if bool_decide (d = []) then [slash] else d, name)
  end.

(** [writeBtrfsTimespec(d[off:], t)] on a slice of unchecked length. *)
Definition put_time (d : bytes) (off : Z) (t : timespec) : outcome bytes :=
  d ← PutUint64 d off (u64 t.1);
  PutUint32 d (off + 8) (u32 t.2).

Definition inodeKey (ino : Z) : key := Key ino typeInodeItem 0.

Definition dirEntrySizeDelta (name : bytes) : Z := 2 * blen name.

(** The loop of [nextInodeNum] over the items of a leaf. *)
Definition max_inode (items : list leafItem) (max : Z) : Z :=
  foldl (fun max it => if (typ (it_k it) =? typeInodeItem) && (max <? objID (it_k it))
                       then objID (it_k it) else max) max items.

Definition max_index (dirIno : Z) (items : list rec) (max : Z) : Z :=
  foldl (fun max m => if (objID m.1 =? dirIno) && (typ m.1 =? typeDirIndex) && (max <? offset m.1)
                      then offset m.1 else max) max items.

(** The scan for the DIR_INDEX item of a name. *)
Fixpoint find_index (name : bytes) (items : list rec) : outcome (option key) :=
  match items with
  | [] => Ok None
  | m :: items =>
      let d := m.2 in
      if blen d <? dirItemHdrSize then find_index name items else
      nameLen ← Uint16 d 0x1B;
      if blen d <? dirItemHdrSize + nameLen then find_index name items else
      n ← slice d dirItemHdrSize (dirItemHdrSize + nameLen);
      if bool_decide (n = name) then Ok (Some m.1) else find_index name items
  end.

(** The disk range of a data extent item, when it has one. *)
Definition extent_range (sb : superblock) (d : bytes) : outcome (option (Z * Z)) :=
  if blen d <=? extDataOffType then Ok None else
  extType ← Uint8 d extDataOffType;
  if negb (extType =? extentDataRegular) then Ok None else
  if blen d <? extDataRegularSize then Ok None else
  diskBytenr ← Uint64 d extDataOffDiskBytenr;
  diskNumBytes ← Uint64 d extDataOffDiskNumBytes;
  if diskBytenr =? 0 then Ok None else
  match logToPhys sb diskBytenr with
  | Ok phys => Ok (Some (u64 phys, diskNumBytes))
  | Err _ => Ok None
  | Panic => Panic
  | NoFuel => NoFuel
  end.

(** What truncation does to one extent item. *)
Inductive trim := TrimKeep | TrimDrop | TrimTo (d : bytes).
Definition trim_extent (newSize fileOffset : Z) (d : bytes) : outcome trim :=
  if blen d <=? extDataOffType then Ok TrimKeep else
  extType ← Uint8 d extDataOffType;
  if negb (extType =? extentDataInline) && (blen d <? extDataRegularSize) then Ok TrimKeep else
  span ← (if extType =? extentDataInline then Ok (u64 (blen d - extDataHdrSize))
          else Uint64 d extDataOffNumBytes);
  let extEnd := fileOffset +₆₄ span in
  if extEnd <=? newSize then Ok TrimKeep else
  if newSize <=? fileOffset then Ok TrimDrop else
  let kept := newSize - fileOffset in
  if extType =? extentDataInline then
    hdr ← slice d 0 extDataHdrSize;
    body ← slice d extDataHdrSize (extDataHdrSize + kept);
    trimmed ← PutUint64 (hdr ++ body) extDataOffRamBytes kept;
    Ok (TrimTo trimmed)
  else
    trimmed ← PutUint64 d extDataOffRamBytes kept;
    trimmed ← PutUint64 trimmed extDataOffNumBytes kept;
    Ok (TrimTo trimmed).

(** The disk bytes an extent item accounts for in [nbytes]. *)
Definition extent_nbytes (ed : bytes) : outcome Z :=
  if blen ed <? extDataRegularSize then Ok 0 else
  extType ← Uint8 ed extDataOffType;
  if negb (extType =? extentDataRegular) then Ok 0 else
  diskBytenr ← Uint64 ed extDataOffDiskBytenr;
  if diskBytenr =? 0 then Ok 0 else Uint64 ed extDataOffDiskNumBytes.
Fixpoint sum_nbytes (items : list rec) (nbytes : Z) : outcome Z :=
  match items with
  | [] => Ok nbytes
  | m :: items => n ← extent_nbytes m.2; sum_nbytes items (nbytes +₆₄ n)
  end.

Section Ops.
Context `{SafeIO} {D : Type} `{RW : ReaderWriterAt D} `{Clock} (partOff : Z).
Abbreviation T := (SM (txState D)).

(** ** Lookups on the write path *)
Definition fs_path (p : bytes) : T inodeItem :=
  root ← sm_gets tx_root; tx_lift (fun sb => pathLookup (node_read partOff sb) root p).
Definition pathLookupIno (p : bytes) : T Z := i ← fs_path p; mret (in_num i).
Definition fs_entry (dirIno : Z) (name : bytes) : T (Z * Z) :=
  root ← sm_gets tx_root; tx_lift (fun sb => lookupDirEntry (node_read partOff sb) root dirIno name).
Definition fs_inode (ino : Z) : T inodeItem :=
  root ← sm_gets tx_root; tx_lift (fun sb => readInode (node_read partOff sb) root ino).
Definition fs_readDir (ino : Z) : T (list dirEntry) :=
  root ← sm_gets tx_root; tx_lift (fun sb => readDir (node_read partOff sb) root ino).

(** [if _, _, err := lookupDirEntry(...); err == nil]: whether the name is there. *)
Definition entry_opt (dirIno : Z) (name : bytes) : T (option (Z * Z)) :=
  r ← sm_try (fs_entry dirIno name);
  sm_lift (match r with
           | Ok e => Ok (Some e)
           | Err _ => Ok None
           | Panic => Panic
           | NoFuel => NoFuel
           end).

Definition nextInodeNum : T Z :=
  root ← sm_gets tx_root;
  max ← walk_var partOff root (fun _ items max => max_inode items max) rootDirObjID;
  mret (max +₆₄ 1).

(** A prefix scan whose error means no items. *)
Definition prefix_or_nil (o t : Z) : T (list rec) :=
  r ← sm_try (fs_prefix partOff o t);
  sm_lift (match r with
           | Ok items => Ok items
           | Err _ => Ok []
           | Panic => Panic
           | NoFuel => NoFuel
           end).

Definition nextDirIndexOffset (dirIno : Z) : T Z :=
  items ← prefix_or_nil dirIno typeDirIndex;
  mret (max_index dirIno items 2 +₆₄ 1).

(** ** Inode back references *)
Definition appendInodeRef (childIno parentIno idx : Z) (name : bytes) : T unit :=
  let refKey := Key childIno typeInodeRef parentIno in
  r ← sm_try (fs_search partOff refKey);
  match r with
  | Ok (buf, it) =>
      entries ← sm_lift (parseInodeRefEntries (item_data it buf));
      match append_ref entries idx name with
      | None => mret tt
      | Some entries => fs_update partOff refKey (encodeInodeRefEntries entries)
      end
  | Err _ => fs_insert partOff refKey (encodeInodeRef idx name)
  | Panic => sm_lift Panic
  | NoFuel => sm_lift NoFuel
  end.

Definition removeInodeRef (childIno parentIno : Z) (name : bytes) : T unit :=
  let refKey := Key childIno typeInodeRef parentIno in
  r ← sm_try (fs_search partOff refKey);
  match r with
  | Ok (buf, it) =>
      entries ← sm_lift (parseInodeRefEntries (item_data it buf));
      match keep_refs entries name with
      | [] => fs_delete partOff refKey
      | kept => fs_update partOff refKey (encodeInodeRefEntries kept)
      end
  | Err _ => mret tt
  | Panic => sm_lift Panic
  | NoFuel => sm_lift NoFuel
  end.

(** ** Directory inodes *)
Definition adjustDirNlink (dirIno delta : Z) : T unit :=
  '(buf, it) ← fs_search partOff (inodeKey dirIno);
  let d := item_copy buf it in
  nlink ← sm_lift (Uint32 d inodeOffNLink);
  let cur := Z.max 0 (nlink + delta) in
  d ← sm_lift (PutUint32 d inodeOffNLink (u32 cur));
  sb ← sm_gets tx_sb;
  d ← sm_lift (bumpInodeTransIDSequence d (next_gen sb));
  now ← Now;
  d ← sm_lift (put_time d inodeOffCTime now);
  d ← sm_lift (put_time d inodeOffMTime now);
  fs_update partOff (inodeKey dirIno) d.
Definition touchDir (dirIno : Z) : T unit := adjustDirNlink dirIno 0.

Definition adjustDirSize (dirIno delta : Z) : T unit :=
  if delta =? 0 then mret tt else
  '(buf, it) ← fs_search partOff (inodeKey dirIno);
  let d := item_copy buf it in
  size ← sm_lift (Uint64 d inodeOffSize);
  let cur := i64 (i64 size + delta) in
  let cur := if cur <? 0 then 0 else cur in
  d ← sm_lift (PutUint64 d inodeOffSize (u64 cur));
  fs_update partOff (inodeKey dirIno) d.

(** ** File data *)
Fixpoint write_chunks (fuel : nat) (ino : Z) (data : bytes) (generation fileOffset remaining : Z) : T unit :=
  if remaining <=? 0 then mret tt else
  match fuel with
  | O => sm_lift NoFuel
  | S fuel =>
      '(phys, allocated) ← alloc_data_up_to remaining;
      let chunk := if remaining <? allocated then remaining else allocated in
      part ← sm_lift (slice data fileOffset (fileOffset + chunk));
      _ ← dev_write (i64 (partOff + i64 phys)) part;
      sb ← sm_gets tx_sb;
      _ ← fs_insert partOff (Key ino typeExtentData fileOffset)
            (encodeExtentData (physToLog sb phys) allocated 0 chunk generation);
      write_chunks fuel ino data generation (fileOffset + chunk) (remaining - chunk)
  end.

Definition writeExtents (ino : Z) (data : bytes) (generation : Z) : T unit :=
  let k := Key ino typeExtentData 0 in
  if blen data =? 0 then fs_insert partOff k (encodeExtentDataInline [] generation) else
  if blen data <=? maxInlineSize then fs_insert partOff k (encodeExtentDataInline data generation) else
  if isAllZero data then fs_insert partOff k (encodeExtentData 0 0 0 (blen data) generation) else
  r ← sm_try (alloc_data (blen data));
  match r with
  | Ok (physData, physSize) =>
      _ ← dev_write (i64 (partOff + i64 physData)) data;
      sb ← sm_gets tx_sb;
      fs_insert partOff k (encodeExtentData (physToLog sb physData) physSize 0 (blen data) generation)
  | Err _ => write_chunks (length data) ino data generation 0 (blen data)
  | Panic => sm_lift Panic
  | NoFuel => sm_lift NoFuel
  end.

Fixpoint free_extents (items : list rec) : T unit :=
  match items with
  | [] => mret tt
  | m :: items =>
      sb ← sm_gets tx_sb;
      r ← sm_lift (extent_range sb m.2);
      _ ← match r with Some (phys, size) => free_data phys size | None => mret tt end;
      free_extents items
  end.
Definition freeInodeExtents (ino : Z) : T unit :=
  items ← prefix_or_nil ino typeExtentData;
  free_extents items.

(** [return updateFsTreeRoot(rwaAt, partOff, sb, sm, *fsTreeRoot)] *)
Definition commit : T unit := root ← sm_gets tx_root; updateFsTreeRoot partOff root.

(** ** Creating *)

(** The DIR_INDEX, DIR_ITEM and INODE_REF items of a new name, and the parent's
    size: the common part of [createInodeWithDirEntry] and [makeDir]. *)
Definition add_entry (ino parentIno : Z) (name : bytes) (fileType : Z) : T unit :=
  idxOff ← nextDirIndexOffset parentIno;
  let dirItemBuf := encodeDirItem ino typeInodeItem fileType name in
  _ ← fs_insert partOff (Key parentIno typeDirIndex idxOff) dirItemBuf;
  _ ← fs_insert partOff (Key parentIno typeDirItem (hashDirName name)) dirItemBuf;
  _ ← fs_insert partOff (Key ino typeInodeRef parentIno) (encodeInodeRef idxOff name);
  _ ← adjustDirSize parentIno (dirEntrySizeDelta name);
  touchDir parentIno.

Definition createInodeWithDirEntry (parentIno : Z) (name data : bytes) (mode fileType : Z) : T unit :=
  ino ← nextInodeNum;
  sb ← sm_gets tx_sb;
  let generation := next_gen sb in
  c ← sm_lift (classifyExtent data (sb_sectorSize sb));
  now ← Now;
  _ ← fs_insert partOff (inodeKey ino) (encodeInodeItem ino (blen data) mode generation c.2 1 now);
  _ ← writeExtents ino data generation;
  _ ← add_entry ino parentIno name fileType;
  commit.

Definition createFile (parentIno : Z) (name data : bytes) (perm : Z) : T unit :=
  createInodeWithDirEntry parentIno name data (u16 (Z.lor 0x8000 (Z.land perm 0x1FF))) ftRegFile.

Definition overwriteFile (ino : Z) (newData : bytes) : T unit :=
  sb ← sm_gets tx_sb;
  let generation := next_gen sb in
  _ ← freeInodeExtents ino;
  _ ← fs_delete_prefix partOff ino typeExtentData;
  _ ← writeExtents ino newData generation;
  r ← sm_try (fs_search partOff (inodeKey ino));
  _ ← match r with
      | Ok (inBuf, it) =>
          let d := item_copy inBuf it in
          d ← sm_lift (PutUint64 d inodeOffSize (blen newData));
          c ← sm_lift (classifyExtent newData (sb_sectorSize sb));
          d ← sm_lift (PutUint64 d inodeOffNBytes c.2);
          d ← sm_lift (bumpInodeTransIDSequence d (next_gen sb));
          now ← Now;
          d ← sm_lift (put_time d inodeOffCTime now);
          d ← sm_lift (put_time d inodeOffMTime now);
          u ← sm_try (fs_update partOff (inodeKey ino) d);
          match u with
          | Ok _ | Err _ => mret tt
          | Panic => sm_lift Panic
          | NoFuel => sm_lift NoFuel
          end
      | Err _ => mret tt
      | Panic => sm_lift Panic
      | NoFuel => sm_lift NoFuel
      end;
  commit.

Definition writeFile (p data : bytes) (perm : Z) : T unit :=
  let '(dir, name) := split_dir p in
  parentIno ← pathLookupIno dir;
  existing ← entry_opt parentIno name;
  match existing with
  | Some (childObjID, childFtype) =>
      if childFtype =? ftDir then sm_fail ErrOther else overwriteFile childObjID data
  | None => createFile parentIno name data perm
  end.

Definition makeDir (p : bytes) (perm : Z) : T unit :=
  let '(dir, name) := split_dir p in
  parentIno ← pathLookupIno dir;
  existing ← entry_opt parentIno name;
  match existing with
  | Some _ => sm_fail ErrOther
  | None =>
      ino ← nextInodeNum;
      sb ← sm_gets tx_sb;
      let mode := u16 (Z.lor 0x4000 (Z.land perm 0x1FF)) in
      now ← Now;
      _ ← fs_insert partOff (inodeKey ino) (encodeInodeItem ino 0 mode (next_gen sb) 0 1 now);
      _ ← add_entry ino parentIno name ftDir;
      commit
  end.

Definition symlinkInode (target linkPath : bytes) : T unit :=
  if bool_decide (target = []) then sm_fail ErrOther else
  let '(dir, name) := split_dir linkPath in
  if bool_decide (name = []) then sm_fail ErrOther else
  parentIno ← pathLookupIno dir;
  existing ← entry_opt parentIno name;
  match existing with
  | Some _ => sm_fail ErrOther
  | None => createInodeWithDirEntry parentIno name target (u16 (Z.lor 0xA000 0x1FF)) ftSymlink
  end.

(** ** Links *)
Definition linkInode (oldPath newPath : bytes) : T unit :=
  src ← fs_path oldPath;
  if isDir src then sm_fail ErrOther else
  let '(newDir, newName) := splitPath newPath in
  if bool_decide (newName = []) then sm_fail ErrOther else
  newParentIno ← pathLookupIno newDir;
  existing ← entry_opt newParentIno newName;
  match existing with
  | Some _ => sm_fail ErrOther
  | None =>
      let fileType := if isSymlink src then ftSymlink else ftRegFile in
      idxOff ← nextDirIndexOffset newParentIno;
      let dirItemBuf := encodeDirItem (in_num src) typeInodeItem fileType newName in
      _ ← fs_insert partOff (Key newParentIno typeDirIndex idxOff) dirItemBuf;
      _ ← fs_insert partOff (Key newParentIno typeDirItem (hashDirName newName)) dirItemBuf;
      _ ← appendInodeRef (in_num src) newParentIno idxOff newName;
      '(inBuf, it) ← fs_search partOff (inodeKey (in_num src));
      let d := item_copy inBuf it in
      nlink ← sm_lift (Uint32 d inodeOffNLink);
      d ← sm_lift (PutUint32 d inodeOffNLink (u32 (nlink + 1)));
      sb ← sm_gets tx_sb;
      d ← sm_lift (bumpInodeTransIDSequence d (next_gen sb));
      now ← Now;
      d ← sm_lift (put_time d inodeOffCTime now);
      _ ← fs_update partOff (inodeKey (in_num src)) d;
      _ ← adjustDirSize newParentIno (dirEntrySizeDelta newName);
      commit
  end.

(** ** Removing *)

(** The DIR_INDEX item of a name, found by a scan; none is no error. *)
Definition delete_dir_index (parentIno : Z) (name : bytes) : T unit :=
  items ← prefix_or_nil parentIno typeDirIndex;
  k ← sm_lift (find_index name items);
  match k with
  | Some k => fs_delete partOff k
  | None => mret tt
  end.
Definition delete_dir_item (parentIno : Z) (name : bytes) : T unit :=
  tolerate_missing (fs_delete partOff (Key parentIno typeDirItem (hashDirName name))).

Definition unlinkInodeOnly (ino parentIno : Z) (name : bytes) : T unit :=
  _ ← delete_dir_index parentIno name;
  _ ← delete_dir_item parentIno name;
  _ ← removeInodeRef ino parentIno name;
  '(inBuf, it) ← fs_search partOff (inodeKey ino);
  let d := item_copy inBuf it in
  cur ← sm_lift (Uint32 d inodeOffNLink);
  d ← sm_lift (if 0 <? cur then PutUint32 d inodeOffNLink (cur - 1) else Ok d);
  sb ← sm_gets tx_sb;
  d ← sm_lift (bumpInodeTransIDSequence d (next_gen sb));
  now ← Now;
  d ← sm_lift (put_time d inodeOffCTime now);
  _ ← fs_update partOff (inodeKey ino) d;
  _ ← adjustDirSize parentIno (- dirEntrySizeDelta name);
  _ ← touchDir parentIno;
  commit.

Definition removeInode (ino parentIno : Z) (name : bytes) : T unit :=
  i ← sm_try (fs_inode ino);
  linked ← sm_lift (match i with
                    | Ok i => Ok (1 <? in_nlink i)
                    | Err _ => Ok false
                    | Panic => Panic
                    | NoFuel => NoFuel
                    end);
  if linked : bool then unlinkInodeOnly ino parentIno name else
  _ ← freeInodeExtents ino;
  _ ← fs_delete_prefix partOff ino typeExtentData;
  _ ← tolerate_missing (fs_delete_prefix partOff ino typeXattrItem);
  _ ← tolerate_missing (fs_delete partOff (Key ino typeInodeRef parentIno));
  _ ← fs_delete partOff (inodeKey ino);
  _ ← delete_dir_index parentIno name;
  _ ← delete_dir_item parentIno name;
  _ ← adjustDirSize parentIno (- dirEntrySizeDelta name);
  _ ← touchDir parentIno;
  commit.

Definition deleteFile (p : bytes) : T unit :=
  let '(dir, name) := splitPath p in
  parentIno ← pathLookupIno dir;
  '(childObjID, childType) ← fs_entry parentIno name;
  if childType =? ftDir then sm_fail ErrOther else removeInode childObjID parentIno name.

(** The recursion has no bound in the code: [fuel] is the depth of directories. *)
Fixpoint purgeDirContents (fuel : nat) (dirIno : Z) : T unit :=
  match fuel with
  | O => sm_lift NoFuel
  | S fuel =>
      r ← sm_try (fs_readDir dirIno);
      entries ← sm_lift (match r with
                         | Ok l => Ok l
                         | Err _ => Ok []
                         | Panic => Panic
                         | NoFuel => NoFuel
                         end);
      (fix loop (l : list dirEntry) : T unit :=
         match l with
         | [] => mret tt
         | e :: l =>
             _ ← (if de_type e =? ftDir
                  then _ ← purgeDirContents fuel (de_objID e);
                       fs_delete_prefix partOff (de_objID e) typeDirIndex
                  else mret tt);
             _ ← removeInode (de_objID e) dirIno (de_name e);
             loop l
         end) entries
  end.

Definition deleteDir (fuel : nat) (p : bytes) : T unit :=
  let '(dir, name) := splitPath p in
  parentIno ← pathLookupIno dir;
  '(childObjID, childType) ← fs_entry parentIno name;
  if negb (childType =? ftDir) then sm_fail ErrOther else
  _ ← purgeDirContents fuel childObjID;
  _ ← fs_delete_prefix partOff childObjID typeDirIndex;
  removeInode childObjID parentIno name.

Definition countDirEntries (dirIno : Z) : T Z :=
  items ← prefix_or_nil dirIno typeDirIndex;
  mret (Z.of_nat (length (List.filter (fun m => 2 <? offset m.1) items))).

(** ** Renaming *)
Definition renameEntry (oldPath newPath : bytes) : T unit :=
  let '(oldDir, oldName) := splitPath oldPath in
  let '(newDir, newName) := splitPath newPath in
  oldParentIno ← pathLookupIno oldDir;
  '(srcObjID, srcFtype) ← fs_entry oldParentIno oldName;
  newParentIno ← pathLookupIno newDir;
  existing ← entry_opt newParentIno newName;
  _ ← match existing with
      | Some (dstObjID, dstFtype) =>
          if dstFtype =? ftDir then sm_fail ErrOther else removeInode dstObjID newParentIno newName
      | None => mret tt
      end;
  _ ← delete_dir_index oldParentIno oldName;
  _ ← delete_dir_item oldParentIno oldName;
  _ ← removeInodeRef srcObjID oldParentIno oldName;
  idxOff ← nextDirIndexOffset newParentIno;
  let dirItemBuf := encodeDirItem srcObjID typeInodeItem srcFtype newName in
  _ ← fs_insert partOff (Key newParentIno typeDirIndex idxOff) dirItemBuf;
  _ ← fs_insert partOff (Key newParentIno typeDirItem (hashDirName newName)) dirItemBuf;
  _ ← appendInodeRef srcObjID newParentIno idxOff newName;
  _ ← adjustDirSize oldParentIno (- dirEntrySizeDelta oldName);
  _ ← adjustDirSize newParentIno (dirEntrySizeDelta newName);
  _ ← touchDir oldParentIno;
  _ ← (if oldParentIno =? newParentIno then mret tt else touchDir newParentIno);
  commit.

(** ** Inode attributes *)
Definition updateInodeMetadata (ino : Z) (mutator : bytes -> T bytes) : T unit :=
  '(buf, it) ← fs_search partOff (inodeKey ino);
  d ← mutator (item_copy buf it);
  sb ← sm_gets tx_sb;
  d ← sm_lift (bumpInodeTransIDSequence d (next_gen sb));
  now ← Now;
  d ← sm_lift (put_time d inodeOffCTime now);
  _ ← fs_update partOff (inodeKey ino) d;
  commit.

Definition chownInode (p : bytes) (uid gid : Z) : T unit :=
  i ← fs_path p;
  updateInodeMetadata (in_num i) (fun d => sm_lift (
    d ← PutUint32 d inodeOffUID uid;
    PutUint32 d inodeOffGID gid)).

Definition chmodInode (p : bytes) (perm : Z) : T unit :=
  i ← fs_path p;
  updateInodeMetadata (in_num i) (fun d => sm_lift (
    cur ← Uint32 d inodeOffMode;
    PutUint32 d inodeOffMode (Z.lor (Z.ldiff cur 0xFFF) (Z.land (u32 perm) 0xFFF)))).

Definition chtimesInode (p : bytes) (atime mtime : timespec) : T unit :=
  i ← fs_path p;
  updateInodeMetadata (in_num i) (fun d => sm_lift (
    d ← put_time d inodeOffATime atime;
    put_time d inodeOffMTime mtime)).

Fixpoint trim_extents (newSize : Z) (items : list rec) : T unit :=
  match items with
  | [] => mret tt
  | m :: items =>
      t ← sm_lift (trim_extent newSize (offset m.1) m.2);
      _ ← match t with
          | TrimKeep => mret tt
          | TrimDrop => fs_delete partOff m.1
          | TrimTo d => fs_update partOff m.1 d
          end;
      trim_extents newSize items
  end.

Definition truncateInode (p : bytes) (newSize : Z) : T unit :=
  i ← fs_path p;
  if negb (isRegular i) then sm_fail ErrOther else
  if in_size i <? newSize then
    updateInodeMetadata (in_num i) (fun d => sm_lift (PutUint64 d inodeOffSize newSize))
  else if newSize =? in_size i then updateInodeMetadata (in_num i) (fun d => mret d)
  else
    r ← sm_try (fs_prefix partOff (in_num i) typeExtentData);
    items ← match r with
            | Ok items => mret items
            | Err e => if is_not_found e then mret [] else sm_fail e
            | Panic => sm_lift Panic
            | NoFuel => sm_lift NoFuel
            end;
    _ ← trim_extents newSize items;
    updateInodeMetadata (in_num i) (fun d =>
      d ← sm_lift (PutUint64 d inodeOffSize newSize);
      items ← prefix_or_nil (in_num i) typeExtentData;
      nbytes ← sm_lift (sum_nbytes items 0);
      sm_lift (PutUint64 d inodeOffNBytes nbytes)).

(** [Truncate] of the API. *)
Definition Truncate (p : bytes) (newSize : Z) : T unit :=
  if newSize <? 0 then sm_fail ErrOther else truncateInode p (u64 newSize).

(** ** Extended attributes *)
Definition xattrKey (ino : Z) (name : bytes) : key := Key ino typeXattrItem (hashDirName name).

Definition getXattrInode (p name : bytes) : T bytes :=
  i ← fs_path p;
  '(buf, it) ← fs_search partOff (xattrKey (in_num i) name);
  x ← sm_lift (parseXattrItem (item_data it buf));
  match x with
  | None => sm_fail ErrOther
  | Some (gotName, gotValue) => if bool_decide (gotName = name) then mret gotValue else sm_fail ErrNotFound
  end.

Definition setXattrInode (p name value : bytes) : T unit :=
  i ← fs_path p;
  let payload := encodeXattrItemPayload name value in
  r ← sm_try (fs_search partOff (xattrKey (in_num i) name));
  _ ← match r with
      | Ok _ => fs_update partOff (xattrKey (in_num i) name) payload
      | Err _ => fs_insert partOff (xattrKey (in_num i) name) payload
      | Panic => sm_lift Panic
      | NoFuel => sm_lift NoFuel
      end;
  updateInodeMetadata (in_num i) (fun d => mret d).

Definition removeXattrInode (p name : bytes) : T unit :=
  i ← fs_path p;
  _ ← fs_delete partOff (xattrKey (in_num i) name);
  updateInodeMetadata (in_num i) (fun d => mret d).

(** [out[name] = value] on a Go map. *)
Fixpoint map_put (m : list (bytes * bytes)) (name value : bytes) : list (bytes * bytes) :=
  match m with
  | [] => [(name, value)]
  | e :: m => if bool_decide (e.1 = name) then (name, value) :: m else e :: map_put m name value
  end.
Fixpoint xattr_map (items : list rec) (out : list (bytes * bytes)) : outcome (list (bytes * bytes)) :=
  match items with
  | [] => Ok out
  | m :: items =>
      x ← parseXattrItem m.2;
      xattr_map items (match x with Some (name, value) => map_put out name value | None => out end)
  end.
Definition Xattrs (p : bytes) : T (list (bytes * bytes)) :=
  i ← fs_path p;
  r ← sm_try (fs_prefix partOff (in_num i) typeXattrItem);
  match r with
  | Ok items => sm_lift (xattr_map items [])
  | Err e => if is_not_found e then mret [] else sm_fail e
  | Panic => sm_lift Panic
  | NoFuel => sm_lift NoFuel
  end.

(** ** Reads of the API *)
Definition Stat (p : bytes) : T (Z * Z * Z) :=
  i ← fs_path p; mret (u16 (in_mode i), in_size i, in_num i).

Definition ListDir (p : bytes) : T (list dirEntry) :=
  i ← fs_path p;
  if negb (isDir i) then sm_fail ErrOther else fs_readDir (in_num i).

Definition fs_file_data `{Decoders} (dev : Z) (i : inodeItem) : T bytes :=
  root ← sm_gets tx_root;
  tx_lift (fun sb s => readFileData (node_read partOff sb) (ReadAt (st_dev s)) dev partOff sb root i s).

Definition ReadFile `{Decoders} (dev : Z) (p : bytes) : T bytes :=
  i ← fs_path p;
  if negb (isRegular i) then sm_fail ErrOther else fs_file_data dev i.

Definition ReadLink `{Decoders} (dev : Z) (p : bytes) : T bytes :=
  i ← fs_path p;
  if negb (isSymlink i) then sm_fail ErrOther else fs_file_data dev i.

Record InodeStat := MkInodeStat {
  is_Inode : Z; is_Mode : Z; is_Size : Z; is_NBytes : Z; is_NLink : Z; is_UID : Z; is_GID : Z;
  is_Generation : Z; is_TransID : Z; is_Sequence : Z; is_Flags : Z;
  is_ATime : timespec; is_CTime : timespec; is_MTime : timespec; is_OTime : timespec }.

(** [time.Unix(sec, nsec)], which carries nanoseconds past a second over. *)
Definition readTime (d : bytes) (off : Z) : outcome timespec :=
  sec ← Uint64 d off;
  nsec ← Uint32 d (off + 8);
  Ok (i64 (i64 sec + nsec / 1000000000), nsec mod 1000000000).

Definition decode_stat (num : Z) (d : bytes) : outcome InodeStat :=
  if blen d <? inodeItemSize then Err ErrOther else
  mode ← Uint32 d inodeOffMode;
  size ← Uint64 d inodeOffSize;
  nbytes ← Uint64 d inodeOffNBytes;
  nlink ← Uint32 d inodeOffNLink;
  uid ← Uint32 d inodeOffUID;
  gid ← Uint32 d inodeOffGID;
  generation ← Uint64 d inodeOffGeneration;
  transid ← Uint64 d inodeOffTransID;
  sequence ← Uint64 d inodeOffSequence;
  flags ← Uint64 d inodeOffFlags;
  atime ← readTime d inodeOffATime;
  ctime ← readTime d inodeOffCTime;
  mtime ← readTime d inodeOffMTime;
  otime ← readTime d inodeOffOTime;
  Ok (MkInodeStat num (u16 mode) size nbytes nlink uid gid generation transid sequence flags
        atime ctime mtime otime).

Definition ExtendedStat (p : bytes) : T InodeStat :=
  i ← fs_path p;
  '(buf, it) ← fs_search partOff (inodeKey (in_num i));
  sm_lift (decode_stat (in_num i) (item_data it buf)).

(** ** The volume label *)
Definition MaxLabelLen : Z := 255.

(** [bytes.TrimRight(l, NUL)] *)
Definition trim_nul (l : bytes) : bytes :=
  rev ((fix drop_nul (l : bytes) : bytes :=
          match l with c :: r => if bool_decide (c = x00) then drop_nul r else l | [] => [] end) (rev l)).
Definition Label (w : txState D) : bytes := trim_nul (sb_label (tx_sb w)).

Definition set_label (sb : superblock) (l : bytes) : superblock :=
  Superblock (sb_nodeSize sb) (sb_sectorSize sb) (sb_leafSize sb) (sb_stripeSize sb)
    (sb_totalBytes sb) (sb_rootLogAddr sb) (sb_chunkLogAddr sb) (sb_generation sb)
    (sb_devID sb) (sb_uuid sb) l (sb_sysChunks sb).

Definition label_slot (label : bytes) : bytes := splice (zeros 256) 0 label.

Definition label_superblock (buf label : bytes) : outcome bytes :=
  buf ← copy_at buf sbfLabel (label_slot label);
  updateSuperblockCRC buf.

(** The loop over the superblock copies; the first one is the primary. *)
Fixpoint label_mirrors (primary : bool) (mirrors : list Z) (label : bytes) : T unit :=
  match mirrors with
  | [] => mret tt
  | sbOff :: mirrors =>
      r ← sm_try (dev_read (partOff + sbOff) sbfSize);
      match r with
      | Ok buf =>
          magic ← sm_lift (Uint64 buf sbfMagic);
          if negb (magic =? sbMagic) then
            if primary then sm_fail ErrOther else label_mirrors false mirrors label
          else
            buf ← sm_lift (label_superblock buf label);
            _ ← dev_write (partOff + sbOff) buf;
            label_mirrors false mirrors label
      | Err e => if primary then sm_fail e else label_mirrors false mirrors label
      | Panic => sm_lift Panic
      | NoFuel => sm_lift NoFuel
      end
  end.

(** [sync] is what [fs.f.Sync()] returns: when it fails the label is on the device
    but not in memory. *)
Definition SetLabel (sync : outcome unit) (label : bytes) : T unit :=
  if MaxLabelLen <? blen label then sm_fail ErrOther else
  _ ← label_mirrors true [0x10000; 0x4000000; 0x4000000000] label;
  _ ← sm_lift sync;
  set_sb (fun sb => set_label sb (label_slot label)).
End Ops.
