(* ===== verification/FsTree.v ===== *)
(** * The FS tree as a finite map under the steps of a write operation

    [repr] says what a state of [Tx] stands for: a finite map from keys to items,
    stored in the tree at [tx_root], beside the other trees and the file data.
    The lemmas give each step of [Tx] its effect on that map; they hold for trees
    of any height, a tree that has outgrown the depth limit refusing every
    further step with an error. *)
From Stdlib Require Import ZArith Lia Strings.Byte.
From stdpp Require Import base option list numbers sorting gmap.
From S2P Require Import Prelude Bytes Alloc Layout SafeIO Chunk Node BTree Walk Split Crc32c Cow Store CowCorrect.
From S2P Require Import Codec Read Tx.
Local Open Scope Z_scope.
Local Open Scope btrfs_scope.

(** ** Trees that are too tall *)
Section Tall.
Context `{HL : SafeIOLaws} (rn : Z -> outcome bytes).

Lemma searchTree_loop_tall fuel seen h a c ads pl d k :
  subtree rn h a c ads -> seen_above rn seen h -> maxBtreeDepth < d + Z.of_nat h ->
  maxBtreeDepth - d < Z.of_nat fuel -> (pl = -1 \/ pl = Z.of_nat h + 1) ->
  exists e, sm_run (searchTree_loop (pure_reader rn) fuel seen a pl d (objID k) (typ k) (offset k)) = Err e.
Proof using HL.
  revert fuel seen a c ads pl d. induction h as [|h IH]; intros fuel seen a c ads pl d Ht Hseen Hd Hf Hpl;
    destruct fuel as [|fuel]; cbn [searchTree_loop]; (case_if; [by eexists|]); try lia.
  destruct (fresh_below rn seen _ a c ads Ht Hseen) as (seen'&Ev&Hseen').
  rewrite sm_run_bind, sm_run_lift, Ev. cbn [mbind outcome_bind]. rewrite sm_run_bind.
  destruct Ht as (buf&kids&Hr&Hi&->&_&Hsep&Hkids). change (sm_run (pure_reader rn a)) with (rn a).
  rewrite Hr. cbn [mbind outcome_bind]. rewrite sm_run_bind, sm_run_lift, (internal_hdr _ _ _ Hi).
  cbn [mbind outcome_bind hdr_level hdr_nItems]. case_if; [destruct Hpl; lia|]. case_if; [lia|].
  rewrite sm_run_bind, sm_run_lift, (child_ptrs_internal _ _ _ _ Hi). cbn [mbind outcome_bind].
  rewrite take_until_map, map_map. cbn [kid_ptr fst snd]. change (take_until _ kids) with (upto k kids). unfold chosen.
  change (map _ (upto k kids)) with (kid_addr <$> upto k kids). rewrite fmap_last.
  destruct (last (upto k kids)) as [x|] eqn:El; cbn; [|by eexists].
  assert (Hx : x ∈ kids).
  { apply last_Some in El as [pre El]. apply (upto_elem k). rewrite El. apply elem_of_app. right. by left. }
  rewrite Forall_forall in Hkids. destruct (Hkids _ Hx) as [Hnz Hsub]. case_if; [done|].
  apply (IH fuel seen' _ (kid_recs x) (kid_addrs x)); try done; [by apply Hseen'|lia|lia|right; lia].
Qed.

Lemma searchTree_tall h root c ads k :
  subtree rn h root c ads -> maxBtreeDepth < Z.of_nat h ->
  exists e, sm_run (searchTree (pure_reader rn) root (objID k) (typ k) (offset k)) = Err e.
Proof using HL.
  intros Ht Hh. eapply searchTree_loop_tall; [done| |lia|unfold depth_fuel, maxBtreeDepth; lia|by left].
  intros x Hx. rewrite visit_empty_spec in Hx. by apply not_elem_of_nil in Hx.
Qed.
End Tall.

Section TallTrace.
Context `{HL : SafeIOLaws} {D : Type} `{RWL : RWLaws D} (partOff : Z) (sb : superblock) (dv : dataView).
Context (Hflat : flat_map partOff sb) (t : Prop).
Abbreviation rn := (rn partOff sb).

Lemma tracePath_loop_tall h : forall fuel seen a c ads d k (s : cowState D),
  wtree t (rn s) h a c ads -> (forall x, x ∈ ads -> mapped sb x) -> key_ok k ->
  seen_above (rn s) seen h -> maxBtreeDepth < d + Z.of_nat h -> maxBtreeDepth - d < Z.of_nat fuel ->
  tracePath_loop partOff sb fuel seen a d k s = (s, Err ErrLoopLimit).
Proof using Hflat HL RWL.
  induction h as [|h IH]; intros fuel seen a c ads d k s Hw Hmap Hk Hseen Hd Hfuel;
    destruct fuel as [|fuel]; cbn [tracePath_loop]; (case_if; [done|]); try lia.
  destruct (fresh_below (rn s) seen _ a c ads (wtree_subtree _ _ _ _ _ _ Hw) Hseen) as (seen'&Ev&Hseen').
  erewrite sm_lift_Ok by exact Ev. destruct Hw as (buf&kids&Hr&Hi&Ec&Ea&Hs&Hne&Hks).
  erewrite sm_bind_Ok by (unfold node_read; fold (rn s a); by rewrite Hr).
  erewrite sm_lift_Ok by exact (internal_hdr _ _ _ Hi). cbn [hdr_level hdr_nItems]. case_if; [lia|].
  assert (Hb : blen buf = sb_nodeSize sb) by (eapply rn_blen; [done|apply Hmap; rewrite Ea; by left|done]).
  destruct (choose_child t partOff sb Hflat s [] h a c ads buf kids k Hr Hb Hi Ec Ea Hs Hne Hks Hk I)
    as (f&Ech&Efa&Efb&Efk&_); [by apply Forall_forall|by intros _|].
  apply outcome_bind_Ok in Ech as (c0&Ec0&Ec1). erewrite sm_lift_Ok by exact Ec0.
  assert (Hstep : (if c0.1 <? 0 then p ← sm_lift (Uint64 buf (nodeHdrSize + 17)); mret (0, p) else mret c0) s =
    (s, Ok (Z.of_nat (length (zf_kl f)), kid_addr (zf_x f)))).
  { revert Ec1. case_if; [|by intros [= ->]]. intros Eo. apply outcome_bind_Ok in Eo as (p&Ep&[= <- <-]).
    by erewrite sm_lift_Ok by exact Ep. }
  erewrite sm_bind_Ok by exact Hstep.
  assert (Hx : zf_x f ∈ kids) by (rewrite <- Efk; unfold zf_kids; apply elem_of_app; right; by left).
  rewrite Forall_forall in Hks. destruct (Hks _ Hx) as (_&_&_&Hxw).
  erewrite sm_bind_Err; [done|]. eapply IH; [exact Hxw| |done|by apply Hseen'|lia|lia].
  intros x Hxa. apply Hmap. rewrite Ea. right. by eapply elem_of_kid_addrs.
Qed.

Lemma tracePath_tall (s : cowState D) h root c ads others k :
  wtree t (rn s) h root c ads -> Inv partOff sb dv s (ads ++ others) -> key_ok k ->
  maxBtreeDepth < Z.of_nat h -> tracePath partOff sb root k s = (s, Err ErrLoopLimit).
Proof using Hflat HL RWL.
  intros Hw Hi Hk Hh. eapply tracePath_loop_tall; [exact Hw| |done| |lia|unfold depth_fuel, maxBtreeDepth; lia].
  - intros x Hx. eapply Inv_live_nonzero; [done|done|]. apply elem_of_app. by left.
  - intros x Hx. rewrite visit_empty_spec in Hx. by apply not_elem_of_nil in Hx.
Qed.

Lemma cowMutate_tall (s : cowState D) h root c ads others k fn :
  wtree t (rn s) h root c ads -> Inv partOff sb dv s (ads ++ others) -> key_ok k ->
  maxBtreeDepth < Z.of_nat h -> cowMutate partOff sb root k fn s = (s, Err ErrLoopLimit).
Proof using Hflat HL RWL.
  intros Hw Hi Hk Hh. unfold cowMutate. erewrite sm_bind_Err; [done|]. by eapply tracePath_tall.
Qed.

(** ** The number of nodes *)
Lemma live_count (s : cowState D) live :
  Inv partOff sb dv s live -> dv_size dv <= maxTreeNodes * sb_nodeSize sb ->
  Z.of_nat (length live) <= maxTreeNodes.
Proof using Hflat.
  intros (_&_&_&Hok&Hnd&Hdis&_&Hsz&_) Hdev. pose proof (NS_bounds partOff sb Hflat) as Hns.
  set (f := fun a => a / sb_nodeSize sb).
  assert (Hp : 0 < sb_nodeSize sb) by hdr_lia.
  assert (Hinj : NoDup (map f live)).
  { clear Hok. induction live as [|a live IH]; [constructor|]. apply NoDup_cons in Hnd as [Ha Hnd].
    cbn [map]. apply NoDup_cons. split.
    - intros Hin. apply list_elem_of_fmap in Hin as (b&Eb&Hb). unfold f in Eb.
      destruct (Hdis a b) as [->|Hab]; [by left|by right|done|].
      pose proof (Z.mul_div_le a _ Hp). pose proof (Z.mul_div_le b _ Hp).
      pose proof (Z.mul_succ_div_gt a _ Hp). pose proof (Z.mul_succ_div_gt b _ Hp). nia.
    - apply IH; [done|]. intros x y Hx Hy. apply Hdis; by right. }
  assert (Hsub : map f live ⊆+ seqZ 0 maxTreeNodes).
  { apply NoDup_submseteq; [done|]. intros x Hx. apply list_elem_of_fmap in Hx as (a&->&Ha).
    rewrite Forall_forall in Hok. destruct (Hok _ Ha) as (H0&_&Hd). apply elem_of_seqZ. unfold f.
    destruct Hflat as (_&Hpo&_). pose proof (Z.mul_div_le a _ Hp). split; [apply Z.div_pos; lia|].
    cbn. apply Z.div_lt_upper_bound; [lia|]. nia. }
  apply submseteq_length in Hsub. rewrite length_map, length_seqZ in Hsub.
  unfold maxTreeNodes in *. lia.
Qed.
End TallTrace.

(** ** What a state stands for *)

(** [dv'] knows at least the data [dv] knows. *)
Definition dv_le (dv dv' : dataView) : Prop :=
  dv_size dv' = dv_size dv /\
  (forall p, dv_held dv p -> dv_held dv' p) /\
  (forall a n, 0 < n -> (forall p, a <= p < a + n -> dv_held dv p) -> dv_read dv' a n = dv_read dv a n).
#[global] Instance dv_le_preorder : PreOrder dv_le.
Proof.
  split; [done|]. intros a b c (E1&H1&H2) (E2&H3&H4). split_and!; [congruence|auto|]. intros x n Hn Hd.
  rewrite H4, H2 by auto. done.
Qed.

(** Nodes beside the FS tree that an operation must keep: a property of the
    superblock, of the node reader and of the list of their addresses. *)
Definition keeper : Type := superblock -> (Z -> outcome bytes) -> list Z -> Prop.
Class Stable (R : keeper) : Prop :=
  stable sb rn rn' rest leak :
    R sb rn rest -> (forall x, x ∈ rest -> rn' x = rn x) -> R sb rn' (leak ++ rest).
Definition any_rest : keeper := fun _ _ _ => True.
#[global] Instance any_rest_stable : Stable any_rest.
Proof. done. Qed.

(** Some key of the map is at or below [k]. *)
Definition covered (m : gmap key bytes) (k : key) : Prop :=
  exists k0 d0, m !! k0 = Some d0 /\ key_num k0 <= key_num k.

Lemma covered_insert m k k' d : covered m k -> covered (<[k' := d]> m) k.
Proof.
  intros (k0&d0&E&Hle). destruct (decide (k0 = k')) as [->|Hne].
  - exists k', d. by rewrite lookup_insert_eq.
  - exists k0, d0. by rewrite lookup_insert_ne.
Qed.

(** The state after a step, as far as the clients see it: the same superblock. *)
Definition next {D} (w w' : txState D) : Prop := tx_sb w' = tx_sb w.
#[global] Instance next_preorder {D} : PreOrder (@next D).
Proof. split; [done|]. unfold next. intros a b c -> ->. done. Qed.

Section FsTree.
Context `{HL : SafeIOLaws} {D : Type} `{RWL : RWLaws D} `{CK : Clock} (partOff : Z) (R : keeper) `{HR : !Stable R}.
Context (X : txState D -> Prop).
Abbreviation W := (txState D).
Abbreviation wrn w := (rn partOff (tx_sb w) (tx_cow w)).

(** The device is not too large for the walks, and file data is in chunks. *)
Definition dv_fits (sb : superblock) (dv : dataView) : Prop :=
  dv_size dv <= maxTreeNodes * sb_nodeSize sb /\ forall p, dv_held dv p -> Store.mapped sb p.

Definition repr (t : Prop) (dv : dataView) (w : W) (h : nat) (m : gmap key bytes) : Prop :=
  exists c ads rest,
    flat_map partOff (tx_sb w) /\ wtree t (wrn w) h (tx_root w) c ads /\ leaf_map c = m /\
    Inv partOff (tx_sb w) dv (tx_cow w) (ads ++ rest) /\ R (tx_sb w) (wrn w) rest /\
    Forall (fun r => r.2 <> []) c /\ dv_fits (tx_sb w) dv.

#[local] Instance node_read_like sb (s : cowState D) :
  ReaderLike (fun s' => s' = s) (node_read partOff sb) (rn partOff sb s).
Proof. intros a s' ->. done. Qed.

Lemma pure_run {A} (m : SM (cowState D) A) s o :
  sm_refines (fun s' => s' = s) m o -> m s = (s, o).
Proof using. intros Hm. destruct (Hm s eq_refl) as [E1 E2]. destruct (m s). cbn in *. congruence. Qed.

Lemma wp_tx_read {A} (f : superblock -> SM (cowState D) A) w o (Q : A -> W -> Prop) E :
  f (tx_sb w) (tx_cow w) = (tx_cow w, o) ->
  match o with Ok a => Q a w | Err e => E e w | _ => False end ->
  wp X (tx_lift f) w Q E.
Proof using. intros Ef Ho. unfold wp, tx_lift. rewrite Ef. destruct w. by destruct o. Qed.

Lemma repr_data t dv w h m k d : repr t dv w h m -> m !! k = Some d -> d <> [].
Proof using.
  intros (c&ads&rest&_&_&<-&_&_&Hd&_) E. apply elem_of_list_to_map_2 in E. rewrite Forall_forall in Hd.
  by apply (Hd _ E).
Qed.
Lemma repr_key_ok t dv w h m k d : repr t dv w h m -> m !! k = Some d -> key_ok k.
Proof using.
  intros (c&ads&rest&_&Hw&<-&_) E. apply elem_of_list_to_map_2 in E.
  pose proof (subtree_keys_ok _ _ _ _ _ (wtree_subtree _ _ _ _ _ _ Hw)) as Hk. rewrite Forall_forall in Hk.
  by apply (Hk _ E).
Qed.
Lemma repr_flat t dv w h m : repr t dv w h m -> flat_map partOff (tx_sb w).
Proof using. by intros (?&?&?&?&_). Qed.

(** The clock does not matter. *)
Lemma repr_tick t dv w h m n : repr t dv w h m -> repr t dv (TxState (tx_cow w) (tx_sb w) (tx_root w) n) h m.
Proof using. done. Qed.

Lemma item_copy_data buf it : item_data it buf <> [] -> item_copy buf it = item_data it buf.
Proof using.
  unfold item_copy. intros Hne. set (d := item_data it buf) in *.
  assert (Hd : blen d = it_dataSize it /\ 0 <= it_dataSize it).
  { revert Hne. unfold d, item_data. case_if; [done|]. intros Hne. unfold nodeHdrSize in *.
    destruct (Z_lt_le_dec (it_dataSize it) 0) as [Hn|Hn].
    - exfalso. apply Hne. unfold sub. by replace (Z.to_nat (it_dataSize it)) with 0%nat by lia.
    - rewrite blen_sub by lia. lia. }
  destruct Hd as [Hl Hn]. unfold splice. cbn. rewrite take_0. cbn.
  rewrite drop_ge; [by rewrite app_nil_r|]. unfold zeros, blen in *. rewrite length_replicate. lia.
Qed.

(** ** Reads *)
Lemma tx_search_spec t w h root c ads rest dv k (Q : bytes * leafItem -> W -> Prop) E :
  flat_map partOff (tx_sb w) -> wtree t (wrn w) h root c ads ->
  Inv partOff (tx_sb w) dv (tx_cow w) rest -> key_ok k -> Forall (fun r => r.2 <> []) c ->
  (forall buf it d, Z.of_nat h <= maxBtreeDepth -> leaf_map c !! k = Some d -> item_data it buf = d ->
     item_copy buf it = d -> it_k it = k -> Q (buf, it) w) ->
  (forall e, (Z.of_nat h <= maxBtreeDepth -> leaf_map c !! k = None /\ e = ErrNotFound) -> E e w) ->
  wp X (tx_search partOff root k) w Q E.
Proof using HL RWL.
  intros Hf Hw Hi Hk Hd HQ HE. unfold tx_search. pose proof (wtree_subtree _ _ _ _ _ _ Hw) as Hs.
  eapply wp_tx_read; [apply pure_run, (searchTree_loop_like (fun s' => s' = tx_cow w) _ (wrn w))|].
  fold (searchTree (pure_reader (wrn w)) root (objID k) (typ k) (offset k)).
  destruct (Z_le_gt_dec (Z.of_nat h) maxBtreeDepth) as [Hh|Hh].
  - pose proof (searchTree_spec _ _ _ _ _ _ Hs Hh Hk) as Hr. destruct (leaf_map c !! k) as [d|] eqn:Em.
    + destruct Hr as (buf&it&Er&Ek&Ed). rewrite Er. apply (HQ buf it d); try done.
      rewrite <- Ed. apply item_copy_data. rewrite Ed. apply elem_of_list_to_map_2 in Em.
      rewrite Forall_forall in Hd. by apply (Hd _ Em).
    + rewrite Hr. by apply HE.
  - destruct (searchTree_tall _ _ _ _ _ k Hs ltac:(lia)) as [e Er]. rewrite Er. apply HE. lia.
Qed.

Lemma fs_search_spec t dv w h m k (Q : bytes * leafItem -> W -> Prop) E :
  repr t dv w h m -> key_ok k ->
  (forall buf it d, Z.of_nat h <= maxBtreeDepth -> m !! k = Some d -> item_data it buf = d -> item_copy buf it = d ->
     Q (buf, it) w) ->
  (forall e, (Z.of_nat h <= maxBtreeDepth -> m !! k = None /\ e = ErrNotFound) -> E e w) ->
  wp X (fs_search partOff k) w Q E.
Proof using HL RWL.
  intros (c&ads&rest&Hf&Hw&<-&Hi&_&Hd&_) Hk HQ HE. apply wp_bind, wp_gets.
  eapply tx_search_spec; [done..|exact Hi|done|done| |done]. intros buf it d ?????. by apply (HQ buf it d).
Qed.

(** The items with a prefix, in key order. *)
Definition prefix_of (m : gmap key bytes) (o t : Z) (l : list rec) : Prop :=
  keys_sorted l /\
  forall k d, (k, d) ∈ l <-> m !! k = Some d /\ objID k = o /\ typ k = t.

Lemma filter_prefix_of c o t :
  keys_sorted c -> prefix_of (leaf_map c) o t (List.filter (rec_prefix o t) c).
Proof using.
  intros Hs. pose proof (keys_sorted_NoDup _ Hs) as Hnd. split.
  - clear Hnd. induction c as [|[k d] c IH]; [constructor|]. apply keys_sorted_cons in Hs as [Hs Hk].
    cbn [List.filter]. destruct (rec_prefix o t (k, d)); [|by apply IH].
    apply keys_sorted_cons. split; [by apply IH|]. apply Forall_forall. intros x Hx. rewrite Forall_forall in Hk.
    apply Hk. apply list_elem_of_fmap in Hx as (r&->&Hr). apply list_elem_of_In, filter_In in Hr as [Hr _].
    apply list_elem_of_fmap_2. by apply list_elem_of_In.
  - intros k d. rewrite list_elem_of_In, filter_In, <- list_elem_of_In. unfold leaf_map.
    rewrite <- elem_of_list_to_map by done. unfold rec_prefix. cbn [fst].
    rewrite andb_true_iff, !Z.eqb_eq. tauto.
Qed.

Lemma rn_fills w a : flat_map partOff (tx_sb w) -> safe_with (wrn w a) (fun buf => nodeHdrSize <= blen buf).
Proof using HL RWL.
  intros Hf. unfold rn, readNodeUncached. eapply (safe_with_bind _ _ (fun _ => True)).
  { unfold physAddr, lookupChunk. by destruct (List.find _ _). }
  intros p _. pose proof (NS_bounds partOff (tx_sb w) Hf) as Hns.
  pose proof (MakeBytes_spec (sb_nodeSize (tx_sb w)) maxNodeSize) as Hmb.
  rewrite !(proj2 (Z.leb_le _ _)) in Hmb by hdr_lia. cbn [andb] in Hmb. rewrite Hmb. cbn [mbind outcome_bind].
  rewrite blen_zeros by hdr_lia. pose proof (ReadAt_safe (st_dev (tx_cow w)) p (sb_nodeSize (tx_sb w))) as Hs.
  destruct (ReadAt _ _ _) as [b| | |] eqn:Er; try done. apply ReadAt_blen in Er; [cbn; hdr_lia|hdr_lia].
Qed.

Lemma fs_prefix_spec t dv w h m o ty (Q : list rec -> W -> Prop) E :
  repr t dv w h m -> 0 <= ty < 2 ^ 8 ->
  (forall l, (Z.of_nat h <= maxBtreeDepth -> prefix_of m o ty l) -> Q l w) ->
  (forall e, (Z.of_nat h <= maxBtreeDepth -> prefix_of m o ty [] /\ e = ErrNotFound) -> E e w) ->
  wp X (fs_prefix partOff o ty) w Q E.
Proof using HL RWL.
  intros (c&ads&rest&Hf&Hw&<-&Hi&_&_&Hdev) Hty HQ HE. apply wp_bind, wp_gets.
  eapply wp_tx_read; [apply pure_run, (collectPrefixItems_like (fun s' => s' = tx_cow w) _ (wrn w))|].
  pose proof (wtree_subtree _ _ _ _ _ _ Hw) as Hs.
  destruct (Z_le_gt_dec (Z.of_nat h) maxBtreeDepth) as [Hh|Hh].
  - pose proof (live_count _ _ _ Hf _ _ Hi (proj1 Hdev)) as Hcnt. rewrite length_app in Hcnt.
    pose proof Hi as (_&_&_&_&Hnd&_). apply NoDup_app in Hnd as (Hnd&_&_).
    rewrite (collectPrefixItems_spec _ h _ c ads o ty Hs Hh Hnd ltac:(lia) Hty).
    pose proof (filter_prefix_of c o ty (wtree_sorted _ _ _ _ _ _ Hw)) as Hp.
    destruct (List.filter _ c) as [|r l]; [by apply HE|by apply HQ].
  - destruct (collectPrefixItems_safe (fun _ => True) (pure_reader (wrn w))
      ltac:(intros a s _; split; [done|by apply rn_fills]) (tx_root w) o ty tt I) as [_ Hsafe].
    fold (sm_run (collectPrefixItems (pure_reader (wrn w)) (tx_root w) o ty)) in Hsafe.
    destruct (sm_run _) as [l|e| |]; try done; [apply HQ|apply HE]; lia.
Qed.

(** ** Mutations *)

(** What a copy-on-write step leaves, put together again. *)
Lemma repr_ok t dv w h0 rest s' root' c' :
  flat_map partOff (tx_sb w) -> R (tx_sb w) (wrn w) rest ->
  dv_fits (tx_sb w) dv -> Forall (fun r => r.2 <> []) c' ->
  cow_ok t partOff (tx_sb w) dv h0 (tx_cow w) c' rest s' root' ->
  exists h', (h' <= h0)%nat /\ repr t dv (TxState s' (tx_sb w) root' (tx_tick w)) h' (leaf_map c').
Proof using HR.
  intros Hf HRr Hdev Hd (h'&ads'&Hle&Hw&Hi&Hsame). exists h'. split; [done|]. exists c', ads', rest.
  cbn [tx_cow tx_sb tx_root]. split_and!; try done. apply (stable _ (wrn w) _ rest []); done.
Qed.
Lemma repr_err t dv w h c ads rest s' :
  flat_map partOff (tx_sb w) -> R (tx_sb w) (wrn w) rest ->
  dv_fits (tx_sb w) dv -> Forall (fun r => r.2 <> []) c ->
  wtree t (wrn w) h (tx_root w) c ads ->
  cow_err partOff (tx_sb w) dv (tx_cow w) ads rest s' ->
  repr t dv (TxState s' (tx_sb w) (tx_root w) (tx_tick w)) h (leaf_map c).
Proof using HR.
  intros Hf HRr Hdev Hd Hw (leak&Hi&Hsame). exists c, ads, (leak ++ rest).
  cbn [tx_cow tx_sb tx_root]. split_and!; try done.
  - eapply wtree_agree; [exact Hw|]. intros x Hx. apply Hsame, elem_of_app. by left.
  - eapply Inv_perm; [|exact Hi]. rewrite !app_assoc. by rewrite (Permutation_app_comm leak ads).
  - apply (stable _ (wrn w)); [done|]. intros x Hx. apply Hsame, elem_of_app. by right.
Qed.

Lemma leaf_map_data m (c : list rec) :
  leaf_map c = m -> keys_sorted c -> (forall k d, m !! k = Some d -> d <> []) -> Forall (fun r => r.2 <> []) c.
Proof using.
  intros <- Hs Hm. apply Forall_forall. intros [k d] Hin. apply (Hm k).
  apply elem_of_list_to_map_1; [by apply keys_sorted_NoDup|done].
Qed.

(** One step on the root: the new root on success, nothing else changed. *)
Lemma wp_fs_mutate f w (Q : unit -> W -> Prop) E :
  match f (tx_sb w) (tx_root w) (tx_cow w) with
  | (s', Ok root') => Q tt (TxState s' (tx_sb w) root' (tx_tick w))
  | (s', Err e) => E e (TxState s' (tx_sb w) (tx_root w) (tx_tick w))
  | _ => False
  end -> wp X (fs_mutate f) w Q E.
Proof using.
  intros Hm. apply wp_bind, wp_gets, wp_bind. unfold wp at 1, tx_lift.
  destruct (f _ _ _) as [s' [root'|e| |]]; done.
Qed.

Lemma fs_insert_spec (t : Prop) dv w h m k d (Q : unit -> W -> Prop) E :
  t -> repr t dv w h m -> key_ok k -> (Z.of_nat h <= maxBtreeDepth -> m !! k = None) ->
  (Z.of_nat h <= maxBtreeDepth -> covered m k) -> d <> [] ->
  (forall w' h', Z.of_nat h <= maxBtreeDepth -> repr t dv w' h' (<[k := d]> m) -> next w w' -> Q tt w') ->
  (forall e w', repr t dv w' h m -> next w w' -> E e w') ->
  wp X (fs_insert partOff k d) w Q E.
Proof using HL RWL HR.
  intros Ht Hr Hk Hnone Hcov Hd HQ HE. pose proof Hr as (c&ads&rest&Hf&Hw&Em&Hi&HRr&Hdat&Hdev).
  apply wp_fs_mutate. destruct (Z_le_gt_dec (Z.of_nat h) maxBtreeDepth) as [Hh|Hh]; last first.
  { unfold cowInsert. rewrite (cowMutate_tall _ _ _ Hf _ _ _ _ _ _ _ k _ Hw Hi Hk ltac:(lia)). apply HE; [|done].
    by destruct w. }
  specialize (Hnone Hh). subst m. destruct (Hcov Hh) as (k0&d0&E0&Hle).
  assert (Hin0 : (k0, d0) ∈ c) by (by apply elem_of_list_to_map_2).
  assert (Hne : c <> []) by (intros ->; by apply not_elem_of_nil in Hin0).
  pose proof (cowInsert_spec t partOff (tx_sb w) dv Hf (tx_cow w) h (tx_root w) c ads rest k d Hw Hi Hk Hh) as Hs.
  specialize (Hs ltac:(intros Hx; apply not_elem_of_list_to_map_2 in Hnone; apply Hnone; by apply list_elem_of_In) Hne).
  specialize (Hs (wtree_covers t _ h _ c ads k Ht Hw Hk (wtree_low t _ h _ c ads (k0, d0) _ Hw Hin0 Hle))).
  destruct (cowInsert _ _ _ _ _ _) as [s' [root'|e| |]]; try done.
  - destruct Hs as (c'&Ec&Hok).
    destruct (repr_ok t dv w (S h) rest s' root' c' Hf HRr Hdev) as (h'&_&Hr'); [|done|].
    { destruct Hok as (h'&ads'&_&Hw'&_). eapply leaf_map_data; [exact Ec|by eapply wtree_sorted|].
      intros k' d'. rewrite lookup_insert_Some. intros [[_ <-]|[_ Hx]]; [done|by eapply repr_data]. }
    rewrite Ec in Hr'. by eapply HQ.
  - destruct Hs as [_ Hs]. apply HE; [|done]. by eapply repr_err.
Qed.

Lemma fs_update_spec (t : Prop) dv w h m k d (Q : unit -> W -> Prop) E :
  repr t dv w h m -> key_ok k -> d <> [] ->
  (forall w' h', (h' <= h)%nat -> Z.of_nat h <= maxBtreeDepth -> is_Some (m !! k) ->
     repr t dv w' h' (<[k := d]> m) -> next w w' -> Q tt w') ->
  (forall e w', repr t dv w' h m -> next w w' -> E e w') ->
  wp X (fs_update partOff k d) w Q E.
Proof using HL RWL HR.
  intros Hr Hk Hd HQ HE. pose proof Hr as (c&ads&rest&Hf&Hw&Em&Hi&HRr&Hdat&Hdev).
  apply wp_fs_mutate. destruct (Z_le_gt_dec (Z.of_nat h) maxBtreeDepth) as [Hh|Hh]; last first.
  { unfold cowUpdate. rewrite (cowMutate_tall _ _ _ Hf _ _ _ _ _ _ _ k _ Hw Hi Hk ltac:(lia)). apply HE; [|done].
    by destruct w. }
  subst m. pose proof (cowUpdate_spec t partOff (tx_sb w) dv Hf (tx_cow w) h (tx_root w) c ads rest k d Hw Hi Hk Hh) as Hs.
  destruct (leaf_map c !! k) as [d0|] eqn:Ek; last first.
  { rewrite Hs. apply HE; [|done]. by destruct w. }
  destruct (cowUpdate _ _ _ _ _ _) as [s' [root'|e| |]]; try done.
  - destruct Hs as (c'&Ec&Hok).
    destruct (repr_ok t dv w h rest s' root' c' Hf HRr Hdev) as (h'&Hle&Hr'); [|done|].
    { destruct Hok as (h'&ads'&_&Hw'&_). eapply leaf_map_data; [exact Ec|by eapply wtree_sorted|].
      intros k' d'. rewrite lookup_insert_Some. intros [[_ <-]|[_ Hx]]; [done|by eapply repr_data]. }
    rewrite Ec in Hr'. by eapply HQ.
  - destruct Hs as (_&_&Hs). apply HE; [|done]. by eapply repr_err.
Qed.

Lemma fs_delete_spec (t : Prop) dv w h m k (Q : unit -> W -> Prop) E :
  repr t dv w h m -> key_ok k -> delete k m <> ∅ -> (t -> (h <= 1)%nat) ->
  (forall w' h', (h' <= h)%nat -> Z.of_nat h <= maxBtreeDepth -> is_Some (m !! k) ->
     repr t dv w' h' (delete k m) -> next w w' -> Q tt w') ->
  (forall e w', (is_not_found e = true -> m !! k = None) -> (Z.of_nat h <= maxBtreeDepth -> m !! k = None -> e = ErrNotFound) ->
     repr t dv w' h m -> next w w' -> E e w') ->
  wp X (fs_delete partOff k) w Q E.
Proof using HL RWL HR.
  intros Hr Hk Hrest Hshort HQ HE. pose proof Hr as (c&ads&rest&Hf&Hw&Em&Hi&HRr&Hdat&Hdev).
  apply wp_fs_mutate. destruct (Z_le_gt_dec (Z.of_nat h) maxBtreeDepth) as [Hh|Hh]; last first.
  { unfold cowDelete. rewrite (cowMutate_tall _ _ _ Hf _ _ _ _ _ _ _ k _ Hw Hi Hk ltac:(lia)).
    apply HE; [done|lia| |done]. by destruct w. }
  subst m. pose proof (cowDelete_spec t partOff (tx_sb w) dv Hf (tx_cow w) h (tx_root w) c ads rest k Hw Hi Hk Hh Hdat
    (or_intror Hrest) Hshort) as Hs.
  destruct (leaf_map c !! k) as [d0|] eqn:Ek; last first.
  { rewrite Hs. apply HE; [done|done| |done]. by destruct w. }
  destruct (cowDelete _ _ _ _ _) as [s' [root'|e| |]]; try done.
  - destruct Hs as (c'&Ec&Hok).
    destruct (repr_ok t dv w h rest s' root' c' Hf HRr Hdev) as (h'&Hle&Hr'); [|done|].
    { destruct Hok as (h'&ads'&_&Hw'&_). eapply leaf_map_data; [exact Ec|by eapply wtree_sorted|].
      intros k' d'. rewrite lookup_delete_Some. intros [_ Hx]. by eapply repr_data. }
    rewrite Ec in Hr'. by eapply HQ.
  - destruct Hs as (->&_&Hs). apply HE; [done|done| |done]. by eapply repr_err.
Qed.

(** Trees of at most two levels are tight. *)
Lemma repr_tight dv w h m : repr False dv w h m -> (h <= 1)%nat -> repr True dv w h m.
Proof using.
  intros (c&ads&rest&Hf&Hw&Em&Hrest) Hh. exists c, ads, rest. split; [done|]. split; [|split; [done|exact Hrest]].
  destruct h as [|[|h]]; [exact Hw| |lia]. destruct Hw as (buf&kids&?&?&?&?&?&?&Hk). exists buf, kids.
  split_and!; try done. eapply Forall_impl; [exact Hk|]. intros x (?&?&_&?). done.
Qed.
Lemma repr_loose t dv w h m : repr t dv w h m -> repr False dv w h m.
Proof using.
  intros (c&ads&rest&Hf&Hw&Hrest). exists c, ads, rest. split; [done|]. split; [|exact Hrest].
  clear Hrest. revert c ads Hw. generalize (tx_root w). induction h as [|h IH]; intros a c ads; [done|].
  intros (buf&kids&?&?&?&?&?&?&Hk). exists buf, kids. split_and!; try done.
  eapply Forall_impl; [exact Hk|]. intros x (?&?&_&?). split_and!; [done..|]. by apply IH.
Qed.
End FsTree.
