(* ===== verification/DeletePrefix.v ===== *)
(** * Deleting all items of a prefix (btree_write.go)

    [cowDeletePrefix] finds a leaf with an item of the prefix, routes to the first key
    of the prefix and deletes every match in the leaf it reaches, until no leaf has
    one.  On success exactly the items of the prefix are gone. *)
From Stdlib Require Import ZArith Lia Strings.Byte.
From stdpp Require Import base option list numbers sorting gmap.
From S2P Require Import Prelude Bytes Alloc Layout SafeIO Chunk Node BTree Walk Split Crc32c Cow Store CowCorrect.
From S2P Require Import Codec Read Tx FsTree.
Local Open Scope Z_scope.
Local Open Scope btrfs_scope.

(** ** The matches of one leaf *)
Section LeafPrefix.
Context (o t : Z).
Abbreviation hit := (rec_prefix o t).

(** The positions of the matches, from [i] on. *)
Fixpoint prefix_idxs (recs : list rec) (i : Z) : list Z :=
  match recs with
  | [] => []
  | r :: recs => if hit r then i :: prefix_idxs recs (i + 1) else prefix_idxs recs (i + 1)
  end.
Definition others_of (recs : list rec) : list rec := List.filter (fun r => negb (hit r)) recs.

Lemma findItemIdxPrefix_packed buf c i recs :
  0 <= i -> nodeHdrSize + (i + nrecs recs) * itemSize <= blen buf -> packed buf c i recs ->
  findItemIdxPrefix_loop (length recs) buf o t i = Ok (prefix_idxs recs i).
Proof using.
  revert c i. induction recs as [|[k d] recs IH]; intros c i Hi Hfit Hp; [done|].
  rewrite nrecs_cons in Hfit. cbn [packed] in Hp. destruct Hp as (H1&H2&H3&H4&H5).
  pose proof (nrecs_nonneg recs). cbn [length findItemIdxPrefix_loop prefix_idxs].
  rewrite readKey_Ok by hdr_lia. cbn [mbind outcome_bind]. rewrite H1.
  rewrite (IH (c - blen d)) by (try done; hdr_lia). done.
Qed.
Lemma findItemIdxPrefix_spec buf recs : leaf_repr buf recs -> findItemIdxPrefix buf o t = Ok (prefix_idxs recs 0).
Proof using.
  intros Hr. destruct (leaf_repr_header _ _ Hr) as [la Hh]. destruct Hr as (Hn&Hl&Hf&Hm&Hp). pose proof (recs_size_nonneg recs).
  unfold findItemIdxPrefix. rewrite Hh. cbn [mbind outcome_bind hdr_nItems]. rewrite nrecs_to_nat.
  eapply findItemIdxPrefix_packed; [lia|hdr_lia|done].
Qed.

Lemma prefix_idxs_snoc recs r i :
  prefix_idxs (recs ++ [r]) i = prefix_idxs recs i ++ (if hit r then [i + nrecs recs] else []).
Proof using.
  revert i. induction recs as [|x recs IH]; intros i; cbn [app prefix_idxs].
  - unfold nrecs. cbn. rewrite Z.add_0_r. by destruct (hit r).
  - rewrite IH. replace (i + nrecs (x :: recs)) with (i + 1 + nrecs recs) by (rewrite nrecs_cons; lia). by destruct (hit x).
Qed.
Lemma prefix_idxs_nil recs i : prefix_idxs recs i = [] <-> List.filter hit recs = [].
Proof using. revert i. induction recs as [|r recs IH]; intros i; cbn; [done|]. by destruct (hit r). Qed.

Lemma delete_idxs_spec pre : forall buf post,
  leaf_repr buf (pre ++ post) -> Forall (fun r => r.2 <> []) (pre ++ post) ->
  exists buf', delete_idxs (rev (prefix_idxs pre 0)) buf = Ok buf' /\ blen buf' = blen buf /\ leaf_repr buf' (others_of pre ++ post).
Proof using.
  induction pre as [|[k d] pre IH] using rev_ind; intros buf post Hr Hne; [by exists buf|].
  rewrite <- app_assoc in Hr, Hne. cbn [app] in Hr, Hne. rewrite prefix_idxs_snoc, rev_app_distr. unfold others_of. rewrite List.filter_app. cbn [List.filter].
  destruct (hit (k, d)); cbn [negb rev app delete_idxs].
  - rewrite !Forall_app, Forall_cons in Hne. destruct Hne as (Hn1&_&Hn2).
    destruct (leafDeleteItem_spec buf pre k d post Hr Hn2) as (b1&E1&Hh1&Hr1). rewrite Z.add_0_l, E1. cbn [mbind outcome_bind].
    destruct (IH b1 post Hr1) as (b2&E2&L2&Hr2); [by apply Forall_app|]. exists b2. split_and!; [done| |by rewrite app_nil_r].
    destruct Hh1 as [? _]. lia.
  - destruct (IH buf ((k, d) :: post) Hr Hne) as (b2&E2&L2&Hr2). exists b2. rewrite <- app_assoc. done.
Qed.

Lemma delete_prefix_leaf_spec buf recs :
  leaf_repr buf recs -> Forall (fun r => r.2 <> []) recs ->
  match List.filter hit recs with
  | [] => delete_prefix_leaf o t buf = Err ErrOther
  | _ => exists buf', delete_prefix_leaf o t buf = Ok buf' /\ blen buf' = blen buf /\ leaf_repr buf' (others_of recs)
  end.
Proof using.
  intros Hr Hne. unfold delete_prefix_leaf. rewrite (findItemIdxPrefix_spec _ _ Hr). cbn [mbind outcome_bind].
  destruct (delete_idxs_spec recs buf []) as (b&E&L&Hb); [by rewrite app_nil_r..|]. rewrite E. cbn [mbind outcome_bind].
  rewrite app_nil_r in Hb. pose proof (prefix_idxs_nil recs 0) as Hnil.
  destruct (List.filter hit recs) as [|r l].
  - by rewrite (proj2 Hnil eq_refl).
  - destruct (prefix_idxs recs 0); [by specialize (proj1 Hnil eq_refl)|]. by exists b.
Qed.
End LeafPrefix.

(** ** Finding a leaf with a match *)
Lemma prefix_ptrs_slots fuel buf o t i ptrs :
  0 <= i -> nodeHdrSize + (i + Z.of_nat (length ptrs)) * keyPtrSize <= blen buf ->
  (length ptrs <= fuel)%nat -> ptr_slots buf i ptrs ->
  prefix_ptrs fuel buf (i + Z.of_nat (length ptrs)) o t i = Ok (map snd (List.filter (fun p => negb (past_prefix o t p.1)) ptrs)).
Proof.
  revert fuel i. induction ptrs as [|[k p] ptrs IH]; intros fuel i Hi Hfit Hfuel Hs.
  - destruct fuel; cbn [prefix_ptrs length]; rewrite (proj2 (Z.leb_le _ _)) by lia; done.
  - destruct fuel as [|fuel]; [cbn in Hfuel; lia|]. cbn [ptr_slots] in Hs. destruct Hs as (H1&H2&H3).
    cbn [prefix_ptrs length List.filter] in *. case_if; [lia|]. case_if; [hdr_lia|].
    rewrite readKey_Ok by hdr_lia. cbn [mbind outcome_bind fst]. rewrite H1.
    rewrite get_le_Ok by hdr_lia. cbn [mbind outcome_bind].
    replace (i + Z.of_nat (S (length ptrs))) with (i + 1 + Z.of_nat (length ptrs)) by lia.
    rewrite IH by (try done; hdr_lia). cbn [mbind outcome_bind]. rewrite H2. by destruct (past_prefix o t k).
Qed.
Lemma prefix_ptrs_internal buf level o t ptrs :
  internal_repr buf level ptrs ->
  prefix_ptrs (Z.to_nat (itemsThatFit buf (Z.of_nat (length ptrs)) keyPtrSize)) buf (Z.of_nat (length ptrs)) o t 0 =
  Ok (map snd (List.filter (fun p => negb (past_prefix o t p.1)) ptrs)).
Proof.
  intros (Hn&Hl&Hp&Hf&Hm&Hs). apply (prefix_ptrs_slots _ _ _ _ 0); [lia|done| |done].
  unfold itemsThatFit. rewrite Z.quot_div_nonneg by hdr_lia.
  pose proof (Z.div_le_lower_bound (blen buf - nodeHdrSize) keyPtrSize (Z.of_nat (length ptrs))).
  repeat case_if; hdr_lia.
Qed.

(** Separators ascend, so the children that are not past the prefix come first. *)
Lemma filter_take_until o t kids :
  0 <= t < 2 ^ 8 -> Forall (fun x => key_ok (kid_key x)) kids -> separated kids ->
  List.filter (fun x => negb (past_prefix o t (kid_key x))) kids = take_until (fun x => past_prefix o t (kid_key x)) kids.
Proof.
  intros Ht Hk Hs. induction kids as [|x kids IH]; [done|]. apply Forall_cons in Hk as [Hx Hk].
  apply separated_cons in Hs as (_&Hp&Hs). cbn [List.filter take_until]. destruct (past_prefix o t (kid_key x)) eqn:E; cbn [negb].
  - apply filter_none. rewrite Forall_forall in *. intros y Hy. destruct (Hp _ Hy) as [Hlt _].
    rewrite past_prefix_num in * by auto. apply Z.leb_le in E. rewrite (proj2 (Z.leb_le _ _)) by lia. done.
  - f_equal. by apply IH.
Qed.

Section FindLeaf.
Context `{HL : SafeIOLaws} {D : Type} `{RWL : RWLaws D} (partOff : Z) (sb : superblock) (o t : Z) (Ht : 0 <= t < 2 ^ 8).
Abbreviation rn s := (rn partOff sb s).

Lemma findLeaf_loop_spec (s : cowState D) fuel : forall seen g frames,
  Forall (frame_ok (rn s)) frames -> NoDup (frames_ads frames) ->
  (forall x, x ∈ frames_ads frames -> x ∉ visit_seen seen) ->
  Z.of_nat (length (frames_ads frames)) <= guard_left g -> (length (frames_ads frames) <= fuel)%nat ->
  exists r, findLeaf_loop partOff sb fuel seen g (map fr_key frames) o t s = (s, Ok r) /\
    (r = None <-> List.filter (rec_prefix o t) (frames_recs frames) = []).
Proof using HL Ht.
  induction fuel as [|fuel IH]; intros seen g frames Hok Hnd Hfresh Hg Hf;
    (destruct frames as [|[a d h c ads] frames]; [by exists None|]);
    apply Forall_cons in Hok as [[Hsub Hd] Hok]; cbn [fr_h fr_a fr_c fr_ads fr_d] in *;
    assert (Hads : exists rest, ads = a :: rest)
      by (destruct h; [destruct Hsub as (?&?&?&?&->)|destruct Hsub as (?&?&?&?&?&->&_)]; by eexists);
    destruct Hads as [rest ->]; unfold frames_ads in Hnd, Hfresh, Hg, Hf; cbn [map concat fr_ads] in *;
    [cbn in Hf; lia|].
  cbn [map fr_key fr_a fr_d findLeaf_loop]. case_if; [lia|].
  destruct (guard_next_cases g) as [[_ Hbad]|(g'&Eg&Hg'&_)]; [cbn in Hg; lia|].
  destruct (visit_check_fresh seen a) as (seen'&Ev&Hv); [apply Hfresh; by left|].
  cbn [app] in Hnd, Hfresh, Hg, Hf. apply NoDup_cons in Hnd as [Hna Hnd].
  erewrite sm_lift_Ok by exact Eg. erewrite sm_lift_Ok by exact Ev.
  assert (Hfresh' : forall l, sublist l (rest ++ concat (map fr_ads frames)) ->
     NoDup l /\ (forall x, x ∈ l -> x ∉ visit_seen seen') /\
     Z.of_nat (length l) <= guard_left g' /\ (length l <= fuel)%nat).
  { intros l Hl. pose proof (sublist_length _ _ Hl). cbn [length] in Hg, Hf. split_and!; [| |lia|lia].
    - eapply sublist_NoDup; done.
    - intros x Hx. assert (x ∈ rest ++ concat (map fr_ads frames))
        by (eapply elem_of_submseteq; [exact Hx|by apply sublist_submseteq]).
      rewrite Hv, elem_of_cons. intros [->|Hin]; [done|]. eapply Hfresh; [by right|done]. }
  destruct h as [|h].
  - destruct Hsub as (buf&Hr&Hl&Hs&[= ->]). erewrite sm_bind_Ok by (apply node_read_Ok; exact Hr).
    destruct (leaf_repr_header _ _ Hl) as [la Hh]. erewrite sm_lift_Ok by exact Hh. cbn [hdr_level hdr_nItems].
    rewrite Z.eqb_refl. destruct (parseLeafItems_repr _ _ Hl) as (items&E&Hi). erewrite sm_lift_Ok by exact E.
    pose proof (filter_items_recs o t buf items c Hi) as Hfi. unfold frames_recs. cbn [map concat fr_c]. rewrite List.filter_app.
    destruct (existsb (has_prefix o t) items) eqn:Eh.
    + eexists. split; [done|]. split; [done|]. intros Hn. exfalso. apply app_eq_nil in Hn as [Hn _].
      apply existsb_exists in Eh as (it&Hit&Eit). rewrite Hn in Hfi. apply map_eq_nil in Hfi.
      eapply in_nil. rewrite <- Hfi. by apply filter_In.
    + destruct (Hfresh' (concat (map fr_ads frames)) ltac:(done)) as (?&?&?&?).
      destruct (IH seen' g' frames) as (r&Er&Hr'); try done. exists r. split; [done|]. rewrite Hr'.
      replace (List.filter (rec_prefix o t) c) with (@nil rec); [done|]. rewrite <- Hfi. rewrite filter_none; [done|].
      apply Forall_forall. intros it Hit. destruct (has_prefix o t it) eqn:Ex; [|done].
      exfalso. assert (Ht' : existsb (has_prefix o t) items = true) by (apply existsb_exists; exists it; split; [by apply list_elem_of_In|done]).
      congruence.
  - destruct Hsub as (buf&kids&Hr&Hi&->&[= ->]&Hsep&Hkids). erewrite sm_bind_Ok by (apply node_read_Ok; exact Hr).
    erewrite sm_lift_Ok by exact (internal_hdr _ _ _ Hi). cbn [hdr_level hdr_nItems]. case_if; [lia|].
    erewrite sm_lift_Ok by exact (prefix_ptrs_internal _ _ _ _ _ Hi).
    assert (Hkok : Forall (fun x => key_ok (kid_key x)) kids).
    { destruct Hi as (_&_&_&_&_&Hslots). apply ptr_slots_keys_ok in Hslots. exact (proj1 (Forall_fmap _ _ _) Hslots). }
    destruct (push_spec (rn s) o t Ht kids (d + 1) h Hkok Hsep Hkids ltac:(lia)) as (P1&P2&P3).
    replace (map _ (map snd _) ++ map fr_key frames) with (map fr_key (push o t kids (d + 1) h ++ frames)); last first.
    { rewrite map_app. f_equal. unfold push. rewrite <- filter_take_until by done. rewrite !map_map. clear.
      induction kids as [|x kids IH]; [done|]. cbn [map List.filter kid_ptr fst]. destruct (past_prefix o t (kid_key x)); cbn [negb map]; [done|].
      by rewrite IH. }
    destruct (Hfresh' (frames_ads (push o t kids (d + 1) h ++ frames))) as (?&?&?&?).
    { unfold frames_ads. rewrite map_app, concat_app. by apply sublist_app. }
    destruct (IH seen' g' (push o t kids (d + 1) h ++ frames)) as (r&Er&Hr'); [by apply Forall_app|done..|].
    exists r. split; [done|]. rewrite Hr'. unfold frames_recs in *. rewrite map_app, concat_app. cbn [map concat fr_c].
    rewrite !List.filter_app, P3. done.
Qed.

Lemma findLeaf_spec (s : cowState D) h root c ads :
  subtree (rn s) h root c ads -> Z.of_nat h <= maxBtreeDepth -> NoDup ads -> Z.of_nat (length ads) <= maxTreeNodes ->
  exists r, findLeafContainingPrefix partOff sb root o t s = (s, Ok r) /\ (r = None <-> List.filter (rec_prefix o t) c = []).
Proof using HL Ht.
  intros Hs Hh Hnd Hlen. unfold findLeafContainingPrefix.
  destruct (findLeaf_loop_spec s walk_fuel visit_empty (NewLoopGuard maxTreeNodes) [Frame root 0 h c ads]) as (r&E&Hr).
  - repeat constructor; done.
  - unfold frames_ads. cbn. by rewrite app_nil_r.
  - intros x _. rewrite visit_empty_spec. apply not_elem_of_nil.
  - unfold frames_ads. cbn. rewrite app_nil_r, NewLoopGuard_spec by (unfold maxTreeNodes; lia). done.
  - unfold frames_ads, walk_fuel. cbn [map concat fr_ads]. rewrite app_nil_r. lia.
  - exists r. split; [exact E|]. rewrite Hr. unfold frames_recs. cbn. by rewrite app_nil_r.
Qed.
End FindLeaf.

(** ** The rounds *)
Section Rounds.
Context (tight : Prop) `{HL : SafeIOLaws} {D : Type} `{RWL : RWLaws D} (partOff : Z) (sb : superblock) (dv : dataView).
Context (Hflat : flat_map partOff sb) (Hdev : dv_size dv <= maxTreeNodes * sb_nodeSize sb).
Context (o t : Z) (Hk : key_ok (Key o t 0)).
Abbreviation St := (cowState D).
Abbreviation rn := (rn partOff sb).
Abbreviation Inv := (Inv partOff sb dv).
Abbreviation wtree := (wtree tight).
Abbreviation hit := (rec_prefix o t).
Abbreviation others_of := (others_of o t).
Abbreviation cow_ok := (cow_ok tight partOff sb dv).
Abbreviation cow_err := (cow_err partOff sb dv).

Lemma others_app a b : others_of (a ++ b) = others_of a ++ others_of b.
Proof using. apply List.filter_app. Qed.
Lemma others_twice c : others_of (others_of c) = others_of c.
Proof using.
  unfold DeletePrefix.others_of. induction c as [|r c IH]; [done|]. cbn [List.filter]. destruct (hit r) eqn:E; cbn [negb List.filter]; [done|].
  rewrite E. cbn [negb]. by rewrite IH.
Qed.
Lemma others_hits c : List.filter hit (others_of c) = [].
Proof using.
  unfold DeletePrefix.others_of. induction c as [|r c IH]; [done|]. cbn [List.filter]. destruct (hit r) eqn:E; cbn [negb List.filter]; [done|].
  by rewrite E.
Qed.
Lemma others_all c : List.filter hit c = [] -> others_of c = c.
Proof using.
  unfold DeletePrefix.others_of. induction c as [|r c IH]; [done|]. cbn [List.filter]. destruct (hit r); [done|]. cbn [negb]. intros E. by rewrite IH.
Qed.
Lemma others_sublist c : sublist (others_of c) c.
Proof using.
  unfold DeletePrefix.others_of. induction c as [|r c IH]; [constructor|]. cbn [List.filter]. destruct (negb (hit r)); [by apply sublist_skip|by apply sublist_cons].
Qed.
Lemma keys_sorted_sublist (l k : list rec) : sublist l k -> keys_sorted k -> keys_sorted l.
Proof using.
  induction 1 as [|[x d] l k Hlk IH|[x d] l k _ IH]; [done| |].
  - intros [Hs Hx]%keys_sorted_cons. apply keys_sorted_cons. split; [by apply IH|]. rewrite Forall_forall in *. intros y Hy. apply Hx.
    apply list_elem_of_fmap in Hy as (r&->&Hr). apply list_elem_of_fmap_2. eapply elem_of_submseteq; [exact Hr|by apply sublist_submseteq].
  - intros [Hs _]%keys_sorted_cons. by apply IH.
Qed.

(** One round: the matches of the leaf the first key of the prefix routes to are gone. *)
Lemma prefix_round s h root c ads others :
  wtree (rn s) h root c ads -> Inv s (ads ++ others) -> Z.of_nat h <= maxBtreeDepth ->
  Forall (fun r => r.2 <> []) c -> (h = 0%nat \/ others_of c <> []) -> (tight -> (h <= 1)%nat) ->
  match cowMutate partOff sb root (Key o t 0) (delete_prefix_leaf o t) s with
  | (s', Ok root') => exists c', others_of c' = others_of c /\ sublist c' c /\ (length (List.filter hit c') < length (List.filter hit c))%nat /\
      cow_ok h s c' others s' root'
  | (s', Err e) => e = ErrOther /\ cow_err s ads others s' /\ (h = 0%nat -> List.filter hit c <> [] -> full s')
  | _ => False
  end.
Proof using Hflat HL RWL Hk.
  intros Hw Hi Hh Hdata Hleft Hshort. pose proof (wtree_sorted _ _ _ _ _ _ Hw) as Hsorted.
  destruct (cowMutate_spec tight partOff sb dv Hflat s h root c ads others (Key o t 0) (delete_prefix_leaf o t) Hw Hi Hk Hh)
    as (zs&leaf&buf&recs&[Hzl _ _ Hl Hs Hc _ _ Hin _ Hlk]&Hb&Herr&Hok). rewrite app_nil_r in Hin.
  destruct (zrecs_split zs recs) as (l&r&E&Hall). rewrite E in Hc.
  assert (Hrec : Forall (fun r => r.2 <> []) recs) by (rewrite Hc, !Forall_app in Hdata; tauto).
  pose proof (delete_prefix_leaf_spec o t buf recs Hl Hrec) as Hd.
  destruct (List.filter hit recs) as [|x hits] eqn:Eh.
  { rewrite (Herr _ Hd). split; [done|]. split; [by exists []|]. intros Hh0 Hhits. exfalso. apply Hhits.
    destruct zs; [|cbn in Hzl; lia]. cbn in E. assert (Ec : recs = c) by congruence. congruence. }
  destruct Hd as (buf'&Ed&Lb&Hl'). pose proof (others_sublist recs) as Hsub.
  specialize (Hok buf' (others_of recs) Ed Hl' (keys_sorted_sublist _ _ Hsub Hs) ltac:(lia)).
  specialize (Hok ltac:(eapply recs_in_sub; [|exact Hin]; intros y (q&->&Hq)%list_elem_of_fmap; apply list_elem_of_fmap_2;
    eapply elem_of_submseteq; [exact Hq|by apply sublist_submseteq])).
  rewrite Hall in Hok. assert (Hoth : others_of (l ++ others_of recs ++ r) = others_of c)
    by (rewrite Hc, !others_app, others_twice; done).
  specialize (Hok ltac:(intros Hzs Hn; destruct Hleft as [->|Hleft]; [by destruct zs|]; apply Hleft; by rewrite <- Hoth, Hn)
    ltac:(intros Ht _; by apply Hshort)).
  unfold mutated in Hok. destruct (cowMutate _ _ _ _ _ s) as [s' [root'|e| |]]; try done; [|destruct Hok as (->&Hfull&?); split_and!; auto].
  exists (l ++ others_of recs ++ r). split_and!; [done| | |done].
  - rewrite Hc. by apply sublist_app; [|apply sublist_app].
  - rewrite Hc, !List.filter_app, others_hits, Eh, !length_app. cbn. lia.
Qed.

(** The tree a failed call leaves beside the one the caller still points at. *)
Definition prefix_err (s : St) (c : list rec) (others : list Z) (s' : St) : Prop :=
  exists h' root' c' ads' leak, others_of c' = others_of c /\ sublist c' c /\ wtree (rn s') h' root' c' ads' /\ Inv s' (leak ++ ads' ++ others) /\
    forall x, x ∈ others -> rn s' x = rn s x.

Lemma cowDeletePrefix_loop_spec fuel : forall s h root c ads others,
  wtree (rn s) h root c ads -> Inv s (ads ++ others) -> Z.of_nat h <= maxBtreeDepth ->
  Forall (fun r => r.2 <> []) c -> others_of c <> [] -> (tight -> (h <= 1)%nat) ->
  (length (List.filter hit c) < fuel)%nat ->
  match cowDeletePrefix_loop partOff sb fuel root o t s with
  | (s', Ok root') => cow_ok h s (others_of c) others s' root'
  | (s', Err e) => e = ErrOther /\ prefix_err s c others s' /\ (h = 0%nat -> full s')
  | _ => False
  end.
Proof using Hflat HL RWL Hk Hdev.
  induction fuel as [|fuel IH]; intros s h root c ads others Hw Hi Hh Hdata Hleft Hshort Hfuel; [lia|].
  cbn [cowDeletePrefix_loop]. pose proof (wtree_subtree _ _ _ _ _ _ Hw) as Hsub.
  pose proof (live_count _ _ _ Hflat _ _ Hi Hdev) as Hcnt. rewrite length_app in Hcnt.
  pose proof Hi as (_&_&_&_&Hnd&_). apply NoDup_app in Hnd as (Hnd&_&_).
  destruct (findLeaf_spec partOff sb o t ltac:(apply Hk) s h root c ads Hsub Hh Hnd ltac:(lia)) as (r&Er&Hr).
  erewrite sm_bind_Ok by exact Er. destruct r as [x|]; last first.
  { rewrite others_all by (by apply Hr). exists h, ads. done. }
  pose proof (prefix_round s h root c ads others Hw Hi Hh Hdata (or_intror Hleft) Hshort) as Hrd.
  destruct (cowMutate _ _ _ _ _ s) as [s1 [root1|e| |]] eqn:Em; try done.
  - destruct Hrd as (c1&Eo1&Hs1&Hlt&h1&ads1&Hle&Hw1&Hi1&Hsame1). erewrite sm_bind_Ok by exact Em.
    specialize (IH s1 h1 root1 c1 ads1 others Hw1 Hi1 ltac:(lia)).
    specialize (IH ltac:(apply Forall_forall; intros y Hy; rewrite Forall_forall in Hdata; apply Hdata;
      eapply elem_of_submseteq; [exact Hy|by apply sublist_submseteq])).
    rewrite Eo1 in IH. specialize (IH Hleft ltac:(intros Ht; specialize (Hshort Ht); lia) ltac:(lia)).
    destruct (cowDeletePrefix_loop _ _ _ _ _ _ s1) as [s2 [root2|e| |]]; try done.
    + destruct IH as (h2&ads2&Hle2&Hw2&Hi2&Hsame2). exists h2, ads2. split_and!; [lia|done|done|].
      intros x' Hx'. by rewrite Hsame2, Hsame1.
    + destruct IH as (->&(h2&root2&c2&ads2&leak&Eo2&Hs2&Hw2&Hi2&Hsame2)&Hf2). split; [done|].
      split; [|intros Hz; apply Hf2; lia]. exists h2, root2, c2, ads2, leak.
      split_and!; [congruence|by etrans|done|done|]. intros x' Hx'. by rewrite Hsame2, Hsame1.
  - destruct Hrd as (->&(leak&Hi1&Hsame1)&Hf1). erewrite sm_bind_Err by exact Em. split; [done|].
    split; [|intros Hz; apply Hf1; [done|]; intros Hx; by apply Hr in Hx]. exists h, root, c, ads, leak. split_and!; [done|done| |done|].
    + eapply wtree_agree; [exact Hw|]. intros y Hy. apply Hsame1, elem_of_app. by left.
    + intros y Hy. apply Hsame1, elem_of_app. by right.
Qed.

Lemma cowDeletePrefix_spec s h root c ads others :
  wtree (rn s) h root c ads -> Inv s (ads ++ others) -> Z.of_nat h <= maxBtreeDepth ->
  Forall (fun r => r.2 <> []) c -> others_of c <> [] -> (tight -> (h <= 1)%nat) ->
  Z.of_nat (length (List.filter hit c)) <= maxTreeNodes ->
  match cowDeletePrefix partOff sb root o t s with
  | (s', Ok root') => cow_ok h s (others_of c) others s' root'
  | (s', Err e) => e = ErrOther /\ prefix_err s c others s' /\ (h = 0%nat -> full s')
  | _ => False
  end.
Proof using Hflat HL RWL Hk Hdev.
  intros Hw Hi Hh Hdata Hleft Hshort Hn. unfold cowDeletePrefix. eapply cowDeletePrefix_loop_spec; try done.
  unfold walk_fuel. lia.
Qed.

(** C9. Deleting a prefix removes exactly its items.  On success the new tree holds the items
    of the old one without those of the prefix, in the same order, over as many leaves as
    they were in; all other live nodes are untouched and the allocator invariant holds.  On an
    error some tree of the device still holds every item outside the prefix; a tree of one
    leaf fails only when no node block is left.  The call ends in every case. *)
Theorem cowDeletePrefix_refines s h root c ads others :
  wtree (rn s) h root c ads -> Inv s (ads ++ others) -> Z.of_nat h <= maxBtreeDepth ->
  Forall (fun r => r.2 <> []) c -> others_of c <> [] -> (tight -> (h <= 1)%nat) ->
  Z.of_nat (length (List.filter hit c)) <= maxTreeNodes ->
  match cowDeletePrefix partOff sb root o t s with
  | (s', Ok root') => cow_ok h s (others_of c) others s' root'
  | (s', Err e) => e = ErrOther /\ prefix_err s c others s' /\ (h = 0%nat -> full s')
  | _ => False
  end.
Proof using Hflat HL RWL Hk Hdev. apply cowDeletePrefix_spec. Qed.
End Rounds.

(** ** On the map the FS tree stands for *)
Definition in_prefix (o t : Z) (k : key) : bool := (objID k =? o) && (typ k =? t).
Definition without (m : gmap key bytes) (o t : Z) : gmap key bytes := filter (fun r => in_prefix o t r.1 = false) m.

Lemma without_lookup m o t k : without m o t !! k = if in_prefix o t k then None else m !! k.
Proof.
  unfold without. destruct (in_prefix o t k) eqn:E.
  - apply map_lookup_filter_None. right. intros d _. cbn. by rewrite E.
  - destruct (m !! k) as [d|] eqn:Ek; [by apply map_lookup_filter_Some|]. apply map_lookup_filter_None. by left.
Qed.
Lemma without_keep m o t k : objID k <> o \/ typ k <> t -> without m o t !! k = m !! k.
Proof.
  intros Hk. rewrite without_lookup. destruct (in_prefix o t k) eqn:E; [|done]. unfold in_prefix in E.
  apply andb_true_iff in E as [?%Z.eqb_eq ?%Z.eqb_eq]. tauto.
Qed.
Lemma without_gone m o t k d : without m o t !! k = Some d -> objID k = o -> typ k <> t.
Proof.
  rewrite without_lookup. unfold in_prefix. intros E Ho Ht. rewrite (proj2 (Z.eqb_eq _ _) Ho), (proj2 (Z.eqb_eq _ _) Ht) in E. done.
Qed.

Lemma leaf_map_without o t (c : list rec) : keys_sorted c -> leaf_map (others_of o t c) = without (leaf_map c) o t.
Proof.
  intros Hs. pose proof (keys_sorted_NoDup _ Hs) as Hnd.
  pose proof (keys_sorted_NoDup _ (keys_sorted_sublist _ _ (others_sublist o t c) Hs)) as Hnd'.
  apply map_eq. intros k. rewrite without_lookup. unfold leaf_map.
  assert (Hin : forall d, (k, d) ∈ others_of o t c <-> (k, d) ∈ c /\ in_prefix o t k = false).
  { intros d. unfold others_of. rewrite !list_elem_of_In, filter_In, negb_true_iff. done. }
  destruct (list_to_map (others_of o t c) !! k) as [d|] eqn:E.
  - apply elem_of_list_to_map_2 in E. apply Hin in E as [E ->]. symmetry. by apply elem_of_list_to_map_1.
  - destruct (in_prefix o t k) eqn:Ep; [done|]. destruct (list_to_map c !! k) as [d|] eqn:Ec; [|done]. exfalso.
    apply elem_of_list_to_map_2 in Ec. assert (Hd : (k, d) ∈ others_of o t c) by (by apply Hin).
    apply (elem_of_list_to_map_1 (M := gmap key)) in Hd; [|done]. unfold leaf_map in *. congruence.
Qed.

Section FsPrefix.
Context `{HL : SafeIOLaws} {D : Type} `{RWL : RWLaws D} (partOff : Z) (R : keeper) `{HR : !Stable R}.
Context (X : txState D -> Prop).
Abbreviation W := (txState D).
Abbreviation repr := (repr partOff R).

(** The same state with another root. *)
Definition rooted (w : W) (root : Z) : W := TxState (tx_cow w) (tx_sb w) root (tx_tick w).

(** A bound on the items of a prefix; a walk that reads them has it as its own. *)
Definition prefix_bound (m : gmap key bytes) (o t : Z) : Prop :=
  forall l, prefix_of m o t l -> Z.of_nat (length l) <= maxTreeNodes.

Lemma fs_delete_prefix_spec t dv w h m o ty (Q : unit -> W -> Prop) (E : error -> W -> Prop) :
  repr t dv w h m -> Z.of_nat h <= maxBtreeDepth -> key_ok (Key o ty 0) -> without m o ty <> ∅ -> (t -> (h <= 1)%nat) ->
  prefix_bound m o ty ->
  (forall w' h', (h' <= h)%nat -> repr t dv w' h' (without m o ty) -> next w w' -> Q tt w') ->
  (forall w' root' h' m', repr t dv (rooted w' root') h' m' -> without m' o ty = without m o ty -> next w w' -> E ErrOther w') ->
  wp X (fs_delete_prefix partOff o ty) w Q E.
Proof using HL RWL HR.
  intros Hr Hh Hk Hleft Hshort Hb HQ HE. pose proof Hr as (c&ads&rest&Hf&Hw&Em&Hi&HRr&Hdat&Hdev).
  pose proof (wtree_sorted _ _ _ _ _ _ Hw) as Hs. apply wp_fs_mutate.
  pose proof (cowDeletePrefix_spec t partOff (tx_sb w) dv Hf (proj1 Hdev) o ty Hk (tx_cow w) h (tx_root w) c ads rest Hw Hi Hh Hdat) as Hd.
  specialize (Hd ltac:(intros Hn; apply Hleft; by rewrite <- Em, <- leaf_map_without, Hn by done) Hshort).
  specialize (Hd ltac:(apply Hb; rewrite <- Em; by apply filter_prefix_of)).
  assert (Hsub : Forall (fun r => r.2 <> []) (others_of o ty c)).
  { apply Forall_forall. intros r Hin. rewrite Forall_forall in Hdat. apply Hdat. eapply elem_of_submseteq; [exact Hin|]. apply sublist_submseteq, others_sublist. }
  destruct (cowDeletePrefix _ _ _ _ _ _) as [s' [root'|e| |]]; try done.
  - destruct (repr_ok partOff R t dv w h rest s' root' _ Hf HRr Hdev Hsub Hd) as (h'&Hle&Hr').
    rewrite leaf_map_without, Em in Hr' by done. by eapply HQ.
  - destruct Hd as (->&(h'&root'&c'&ads'&leak&Eo&Hsub'&Hw'&Hi'&Hsame)&_). apply (HE _ root' h' (leaf_map c')).
    + exists c', ads', (leak ++ rest). cbn [rooted tx_cow tx_sb tx_root]. split_and!; try done.
      * eapply Inv_perm; [|exact Hi']. rewrite !app_assoc. by rewrite (Permutation_app_comm leak ads').
      * apply (stable _ (rn partOff (tx_sb w) (tx_cow w))); [done|]. exact Hsame.
      * apply Forall_forall. intros r Hin. rewrite Forall_forall in Hdat. apply Hdat. eapply elem_of_submseteq; [exact Hin|by apply sublist_submseteq].
    + rewrite <- !leaf_map_without by (by eapply wtree_sorted || done). rewrite Eo. by rewrite leaf_map_without, Em by done.
    + done.
Qed.
End FsPrefix.
