(* ===== verification/FsLookup.v ===== *)
(** * Lookups on the FS tree as a map

    What the lookups of the write path return, in terms of the map the FS tree
    stands for: directory entries, paths, inodes, and the numbers given to new
    inodes and directory entries. *)
From Stdlib Require Import ZArith Lia Strings.Byte.
From stdpp Require Import base option list numbers sorting gmap.
From S2P Require Import Prelude Bytes Alloc Layout SafeIO Chunk Node BTree Walk Split Crc32c Cow Store CowCorrect.
From S2P Require Import Codec Read FileRead Tx Extent Ops FsTree.
Local Open Scope Z_scope.
Local Open Scope btrfs_scope.

(** ** Ranges of what is parsed *)
Lemma hashDirName_u64 name : is_u64 (hashDirName name).
Proof. rewrite hashDirName_raw. pose proof (crc_raw_u32 0xFFFFFFFE name ltac:(unfold is_u32; lia)). unfold is_u32, is_u64 in *. lia. Qed.

(** Keys are in range. *)
Ltac key_tac := split_and!; cbn [objID typ offset inodeKey];
  first [assumption|apply hashDirName_u64
        |unfold typeInodeItem, typeInodeRef, typeXattrItem, typeDirItem, typeDirIndex, typeExtentData, is_u64 in *; lia].

Lemma parseDirItems_loop_u64 fuel data name off r :
  0 <= off -> parseDirItems_loop fuel data name off = Ok r -> is_u64 r.1 /\ 0 <= r.2 < 2 ^ 8.
Proof.
  revert off. induction fuel as [|fuel IH]; intros off Ho; cbn [parseDirItems_loop]; case_if; try done.
  unfold dir_entry_at. unfold dirItemHdrSize in *.
  rewrite (get_le_Ok 8), !(get_le_Ok 2), (get_le_Ok 1) by lia. cbn [mbind outcome_bind].
  case_if; [done|]. pose proof (rd_range 2 data (off + 27)). rewrite slice_Ok by lia. cbn [mbind outcome_bind].
  case_if.
  - intros [= <-]. cbn [fst snd de_objID de_type]. split; [apply rd64_u64|apply (rd_range 1)].
  - pose proof (rd_range 2 data (off + 25)). apply IH. lia.
Qed.
Lemma parseDirItems_u64 data name r : parseDirItems data name = Ok r -> is_u64 r.1 /\ 0 <= r.2 < 2 ^ 8.
Proof. by apply parseDirItems_loop_u64. Qed.

Lemma entry_in_u64 name d r : entry_in name d = Ok (Some r) -> is_u64 r.1 /\ 0 <= r.2 < 2 ^ 8.
Proof. unfold entry_in. destruct (parseDirItems d name) eqn:E; try done. intros [= ->]. by eapply parseDirItems_u64. Qed.
Lemma first_entry_u64 name items r : first_entry name items = Ok (Some r) -> is_u64 r.1 /\ 0 <= r.2 < 2 ^ 8.
Proof.
  induction items as [|x items IH]; cbn [first_entry]; [done|].
  destruct (entry_in name x.2) as [[y|]| | |] eqn:E; cbn [mbind outcome_bind]; try done.
  intros [= ->]. by eapply entry_in_u64.
Qed.

(** ** The directory structure of a map *)

(** What [lookupDirEntry] finds: the DIR_ITEM under the hash of the name, or else
    the first DIR_INDEX item with the name. *)
Definition item_hit (m : gmap key bytes) (dir : Z) (name : bytes) (r : Z * Z) : Prop :=
  exists d, m !! Key dir typeDirItem (hashDirName name) = Some d /\ entry_in name d = Ok (Some r).
Definition dir_entry (m : gmap key bytes) (dir : Z) (name : bytes) (r : Z * Z) : Prop :=
  item_hit m dir name r \/
  ((forall r', ~ item_hit m dir name r') /\
   exists l, prefix_of m dir typeDirIndex l /\ first_entry name l = Ok (Some r)).

Lemma keys_sorted_unique (l l' : list rec) :
  keys_sorted l -> keys_sorted l' -> (forall r, r ∈ l <-> r ∈ l') -> l = l'.
Proof.
  revert l'. induction l as [|[k d] l IH]; intros [|[k' d'] l'] Hs Hs' Hiff.
  - done.
  - exfalso. eapply not_elem_of_nil, Hiff. by left.
  - exfalso. eapply not_elem_of_nil, Hiff. by left.
  - apply keys_sorted_cons in Hs as [Hs Hk], Hs' as [Hs' Hk']. rewrite Forall_forall in Hk, Hk'.
    assert (Hin : forall r : rec, r ∈ l -> key_lt k r.1) by (intros r Hr; by apply Hk, (list_elem_of_fmap_2 fst)).
    assert (Hin' : forall r : rec, r ∈ l' -> key_lt k' r.1) by (intros r Hr; by apply Hk', (list_elem_of_fmap_2 fst)).
    unfold key_lt in Hin, Hin'. assert (E : (k, d) = (k', d')).
    { pose proof (proj1 (Hiff (k, d)) ltac:(by left)) as H1. pose proof (proj2 (Hiff (k', d')) ltac:(by left)) as H2.
      apply elem_of_cons in H1 as [->|H1]; [done|]. apply elem_of_cons in H2 as [->|H2]; [done|].
      specialize (Hin _ H2). specialize (Hin' _ H1). cbn [fst] in *. lia. }
    rewrite E in *. f_equal. injection E as -> ->. apply IH; [done|done|]. intros r. specialize (Hiff r).
    rewrite !elem_of_cons in Hiff. split; intros Hr.
    + destruct (proj1 Hiff (or_intror Hr)) as [->|]; [|done]. specialize (Hin _ Hr). cbn [fst] in Hin. lia.
    + destruct (proj2 Hiff (or_intror Hr)) as [->|]; [|done]. specialize (Hin' _ Hr). cbn [fst] in Hin'. lia.
Qed.

Lemma prefix_of_unique m o t l l' : prefix_of m o t l -> prefix_of m o t l' -> l = l'.
Proof.
  intros [Hs Hl] [Hs' Hl']. apply (keys_sorted_unique l l' Hs Hs').
  intros [k d]. rewrite Hl, Hl'. done.
Qed.

Lemma dir_entry_fun m dir name r r' : dir_entry m dir name r -> dir_entry m dir name r' -> r = r'.
Proof.
  intros [H1|[H1 (l&Hl&E)]] [H2|[H2 (l'&Hl'&E')]].
  - destruct H1 as (d&Em&Ed), H2 as (d'&Em'&Ed'). congruence.
  - by destruct (H2 r).
  - by destruct (H1 r').
  - rewrite (prefix_of_unique _ _ _ _ _ Hl Hl') in E. congruence.
Qed.

Lemma dir_entry_u64 m dir name r : dir_entry m dir name r -> is_u64 r.1 /\ 0 <= r.2 < 2 ^ 8.
Proof.
  intros [(d&_&E)|[_ (l&_&E)]]; [by eapply entry_in_u64|by eapply first_entry_u64].
Qed.

(** The inode a list of names leads to. *)
Fixpoint path_to (m : gmap key bytes) (parts : list bytes) (cur ino : Z) : Prop :=
  match parts with
  | [] => ino = cur
  | name :: parts => exists r, dir_entry m cur name r /\ path_to m parts r.1 ino
  end.

Lemma path_to_u64 m parts cur ino : is_u64 cur -> path_to m parts cur ino -> is_u64 ino.
Proof.
  revert cur. induction parts as [|name parts IH]; intros cur Hc; cbn [path_to]; [by intros ->|].
  intros (r&Hr&Hp). apply (IH r.1); [|done]. by apply dir_entry_u64 in Hr as [? _].
Qed.

Definition path_parts (p : bytes) : list bytes :=
  let p := path_Clean p in
  if bool_decide (p = [slash]) || bool_decide (p = dot) then [] else split_slash (trim_slash p).

(** The inode item at the end of a path. *)
Definition resolves (m : gmap key bytes) (p : bytes) (i : inodeItem) : Prop :=
  path_to m (path_parts p) rootDirObjID (in_num i) /\
  exists d, m !! inodeKey (in_num i) = Some d /\ decode_inode (in_num i) d = Ok i.

Lemma path_to_fun m parts cur a b : path_to m parts cur a -> path_to m parts cur b -> a = b.
Proof.
  revert cur. induction parts as [|name parts IH]; intros cur; cbn [path_to]; [congruence|].
  intros (r&Hr&Ha) (r'&Hr'&Hb). rewrite (dir_entry_fun _ _ _ _ _ Hr' Hr) in Hb. by eapply IH.
Qed.
Lemma resolves_fun m p i i' : resolves m p i -> resolves m p i' -> i = i'.
Proof. intros (H1&d&Ed&E) (H2&d'&Ed'&E'). rewrite (path_to_fun _ _ _ _ _ H1 H2) in *. congruence. Qed.

Section Lookup.
Context `{HL : SafeIOLaws} {D : Type} `{RWL : RWLaws D} `{CK : Clock} (partOff : Z) (R : keeper) `{HR : !Stable R}.
Context (X : txState D -> Prop).
Abbreviation W := (txState D).
Abbreviation repr := (repr partOff R).
Abbreviation wrn w := (rn partOff (tx_sb w) (tx_cow w)).
(** A tree within the depth limit; in a taller one every step fails. *)
Abbreviation low h := (Z.of_nat h <= maxBtreeDepth).

Lemma fs_entry_spec t dv w h m dir name (Q : Z * Z -> W -> Prop) E :
  repr t dv w h m -> is_u64 dir ->
  (forall r, is_u64 r.1 -> (low h -> dir_entry m dir name r) -> Q r w) ->
  (forall e, (low h -> forall r, ~ dir_entry m dir name r) -> E e w) ->
  wp X (fs_entry partOff dir name) w Q E.
Proof using HL RWL.
  intros Hr Hd HQ HE.
  assert (Hk : key_ok (Key dir typeDirItem (hashDirName name))) by key_tac.
  apply wp_bind, wp_gets. unfold lookupDirEntry.
  (* the rest, when the DIR_ITEM gives nothing *)
  assert (Hrest : (low h -> forall r, ~ item_hit m dir name r) ->
    wp X (tx_lift (fun sb => items ← sm_try (collectPrefixItems (node_read partOff sb) (tx_root w) dir typeDirIndex);
      r ← sm_lift (match items with Ok items => first_entry name items | Err _ => Ok None
                   | Panic => Panic | NoFuel => NoFuel end);
      match r with Some r => mret r | None => sm_fail ErrNotExist end)) w Q E).
  { intros Hmiss. apply wp_tx_bind, wp_tx_try. eapply wp_mono;
      [apply (fs_prefix_spec partOff R never t dv w h m dir typeDirIndex
         (fun l w' => w' = w /\ (low h -> prefix_of m dir typeDirIndex l))
         (fun e w' => w' = w /\ (low h -> prefix_of m dir typeDirIndex [])) Hr ltac:(done))| |].
    - done.
    - intros e He. split; [done|]. intros Hh. by apply He.
    - intros l _ [-> Hl]. apply wp_tx_bind, wp_tx_lift. pose proof (first_entry_safe name l) as Hs.
      destruct (first_entry name l) as [[r|]| | |] eqn:Ef; try done.
      + apply wp_tx_ret, HQ; [by apply first_entry_u64 in Ef as [? _]|]. intros Hh. right. split; [by apply Hmiss|]. exists l. auto.
      + apply wp_tx_fail, HE. intros Hh r [Hhit|[_ (l'&Hl'&El')]]; [by apply (Hmiss Hh r)|].
        rewrite (prefix_of_unique _ _ _ _ _ Hl' (Hl Hh)) in El'. congruence.
      + apply HE. intros Hh r [Hhit|[_ (l'&Hl'&El')]]; [by apply (Hmiss Hh r)|].
        rewrite (prefix_of_unique _ _ _ _ _ Hl' (Hl Hh)) in El'. congruence.
    - intros e _ [-> Hl]. apply wp_tx_bind, wp_tx_lift, wp_tx_fail, HE. intros Hh r [Hhit|[_ (l'&Hl'&El')]].
      + by apply (Hmiss Hh r).
      + rewrite (prefix_of_unique _ _ _ _ _ Hl' (Hl Hh)) in El'. done. }
  apply wp_tx_bind, wp_tx_try. eapply wp_mono;
    [apply (fs_search_spec partOff R never t dv w h m (Key dir typeDirItem (hashDirName name))
       (fun r w' => w' = w /\ m !! Key dir typeDirItem (hashDirName name) = Some (item_data r.2 r.1))
       (fun e w' => w' = w /\ (low h -> m !! Key dir typeDirItem (hashDirName name) = None)) Hr Hk)| |].
  - intros buf it d _ Em <- _. done.
  - intros e He. split; [done|]. intros Hh. by apply He.
  - intros [buf it] _ [-> Em]. apply wp_tx_bind, wp_tx_lift. cbn [fst snd] in Em.
    pose proof (entry_in_safe name (item_data it buf)) as Hs.
    destruct (entry_in name (item_data it buf)) as [[r|]| | |] eqn:Ee; try done.
    + apply wp_tx_ret, HQ; [by apply entry_in_u64 in Ee as [? _]|]. intros _. left. by exists (item_data it buf).
    + apply Hrest. intros _ r (d&Em'&Ee'). congruence.
    + unfold entry_in in Ee. by destruct (parseDirItems _ _).
  - intros e _ [-> Em]. apply wp_tx_bind, wp_tx_lift, Hrest. intros Hh r (d&Em'&_). rewrite Em in Em' by done. done.
Qed.

Lemma fs_inode_spec t dv w h m ino (Q : inodeItem -> W -> Prop) E :
  repr t dv w h m -> is_u64 ino ->
  (forall i d, low h -> m !! inodeKey ino = Some d -> decode_inode ino d = Ok i -> Q i w) ->
  (forall e, (low h -> forall d i, m !! inodeKey ino = Some d -> decode_inode ino d <> Ok i) -> E e w) ->
  wp X (fs_inode partOff ino) w Q E.
Proof using HL RWL.
  intros Hr Hi HQ HE. apply wp_bind, wp_gets. unfold readInode. apply wp_tx_bind.
  eapply wp_mono;
    [apply (fs_search_spec partOff R X t dv w h m (inodeKey ino)
       (fun r w' => w' = w /\ low h /\ m !! inodeKey ino = Some (item_data r.2 r.1))
       (fun e w' => w' = w /\ (low h -> m !! inodeKey ino = None)) Hr ltac:(key_tac))| |].
  - intros buf it d Hh Em <- _. done.
  - intros e He. split; [done|]. intros Hh. by apply He.
  - intros [buf it] _ (->&Hh&Em). apply wp_tx_lift. cbn [fst snd] in Em.
    pose proof (decode_inode_safe ino (item_data it buf)) as Hs.
    destruct (decode_inode ino (item_data it buf)) as [i| | |] eqn:Ed; try done.
    + by eapply HQ.
    + apply HE. intros _ d i Em'. congruence.
  - intros e _ [-> Em]. apply HE. intros Hh d i Em'. rewrite Em in Em' by done. done.
Qed.

Lemma walk_path_spec t dv w h m parts cur (Q : Z -> W -> Prop) E :
  repr t dv w h m -> is_u64 cur ->
  (forall ino, is_u64 ino -> (low h -> path_to m parts cur ino) -> Q ino w) ->
  (forall e, (low h -> forall ino, ~ path_to m parts cur ino) -> E e w) ->
  wp X (tx_lift (fun sb => walk_path (node_read partOff sb) (tx_root w) parts cur)) w Q E.
Proof using HL RWL.
  intros Hr. revert cur Q E. induction parts as [|name parts IH]; intros cur Q E Hc HQ HE; cbn [walk_path].
  - apply wp_tx_ret. by apply HQ.
  - apply wp_tx_bind. eapply wp_mono;
      [apply (fs_entry_spec t dv w h m cur name
         (fun r w' => w' = w /\ is_u64 r.1 /\ (low h -> dir_entry m cur name r))
         (fun e w' => w' = w /\ (low h -> forall r, ~ dir_entry m cur name r)) Hr Hc)| |]; [done|done| |].
    + intros r _ (->&Hu&Hd). apply IH; [done| |].
      * intros ino Hi Hp. apply HQ; [done|]. intros Hh. exists r. auto.
      * intros e He. apply HE. intros Hh ino (r'&Hr'&Hp). apply (He Hh ino).
        by rewrite (dir_entry_fun _ _ _ _ _ (Hd Hh) Hr').
    + intros e _ [-> Hn]. apply HE. intros Hh ino (r&Hr'&_). by apply (Hn Hh r).
Qed.

Lemma fs_path_spec t dv w h m p (Q : inodeItem -> W -> Prop) E :
  repr t dv w h m ->
  (forall i, low h -> is_u64 (in_num i) -> resolves m p i -> Q i w) ->
  (forall e, (low h -> forall i, ~ resolves m p i) -> E e w) ->
  wp X (fs_path partOff p) w Q E.
Proof using HL RWL.
  intros Hr HQ HE. apply wp_bind, wp_gets.
  assert (Hroot : is_u64 rootDirObjID) by (unfold rootDirObjID, is_u64; lia).
  assert (Hin : forall ino, is_u64 ino -> (low h -> path_to m (path_parts p) rootDirObjID ino) ->
    wp X (tx_lift (fun sb => readInode (node_read partOff sb) (tx_root w) ino)) w Q E).
  { intros ino Hi Hp. eapply (fs_inode_spec t dv w h m ino Q E Hr Hi).
    - intros i d Hh Em Ed. pose proof (decode_inode_safe ino d) as Hs. rewrite Ed in Hs. destruct Hs as [<- _].
      apply HQ; [done|done|]. split; [auto|]. by exists d.
    - intros e He. apply HE. intros Hh i (Hp'&d&Em&Ed).
      rewrite <- (path_to_fun _ _ _ _ _ (Hp Hh) Hp') in *. by apply (He Hh d i). }
  unfold pathLookup. unfold path_parts in *. case_if; [by apply Hin|].
  apply wp_tx_bind. eapply wp_mono;
    [apply (walk_path_spec t dv w h m _ rootDirObjID
       (fun ino w' => w' = w /\ is_u64 ino /\ (low h -> path_to m (split_slash (trim_slash (path_Clean p))) rootDirObjID ino))
       (fun e w' => w' = w /\ (low h -> forall ino, ~ path_to m (split_slash (trim_slash (path_Clean p))) rootDirObjID ino))
       Hr Hroot)| |]; [done|done| |].
  - intros ino _ (->&Hi&Hp). by apply Hin.
  - intros e _ [-> Hn]. apply HE. intros Hh i [Hp _]. unfold path_parts in Hp.
    repeat match goal with H : bool_decide _ = false |- _ => rewrite H in Hp; clear H end.
    by apply (Hn Hh (in_num i)).
Qed.

(** ** Numbers for new inodes and entries *)
Definition inode_fresh (m : gmap key bytes) (ino : Z) : Prop :=
  rootDirObjID < ino /\ forall k d, m !! k = Some d -> typ k = typeInodeItem -> objID k < ino.
Definition index_fresh (m : gmap key bytes) (dir idx : Z) : Prop :=
  2 < idx /\ forall k d, m !! k = Some d -> objID k = dir -> typ k = typeDirIndex -> offset k < idx.
(** The next number does not wrap. *)
Definition inodes_numbered (m : gmap key bytes) : Prop :=
  forall k d, m !! k = Some d -> typ k = typeInodeItem -> objID k < 2 ^ 64 - 1.
Definition dirs_numbered (m : gmap key bytes) : Prop :=
  forall k d, m !! k = Some d -> typ k = typeDirIndex -> offset k < 2 ^ 64 - 1.

Lemma max_inode_spec (c : list rec) (max : Z) :
  let r := foldl (fun (max : Z) (x : rec) => if (typ x.1 =? typeInodeItem) && (max <? objID x.1) then objID x.1 else max) max c in
  max <= r /\ (forall x, x ∈ c -> typ x.1 = typeInodeItem -> objID x.1 <= r) /\
  (r = max \/ exists x, x ∈ c /\ typ x.1 = typeInodeItem /\ r = objID x.1).
Proof using.
  revert max. induction c as [|x c IH]; intros max; cbn [foldl]; cbv zeta in *.
  { split_and!; [lia| |by left]. intros x Hx. by apply not_elem_of_nil in Hx. }
  set (a := if _ && _ then _ else _). destruct (IH a) as (H1&H2&H3).
  assert (Ha : max <= a /\ (typ x.1 = typeInodeItem -> objID x.1 <= a) /\
    (a = max \/ typ x.1 = typeInodeItem /\ a = objID x.1)).
  { unfold a. case_if; [|split_and!; [lia|lia|by left]]. split_and!; [lia|lia|by right]. }
  destruct Ha as (A1&A2&A3). split_and!.
  - lia.
  - intros y Hy Ht. apply elem_of_cons in Hy as [->|Hy]; [specialize (A2 Ht); lia|by apply H2].
  - destruct H3 as [E|(y&Hy&Ht&E)]; [|right; exists y; split_and!; [by right|done|done]].
    destruct A3 as [A3|[Ht A3]]; [left; congruence|right]. exists x. split_and!; [by left|done|congruence].
Qed.

Lemma max_index_spec dir (c : list rec) max :
  let r := max_index dir c max in
  max <= r /\ (forall x, x ∈ c -> objID x.1 = dir -> typ x.1 = typeDirIndex -> offset x.1 <= r) /\
  (r = max \/ exists x, x ∈ c /\ typ x.1 = typeDirIndex /\ r = offset x.1).
Proof using.
  unfold max_index. revert max. induction c as [|x c IH]; intros max; cbn [foldl]; cbv zeta in *.
  { split_and!; [lia| |by left]. intros x Hx. by apply not_elem_of_nil in Hx. }
  set (a := if _ && _ then _ else _). destruct (IH a) as (H1&H2&H3).
  assert (Ha : max <= a /\ (objID x.1 = dir -> typ x.1 = typeDirIndex -> offset x.1 <= a) /\
    (a = max \/ typ x.1 = typeDirIndex /\ a = offset x.1)).
  { unfold a. case_if; [|split_and!; [lia|lia|by left]]. split_and!; [lia|lia|by right]. }
  destruct Ha as (A1&A2&A3). split_and!.
  - lia.
  - intros y Hy Hd Ht. apply elem_of_cons in Hy as [->|Hy]; [specialize (A2 Hd Ht); lia|by apply H2].
  - destruct H3 as [E|(y&Hy&Ht&E)]; [|right; exists y; split_and!; [by right|done|done]].
    destruct A3 as [A3|[Ht A3]]; [left; congruence|right]. exists x. split_and!; [by left|done|congruence].
Qed.

(** A walk that folds over the items. *)
Lemma walk_var_spec {A} t dv w h m (g : A -> rec -> A) fn a (Q : A -> W -> Prop) E :
  repr t dv w h m ->
  (forall buf items a, fn buf items a = foldl g a (map (fun it => (it_k it, item_data it buf)) items)) ->
  (forall a' c, (low h -> a' = foldl g a c /\ leaf_map c = m /\ keys_sorted c) -> Q a' w) ->
  wp X (walk_var partOff (tx_root w) fn a) w Q E.
Proof using HL RWL.
  intros (c&ads&rest&Hf&Hw&Em&Hi&_&_&Hdev) Hfn HQ.
  pose proof (wtree_subtree _ _ _ _ _ _ Hw) as Hs.
  set (inv := fun sa : cowState D * A => sa.1 = tx_cow w).
  unfold walk_var, tx_lift, wp, run_var.
  set (rdx := fun x => with_var (node_read partOff (tx_sb w) x)).
  set (fx := fun buf items => var_step (fun a => mret (fn buf items a))).
  destruct (Z_le_gt_dec (Z.of_nat h) maxBtreeDepth) as [Hh|Hh].
  - pose proof (live_count _ _ _ Hf _ _ Hi (proj1 Hdev)) as Hcnt. rewrite length_app in Hcnt.
    pose proof Hi as (_&_&_&_&Hnd&_). apply NoDup_app in Hnd as (Hnd&_&_).
    pose proof (walkLeaves_tree (wrn w) inv rdx
      ltac:(intros x [s' a'] buf Hx Hr; unfold inv in Hx; cbn in Hx; subst s'; unfold rdx, with_var, node_read; cbn [fst snd];
            fold (wrn w x); by rewrite Hr)
      fx (fun sa r => (sa.1, g sa.2 r)) (fun _ => True)
      ltac:(intros buf items [s' a'] Hx _; unfold inv in Hx; cbn in Hx; subst s'; unfold fx, var_step; cbn [fst snd mret SM_ret];
            rewrite Hfn; clear; revert a'; induction items as [|it items IH]; intros a'; cbn [map foldl fst snd];
            [done|rewrite <- IH; done])
      ltac:(by intros [] r _)
      h (tx_root w) c ads (tx_cow w, a) Hs ltac:(by apply Forall_forall) Hnd ltac:(lia) Hh eq_refl) as Hwalk.
    rewrite Hwalk.
    assert (E1 : forall l a0, foldl (fun (sa : cowState D * A) (r : rec) => (sa.1, g sa.2 r)) (tx_cow w, a0) l = (tx_cow w, foldl g a0 l)).
    { clear. intros l. induction l as [|r l IH]; intros a0; cbn [foldl fst snd]; [done|]. apply IH. }
    rewrite E1. destruct w. apply (HQ _ c). intros _. split_and!; [done|done|by eapply wtree_sorted].
  - destruct (walkLeaves_safe inv rdx
      ltac:(intros x [s' a'] Hx; unfold inv in Hx; cbn in Hx; subst s'; unfold rdx, with_var, node_read; cbn [fst snd];
            split; [done|exact (rn_fills partOff w x Hf)])
      fx (tx_root w)
      ltac:(intros buf items _ [s' a'] Hx; by split) (tx_cow w, a) eq_refl) as [Hinv Hsafe].
    destruct (walkLeaves rdx (tx_root w) fx (tx_cow w, a)) as [[s' a'] o]. cbn [fst snd] in *. unfold inv in Hinv.
    cbn [fst] in Hinv. subst s'. destruct w. destruct o; try done; apply (HQ _ []); lia.
Qed.

Lemma nextInodeNum_spec t dv w h m (Q : Z -> W -> Prop) E :
  repr t dv w h m -> inodes_numbered m ->
  (forall ino, is_u64 ino -> (low h -> inode_fresh m ino) -> Q ino w) ->
  wp X (nextInodeNum partOff) w Q E.
Proof using HL RWL.
  intros Hr Hn HQ. apply wp_bind, wp_gets, wp_bind.
  eapply (walk_var_spec t dv w h m
    (fun (max : Z) (x : rec) => if (typ x.1 =? typeInodeItem) && (max <? objID x.1) then objID x.1 else max)); [done| |].
  { intros buf items a. unfold max_inode. revert a. induction items as [|it items IH]; intros a; cbn [map foldl fst]; [done|].
    apply IH. }
  intros a' c Hc. apply wp_ret, HQ; [apply u64_range|]. intros Hh. destruct (Hc Hh) as (->&<-&Hs).
  destruct (max_inode_spec c rootDirObjID) as (H1&H2&H3). cbv zeta in *.
  set (r := foldl _ _ c) in *.
  assert (Hb : r + 1 < 2 ^ 64).
  { destruct H3 as [->|(x&Hx&Ht&->)]; [unfold rootDirObjID; lia|].
    destruct x as [k d]. apply (elem_of_list_to_map_1 c k d) in Hx; [|by apply keys_sorted_NoDup].
    specialize (Hn k d Hx Ht). cbn [fst]. lia. }
  rewrite u64_small by (unfold is_u64, rootDirObjID in *; lia). split; [lia|].
  intros k d Ek Ht. apply elem_of_list_to_map_2 in Ek. specialize (H2 _ Ek Ht). cbn [fst] in H2. lia.
Qed.

Lemma prefix_or_nil_spec t dv w h m o ty (Q : list rec -> W -> Prop) E :
  repr t dv w h m -> 0 <= ty < 2 ^ 8 ->
  (forall l, (low h -> prefix_of m o ty l) -> Q l w) -> wp X (prefix_or_nil partOff o ty) w Q E.
Proof using HL RWL.
  intros Hr Hty HQ. apply wp_bind, wp_try. eapply fs_prefix_spec; [done|done| |].
  - intros l Hl. apply wp_lift. by apply HQ.
  - intros e He. apply wp_lift. apply HQ. intros Hh. by apply He.
Qed.

Lemma nextDirIndexOffset_spec t dv w h m dir (Q : Z -> W -> Prop) E :
  repr t dv w h m -> dirs_numbered m ->
  (forall idx, is_u64 idx -> (low h -> index_fresh m dir idx) -> Q idx w) ->
  wp X (nextDirIndexOffset partOff dir) w Q E.
Proof using HL RWL.
  intros Hr Hn HQ. apply wp_bind. eapply prefix_or_nil_spec; [done|unfold typeDirIndex; lia|].
  intros l Hl. apply wp_ret, HQ; [apply u64_range|]. intros Hh. destruct (Hl Hh) as [_ Hm].
  destruct (max_index_spec dir l 2) as (H1&H2&H3). cbv zeta in *.
  set (r := max_index dir l 2) in *.
  assert (Hb : r + 1 < 2 ^ 64).
  { destruct H3 as [->|(x&Hx&Ht&->)]; [lia|]. destruct x as [k d]. apply Hm in Hx as (Ek&_).
    specialize (Hn k d Ek Ht). cbn [fst]. lia. }
  rewrite u64_small by (unfold is_u64; lia). split; [lia|].
  intros k d Ek Ho Ht. specialize (H2 (k, d) ltac:(by apply Hm) Ho Ht). cbn [fst] in H2. lia.
Qed.

End Lookup.

Lemma entry_opt_spec `{HL : SafeIOLaws} {D : Type} `{RWL : RWLaws D} partOff R (X : txState D -> Prop) 
    t dv w h m dir name (Q : option (Z * Z) -> txState D -> Prop) E :
  repr partOff R t dv w h m -> is_u64 dir ->
  (forall r, is_u64 r.1 -> (Z.of_nat h <= maxBtreeDepth -> dir_entry m dir name r) -> Q (Some r) w) ->
  ((Z.of_nat h <= maxBtreeDepth -> forall r, ~ dir_entry m dir name r) -> Q None w) ->
  wp X (entry_opt partOff dir name) w Q E.
Proof.
  intros Hr Hd HS HN. apply wp_bind, wp_try.
  apply (fs_entry_spec partOff R never t dv w h m dir name); [done|done| |].
  - intros r Hu Hr'. apply wp_lift. by apply HS.
  - intros e He. apply wp_lift. by apply HN.
Qed.
