(* ===== verification/InodeEdit.v ===== *)
(** * Edits of an inode item

    The operations change single fields of an inode item in place and write the
    item back.  [stat_of] is the item as a record, the one [ExtendedStat] returns;
    each edit changes exactly the fields it is meant to. *)
From Stdlib Require Import ZArith Lia Strings.Byte.
From stdpp Require Import base option list numbers sorting gmap.
From S2P Require Import Prelude Bytes Alloc Layout SafeIO Chunk Node BTree Crc32c Cow Codec Read Tx Extent Ops.
Local Open Scope Z_scope.
Local Open Scope btrfs_scope.

Ltac stat_offs := unfold inodeOffGeneration, inodeOffTransID, inodeOffSize, inodeOffNBytes, inodeOffNLink,
  inodeOffUID, inodeOffGID, inodeOffMode, inodeOffFlags, inodeOffSequence, inodeOffATime, inodeOffCTime, inodeOffMTime,
  inodeOffOTime, inodeItemSize in *.

Definition rd_time (d : bytes) (off : Z) : timespec :=
  (i64 (i64 (rd 8 d off) + rd 4 d (off + 8) / 1000000000), rd 4 d (off + 8) mod 1000000000).

Definition stat_of (num : Z) (d : bytes) : InodeStat :=
  MkInodeStat num (u16 (rd 4 d inodeOffMode)) (rd 8 d inodeOffSize) (rd 8 d inodeOffNBytes) (rd 4 d inodeOffNLink)
    (rd 4 d inodeOffUID) (rd 4 d inodeOffGID) (rd 8 d inodeOffGeneration) (rd 8 d inodeOffTransID)
    (rd 8 d inodeOffSequence) (rd 8 d inodeOffFlags)
    (rd_time d inodeOffATime) (rd_time d inodeOffCTime) (rd_time d inodeOffMTime) (rd_time d inodeOffOTime).

Lemma decode_stat_spec num d :
  decode_stat num d = if blen d <? inodeItemSize then Err ErrOther else Ok (stat_of num d).
Proof.
  unfold decode_stat. case_if; [done|]. unfold readTime. stat_offs.
  repeat (first [rewrite (get_le_Ok 8) by lia|rewrite (get_le_Ok 4) by lia]; cbn [mbind outcome_bind]). reflexivity.
Qed.

Lemma decode_inode_spec num d :
  decode_inode num d = if blen d <? inodeItemSize then Err ErrOther
                       else Ok (InodeItem num (is_Mode (stat_of num d)) (is_Size (stat_of num d)) (is_NLink (stat_of num d))).
Proof.
  unfold decode_inode. case_if; [done|]. stat_offs.
  repeat (first [rewrite (get_le_Ok 8) by lia|rewrite (get_le_Ok 4) by lia]; cbn [mbind outcome_bind]). reflexivity.
Qed.

(** A time the clock can give and the item can hold. *)
Definition time_ok (t : timespec) : Prop := - 2 ^ 63 <= t.1 < 2 ^ 63 /\ 0 <= t.2 < 1000000000.

Lemma i64_u64 z : - 2 ^ 63 <= z < 2 ^ 63 -> i64 (u64 z) = z.
Proof.
  intros Hz. unfold i64, u64. rewrite Zplus_mod_idemp_l, Z.mod_small; lia.
Qed.

Lemma rd_time_same d off t :
  time_ok t -> 0 <= off -> off + 12 <= blen d -> rd_time (writeBtrfsTimespec d off t) off = t.
Proof.
  intros [H1 H2] Ho Hl. destruct t as [sec nsec]. cbn [fst snd] in *. unfold rd_time, writeBtrfsTimespec. cbn [fst snd].
  rewrite (rd_wr_out 4) by (rewrite ?blen_wr; lia). rewrite !rd_wr_same by (rewrite ?blen_wr; lia).
  change (256 ^ Z.of_nat 8) with (2 ^ 64). change (256 ^ Z.of_nat 4) with (2 ^ 32).
  rewrite (Z.mod_small (u64 sec)) by (unfold u64; apply Z.mod_pos_bound; lia).
  unfold u32. rewrite Z.mod_mod, (Z.mod_small nsec (2 ^ 32)) by lia.
  rewrite Z.div_small, Z.mod_small, Z.add_0_r, i64_u64 by lia. rewrite i64_small by lia. done.
Qed.

Lemma rd_time_out d off t off' :
  0 <= off -> off + 12 <= blen d -> 0 <= off' -> off' + 12 <= blen d -> off' + 12 <= off \/ off + 12 <= off' ->
  rd_time (writeBtrfsTimespec d off t) off' = rd_time d off'.
Proof.
  intros. unfold rd_time, writeBtrfsTimespec. by rewrite !(rd_wr_out) by (rewrite ?blen_wr; rewrite ?blen_wr; lia).
Qed.
Lemma rd_time_wr d n off v off' :
  0 <= off -> off + Z.of_nat n <= blen d -> 0 <= off' -> off' + 12 <= blen d ->
  off' + 12 <= off \/ off + Z.of_nat n <= off' -> rd_time (wr n d off v) off' = rd_time d off'.
Proof. intros. unfold rd_time. by rewrite !(rd_wr_out) by lia. Qed.

Lemma blen_writeBtrfsTimespec d off t : 0 <= off -> off + 12 <= blen d -> blen (writeBtrfsTimespec d off t) = blen d.
Proof. intros. unfold writeBtrfsTimespec. rewrite !blen_wr; rewrite ?blen_wr; lia. Qed.
Lemma rd_writeBtrfsTimespec n d off t off' :
  0 <= off -> off + 12 <= blen d -> 0 <= off' -> off' + Z.of_nat n <= blen d ->
  off' + Z.of_nat n <= off \/ off + 12 <= off' -> rd n (writeBtrfsTimespec d off t) off' = rd n d off'.
Proof. intros. unfold writeBtrfsTimespec. by rewrite !rd_wr_out by (rewrite ?blen_wr; rewrite ?blen_wr; lia). Qed.
Lemma put_time_Ok d off t : 0 <= off -> off + 12 <= blen d -> put_time d off t = Ok (writeBtrfsTimespec d off t).
Proof.
  intros. unfold put_time, writeBtrfsTimespec. rewrite put_le_Ok by lia. cbn [mbind outcome_bind].
  by rewrite put_le_Ok by (rewrite ?blen_wr; lia).
Qed.

(** ** What the edits do to the record *)
Definition st_change (gen : Z) (now : timespec) (s : InodeStat) : InodeStat :=
  MkInodeStat (is_Inode s) (is_Mode s) (is_Size s) (is_NBytes s) (is_NLink s) (is_UID s) (is_GID s)
    (is_Generation s) gen (is_Sequence s +₆₄ 1) (is_Flags s) (is_ATime s) now (is_MTime s) (is_OTime s).
Definition st_mtime (now : timespec) (s : InodeStat) : InodeStat :=
  MkInodeStat (is_Inode s) (is_Mode s) (is_Size s) (is_NBytes s) (is_NLink s) (is_UID s) (is_GID s)
    (is_Generation s) (is_TransID s) (is_Sequence s) (is_Flags s) (is_ATime s) (is_CTime s) now (is_OTime s).
Definition st_atime (now : timespec) (s : InodeStat) : InodeStat :=
  MkInodeStat (is_Inode s) (is_Mode s) (is_Size s) (is_NBytes s) (is_NLink s) (is_UID s) (is_GID s)
    (is_Generation s) (is_TransID s) (is_Sequence s) (is_Flags s) now (is_CTime s) (is_MTime s) (is_OTime s).
Definition st_size (size : Z) (s : InodeStat) : InodeStat :=
  MkInodeStat (is_Inode s) (is_Mode s) size (is_NBytes s) (is_NLink s) (is_UID s) (is_GID s)
    (is_Generation s) (is_TransID s) (is_Sequence s) (is_Flags s) (is_ATime s) (is_CTime s) (is_MTime s) (is_OTime s).
Definition st_nbytes (n : Z) (s : InodeStat) : InodeStat :=
  MkInodeStat (is_Inode s) (is_Mode s) (is_Size s) n (is_NLink s) (is_UID s) (is_GID s)
    (is_Generation s) (is_TransID s) (is_Sequence s) (is_Flags s) (is_ATime s) (is_CTime s) (is_MTime s) (is_OTime s).
Definition st_nlink (n : Z) (s : InodeStat) : InodeStat :=
  MkInodeStat (is_Inode s) (is_Mode s) (is_Size s) (is_NBytes s) n (is_UID s) (is_GID s)
    (is_Generation s) (is_TransID s) (is_Sequence s) (is_Flags s) (is_ATime s) (is_CTime s) (is_MTime s) (is_OTime s).
Definition st_owner (uid gid : Z) (s : InodeStat) : InodeStat :=
  MkInodeStat (is_Inode s) (is_Mode s) (is_Size s) (is_NBytes s) (is_NLink s) uid gid
    (is_Generation s) (is_TransID s) (is_Sequence s) (is_Flags s) (is_ATime s) (is_CTime s) (is_MTime s) (is_OTime s).
Definition st_mode (mode : Z) (s : InodeStat) : InodeStat :=
  MkInodeStat (is_Inode s) mode (is_Size s) (is_NBytes s) (is_NLink s) (is_UID s) (is_GID s)
    (is_Generation s) (is_TransID s) (is_Sequence s) (is_Flags s) (is_ATime s) (is_CTime s) (is_MTime s) (is_OTime s).

(** Reads of an edited item. *)
Ltac stat_rd :=
  repeat first [ rewrite blen_wr by stat_len | rewrite blen_writeBtrfsTimespec by stat_len
               | rewrite rd_wr_same by stat_len | rewrite rd_wr_out by stat_len
               | rewrite rd_writeBtrfsTimespec by stat_len
               | rewrite rd_time_same by first [done|stat_len] | rewrite rd_time_out by stat_len
               | rewrite rd_time_wr by stat_len ]
with stat_len := repeat first [rewrite blen_wr by stat_len|rewrite blen_writeBtrfsTimespec by stat_len]; cbn; lia.

(** An edit of an item of the right size: it succeeds, keeps the size, and acts
    on the record as [f] does. *)
Definition edits (num : Z) (d : bytes) (o : outcome bytes) (f : InodeStat -> InodeStat) : Prop :=
  exists d', o = Ok d' /\ blen d' = blen d /\ stat_of num d' = f (stat_of num d).

Section Edits.
Context (num : Z) (d : bytes) (Hd : inodeItemSize <= blen d).

Lemma edit_bind o f (k : bytes -> outcome bytes) g :
  edits num d o f -> (forall d', blen d' = blen d -> stat_of num d' = f (stat_of num d) -> edits num d' (k d') g) ->
  edits num d (o ≫= k) (fun s => g (f s)).
Proof using.
  intros (d'&->&L&E) Hk. destruct (Hk d' L E) as (d''&E2&L2&E3). exists d''. cbn [mbind outcome_bind].
  split_and!; [done|congruence|congruence].
Qed.

Ltac edit_tac := unfold stat_of, st_change, st_mtime, st_atime, st_size, st_nbytes, st_nlink, st_owner, st_mode;
  cbn [is_Inode is_Mode is_Size is_NBytes is_NLink is_UID is_GID is_Generation is_TransID is_Sequence is_Flags
       is_ATime is_CTime is_MTime is_OTime]; stat_offs; f_equal; stat_rd; try done;
  try (apply Z.mod_small; cbn; lia).

Lemma edit_size v : is_u64 v -> edits num d (PutUint64 d inodeOffSize v) (st_size v).
Proof using Hd.
  intros Hv. unfold is_u64 in Hv. eexists. split; [apply put_le_Ok; stat_offs; lia|]. split; [rewrite blen_wr; stat_offs; lia|].
  edit_tac.
Qed.
Lemma edit_nbytes v : is_u64 v -> edits num d (PutUint64 d inodeOffNBytes v) (st_nbytes v).
Proof using Hd.
  intros Hv. unfold is_u64 in Hv. eexists. split; [apply put_le_Ok; stat_offs; lia|]. split; [rewrite blen_wr; stat_offs; lia|].
  edit_tac.
Qed.
Lemma edit_nlink v : 0 <= v < 2 ^ 32 -> edits num d (PutUint32 d inodeOffNLink v) (st_nlink v).
Proof using Hd.
  intros Hv. eexists. split; [apply put_le_Ok; stat_offs; lia|]. split; [rewrite blen_wr; stat_offs; lia|]. edit_tac.
Qed.
Lemma edit_owner uid gid : 0 <= uid < 2 ^ 32 -> 0 <= gid < 2 ^ 32 ->
  edits num d (d ← PutUint32 d inodeOffUID uid; PutUint32 d inodeOffGID gid) (st_owner uid gid).
Proof using Hd.
  intros Hu Hg. eexists. rewrite put_le_Ok by (stat_offs; lia). cbn [mbind outcome_bind].
  split; [apply put_le_Ok; rewrite ?blen_wr; stat_offs; lia|].
  split; [rewrite !blen_wr; rewrite ?blen_wr; stat_offs; lia|]. edit_tac.
Qed.
Lemma edit_times a t : time_ok a -> time_ok t ->
  edits num d (d ← put_time d inodeOffATime a; put_time d inodeOffMTime t) (fun s => st_mtime t (st_atime a s)).
Proof using Hd.
  intros Ha Ht. eexists. rewrite put_time_Ok by (stat_offs; lia). cbn [mbind outcome_bind].
  split; [apply put_time_Ok; rewrite ?blen_writeBtrfsTimespec; stat_offs; lia|].
  split; [rewrite !blen_writeBtrfsTimespec; rewrite ?blen_writeBtrfsTimespec; stat_offs; lia|]. edit_tac.
Qed.
Lemma edit_mtime t : time_ok t -> edits num d (put_time d inodeOffMTime t) (st_mtime t).
Proof using Hd.
  intros Ht. eexists. split; [apply put_time_Ok; stat_offs; lia|].
  split; [rewrite !blen_writeBtrfsTimespec; stat_offs; lia|]. edit_tac.
Qed.
(** The mode is a 16-bit field of which the type bits stay. *)
Lemma edit_mode v : 0 <= v < 2 ^ 32 -> edits num d (PutUint32 d inodeOffMode v) (st_mode (u16 v)).
Proof using Hd.
  intros Hv. eexists. split; [apply put_le_Ok; stat_offs; lia|]. split; [rewrite blen_wr; stat_offs; lia|]. edit_tac.
  f_equal. apply Z.mod_small. cbn. lia.
Qed.
(** Transaction id, sequence and change time, which every operation refreshes. *)
Lemma edit_change gen now : is_u64 gen -> time_ok now ->
  edits num d (d ← bumpInodeTransIDSequence d gen; put_time d inodeOffCTime now) (st_change gen now).
Proof using Hd.
  intros Hg Hn. unfold is_u64 in Hg. unfold bumpInodeTransIDSequence.
  rewrite put_le_Ok by (stat_offs; lia). cbn [mbind outcome_bind].
  rewrite (get_le_Ok 8) by (rewrite ?blen_wr; stat_offs; lia). cbn [mbind outcome_bind].
  rewrite put_le_Ok by (rewrite ?blen_wr; stat_offs; lia). cbn [mbind outcome_bind].
  eexists. split; [apply put_time_Ok; rewrite ?blen_wr; rewrite ?blen_wr; stat_offs; lia|].
  split; [rewrite blen_writeBtrfsTimespec, !blen_wr; rewrite ?blen_wr; rewrite ?blen_wr; stat_offs; lia|].
  edit_tac. apply Z.mod_small. change (256 ^ Z.of_nat 8) with (2 ^ 64). apply u64_range.
Qed.
End Edits.
