(* ===== verification/Rebuild.v ===== *)
(** * The extent tree rebuild: what it reads (extent_rebuild.go, extent_multilevel.go)

    The walks of the rebuild over the live trees, which never panic on well-formed
    items, the records they give, the leaves filled from them, and the edit of a
    ROOT_ITEM in place. *)
From Stdlib Require Import ZArith Lia Strings.Byte.
From stdpp Require Import base option list numbers sorting gmap.
From S2P Require Import Prelude Bytes Alloc Layout SafeIO Chunk Node BTree Walk Split Crc32c Cow Store CowCorrect.
From S2P Require Import Codec Tx Extent FsTree FsLookup.
Local Open Scope Z_scope.
Local Open Scope btrfs_scope.

(** ** Closures over a local variable *)
Section Vars.
Context {S A : Type} (pan : Prop) (inv : S -> Prop) (G : A -> Prop).
Definition beside (sa : S * A) : Prop := inv sa.1 /\ G sa.2.

Lemma with_var_safe {B} (m : SM S B) Q : sm_safe inv m Q -> sm_safe beside (with_var m) Q.
Proof using.
  intros Hm [s a] [Hs Ha]. unfold with_var. cbn [fst snd] in *. specialize (Hm s Hs).
  destruct (m s), Hm. by split_and!.
Qed.
Lemma var_step_upto (f : A -> SM S A) :
  (forall a, G a -> sm_upto pan inv (f a) G) -> sm_upto pan beside (var_step f) (fun _ => True).
Proof using.
  intros Hf [s a] [Hs Ha]. unfold var_step. cbn [fst snd] in *. specialize (Hf a Ha s Hs).
  destruct (f a s) as [s' [b|e| |]]; cbn in *; split_and!; try done; by destruct Hf.
Qed.
Lemma run_var_upto (m : SM (S * A) unit) a :
  sm_upto pan beside m (fun _ => True) -> G a -> sm_upto pan inv (run_var m a) G.
Proof using.
  intros Hm Ha s Hs. unfold run_var. specialize (Hm (s, a) (conj Hs Ha)).
  destruct (m (s, a)) as [[s' a'] [b|e| |]]; cbn in *; destruct Hm as [[? ?] ?]; done.
Qed.
End Vars.

(** ** Data extent items *)

(** An item [collectDataExtents] can read. *)
Definition ext_item_ok (k : key) (d : bytes) : Prop :=
  typ k = typeExtentData -> extDataHdrSize <= blen d -> rd 1 d extDataOffType = extentDataRegular ->
  extDataOffDiskNumBytes + 8 <= blen d.

Definition ext_good (e : dataExtent) : Prop := is_u64 (dx_logAddr e) /\ is_u64 (dx_length e).
Definition block_good (b : metaBlock) : Prop := is_u64 (mb_logAddr b) /\ 0 <= mb_level b < 2 ^ 8.

Lemma rd8_u64 d off : is_u64 (rd 8 d off).
Proof. pose proof (rd_range 8 d off). unfold is_u64. cbn in *. lia. Qed.

Lemma data_extent_of_cases owner k d :
  match data_extent_of owner k d with
  | Ok (Some e) => ext_good e
  | Ok None => True
  | Panic => ~ ext_item_ok k d
  | _ => False
  end.
Proof.
  unfold data_extent_of, ext_item_ok, extDataOffType, extDataOffDiskBytenr, extDataOffDiskNumBytes, extDataOffOffset,
    extDataHdrSize, extentDataRegular.
  destruct (Z.eqb_spec (typ k) typeExtentData) as [Et|]; cbn [negb]; [|done].
  case_if; [done|]. rewrite (get_le_Ok 1) by lia. cbn [mbind outcome_bind].
  destruct (Z.eqb_spec (rd 1 d 20) 1) as [Er|]; cbn [negb]; [|done].
  destruct (Z_le_gt_dec 37 (blen d)) as [H37|H37].
  - rewrite (get_le_Ok 8 d 21) by lia. cbn [mbind outcome_bind]. rewrite (get_le_Ok 8 d 29) by lia. cbn [mbind outcome_bind].
    case_if; [done|]. case_if; [rewrite (get_le_Ok 8) by lia|]; cbn [mbind outcome_bind]; split; apply rd8_u64.
  - assert (Hno : ~ (typ k = typeExtentData -> 21 <= blen d -> rd 1 d 20 = 1 -> 29 + 8 <= blen d))
      by (intros Hc; specialize (Hc Et ltac:(lia) Er); lia).
    assert (E2 : Uint64 d 29 = Panic) by (unfold get_le, in_range; by rewrite (proj2 (Z.leb_gt _ (blen d))) by lia).
    assert (E1 : Uint64 d 21 = Panic \/ exists x, Uint64 d 21 = Ok x)
      by (unfold get_le; destruct (in_range d 21 _); eauto).
    destruct E1 as [->|[x ->]]; cbn [mbind outcome_bind]; [done|]. by rewrite E2.
Qed.

(** ** Reading: the walks of the rebuild *)
Section Reading.
Context `{HL : SafeIOLaws} {D : Type} `{RWL : RWLaws D} (partOff : Z) (sb : superblock).
Context (Hflat : flat_map partOff sb) (s : cowState D) (pan : Prop).
Abbreviation same := (fun s' : cowState D => s' = s).
Abbreviation rn := (rn partOff sb).
Abbreviation rdn := (node_read partOff sb).

Lemma node_fills a : safe_with (rn s a) (fun buf => nodeHdrSize <= blen buf).
Proof using HL RWL Hflat. exact (rn_fills partOff (TxState s sb 0 0%nat) a Hflat). Qed.

Lemma node_read_same a Q : safe_with (rn s a) Q -> sm_safe same (rdn a) Q.
Proof using. intros Hq s' ->. done. Qed.

Lemma visit_block_upto owner a v :
  is_u64 a -> Forall block_good v.1 ->
  sm_upto pan same (visit_block partOff sb owner a v) (fun v => Forall block_good v.1).
Proof using HL RWL Hflat.
  intros Ha Hv. unfold visit_block. case_if; [by apply sm_upto_ret|].
  eapply sm_upto_bind; [apply sm_upto_safe, sm_safe_try, node_read_same, node_fills|]. intros r Hr.
  eapply (sm_upto_bind _ _ _ _ (fun l => 0 <= l < 2 ^ 8)).
  - apply sm_upto_lift. destruct r as [nb|e| |]; cbn in Hr |- *; [|lia|done|done].
    rewrite parseNodeHeader_Ok by done. cbn. pose proof (rd_range 1 nb 0x64). cbn in *. lia.
  - intros l Hl. apply sm_upto_ret. cbn [fst]. apply Forall_app_2; [done|]. by constructor.
Qed.

Lemma collect_upto root owner v :
  is_u64 root -> Forall block_good v.1 ->
  sm_upto pan same (collect partOff sb root owner v) (fun v => Forall block_good v.1).
Proof using HL RWL Hflat.
  intros Hr Hv. unfold collect. apply run_var_upto; [|done].
  apply (walkNodeAddrs_closed pan _ _ is_u64); [| |done].
  - intros a Ha. apply var_step_upto. intros v' Hv'. by apply visit_block_upto.
  - intros a Ha. apply with_var_safe, node_read_same. eapply safe_with_impl; [apply node_fills|].
    intros buf Hb. split; [done|]. by apply kids_in_u64.
Qed.

Lemma collect_items_upto buf items v :
  Forall block_good v.1 ->
  sm_upto pan same (collect_items partOff sb buf items v) (fun v => Forall block_good v.1).
Proof using HL RWL Hflat.
  revert v. induction items as [|it items IH]; intros v Hv; cbn [collect_items]; [by apply sm_upto_ret|].
  case_if; [by apply IH|]. unfold rootItemOffBytenr in *. rewrite get_le_Ok by lia.
  eapply (sm_upto_bind _ _ _ _ is_u64); [apply sm_upto_lift, rd8_u64|]. intros bytenr Hb.
  apply (sm_upto_bind _ _ _ _ (fun v => Forall block_good v.1)); [|intros v' Hv'; by apply IH]. case_if; [by apply sm_upto_ret|by apply collect_upto].
Qed.

Lemma collect_blocks_upto :
  is_u64 (sb_chunkLogAddr sb) -> is_u64 (sb_rootLogAddr sb) ->
  sm_upto pan same (collect_blocks partOff sb) (Forall block_good).
Proof using HL RWL Hflat.
  intros Hc Hr. eapply sm_upto_bind; [apply collect_upto; [done|constructor]|]. intros v Hv.
  eapply sm_upto_bind; [by apply collect_upto|]. clear v Hv. intros v Hv.
  apply (sm_upto_bind _ _ _ _ (fun v => Forall block_good v.1)); [|intros v' Hv'; by apply sm_upto_ret].
  apply run_var_upto; [|done]. apply (walkLeaves_closed pan _ _ (fun _ => True)); [|done].
  intros a _. apply with_var_safe, node_read_same. eapply safe_with_impl; [apply node_fills|].
  intros buf Hb. split_and!; [done| |].
  - intros _ l _. apply Forall_forall. intros c _. by right.
  - intros items _ _. apply var_step_upto. intros v' Hv'. by apply collect_items_upto.
Qed.

(** *** Data extents *)
Lemma leaf_extents_upto owner buf items out :
  (forall it, it ∈ items -> pan \/ ext_item_ok (it_k it) (item_data it buf)) -> Forall ext_good out ->
  sm_upto pan same (sm_lift (leaf_extents owner buf items out)) (Forall ext_good).
Proof using.
  intros Hit Ho s' ->. split; [done|]. cbn. revert out Ho. induction items as [|it items IH]; intros out Ho; cbn [leaf_extents]; [done|].
  pose proof (data_extent_of_cases owner (it_k it) (item_data it buf)) as Hc.
  destruct (Hit it ltac:(by left)) as [Hp|Hp].
  - destruct (data_extent_of _ _ _) as [[e|]| | |]; try done; cbn [mbind outcome_bind];
      (apply IH; [intros ??; by left|apply Forall_app_2; [done|]; repeat constructor; apply Hc]).
  - destruct (data_extent_of _ _ _) as [[e|]| | |]; try done; cbn [mbind outcome_bind];
      (apply IH; [intros x Hx; apply Hit; by right|apply Forall_app_2; [done|]; repeat constructor; apply Hc]).
Qed.

(** A root whose leaves can be scanned. *)
Definition scan_ok (P : Z -> Prop) : Prop := forall a, P a -> forall buf, rn s a = Ok buf ->
  kids_in P buf /\
  forall items, leaf_items buf items -> forall it, it ∈ items -> pan \/ ext_item_ok (it_k it) (item_data it buf).

Lemma scan_roots_upto i roots out :
  (forall r, r ∈ roots -> exists P, P r /\ scan_ok P) -> Forall ext_good out ->
  sm_upto pan same (scan_roots partOff sb i roots out) (Forall ext_good).
Proof using HL RWL Hflat.
  revert i out. induction roots as [|r roots IH]; intros i out Hr Ho; cbn [scan_roots]; [by apply sm_upto_ret|].
  apply (sm_upto_bind _ _ _ _ (Forall ext_good)); [|intros out' Ho'; apply IH; [|done]; intros x Hx; apply Hr; by right].
  destruct (Hr r ltac:(by left)) as (P&HP&Hscan). apply run_var_upto; [|done].
  apply (walkLeaves_closed pan _ _ P); [|done]. intros a Ha. apply with_var_safe, node_read_same.
  pose proof (node_fills a) as Hb. specialize (Hscan a Ha). destruct (rn s a) as [buf| | |]; try done.
  destruct (Hscan buf eq_refl) as [Hk Hl]. cbn. split_and!; [done|done|].
  intros items Hit _. apply var_step_upto. intros o Ho'. apply leaf_extents_upto; [|done]. by apply Hl.
Qed.

(** *** The root tree *)
Lemma search_spec h root c ads k :
  wtree False (rn s) h root c ads -> Z.of_nat h <= maxBtreeDepth -> key_ok k ->
  exists o, searchTree rdn root (objID k) (typ k) (offset k) s = (s, o) /\
  match leaf_map c !! k with
  | Some d => exists buf it, o = Ok (buf, it) /\ item_data it buf = d
  | None => o = Err ErrNotFound
  end.
Proof using HL RWL.
  intros Hw Hh Hk. assert (Hlike : ReaderLike same rdn (rn s)) by (intros a s' ->; done). eexists. split.
  { apply (pure_run (D := D)). apply (searchTree_loop_like same _ (rn s)). }
  pose proof (searchTree_spec _ _ _ _ _ _ (wtree_subtree _ _ _ _ _ _ Hw) Hh Hk) as Hs.
  destruct (leaf_map c !! k) as [d|]; [|exact Hs]. destruct Hs as (buf&it&E&_&Ed). by exists buf, it.
Qed.

(** The root a ROOT_ITEM of the root tree names. *)
Definition root_at (c : list rec) (o r : Z) : Prop :=
  exists d, leaf_map c !! Key o typeRootItem 0 = Some d /\ rootItemOffBytenr + 8 <= blen d /\
    rd 8 d rootItemOffBytenr = r.

Context (h : nat) (c : list rec) (ads : list Z).
Context (Hroot : wtree False (rn s) h (sb_rootLogAddr sb) c ads) (Hh : Z.of_nat h <= maxBtreeDepth).

Lemma data_roots_spec objIDs :
  Forall is_u64 objIDs ->
  exists l, data_roots partOff sb objIDs s = (s, Ok l) /\
    forall r, r ∈ l -> r <> 0 /\ exists o, o ∈ objIDs /\ root_at c o r.
Proof using HL RWL Hroot Hh.
  induction 1 as [|o objIDs Ho _ (l&El&Hl)]; cbn [data_roots]; [exists []; split; [done|]; by intros r ?%not_elem_of_nil|].
  destruct (search_spec h _ c ads (Key o typeRootItem 0) Hroot Hh ltac:(unfold typeRootItem; key_tac)) as (o'&Es&Ho').
  cbn [objID typ offset] in Es. unfold sm_try, mbind, SM_bind, sm_lift. rewrite Es.
  assert (Hl' : forall r, r ∈ l -> r <> 0 /\ exists o', o' ∈ o :: objIDs /\ root_at c o' r).
  { intros r Hr. destruct (Hl r Hr) as (?&x&?&?). split; [done|]. exists x. split; [by right|done]. }
  destruct (leaf_map c !! Key o typeRootItem 0) as [d|] eqn:Em.
  - destruct Ho' as (buf&it&->&Ed). rewrite Ed. case_if; [cbn; rewrite El; by exists l|].
    unfold rootItemOffBytenr in *. rewrite get_le_Ok by lia. cbn. rewrite El. eexists. split; [done|].
    intros r [Hr|Hr]%elem_of_app; [|by apply Hl']. destruct (Z.eqb_spec (rd 8 d 0xB0) 0) as [E0|E0]; [by apply not_elem_of_nil in Hr|].
    apply list_elem_of_singleton in Hr as ->. split; [done|]. exists o. split; [by left|]. by exists d.
  - rewrite Ho'. cbn. rewrite El. by exists l.
Qed.

Lemma collectDataExtents_upto :
  (forall o r, o = fsTreeObjID \/ o = dataRelocTreeObjID -> root_at c o r -> r <> 0 -> exists P, P r /\ scan_ok P) ->
  sm_upto pan same (collectDataExtents partOff sb) (Forall ext_good).
Proof using HL RWL Hroot Hh Hflat.
  intros Hr s' ->. destruct (data_roots_spec [fsTreeObjID; dataRelocTreeObjID]) as (l&El&Hl);
    [repeat constructor; done|].
  unfold collectDataExtents. erewrite sm_bind_Ok by exact El. apply scan_roots_upto; [|constructor|done].
  intros r Hin. destruct (Hl r Hin) as (Hz&o&Ho&Hat). apply (Hr o); [|done|done].
  apply elem_of_cons in Ho as [->|Ho]; [by left|]. apply list_elem_of_singleton in Ho as ->. by right.
Qed.

Lemma extentTreeRoot_spec :
  exists o, extentTreeRoot partOff sb s = (s, o) /\
  match o with Ok r => root_at c extentTreeObjID r | Err _ => True | _ => False end.
Proof using HL RWL Hroot Hh.
  destruct (search_spec h _ c ads (Key extentTreeObjID typeRootItem 0) Hroot Hh ltac:(unfold extentTreeObjID, typeRootItem; key_tac)) as (o&Es&Ho).
  cbn [objID typ offset] in Es. unfold extentTreeRoot.
  destruct (leaf_map c !! Key extentTreeObjID typeRootItem 0) as [d|] eqn:Em.
  - destruct Ho as (buf&it&->&Ed). erewrite sm_bind_Ok by exact Es. cbv beta iota. rewrite Ed.
    case_if; [by eexists|]. unfold rootItemOffBytenr in *. rewrite get_le_Ok by lia. eexists. split; [done|].
    by exists d.
  - rewrite Ho in Es. erewrite sm_bind_Err by exact Es. by eexists.
Qed.
End Reading.

(** ** Records *)
Lemma insert_rec_perm r l : insert_rec r l ≡ₚ r :: l.
Proof.
  induction l as [|x l IH]; cbn [insert_rec]; [done|]. case_if; [done|]. rewrite IH. apply Permutation_swap.
Qed.
Lemma sort_recs_perm l : sort_recs l ≡ₚ l.
Proof.
  unfold sort_recs. enough (H : forall acc, foldl (fun acc r => insert_rec r acc) acc l ≡ₚ acc ++ l) by apply H.
  induction l as [|r l IH]; intros acc; cbn [foldl]; [by rewrite app_nil_r|].
  rewrite IH, insert_rec_perm. by rewrite <- Permutation_middle.
Qed.

Lemma block_recs_ok blocks : Forall block_good blocks -> Forall (fun r : rec => key_ok r.1) (map block_rec blocks).
Proof.
  intros Hb. apply Forall_map. eapply Forall_impl; [exact Hb|]. intros b [H1 H2]. unfold key_ok, is_u64 in *. cbn in *.
  unfold typeMetadataItem. lia.
Qed.
Lemma extent_recs_ok exts : Forall ext_good exts -> Forall (fun r : rec => key_ok r.1) (map extent_rec exts).
Proof.
  intros Hb. apply Forall_map. eapply Forall_impl; [exact Hb|]. intros b [H1 H2]. unfold key_ok, is_u64 in *. cbn in *.
  unfold typeExtentItem. lia.
Qed.

Lemma bgLenFlags_chunk sb cs v :
  bgLenFlags sb !! cs = Some v -> exists m, m ∈ sb_sysChunks sb /\ cs = cm_logStart m /\ v = (cm_size m, cm_profile m).
Proof.
  unfold bgLenFlags. enough (H : forall l (acc : gmap Z (Z * Z)),
    foldl (fun m c => <[cm_logStart c := (cm_size c, cm_profile c)]> m) acc l !! cs = Some v ->
    acc !! cs = Some v \/ exists m, m ∈ l /\ cs = cm_logStart m /\ v = (cm_size m, cm_profile m)).
  { intros E. destruct (H _ _ E) as [E'|?]; [by rewrite lookup_empty in E'|done]. }
  induction l as [|m l IH]; intros acc E; cbn [foldl] in E; [by left|].
  destruct (IH _ E) as [E'|(x&Hx&?)]; [|right; exists x; split; [by right|done]].
  apply lookup_insert_Some in E' as [[<- <-]|[_ E']]; [right; exists m; split; [by left|done]|by left].
Qed.

Lemma group_recs_ok sb used : chunk_map_wf (sb_sysChunks sb) -> Forall (fun r : rec => key_ok r.1) (group_recs sb used).
Proof.
  intros [Hwf _]. apply Forall_map, Forall_forall. intros [cs [len fl]] Hin. apply elem_of_map_to_list in Hin.
  destruct (bgLenFlags_chunk sb cs _ Hin) as (m&Hm&->&[= -> ->]). specialize (Hwf _ Hm).
  unfold key_ok. cbn. unfold typeBlockGroupItem. lia.
Qed.

(** ** Leaves filled from the records *)
Lemma insert_recs_spec leaf recs recs0 :
  leaf_repr leaf recs0 -> Forall (fun r : rec => key_ok r.1) recs ->
  safe_with (insert_recs leaf recs) (fun leaf' => blen leaf' = blen leaf /\ exists recs', leaf_repr leaf' recs').
Proof.
  intros Hl Hk. revert leaf recs0 Hl. induction Hk as [|[k d] recs Hk _ IH]; intros leaf recs0 Hl; cbn [insert_recs].
  { split; [done|]. by exists recs0. }
  pose proof (leafInsertItem_spec leaf recs0 k d Hl Hk) as Hi. cbn [fst snd] in *.
  case_if_in Hi; [destruct Hi as (buf'&E&[L _]&Hl')|]; [rewrite E|rewrite Hi; done]. cbn [mbind outcome_bind].
  eapply safe_with_impl; [by eapply IH|]. cbn. intros b [Hb ?]. split; [congruence|done].
Qed.

Lemma fill_leaf_spec leaf recs recs0 :
  leaf_repr leaf recs0 -> Forall (fun r : rec => key_ok r.1) recs ->
  exists leaf' over recs', fill_leaf leaf recs = Ok (leaf', over) /\ blen leaf' = blen leaf /\ leaf_repr leaf' recs'.
Proof.
  intros Hl Hk. revert leaf recs0 Hl. induction Hk as [|[k d] recs Hk _ IH]; intros leaf recs0 Hl; cbn [fill_leaf].
  { by exists leaf, false, recs0. }
  pose proof (leafInsertItem_spec leaf recs0 k d Hl Hk) as Hi. cbn [fst snd] in *.
  case_if_in Hi; [destruct Hi as (buf'&E&[L _]&Hl')|]; [rewrite E|rewrite Hi; by exists leaf, true, recs0].
  destruct (IH buf' _ Hl') as (l'&o&r'&E'&L'&H'). exists l', o, r'. split_and!; [done|congruence|done].
Qed.

(** Emptying a leaf: count, generation and level. *)
Lemma reset_leaf buf gen :
  nodeHdrSize <= blen buf <= maxNodeSize ->
  exists leaf, (b ← PutUint32 buf 0x60 0; b ← PutUint64 b 0x50 gen; PutUint8 b 0x64 0) = Ok leaf /\
    blen leaf = blen buf /\ leaf_repr leaf [].
Proof.
  intros Hb. rewrite put_le_Ok by hdr_lia. cbn [mbind outcome_bind].
  rewrite put_le_Ok by (rewrite ?blen_wr; hdr_lia). cbn [mbind outcome_bind].
  rewrite put_le_Ok by (rewrite ?blen_wr; rewrite ?blen_wr; hdr_lia).
  eexists. split; [done|]. assert (L : blen (wr 1 (wr 8 (wr 4 buf 0x60 0) 0x50 gen) 0x64 0) = blen buf)
    by (rewrite !blen_wr; rewrite ?blen_wr; rewrite ?blen_wr; hdr_lia).
  split; [done|]. split_and!; try done; rewrite ?L; try hdr_lia.
  - rewrite rd_wr_out by (rewrite ?blen_wr; rewrite ?blen_wr; hdr_lia).
    rewrite rd_wr_out by (rewrite ?blen_wr; hdr_lia). rewrite rd_wr_same by hdr_lia. done.
  - rewrite rd_wr_same by (rewrite ?blen_wr; rewrite ?blen_wr; hdr_lia). done.
  - change (nrecs []) with 0. change (recs_size []) with 0. hdr_lia.
Qed.

(** Membership in and permutation of lists of addresses. *)
Ltac mem_tac := rewrite ?elem_of_app, ?elem_of_cons, ?elem_of_app, ?elem_of_nil in *; tauto.
Ltac perm_tac := apply perm_by_cnt; intros ?; repeat first [rewrite count_occ_app|rewrite cnt_cons]; cbn [count_occ]; lia.

(** ** Editing a leaf of a tree in place *)
Lemma leaf_repr_fun buf r1 r2 : leaf_repr buf r1 -> leaf_repr buf r2 -> r1 = r2.
Proof.
  intros H1 H2. assert (En : nrecs r1 = nrecs r2) by (destruct H1 as (E1&_), H2 as (E2&_); congruence).
  destruct (parseLeafItems_repr _ _ H1) as (i1&E1&<-), (parseLeafItems_repr _ _ H2) as (i2&E2&<-).
  rewrite En in E1. congruence.
Qed.

Lemma wtree_edit rn rn' h a c ads leaf buf buf' pre k d d' post :
  wtree False rn h a c ads -> NoDup ads -> leaf ∈ ads -> rn leaf = Ok buf -> leaf_repr buf (pre ++ (k, d) :: post) ->
  rn' leaf = Ok buf' -> leaf_repr buf' (pre ++ (k, d') :: post) ->
  (forall x, x ∈ ads -> x <> leaf -> rn' x = rn x) ->
  exists c1 c2, c = c1 ++ (k, d) :: c2 /\ wtree False rn' h a (c1 ++ (k, d') :: c2) ads.
Proof.
  intros Hw Hnd Hin Hr Hl Hr' Hl' Hsame. revert a c ads Hw Hnd Hin Hsame.
  induction h as [|h IH]; intros a c ads Hw Hnd Hin Hsame.
  - destruct Hw as (b&Hb&Hlb&Hs&->). apply list_elem_of_singleton in Hin as ->. rewrite Hr in Hb. injection Hb as <-.
    rewrite (leaf_repr_fun _ _ _ Hlb Hl) in *. exists pre, post. split; [done|]. exists buf'.
    split_and!; try done. by eapply keys_sorted_middle.
  - destruct Hw as (b&kids&Hb&Hi&->&->&Hsep&Hne&Hk). apply elem_of_cons in Hin as [->|Hin].
    { exfalso. rewrite Hr in Hb. injection Hb as <-. destruct Hi as (_&E1&_), Hl as (_&E2&_). lia. }
    apply NoDup_cons in Hnd as [Hna Hnd]. apply list_elem_of_In, in_concat in Hin as (l&Hl1&Hl2).
    apply in_map_iff in Hl1 as (x&<-&Hx). apply list_elem_of_In, list_elem_of_split in Hx as (kl&kr&->).
    apply list_elem_of_In in Hl2. rewrite !map_app, !concat_app in Hnd. cbn [map concat] in Hnd.
    apply Forall_app in Hk as [Hkl Hk]. apply Forall_cons in Hk as [Hkx Hkr]. pose proof Hkx as (Hx0&Hx1&_&Hxw).
    apply NoDup_app in Hnd as (_&Hd1&Hnd). apply NoDup_app in Hnd as (Hndx&Hd2&_).
    assert (Hm : forall y, y ∈ kid_addrs x -> y ∈ a :: concat (map kid_addrs (kl ++ x :: kr)))
      by (intros y Hy; rewrite map_app, concat_app; cbn; mem_tac).
    destruct (IH _ _ _ Hxw Hndx Hl2) as (c1&c2&Ex&Hxw'); [intros y Hy; by apply Hsame, Hm|].
    set (x' := Kid (kid_key x) (kid_addr x) (c1 ++ (k, d') :: c2) (kid_addrs x)).
    exists (concat (map kid_recs kl) ++ c1), (c2 ++ concat (map kid_recs kr)).
    split; [rewrite map_app, concat_app; cbn; rewrite Ex, <- !app_assoc; done|].
    exists b, (kl ++ x' :: kr). split_and!.
    + rewrite Hsame; [done|by left|]. intros <-. apply Hna. rewrite map_app, concat_app. cbn. mem_tac.
    + rewrite map_app in Hi |- *. exact Hi.
    + rewrite map_app, concat_app. cbn. by rewrite <- !app_assoc.
    + rewrite !map_app. done.
    + apply separated_app in Hsep as Hs2. destruct Hs2 as (_&Hs2&_). apply separated_cons in Hs2 as (Hself&Hpair&_).
      apply separated_plug; [done|]. unfold sep_self in Hself. rewrite Ex in Hself.
      assert (Hkeys : forall r, r ∈ c1 ++ (k, d') :: c2 -> exists r0, r0 ∈ kid_recs x /\ r0.1 = r.1).
      { intros r Hrin. rewrite Ex. apply elem_of_app in Hrin as [Hrin|Hrin]; [exists r; split; [mem_tac|done]|].
        apply elem_of_cons in Hrin as [->|Hrin]; [exists (k, d); split; [mem_tac|done]|exists r; split; [mem_tac|done]]. }
      rewrite <- Ex in Hself. apply Forall_forall. intros r Hrin. destruct (Hkeys r Hrin) as (r0&Hr0&<-).
      rewrite Forall_forall in Hself. split; [by apply Hself|]. apply Forall_forall. intros y Hy.
      rewrite Forall_forall in Hpair. destruct (Hpair y Hy) as [_ Hp]. rewrite Forall_forall in Hp. by apply Hp.
    + by destruct kl.
    + assert (Hside : forall ks, (forall y, y ∈ ks -> y ∈ kl ++ kr) ->
        Forall (kid_ok False rn h) ks -> Forall (kid_ok False rn' h) ks).
      { intros ks Hks Hok. eapply kids_ok_agree; [exact Hok|]. intros y Hy.
        apply list_elem_of_In, in_concat in Hy as (l&Hl1&Hl3). apply in_map_iff in Hl1 as (z&<-&Hz).
        apply list_elem_of_In in Hz, Hl3. specialize (Hks z Hz).
        assert (Hyz : y ∈ concat (map kid_addrs kl) \/ y ∈ concat (map kid_addrs kr))
          by (apply elem_of_app in Hks as [Hks|Hks]; [left|right]; by eapply elem_of_kid_addrs).
        apply Hsame; [rewrite map_app, concat_app; cbn; mem_tac|]. intros ->.
        destruct Hyz as [Hy|Hy]; [apply (Hd1 leaf Hy); mem_tac|by apply (Hd2 leaf Hl2)]. }
      apply Forall_app. split; [by apply Hside; [intros y Hy; mem_tac|]|]. constructor; [|by apply Hside; [intros y Hy; mem_tac|]].
      split_and!; [done|by destruct c1|done|done].
Qed.

Lemma descriptors_middle c pre k d post :
  descriptors c (pre ++ (k, d) :: post) !! length pre =
  Some (LeafItem k (c - recs_size pre - blen d - nodeHdrSize) (blen d)).
Proof.
  revert c. induction pre as [|[k' d'] pre IH]; intros c; cbn [app descriptors length lookup list_lookup].
  - change (recs_size []) with 0. by rewrite Z.sub_0_r.
  - rewrite IH, recs_size_cons. do 2 f_equal. lia.
Qed.

(** Writing through an item of a leaf replaces its data. *)
Lemma edit_item_spec buf pre k d post :
  leaf_repr buf (pre ++ (k, d) :: post) ->
  exists items it, parseLeafItems buf (nrecs (pre ++ (k, d) :: post)) = Ok items /\
    items !! Z.to_nat (nrecs pre) = Some it /\ item_data it buf = d /\
    forall f d', f d = Ok d' -> blen d' = blen d ->
      exists buf', edit_item buf it f = Ok buf' /\ blen buf' = blen buf /\ leaf_repr buf' (pre ++ (k, d') :: post).
Proof.
  intros Hr. destruct (parseLeafItems_repr _ _ Hr) as (items&E&Hi). exists items.
  pose proof (leaf_repr_bounds _ _ Hr) as [Hb _]. pose proof Hr as (Hn&Hl&Hf&Hm&Hp).
  assert (Ei : items = descriptors (blen buf) (pre ++ (k, d) :: post)).
  { set (l := pre ++ (k, d) :: post) in *. pose proof (nrecs_nonneg l). pose proof (recs_size_nonneg l).
    enough (E' : parseLeafItems buf (nrecs l) = Ok (descriptors (blen buf) l)) by congruence.
    unfold parseLeafItems. apply (parseLeafItems_packed _ _ _ 0); [done|hdr_lia| |done].
    rewrite itemsThatFit_Z by done.
    pose proof (Z.div_le_lower_bound (blen buf - nodeHdrSize) itemSize (nrecs l)). unfold nrecs in *. hdr_lia. }
  eexists. split; [done|]. rewrite nrecs_to_nat, Ei, descriptors_middle. split; [done|].
  assert (Ed : item_data (LeafItem k (blen buf - recs_size pre - blen d - nodeHdrSize) (blen d)) buf = d).
  { rewrite Ei in Hi. assert (E2 := f_equal (fun l => l !! length pre) Hi). cbn beta in E2.
    rewrite list_lookup_fmap, descriptors_middle, list_lookup_middle in E2 by done. by injection E2. }
  split; [done|]. intros f d' Ef Hbd. unfold edit_item. rewrite Ed, Ef. cbn [mbind outcome_bind].
  eexists. split; [done|]. cbn [it_dataOff].
  pose proof (leafUpdateItemSameSize_spec buf pre k d post d' Hr) as Hu. rewrite Hbd, Z.eqb_refl in Hu.
  destruct Hu as (buf'&Eu&[Lb _]&Hr'). revert Eu. unfold leafUpdateItemSameSize.
  fold (leaf_need (pre ++ (k, d) :: post)) in Hf. rewrite leaf_need_app, leaf_need_cons in Hf. unfold leaf_need in Hf.
  pose proof (nrecs_nonneg pre). pose proof (recs_size_nonneg pre). pose proof (blen_nonneg d).
  pose proof (nrecs_nonneg post). pose proof (recs_size_nonneg post).
  apply packed_app in Hp as [_ Hp]. cbn [packed] in Hp. destruct Hp as (_&Ho&Hz&_). rewrite Z.add_0_l in *.
  do 2 (rewrite get_le_Ok by hdr_lia; cbn [mbind outcome_bind]). rewrite Ho, Hz, Hbd, Z.eqb_refl. cbn [negb].
  rewrite copy_at_Ok by hdr_lia. intros [= <-]. rewrite Lb. done.
Qed.

Lemma crc_leaf buf recs :
  leaf_repr buf recs -> exists buf', updateNodeCRC buf = Ok buf' /\ blen buf' = blen buf /\ leaf_repr buf' recs.
Proof.
  intros Hr. pose proof (leaf_repr_bounds _ _ Hr) as [Hb _].
  destruct (updateNodeCRC_csum buf) as (buf'&E&_&L&A); [hdr_lia|]. exists buf'. split_and!; [done|done|].
  eapply leaf_repr_body; [exact Hr|]. split; [done|]. intros p Hp. apply A. lia.
Qed.
