(* ===== verification/FsData.v ===== *)
(** * File data under the steps of a write operation

    Allocating and writing data extents beside the FS tree, and what it means
    that the items of an inode hold a given content. *)
From Stdlib Require Import ZArith Lia Strings.Byte.
From stdpp Require Import base option list numbers sorting gmap.
From S2P Require Import Prelude Bytes Alloc Layout SafeIO Chunk Node BTree Walk Split Crc32c Cow Store CowCorrect.
From S2P Require Import Codec Read FileRead Tx Extent Ops FsTree FsLookup Rebuild.
Local Open Scope Z_scope.
Local Open Scope btrfs_scope.

(** ** Extent items as they are encoded *)
Lemma encodeExtentData_fields disk alloc fo num gen :
  is_u64 disk -> is_u64 fo -> is_u64 num ->
  let d := encodeExtentData disk alloc fo num gen in
  blen d = extDataRegularSize /\ rd 1 d extDataOffType = extentDataRegular /\
  rd 1 d extDataOffCompression = compressionNone /\ rd 8 d extDataOffNumBytes = num /\
  rd 8 d extDataOffDiskBytenr = disk /\ rd 8 d extDataOffOffset = fo.
Proof.
  intros Hd Hf Hn. cbn zeta. unfold encodeExtentData, is_u64 in *. ext_offs. unfold extentDataRegular, compressionNone.
  split; [blen_tac|]. split_and!; rd_tac; apply Z.mod_small; cbn; lia.
Qed.

Lemma encodeExtentDataInline_fields data gen :
  let d := encodeExtentDataInline data gen in
  blen d = extDataHdrSize + blen data /\ rd 1 d extDataOffType = extentDataInline /\
  rd 1 d extDataOffCompression = compressionNone /\ sub d extDataHdrSize (blen data) = data.
Proof.
  cbn zeta. unfold encodeExtentDataInline. ext_offs. unfold extentDataInline, compressionNone.
  pose proof (blen_nonneg data). set (n := blen data) in *. split; [unfold n; blen_tac|]. split_and!.
  - rd_tac. done.
  - rd_tac. apply rd_zeros.
  - apply sub_splice_same; [lia|]. fold n. blen_tac.
Qed.

(** ** The content of an inode *)
Section Content.
Context `{HL : SafeIOLaws} (partOff : Z) (sb : superblock) (dv : dataView).
Context (Hflat : flat_map partOff sb).

(** A device that reads held bytes as [dv] says. *)
Definition reads_data (RA : Z -> Z -> outcome bytes) : Prop :=
  forall a n, 0 < n -> (forall p, a <= p < a + n -> dv_held dv p) -> RA (partOff + a) n = dv_read dv a n.

(** The extent item of the bytes [lo .. hi) of a file. *)
Definition chunk (ino : Z) (data : bytes) (r : rec) (lo hi : Z) : Prop :=
  r.1 = Key ino typeExtentData lo /\ lo < hi /\
  exists disk alloc gen, r.2 = encodeExtentData disk alloc 0 (hi - lo) gen /\ disk <> 0 /\
    Store.mapped sb disk /\ (forall p, disk <= p < disk + (hi - lo) -> dv_held dv p) /\
    dv_read dv disk (hi - lo) = Ok (sub data lo (hi - lo)).
Fixpoint chunks (ino : Z) (data : bytes) (l : list rec) (lo hi : Z) : Prop :=
  match l with
  | [] => lo = hi
  | r :: l => exists mid, chunk ino data r lo mid /\ chunks ino data l mid hi
  end.

Lemma chunks_le ino data l lo hi : chunks ino data l lo hi -> lo <= hi.
Proof using.
  revert lo. induction l as [|r l IH]; intros lo; cbn [chunks]; [lia|]. intros (mid&(_&Hlt&_)&Hl). apply IH in Hl. lia.
Qed.
Lemma chunks_snoc ino data l lo mid hi r :
  chunks ino data l lo mid -> chunk ino data r mid hi -> chunks ino data (l ++ [r]) lo hi.
Proof using.
  revert lo. induction l as [|x l IH]; intros lo; cbn [chunks app]; [intros ->; by exists hi|].
  intros (mid'&Hx&Hl) Hr. exists mid'. split; [done|]. by apply IH.
Qed.

Lemma chunks_keys ino data l lo hi r :
  chunks ino data l lo hi -> r ∈ l -> exists off, r.1 = Key ino typeExtentData off /\ lo <= off < hi.
Proof using.
  revert lo. induction l as [|x l IH]; intros lo; cbn [chunks]; [by intros _ ?%not_elem_of_nil|].
  intros (mid&(Hk&Hlt&_)&Hl) Hr. pose proof (chunks_le _ _ _ _ _ Hl). apply elem_of_cons in Hr as [->|Hr].
  - exists lo. split; [done|lia].
  - destruct (IH mid Hl Hr) as (off&E&Ho). exists off. split; [done|lia].
Qed.

(** The items hold the content: whoever reads them through the device gets it. *)
Definition content (l : list rec) (data : bytes) : Prop :=
  forall (DC : Decoders) (HD : DecodersLaws DC) RA dev, reads_data RA -> blen data <= dev < 2 ^ 63 ->
    read_extents RA dev partOff sb (blen data) l = Ok data.

Definition file_data (m : gmap key bytes) (ino : Z) (data : bytes) : Prop :=
  exists l, prefix_of m ino typeExtentData l /\ l <> [] /\ content l data.

Lemma read_chunks `{HD : DecodersLaws} RA dev ino data l lo hi out pe :
  reads_data RA -> 0 <= lo -> hi <= blen data < 2 ^ 63 -> is_u64 ino ->
  chunks ino data l lo hi -> blen out = blen data -> pe <= lo -> (forall p, 0 <= p < lo -> bnth out p = bnth data p) ->
  exists out' pe', read_items RA dev partOff sb (blen data) l (out, pe) = Ok (out', pe') /\
    blen out' = blen data /\ forall p, 0 <= p < hi -> bnth out' p = bnth data p.
Proof using HL Hflat.
  intros Hra Hlo Hhi Hino. revert lo Hlo out pe. induction l as [|[k d] l IH]; intros lo Hlo out pe Hc Lo Hpe Hp;
    cbn [chunks read_items] in *.
  { subst lo. by exists out, pe. }
  destruct Hc as (mid&(Hk&Hlt&disk&alloc&gen&Hd&Hnz&Hmap&Hheld&Hread)&Hl). cbn [fst snd] in *. subst k d.
  pose proof (chunks_le _ _ _ _ _ Hl) as Hmid.
  destruct (mapped_addr partOff sb Hflat disk Hmap) as (_&_&Hdisk&_&Hphys).
  destruct (encodeExtentData_fields disk alloc 0 (mid - lo) gen) as (F1&F2&F3&F4&F5&F6); [unfold is_u64; lia..|].
  assert (Hk : key_ok (Key ino typeExtentData lo)) by key_tac.
  rewrite read_item_eq by (done || lia). cbn zeta. cbn [offset]. unfold data_addr.
  rewrite F1, F2, F3, F4, F5, F6. rewrite (u64_small (disk + 0)) by (unfold is_u64; lia).
  rewrite (proj2 (Z.leb_gt _ _)) by lia. change (extDataRegularSize <=? extDataOffType) with false.
  change (extentDataRegular =? extentDataInline) with false. change (extentDataRegular =? extentDataRegular) with true.
  change (extDataRegularSize <? extDataRegularSize) with false. change (compressionNone =? compressionNone) with true.
  cbv iota. rewrite (u64_small (lo + _)) by (unfold is_u64; lia).
  rewrite (proj2 (Z.ltb_ge (lo + _) lo)), (proj2 (Z.ltb_ge lo pe)) by lia. cbn [orb].
  rewrite (proj2 (Z.eqb_neq _ _) Hnz), Z.add_0_r, Hphys, Z.min_l by lia. cbn [mbind outcome_bind].
  rewrite Hra, Hread by (done || lia). cbn [mbind outcome_bind].
  assert (Ls : blen (sub data lo (mid - lo)) = mid - lo) by (apply blen_sub; lia).
  destruct (IH mid ltac:(lia) (splice out lo (sub data lo (mid - lo))) (lo + (mid - lo))) as (out'&pe'&E&L&A);
    [done|rewrite blen_splice; lia|lia| |by exists out', pe'].
  intros p Hp'. destruct (Z_lt_le_dec p lo).
  - rewrite bnth_splice_out by lia. apply Hp. lia.
  - rewrite bnth_splice_in, bnth_sub by lia. f_equal. lia.
Qed.

Lemma content_start `{HD : DecodersLaws} RA dev data l :
  blen data <= dev < 2 ^ 63 ->
  read_extents RA dev partOff sb (blen data) l =
  (r ← read_items RA dev partOff sb (blen data) l (zeros (blen data), 0); Ok r.1).
Proof using HL.
  intros Hd. pose proof (blen_nonneg data). unfold read_extents. rewrite i64_small by lia.
  pose proof (MakeBytes_spec (blen data) dev) as Hmb. rewrite !(proj2 (Z.leb_le _ _)) in Hmb by lia.
  cbn [andb] in Hmb. by rewrite Hmb.
Qed.

Lemma content_chunks ino data l : is_u64 ino -> chunks ino data l 0 (blen data) -> content l data.
Proof using HL Hflat.
  intros Hi Hc Hdec HD RA dev Hra Hdev. rewrite content_start by done. pose proof (blen_nonneg data).
  destruct (read_chunks RA dev ino data l 0 (blen data) (zeros (blen data)) 0) as (out&pe&E&L&A);
    [done|lia|lia|done|done|by rewrite blen_zeros|lia|lia|].
  rewrite E. cbn [mbind outcome_bind fst]. f_equal. apply bytes_ext; [done|]. intros p Hp. apply A. lia.
Qed.

Lemma content_inline ino data gen :
  is_u64 ino -> content [(Key ino typeExtentData 0, encodeExtentDataInline data gen)] data.
Proof using HL.
  intros Hi Hdec HD RA dev Hra Hdev. rewrite content_start by done. cbn [read_items]. pose proof (blen_nonneg data).
  rewrite read_item_eq by (first [key_tac|by rewrite blen_zeros|lia]). cbn zeta. cbn [offset].
  destruct (encodeExtentDataInline_fields data gen) as (F1&F2&F3&F4). unfold inline_src.
  rewrite F1, F2, F3. case_if; [cbn [mbind outcome_bind fst]|].
  { destruct data; [done|]. unfold blen in *. cbn [length] in *. lia. }
  rewrite (proj2 (Z.leb_gt _ _)) by (ext_offs; lia). change (extentDataInline =? extentDataInline) with true. cbv iota.
  replace (extDataHdrSize + blen data - extDataHdrSize) with (blen data) by lia. rewrite F4.
  unfold decompressExtent. change (compressionNone =? compressionNone) with true. cbv iota. cbn [mbind outcome_bind fst].
  rewrite Z.sub_0_r, Z.min_id, sub_all. f_equal. apply bytes_ext; [by rewrite blen_splice, blen_zeros; rewrite ?blen_zeros; lia|].
  intros p Hp. rewrite blen_splice, blen_zeros in Hp by (rewrite ?blen_zeros; lia).
  rewrite bnth_splice_in by (rewrite ?blen_zeros; lia). f_equal. lia.
Qed.

Lemma isAllZero_zeros data : isAllZero data = true -> data = zeros (blen data).
Proof using.
  unfold isAllZero, zeros, blen. rewrite Nat2Z.id. induction data as [|b data IH]; cbn [forallb length replicate]; [done|].
  intros [Hb Hd]%andb_true_iff. rewrite <- IH by done. f_equal. apply Z.eqb_eq in Hb.
  rewrite <- (byte_of_Z_of_byte b), Hb. done.
Qed.

Lemma content_hole ino data gen :
  is_u64 ino -> 0 < blen data < 2 ^ 63 -> isAllZero data = true ->
  content [(Key ino typeExtentData 0, encodeExtentData 0 0 0 (blen data) gen)] data.
Proof using HL.
  intros Hi Hb Hz Hdec HD RA dev Hra Hdev. rewrite content_start by done. cbn [read_items].
  rewrite read_item_eq by (first [key_tac|by rewrite blen_zeros by lia|lia]). cbn zeta. cbn [offset].
  destruct (encodeExtentData_fields 0 0 0 (blen data) gen) as (F1&F2&F3&F4&F5&F6); [unfold is_u64; lia..|].
  rewrite F1, F2, F4, F5. rewrite (proj2 (Z.leb_gt _ _)) by lia. change (extDataRegularSize <=? extDataOffType) with false.
  change (extentDataRegular =? extentDataInline) with false. change (extentDataRegular =? extentDataRegular) with true.
  change (extDataRegularSize <? extDataRegularSize) with false. cbv iota.
  rewrite u64_small by (unfold is_u64; lia). rewrite (proj2 (Z.ltb_ge (0 + _) 0)) by lia. cbn [orb Z.ltb Z.compare].
  change (0 =? 0) with true. cbv iota. cbn [mbind outcome_bind fst]. f_equal. symmetry. by apply isAllZero_zeros.
Qed.
End Content.

Lemma chunks_dv_le sb dv dv' ino data l lo hi :
  dv_le dv dv' -> chunks sb dv ino data l lo hi -> chunks sb dv' ino data l lo hi.
Proof.
  intros (_&H1&H2). revert lo. induction l as [|r l IH]; intros lo; cbn [chunks]; [done|].
  intros (mid&(Hk&Hlt&disk&alloc&gen&Hd&Hnz&Hmap&Hheld&Hread)&Hl). exists mid. split; [|by apply IH].
  split_and!; [done|done|]. exists disk, alloc, gen. split_and!; try done; [auto|].
  rewrite H2; [done|lia|done].
Qed.

Lemma prefix_of_snoc m o t l k d :
  prefix_of m o t l -> objID k = o -> typ k = t -> Forall (fun r => key_lt r.1 k) l -> m !! k = None ->
  prefix_of (<[k := d]> m) o t (l ++ [(k, d)]).
Proof.
  intros [Hs Hm] Ho Ht Hlt Hnone. split.
  - apply keys_sorted_app. split_and!; [done|apply keys_sorted_cons; split; constructor|].
    intros x y Hx Hy. cbn in Hy. apply list_elem_of_singleton in Hy as ->. rewrite Forall_forall in Hlt.
    apply list_elem_of_fmap in Hx as (r&->&Hr). by apply Hlt.
  - intros k' d'. rewrite elem_of_app, list_elem_of_singleton, Hm, lookup_insert_Some. split.
    + intros [(E&Ho'&Ht')|[= -> ->]]; [|by split_and!; [left|..]]. split_and!; [|done|done]. right. split; [|done].
      intros <-. congruence.
    + intros ([[<- <-]|[Hne E]]&Ho'&Ht'); [by right|left; done].
Qed.
Lemma prefix_of_nil m o t : (forall k d, m !! k = Some d -> objID k = o -> typ k <> t) -> prefix_of m o t [].
Proof.
  intros Hn. split; [constructor|]. intros k d. rewrite elem_of_nil. split; [done|]. intros (E&Ho&Ht). by apply (Hn k d).
Qed.

(** More data known, or other keys changed: the content stays. *)
Lemma content_le `{SafeIO} partOff sb dv dv' l data :
  dv_le dv dv' -> content partOff sb dv l data -> content partOff sb dv' l data.
Proof.
  intros (_&H1&H2) Hc DC HD RA dev Hra Hdev. apply Hc; [done| |done]. intros a n Hn Hd.
  rewrite Hra by auto. by apply H2.
Qed.
Lemma prefix_of_frame m m' o t l :
  (forall k, objID k = o -> typ k = t -> m' !! k = m !! k) -> prefix_of m o t l -> prefix_of m' o t l.
Proof.
  intros Hf [Hs Hm]. split; [done|]. intros k d. rewrite Hm. split; intros (Ek&Ho&Ht); split_and!; try done;
    [by rewrite Hf|by rewrite <- Hf].
Qed.
Lemma file_data_frame `{SafeIO} partOff sb dv dv' m m' ino data :
  dv_le dv dv' -> (forall k, objID k = ino -> typ k = typeExtentData -> m' !! k = m !! k) ->
  file_data partOff sb dv m ino data -> file_data partOff sb dv' m' ino data.
Proof.
  intros Hle Hf (l&Hl&Hne&Hc). exists l. split_and!; [by eapply prefix_of_frame|done|by eapply content_le].
Qed.

(** The new items of [m'] all belong to the extents of [ino]. *)
Definition adds_extents (ino : Z) (m m' : gmap key bytes) : Prop :=
  m ⊆ m' /\ forall k d, m' !! k = Some d -> m !! k <> Some d -> objID k = ino /\ typ k = typeExtentData /\ ext_item_ok k d.

Lemma adds_extents_refl ino m : adds_extents ino m m.
Proof. split; [done|]. by intros k d Hk. Qed.
Lemma adds_extents_insert ino m m' off d :
  adds_extents ino m m' -> m' !! Key ino typeExtentData off = None -> ext_item_ok (Key ino typeExtentData off) d ->
  adds_extents ino m (<[Key ino typeExtentData off := d]> m').
Proof.
  intros [Hs Hn] Hnone Hok. split; [by etrans; [exact Hs|apply insert_subseteq]|]. intros k x.
  rewrite lookup_insert_Some. intros [[<- <-]|[Hne Ex]] Hk; [done|by apply Hn].
Qed.

Lemma encodeExtentData_item_ok k a b c d e : ext_item_ok k (encodeExtentData a b c d e).
Proof.
  intros _ _ _. assert (L : blen (encodeExtentData a b c d e) = 0x35) by (unfold encodeExtentData; ext_offs; blen_tac).
  rewrite L. unfold extDataOffDiskNumBytes. lia.
Qed.
Lemma encodeExtentDataInline_item_ok k d gen : ext_item_ok k (encodeExtentDataInline d gen).
Proof.
  intros _ _ Hr. destruct (encodeExtentDataInline_fields d gen) as (_&Ht&_). rewrite Ht in Hr. done.
Qed.

Section FsData.
Context `{HL : SafeIOLaws} {D : Type} `{RWL : RWLaws D} `{CK : Clock} (partOff : Z) (R : keeper) `{HR : !Stable R}.
Context (X : txState D -> Prop).
Abbreviation W := (txState D).
Abbreviation repr := (repr partOff R).
Abbreviation low h := (Z.of_nat h <= maxBtreeDepth).

(** The data known of a state: [P] is held, and reads as the device reads now. *)
Definition dv_now (w : W) (P : Z -> Prop) : dataView :=
  DataView (dev_size (st_dev (tx_cow w))) P (fun a n => ReadAt (st_dev (tx_cow w)) (partOff + a) n).

Definition with_sm (w : W) (sm : spaceManager) : W :=
  TxState (CowState (st_dev (tx_cow w)) sm) (tx_sb w) (tx_root w) (tx_tick w).

(** A range that can hold file data. *)
Definition range_ok (w : W) (a n : Z) : Prop :=
  0 < a /\ 0 < n /\ (forall p, a <= p < a + n -> Store.mapped (tx_sb w) p) /\
  partOff + a + n <= dev_size (st_dev (tx_cow w)) < 2 ^ 63.

Lemma hold_range t dv w h m sm' a n :
  repr t dv w h m -> sm_wf sm' -> sm_nodeSize sm' = sm_nodeSize (st_sm (tx_cow w)) -> fe_ok (FreeExtent a n) ->
  (forall p, cov (sm_freeExts (st_sm (tx_cow w))) p = cov (sm_freeExts sm') p + inr a n p) ->
  let dv' := dv_now (with_sm w sm') (fun p => dv_held dv p \/ a <= p < a + n) in
  repr t dv' (with_sm w sm') h m /\ dv_le dv dv' /\ range_ok w a n /\ forall p, a <= p < a + n -> ~ dv_held dv p.
Proof using HR.
  intros (c&ads&rest&Hf&Hw&Em&Hi&HRr&Hne&Hdev) Hwf Hns (Ha&Hn&Hfe) Hcov. cbv zeta. cbn [fe_physStart fe_size] in *.
  pose proof Hi as (Hwf0&Hns0&Hfree&Hok&Hnd&Hdis&Hnf&Hsz&Hdat&Hread).
  assert (Hin : forall p, a <= p < a + n -> is_free (st_sm (tx_cow w)) p).
  { intros p Hp. unfold is_free. rewrite Hcov. pose proof (cov_nonneg (sm_freeExts sm') p).
    destruct (inr_spec a n p) as [[? ->]|[? ?]]; lia. }
  assert (Hout : forall p, is_free sm' p -> is_free (st_sm (tx_cow w)) p /\ ~ a <= p < a + n).
  { intros p. unfold is_free. intros Hp. specialize (Hcov p). pose proof (proj1 (proj2 Hwf0) p).
    pose proof (cov_nonneg (sm_freeExts sm') p). destruct (inr_spec a n p) as [[? ?]|[? ?]]; split; lia. }
  assert (Hnew : forall p, a <= p < a + n -> ~ dv_held dv p) by (intros p Hp Hd; by apply (Hdat p Hd), Hin).
  assert (Hr : range_ok w a n).
  { destruct (Hfree a (Hin a ltac:(lia))) as (H0&_&_). destruct (Hfree (a + n - 1) (Hin (a + n - 1) ltac:(lia))) as (_&_&H1).
    split_and!; [done|lia| |lia|lia]. intros p Hp. by apply Hfree, Hin. }
  split_and!; [|split_and!; cbn|done|done].
  - exists c, ads, rest. cbn [with_sm tx_cow tx_sb tx_root]. split_and!; try done; cycle 1.
    { split; [cbn; rewrite Hsz; apply Hdev|]. intros p [Hp|Hp]; [by apply Hdev|by apply Hr]. }
    split_and!; cbn [st_sm st_dev]; try done.
    + congruence.
    + intros p Hp. apply Hout in Hp as [Hp _]. by apply Hfree.
    + intros x Hx (p&Hp&Hfp). apply Hout in Hfp as [Hfp _]. apply (Hnf x Hx). by exists p.
    + split_and!; cbn; [done| |done]. intros p [Hd|Hd].
      * destruct (Hdat p Hd) as [Hfp Hl]. split; [|done]. intros Hfp'. by apply Hout in Hfp' as [? _].
      * split; [intros Hfp; by apply Hout in Hfp as [_ ?]|]. intros x Hx Hp. apply (Hnf x Hx). exists p. split; [done|].
        by apply Hin.
  - done.
  - intros p Hd. by left.
  - intros x k Hk Hd. by rewrite Hread.
Qed.

(** Writing into held bytes. *)
Lemma dev_write_spec t dv w h m a b (Q : unit -> W -> Prop) E :
  repr t dv w h m -> range_ok w a (blen b) -> (forall p, a <= p < a + blen b -> dv_held dv p) ->
  (forall w', let dv' := dv_now w' (dv_held dv) in
     repr t dv' w' h m -> next w w' -> dv_size dv' = dv_size dv -> dv_read dv' a (blen b) = Ok b ->
     (forall x n, 0 < n -> (forall p, x <= p < x + n -> dv_held dv p) -> x + n <= a \/ a + blen b <= x ->
        dv_read dv' x n = dv_read dv x n) -> Q tt w') ->
  wp X (dev_write (i64 (partOff + i64 a)) b) w Q E.
Proof using HL RWL HR.
  intros (c&ads&rest&Hf&Hw&Em&Hi&HRr&Hne&Hdev) (Ha&Hn&Hm&Hb) Hheld HQ.
  pose proof Hi as (Hwf0&Hns0&Hfree&Hok&Hnd&Hdis&Hnf&Hsz&Hdat&Hread).
  pose proof Hf as (_&Hpo&_).
  rewrite (i64_small a), i64_small by lia.
  destruct (WriteAt_in (st_dev (tx_cow w)) (partOff + a) b) as (d'&Ew&Hd'&Hrd&Hfr); [lia|lia|].
  set (w' := TxState (CowState d' (st_sm (tx_cow w))) (tx_sb w) (tx_root w) (tx_tick w)).
  apply (wp_eq _ _ _ w' (Ok tt)); [unfold dev_write, tx_lift, m_write; by rewrite Ew|].
  assert (Hsame : forall x, x ∈ ads ++ rest -> rn partOff (tx_sb w) (tx_cow w') x = rn partOff (tx_sb w) (tx_cow w) x).
  { intros x Hx. destruct (Inv_live_nonzero _ _ _ Hf _ _ x Hi Hx) as [_ Hmx].
    rewrite !(rn_read partOff _ Hf) by done. cbn [st_dev w' tx_cow]. apply Hfr; [apply NS_bounds in Hf; hdr_lia|].
    destruct (Z_le_gt_dec (x + sb_nodeSize (tx_sb w)) a); [left; lia|].
    destruct (Z_le_gt_dec (a + blen b) x); [right; lia|]. exfalso.
    assert (Hp : a <= Z.max a x < a + blen b) by (apply NS_bounds in Hf; hdr_lia).
    apply (Hdat _ (Hheld _ Hp)) in Hx. apply Hx. apply NS_bounds in Hf. hdr_lia. }
  apply HQ.
  - exists c, ads, rest. cbn [w' tx_cow tx_sb tx_root]. split_and!; try done.
    + eapply wtree_agree; [exact Hw|]. intros x Hx. apply Hsame, elem_of_app. by left.
    + split_and!; cbn [st_sm st_dev]; try done.
      * intros p Hp. rewrite Hd'. by apply Hfree.
      * eapply Forall_impl; [exact Hok|]. intros x (?&?&?). split_and!; try done; cbn [st_dev]; rewrite Hd'; lia.
    + apply (stable _ (rn partOff (tx_sb w) (tx_cow w)) _ rest []); [done|]. intros x Hx.
      apply Hsame, elem_of_app. by right.
    + split; [cbn; rewrite Hd', Hsz; apply Hdev|apply Hdev].
  - done.
  - cbn. by rewrite Hd', Hsz.
  - cbn [dv_now dv_read tx_cow st_dev w']. done.
  - intros x n Hn' Hx Hdj. cbn [dv_now dv_read tx_cow st_dev w']. rewrite <- Hread by done. apply Hfr; lia.
Qed.

Lemma alloc_data_spec t dv w h m size (Q : Z * Z -> W -> Prop) (E : error -> W -> Prop) :
  repr t dv w h m -> 0 < sb_sectorSize (tx_sb w) -> 0 < size -> size + sb_sectorSize (tx_sb w) < 2 ^ 64 ->
  (forall a n w', size <= n -> let dv' := dv_now w' (fun p => dv_held dv p \/ a <= p < a + n) in
     repr t dv' w' h m -> dv_le dv dv' -> range_ok w' a n -> (forall p, a <= p < a + n -> ~ dv_held dv p) ->
     next w w' -> Q (a, n) w') ->
  (forall e, E e w) -> wp X (alloc_data size) w Q E.
Proof using HL RWL HR.
  intros Hr Hs Hz Hb HQ HE. unfold alloc_data, tx_lift, wp.
  destruct (allocDataBytes _ _ _) as [sm' r] eqn:Ea. destruct r as [[a n]|e| |].
  - pose proof Hr as (c&ads&rest&Hf&_&_&Hi&_). pose proof Hi as (Hwf&_).
    destruct (allocDataBytes_wf _ _ _ _ _ _ Hwf Hs Hz Hb Ea) as (->&Hwf'&Hfe&Hns&Hcov).
    pose proof (round_up64_spec size _ Hs Hz Hb) as [Hn _].
    destruct (hold_range t dv w h m sm' _ _ Hr Hwf' Hns Hfe Hcov) as (H1&H2&H3&H4).
    apply HQ; [lia|done|done|done|done|done].
  - assert (sm' = st_sm (tx_cow w)) as ->.
    { unfold allocDataBytes in Ea. case_if_in Ea; [done|]. by destruct (take_first _ _) as [[]|]; injection Ea as <- ?. }
    destruct w as [[]]. apply HE.
  - unfold allocDataBytes in Ea. case_if_in Ea; [lia|]. by destruct (take_first _ _) as [[]|].
  - unfold allocDataBytes in Ea. case_if_in Ea; [done|]. by destruct (take_first _ _) as [[]|].
Qed.

Lemma alloc_data_up_to_spec t dv w h m size (Q : Z * Z -> W -> Prop) (E : error -> W -> Prop) :
  repr t dv w h m -> 0 < sb_sectorSize (tx_sb w) -> 0 < size ->
  (forall a n w', let dv' := dv_now w' (fun p => dv_held dv p \/ a <= p < a + n) in
     repr t dv' w' h m -> dv_le dv dv' -> range_ok w' a n -> (forall p, a <= p < a + n -> ~ dv_held dv p) ->
     next w w' -> Q (a, n) w') ->
  (forall e, E e w) -> wp X (alloc_data_up_to size) w Q E.
Proof using HL RWL HR.
  intros Hr Hs Hz HQ HE. unfold alloc_data_up_to, tx_lift, wp.
  destruct (allocDataBytesUpTo _ _ _) as [sm' r] eqn:Ea.
  assert (Hcase : (exists a n, r = Ok (a, n)) \/ (sm' = st_sm (tx_cow w) /\ exists e, r = Err e)).
  { unfold allocDataBytesUpTo in Ea. pose proof (find_best_spec (sb_sectorSize (tx_sb w))
      (sm_freeExts (st_sm (tx_cow w))) 0 None) as Hbest.
    destruct (find_best _ _ _ _) as [[bi bs]|]; [|injection Ea as <- <-; eauto].
    destruct Hbest as [?|(Hbi&Hbs&fe&Hfe&<-)]; [done|]. rewrite Nat.sub_0_r in Hfe.
    case_if_in Ea; [lia|]. rewrite Hfe in Ea. injection Ea as <- <-. eauto. }
  destruct Hcase as [(a&n&->)|(->&e&->)]; [|destruct w as [[]]; apply HE].
  pose proof Hr as (c&ads&rest&Hf&_&_&Hi&_). pose proof Hi as (Hwf&_).
  destruct (allocDataBytesUpTo_wf _ _ _ _ _ _ Hwf Hs Hz Ea) as (Hwf'&Hfe&Hns&_&Hcov).
  destruct (hold_range t dv w h m sm' _ _ Hr Hwf' Hns Hfe Hcov) as (H1&H2&H3&H4).
  by apply HQ.
Qed.

(** Writing the first bytes of a range just allocated. *)
Lemma store_spec t dv w0 w h m a n b (Q : unit -> W -> Prop) E :
  let dv1 := dv_now w (fun p => dv_held dv p \/ a <= p < a + n) in
  repr t dv1 w h m -> dv_le dv dv1 -> range_ok w a n -> (forall p, a <= p < a + n -> ~ dv_held dv p) ->
  next w0 w -> 0 < blen b <= n ->
  (forall w' dv', repr t dv' w' h m -> dv_le dv dv' -> next w0 w' ->
     (forall p, a <= p < a + blen b -> dv_held dv' p) -> dv_read dv' a (blen b) = Ok b -> Q tt w') ->
  wp X (dev_write (i64 (partOff + i64 a)) b) w Q E.
Proof using HL RWL HR.
  cbv zeta. intros Hr Hle (Ha&Hn&Hm&Hd) Hnew Hnext Hb HQ.
  eapply (dev_write_spec t _ w h m a b); [exact Hr| | |].
  - split_and!; try lia. intros p Hp. apply Hm. lia.
  - intros p Hp. cbn. right. lia.
  - intros w' dv' Hr' Hn' Hsz Hrd Hfr. eapply HQ; [exact Hr'| |by etrans|cbn; intros; right; lia|done].
    destruct Hle as (E1&E2&E3). split_and!.
    + by rewrite <- E1.
    + intros p Hp. cbn. by left.
    + intros x k Hk Hp. rewrite Hfr; [by apply E3|done|cbn; intros; left; auto|].
      destruct (Z_le_gt_dec (x + k) a); [by left|]. destruct (Z_le_gt_dec (a + blen b) x); [by right|]. exfalso.
      apply (Hnew (Z.max a x)); [lia|]. apply Hp. lia.
Qed.
End FsData.

(** ** Writing the content of a new inode *)
Section WriteExtents.
Context `{HL : SafeIOLaws} {D : Type} `{RWL : RWLaws D} `{CK : Clock} (partOff : Z) (R : keeper) `{HR : !Stable R}.
Context (X : txState D -> Prop).
Abbreviation W := (txState D).
Abbreviation repr := (repr partOff R).
Context (t : Prop) (Ht : t) (w0 : W) (dv0 : dataView) (m0 : gmap key bytes) (ino : Z) (data : bytes) (gen : Z).
Context (Hino : is_u64 ino) (Hcov : covered m0 (Key ino typeExtentData 0)).
Context (Hnone : forall k d, m0 !! k = Some d -> objID k = ino -> typ k <> typeExtentData).
Context (Hsec : 0 < sb_sectorSize (tx_sb w0) < 2 ^ 62) (Hlen : blen data < 2 ^ 62).

Definition partly (w : W) : Prop :=
  exists dv h m, repr t dv w h m /\ dv_le dv0 dv /\ next w0 w /\ adds_extents ino m0 m.
Definition written (w : W) : Prop :=
  exists dv h m, repr t dv w h m /\ dv_le dv0 dv /\ next w0 w /\ adds_extents ino m0 m /\
    file_data partOff (tx_sb w0) dv m ino data.

Lemma covered_off m off : m0 ⊆ m -> 0 <= off -> covered m (Key ino typeExtentData off).
Proof using Hcov.
  intros Hs Ho. destruct Hcov as (k0&d0&E&Hle). exists k0, d0. split; [by eapply lookup_weaken|].
  unfold key_num in *. cbn [objID typ offset] in *. lia.
Qed.

Lemma encodeExtentData_nonempty a b c d e : encodeExtentData a b c d e <> [].
Proof using.
  intros E. apply (f_equal blen) in E. revert E. unfold encodeExtentData. ext_offs. rewrite blen_nil.
  assert (L : forall x, blen (wr 8 x 0x2D d) = 0x35 -> blen (wr 8 x 0x2D d) <> 0) by (intros; lia). apply L. blen_tac.
Qed.

(** One item for the whole file. *)
Lemma insert_single_spec dv w h d (E : error -> W -> Prop) :
  repr t dv w h m0 -> dv_le dv0 dv -> next w0 w -> d <> [] -> ext_item_ok (Key ino typeExtentData 0) d ->
  content partOff (tx_sb w0) dv [(Key ino typeExtentData 0, d)] data ->
  (forall e w', partly w' -> E e w') ->
  wp X (fs_insert partOff (Key ino typeExtentData 0) d) w (fun _ w' => written w') E.
Proof using All.
  intros Hr Hle Hn Hd Hok Hc HE.
  assert (Hnk : m0 !! Key ino typeExtentData 0 = None).
  { destruct (m0 !! _) as [x|] eqn:Ex; [|done]. by destruct (Hnone _ _ Ex). }
  eapply (fs_insert_spec partOff R X t dv w h m0); [done|done|key_tac|done|intros _; by apply covered_off|done| |].
  - intros w' h' _ Hr' Hn'. exists dv, h', (<[Key ino typeExtentData 0 := d]> m0).
    split_and!; [done|done|by etrans| |].
    + apply adds_extents_insert; [apply adds_extents_refl|done|done].
    + exists [(Key ino typeExtentData 0, d)]. split_and!; [|done|exact Hc].
      apply (prefix_of_snoc m0 ino typeExtentData [] (Key ino typeExtentData 0) d); try done.
      apply prefix_of_nil. exact Hnone.
  - intros e w' Hr' Hn'. apply HE. exists dv, h, m0. split_and!; [done|done|by etrans|apply adds_extents_refl].
Qed.

Lemma write_chunks_spec fuel : forall w h m dv fo remaining l (E : error -> W -> Prop),
  repr t dv w h m -> dv_le dv0 dv -> next w0 w -> adds_extents ino m0 m ->
  prefix_of m ino typeExtentData l -> chunks (tx_sb w0) dv ino data l 0 fo ->
  0 <= fo -> fo + remaining = blen data -> 0 <= remaining <= Z.of_nat fuel -> (remaining = 0 -> l <> []) ->
  (forall e w', partly w' -> E e w') ->
  wp X (write_chunks partOff fuel ino data gen fo remaining) w (fun _ w' => written w') E.
Proof using All.
  induction fuel as [|fuel IH]; intros w h m dv fo remaining l E Hr Hle Hn Hadd Hp Hc Hfo Hsum Hrem Hl HE; cbn [write_chunks].
  all: pose proof (repr_flat _ _ _ _ _ _ _ Hr) as Hflat; rewrite Hn in Hflat.
  all: destruct (remaining <=? 0) eqn:Hz; bool_prop.
  1,3: apply wp_ret; exists dv, h, m; split_and!; try done; exists l; split_and!;
    [done|apply Hl; lia|apply (content_chunks _ _ _ Hflat ino); [done|]; by replace (blen data) with fo by lia].
  - lia.
  - apply wp_bind. eapply (alloc_data_up_to_spec partOff R X t dv w h m);
      [done|rewrite Hn; lia|lia| |intros e; apply HE; by exists dv, h, m].
    intros a n w1 dv1 Hr1 Hle1 Hok1 Hnew1 Hn1. pose proof Hok1 as (Ha&Hn0&Hmap&_).
    set (chunk := if remaining <? n then remaining else n).
    assert (Hch : 0 < chunk <= n /\ chunk <= remaining) by (unfold chunk; case_if; lia).
    apply wp_bind, (wp_lift_ok _ _ (sub data fo chunk)).
    { rewrite slice_Ok by lia. do 2 f_equal. lia. }
    apply wp_bind. assert (Lb : blen (sub data fo chunk) = chunk) by (apply blen_sub; lia).
    eapply (store_spec partOff R X t dv w w1 h m a n); [exact Hr1|done|done|done|done|lia|].
    intros w2 dv2 Hr2 Hle2 Hn2 Hheld Hread. rewrite Lb in *.
    apply wp_bind, wp_gets. apply wp_bind.
    rewrite Hn1, Hn in Hmap.
    assert (Hsb : tx_sb w2 = tx_sb w0) by (rewrite Hn2; exact Hn). rewrite Hsb.
    destruct (mapped_addr partOff (tx_sb w0) Hflat a) as (_&Hlog&_); [apply Hmap; lia|]. rewrite Hlog.
    assert (Hnk : m !! Key ino typeExtentData fo = None).
    { destruct (m !! _) as [x|] eqn:Ex; [|done]. exfalso.
      destruct (chunks_keys _ _ _ _ _ _ _ (Key ino typeExtentData fo, x) Hc) as (off&[= <-]&Ho); [by apply Hp|lia]. }
    eapply (fs_insert_spec partOff R X t dv2 w2 h m); [done|done|key_tac|done| |apply encodeExtentData_nonempty| |].
    + intros _. apply covered_off; [apply Hadd|done].
    + intros w3 h3 _ Hr3 Hn3.
      eapply (IH w3 h3 _ dv2 _ _ (l ++ [(Key ino typeExtentData fo, encodeExtentData a n 0 chunk gen)]));
        [exact Hr3|by etrans|by etrans; [|etrans]|apply adds_extents_insert; [done|done|apply encodeExtentData_item_ok]| | |lia|lia|lia|by destruct l|done].
      * apply prefix_of_snoc; try done. apply Forall_forall. intros r Hr'.
        destruct (chunks_keys _ _ _ _ _ _ _ r Hc Hr') as (off&->&Ho). unfold key_lt, key_num. cbn [objID typ offset]. lia.
      * eapply chunks_snoc; [by eapply chunks_dv_le|]. split_and!; [done|lia|].
        exists a, n, gen. cbn [snd]. replace (fo + chunk - fo) with chunk by lia.
        split_and!; [done|lia|apply Hmap; lia|done|done].
    + intros e w3 Hr3 Hn3. apply HE. exists dv2, h, m. split_and!; [done|by etrans|by etrans; [|etrans]|done].
Qed.

Lemma writeExtents_spec w h (E : error -> W -> Prop) :
  repr t dv0 w h m0 -> next w0 w ->
  (forall e w', partly w' -> E e w') ->
  wp X (writeExtents partOff ino data gen) w (fun _ w' => written w') E.
Proof using All.
  intros Hr Hn HE. pose proof (blen_nonneg data) as Hb0. unfold writeExtents.
  destruct (blen data =? 0) eqn:Hz; bool_prop; [|destruct (blen data <=? maxInlineSize); [|destruct (isAllZero data) eqn:Haz]].
  - assert (data = []) as Hnil by (destruct data; [done|unfold blen in Hz; cbn in Hz; lia]).
    apply (insert_single_spec dv0 w h); [done|done|done| |apply encodeExtentDataInline_item_ok|rewrite Hnil; by apply content_inline|done].
    intros E0. apply (f_equal blen) in E0. destruct (encodeExtentDataInline_fields [] gen) as (L&_).
    rewrite L in E0. done.
  - apply (insert_single_spec dv0 w h); [done|done|done| |apply encodeExtentDataInline_item_ok|by apply content_inline|done].
    intros E0. apply (f_equal blen) in E0. destruct (encodeExtentDataInline_fields data gen) as (L&_).
    rewrite L, blen_nil in E0. ext_offs. lia.
  - apply (insert_single_spec dv0 w h); [done|done|done|apply encodeExtentData_nonempty|apply encodeExtentData_item_ok|apply content_hole; [done|lia|done]|done].
  - pose proof (repr_flat _ _ _ _ _ _ _ Hr) as Hflat; rewrite Hn in Hflat. apply wp_bind, wp_try.
    eapply (alloc_data_spec partOff R never t dv0 w h m0); [done|rewrite Hn; lia|lia|rewrite Hn; lia| |].
    + intros a n w1 Hbn dv1 Hr1 Hle1 Hok1 Hnew1 Hn1. pose proof Hok1 as (Ha&Hn0&Hmap&_).
      apply wp_bind. eapply (store_spec partOff R X t dv0 w w1 h m0 a n); [exact Hr1|done|done|done|done|lia|].
      intros w2 dv2 Hr2 Hle2 Hn2 Hheld Hread. apply wp_bind, wp_gets. rewrite Hn1, Hn in Hmap.
      assert (Hsb : tx_sb w2 = tx_sb w0) by (rewrite Hn2; exact Hn). rewrite Hsb.
      destruct (mapped_addr partOff (tx_sb w0) Hflat a) as (_&Hlog&_); [apply Hmap; lia|]. rewrite Hlog.
      apply (insert_single_spec dv2 w2 h); [done|done|by etrans|apply encodeExtentData_nonempty|apply encodeExtentData_item_ok| |done].
      apply (content_chunks _ _ _ Hflat ino); [done|]. exists (blen data). split; [|done].
      split_and!; [done|lia|]. exists a, n, gen. cbn [snd]. rewrite Z.sub_0_r.
      split_and!; [done|lia|apply Hmap; lia|done|by rewrite sub_all].
    + intros e. eapply (write_chunks_spec _ w h m0 dv0 0 (blen data) []);
        first [done|apply adds_extents_refl|by apply prefix_of_nil|lia|unfold blen; lia].
Qed.
End WriteExtents.
