(* ===== verification/Trim.v ===== *)
(** * Cut and grown extent items (truncate.go, read.go)

    What [Truncate] leaves of an extent item, and what is read from the items that are
    left: a file of uncompressed extents reads as the first part of its content when it is
    cut, and as its content followed by zeros when it has grown. *)
From Stdlib Require Import ZArith Lia Strings.Byte.
From stdpp Require Import base option list numbers sorting gmap.
From S2P Require Import Prelude Bytes Alloc Layout SafeIO Chunk Node BTree Walk Split Crc32c Cow Store CowCorrect.
From S2P Require Import Codec Read FileRead Tx Extent Ops FsTree FsLookup Rebuild FsData.
Local Open Scope Z_scope.
Local Open Scope btrfs_scope.

(** ** What is left of one item *)
Definition trim_of (n : Z) (r : rec) : trim :=
  match trim_extent n (offset r.1) r.2 with Ok t => t | _ => TrimKeep end.
Definition trim_item (n : Z) (r : rec) : option rec :=
  match trim_of n r with TrimKeep => Some r | TrimDrop => None | TrimTo d => Some (r.1, d) end.
Definition trim_items (n : Z) (l : list rec) : list rec := omap (trim_item n) l.

Lemma sub_join b n m : 0 <= n -> 0 <= m -> sub b 0 n ++ sub b n m = sub b 0 (n + m).
Proof.
  intros. unfold sub. rewrite (Z2Nat.inj_add n m) by lia. change (Z.to_nat 0) with 0%nat. rewrite drop_0. apply take_take_drop.
Qed.

Lemma cut_bound off span n : 0 <= off < n -> n < 2 ^ 64 -> 0 <= span < 2 ^ 64 -> n < off +₆₄ span -> n - off < span.
Proof.
  intros. destruct (Z_lt_le_dec (off + span) (2 ^ 64)); [|lia]. rewrite u64_small in * by (unfold is_u64; lia). lia.
Qed.

(** The cut of an item, case by case; it never fails. *)
Lemma trim_extent_eq n off d : is_u64 off -> is_u64 n -> blen d < 2 ^ 63 ->
  trim_extent n off d = Ok (
    if blen d <=? extDataOffType then TrimKeep else
    if rd 1 d extDataOffType =? extentDataInline then
      if off +₆₄ (blen d - extDataHdrSize) <=? n then TrimKeep else if n <=? off then TrimDrop
      else TrimTo (wr 8 (sub d 0 (extDataHdrSize + (n - off))) extDataOffRamBytes (n - off))
    else if blen d <? extDataRegularSize then TrimKeep else
      if off +₆₄ rd 8 d extDataOffNumBytes <=? n then TrimKeep else if n <=? off then TrimDrop
      else TrimTo (wr 8 (wr 8 d extDataOffRamBytes (n - off)) extDataOffNumBytes (n - off))).
Proof.
  unfold is_u64. intros Ho Hn Hd. unfold trim_extent. case_if; [done|]. rewrite (get_le_Ok 1) by (ext_offs; lia).
  cbn [mbind outcome_bind]. destruct (rd 1 d extDataOffType =? extentDataInline).
  - cbn [negb andb mbind outcome_bind]. rewrite (u64_small (blen d - _)) by (unfold is_u64; ext_offs; lia).
    case_if; [done|]. case_if; [done|].
    pose proof (cut_bound off (blen d - extDataHdrSize) n ltac:(lia) ltac:(lia) ltac:(ext_offs; lia) ltac:(lia)).
    rewrite !slice_Ok by (ext_offs; lia). cbn [mbind outcome_bind]. rewrite !Z.sub_0_r.
    replace (extDataHdrSize + (n - off) - extDataHdrSize) with (n - off) by lia. rewrite sub_join by (ext_offs; lia).
    rewrite put_le_Ok; [done|ext_offs; lia|]. rewrite blen_sub by (ext_offs; lia). ext_offs. lia.
  - cbn [negb andb]. case_if; [done|]. rewrite (get_le_Ok 8) by (ext_offs; lia). cbn [mbind outcome_bind].
    case_if; [done|]. case_if; [done|]. rewrite put_le_Ok by (ext_offs; lia). cbn [mbind outcome_bind].
    rewrite put_le_Ok; [done|ext_offs; lia|]. rewrite blen_wr by (ext_offs; lia). ext_offs. lia.
Qed.
Lemma trim_extent_ok n r : is_u64 (offset r.1) -> is_u64 n -> blen r.2 < 2 ^ 63 -> trim_extent n (offset r.1) r.2 = Ok (trim_of n r).
Proof. intros. unfold trim_of. by rewrite trim_extent_eq. Qed.
Lemma trim_item_key n r r' : trim_item n r = Some r' -> r'.1 = r.1.
Proof. unfold trim_item. by destruct (trim_of n r); intros [= <-]. Qed.

(** ** Reading what is left *)

(** A splice, seen through the first [n] bytes. *)
Lemma sub_splice_cut out fo src n : 0 <= fo < n -> n <= blen out -> fo + blen src <= blen out ->
  sub (splice out fo src) 0 n = splice (sub out 0 n) fo (sub src 0 (Z.min (blen src) (n - fo))).
Proof.
  intros. pose proof (blen_nonneg src). rewrite <- place_window by lia. unfold place. rewrite blen_sub by lia.
  rewrite !Z.max_l by lia. do 2 f_equal; lia.
Qed.

Lemma u64_no_wrap a b : is_u64 a -> is_u64 b -> a <= a +₆₄ b -> a +₆₄ b = a + b.
Proof.
  unfold is_u64. intros Ha Hb Hw. destruct (Z_lt_le_dec (a + b) (2 ^ 64)); [by apply u64_small; unfold is_u64; lia|].
  unfold u64 in Hw. rewrite <- (Z.mod_unique (a + b) (2 ^ 64) 1 (a + b - 2 ^ 64)) in Hw by lia. lia.
Qed.

Section TrimRead.
Context `{HL : SafeIOLaws} `{HD : DecodersLaws} (partOff : Z) (sb : superblock) (dv : dataView).
Context (Hflat : flat_map partOff sb).

(** Known data is known in part. *)
Definition dv_prefix : Prop :=
  forall a n k b, 0 < k <= n -> (forall p, a <= p < a + n -> dv_held dv p) -> dv_read dv a n = Ok b -> dv_read dv a k = Ok (sub b 0 k).

(** An item of a file of [S] bytes that is not compressed and whose data is known. *)
Definition plain_item (S : Z) (r : rec) : Prop :=
  let d := r.2 in let addr := data_addr d in let n := Z.min (rd 8 d extDataOffNumBytes) (S - offset r.1) in
  offset r.1 < S -> extDataOffType < blen d ->
  (rd 1 d extDataOffType = extentDataInline -> rd 1 d extDataOffCompression = compressionNone) /\
  (rd 1 d extDataOffType = extentDataRegular -> extDataRegularSize <= blen d ->
   0 < rd 8 d extDataOffNumBytes /\
   (rd 8 d extDataOffDiskBytenr <> 0 ->
    rd 1 d extDataOffCompression = compressionNone /\ Store.mapped sb addr /\ (forall p, addr <= p < addr + n -> dv_held dv p) /\
    exists b, dv_read dv addr n = Ok b /\ blen b = n)).

Context (Hpre : dv_prefix) (RA : Z -> Z -> outcome bytes) (dev dev' : Z) (Hra : reads_data partOff dv RA).

(** Shrinking the bytes of an uncompressed inline item. *)
Lemma inline_src_plain d rem : extDataHdrSize <= blen d -> 0 <= rem -> rd 1 d extDataOffCompression = compressionNone ->
  inline_src d rem = Ok (sub d extDataHdrSize (Z.min (blen d - extDataHdrSize) rem)).
Proof using.
  intros Hd Hr E. unfold inline_src. rewrite E. unfold decompressExtent. change (compressionNone =? compressionNone) with true. cbv iota.
  cbn [mbind outcome_bind]. f_equal. rewrite blen_sub by (ext_offs; lia). rewrite sub_sub by (ext_offs; lia). done.
Qed.

(** The fields of a cut inline item. *)
Lemma cut_inline d k : extDataHdrSize < blen d -> 0 <= k < blen d - extDataHdrSize -> let d' := wr 8 (sub d 0 (extDataHdrSize + k)) extDataOffRamBytes k in
  blen d' = extDataHdrSize + k /\ rd 1 d' extDataOffType = rd 1 d extDataOffType /\
  rd 1 d' extDataOffCompression = rd 1 d extDataOffCompression /\ sub d' extDataHdrSize k = sub d extDataHdrSize k.
Proof using.
  intros Hd Hk d'. assert (Ls : blen (sub d 0 (extDataHdrSize + k)) = extDataHdrSize + k) by (apply blen_sub; ext_offs; lia).
  unfold d'. split_and!.
  - by rewrite blen_wr by (rewrite ?Ls; ext_offs; lia).
  - rewrite rd_wr_out by (rewrite ?Ls; ext_offs; lia). by rewrite rd_sub by (ext_offs; lia).
  - rewrite rd_wr_out by (rewrite ?Ls; ext_offs; lia). by rewrite rd_sub by (ext_offs; lia).
  - rewrite sub_wr_out by (rewrite ?Ls; ext_offs; lia). rewrite sub_sub by (ext_offs; lia). done.
Qed.
(** The fields of a cut regular item. *)
Lemma cut_regular d k : extDataRegularSize <= blen d -> is_u64 k -> let d' := wr 8 (wr 8 d extDataOffRamBytes k) extDataOffNumBytes k in
  blen d' = blen d /\ rd 1 d' extDataOffType = rd 1 d extDataOffType /\ rd 1 d' extDataOffCompression = rd 1 d extDataOffCompression /\
  rd 8 d' extDataOffNumBytes = k /\ rd 8 d' extDataOffDiskBytenr = rd 8 d extDataOffDiskBytenr /\
  rd 8 d' extDataOffDiskNumBytes = rd 8 d extDataOffDiskNumBytes /\ data_addr d' = data_addr d.
Proof using.
  intros Hd Hk d'. assert (L1 : blen (wr 8 d extDataOffRamBytes k) = blen d) by (apply blen_wr; ext_offs; lia).
  assert (Hout : forall n off, 0 <= off -> off + Z.of_nat n <= extDataOffRamBytes \/ extDataOffRamBytes + 8 <= off ->
    off + Z.of_nat n <= extDataOffNumBytes -> rd n d' off = rd n d off).
  { intros n off H1 H2 H3. unfold d'. ext_offs. rewrite rd_wr_out by (rewrite ?L1; lia). by rewrite rd_wr_out by lia. }
  split_and!; try (apply Hout; ext_offs; lia).
  - unfold d'. by rewrite blen_wr by (rewrite ?L1; ext_offs; lia).
  - unfold d'. rewrite rd_wr_same by (rewrite ?L1; ext_offs; lia). apply Z.mod_small. exact Hk.
  - unfold data_addr. by rewrite !Hout by (ext_offs; lia).
Qed.

(** One step: the old item fills the old buffer, what is left of it fills the first part. *)
Definition step_cut (n S : Z) (k : key) (d out out' : bytes) (pe pe' pc : Z) : Prop :=
  exists pc', read_items RA dev' partOff sb n (trim_items n [(k, d)]) (sub out 0 n, pc) = Ok (sub out' 0 n, pc') /\ pc' <= pe' /\ blen out' = S.

Lemma read_cut_inline n S k d out pe pc :
  key_ok k -> blen d < 2 ^ 32 -> blen out = S -> 0 <= n < S -> S < 2 ^ 63 -> pc <= pe -> offset k < S -> extDataOffType < blen d ->
  rd 1 d extDataOffType = extentDataInline -> rd 1 d extDataOffCompression = compressionNone ->
  exists src, inline_src d (S - offset k) = Ok src /\ step_cut n S k d out (splice out (offset k) src) pe pe pc.
Proof using HL.
  intros Hk Hd Lo Hn HS Hpc Ho Ht E1 E2. pose proof Hk as (_&_&Hoff).
  eexists. split; [apply inline_src_plain; ext_offs; lia || done|]. set (src := sub d _ _).
  assert (Ls : blen src = Z.min (blen d - extDataHdrSize) (S - offset k)) by (unfold src; rewrite blen_sub; ext_offs; lia).
  assert (Lo' : blen (splice out (offset k) src) = S) by (rewrite blen_splice; ext_offs; lia).
  assert (Lc : blen (sub out 0 n) = n) by (apply blen_sub; lia).
  unfold step_cut, trim_items. cbn [omap list_omap]. unfold trim_item, trim_of. cbn [fst snd]. rewrite trim_extent_eq by (unfold is_u64; lia).
  rewrite (proj2 (Z.leb_gt _ _) Ht), E1, Z.eqb_refl, u64_small by (unfold is_u64; ext_offs; lia).
  destruct (Z.leb_spec (offset k + (blen d - extDataHdrSize)) n), (Z.leb_spec n (offset k)); cbn [read_items];
    try (rewrite read_item_eq by (done || lia); cbn zeta).
  - rewrite (proj2 (Z.leb_le n _)) by lia. cbn [mbind outcome_bind]. exists pc. split_and!; [|done..].
    rewrite sub_splice_out by (ext_offs; lia). done.
  - rewrite (proj2 (Z.leb_gt n _)), (proj2 (Z.leb_gt _ _) Ht), E1, Z.eqb_refl by lia.
    rewrite inline_src_plain by (ext_offs; lia || done). cbn [mbind outcome_bind]. exists pc. split_and!; [|done..].
    rewrite sub_splice_cut by (ext_offs; lia). do 3 f_equal. rewrite Ls. unfold src. rewrite sub_sub by (ext_offs; lia). f_equal; ext_offs; lia.
  - exists pc. split_and!; [|done..]. rewrite sub_splice_out by (ext_offs; lia). done.
  - destruct (cut_inline d (n - offset k)) as (F1&F2&F3&F4); [ext_offs; lia..|].
    rewrite (proj2 (Z.leb_gt n _)), F1, F2, (proj2 (Z.leb_gt _ _)), E1, Z.eqb_refl by (ext_offs; lia).
    rewrite inline_src_plain by (rewrite ?F1, ?F3; ext_offs; lia || done). cbn [mbind outcome_bind]. exists pc. split_and!; [|done..].
    rewrite F1. replace (Z.min _ _) with (n - offset k) by lia. rewrite F4.
    rewrite sub_splice_cut by (ext_offs; lia). do 3 f_equal. rewrite Ls. unfold src. rewrite sub_sub by (ext_offs; lia). f_equal; ext_offs; lia.
Qed.

(** Reading an uncompressed regular item. *)
Lemma read_regular dv0 n k d out pc :
  key_ok k -> blen out = n -> n < 2 ^ 63 -> offset k < n -> extDataRegularSize <= blen d -> rd 1 d extDataOffType = extentDataRegular ->
  0 < rd 8 d extDataOffNumBytes -> (rd 8 d extDataOffDiskBytenr <> 0 -> rd 1 d extDataOffCompression = compressionNone /\ Store.mapped sb (data_addr d)) ->
  read_item RA dv0 partOff sb n (k, d) (out, pc) =
  if (offset k +₆₄ rd 8 d extDataOffNumBytes <? offset k) || (offset k <? pc) then Err ErrOutOfBounds else
  if rd 8 d extDataOffDiskBytenr =? 0 then Ok (out, offset k + rd 8 d extDataOffNumBytes) else
  src ← RA (partOff + data_addr d) (Z.min (rd 8 d extDataOffNumBytes) (n - offset k));
  Ok (splice out (offset k) src, offset k + rd 8 d extDataOffNumBytes).
Proof using HL Hflat.
  intros Hk Lo Hn Ho Hd E1 Hnum Hplain. pose proof Hk as (_&_&Hoff). pose proof (blen_nonneg out).
  rewrite read_item_eq by (done || lia). cbn zeta.
  rewrite (proj2 (Z.leb_gt n _)), (proj2 (Z.leb_gt (blen d) _)), E1, (proj2 (Z.ltb_ge (blen d) _)) by (ext_offs; lia).
  change (extentDataRegular =? extentDataInline) with false. change (extentDataRegular =? extentDataRegular) with true. cbv iota.
  destruct (Z.ltb_spec (offset k +₆₄ rd 8 d extDataOffNumBytes) (offset k)) as [|Hw]; [done|].
  pose proof (u64_no_wrap _ _ Hoff (rd64_u64 d extDataOffNumBytes) Hw) as Hfin.
  rewrite Hfin. cbn [orb]. destruct (offset k <? pc); [done|]. destruct (Z.eqb_spec (rd 8 d extDataOffDiskBytenr) 0) as [|Hz]; [done|].
  destruct (Hplain Hz) as [E2 Hmap]. rewrite E2. change (compressionNone =? compressionNone) with true. cbv iota.
  destruct (mapped_addr partOff sb Hflat _ Hmap) as (_&_&_&_&Hphys). rewrite Hphys. done.
Qed.

Lemma read_cut_regular n S k d out pe pc out' pe' :
  key_ok k -> blen d < 2 ^ 32 -> plain_item S (k, d) -> blen out = S -> 0 <= n < S -> S < 2 ^ 63 -> pc <= pe -> offset k < S -> extDataRegularSize <= blen d ->
  rd 1 d extDataOffType = extentDataRegular -> read_item RA dev partOff sb S (k, d) (out, pe) = Ok (out', pe') ->
  step_cut n S k d out out' pe pe' pc.
Proof using All.
  intros Hk Hd Hplain Lo Hn HS Hpc Ho Hlen E1 Hread. pose proof Hk as (_&_&Hoff). unfold plain_item in Hplain. cbn [fst snd] in *.
  destruct (proj2 (Hplain Ho ltac:(ext_offs; lia)) E1 Hlen) as [Hnum Hreg]. clear Hplain.
  assert (Lc : blen (sub out 0 n) = n) by (apply blen_sub; lia). pose proof (rd64_u64 d extDataOffNumBytes) as Hu.
  rewrite read_regular in Hread; [|done|done|done|done|done|done|done|intros Hz; split; by apply Hreg].
  destruct (Z.ltb_spec (offset k +₆₄ rd 8 d extDataOffNumBytes) (offset k)) as [|Hw]; [done|].
  destruct (Z.ltb_spec (offset k) pe); [done|]. cbn [orb] in Hread.
  pose proof (u64_no_wrap _ _ Hoff Hu Hw) as Hfin. unfold is_u64 in Hu. set (num := rd 8 d extDataOffNumBytes) in *.
  assert (Hout : pe' = offset k + num /\ blen out' = S /\ (n <= offset k -> sub out' 0 n = sub out 0 n) /\
    forall q, 0 < q <= num -> q = num \/ offset k + q = n -> offset k + q <= n ->
      (rd 8 d extDataOffDiskBytenr = 0 /\ sub out' 0 n = sub out 0 n \/
       rd 8 d extDataOffDiskBytenr <> 0 /\ exists b, RA (partOff + data_addr d) q = Ok b /\ sub out' 0 n = splice (sub out 0 n) (offset k) b)).
  { destruct (Z.eqb_spec (rd 8 d extDataOffDiskBytenr) 0) as [Hz|Hz].
    { injection Hread as <- <-. split_and!; [done|done|done|]. intros q _ _. by left. }
    destruct (Hreg Hz) as (E2&Hmap&Hheld&b&Eb&Lb). rewrite Hra in Hread by (done || lia). rewrite Eb in Hread. cbn [mbind outcome_bind] in Hread.
    injection Hread as <- <-. split_and!; [done|by rewrite blen_splice; lia|intros; rewrite sub_splice_out by lia; done|].
    intros q Hq Hcase Hqn. right. split; [done|]. exists (sub b 0 q).
    assert (Hrd : RA (partOff + data_addr d) q = dv_read dv (data_addr d) q) by (apply Hra; [lia|]; intros p Hp; apply Hheld; lia).
    rewrite Hrd. split; [eapply Hpre; [|exact Hheld|done]; lia|]. rewrite sub_splice_cut by lia. do 2 f_equal. lia. }
  destruct Hout as (->&Lo'&Hfar&Hnear).
  assert (Hpiece : forall d1, blen d1 = blen d -> rd 1 d1 extDataOffType = rd 1 d extDataOffType ->
    rd 1 d1 extDataOffCompression = rd 1 d extDataOffCompression -> rd 8 d1 extDataOffDiskBytenr = rd 8 d extDataOffDiskBytenr ->
    data_addr d1 = data_addr d -> let q := rd 8 d1 extDataOffNumBytes in 0 < q <= num -> q = num \/ offset k + q = n -> offset k + q <= n ->
    read_item RA dev' partOff sb n (k, d1) (sub out 0 n, pc) = Ok (sub out' 0 n, offset k + q)).
  { intros d1 F1 F2 F3 F4 F5 q Hq Hcase Hqn.
    rewrite read_regular; [|done|done|lia|lia|lia|congruence|lia|rewrite F3, F4, F5; intros Hz; split; by apply Hreg].
    fold q. rewrite u64_small by (unfold is_u64; lia). rewrite (proj2 (Z.ltb_ge (_ + q) _)), (proj2 (Z.ltb_ge _ pc)) by lia. cbn [orb].
    rewrite F4, F5, Z.min_l by lia. destruct (Hnear q Hq Hcase Hqn) as [[-> ->]|(Hz&b&-> & ->)]; [done|].
    by rewrite (proj2 (Z.eqb_neq _ _) Hz). }
  unfold step_cut, trim_items. cbn [omap list_omap]. unfold trim_item, trim_of. cbn [fst snd]. rewrite trim_extent_eq by (unfold is_u64; lia).
  rewrite E1, (proj2 (Z.leb_gt (blen d) _)), (proj2 (Z.ltb_ge (blen d) _)) by (ext_offs; lia).
  change (extentDataRegular =? extentDataInline) with false. cbv iota. fold num. rewrite Hfin.
  destruct (Z.leb_spec (offset k + num) n); [|destruct (Z.leb_spec n (offset k))]; cbn [read_items].
  - rewrite Hpiece; [cbn [mbind outcome_bind]|try done; fold num; try lia; by left..]. eexists. split_and!; [done|fold num; lia|done].
  - exists pc. split_and!; [by rewrite Hfar|lia|done].
  - destruct (cut_regular d (n - offset k)) as (F1&F2&F3&F4&F5&_&F7); [done|unfold is_u64; lia|].
    rewrite Hpiece; [cbn [mbind outcome_bind]|done..| | |]; rewrite ?F4; try lia. exists n. split_and!; [do 3 f_equal; lia|lia|done].
Qed.

(** An item that reads nothing at the new size. *)
Lemma step_cut_idle n S k d out pe pc : blen out = S -> pc <= pe ->
  (forall r, trim_item n (k, d) = Some r -> read_item RA dev' partOff sb n r (sub out 0 n, pc) = Ok (sub out 0 n, pc)) ->
  step_cut n S k d out out pe pe pc.
Proof using.
  intros Lo Hpc Hidle. exists pc. split_and!; [|done..]. unfold trim_items. cbn [omap list_omap].
  destruct (trim_item n (k, d)); cbn [read_items]; [by rewrite Hidle|done].
Qed.

Lemma read_cut_item n S k d out pe pc out' pe' :
  key_ok k -> blen d < 2 ^ 32 -> plain_item S (k, d) -> blen out = S -> 0 <= n < S -> S < 2 ^ 63 -> pc <= pe ->
  read_item RA dev partOff sb S (k, d) (out, pe) = Ok (out', pe') -> step_cut n S k d out out' pe pe' pc.
Proof using All.
  intros Hk Hd Hp Lo Hn HS Hpc Hread. pose proof Hk as (_&_&Hoff). pose proof Hp as Hplain. unfold plain_item in Hplain. cbn [fst snd] in *.
  assert (Lc : blen (sub out 0 n) = n) by (apply blen_sub; lia). pose proof Hread as Hread0.
  rewrite read_item_eq in Hread by (done || lia). cbn zeta in Hread.
  assert (Hcut : forall r, trim_item n (k, d) = Some r -> r = (k, d) \/ offset k < n /\ exists d', r = (k, d') /\ extDataOffType < blen d /\
    (rd 1 d extDataOffType = extentDataInline \/ extDataRegularSize <= blen d /\ rd 1 d' extDataOffType = rd 1 d extDataOffType /\ blen d' = blen d)).
  { intros r. unfold trim_item, trim_of. cbn [fst snd]. rewrite trim_extent_eq by (unfold is_u64; lia). repeat case_if; intros Hr; try discriminate Hr; injection Hr as <-; try by left.
    - right. split; [lia|]. eexists. split_and!; [done|lia|left; lia].
    - right. split; [lia|]. eexists. split_and!; [done|lia|right].
      destruct (cut_regular d (n - offset k)) as (F1&F2&_); [lia|unfold is_u64; lia|done]. }
  destruct (Z.leb_spec S (offset k)).
  { injection Hread as <- <-. apply step_cut_idle; [done..|]. intros r Hr. destruct (Hcut r Hr) as [->|[? _]]; [|lia].
    rewrite read_item_eq by (done || lia). cbn zeta. by rewrite (proj2 (Z.leb_le n _)) by lia. }
  destruct (Z.leb_spec (blen d) extDataOffType).
  { injection Hread as <- <-. apply step_cut_idle; [done..|]. intros r Hr. destruct (Hcut r Hr) as [->|(_&d'&_&?&_)]; [|lia].
    rewrite read_item_eq by (done || lia). cbn zeta. rewrite (proj2 (Z.leb_le (blen d) _)) by lia. by destruct (n <=? offset k). }
  destruct (Z.eqb_spec (rd 1 d extDataOffType) extentDataInline) as [Ei|Ei].
  { destruct (read_cut_inline n S k d out pe pc) as (src&Es&Hs); [done|lia|done|lia|lia|lia|lia|lia|done|exact (proj1 (Hplain ltac:(lia) ltac:(lia)) Ei)|].
    rewrite Es in Hread. cbn [mbind outcome_bind] in Hread. by injection Hread as <- <-. }
  destruct (Z.eqb_spec (rd 1 d extDataOffType) extentDataRegular) as [Er|Er]; [destruct (Z.ltb_spec (blen d) extDataRegularSize)|].
  - injection Hread as <- <-. apply step_cut_idle; [done..|]. intros r Hr. destruct (Hcut r Hr) as [->|(_&d'&_&_&[?|?])]; [|lia..].
    rewrite read_item_eq by (done || lia). cbn zeta. rewrite Er, (proj2 (Z.ltb_lt (blen d) extDataRegularSize)) by lia. by repeat case_if.
  - by eapply read_cut_regular.
  - injection Hread as <- <-. apply step_cut_idle; [done..|].
    assert (Hno : forall d', rd 1 d' extDataOffType = rd 1 d extDataOffType -> read_item RA dev' partOff sb n (k, d') (sub out 0 n, pc) = Ok (sub out 0 n, pc)).
    { intros d' E. rewrite read_item_eq by (done || lia). cbn zeta. rewrite E, (proj2 (Z.eqb_neq _ _) Ei), (proj2 (Z.eqb_neq _ _) Er).
      by repeat case_if. }
    intros r Hr. destruct (Hcut r Hr) as [->|(_&d'&->&_&[?|(_&E&_)])]; [by apply Hno|done|by apply Hno].
Qed.

Lemma read_items_app size l1 : forall l2 acc,
  read_items RA dev' partOff sb size (l1 ++ l2) acc =
  (acc ← read_items RA dev' partOff sb size l1 acc; read_items RA dev' partOff sb size l2 acc).
Proof using.
  induction l1 as [|r l1 IH]; intros l2 acc; cbn [read_items app]; [done|].
  destruct (read_item _ _ _ _ _ r acc); cbn [mbind outcome_bind]; [apply IH|done..].
Qed.

Lemma read_cut_items n S l : forall out pe pc r,
  Forall (fun r => key_ok r.1 /\ blen r.2 < 2 ^ 32 /\ plain_item S r) l -> blen out = S -> 0 <= n < S -> S < 2 ^ 63 -> pc <= pe ->
  read_items RA dev partOff sb S l (out, pe) = Ok r ->
  exists pc', read_items RA dev' partOff sb n (trim_items n l) (sub out 0 n, pc) = Ok (sub r.1 0 n, pc').
Proof using All.
  induction l as [|[k d] l IH]; intros out pe pc r Hl Lo Hn HS Hpc; cbn [read_items].
  { intros [= <-]. by exists pc. }
  apply Forall_cons in Hl as [(Hk&Hd&Hp) Hl]. cbn [fst snd] in Hk, Hd. intros Hr.
  destruct (read_item RA dev partOff sb S (k, d) (out, pe)) as [[out' pe']| | |] eqn:E; try done. cbn [mbind outcome_bind] in Hr.
  destruct (read_cut_item n S k d out pe pc out' pe') as (pc1&E1&Hpc1&Lo'); try done.
  destruct (IH out' pe' pc1 r Hl Lo' Hn HS Hpc1 Hr) as [pc2 E2]. exists pc2.
  replace (trim_items n ((k, d) :: l)) with (trim_items n [(k, d)] ++ trim_items n l)
    by (unfold trim_items; cbn [omap list_omap]; by destruct (trim_item n (k, d))).
  rewrite read_items_app, E1. done.
Qed.
(** The same items under a larger size: an item that has nothing but zeros behind the old
    size.  An inline item ends within it; a regular extent does, or is a hole, or stores
    zeros from there on, as the tail of a last block does. *)
Definition zero_tail (S off addr num : Z) : Prop :=
  (forall p, addr <= p < addr + num -> dv_held dv p) /\
  exists b, blen b = num /\ (forall k, S - off <= k <= num -> dv_read dv addr k = Ok (sub b 0 k)) /\
    sub b (S - off) (num - (S - off)) = zeros (num - (S - off)).
Definition tight_item (S : Z) (r : rec) : Prop :=
  let d := r.2 in let num := rd 8 d extDataOffNumBytes in plain_item S r /\ offset r.1 < S /\
  (extDataOffType < blen d -> rd 1 d extDataOffType = extentDataInline -> offset r.1 + (blen d - extDataHdrSize) <= S) /\
  (extDataRegularSize <= blen d -> rd 1 d extDataOffType = extentDataRegular -> S < offset r.1 + num ->
   rd 8 d extDataOffDiskBytenr <> 0 -> zero_tail S (offset r.1) (data_addr d) num).

Lemma splice_app out z off src : 0 <= off -> off + blen src <= blen out -> splice (out ++ z) off src = splice out off src ++ z.
Proof using.
  intros. unfold splice, blen in *. pose proof (Zle_0_nat (length src)). rewrite take_app_le, drop_app_le by lia. by rewrite !app_assoc.
Qed.

(** A splice up to the end, continued with zeros. *)
Lemma splice_zeros out z k off src : 0 <= off -> off + blen src = blen out -> 0 <= k <= z ->
  splice (out ++ zeros z) off (src ++ zeros k) = splice out off src ++ zeros z.
Proof using.
  intros Ho Hl Hk. unfold splice, blen in *. rewrite take_app_le by lia. rewrite (drop_ge out) by lia. rewrite app_nil_r, <- !app_assoc. do 2 f_equal.
  rewrite length_app, (drop_app_ge out) by lia. unfold zeros. rewrite length_replicate, drop_replicate, <- replicate_add. f_equal. lia.
Qed.

Lemma read_grown_item S z k d out pe out' pe' :
  key_ok k -> blen d < 2 ^ 32 -> tight_item S (k, d) -> blen out = S -> 0 <= z -> S + z < 2 ^ 63 ->
  read_item RA dev partOff sb S (k, d) (out, pe) = Ok (out', pe') ->
  read_item RA dev' partOff sb (S + z) (k, d) (out ++ zeros z, pe) = Ok (out' ++ zeros z, pe') /\ blen out' = S.
Proof using HL Hflat Hra.
  intros Hk Hd (Hplain&Ho&Hti&Htr) Lo Hz HS Hread. pose proof Hk as (_&_&Hoff). unfold plain_item in Hplain. cbn [fst snd] in *.
  assert (Lz : blen (out ++ zeros z) = S + z) by (rewrite blen_app, blen_zeros; lia). pose proof (blen_nonneg out).
  pose proof Hread as Hread0. rewrite read_item_eq in Hread by (done || lia). cbn zeta in Hread. rewrite (proj2 (Z.leb_gt S _)) in Hread by lia.
  destruct (Z.leb_spec (blen d) extDataOffType) as [Hs|Hs].
  { injection Hread as <- <-. split; [|done]. rewrite read_item_eq by (done || lia). cbn zeta.
    by rewrite (proj2 (Z.leb_gt (S + z) _)), (proj2 (Z.leb_le (blen d) _)) by lia. }
  destruct (Hplain Ho Hs) as [Hpi Hpr].
  destruct (Z.eqb_spec (rd 1 d extDataOffType) extentDataInline) as [Ei|Ei].
  { specialize (Hti Hs Ei). rewrite inline_src_plain in Hread by (ext_offs; lia || auto). cbn [mbind outcome_bind] in Hread.
    injection Hread as <- <-. rewrite Z.min_l by lia. set (src := sub d _ _). assert (Ls : blen src = blen d - extDataHdrSize) by (apply blen_sub; ext_offs; lia).
    split; [|rewrite blen_splice; ext_offs; lia]. rewrite read_item_eq by (done || lia). cbn zeta.
    rewrite (proj2 (Z.leb_gt (S + z) _)), (proj2 (Z.leb_gt (blen d) _)), Ei, Z.eqb_refl by lia.
    rewrite inline_src_plain by (ext_offs; lia || auto). cbn [mbind outcome_bind]. rewrite Z.min_l by lia. fold src.
    by rewrite splice_app by (ext_offs; lia). }
  destruct (Z.eqb_spec (rd 1 d extDataOffType) extentDataRegular) as [Er|Er]; [destruct (Z.ltb_spec (blen d) extDataRegularSize) as [Hlen|Hlen]|].
  - injection Hread as <- <-. split; [|done]. rewrite read_item_eq by (done || lia). cbn zeta.
    rewrite (proj2 (Z.leb_gt (S + z) _)), Er, (proj2 (Z.ltb_lt (blen d) extDataRegularSize)) by lia. by case_if.
  - clear Hread. destruct (Hpr Er Hlen) as [Hnum Hreg]. specialize (Htr Hlen Er).
    assert (Hmap : rd 8 d extDataOffDiskBytenr <> 0 -> rd 1 d extDataOffCompression = compressionNone /\ Store.mapped sb (data_addr d))
      by (intros Hz'; split; by apply Hreg).
    rewrite read_regular in Hread0 |- * by (done || lia). destruct (_ || _) in Hread0 |- *; [done|].
    destruct (Z.eqb_spec (rd 8 d extDataOffDiskBytenr) 0) as [|Hnz]; [by injection Hread0 as <- <-|].
    destruct (Z_lt_le_dec S (offset k + rd 8 d extDataOffNumBytes)) as [Hover|Hin].
    { destruct (Htr Hover Hnz) as (Hheld&b&Lb&Eb&Hzt). set (num := rd 8 d extDataOffNumBytes) in *. set (n2 := Z.min num (S + z - offset k)).
      rewrite Z.min_r in Hread0 by lia. rewrite Hra, Eb in Hread0 by (lia || intros p Hp; apply Hheld; lia).
      rewrite Hra, Eb by (unfold n2; lia || intros p Hp; apply Hheld; unfold n2 in *; lia). cbn [mbind outcome_bind] in Hread0 |- *. injection Hread0 as <- <-.
      assert (L1 : blen (sub b 0 (S - offset k)) = S - offset k) by (apply blen_sub; lia).
      assert (Es : sub b 0 n2 = sub b 0 (S - offset k) ++ zeros (n2 - (S - offset k))).
      { replace n2 with (S - offset k + (n2 - (S - offset k))) at 1 by lia. rewrite <- sub_join by (unfold n2; lia). f_equal.
        replace (sub b (S - offset k) (n2 - (S - offset k))) with (sub (sub b (S - offset k) (num - (S - offset k))) 0 (n2 - (S - offset k)))
          by (rewrite sub_sub by (unfold n2; lia); f_equal; lia).
        rewrite Hzt. unfold sub, zeros. rewrite drop_0, take_replicate. f_equal. unfold n2. lia. }
      split; [|rewrite blen_splice; lia]. rewrite Es. do 2 f_equal. apply splice_zeros; [lia|lia|unfold n2; lia]. }
    destruct (Hreg Hnz) as (_&_&Hheld&b&Eb&Lb). rewrite Z.min_l in Hread0, Eb, Lb, Hheld by lia. rewrite Z.min_l by lia.
    rewrite Hra, Eb in Hread0 |- * by (done || lia). cbn [mbind outcome_bind] in Hread0 |- *. injection Hread0 as <- <-.
    split; [by rewrite splice_app by lia|rewrite blen_splice; lia].
  - injection Hread as <- <-. split; [|done]. rewrite read_item_eq by (done || lia). cbn zeta.
    rewrite (proj2 (Z.eqb_neq _ _) Ei), (proj2 (Z.eqb_neq _ _) Er). by repeat case_if.
Qed.

Lemma read_grown_items S z l : forall out pe r,
  Forall (fun r => key_ok r.1 /\ blen r.2 < 2 ^ 32 /\ tight_item S r) l -> blen out = S -> 0 <= z -> S + z < 2 ^ 63 ->
  read_items RA dev partOff sb S l (out, pe) = Ok r ->
  read_items RA dev' partOff sb (S + z) l (out ++ zeros z, pe) = Ok (r.1 ++ zeros z, r.2).
Proof using HL Hflat Hra.
  induction l as [|[k d] l IH]; intros out pe r Hl Lo Hz HS; cbn [read_items]; [by intros [= <-]|].
  apply Forall_cons in Hl as [(Hk&Hd&Hp) Hl]. intros Hr.
  destruct (read_item RA dev partOff sb S (k, d) (out, pe)) as [[out' pe']| | |] eqn:E; try done. cbn [mbind outcome_bind] in Hr.
  destruct (read_grown_item S z k d out pe out' pe') as [E' Lo']; try done. rewrite E'. cbn [mbind outcome_bind]. by apply IH.
Qed.
End TrimRead.

(** The items that are left hold the first part of the content. *)
Lemma content_cut `{HL : SafeIOLaws} partOff sb dv l data n :
  flat_map partOff sb -> dv_prefix dv -> Forall (fun r => key_ok r.1 /\ blen r.2 < 2 ^ 32 /\ plain_item sb dv (blen data) r) l -> 0 <= n < blen data -> blen data < 2 ^ 63 ->
  content partOff sb dv l data -> content partOff sb dv (trim_items n l) (sub data 0 n).
Proof.
  intros Hf Hpre Hl Hn Hmax Hc DC HD RA dev' Hra. assert (Ln : blen (sub data 0 n) = n) by (apply blen_sub; lia). rewrite Ln. intros Hdev'.
  pose proof (Hc DC HD RA (blen data) Hra ltac:(lia)) as Hr. rewrite content_start in Hr by (done || lia).
  pose proof (content_start partOff sb RA dev' (sub data 0 n) (trim_items n l)) as Hs. rewrite Ln in Hs. rewrite Hs by (done || lia). clear Hs.
  destruct (read_items RA (blen data) partOff sb (blen data) l _) as [r| | |] eqn:E; try done. cbn [mbind outcome_bind] in Hr. injection Hr as Er.
  destruct (read_cut_items partOff sb dv Hf Hpre RA (blen data) dev' Hra n (blen data) l (zeros (blen data)) 0 0 r) as [pc' E']; try done; [by rewrite blen_zeros by lia|].
  replace (sub (zeros (blen data)) 0 n) with (zeros n) in E'.
  - rewrite E'. cbn [mbind outcome_bind fst]. by rewrite Er.
  - apply bytes_ext; [rewrite blen_sub; rewrite ?blen_zeros; lia|]. intros p Hp. rewrite blen_zeros in Hp by lia.
    rewrite bnth_sub, !bnth_zeros by (rewrite ?blen_zeros; lia). done.
Qed.

(** The items of a file hold its content followed by zeros once its size has grown. *)
Lemma content_grown `{HL : SafeIOLaws} partOff sb dv l data z :
  flat_map partOff sb -> Forall (fun r => key_ok r.1 /\ blen r.2 < 2 ^ 32 /\ tight_item sb dv (blen data) r) l -> 0 <= z -> blen data + z < 2 ^ 63 ->
  content partOff sb dv l data -> content partOff sb dv l (data ++ zeros z).
Proof.
  intros Hf Hl Hz Hmax Hc DC HD RA dev' Hra. assert (Ln : blen (data ++ zeros z) = blen data + z) by (rewrite blen_app, blen_zeros; lia).
  rewrite Ln. intros Hdev'. pose proof (blen_nonneg data).
  pose proof (Hc DC HD RA (blen data) Hra ltac:(lia)) as Hr. rewrite content_start in Hr by (done || lia).
  pose proof (content_start partOff sb RA dev' (data ++ zeros z) l) as Hs. rewrite Ln in Hs. rewrite Hs by (done || lia). clear Hs.
  destruct (read_items RA (blen data) partOff sb (blen data) l _) as [r| | |] eqn:E; try done. cbn [mbind outcome_bind] in Hr. injection Hr as Er.
  pose proof (read_grown_items partOff sb dv Hf RA (blen data) dev' Hra (blen data) z l (zeros (blen data)) 0 r Hl
    ltac:(rewrite blen_zeros; lia) Hz Hmax E) as E'.
  replace (zeros (blen data) ++ zeros z) with (zeros (blen data + z)) in E'.
  - rewrite E'. cbn [mbind outcome_bind fst]. by rewrite Er.
  - unfold zeros. by rewrite Z2Nat.inj_add, replicate_add by lia.
Qed.

(** A cut rewrites the size of the decoded data: what is left of a compressed extent that the
    file uses from an offset above one can no longer be read. *)
Lemma cut_compressed_unreadable `{HL : SafeIOLaws} `{HD : DecodersLaws} RA dev partOff sb d k :
  extDataRegularSize <= blen d -> rd 1 d extDataOffCompression = compressionZlib \/ rd 1 d extDataOffCompression = compressionZstd ->
  1 < rd 8 d extDataOffOffset -> 0 < k < 2 ^ 63 ->
  forall b, packed_src RA dev partOff sb (wr 8 (wr 8 d extDataOffRamBytes k) extDataOffNumBytes k) k <> Ok b.
Proof.
  intros Hd Hc Ho Hk b. set (d' := wr 8 _ _ _).
  destruct (cut_regular d k) as (_&_&Fc&_); [done|unfold is_u64; lia|]. fold d' in Fc.
  assert (L1 : blen (wr 8 d extDataOffRamBytes k) = blen d) by (apply blen_wr; ext_offs; lia).
  assert (Fo : rd 8 d' extDataOffOffset = rd 8 d extDataOffOffset) by (unfold d'; rewrite !rd_wr_out by (rewrite ?L1; ext_offs; lia); done).
  assert (Fr : rd 8 d' extDataOffRamBytes = k).
  { unfold d'. rewrite rd_wr_out by (rewrite ?L1; ext_offs; lia). rewrite rd_wr_same by (ext_offs; lia). apply Z.mod_small. cbn. lia. }
  unfold packed_src. rewrite Fc, Fo, Fr. intros E. ok_inv E. set (ram := clampRAM k _) in *.
  assert (Hr : ram <= k) by (unfold ram, clampRAM; cbv zeta; destruct (Z.ltb_spec maxDecompressRAM k); case_if; lia).
  assert (Hram : decompressLimit ram <= k + 1) by (unfold decompressLimit; case_if; lia).
  match goal with H : decompressExtent ?c _ _ = Ok ?plain |- _ => assert (Hb : blen plain <= k + 1) end.
  { destruct Hc as [Hc|Hc]; rewrite Hc in *; unfold decompressExtent in *; cbn in *.
    - match goal with H : zlib_read ?c ?n = Ok _ |- _ => pose proof (zlib_spec c n) as Hz; rewrite H in Hz; cbn in Hz end. lia.
    - unfold decompressZstd in *. match goal with H : zstd_read ?c ?n = Ok _ |- _ => pose proof (zstd_spec c n) as Hz; rewrite H in Hz; cbn in Hz end. lia. }
  match goal with H : CheckBounds _ _ _ = Ok ?u |- _ => destruct u; eapply window_small in H; [|apply rd64_u64|lia] end. lia.
Qed.
