(* ===== verification/ExtentLayout.v ===== *)
(** * Laying out a multi-level extent tree (extent_multilevel.go)

    How records are cut into leaves and leaves into levels of internal nodes, and
    the bytes of the nodes that are written. *)
From Stdlib Require Import ZArith Lia Strings.Byte.
From stdpp Require Import base option list numbers sorting gmap.
From S2P Require Import Prelude Bytes Alloc Layout SafeIO Chunk Node BTree Walk Split Crc32c Cow Store CowCorrect.
From S2P Require Import Codec Tx Extent FsTree FsLookup Rebuild.
Local Open Scope Z_scope.
Local Open Scope btrfs_scope.

(** ** Cutting the records into leaves *)
Definition recs_need (l : list rec) : Z := sumZ (map (fun r => itemSize + blen r.2) l).

Lemma recs_need_nonneg l : 0 <= recs_need l.
Proof.
  induction l as [|r l IH]; [done|]. unfold recs_need, sumZ in *. cbn [map foldr]. pose proof (blen_nonneg r.2). hdr_lia.
Qed.

(** Consecutive, non-empty ranges from [lo] to [hi]. *)
Fixpoint tiles (lo hi : Z) (ranges : list (Z * Z)) : Prop :=
  match ranges with
  | [] => lo = hi
  | (a, b) :: ranges => a = lo /\ a < b /\ tiles b hi ranges
  end.

Lemma tiles_le lo hi l : tiles lo hi l -> lo <= hi.
Proof.
  revert lo. induction l as [|[a b] l IH]; intros lo; cbn [tiles]; [lia|]. intros (->&?&T). specialize (IH _ T). lia.
Qed.

Definition range_recs (recs : list rec) (r : Z * Z) : list rec := take (Z.to_nat (r.2 - r.1)) (drop (Z.to_nat r.1) recs).

Lemma part_leaf_spec recs cap used start i :
  start <= i -> (used <= cap \/ i <= start + 1) ->
  let j := part_leaf recs cap used start i in
  i <= j <= i + Z.of_nat (length recs) /\ (recs <> [] -> i = start -> i < j) /\
  (used + recs_need (take (Z.to_nat (j - i)) recs) <= cap \/ j <= start + 1).
Proof.
  revert used i. induction recs as [|r recs IH]; intros used i Hi Hu; cbn [part_leaf length]; cbv zeta.
  { split_and!; [lia|lia|by intros []|]. rewrite take_nil. change (recs_need []) with 0. lia. }
  case_if.
  - split_and!; [lia|lia|lia|]. rewrite Z.sub_diag. change (take (Z.to_nat 0) (r :: recs)) with (@nil rec). change (recs_need []) with 0. lia.
  - destruct (IH (used + (itemSize + blen r.2)) (i + 1)) as (H1&_&H3); [lia| |].
    { destruct (Z_le_gt_dec (used + (itemSize + blen r.2)) cap); [by left|right].
      destruct Heqb as [Hb|Hb]; lia. }
    set (j := part_leaf recs _ _ _ _) in *. split_and!; [lia|lia|lia|].
    replace (Z.to_nat (j - i)) with (S (Z.to_nat (j - (i + 1)))) by lia. cbn [take].
    unfold recs_need in *. cbn [map sumZ foldr] in *. destruct H3 as [H3|H3]; [left|by right].
    revert H3. unfold sumZ. cbn. lia.
Qed.

Lemma partition_loop_spec fuel recs cap i :
  0 <= i <= Z.of_nat (length recs) -> Z.of_nat (length recs) - i <= Z.of_nat fuel ->
  tiles i (Z.of_nat (length recs)) (partition_loop fuel recs cap i) /\
  Forall (fun r => 0 <= r.1 /\ (recs_need (range_recs recs r) <= cap \/ r.2 = r.1 + 1)) (partition_loop fuel recs cap i).
Proof.
  revert i. induction fuel as [|fuel IH]; intros i Hi Hf; cbn [partition_loop]; [split; [cbn; lia|constructor]|].
  case_if; [|split; [cbn; lia|constructor]].
  destruct (part_leaf_spec (drop (Z.to_nat i) recs) cap 0 i i) as (H1&H2&H3); [lia|right; lia|]. cbv zeta in *.
  set (j := part_leaf _ _ _ _ _) in *. rewrite length_drop in H1.
  assert (Hj : i < j).
  { apply H2; [|done]. intros E. apply (f_equal length) in E. rewrite length_drop in E. cbn in E. lia. }
  destruct (IH j) as [T F]; [lia|lia|]. split; [done|]. constructor; [|done]. cbn [fst snd]. split; [lia|].
  unfold range_recs. cbn [fst snd]. destruct H3 as [H3|H3]; [left; exact H3|right; lia].
Qed.

(** [partitionLeaves] cuts the records into consecutive non-empty ranges that
    together are all of them, in order, and every range fits the capacity of a
    leaf, unless it is a single record that does not fit by itself. *)
Theorem partitionLeaves_covers (recs : list rec) (capBytes : Z) :
  let ranges := partitionLeaves recs capBytes in
  concat (map (range_recs recs) ranges) = recs /\ tiles 0 (Z.of_nat (length recs)) ranges /\
  Forall (fun r => recs_need (range_recs recs r) <= capBytes \/ r.2 = r.1 + 1) ranges.
Proof.
  cbv zeta. destruct (partition_loop_spec (length recs) recs capBytes 0) as [T F]; [lia|lia|].
  fold (partitionLeaves recs capBytes) in *. split_and!; [|done|eapply Forall_impl; [exact F|]; by intros r [_ ?]].
  enough (Hg : forall l lo, 0 <= lo <= Z.of_nat (length recs) -> tiles lo (Z.of_nat (length recs)) l ->
    concat (map (range_recs recs) l) = drop (Z.to_nat lo) recs) by (apply (Hg _ 0); [lia|done]).
  clear. intros l. induction l as [|[a b] l IH]; intros lo Hlo; cbn [tiles map concat].
  - intros ->. rewrite drop_ge by lia. done.
  - intros (->&Hab&T). pose proof (tiles_le _ _ _ T) as Hb.
    rewrite (IH b) by (done || lia). unfold range_recs. cbn [fst snd].
    replace (Z.to_nat b) with (Z.to_nat lo + Z.to_nat (b - lo))%nat by lia.
    rewrite <- drop_drop, take_drop. done.
Qed.

Lemma tiles_nonempty recs lo ranges :
  0 <= lo -> tiles lo (Z.of_nat (length recs)) ranges -> Forall (fun r => range_recs recs r <> []) ranges.
Proof.
  revert lo. induction ranges as [|[a b] ranges IH]; intros lo Hlo; cbn [tiles]; [constructor|]. intros (->&Hab&T).
  pose proof (tiles_le _ _ _ T). constructor; [|apply (IH b); [lia|done]]. intros E. apply (f_equal length) in E. revert E.
  unfold range_recs. cbn [fst snd]. rewrite length_take, length_drop. cbn. lia.
Qed.
Lemma partition_nonempty recs cap :
  Forall (fun r => range_recs recs r <> []) (partitionLeaves recs cap) /\ (recs <> [] -> partitionLeaves recs cap <> []).
Proof.
  destruct (partition_loop_spec (length recs) recs cap 0) as [T _]; [lia|lia|]. split; [by apply (tiles_nonempty recs 0)|].
  intros Hr E. unfold partitionLeaves in E. rewrite E in T. cbn in T. destruct recs; [done|cbn in T; lia].
Qed.

(** ** The levels above the leaves *)
Fixpoint shaped (icap n : Z) (levels : list Z) : Prop :=
  match levels with
  | [] => n <= 1
  | m :: levels => 1 <= m < n /\ m <= n <= m * icap /\ shaped icap m levels
  end.

Lemma shape_loop_shaped fuel n icap : 2 <= icap -> n <= Z.of_nat fuel -> shaped icap n (shape_loop fuel n icap).
Proof.
  intros Hc. revert n. induction fuel as [|fuel IH]; intros n Hn; cbn [shape_loop]; [cbn; lia|].
  case_if; [|cbn; lia]. cbn [shaped].
  pose proof (Z.mul_div_le (n + icap - 1) icap ltac:(lia)). pose proof (Z.mul_succ_div_gt (n + icap - 1) icap ltac:(lia)).
  set (m := (n + icap - 1) / icap) in *. assert (1 <= m) by nia. assert (m < n) by nia. split_and!; [lia|lia|lia|nia|]. apply IH. lia.
Qed.
Lemma shaped_nonneg icap n levels : shaped icap n levels -> Forall (fun m => 0 <= m) levels.
Proof.
  revert n. induction levels as [|m levels IH]; intros n; [constructor|]. intros (?&_&Hs). constructor; [lia|by eapply IH].
Qed.

Lemma leaf_count_pos l blockCount icap : 1 <= blockCount -> 1 <= leaf_count l blockCount icap.
Proof.
  intros Hb. induction l as [|l IH]; cbn [leaf_count]; [done|]. repeat case_if; lia.
Qed.

(** The levels [interiorShape] computes converge: every level has fewer nodes
    than the one below and enough of them to point at all its nodes, and the top
    level is a single root. *)
Theorem interiorShape_converges (nLeaves icap : Z) :
  2 <= icap -> 1 <= nLeaves ->
  let '(levels, total, rootLevel) := interiorShape nLeaves icap in
  shaped icap nLeaves levels /\ last (nLeaves :: levels) = Some 1 /\ total = sumZ levels.
Proof.
  intros Hc Hn. cbn. pose proof (shape_loop_shaped (Z.to_nat nLeaves) nLeaves icap Hc ltac:(lia)) as Hs.
  split_and!; [done| |done]. revert Hs. generalize (shape_loop (Z.to_nat nLeaves) nLeaves icap) as levels.
  intros levels. revert nLeaves Hn. induction levels as [|m levels IH]; intros n Hn Hs.
  - cbn in Hs. cbn. f_equal. lia.
  - destruct Hs as (?&_&Hs). rewrite last_cons_cons. apply IH; [lia|done].
Qed.

Lemma interiorShape_converges_witness :
  let '(levels, total, rootLevel) := interiorShape 300 121 in
  shaped 121 300 levels /\ last (300 :: levels) = Some 1 /\ total = sumZ levels.
Proof. apply (interiorShape_converges 300 121); lia. Defined.

Lemma outcome_bind_assoc {A B C} (m : outcome A) (f : A -> outcome B) (g : B -> outcome C) :
  (m ≫= f) ≫= g = m ≫= (fun a => f a ≫= g).
Proof. by destruct m. Qed.

(** ** The bytes of a new node *)
Section Nodes.
Context (sb : superblock) (Hns : nodeHdrSize + 2 * keyPtrSize <= sb_nodeSize sb <= maxNodeSize).
Abbreviation NS := (sb_nodeSize sb).

Lemma template_node_spec tpl level a :
  nodeHdrSize <= blen tpl ->
  exists node, template_node sb tpl level a = Ok node /\ blen node = NS /\ rd 1 node 0x64 = level mod 2 ^ 8.
Proof using Hns.
  intros Ht. unfold template_node. rewrite slice_Ok by hdr_lia. cbn [mbind outcome_bind]. rewrite Z.sub_0_r.
  assert (Lh : blen (sub tpl 0 nodeHdrSize) = nodeHdrSize) by (apply blen_sub; hdr_lia).
  assert (Lz : blen (zeros NS) = NS) by (apply blen_zeros; hdr_lia).
  rewrite copy_at_Ok by (rewrite ?Lh, ?Lz; hdr_lia). cbn [mbind outcome_bind].
  set (n0 := splice _ _ _). assert (L0 : blen n0 = NS) by (unfold n0; rewrite blen_splice; rewrite ?Lh, ?Lz; hdr_lia).
  rewrite put_le_Ok by hdr_lia. cbn [mbind outcome_bind].
  rewrite put_le_Ok by (rewrite ?blen_wr; hdr_lia). cbn [mbind outcome_bind].
  rewrite put_le_Ok by (rewrite ?blen_wr; rewrite ?blen_wr; hdr_lia).
  eexists. split_and!; [done|rewrite !blen_wr; rewrite ?blen_wr; rewrite ?blen_wr; hdr_lia|].
  rewrite !rd_wr_out by (rewrite ?blen_wr; rewrite ?blen_wr; hdr_lia). rewrite rd_wr_same by hdr_lia. done.
Qed.

Lemma extent_leaf_spec tpl a recs :
  nodeHdrSize <= blen tpl -> Forall (fun r : rec => key_ok r.1) recs ->
  safe_with (extent_leaf sb tpl a recs) (fun leaf => blen leaf = NS /\ hdr_level (hdr_of leaf) = 0).
Proof using Hns.
  intros Ht Hk. unfold extent_leaf. destruct (template_node_spec tpl 0 a Ht) as (n0&->&L0&R0). cbn [mbind outcome_bind].
  rewrite put_le_Ok by hdr_lia. cbn [mbind outcome_bind].
  assert (Hl : leaf_repr (wr 4 n0 0x60 0) []).
  { assert (L1 : blen (wr 4 n0 0x60 0) = NS) by (rewrite blen_wr; hdr_lia). split_and!; rewrite ?L1; try done; try hdr_lia.
    - rewrite rd_wr_same by hdr_lia. done.
    - rewrite rd_wr_out by hdr_lia. rewrite R0. done.
    - change (nrecs []) with 0. change (recs_size []) with 0. hdr_lia. }
  eapply safe_with_bind; [by eapply insert_recs_spec|]. intros leaf [L (recs'&Hl')].
  destruct (crc_leaf leaf recs' Hl') as (leaf'&->&L'&Hl''). cbn. rewrite blen_wr in L by hdr_lia.
  split; [congruence|]. apply Hl''.
Qed.

(** One key pointer. *)
Lemma put_ptr_spec node off k child gen :
  nodeHdrSize <= off -> off + keyPtrSize <= blen node -> key_ok k -> is_u64 child ->
  exists node', (n ← PutUint64 node off (objID k); n ← PutUint8 n (off + 8) (typ k); n ← PutUint64 n (off + 9) (offset k);
                 n ← PutUint64 n (off + 17) child; PutUint64 n (off + 25) gen) = Ok node' /\
    blen node' = blen node /\ key_at node' off = k /\ rd 8 node' (off + 17) = child /\
    forall p, 0 <= p -> p < off \/ off + keyPtrSize <= p -> bnth node' p = bnth node p.
Proof using.
  intros Ho Hf Hk Hc. assert (E : (n ← PutUint64 node off (objID k); n ← PutUint8 n (off + 8) (typ k); n ← PutUint64 n (off + 9) (offset k);
                 n ← PutUint64 n (off + 17) child; PutUint64 n (off + 25) gen) =
    (n ← putKey node off k; n ← PutUint64 n (off + 17) child; PutUint64 n (off + 25) gen)).
  { unfold putKey. rewrite !outcome_bind_assoc. destruct (PutUint64 node _ _); [|done..]. cbn [mbind outcome_bind].
    by rewrite !outcome_bind_assoc. }
  rewrite E. rewrite putKey_Ok by hdr_lia. cbn [mbind outcome_bind].
  assert (L1 : blen (put_key node off k) = blen node) by (apply blen_put_key; hdr_lia).
  rewrite put_le_Ok by hdr_lia. cbn [mbind outcome_bind]. rewrite put_le_Ok by (rewrite ?blen_wr; hdr_lia).
  eexists. split_and!; [done|rewrite !blen_wr; rewrite ?blen_wr; hdr_lia| | |].
  - etrans; [|apply (key_at_put_key node off k); [hdr_lia..|done]].
    apply key_at_agree; [hdr_lia|rewrite !blen_wr; rewrite ?blen_wr; hdr_lia|hdr_lia|].
    intros p Hp. rewrite !bnth_wr_out by (rewrite ?blen_wr; hdr_lia). done.
  - rewrite rd_wr_out by (rewrite ?blen_wr; hdr_lia). rewrite rd_wr_same by hdr_lia. unfold is_u64 in Hc.
    apply Z.mod_small. cbn. lia.
  - intros p Hp0 Hp. rewrite !bnth_wr_out by (rewrite ?blen_wr; hdr_lia). apply bnth_put_key_out; hdr_lia.
Qed.

Definition ptr_ok (p : key * Z) : Prop := key_ok p.1 /\ is_u64 p.2.

Lemma put_ptrs_spec children node cnt :
  0 <= cnt -> nodeHdrSize + (cnt + Z.of_nat (length children)) * keyPtrSize <= blen node -> Forall ptr_ok children ->
  exists node', put_ptrs sb node cnt children = Ok node' /\ blen node' = blen node /\
    ptr_slots node' cnt children /\
    forall p, 0 <= p < nodeHdrSize + cnt * keyPtrSize -> bnth node' p = bnth node p.
Proof using.
  revert node cnt. induction children as [|[k a] children IH]; intros node cnt Hc Hf Hok; cbn [put_ptrs length] in *.
  { by exists node. }
  apply Forall_cons in Hok as [[Hk Ha] Hok]. cbn [fst snd] in *.
  destruct (put_ptr_spec node (nodeHdrSize + cnt * keyPtrSize) k a (next_gen sb)) as (n1&E1&L1&K1&R1&A1); [hdr_lia..|done|done|].
  destruct (IH n1 (cnt + 1)) as (n2&E2&L2&P2&A2); [lia|hdr_lia|done|].
  exists n2. split_and!; [|lia| |].
  - rewrite <- E2. repeat (apply outcome_bind_Ok in E1 as (?&Ep&E1); rewrite Ep; clear Ep; cbn [mbind outcome_bind]).
    by rewrite E1.
  - cbn [ptr_slots]. split_and!; [| |done].
    + rewrite <- K1. apply key_at_agree; [hdr_lia..|]. intros p Hp. apply A2. hdr_lia.
    + rewrite <- R1. apply rd_agree; [hdr_lia..|]. intros p Hp. apply A2. hdr_lia.
  - intros p Hp. rewrite A2, A1 by hdr_lia. done.
Qed.

Lemma interior_node_spec tpl level a children :
  nodeHdrSize <= blen tpl -> 0 <= level < 2 ^ 8 -> Forall ptr_ok children ->
  Z.of_nat (length children) <= internalCapacity sb ->
  exists node, interior_node sb tpl level a children = Ok node /\ blen node = NS /\
    kids_in (fun x => x ∈ map snd children) node.
Proof using Hns.
  intros Ht Hlv Hok Hlen. unfold internalCapacity in Hlen.
  assert (Hfit : nodeHdrSize + Z.of_nat (length children) * keyPtrSize <= NS).
  { rewrite Z.quot_div_nonneg in Hlen by hdr_lia. pose proof (Z.mul_div_le (NS - nodeHdrSize) keyPtrSize). hdr_lia. }
  unfold interior_node. destruct (template_node_spec tpl level a Ht) as (n0&->&L0&R0). cbn [mbind outcome_bind].
  destruct (put_ptrs_spec children n0 0) as (n1&->&L1&P1&A1); [lia|hdr_lia|done|]. cbn [mbind outcome_bind].
  rewrite put_le_Ok by hdr_lia. cbn [mbind outcome_bind]. set (n2 := wr 4 n1 0x60 _).
  assert (L2 : blen n2 = NS) by (unfold n2; rewrite blen_wr; hdr_lia).
  destruct (updateNodeCRC_csum n2) as (n3&->&_&L3&A3); [hdr_lia|]. exists n3. split_and!; [done|lia|].
  assert (Hcnt : u32 (Z.of_nat (length children)) = Z.of_nat (length children)) by (apply Z.mod_small; hdr_lia).
  intros Hl0. cbn [hdr_of hdr_level hdr_nItems] in *.
  assert (Hin : internal_repr n3 level children).
  { assert (S2 : same_body n2 n3) by (split; [done|]; intros p Hp; apply A3; lia).
    assert (R1 : rd 1 n2 0x64 = level).
    { unfold n2. rewrite rd_wr_out by hdr_lia. rewrite (rd_agree 1 n1 n0 0x64 0x64) by (try hdr_lia; intros p Hp; apply A1; cbn in *; hdr_lia).
      rewrite R0. by apply Z.mod_small. }
    eapply internal_repr_body; [|exact S2]. split_and!; [| | |rewrite L2; done|lia|].
    - unfold n2. rewrite rd_wr_same, Hcnt by hdr_lia. apply Z.mod_small. cbn. hdr_lia.
    - done.
    - rewrite (same_body_rd 1 n2 n3), R1 in Hl0 by (done || hdr_lia). lia.
    - assert (Hg : forall l i, 0 <= i -> nodeHdrSize + (i + Z.of_nat (length l)) * keyPtrSize <= NS ->
        ptr_slots n1 i l -> ptr_slots n2 i l); [|apply Hg; [lia|hdr_lia|done]].
      clear -L1 L0 L2 Hns. induction l as [|[k p] l IH]; intros i Hi Hf; [done|]. cbn [ptr_slots length] in *. intros (H1&H2&H3).
      split_and!; [| |apply IH; [lia|hdr_lia|done]].
      + rewrite <- H1. symmetry. apply key_at_agree; [hdr_lia..|]. intros q Hq. unfold n2. rewrite bnth_wr_out by hdr_lia. done.
      + rewrite <- H2. unfold n2. apply rd_wr_out; hdr_lia. }
  assert (En : rd 4 n3 0x60 = Z.of_nat (length children)) by apply Hin.
  intros l. rewrite En, (child_ptrs_internal _ _ _ _ Hin), take_until_all. intros [= <-].
  apply Forall_forall. intros x Hx. by right.
Qed.
End Nodes.
