(* ===== verification/ExtentWrite.v ===== *)
(** * The extent tree rebuild: what it writes (extent_rebuild.go, extent_multilevel.go)

    The rebuild writes the leaf of the extent tree, or nodes it has just
    allocated, then one ROOT_ITEM and the superblock.  The nodes of the other trees
    and the file data are untouched, and the new extent tree is again a set of
    nodes whose pointers stay inside it. *)
From Stdlib Require Import ZArith Lia Strings.Byte.
From stdpp Require Import base option list numbers sorting gmap.
From S2P Require Import Prelude Bytes Alloc Layout SafeIO Chunk Node BTree Walk Split Crc32c Cow Store CowCorrect.
From S2P Require Import Codec Tx Extent FsTree FsLookup Rebuild ExtentLayout.
Local Open Scope Z_scope.
Local Open Scope btrfs_scope.

Lemma put_generation_spec sb d :
  rootItemOffBytenr + 8 <= blen d ->
  exists d', put_generation sb d = Ok d' /\ blen d' = blen d /\ rd 8 d' rootItemOffBytenr = rd 8 d rootItemOffBytenr.
Proof.
  unfold put_generation, rootItemOffBytenr, rootItemOffGeneration, rootItemOffGenerationV2. intros Hd.
  rewrite put_le_Ok by lia. cbn [mbind outcome_bind]. assert (L : blen (wr 8 d 160 (next_gen sb)) = blen d) by (rewrite blen_wr; lia).
  rewrite L. case_if.
  - rewrite put_le_Ok by lia. eexists. split_and!; [done|rewrite blen_wr; lia|]. by rewrite !rd_wr_out by lia.
  - eexists. split_and!; [done|done|]. by rewrite rd_wr_out by lia.
Qed.

(** Nodes whose pointers stay among them. *)
Definition closed (rn : Z -> outcome bytes) (ads : list Z) : Prop :=
  forall a buf, a ∈ ads -> rn a = Ok buf -> kids_in (fun x => x ∈ ads) buf.

Lemma filter_out_one (l : list Z) (X : gset Z) a :
  NoDup l -> a ∈ l -> a ∉ X ->
  filter (fun x => x ∉ X) l ≡ₚ a :: filter (fun x => x ∉ {[a]} ∪ X) l.
Proof.
  intros Hnd Ha HX. apply NoDup_Permutation.
  - by apply NoDup_filter.
  - apply NoDup_cons. split; [|by apply NoDup_filter]. rewrite list_elem_of_filter, elem_of_union, elem_of_singleton. tauto.
  - intros x. rewrite elem_of_cons, !list_elem_of_filter, elem_of_union, elem_of_singleton.
    destruct (decide (x = a)) as [->|Hne]; tauto.
Qed.

Section Writing.
Context `{HL : SafeIOLaws} {D : Type} `{RWL : RWLaws D} (partOff : Z) (sb : superblock) (dv : dataView).
Context (Hflat : flat_map partOff sb) (Hheld : forall p, dv_held dv p -> Store.mapped sb p).
(** The superblock is on the device and in no chunk. *)
Context (Hroom : partOff + superblockOffset + sbfSize <= dv_size dv).
Context (Harea : forall p, superblockOffset <= p < superblockOffset + sbfSize -> ~ Store.mapped sb p).
Context (X : cowState D -> Prop).
Abbreviation St := (cowState D).
Abbreviation rn := (rn partOff sb).
Abbreviation Inv := (Inv partOff sb dv).
Abbreviation NS := (sb_nodeSize sb).

(** From [s] to [s'] the nodes of [live] did not change. *)
Definition kept (live : list Z) (s s' : St) : Prop := forall x, x ∈ live -> rn s' x = rn s x.

Lemma kept_refl live s : kept live s s.
Proof using. done. Qed.
Lemma kept_trans live s1 s2 s3 : kept live s1 s2 -> kept live s2 s3 -> kept live s1 s3.
Proof using. intros H1 H2 x Hx. by rewrite H2, H1. Qed.
Lemma kept_dev live (s s' : St) : st_dev s' = st_dev s -> kept live s s'.
Proof using. intros E x _. unfold Store.rn. by rewrite E. Qed.
Lemma kept_sub live live' s s' : kept live s s' -> (forall x, x ∈ live' -> x ∈ live) -> kept live' s s'.
Proof using. intros Hk Hs x Hx. by apply Hk, Hs. Qed.

Lemma sb_write_spec s live b :
  Inv s live -> blen b = sbfSize ->
  exists s', m_write (partOff + superblockOffset) b s = (s', Ok tt) /\ Inv s' live /\ kept live s s' /\
    ReadAt (st_dev s') (partOff + superblockOffset) sbfSize = Ok b.
Proof using HL RWL Hflat Hheld Hroom Harea.
  intros Hi Hb. pose proof Hi as (Hwf&Hns&Hfree&Hok&Hnd&Hdis&Hnf&Hsz&Hdat&Hread). pose proof (NS_bounds _ _ Hflat) as Hnsb.
  destruct (WriteAt_in (st_dev s) (partOff + superblockOffset) b) as (d'&Ew&Hd'&Hrd&Hfr);
    [destruct Hflat as (_&?&_); unfold superblockOffset; lia|rewrite Hb, Hsz; lia|].
  exists (CowState d' (st_sm s)). unfold m_write. rewrite Ew. rewrite Hb in *. split; [done|]. split; [|split; [|done]].
  - split_and!; cbn [st_sm st_dev]; try done.
    + intros p Hp. rewrite Hd'. by apply Hfree.
    + eapply Forall_impl; [exact Hok|]. intros x (?&?&?). split_and!; try done; cbn [st_dev]; rewrite Hd'; lia.
    + split_and!; cbn [st_sm st_dev]; [by rewrite Hd'|done|]. intros x n Hn Hd. rewrite <- Hread by done. apply Hfr; [lia|].
      destruct (Z_le_gt_dec (x + n) superblockOffset); [left; lia|].
      destruct (Z_le_gt_dec (superblockOffset + sbfSize) x); [right; lia|]. exfalso.
      apply (Harea (Z.max x superblockOffset)); [unfold sbfSize in *; lia|]. apply Hheld, Hd. unfold sbfSize in *. lia.
  - intros x Hx. rewrite Forall_forall in Hok. destruct (Hok _ Hx) as (Hx0&Hma&_).
    rewrite !(rn_read partOff sb Hflat) by (apply Hma; hdr_lia). cbn [st_dev]. apply Hfr; [hdr_lia|].
    destruct (Z_le_gt_dec (x + NS) superblockOffset); [left; lia|].
    destruct (Z_le_gt_dec (superblockOffset + sbfSize) x); [right; lia|]. exfalso.
    apply (Harea (Z.max x superblockOffset)); [unfold sbfSize in *; lia|]. apply Hma. unfold sbfSize in *. hdr_lia.
Qed.

Lemma updateSuperBytesUsed_spec s live used (Q : unit -> St -> Prop) (E : error -> St -> Prop) :
  Inv s live -> (forall s', Inv s' live -> kept live s s' -> Q tt s') -> (forall e, E e s) ->
  wp X (updateSuperBytesUsed partOff used) s Q E.
Proof using HL RWL Hflat Hheld Hroom Harea.
  intros Hi HQ HE. apply wp_bind. unfold dev_ReadAt, wp at 1.
  pose proof (ReadAt_safe (st_dev s) (partOff + superblockOffset) sbfSize) as Hs.
  destruct (ReadAt _ _ _) as [buf|e| |] eqn:Er; try done.
  apply ReadAt_blen in Er; [|done]. unfold sbfSize, sbfBytesUsed in *. apply wp_bind.
  eapply wp_lift_ok; [apply put_le_Ok; lia|]. apply wp_bind.
  assert (L : blen (wr 8 buf 120 used) = 0x1000) by (rewrite blen_wr; lia).
  eapply wp_lift_ok.
  { unfold updateSuperblockCRC. rewrite slice_Ok by lia. cbn [mbind outcome_bind]. apply put_le_Ok; lia. }
  set (b := wr 4 _ _ _). assert (Lb : blen b = sbfSize) by (unfold b; rewrite blen_wr; unfold sbfSize; lia).
  destruct (sb_write_spec s live b Hi Lb) as (s'&E'&Hi'&Hk'&_). eapply wp_eq; [exact E'|]. by apply HQ.
Qed.

(** ** The ROOT_ITEM of the extent tree *)
Abbreviation extRootKey := (Key extentTreeObjID typeRootItem 0).

Section RootItem.
Context (h : nat) (ads others : list Z) (Hh : Z.of_nat h <= maxBtreeDepth).

(** The root tree holds [c], beside the nodes [others]. *)
Definition root_tree (s : St) (c : list rec) : Prop :=
  wtree False (rn s) h (sb_rootLogAddr sb) c ads /\ Forall (fun r => r.2 <> []) c /\ Inv s (ads ++ others).

Lemma rootItemLeaf_spec s c :
  root_tree s c ->
  exists leaf buf recs, rootItemLeafLogAddr partOff sb extentTreeObjID s = (s, Ok leaf) /\ leaf ∈ ads /\
    rn s leaf = Ok buf /\ blen buf = NS /\ leaf_repr buf recs /\ keys_sorted recs /\
    leaf_map c !! extRootKey = leaf_map recs !! extRootKey.
Proof using HL RWL Hflat Hh.
  clear X. intros (Hw&_&Hi). assert (Hko : key_ok extRootKey) by (unfold extentTreeObjID, typeRootItem; key_tac).
  assert (Hlen : forall x buf, x ∈ ads -> rn s x = Ok buf -> blen buf = NS).
  { intros x buf Hx E. eapply rn_blen; [done| |done]. eapply Inv_live_nonzero; [done|exact Hi|]. mem_tac. }
  destruct (tracePath_spec False partOff sb dv Hflat s h _ c ads others extRootKey Hw Hi Hko Hh)
    as (zs&leaf&buf&recs&Et&_&Ht). pose proof (tr_ads _ _ _ _ _ _ _ _ _ _ _ _ _ _ Ht) as Hads.
  unfold rootItemLeafLogAddr. destruct h as [|h'].
  - destruct Hw as (b&Hr&Hl&Hs&->). exists (sb_rootLogAddr sb), b, c. split_and!; try done; [|by left|].
    + erewrite sm_bind_Ok by (unfold node_read; fold (rn s (sb_rootLogAddr sb)); by rewrite Hr).
      destruct (leaf_repr_header _ _ Hl) as [la Ehd]. by erewrite sm_lift_Ok by exact Ehd.
    + eapply Hlen; [by left|done].
  - destruct Ht as [_ _ Hr Hl Hs _ _ _ _ _ Hlk]. exists leaf, buf, recs.
    assert (Hin : leaf ∈ ads) by (rewrite Hads; by left). split_and!; try done; [|by eapply Hlen].
    destruct Hw as (b&kids&Hr0&Hi0&_). erewrite sm_bind_Ok by (unfold node_read; fold (rn s (sb_rootLogAddr sb)); by rewrite Hr0).
    erewrite sm_lift_Ok by exact (internal_hdr _ _ _ Hi0). cbn [hdr_level].
    rewrite (proj2 (Z.eqb_neq _ _)) by lia. erewrite sm_bind_Ok by exact Et. by rewrite last_snoc.
Qed.

(** What an edit of the item leaves. *)
Definition root_edited (s : St) (c : list rec) (d' : bytes) (s' : St) : Prop :=
  exists c', root_tree s' c' /\ leaf_map c' = <[extRootKey := d']> (leaf_map c) /\ kept others s s' /\ st_sm s' = st_sm s.

Lemma edit_root_spec s c leaf buf pre d post d' it f (Q : unit -> St -> Prop) E :
  root_tree s c -> leaf ∈ ads -> rn s leaf = Ok buf -> blen buf = NS -> leaf_repr buf (pre ++ (extRootKey, d) :: post) ->
  f d = Ok d' -> blen d' = blen d -> d <> [] ->
  (forall f d', f d = Ok d' -> blen d' = blen d -> exists buf', edit_item buf it f = Ok buf' /\
     blen buf' = blen buf /\ leaf_repr buf' (pre ++ (extRootKey, d') :: post)) ->
  (forall s', root_edited s c d' s' -> Q tt s') ->
  wp X (leaf0 ← sm_lift (edit_item buf it f); leaf0 ← sm_lift (updateNodeCRC leaf0);
        m_write (partOff + leaf) leaf0) s Q E.
Proof using HL RWL Hflat.
  intros (Hw&Hne&Hi) Hin Hr Hb Hl Hf Hbd Hd Hedit HQ. destruct (Hedit f d' Hf Hbd) as (b1&E1&L1&Hl1).
  destruct (crc_leaf b1 _ Hl1) as (b2&E2&L2&Hl2).
  apply wp_bind. eapply wp_lift_ok; [exact E1|]. apply wp_bind. eapply wp_lift_ok; [exact E2|].
  destruct (m_write_spec partOff sb dv Hflat s (ads ++ others) leaf b2 Hi ltac:(mem_tac) ltac:(congruence))
    as (s'&Ew&Hi'&Hsm&Hr'&Hsame). eapply wp_eq; [exact Ew|]. apply HQ.
  pose proof Hi as (_&_&_&_&Hnd&_). apply NoDup_app in Hnd as (Hnd&Hdj&_).
  destruct (wtree_edit (rn s) (rn s') h _ c ads leaf buf b2 pre extRootKey d d' post Hw Hnd Hin Hr Hl Hr' Hl2)
    as (c1&c2&Ec&Hw'); [intros x Hx Hxl; apply Hsame; [mem_tac|done]|].
  exists (c1 ++ (extRootKey, d') :: c2). pose proof (wtree_sorted _ _ _ _ _ _ Hw) as Hs. rewrite Ec in Hs.
  split_and!; try done.
  - rewrite Ec in Hne. apply Forall_app in Hne as [H1 H2]. apply Forall_cons in H2 as [_ H2].
    split_and!; [done| |done]. apply Forall_app. split; [done|]. constructor; [|done]. cbn. intros ->. apply Hd. rewrite blen_nil in Hbd.
    destruct d; [done|unfold blen in Hbd; cbn in Hbd; lia].
  - rewrite Ec. destruct (leaf_map_middle c1 extRootKey d c2) as [-> _]; [by apply keys_sorted_NoDup|].
    destruct (leaf_map_middle c1 extRootKey d' c2) as [-> _];
      [apply keys_sorted_NoDup; by eapply keys_sorted_middle|]. by rewrite insert_insert_eq.
  - intros x Hx. apply Hsame; [mem_tac|]. intros ->. by apply (Hdj leaf).
Qed.

(** The item found in its leaf, ready to be edited. *)
Lemma find_root_item s c r :
  root_tree s c -> root_at c extentTreeObjID r ->
  exists leaf buf pre d post items it, rootItemLeafLogAddr partOff sb extentTreeObjID s = (s, Ok leaf) /\
    physAddr sb partOff leaf = Ok (partOff + leaf) /\ dev_ReadAt (partOff + leaf) NS s = (s, Ok buf) /\
    leaf ∈ ads /\ rn s leaf = Ok buf /\ blen buf = NS /\ leaf_repr buf (pre ++ (extRootKey, d) :: post) /\
    rootItemOffBytenr + 8 <= blen d /\ rd 8 d rootItemOffBytenr = r /\ leaf_map c !! extRootKey = Some d /\
    (exists la, parseNodeHeader buf = Ok (NodeHeader la (nrecs (pre ++ (extRootKey, d) :: post)) 0)) /\
    findItemIdx buf extentTreeObjID typeRootItem 0 = Ok (nrecs pre) /\
    parseLeafItems buf (nrecs (pre ++ (extRootKey, d) :: post)) = Ok items /\
    items !! Z.to_nat (nrecs pre) = Some it /\ item_data it buf = d /\
    forall f d', f d = Ok d' -> blen d' = blen d -> exists buf', edit_item buf it f = Ok buf' /\
      blen buf' = blen buf /\ leaf_repr buf' (pre ++ (extRootKey, d') :: post).
Proof using HL RWL Hflat Hh.
  clear X. intros Hrt (d&Ed&Hd&Er). destruct (rootItemLeaf_spec s c Hrt) as (leaf&buf&recs&El&Hin&Hr&Hb&Hl&Hs&Hlk).
  destruct Hrt as (Hw&_&Hi). assert (Hm : Store.mapped sb leaf)
    by (eapply Inv_live_nonzero; [done|exact Hi|]; apply elem_of_app; by left).
  destruct (mapped_addr partOff sb Hflat leaf Hm) as (_&_&_&_&Hphys).
  pose proof (find_key_lookup extRootKey recs) as Hf. pose proof (findItemIdx_spec buf recs extRootKey Hl) as Hidx.
  rewrite Hlk in Ed. destruct (find_key extRootKey recs) as [j|]; [|congruence].
  destruct Hf as (pre&d0&post&->&Ej). rewrite Ej in Hidx.
  assert (d0 = d) as ->.
  { destruct (leaf_map_middle pre extRootKey d0 post) as [E _]; [by apply keys_sorted_NoDup|].
    rewrite E, lookup_insert_eq in Ed. by injection Ed. }
  destruct (edit_item_spec buf pre extRootKey d post Hl) as (items&it&E1&E2&E3&E4).
  exists leaf, buf, pre, d, post, items, it. split_and!; try done.
  - unfold dev_ReadAt. by rewrite <- (rn_read partOff sb Hflat), Hr.
  - by rewrite Hlk.
  - by apply leaf_repr_header.
Qed.

(** The edits leave a ROOT_ITEM that names the new root. *)
Definition names_root (s : St) (c : list rec) (r : Z) (s' : St) : Prop :=
  exists d', root_edited s c d' s' /\ rd 8 d' rootItemOffBytenr = r.

Lemma updateExtentRootGeneration_spec s c r r' (Q : unit -> St -> Prop) E :
  root_tree s c -> root_at c extentTreeObjID r' -> is_u64 r ->
  (forall s', names_root s c r s' -> Q tt s') ->
  wp X (updateExtentRootGeneration partOff sb r) s Q E.
Proof using HL RWL Hflat Hh.
  intros Hrt Hat Hr HQ.
  destruct (find_root_item s c r' Hrt Hat) as (leaf&buf&pre&d&post&items&it&E1&E2&E3&Hin&Hrn&Hb&Hl&Hd&_&Hc&(la&E4)&E5&E6&E7&E8&Hedit).
  unfold updateExtentRootGeneration. apply wp_bind. eapply wp_eq; [exact E1|]. apply wp_bind.
  eapply wp_lift_ok; [exact E2|]. apply wp_bind. eapply wp_eq; [exact E3|]. apply wp_bind.
  eapply wp_lift_ok; [exact E4|]. cbn [hdr_level hdr_nItems]. change (negb (0 =? 0)) with false. cbv iota.
  apply wp_bind. eapply wp_lift_ok; [exact E5|]. pose proof (nrecs_nonneg pre). rewrite (proj2 (Z.ltb_ge _ _)) by lia.
  apply wp_bind. eapply wp_lift_ok; [exact E6|]. rewrite E7, E8. rewrite (proj2 (Z.ltb_ge _ _)) by lia.
  destruct (put_generation_spec sb d Hd) as (d1&F1&L1&_).
  assert (F2 : (d ← put_generation sb d; PutUint64 d rootItemOffBytenr r) = Ok (wr 8 d1 rootItemOffBytenr r)).
  { rewrite F1. cbn [mbind outcome_bind]. apply put_le_Ok; unfold rootItemOffBytenr in *; lia. }
  eapply (edit_root_spec s c leaf buf pre d post); try done.
  - rewrite blen_wr; unfold rootItemOffBytenr in *; lia.
  - intros ->. rewrite blen_nil in Hd. unfold rootItemOffBytenr in Hd. lia.
  - intros s' Hs. apply HQ. exists (wr 8 d1 rootItemOffBytenr r). split; [done|].
    unfold rootItemOffBytenr, is_u64 in *. rewrite rd_wr_same by lia. apply Z.mod_small. cbn. lia.
Qed.

Lemma repointExtentRoot_spec s c r level r' (Q : unit -> St -> Prop) (E : error -> St -> Prop) :
  root_tree s c -> root_at c extentTreeObjID r' -> is_u64 r ->
  (forall s', names_root s c r s' -> Q tt s') -> (forall e, E e s) ->
  wp X (repointExtentRoot partOff sb r level) s Q E.
Proof using HL RWL Hflat Hh.
  intros Hrt Hat Hr HQ HE.
  destruct (find_root_item s c r' Hrt Hat) as (leaf&buf&pre&d&post&items&it&E1&E2&E3&Hin&Hrn&Hb&Hl&Hd&_&Hc&(la&E4)&E5&E6&E7&E8&Hedit).
  unfold repointExtentRoot. apply wp_bind. eapply wp_eq; [exact E1|]. apply wp_bind.
  eapply wp_lift_ok; [exact E2|]. apply wp_bind. eapply wp_eq; [exact E3|]. apply wp_bind.
  eapply wp_lift_ok; [exact E5|]. pose proof (nrecs_nonneg pre). rewrite (proj2 (Z.ltb_ge _ _)) by lia.
  apply wp_bind. eapply wp_lift_ok; [exact E4|]. cbn [hdr_nItems].
  apply wp_bind. eapply wp_lift_ok; [exact E6|]. rewrite E7, E8. case_if; [apply wp_fail, HE|].
  set (d1 := wr 8 d rootItemOffBytenr r). unfold rootItemOffLevel, rootItemOffBytenr in *.
  assert (L1 : blen d1 = blen d) by (unfold d1; rewrite blen_wr; lia).
  destruct (put_generation_spec sb d1) as (d2&F2&L2&R2); [unfold rootItemOffBytenr; lia|]. unfold rootItemOffBytenr in *.
  assert (F3 : (d ← PutUint64 d 176 r; d ← put_generation sb d; PutUint8 d 238 level) = Ok (wr 1 d2 238 level)).
  { rewrite put_le_Ok by lia. cbn [mbind outcome_bind]. fold d1. rewrite F2. cbn [mbind outcome_bind]. apply put_le_Ok; lia. }
  eapply (edit_root_spec s c leaf buf pre d post); try done.
  - rewrite blen_wr; lia.
  - intros ->. rewrite blen_nil in Hd. lia.
  - intros s' Hs. apply HQ. exists (wr 1 d2 238 level). split; [done|]. unfold rootItemOffBytenr, is_u64 in *.
    rewrite rd_wr_out by lia. rewrite R2. unfold d1. rewrite rd_wr_same by lia. apply Z.mod_small. cbn. lia.
Qed.
End RootItem.

(** ** Allocating and freeing nodes *)
Lemma alloc_nodes_spec n s live (Q : list Z -> St -> Prop) (E : error -> St -> Prop) :
  Inv s live ->
  (forall l s', Inv s' (l ++ live) -> st_dev s' = st_dev s -> length l = n -> Q l s') ->
  (forall e l s', Inv s' (l ++ live) -> st_dev s' = st_dev s -> E e s') ->
  wp X (alloc_nodes sb n) s Q E.
Proof using HL RWL Hflat.
  revert s live Q. induction n as [|n IH]; intros s live Q Hi HQ HE; cbn [alloc_nodes]; [apply wp_ret; by apply HQ|].
  apply wp_bind. destruct (m_alloc_spec partOff sb dv Hflat s live Hi) as [[Ea _]|(s1&a&Ea&Hi1&Hd1&Hlp&_)].
  { eapply wp_eq; [exact Ea|]. by apply (HE _ []). }
  eapply wp_eq; [exact Ea|]. apply wp_bind. rewrite Hlp. apply (IH s1 (a :: live)); [done| |].
  - intros l s2 Hi2 Hd2 Hl. apply wp_ret. apply HQ; [|congruence|cbn; lia].
    eapply Inv_perm; [|exact Hi2]. cbn. by rewrite Permutation_middle.
  - intros e l s2 Hi2 Hd2. apply (HE e (a :: l)); [|congruence]. eapply Inv_perm; [|exact Hi2]. cbn. by rewrite Permutation_middle.
Qed.

Lemma alloc_levels_spec levels s live (Q : list (list Z) -> St -> Prop) (E : error -> St -> Prop) :
  Inv s live -> Forall (fun n => 0 <= n) levels ->
  (forall ls s', Inv s' (concat ls ++ live) -> st_dev s' = st_dev s ->
     Forall2 (fun (l : list Z) n => Z.of_nat (length l) = n) ls levels -> Q ls s') ->
  (forall e l s', Inv s' (l ++ live) -> st_dev s' = st_dev s -> E e s') ->
  wp X (alloc_levels sb levels) s Q E.
Proof using HL RWL Hflat.
  intros Hi Hn. revert s live Q Hi. induction Hn as [|n levels Hn _ IH]; intros s live Q Hi HQ HE; cbn [alloc_levels];
    [apply wp_ret; by apply HQ|].
  apply wp_bind. apply (alloc_nodes_spec _ s live); [done| |done]. intros l s1 Hi1 Hd1 Hl. apply wp_bind.
  apply (IH s1 (l ++ live)); [done| |].
  - intros ls s2 Hi2 Hd2 Hls. apply wp_ret, HQ; [|congruence|constructor; [lia|done]].
    eapply Inv_perm; [|exact Hi2]. cbn [concat]. perm_tac.
  - intros e l' s2 Hi2 Hd2. apply (HE e (l' ++ l)); [|congruence]. by rewrite <- app_assoc.
Qed.

Lemma free_old_tree_spec s root eads live :
  Inv s (eads ++ live) -> closed (rn s) eads -> root ∈ eads ->
  exists s' left, free_old_tree partOff sb root s = (s', Ok tt) /\ st_dev s' = st_dev s /\ Inv s' (left ++ live).
Proof using HL RWL Hflat.
  intros Hi Hcl Hroot. pose proof Hi as (_&_&_&_&Hnd&_). apply NoDup_app in Hnd as (Hnd&_&_).
  set (inv := fun sa : St * gset Z => st_dev sa.1 = st_dev s /\ Inv sa.1 (filter (fun x => x ∉ sa.2) eads ++ live)).
  unfold free_old_tree.
  set (walk := walkNodeAddrs _ _ _).
  assert (Hw : sm_upto False inv walk (fun _ => True)).
  { apply (walkNodeAddrs_closed False inv _ (fun x => x ∈ eads)); [| |done].
    - intros a Ha [s1 X1] [Hd1 Hi1]. unfold var_step. cbn [fst snd] in *. destruct (decide (a ∈ X1)) as [Hx|Hx].
      { by rewrite (bool_decide_eq_true_2 _ Hx). }
      rewrite (bool_decide_eq_false_2 _ Hx).
      destruct (m_free_spec partOff sb dv Hflat s1 a (filter (fun x => x ∉ {[a]} ∪ X1) eads ++ live)) as (s2&Ef&Hi2&Hd2).
      { eapply Inv_perm; [|exact Hi1]. by rewrite (filter_out_one eads X1 a). }
      erewrite sm_bind_Ok by exact Ef. cbn. split; [|done]. split; cbn [fst snd]; [congruence|done].
    - intros a Ha [s1 X1] [Hd1 Hi1]. unfold with_var, node_read. cbn [fst snd] in *. split; [done|].
      rewrite Hd1. fold (rn s a). pose proof (node_fills partOff sb Hflat s a) as Hf. specialize (Hcl a).
      destruct (rn s a) as [buf| | |]; try done. split; [done|]. by apply Hcl. }
  destruct (Hw (s, ∅)) as [[Hd1 Hi1] Ho].
  { split; [done|]. cbn [fst snd]. eapply Inv_perm; [|exact Hi]. f_equiv.
    clear. induction eads as [|x l IH]; [done|]. rewrite filter_cons_True by set_solver. by rewrite <- IH. }
  unfold mbind, SM_bind, run_var. destruct (walk (s, ∅)) as [[s1 X1] [[]|e| |]] eqn:Ew; cbn [fst snd] in *; try done;
    by exists s1, (filter (fun x => x ∉ X1) eads).
Qed.

(** ** Writing the nodes of the new tree *)
Section NewTree.
Context (live alloc : list Z) (s0 : St) (Halloc : forall x, x ∈ alloc -> x ∈ live).

(** [out] has been written, with pointers into [alloc]; the rest is as in [s0]. *)
Definition stored (out : list Z) (s : St) : Prop :=
  Inv s live /\ (forall x, x ∈ live -> x ∉ out -> rn s x = rn s0 x) /\ (forall x, x ∈ out -> x ∈ alloc) /\
  forall x buf, x ∈ out -> rn s x = Ok buf -> kids_in (fun y => y ∈ alloc) buf.

Lemma write_node_spec s out a node :
  stored out s -> a ∈ alloc -> blen node = NS -> kids_in (fun y => y ∈ alloc) node ->
  exists s', write_node partOff sb a node s = (s', Ok tt) /\ stored (a :: out) s'.
Proof using HL RWL Hflat Halloc.
  intros (Hi&Hold&Hsub&Hcl) Ha Hb Hk. pose proof (Halloc a Ha) as Hla.
  destruct (Inv_live_nonzero partOff sb dv Hflat s live a Hi Hla) as [_ Hm].
  destruct (mapped_addr partOff sb Hflat a Hm) as (Hpl&_&Hab&Hpa&_).
  destruct (m_write_spec partOff sb dv Hflat s live a node Hi Hla Hb) as (s'&Ew&Hi'&_&Hr'&Hsame).
  exists s'. unfold write_node. rewrite Hpl, (i64_small a), i64_small by (destruct Hflat as (_&?&_); lia).
  split; [done|]. split_and!; [done| | |].
  - intros x Hx Hnd. apply not_elem_of_cons in Hnd as [Hxa Hxd]. rewrite Hsame by done. by apply Hold.
  - intros x Hx. apply elem_of_cons in Hx as [->|Hx]; [done|by apply Hsub].
  - intros x buf Hx Er. destruct (decide (x = a)) as [->|Hne]; [rewrite Hr' in Er; by injection Er as <-|].
    apply elem_of_cons in Hx as [->|Hx]; [done|]. rewrite Hsame in Er by auto. by eapply Hcl.
Qed.

Context (tpl : bytes) (Htpl : nodeHdrSize <= blen tpl).

(** Failures leave the nodes that are not being written. *)
Abbreviation stored_err E := (forall e out s, stored out s -> E e s).

Lemma write_leaves_spec recs ranges leafLogs out s (Q : list key -> St -> Prop) (E : error -> St -> Prop) :
  stored out s -> Forall (fun r : rec => key_ok r.1) recs -> length ranges = length leafLogs ->
  Forall (fun r => range_recs recs r <> []) ranges -> (forall a, a ∈ leafLogs -> a ∈ alloc) ->
  (forall keys s' out', stored out' s' -> Forall key_ok keys -> length keys = length leafLogs ->
     (forall x, x ∈ out' <-> x ∈ leafLogs \/ x ∈ out) -> Q keys s') ->
  stored_err E -> wp X (write_leaves partOff sb tpl recs ranges leafLogs) s Q E.
Proof using HL RWL Hflat Halloc Htpl.
  intros Hst Hk Hlen Hne Hin HQ HE. pose proof (NS_bounds _ _ Hflat) as Hns.
  revert leafLogs out s Hst Hlen Hin Q HQ. induction Hne as [|r ranges Hr Hne IH]; intros [|a leafLogs] out s Hst Hlen Hin Q HQ;
    cbn [write_leaves length] in *; try done.
  { apply wp_ret, (HQ [] s out); try done. intros x. rewrite elem_of_nil. tauto. }
  destruct r as [lo hi]. change (take (Z.to_nat (hi - lo)) (drop (Z.to_nat lo) recs)) with (range_recs recs (lo, hi)).
  set (here := range_recs recs (lo, hi)) in *.
  assert (Hh : Forall (fun r : rec => key_ok r.1) here) by (apply Forall_take, Forall_drop; done).
  pose proof (extent_leaf_spec sb Hns tpl a here Htpl Hh) as Hlf. apply wp_bind, wp_lift.
  destruct (extent_leaf sb tpl a here) as [leaf|e| |]; try done; [|by eapply HE]. destruct Hlf as [Lb Hl0].
  destruct (write_node_spec s out a leaf Hst (Hin a ltac:(by left)) Lb) as (s1&Ew&Hst1); [by intros ?|].
  apply wp_bind. eapply wp_eq; [exact Ew|]. destruct here as [|r0 here']; [done|]. apply wp_bind, wp_lift, wp_bind.
  apply Forall_cons in Hh as [Hk0 _]. eapply (IH leafLogs (a :: out) s1); [done|by injection Hlen|intros x Hx; apply Hin; by right|].
  intros keys s2 out' Hst2 Hks Hl Hd. apply wp_ret, (HQ _ _ out'); [done|by constructor|cbn; lia|].
  intros x. rewrite Hd, !elem_of_cons. tauto.
Qed.

Lemma write_level_spec level nodeLogs children out s (Q : list (key * Z) -> St -> Prop) (E : error -> St -> Prop) :
  stored out s -> 0 <= level < 2 ^ 8 -> Forall ptr_ok children -> Forall (fun p => p.2 ∈ alloc) children ->
  Z.of_nat (length nodeLogs) <= Z.of_nat (length children) <= Z.of_nat (length nodeLogs) * internalCapacity sb ->
  (forall a, a ∈ nodeLogs -> a ∈ alloc) -> (forall x, x ∈ alloc -> is_u64 x) ->
  (forall l s' out', stored out' s' -> Forall ptr_ok l -> map snd l = nodeLogs ->
     (forall x, x ∈ out' <-> x ∈ nodeLogs \/ x ∈ out) -> Q l s') ->
  stored_err E -> wp X (write_level partOff sb tpl level nodeLogs children) s Q E.
Proof using HL RWL Hflat Halloc Htpl.
  intros Hst Hlv Hp Hal Hlen Hin Hu HQ HE. pose proof (NS_bounds _ _ Hflat) as Hns.
  revert children out s Hst Hp Hal Hlen Q HQ. induction nodeLogs as [|a nodeLogs IH]; intros children out s Hst Hp Hal Hlen Q HQ;
    cbn [write_level length] in *.
  { apply wp_ret, (HQ [] s out); try done. intros x. rewrite elem_of_nil. tauto. }
  set (N := Z.of_nat (length nodeLogs)) in *. set (C := Z.of_nat (length children)) in *.
  pose proof (Z.mul_div_le (C + (N + 1) - 1) (N + 1) ltac:(lia)) as D1.
  pose proof (Z.mul_succ_div_gt (C + (N + 1) - 1) (N + 1) ltac:(lia)) as D2.
  set (per := (C + (N + 1) - 1) / (N + 1)) in *. set (icap := internalCapacity sb) in *.
  assert (Hper : 1 <= per <= icap) by nia. assert (Hrest : N <= C - per <= N * icap) by nia. assert (Hpc : per <= C) by lia.
  destruct children as [|c0 children'] eqn:Ec; [cbn in *; lia|].
  assert (HC : Z.of_nat (length children) = C) by (unfold C; by rewrite Ec). rewrite <- Ec in *.
  assert (Hc0 : key_ok c0.1) by (rewrite Ec in Hp; by apply Forall_cons in Hp as [[? _] _]).
  apply wp_bind. eapply wp_lift_ok; [by rewrite Ec|]. apply wp_bind.
  destruct (interior_node_spec sb Hns tpl level a (take (Z.to_nat per) children) Htpl Hlv) as (node&En&Lb&Hk);
    [by apply Forall_take|rewrite length_take; fold icap; lia|].
  eapply wp_lift_ok; [exact En|]. apply wp_bind.
  destruct (write_node_spec s out a node Hst (Hin a ltac:(by left)) Lb) as (s1&Ew&Hst1).
  { intros Hl0 l El. eapply Forall_impl; [by apply (Hk Hl0)|]. cbn. intros x [->|Hx]; [by left|right].
    apply list_elem_of_fmap in Hx as (p&->&Hp'). rewrite Forall_forall in Hal. apply Hal.
    apply elem_of_take in Hp' as (i&Ei&_). by eapply list_elem_of_lookup_2. }
  eapply wp_eq; [exact Ew|]. apply wp_bind.
  eapply (IH ltac:(intros x Hx; apply Hin; by right) (drop (Z.to_nat per) children) (a :: out) s1);
    [done|by apply Forall_drop|by apply Forall_drop|rewrite length_drop; lia|].
  intros l s2 out' Hst2 Hl El Hd. apply wp_ret, (HQ _ _ out'); [done| |cbn; by rewrite El|].
  - constructor; [|done]. split; [done|]. apply Hu, Hin. by left.
  - intros x. rewrite Hd, !elem_of_cons. tauto.
Qed.

Lemma write_levels_spec lvl interiorLogs levels children out s (Q : unit -> St -> Prop) (E : error -> St -> Prop) :
  stored out s -> Forall ptr_ok children -> Forall (fun p => p.2 ∈ alloc) children ->
  Forall2 (fun (l : list Z) n => Z.of_nat (length l) = n) interiorLogs levels ->
  shaped (internalCapacity sb) (Z.of_nat (length children)) levels ->
  (forall a, a ∈ concat interiorLogs -> a ∈ alloc) -> (forall x, x ∈ alloc -> is_u64 x) ->
  (forall s' out', stored out' s' -> (forall x, x ∈ out' <-> x ∈ concat interiorLogs \/ x ∈ out) -> Q tt s') ->
  stored_err E -> wp X (write_levels partOff sb tpl lvl interiorLogs levels children) s Q E.
Proof using HL RWL Hflat Halloc Htpl.
  intros Hst Hp Hal Hlen. revert lvl children out s Hst Hp Hal Q.
  induction Hlen as [|l n ls levels Hl _ IH]; intros lvl children out s Hst Hp Hal Q Hsh Hin Hu HQ HE; cbn [write_levels].
  { apply wp_ret, (HQ s out); [done|]. intros x. cbn. rewrite elem_of_nil. tauto. }
  rewrite Hl, Z.eqb_refl. cbn [negb]. destruct Hsh as (H1&H2&Hsh). cbn [concat] in *. apply wp_bind.
  eapply (write_level_spec _ l children out s);
    [done|apply Z.mod_pos_bound; lia|done|done|rewrite Hl; lia|intros a Ha; apply Hin; mem_tac|done| |done].
  intros l' s1 out1 Hst1 Hp1 Es Hd1. eapply (IH (lvl + 1) l' out1 s1); [done|done| | |intros a Ha; apply Hin; mem_tac|done| |done].
  - apply Forall_forall. intros p Hpl. apply Hin, elem_of_app. left. rewrite <- Es. by apply list_elem_of_fmap_2.
  - rewrite <- (length_map snd), Es, Hl. done.
  - intros s2 out2 Hst2 Hd2. apply (HQ s2 out2); [done|]. intros x. rewrite Hd2, Hd1, elem_of_app. tauto.
Qed.

(** A layout that fits its allocation. *)
Definition lay_ok (lay : extentLayout) : Prop :=
  el_allocated lay = el_leafLogs lay ++ concat (el_interiorLogs lay) /\ el_leafLogs lay <> [] /\
  Forall (fun r : rec => key_ok r.1) (el_recs lay) /\ el_recs lay <> [] /\
  el_ranges lay = partitionLeaves (el_recs lay) (leafCapacity sb) /\
  Forall2 (fun (l : list Z) n => Z.of_nat (length l) = n) (el_interiorLogs lay) (el_levels lay) /\
  shaped (internalCapacity sb) (Z.of_nat (length (el_leafLogs lay))) (el_levels lay).

Lemma writeMultiLevelTree_spec lay s (Q : unit -> St -> Prop) (E : error -> St -> Prop) :
  lay_ok lay -> el_allocated lay = alloc -> stored [] s -> (forall x, x ∈ alloc -> is_u64 x) ->
  (forall s' out', stored out' s' -> (forall x, x ∈ out' <-> x ∈ alloc) -> Q tt s') ->
  stored_err E -> wp X (writeMultiLevelTree partOff sb tpl lay) s Q E.
Proof using HL RWL Hflat Halloc Htpl.
  intros (Ea&_&Hk&_&Er&Hf2&Hsh) Eal Hst Hu HQ HE. rewrite Ea in Eal. unfold writeMultiLevelTree.
  destruct (Z.eqb_spec (Z.of_nat (length (el_ranges lay))) (Z.of_nat (length (el_leafLogs lay)))) as [El|]; cbn [negb];
    [|apply wp_fail; by eapply HE].
  apply wp_bind. eapply (write_leaves_spec _ _ _ [] s); [done|done|lia| | | |done].
  - rewrite Er. apply partition_nonempty.
  - intros a Ha. rewrite <- Eal. mem_tac.
  - intros keys s1 out1 Hst1 Hks Hlk Hd1.
    assert (Hlc : length (combine keys (el_leafLogs lay)) = length (el_leafLogs lay)) by (rewrite length_combine; lia).
    assert (Hin2 : forall p, p ∈ combine keys (el_leafLogs lay) -> p.1 ∈ keys /\ p.2 ∈ el_leafLogs lay).
    { intros [k a] Hp. apply list_elem_of_In in Hp. split; apply list_elem_of_In; [by eapply in_combine_l|by eapply in_combine_r]. }
    eapply (write_levels_spec _ _ _ _ out1 s1); [done| | |done|by rewrite Hlc|intros a Ha; rewrite <- Eal; mem_tac|done| |done].
    + apply Forall_forall. intros p Hp. destruct (Hin2 p Hp) as [H1 H2]. rewrite Forall_forall in Hks.
      split; [by apply Hks|]. apply Hu. rewrite <- Eal. mem_tac.
    + apply Forall_forall. intros p Hp. destruct (Hin2 p Hp) as [_ H2]. rewrite <- Eal. mem_tac.
    + intros s2 out2 Hst2 Hd2. apply (HQ s2 out2); [done|]. intros x. rewrite Hd2, Hd1, <- Eal, elem_of_app, elem_of_nil. tauto.
Qed.
End NewTree.

(** ** The layout loop *)
Lemma live_is_u64 s live a : Inv s live -> a ∈ live -> is_u64 a.
Proof using Hflat. clear X. intros Hi Ha. by apply (live_u64 partOff sb dv Hflat s live a). Qed.

Lemma icap_2 : 2 <= internalCapacity sb.
Proof using Hflat.
  clear X. pose proof (NS_bounds _ _ Hflat) as Hns. unfold internalCapacity. rewrite Z.quot_div_nonneg by hdr_lia.
  apply Z.div_le_lower_bound; hdr_lia.
Qed.

Lemma level_blocks_ok lvl ls : Forall (fun a => is_u64 a) (concat ls) ->
  Forall (fun b : Z * Z => is_u64 b.1 /\ 0 <= b.2 < 2 ^ 8) (level_blocks lvl ls).
Proof using.
  clear. revert lvl. induction ls as [|l ls IH]; intros lvl Hl; cbn [level_blocks concat] in *; [constructor|].
  apply Forall_app in Hl as [H1 H2]. apply Forall_app. split; [|by apply IH]. apply Forall_map.
  eapply Forall_impl; [exact H1|]. intros a Ha. cbn. split; [done|]. unfold u8. apply Z.mod_pos_bound. lia.
Qed.

Lemma tryExtentLayout_spec inp blockCount s live (Q : extentLayout -> St -> Prop) (E : error -> St -> Prop) :
  Inv s live -> 1 <= blockCount -> Forall (fun r : rec => key_ok r.1) (ml_baseRecs inp) ->
  (forall lay s', Inv s' (el_allocated lay ++ live) -> st_dev s' = st_dev s -> lay_ok lay -> Q lay s') ->
  (forall e l s', Inv s' (l ++ live) -> st_dev s' = st_dev s -> E e s') ->
  wp X (tryExtentLayout sb inp blockCount) s Q E.
Proof using HL RWL Hflat.
  intros Hi Hb Hk HQ HE. unfold tryExtentLayout. pose proof icap_2 as Hc.
  pose proof (leaf_count_pos (Z.to_nat blockCount) blockCount (internalCapacity sb) Hb) as Hn.
  set (n := leaf_count _ _ _) in *. pose proof (shape_loop_shaped (Z.to_nat n) n (internalCapacity sb) Hc ltac:(lia)) as Hsh.
  unfold interiorShape. set (levels := shape_loop _ _ _) in *. cbv beta iota. apply wp_bind.
  apply (alloc_nodes_spec _ s live); [done| |done]. intros leafLogs s1 Hi1 Hd1 Hl1. apply wp_bind.
  apply (alloc_levels_spec levels s1 (leafLogs ++ live)); [done|by eapply shaped_nonneg| |].
  2: { intros e l s2 Hi2 Hd2. apply (HE e (l ++ leafLogs)); [by rewrite <- app_assoc|congruence]. }
  intros ls s2 Hi2 Hd2 Hls. apply wp_ret. apply HQ; cbn [el_allocated].
  { eapply Inv_perm; [|exact Hi2]. perm_tac. }
  { congruence. }
  assert (Hu : Forall is_u64 (leafLogs ++ concat ls)).
  { apply Forall_forall. intros a Ha. apply (live_is_u64 s2 _ a Hi2). mem_tac. }
  apply Forall_app in Hu as [Hu1 Hu2].
  set (blocks := map (fun a => (a, 0)) leafLogs ++ level_blocks 1 ls).
  assert (Hbl : Forall (fun b : Z * Z => is_u64 b.1 /\ 0 <= b.2 < 2 ^ 8) blocks).
  { apply Forall_app. split; [|by apply level_blocks_ok]. apply Forall_map. eapply Forall_impl; [exact Hu1|]. intros a Ha. cbn. split; [done|lia]. }
  assert (Hne : leafLogs <> []) by (intros ->; cbn in Hl1; lia).
  split_and!; cbn [el_allocated el_leafLogs el_recs el_ranges el_interiorLogs el_levels]; try done.
  - rewrite sort_recs_perm. apply Forall_app. split; [done|]. apply Forall_app. split.
    + apply Forall_map. eapply Forall_impl; [exact Hbl|]. intros b [H1 H2]. unfold key_ok, is_u64 in *. cbn.
      unfold typeMetadataItem. lia.
    + apply group_recs_ok. by destruct Hflat as (_&_&?&_).
  - intros E0. apply (f_equal length) in E0. rewrite (Permutation_length (sort_recs_perm _)), !length_app, length_map in E0.
    unfold blocks in E0. rewrite length_app, length_map in E0. cbn in E0. lia.
  - rewrite Hl1, Z2Nat.id by lia. done.
Qed.

Lemma interior_total_nonneg n : 0 <= (interiorShape n (internalCapacity sb)).1.2.
Proof using Hflat.
  clear X. cbn. apply sumZ_nonneg. eapply (shaped_nonneg _ (Z.max n 0)).
  destruct (Z_le_gt_dec 0 n); [rewrite Z.max_l by lia; apply shape_loop_shaped; [apply icap_2|lia]|].
  replace (Z.to_nat n) with O by lia. cbn. lia.
Qed.

Lemma layout_loop_spec iter inp blockCount s live (Q : extentLayout -> St -> Prop) (E : error -> St -> Prop) :
  Inv s live -> 1 <= blockCount -> Forall (fun r : rec => key_ok r.1) (ml_baseRecs inp) ->
  (forall lay s', Inv s' (el_allocated lay ++ live) -> st_dev s' = st_dev s -> lay_ok lay -> Q lay s') ->
  (forall e l s', Inv s' (l ++ live) -> st_dev s' = st_dev s -> E e s') ->
  wp X (layout_loop sb iter inp blockCount) s Q E.
Proof using HL RWL Hflat.
  intros Hi Hb Hk HQ HE. revert s blockCount Hi Hb HQ HE. induction iter as [|iter IH]; intros s bc Hi Hb HQ HE; cbn [layout_loop].
  { apply wp_fail. by apply (HE _ []). }
  apply wp_bind, (tryExtentLayout_spec inp bc s live); [done|done|done| |done]. intros lay s1 Hi1 Hd1 Hok.
  case_if; [apply wp_ret; by apply HQ|]. apply wp_bind.
  destruct (free_all_spec partOff sb dv Hflat s1 (el_allocated lay) live Hi1) as (s2&Ef&Hi2&Hd2).
  eapply wp_eq; [exact Ef|]. apply IH; [done| | |].
  - pose proof (interior_total_nonneg (Z.of_nat (length (el_ranges lay)))).
    assert (length (el_ranges lay) <> 0%nat); [|lia].
    destruct Hok as (_&_&_&Hne&->&_). destruct (partition_nonempty (el_recs lay) (leafCapacity sb)) as [_ Hp].
    specialize (Hp Hne). by destruct (partitionLeaves _ _).
  - intros lay' s3 Hi3 Hd3. apply HQ; [done|congruence].
  - intros e l s3 Hi3 Hd3. apply (HE e l); [done|congruence].
Qed.

(** ** The two ways the rebuild ends *)
Lemma closed_agree rn1 rn2 l : closed rn1 l -> (forall x, x ∈ l -> rn2 x = rn1 x) -> closed rn2 l.
Proof using. clear. intros Hc Hs a buf Ha Er. eapply Hc; [done|]. by rewrite <- Hs. Qed.

Section Ends.
Context (h : nat) (ads keep : list Z) (Hh : Z.of_nat h <= maxBtreeDepth).

(** Success: the root tree changed in one item, which names the root of the new
    extent tree, and the nodes of [keep] are as they were. *)
Definition rebuilt (s : St) (c : list rec) (s' : St) : Prop :=
  exists eads left c', root_tree h ads (eads ++ left ++ keep) s' c' /\ closed (rn s') eads /\ kept keep s s' /\
    (forall k, k <> extRootKey -> leaf_map c' !! k = leaf_map c !! k) /\
    forall r, root_at c' extentTreeObjID r -> r ∈ eads.
Definition broken (s s' : St) : Prop := exists left, Inv s' (left ++ keep) /\ kept keep s s'.

Lemma root_edited_rebuilt s0 s1 c d' s eads left :
  root_edited h ads (eads ++ left ++ keep) s1 c d' s -> closed (rn s1) eads -> kept keep s0 s1 ->
  rd 8 d' rootItemOffBytenr ∈ eads -> rebuilt s0 c s.
Proof using.
  clear X. intros (c'&Hrt&Em&Hk&_) Hc Hk1 Hr. exists eads, left, c'. split_and!; [done| | | |].
  - eapply closed_agree; [exact Hc|]. intros x Hx. apply Hk. mem_tac.
  - eapply kept_trans; [exact Hk1|]. eapply kept_sub; [exact Hk|]. intros x Hx. mem_tac.
  - intros k Hk'. by rewrite Em, lookup_insert_ne.
  - intros r (d&Ed&_&<-). rewrite Em, lookup_insert_eq in Ed. by injection Ed as <-.
Qed.

Lemma rebuilt_super s0 c s used (Q : unit -> St -> Prop) (E : error -> St -> Prop) :
  rebuilt s0 c s -> (forall s', rebuilt s0 c s' -> Q tt s') -> (forall e s', broken s0 s' -> E e s') ->
  wp X (updateSuperBytesUsed partOff used) s Q E.
Proof using HL RWL Hflat Hheld Hroom Harea.
  intros (eads&left&c'&(Hw&Hne&Hi)&Hcl&Hk&Hm&Hr) HQ HE.
  apply (updateSuperBytesUsed_spec s (ads ++ eads ++ left ++ keep)); [done| |].
  - intros s' Hi' Hk'. apply HQ. exists eads, left, c'. split_and!; try done.
    + split_and!; try done. eapply wtree_agree; [exact Hw|]. intros x Hx. apply Hk'. mem_tac.
    + eapply closed_agree; [exact Hcl|]. intros x Hx. apply Hk'. mem_tac.
    + eapply kept_trans; [exact Hk|]. eapply kept_sub; [exact Hk'|]. intros x Hx. mem_tac.
  - intros e. apply HE. exists (ads ++ eads ++ left). split; [|done]. by rewrite <- !app_assoc.
Qed.

(** ** The multi-level tree *)
Lemma interiorRootLog_in lay :
  lay_ok lay -> exists a, interiorRootLog (el_leafLogs lay) (el_interiorLogs lay) = Ok a /\ a ∈ el_allocated lay.
Proof using.
  clear. intros (->&Hne&_&_&_&Hf2&Hsh). unfold interiorRootLog. destruct (last (el_interiorLogs lay)) as [top|] eqn:El.
  - apply last_Some in El as [pre El]. rewrite El in *. apply Forall2_app_inv_l in Hf2 as (l1&l2&_&H2&Elv).
    apply Forall2_cons_inv_l in H2 as (n&l3&Hn&_&->).
    assert (Hpos : 1 <= n).
    { rewrite Elv in Hsh. revert Hsh. generalize (Z.of_nat (length (el_leafLogs lay))). clear. induction l1 as [|m l1 IH]; intros x; cbn.
      - lia.
      - intros (_&_&Hs). by eapply IH. }
    destruct top as [|a top]; [cbn in Hn; lia|]. exists a. split; [done|]. rewrite concat_app. cbn. mem_tac.
  - destruct (el_leafLogs lay) as [|a l]; [done|]. exists a. split; [done|]. mem_tac.
Qed.

Lemma broken_refl s left : Inv s (left ++ keep) -> broken s s.
Proof using. clear X. intros Hi. by exists left. Qed.

Lemma write_new_tree tpl s0 s c lay left (Q : unit -> St -> Prop) (E : error -> St -> Prop) :
  nodeHdrSize <= blen tpl -> lay_ok lay -> wtree False (rn s) h (sb_rootLogAddr sb) c ads -> Forall (fun r => r.2 <> []) c ->
  Inv s (el_allocated lay ++ ads ++ left ++ keep) -> kept keep s0 s ->
  (forall s', root_tree h ads (el_allocated lay ++ left ++ keep) s' c -> closed (rn s') (el_allocated lay) ->
     kept keep s0 s' -> Q tt s') ->
  (forall e s', broken s0 s' -> E e s') ->
  wp X (writeMultiLevelTree partOff sb tpl lay) s Q E.
Proof using HL RWL Hflat.
  intros Ht Hok Hw Hne Hi Hk HQ HE. set (alloc := el_allocated lay) in *. set (live := alloc ++ ads ++ left ++ keep) in *.
  pose proof Hi as (_&_&_&_&Hnd&_). apply NoDup_app in Hnd as (_&Hdj&_).
  assert (Hout : forall s' out, stored live alloc s out s' -> kept (ads ++ left ++ keep) s s').
  { intros s' out (_&Hs&Hsub&_) x Hx. apply Hs; [unfold live; mem_tac|]. intros Hxo. by apply (Hdj x (Hsub x Hxo)). }
  apply (writeMultiLevelTree_spec live alloc s ltac:(intros x Hx; unfold live; mem_tac) tpl Ht lay s); [done|done| | | |].
  - split_and!; [done|done|by intros x ?%not_elem_of_nil|by intros x buf ?%not_elem_of_nil].
  - intros x Hx. apply (live_is_u64 s live x Hi). unfold live. mem_tac.
  - intros s' out Hst Hd. pose proof (Hout s' out Hst) as Hk'. destruct Hst as (Hi'&_&_&Hcl). apply HQ.
    + split_and!; [|done|].
      * eapply wtree_agree; [exact Hw|]. intros x Hx. apply Hk'. mem_tac.
      * eapply Inv_perm; [|exact Hi']. unfold live. perm_tac.
    + intros a buf Ha. apply Hcl. by apply Hd.
    + eapply kept_trans; [exact Hk|]. eapply kept_sub; [exact Hk'|]. intros x Hx. mem_tac.
  - intros e out s' Hst. apply HE. exists (alloc ++ ads ++ left). split.
    + destruct Hst as [Hi' _]. unfold live in Hi'. by rewrite <- !app_assoc.
    + eapply kept_trans; [exact Hk|]. eapply kept_sub; [by eapply Hout|]. intros x Hx. mem_tac.
Qed.

Lemma buildMultiLevel_spec inp s c eads r' (Q : unit -> St -> Prop) (E : error -> St -> Prop) :
  root_tree h ads (eads ++ keep) s c -> closed (rn s) eads -> ml_oldExtRoot inp ∈ eads ->
  root_at c extentTreeObjID r' -> Forall (fun r : rec => key_ok r.1) (ml_baseRecs inp) ->
  nodeHdrSize <= blen (ml_hdrTemplate inp) ->
  (forall s', rebuilt s c s' -> Q tt s') -> (forall e s', broken s s' -> E e s') ->
  wp X (buildMultiLevelExtentTree partOff sb inp) s Q E.
Proof using HL RWL Hflat Hheld Hroom Harea Hh.
  intros (Hw&Hne&Hi) Hcl Hroot Hat Hk Htpl HQ HE. unfold buildMultiLevelExtentTree. pose proof icap_2 as Hc2.
  rewrite (proj2 (Z.ltb_ge _ _)) by lia. apply wp_bind.
  assert (Hfree : exists s1 left, (if ml_oldExtSafe inp then free_old_tree partOff sb (ml_oldExtRoot inp) else mret tt) s = (s1, Ok tt) /\
    st_dev s1 = st_dev s /\ Inv s1 (ads ++ left ++ keep)).
  { destruct (ml_oldExtSafe inp).
    - destruct (free_old_tree_spec s (ml_oldExtRoot inp) eads (ads ++ keep)) as (s1&left&E1&Hd1&Hi1);
        [eapply Inv_perm; [|exact Hi]; perm_tac|done|done|].
      exists s1, left. split_and!; [done|done|]. eapply Inv_perm; [|exact Hi1]. perm_tac.
    - by exists s, eads. }
  destruct Hfree as (s1&left&E1&Hd1&Hi1). eapply wp_eq; [exact E1|]. apply wp_bind.
  apply (layout_loop_spec 64 inp 1 s1 (ads ++ left ++ keep)); [done|lia|done| |].
  2: { intros e l s2 Hi2 Hd2. apply HE. exists (l ++ ads ++ left). split; [by rewrite <- !app_assoc|].
       apply kept_dev. congruence. }
  intros lay s2 Hi2 Hd2 Hok. apply wp_bind.
  apply (write_new_tree _ s s2 c lay left); [done|done| |done|done|apply kept_dev; congruence| |done].
  { eapply wtree_agree; [exact Hw|]. intros x _. unfold Store.rn. by rewrite Hd2, Hd1. }
  intros s3 Hrt3 Hcl3 Hk3. apply wp_bind. destruct (interiorRootLog_in lay Hok) as (root&Er&Hrin).
  eapply wp_lift_ok; [exact Er|]. apply wp_bind.
  assert (Hbr : broken s s3).
  { exists (ads ++ el_allocated lay ++ left). destruct Hrt3 as (_&_&Hi3). split; [by rewrite <- !app_assoc|done]. }
  apply (repointExtentRoot_spec h ads (el_allocated lay ++ left ++ keep) Hh s3 c root _ r'); [done|done| | |].
  - destruct Hrt3 as (_&_&Hi3). apply (live_is_u64 s3 _ root Hi3). mem_tac.
  - intros s4 (d'&Hed&Hrd). apply (rebuilt_super s c s4); [|done|done].
    eapply root_edited_rebuilt; [exact Hed|done|done|]. by rewrite Hrd.
  - intros e. by apply HE.
Qed.

(** ** The rebuild *)
Lemma extent_leaf_buffer_spec s c others extRoot (Q : bytes * bool -> St -> Prop) (E : error -> St -> Prop) :
  root_tree h ads others s c -> extRoot ∈ ads ++ others ->
  (forall leaf safe, blen leaf = NS -> Q (leaf, safe) s) ->
  wp X (extent_leaf_buffer partOff sb extRoot) s Q E.
Proof using HL RWL Hflat.
  intros (Hw&_&Hi) Hin HQ. pose proof (NS_bounds _ _ Hflat) as Hns.
  destruct (Inv_live_nonzero partOff sb dv Hflat s _ extRoot Hi Hin) as [_ Hm].
  destruct (mapped_addr partOff sb Hflat extRoot Hm) as (_&_&_&_&Hphys). unfold extent_leaf_buffer.
  set (rd0 := phys ← sm_lift (physAddr sb partOff extRoot); dev_ReadAt phys NS).
  assert (Er : rd0 s = (s, rn s extRoot)).
  { unfold rd0. erewrite sm_lift_Ok by exact Hphys. unfold dev_ReadAt. by rewrite (rn_read partOff sb Hflat) by done. }
  apply wp_bind. unfold wp at 1, sm_try. rewrite Er.
  pose proof (node_fills partOff sb Hflat s extRoot) as Hf. pose proof (rn_blen partOff sb Hflat s extRoot) as Hb.
  destruct (rn s extRoot) as [leaf|e| |]; try done; [apply wp_ret, HQ; by apply Hb|].
  destruct (wtree_head _ _ _ _ _ _ Hw) as [rest Ea].
  destruct (subtree_level _ _ _ _ _ (wtree_subtree _ _ _ _ _ _ Hw)) as (src&Es&_&Hs).
  apply wp_bind. unfold extentHeaderTemplate. apply wp_bind. eapply wp_eq; [unfold node_read; fold (rn s (sb_rootLogAddr sb)); by rewrite Es|].
  apply wp_bind. eapply wp_lift_ok; [apply slice_Ok; hdr_lia|]. rewrite Z.sub_0_r.
  assert (Lh : blen (sub src 0 nodeHdrSize) = nodeHdrSize) by (apply blen_sub; hdr_lia).
  assert (Lz : blen (zeros NS) = NS) by (apply blen_zeros; hdr_lia).
  apply wp_bind. eapply wp_lift_ok; [apply copy_at_Ok; rewrite ?Lh, ?Lz; hdr_lia|].
  assert (L0 : blen (splice (zeros NS) 0 (sub src 0 nodeHdrSize)) = NS) by (rewrite blen_splice; rewrite ?Lh, ?Lz; hdr_lia).
  eapply wp_lift_ok; [apply put_le_Ok; hdr_lia|]. apply wp_ret, HQ. rewrite blen_wr; hdr_lia.
Qed.

Lemma single_leaf_spec s c eads extRoot leaf recs' used (Q : unit -> St -> Prop) (E : error -> St -> Prop) :
  root_tree h ads (eads ++ keep) s c -> extRoot ∈ eads -> root_at c extentTreeObjID extRoot ->
  blen leaf = NS -> leaf_repr leaf recs' ->
  (forall s', rebuilt s c s' -> Q tt s') -> (forall e s', broken s s' -> E e s') ->
  wp X (phys ← sm_lift (physAddr sb partOff extRoot); leaf ← sm_lift (updateNodeCRC leaf); _ ← m_write phys leaf;
        _ ← updateExtentRootGeneration partOff sb extRoot; updateSuperBytesUsed partOff used) s Q E.
Proof using HL RWL Hflat Hheld Hroom Harea Hh.
  intros (Hw&Hne&Hi) Hin Hat Lb Hl HQ HE. assert (Hlive : extRoot ∈ ads ++ eads ++ keep) by mem_tac.
  destruct (Inv_live_nonzero partOff sb dv Hflat s _ extRoot Hi Hlive) as [_ Hm].
  destruct (mapped_addr partOff sb Hflat extRoot Hm) as (_&_&Hab&_&Hphys).
  apply wp_bind. eapply wp_lift_ok; [exact Hphys|]. destruct (crc_leaf leaf recs' Hl) as (leaf'&Ec&L'&Hl').
  apply wp_bind. eapply wp_lift_ok; [exact Ec|]. apply wp_bind.
  destruct (m_write_spec partOff sb dv Hflat s _ extRoot leaf' Hi Hlive ltac:(congruence)) as (s1&Ew&Hi1&_&Hr1&Hsame).
  eapply wp_eq; [exact Ew|]. apply list_elem_of_split in Hin as (l1&l2&->).
  assert (Hd : (extRoot ∉ ads) /\ (extRoot ∉ keep)).
  { pose proof Hi as (_&_&_&_&Hnd&_). apply NoDup_app in Hnd as (_&H1&Hnd). apply NoDup_app in Hnd as (_&H2&_).
    split; [by intros Hx; apply (H1 _ Hx); mem_tac|apply H2; mem_tac]. }
  assert (Hrt : root_tree h ads ([extRoot] ++ (l1 ++ l2) ++ keep) s1 c).
  { split_and!; [|done|eapply Inv_perm; [|exact Hi1]; perm_tac].
    eapply wtree_agree; [exact Hw|]. intros x Hx. apply Hsame; [mem_tac|]. intros ->. by destruct Hd. }
  apply wp_bind, (updateExtentRootGeneration_spec h ads ([extRoot] ++ (l1 ++ l2) ++ keep) Hh s1 c extRoot extRoot); [exact Hrt|done|unfold is_u64; lia|].
  intros s2 (d'&Hed&Hrd). apply (rebuilt_super s c s2); [|done|done].
  eapply (root_edited_rebuilt s s1 c d' s2 [extRoot] (l1 ++ l2)); [exact Hed| | |by rewrite Hrd; left].
  - intros a buf Ha Er. apply list_elem_of_singleton in Ha as ->. rewrite Hr1 in Er. injection Er as <-. intros Hl0. exfalso.
    apply Hl0. apply Hl'.
  - intros x Hx. apply Hsame; [mem_tac|]. intros ->. by destruct Hd.
Qed.

Context (pan : Prop).
Lemma rebuild_with_spec s c eads extRoot (Q : unit -> St -> Prop) (E : error -> St -> Prop) :
  root_tree h ads (eads ++ keep) s c -> closed (rn s) eads -> extRoot ∈ eads -> root_at c extentTreeObjID extRoot ->
  is_u64 (sb_chunkLogAddr sb) ->
  (forall o r, o = fsTreeObjID \/ o = dataRelocTreeObjID -> root_at c o r -> r <> 0 ->
     exists P, P r /\ scan_ok partOff sb s pan P) -> (pan -> X s) ->
  (forall s', rebuilt s c s' -> Q tt s') -> (forall e s', broken s s' -> E e s') ->
  wp X (rebuild_with partOff sb extRoot) s Q E.
Proof using HL RWL Hflat Hheld Hroom Harea Hh.
  intros Hrt Hcl Hin Hat Hcu Hscan HX HQ HE. pose proof Hrt as (Hw&Hne&Hi). pose proof (NS_bounds _ _ Hflat) as Hns.
  assert (Hbr : broken s s) by (exists (ads ++ eads); split; [by rewrite <- app_assoc|done]).
  assert (Hru : is_u64 (sb_rootLogAddr sb)).
  { destruct (wtree_head _ _ _ _ _ _ Hw) as [rest Ea]. apply (live_is_u64 s _ _ Hi). rewrite Ea. cbn. by left. }
  unfold rebuild_with. apply wp_bind. eapply wp_upto; [by apply (collect_blocks_upto partOff sb Hflat s pan)|done| |intros e; by apply HE].
  intros blocks Hbl. apply wp_bind. eapply wp_upto;
    [by apply (collectDataExtents_upto partOff sb Hflat s pan h c ads Hw Hh)|done| |intros e; by apply HE].
  intros exts Hex. cbv zeta. apply wp_bind.
  apply (extent_leaf_buffer_spec s c (eads ++ keep) extRoot); [done|mem_tac|]. intros leaf0 safe L0.
  destruct (reset_leaf leaf0 (next_gen sb)) as (leaf1&Er&L1&Hl1); [hdr_lia|].
  apply outcome_bind_Ok in Er as (b1&E1&Er). apply outcome_bind_Ok in Er as (b2&E2&E3).
  apply wp_bind. eapply wp_lift_ok; [exact E1|]. apply wp_bind. eapply wp_lift_ok; [exact E2|].
  apply wp_bind. eapply wp_lift_ok; [exact E3|]. apply wp_bind.
  set (recs := sort_recs _).
  assert (Hrec : Forall (fun r : rec => key_ok r.1) recs).
  { unfold recs. rewrite sort_recs_perm. apply Forall_app. split; [by apply block_recs_ok|].
    apply Forall_app. split; [by apply extent_recs_ok|]. apply group_recs_ok. by destruct Hflat as (_&_&?&_). }
  destruct (fill_leaf_spec leaf1 recs [] Hl1 Hrec) as (leaf2&over&recs'&E4&L2&Hl2). eapply wp_lift_ok; [exact E4|].
  cbv beta iota. destruct (over || negb safe).
  - apply (buildMultiLevel_spec _ s c eads extRoot); [done|done|done|done| |cbn; hdr_lia|done|done].
    cbn [ml_baseRecs]. rewrite Forall_forall in Hrec |- *. intros r Hr. apply Hrec.
    apply list_elem_of_In, filter_In in Hr as [Hr _]. by apply list_elem_of_In.
  - by apply (single_leaf_spec s c eads extRoot leaf2 recs'); try done; congruence.
Qed.

Lemma rebuildExtentTree_spec s c eads (Q : unit -> St -> Prop) (E : error -> St -> Prop) :
  root_tree h ads (eads ++ keep) s c -> closed (rn s) eads ->
  (forall r, root_at c extentTreeObjID r -> r ∈ eads) -> is_u64 (sb_chunkLogAddr sb) ->
  (forall o r, o = fsTreeObjID \/ o = dataRelocTreeObjID -> root_at c o r -> r <> 0 ->
     exists P, P r /\ scan_ok partOff sb s pan P) -> (pan -> X s) ->
  (forall s', rebuilt s c s' -> Q tt s') -> (forall e s', broken s s' -> E e s') ->
  wp X (rebuildExtentTree partOff sb) s Q E.
Proof using HL RWL Hflat Hheld Hroom Harea Hh.
  intros Hrt Hcl Hin Hcu Hscan HX HQ HE. pose proof Hrt as (Hw&_). unfold rebuildExtentTree. apply wp_bind.
  destruct (extentTreeRoot_spec partOff sb s h c ads Hw Hh) as (o&Eo&Ho). unfold wp at 1, sm_try. rewrite Eo.
  destruct o as [extRoot|e| |]; try done.
  - by apply (rebuild_with_spec s c eads extRoot); auto.
  - apply wp_ret, HQ. exists eads, [], c. split_and!; done.
Qed.
End Ends.
End Writing.
