(* ===== verification/CommitCorrect.v ===== *)
(** * The commit keeps the FS tree (write.go)

    Every write operation ends in [updateFsTreeRoot].  [trees] describes the nodes
    beside the FS tree that it works on: the root tree, the extent tree, the data
    relocation tree and blocks nothing points at.  The commit keeps the FS tree and
    the file data, re-establishes [trees], and on success has the superblock name a
    root tree whose ROOT_ITEM names the FS tree. *)
From Stdlib Require Import ZArith Lia Strings.Byte.
From stdpp Require Import base option list numbers sorting gmap.
From S2P Require Import Prelude Bytes Alloc Layout SafeIO Chunk Node BTree Walk Split Crc32c Cow Store CowCorrect.
From S2P Require Import Codec Tx Extent Ops FsTree FsLookup Rebuild ExtentLayout ExtentWrite.
Local Open Scope Z_scope.
Local Open Scope btrfs_scope.

(** ** The other trees *)

(** No chunk covers the superblock. *)
Definition sb_area_free (sb : superblock) : Prop :=
  forall p, superblockOffset <= p < superblockOffset + sbfSize -> ~ Store.mapped sb p.

Definition leaves_ok (rn : Z -> outcome bytes) (ads : list Z) : Prop :=
  forall a buf items it, a ∈ ads -> rn a = Ok buf -> leaf_items buf items -> it ∈ items ->
    ext_item_ok (it_k it) (item_data it buf).

Definition trees : keeper := fun sb rn rest => exists h c rads eads dads leak,
  rest ≡ₚ rads ++ eads ++ dads ++ leak /\
  wtree False rn h (sb_rootLogAddr sb) c rads /\ Z.of_nat h <= maxBtreeDepth /\ Forall (fun r => r.2 <> []) c /\
  (exists r, root_at c fsTreeObjID r) /\
  (forall r, root_at c extentTreeObjID r -> r ∈ eads) /\ closed rn eads /\
  (forall r, root_at c dataRelocTreeObjID r -> r <> 0 -> r ∈ dads) /\ closed rn dads /\ leaves_ok rn dads /\
  is_u64 (sb_chunkLogAddr sb) /\ sb_area_free sb.

#[global] Instance trees_stable : Stable trees.
Proof.
  intros sb rn rn' rest leak' (h&c&rads&eads&dads&leak&Hp&Hw&Hh&Hne&Hfs&He&Hce&Hd&Hcd&Hld&Hcu&Hsb) Hsame.
  assert (Hs : forall x, x ∈ rads ++ eads ++ dads ++ leak -> rn' x = rn x) by (intros x Hx; apply Hsame; by rewrite Hp).
  exists h, c, rads, eads, dads, (leak' ++ leak). split_and!; try done.
  - rewrite Hp. perm_tac.
  - eapply wtree_agree; [exact Hw|]. intros x Hx. apply Hs. mem_tac.
  - eapply closed_agree; [exact Hce|]. intros x Hx. apply Hs. mem_tac.
  - eapply closed_agree; [exact Hcd|]. intros x Hx. apply Hs. mem_tac.
  - intros a buf items it Ha Er. rewrite Hs in Er by mem_tac. by eapply Hld.
Qed.

(** Items [collectDataExtents] can read. *)
Definition exts_ok (m : gmap key bytes) : Prop := forall k d, m !! k = Some d -> ext_item_ok k d.

(** A commit changes the root tree's address and the generation. *)
Definition committed (sb sb' : superblock) : Prop := exists r g, sb' = set_generation (set_rootLogAddr sb r) g.

Lemma committed_root sb r : committed sb (set_rootLogAddr sb r).
Proof. exists r, (sb_generation sb). by destruct sb. Qed.
Lemma committed_refl sb : committed sb sb.
Proof. exists (sb_rootLogAddr sb), (sb_generation sb). by destruct sb. Qed.

Lemma wtree_scan t rn h a c ads x buf :
  wtree t rn h a c ads -> x ∈ ads -> rn x = Ok buf ->
  kids_in (fun y => y ∈ ads) buf /\
  forall items, leaf_items buf items -> forall it, it ∈ items -> (it_k it, item_data it buf) ∈ c.
Proof.
  revert a c ads. induction h as [|h IH]; intros a c ads.
  - intros (b&Hr&Hl&_&->) Hx Er. apply list_elem_of_singleton in Hx as ->. rewrite Hr in Er. injection Er as <-. split.
    + intros Hl0. exfalso. apply Hl0. apply Hl.
    + intros items [_ Ei] it Hit. cbn [hdr_of hdr_nItems] in Ei. destruct (parseLeafItems_repr _ _ Hl) as (items'&Ei'&<-).
      destruct Hl as (Hn&_). rewrite Hn, Ei' in Ei. injection Ei as <-.
      apply (list_elem_of_fmap_2 (fun it => (it_k it, item_data it b))) in Hit. exact Hit.
  - intros (b&kids&Hr&Hi&->&->&_&_&Hk) Hx Er. apply elem_of_cons in Hx as [->|Hx].
    + rewrite Hr in Er. injection Er as <-. split.
      * intros _ l El. cbn [hdr_of hdr_nItems] in El. pose proof Hi as (Hn&_). rewrite Hn, (child_ptrs_internal _ _ _ _ Hi), take_until_all in El.
        injection El as <-. rewrite map_map. apply Forall_forall. intros y Hy. right. apply list_elem_of_fmap in Hy as (k&->&Hkin).
        rewrite Forall_forall in Hk. destruct (Hk k Hkin) as (_&_&_&Hwk). destruct (wtree_head _ _ _ _ _ _ Hwk) as [rest Ea].
        cbn. right. eapply elem_of_kid_addrs; [done|]. rewrite Ea. by left.
      * intros items [Hl0 _]. destruct Hi as (_&Hlv&_). cbn in Hl0. lia.
    + apply list_elem_of_In, in_concat in Hx as (l&Hl1&Hl2). apply in_map_iff in Hl1 as (k&<-&Hkin).
      apply list_elem_of_In in Hl2. apply list_elem_of_In in Hkin. rewrite Forall_forall in Hk.
      destruct (Hk k Hkin) as (_&_&_&Hwk). destruct (IH _ _ _ Hwk Hl2 Er) as [Hki Hit]. split.
      * intros Hl0 l El. eapply Forall_impl; [by apply Hki|]. cbn. intros y [->|Hy]; [by left|right]. right. by eapply elem_of_kid_addrs.
      * intros items Hitems it Hin. apply list_elem_of_In, in_concat. exists (kid_recs k). split.
        -- apply in_map_iff. exists k. split; [done|by apply list_elem_of_In].
        -- apply list_elem_of_In. by eapply Hit.
Qed.

(** ** The payload of the ROOT_ITEM *)
Lemma root_item_payload_spec d root gen level :
  rootItemOffBytenr + 8 <= blen d -> is_u64 root ->
  exists d', root_item_payload d root gen level = Ok d' /\ blen d' = blen d /\ rd 8 d' rootItemOffBytenr = root.
Proof.
  unfold root_item_payload, rootItemOffBytenr, rootItemOffGeneration, rootItemOffGenerationV2, rootItemOffLevel, is_u64.
  intros Hd Hr. rewrite put_le_Ok by lia. cbn [mbind outcome_bind]. set (d1 := wr 8 d 176 root).
  assert (L1 : blen d1 = blen d) by (unfold d1; rewrite blen_wr; lia).
  assert (R1 : rd 8 d1 176 = root) by (unfold d1; rewrite rd_wr_same by lia; apply Z.mod_small; cbn; lia).
  rewrite put_le_Ok by lia. cbn [mbind outcome_bind]. set (d2 := wr 8 d1 160 gen).
  assert (L2 : blen d2 = blen d) by (unfold d2; rewrite blen_wr; lia).
  assert (R2 : rd 8 d2 176 = root) by (unfold d2; rewrite rd_wr_out by lia; done).
  assert (H3 : exists d3, (if 239 + 8 <? blen d2 then PutUint64 d2 239 gen else Ok d2) = Ok d3 /\ blen d3 = blen d /\ rd 8 d3 176 = root).
  { case_if; [|by exists d2]. rewrite put_le_Ok by lia. eexists. split; [done|]. rewrite blen_wr, rd_wr_out by lia. done. }
  destruct H3 as (d3&->&L3&R3). cbn [mbind outcome_bind]. case_if; [|by exists d3].
  rewrite put_le_Ok by lia. eexists. split; [done|]. rewrite blen_wr, rd_wr_out by lia. done.
Qed.

Section Commit.
Context `{HL : SafeIOLaws} {D : Type} `{RWL : RWLaws D} (partOff : Z) (X : txState D -> Prop).
Abbreviation W := (txState D).
Abbreviation wrn w := (rn partOff (tx_sb w) (tx_cow w)).

(** A state between the steps of a commit; [P] is what is known of the root tree. *)
Definition staged (P : list rec -> Prop) (t : Prop) (dv : dataView) (w : W) (h : nat) (m : gmap key bytes) : Prop :=
  exists c ads hr cr rads eads dads leak,
    flat_map partOff (tx_sb w) /\ wtree t (wrn w) h (tx_root w) c ads /\ leaf_map c = m /\
    Forall (fun r => r.2 <> []) c /\ dv_fits (tx_sb w) dv /\
    Inv partOff (tx_sb w) dv (tx_cow w) (ads ++ rads ++ eads ++ dads ++ leak) /\
    wtree False (wrn w) hr (sb_rootLogAddr (tx_sb w)) cr rads /\ Z.of_nat hr <= maxBtreeDepth /\
    Forall (fun r => r.2 <> []) cr /\ (exists r, root_at cr fsTreeObjID r) /\
    (forall r, root_at cr extentTreeObjID r -> r ∈ eads) /\ closed (wrn w) eads /\
    (forall r, root_at cr dataRelocTreeObjID r -> r <> 0 -> r ∈ dads) /\ closed (wrn w) dads /\ leaves_ok (wrn w) dads /\
    is_u64 (sb_chunkLogAddr (tx_sb w)) /\ sb_area_free (tx_sb w) /\ P cr.

Lemma repr_staged t dv w h m : repr partOff trees t dv w h m -> staged (fun _ => True) t dv w h m.
Proof using.
  intros (c&ads&rest&Hf&Hw&Em&Hi&(hr&cr&rads&eads&dads&leak&Hp&HR)&Hne&Hdv). exists c, ads, hr, cr, rads, eads, dads, leak.
  destruct HR as (R1&R2&R3&R4&R5&R6&R7&R8&R9&R10&R11). split_and!; try done.
  eapply Inv_perm; [|exact Hi]. by rewrite Hp.
Qed.
Lemma staged_repr P t dv w h m : staged P t dv w h m -> repr partOff trees t dv w h m.
Proof using.
  intros (c&ads&hr&cr&rads&eads&dads&leak&Hf&Hw&Em&Hne&Hdv&Hi&R1&R2&R3&R4&R5&R6&R7&R8&R9&R10&R11&_).
  exists c, ads, (rads ++ eads ++ dads ++ leak). split_and!; try done.
  exists hr, cr, rads, eads, dads, leak. split_and!; done.
Qed.

Lemma staged_impl (P P' : list rec -> Prop) t dv w h m :
  (forall cr, P cr -> P' cr) -> staged P t dv w h m -> staged P' t dv w h m.
Proof using.
  intros Hi (c&ads&hr&cr&rads&eads&dads&leak&Hs). exists c, ads, hr, cr, rads, eads, dads, leak.
  repeat match goal with H : _ /\ _ |- _ => destruct H end. split_and!; auto.
Qed.

(** The FS tree's ROOT_ITEM names the tree the operation works on. *)
Definition names_fs (w : W) (cr : list rec) : Prop := root_at cr fsTreeObjID (tx_root w).

Lemma root_at_insert c c' o k d' r :
  leaf_map c' = <[k := d']> (leaf_map c) -> k <> Key o typeRootItem 0 -> root_at c' o r -> root_at c o r.
Proof using. intros Em Hk (d&Ed&Hd). rewrite Em, lookup_insert_ne in Ed by done. by exists d. Qed.

Lemma update_root_item_spec t dv w h m (Q : unit -> W -> Prop) (E : error -> W -> Prop) :
  repr partOff trees t dv w h m ->
  (forall w' r, staged (names_fs w') t dv w' h m -> tx_sb w' = set_rootLogAddr (tx_sb w) r -> tx_root w' = tx_root w -> Q tt w') ->
  (forall w', staged (fun _ => True) t dv w' h m -> full (tx_cow w') -> tx_sb w' = tx_sb w -> tx_root w' = tx_root w -> Q tt w') ->
  wp X (update_root_item partOff (tx_root w)) w Q E.
Proof using HL RWL.
  intros Hr HQ HF. destruct (repr_staged _ _ _ _ _ Hr)
    as (c&ads&hr&cr&rads&eads&dads&leak&Hf&Hw&Em&Hne&Hdv&Hi&R1&R2&R3&(r0&d&Ed&Hd&Er0)&R5&R6&R7&R8&R9&R10&R11&_).
  assert (Hko : key_ok fsRootKey) by (unfold fsRootKey, fsTreeObjID, typeRootItem; key_tac).
  assert (Hi' : Inv partOff (tx_sb w) dv (tx_cow w) (rads ++ ads ++ eads ++ dads ++ leak)) by (eapply Inv_perm; [|exact Hi]; perm_tac).
  assert (Hru : is_u64 (tx_root w)).
  { destruct (wtree_head _ _ _ _ _ _ Hw) as [rest Ea]. eapply live_is_u64; [exact Hf|exact Hi|]. rewrite Ea. cbn. by left. }
  destruct (subtree_level _ _ _ _ _ (wtree_subtree _ _ _ _ _ _ Hw)) as (fb&Efb&_&Lfb).
  apply wp_bind, wp_gets, wp_bind, wp_try.
  eapply (tx_search_spec partOff never False w hr _ cr rads _ dv fsRootKey); [done|exact R1|exact Hi|done|done| |].
  2: { intros e He. exfalso. destruct (He R2) as [En _]. unfold fsRootKey in En. congruence. }
  intros buf it d0 _ Ed0 _ Ecopy _. assert (d0 = d) as -> by (unfold fsRootKey in Ed0; congruence).
  assert (Hread : forall B (k : bytes -> outcome B) (z : outcome B) b (Q : B -> W -> Prop) (E : error -> W -> Prop),
    k fb = Ok b -> Q b w ->
    wp X (x ← sm_try (tx_lift (fun sb => node_read partOff sb (tx_root w)));
          sm_lift (match x with Ok y => k y | Err _ => z | Panic => Panic | NoFuel => NoFuel end)) w Q E).
  { intros B k z b Q0 E0 Ek HQ0. apply wp_bind, wp_try. eapply wp_tx_read; [unfold node_read; fold (wrn w (tx_root w)); by rewrite Efb|].
    eapply wp_lift_ok; [exact Ek|done]. }
  apply wp_bind. eapply (Hread _ (fun y => Uint64 y 0x50)); [apply get_le_Ok; hdr_lia|].
  apply wp_bind. eapply (Hread _ (fun y => hdr ← parseNodeHeader y; Ok (hdr_level hdr))).
  { rewrite parseNodeHeader_Ok by done. done. }
  rewrite Ecopy. destruct (root_item_payload_spec d (tx_root w) (rd 8 fb 0x50) (hdr_level (hdr_of fb)) Hd Hru) as (d'&Ep&Lp&Rp).
  apply wp_bind. eapply wp_lift_ok; [exact Ep|]. apply wp_bind, wp_try.
  apply wp_tx_of. cbv zeta. unfold wp.
  pose proof (cowUpdate_spec False partOff (tx_sb w) dv Hf (tx_cow w) hr _ cr rads (ads ++ eads ++ dads ++ leak) fsRootKey d' R1 Hi' Hko R2) as Hc.
  unfold fsRootKey in Hc at 1. rewrite Ed in Hc. destruct (cowUpdate _ _ _ _ _ _) as [s' [root'|e| |]]; try done.
  - destruct Hc as (c'&Ec'&h'&rads'&Hle&Hw'&Hi2&Hs2). set (w' := TxState s' (set_rootLogAddr (tx_sb w) root') (tx_root w) (tx_tick w)).
    change (Q tt w'). apply (HQ w' root'); [|done|done].
    assert (Hsame : forall x, x ∈ ads ++ eads ++ dads ++ leak -> wrn w' x = wrn w x) by exact Hs2.
    exists c, ads, h', c', rads', eads, dads, leak. split_and!; try done.
    + eapply wtree_agree; [exact Hw|]. intros x Hx. apply Hsame. mem_tac.
    + eapply Inv_perm; [|exact Hi2]. perm_tac.
    + lia.
    + eapply leaf_map_data; [exact Ec'|by eapply wtree_sorted|]. intros k dk. rewrite lookup_insert_Some. intros [[_ <-]|[_ Hx]].
      * intros ->. rewrite blen_nil in Lp. unfold rootItemOffBytenr in Hd. lia.
      * apply elem_of_list_to_map_2 in Hx. rewrite Forall_forall in R3. by apply (R3 _ Hx).
    + exists (tx_root w), d'. rewrite Ec'. unfold fsRootKey. rewrite lookup_insert_eq. split_and!; [done|lia|done].
    + intros r Hx. apply R5. by eapply (root_at_insert cr c' extentTreeObjID).
    + eapply closed_agree; [exact R6|]. intros x Hx. apply Hsame. mem_tac.
    + intros r Hx. apply R7. by eapply (root_at_insert cr c' dataRelocTreeObjID).
    + eapply closed_agree; [exact R8|]. intros x Hx. apply Hsame. mem_tac.
    + intros a b items i0 Ha Er. rewrite Hsame in Er by mem_tac. by eapply R9.
    + exists d'. rewrite Ec'. unfold fsRootKey. rewrite lookup_insert_eq. split_and!; [done|lia|done].
  - destruct Hc as (_&Hfull&leak'&Hi2&Hs2). set (w' := TxState s' (tx_sb w) (tx_root w) (tx_tick w)). change (Q tt w').
    apply HF; [|by apply Hfull|done|done]. assert (Hsame : forall x, x ∈ ads ++ rads ++ eads ++ dads ++ leak -> wrn w' x = wrn w x).
    { intros x Hx. apply Hs2. mem_tac. }
    exists c, ads, hr, cr, rads, eads, dads, (leak' ++ leak). split_and!; try done.
    + eapply wtree_agree; [exact Hw|]. intros x Hx. apply Hsame. mem_tac.
    + eapply Inv_perm; [|exact Hi2]. perm_tac.
    + eapply wtree_agree; [exact R1|]. intros x Hx. apply Hsame. mem_tac.
    + exists r0, d. done.
    + eapply closed_agree; [exact R6|]. intros x Hx. apply Hsame. mem_tac.
    + eapply closed_agree; [exact R8|]. intros x Hx. apply Hsame. mem_tac.
    + intros a b items i0 Ha Er. rewrite Hsame in Er by mem_tac. by eapply R9.
Qed.

(** What a failed commit leaves: the FS tree and the file data, beside blocks
    nothing is known of. *)
Lemma broken_repr t dv w h m c ads others s' :
  flat_map partOff (tx_sb w) -> wtree t (wrn w) h (tx_root w) c ads -> leaf_map c = m -> Forall (fun r => r.2 <> []) c ->
  dv_fits (tx_sb w) dv -> broken partOff (tx_sb w) dv (ads ++ others) (tx_cow w) s' ->
  repr partOff any_rest t dv (TxState s' (tx_sb w) (tx_root w) (tx_tick w)) h m.
Proof using.
  clear X. intros Hf Hw Em Hne Hdv (left&Hi&Hk). exists c, ads, (left ++ others). split_and!; try done.
  - eapply wtree_agree; [exact Hw|]. intros x Hx. apply Hk. mem_tac.
  - eapply Inv_perm; [|exact Hi]. perm_tac.
Qed.

Lemma staged_any P t dv w h m : staged P t dv w h m -> repr partOff any_rest t dv w h m.
Proof using.
  intros Hs. destruct (staged_repr _ _ _ _ _ _ Hs) as (c&ads&rest&Hf&Hw&Em&Hi&_&Hne&Hdv). exists c, ads, rest. split_and!; done.
Qed.

Section Steps.
Context (dv : dataView) (Hroom : partOff + superblockOffset + sbfSize <= dv_size dv).

Lemma rebuild_tx_spec (pan : Prop) t w h m (Q : unit -> W -> Prop) (E : error -> W -> Prop) :
  staged (fun cr => pan \/ names_fs w cr) t dv w h m -> exts_ok m -> (pan -> X w) ->
  (forall w', staged (fun cr => pan \/ names_fs w' cr) t dv w' h m -> tx_sb w' = tx_sb w -> tx_root w' = tx_root w -> Q tt w') ->
  (forall e w', repr partOff any_rest t dv w' h m -> tx_sb w' = tx_sb w -> tx_root w' = tx_root w -> E e w') ->
  wp X (tx_lift (fun sb => rebuildExtentTree partOff sb)) w Q E.
Proof using HL RWL Hroom.
  intros (c&ads&hr&cr&rads&eads&dads&leak&Hf&Hw&Em&Hne&Hdv&Hi&R1&R2&R3&R4&R5&R6&R7&R8&R9&R10&R11&HP) Hex HX HQ HE.
  apply wp_tx_of. cbv zeta.
  apply (rebuildExtentTree_spec partOff (tx_sb w) dv Hf (proj2 Hdv) Hroom R11 _ hr rads (ads ++ dads ++ leak) R2 pan
    (tx_cow w) cr eads); [| done | done | done | | | | ].
  - split_and!; [done|done|]. eapply Inv_perm; [|exact Hi]. perm_tac.
  - intros o r Ho Hat Hr0. assert (Hall : pan -> exists P : Z -> Prop, P r /\ scan_ok partOff (tx_sb w) (tx_cow w) pan P).
    { intros Hp. exists (fun _ => True). split; [done|]. intros a _ buf _. split.
      - intros _ l _. apply Forall_forall. intros x _. by right.
      - intros items _ it _. by left. }
    destruct Ho as [->| ->].
    + destruct HP as [Hp|Hn]; [by apply Hall|]. destruct Hn as (d1&E1&_&Er1), Hat as (d2&E2&_&Er2).
      assert (r = tx_root w) as -> by congruence. exists (fun x => x ∈ ads). split.
      * destruct (wtree_head _ _ _ _ _ _ Hw) as [rest Ea]. rewrite Ea. by left.
      * intros a Ha buf Er. destruct (wtree_scan _ _ _ _ _ _ _ _ Hw Ha Er) as [Hk Hit]. split; [done|].
        intros items Hitems it Hin. right. apply Hex. rewrite <- Em.
        apply elem_of_list_to_map_1; [by apply keys_sorted_NoDup; eapply wtree_sorted|]. by eapply Hit.
    + exists (fun x => x ∈ dads). split; [by apply R7|]. intros a Ha buf Er. split; [by apply (R8 a buf)|].
      intros items Hitems it Hin. right. by eapply R9.
  - intros Hp. destruct w. by apply HX.
  - intros s' (eads'&left&c'&(Hw'&Hne'&Hi')&Hcl'&Hk'&Hm'&Hr').
    assert (Hra : forall o r, o <> extentTreeObjID -> root_at c' o r <-> root_at cr o r).
    { intros o r Ho. unfold root_at. rewrite Hm' by (intros [= ?]; done). done. }
    apply HQ; [|done|done]. exists c, ads, hr, c', rads, eads', dads, (left ++ leak). cbn [tx_cow tx_sb tx_root].
    split_and!; try done.
    + eapply wtree_agree; [exact Hw|]. intros x Hx. apply Hk'. mem_tac.
    + eapply Inv_perm; [|exact Hi']. perm_tac.
    + destruct R4 as [r0 Hr0]. exists r0. by apply Hra.
    + intros r Hat. apply R7. by apply Hra in Hat.
    + eapply closed_agree; [exact R8|]. intros x Hx. apply Hk'. mem_tac.
    + intros a b items i0 Ha Er. eapply R9; [done|]. rewrite <- Er. symmetry. apply Hk'. mem_tac.
    + destruct HP as [Hp|Hn]; [by left|right]. by apply Hra.
  - intros e s' Hb. apply HE; [|done|done]. by eapply broken_repr.
Qed.

(** The superblock on the device is the one in memory. *)
Definition on_disk (w : W) : Prop :=
  exists b, ReadAt (st_dev (tx_cow w)) (partOff + superblockOffset) sbfSize = Ok b /\
    rd 8 b sbfRootLogAddr = sb_rootLogAddr (tx_sb w) /\ rd 8 b sbfGeneration = sb_generation (tx_sb w).

Lemma writeSuperblock_spec P t w h m (Q : unit -> W -> Prop) (E : error -> W -> Prop) :
  staged P t dv w h m ->
  (forall w' g, staged P t dv w' h m -> on_disk w' -> tx_sb w' = set_generation (tx_sb w) g -> tx_root w' = tx_root w -> Q tt w') ->
  (forall e, E e w) ->
  wp X (writeSuperblock partOff) w Q E.
Proof using HL RWL Hroom.
  intros (c&ads&hr&cr&rads&eads&dads&leak&Hf&Hw&Em&Hne&Hdv&Hi&R1&R2&R3&R4&R5&R6&R7&R8&R9&R10&R11&HP) HQ HE.
  unfold writeSuperblock. apply wp_bind. unfold dev_read. apply wp_tx_of. cbv zeta. unfold wp at 1.
  pose proof (ReadAt_safe (st_dev (tx_cow w)) (partOff + superblockOffset) sbfSize) as Hs.
  destruct (ReadAt _ _ _) as [buf|e| |] eqn:Er; try done; [|destruct w; apply HE].
  apply ReadAt_blen in Er; [|done]. unfold sbfSize in Er. replace (TxState _ _ _ _) with w by (by destruct w).
  apply wp_bind, wp_gets, wp_bind. eapply wp_lift_ok; [apply put_le_Ok; unfold sbfRootLogAddr; lia|].
  set (b1 := wr 8 buf sbfRootLogAddr _). assert (L1 : blen b1 = 0x1000) by (unfold b1, sbfRootLogAddr; rewrite blen_wr; lia).
  apply wp_bind. eapply wp_lift_ok; [apply get_le_Ok; unfold sbfGeneration; lia|]. set (g := rd 8 b1 sbfGeneration +₆₄ 1).
  apply wp_bind. eapply wp_lift_ok; [apply put_le_Ok; unfold sbfGeneration; lia|].
  set (b2 := wr 8 b1 sbfGeneration g). assert (L2 : blen b2 = 0x1000) by (unfold b2, sbfGeneration; rewrite blen_wr; lia).
  apply wp_bind. eapply wp_lift_ok.
  { unfold updateSuperblockCRC. rewrite slice_Ok by lia. cbn [mbind outcome_bind]. apply put_le_Ok; lia. }
  set (b3 := wr 4 b2 0 _). assert (L3 : blen b3 = sbfSize) by (unfold b3, sbfSize; rewrite blen_wr; lia).
  destruct (sb_write_spec partOff (tx_sb w) dv Hf (proj2 Hdv) Hroom R11 (tx_cow w) _ b3 Hi L3) as (s'&Ew&Hi'&Hk&Hrd).
  apply wp_bind. unfold dev_write. apply wp_tx_of. cbv zeta. eapply wp_eq; [exact Ew|]. apply wp_modify. cbn [tx_cow tx_sb tx_root tx_tick].
  assert (Hru : is_u64 (sb_rootLogAddr (tx_sb w))).
  { destruct (wtree_head _ _ _ _ _ _ R1) as [rest Ea]. eapply live_is_u64; [exact Hf|exact Hi|]. rewrite Ea. cbn. mem_tac. }
  set (w' := TxState s' (set_generation (tx_sb w) g) (tx_root w) (tx_tick w)).
  assert (Hk' : forall x, x ∈ ads ++ rads ++ eads ++ dads ++ leak -> wrn w' x = wrn w x) by exact Hk.
  apply (HQ w' g); [| |done|done].
  - exists c, ads, hr, cr, rads, eads, dads, leak. split_and!; try done.
    + eapply wtree_agree; [exact Hw|]. intros x Hx. apply Hk'. mem_tac.
    + eapply wtree_agree; [exact R1|]. intros x Hx. apply Hk'. mem_tac.
    + eapply closed_agree; [exact R6|]. intros x Hx. apply Hk'. mem_tac.
    + eapply closed_agree; [exact R8|]. intros x Hx. apply Hk'. mem_tac.
    + intros a b items i0 Ha Eb. rewrite Hk' in Eb by mem_tac. by eapply R9.
  - exists b3. split; [done|]. unfold b3, b2, sbfRootLogAddr, sbfGeneration, is_u64 in *. split.
    + rewrite rd_wr_out by lia. rewrite rd_wr_out by lia. unfold b1. rewrite rd_wr_same by lia. apply Z.mod_small. cbn. lia.
    + rewrite rd_wr_out by (rewrite ?blen_wr; lia). rewrite rd_wr_same by lia. apply Z.mod_small.
      change (256 ^ Z.of_nat 8) with (2 ^ 64). pose proof (u64_range (rd 8 b1 72 + 1)) as Hg. exact Hg.
Qed.

(** A mount of the device finds the FS tree of the state. *)
Definition published (w : W) : Prop :=
  resolveRootTree (node_read partOff (tx_sb w)) (tx_sb w) (tx_cow w) = (tx_cow w, Ok (tx_root w)).

Lemma staged_published t w h m : staged (names_fs w) t dv w h m -> published w.
Proof using HL RWL.
  intros (c&ads&hr&cr&rads&eads&dads&leak&Hf&_&_&_&_&_&R1&R2&_&_&_&_&_&_&_&_&_&(d&Ed&Hd&Er)).
  destruct (search_spec partOff (tx_sb w) (tx_cow w) hr _ cr rads (Key fsTreeObjID typeRootItem 0) R1 R2) as (o&Es&Ho);
    [unfold fsTreeObjID, typeRootItem; key_tac|].
  rewrite Ed in Ho. destruct Ho as (buf&it&->&Eit). unfold published, resolveRootTree.
  erewrite sm_bind_Ok by exact Es. cbv beta iota. rewrite Eit. unfold rootItemOffBytenr in *.
  rewrite (proj2 (Z.ltb_ge _ _)) by lia. rewrite get_le_Ok by lia. by rewrite Er.
Qed.

(** The commit [w'] of [w] that still names the old root tree: no node block was left for
    the update of the ROOT_ITEM. *)
Definition root_item_kept (w w' : W) : Prop :=
  sb_rootLogAddr (tx_sb w') = sb_rootLogAddr (tx_sb w) /\
  exists w1, update_root_item partOff (tx_root w) w = (w1, Ok tt) /\ tx_sb w1 = tx_sb w /\ full (tx_cow w1).

Lemma commit_spec t w h m (Q : unit -> W -> Prop) (E : error -> W -> Prop) :
  repr partOff trees t dv w h m -> exts_ok m -> (forall w' : W, full (tx_cow w') -> X w') ->
  (forall w', repr partOff trees t dv w' h m -> committed (tx_sb w) (tx_sb w') -> tx_root w' = tx_root w -> on_disk w' ->
     published w' \/ root_item_kept w w' -> Q tt w') ->
  (forall e w', repr partOff any_rest t dv w' h m -> committed (tx_sb w) (tx_sb w') -> tx_root w' = tx_root w -> E e w') ->
  wp X (commit partOff) w Q E.
Proof using HL RWL Hroom.
  intros Hr Hex HX HQ HE. unfold commit. apply wp_bind, wp_gets. unfold updateFsTreeRoot. apply wp_bind, wp_run.
  apply (update_root_item_spec t dv w h m); [done| |].
  - intros w1 r Hst Esb1 Er1 _. apply wp_bind. apply (rebuild_tx_spec False t w1 h m); [|done|done| |].
    { eapply staged_impl; [|exact Hst]. auto. }
    + intros w2 Hst2 Esb2 Er2.
      assert (Hst2' : staged (names_fs w2) t dv w2 h m).
      { eapply staged_impl; [|exact Hst2]. intros cr [[]|Hn]. done. }
      apply (writeSuperblock_spec (names_fs w2) t w2 h m); [done| |].
      * intros w3 g Hst3 Hd3 Esb3 Er3. apply HQ; [by eapply staged_repr|..].
        -- exists r, g. by rewrite Esb3, Esb2, Esb1.
        -- congruence.
        -- done.
        -- left. eapply staged_published. unfold names_fs in *. rewrite Er3. exact Hst3.
      * intros e. apply HE; [by eapply staged_any|rewrite Esb2, Esb1; apply committed_root|congruence].
    + intros e w2 Hr2 Esb2 Er2. apply HE; [done|rewrite Esb2, Esb1; apply committed_root|congruence].
  - intros w1 Hst Hfull Esb1 Er1 Eu. apply wp_bind. apply (rebuild_tx_spec True t w1 h m); [|done|by intros _; apply HX| |].
    { eapply staged_impl; [|exact Hst]. auto. }
    + intros w2 Hst2 Esb2 Er2. apply (writeSuperblock_spec _ t w2 h m _ _ Hst2).
      * intros w3 g Hst3 Hd3 Esb3 Er3. apply HQ; [by eapply staged_repr|..].
        -- exists (sb_rootLogAddr (tx_sb w)), g. rewrite Esb3, Esb2, Esb1. by destruct (tx_sb w).
        -- congruence.
        -- done.
        -- right. split; [|by exists w1]. rewrite Esb3, Esb2, Esb1. by destruct (tx_sb w).
      * intros e. apply HE; [by eapply staged_any|rewrite Esb2, Esb1; apply committed_refl|congruence].
    + intros e w2 Hr2 Esb2 Er2. apply HE; [done|rewrite Esb2, Esb1; apply committed_refl|congruence].
Qed.
End Steps.
End Commit.

(** C10. The commit that ends every write operation ([updateFsTreeRoot]) keeps the
    FS tree and the file data, whatever happens: after success and after an error
    the state stands for the same items.  On success the other trees are again
    well-formed, the superblock on the device has the address and the generation
    of the one in memory, and mounting it finds the FS tree, unless no node block was left
    when the ROOT_ITEM was to be updated ([root_item_kept]), which the code does not report.
    A panic is possible only in that case. *)
Theorem commit_keeps_tree `{HL : SafeIOLaws} {D : Type} `{RWL : RWLaws D} (partOff : Z) (dv : dataView) (t : Prop)
    (w : txState D) (h : nat) (m : gmap key bytes) :
  repr partOff trees t dv w h m -> exts_ok m -> partOff + superblockOffset + sbfSize <= dv_size dv ->
  match commit partOff w with
  | (w', Ok _) => repr partOff trees t dv w' h m /\ committed (tx_sb w) (tx_sb w') /\ on_disk partOff w' /\
      (published partOff w' \/ root_item_kept partOff w w')
  | (w', Err _) => repr partOff any_rest t dv w' h m /\ committed (tx_sb w) (tx_sb w')
  | (w', Panic) => full (tx_cow w')
  | (_, NoFuel) => False
  end.
Proof.
  intros Hr Hex Hroom.
  apply (commit_spec partOff (fun w' => full (tx_cow w')) dv Hroom t w h m
    (fun _ w' => repr partOff trees t dv w' h m /\ committed (tx_sb w) (tx_sb w') /\ on_disk partOff w' /\
      (published partOff w' \/ root_item_kept partOff w w'))
    (fun _ w' => repr partOff any_rest t dv w' h m /\ committed (tx_sb w) (tx_sb w'))); auto.
Qed.
