(* ===== verification/InodeOps.v ===== *)
(** * Operations on inode attributes (setattr.go, truncate.go, xattr_write.go, extended_stat.go, delete.go)

    Each operation that changes an inode replaces its item in the map the FS tree
    stands for; the record the item holds changes in the fields the operation is
    about, and in the transaction id, the sequence and the change time. *)
From Stdlib Require Import ZArith Lia Strings.Byte.
From stdpp Require Import base option list numbers sorting gmap.
From S2P Require Import Prelude Bytes Alloc Layout SafeIO Chunk Node BTree Walk Split Crc32c Cow Store CowCorrect.
From S2P Require Import Codec Read FileRead Tx Extent Ops FsTree FsLookup InodeEdit Rebuild ExtentLayout ExtentWrite CommitCorrect.
Local Open Scope Z_scope.
Local Open Scope btrfs_scope.

(** The item of [ino] is replaced by one whose record is changed by [f]. *)
Definition inode_edit (m m' : gmap key bytes) (ino : Z) (f : InodeStat -> InodeStat) : Prop :=
  exists d d', m !! inodeKey ino = Some d /\ m' = <[inodeKey ino := d']> m /\ blen d' = blen d /\
    stat_of ino d' = f (stat_of ino d).

Lemma inode_edit_trans m m1 m2 ino f g :
  inode_edit m m1 ino f -> inode_edit m1 m2 ino g -> inode_edit m m2 ino (fun s => g (f s)).
Proof.
  intros (d&d1&E&->&L&S) (d1'&d2&E1&->&L1&S1). rewrite lookup_insert_eq in E1. injection E1 as <-.
  exists d, d2. split_and!; [done|by rewrite insert_insert_eq|congruence|congruence].
Qed.
Lemma inode_edit_frame m m' ino f k : inode_edit m m' ino f -> k <> inodeKey ino -> m' !! k = m !! k.
Proof. intros (d&d'&_&->&_) Hk. by rewrite lookup_insert_ne. Qed.

(** Every inode item is as long as an inode item. *)
Definition inodes_ok (m : gmap key bytes) : Prop :=
  forall ino d, m !! inodeKey ino = Some d -> inodeItemSize <= blen d.

Lemma inodes_ok_edit m m' ino f : inodes_ok m -> inode_edit m m' ino f -> inodes_ok m'.
Proof.
  intros Hm (d&d'&E&->&L&_) i x. rewrite lookup_insert_Some. intros [[Ek <-]|[_ Ex]]; [rewrite L; by eapply Hm|by eapply Hm].
Qed.

(** Steps that only lift a value. *)
Ltac wp_ok E := apply wp_bind; eapply wp_lift_ok; [exact E|].

(** The size of a directory after an entry of [delta] bytes came or went. *)
Definition dir_size (size delta : Z) : Z :=
  let cur := i64 (i64 size + delta) in u64 (if cur <? 0 then 0 else cur).

Section InodeOps.
Context `{HL : SafeIOLaws} {D : Type} `{RWL : RWLaws D} `{CK : Clock} (partOff : Z) (R : keeper) `{HR : !Stable R}.
Context (Hclock : forall n, time_ok (clock_at n)).
Context (X : txState D -> Prop).
Abbreviation W := (txState D).
Abbreviation repr := (repr partOff R).

Lemma now_spec t dv w h m (Q : timespec -> W -> Prop) (E : error -> W -> Prop) :
  repr t dv w h m -> (forall w' now, time_ok now -> repr t dv w' h m -> next w w' -> Q now w') -> wp X Now w Q E.
Proof using Hclock. intros Hr HQ. unfold wp, Now. apply HQ; [apply Hclock|done|done]. Qed.

(** Writing back an edited item. *)
Lemma put_inode_spec t dv w h m ino d d' f (Q : unit -> W -> Prop) E :
  repr t dv w h m -> is_u64 ino -> m !! inodeKey ino = Some d -> blen d' = blen d -> inodeItemSize <= blen d ->
  stat_of ino d' = f (stat_of ino d) ->
  (forall w' h' m', (h' <= h)%nat -> Z.of_nat h' <= maxBtreeDepth -> repr t dv w' h' m' -> inode_edit m m' ino f -> next w w' -> Q tt w') ->
  (forall e w', repr t dv w' h m -> next w w' -> E e w') ->
  wp X (fs_update partOff (inodeKey ino) d') w Q E.
Proof using HL RWL HR.
  intros Hr Hu Ed L Hd Hs HQ HE. eapply (fs_update_spec partOff R X t dv w h m); [done|key_tac| | |done].
  - intros ->. rewrite blen_nil in L. unfold inodeItemSize in Hd. lia.
  - intros w' h' Hle Hlow _ Hr' Hn. apply (HQ w' h' _ Hle ltac:(lia) Hr'); [|done]. by exists d, d'.
Qed.

Lemma adjustDirSize_low_spec t dv w h m dir delta (Q : unit -> W -> Prop) E :
  repr t dv w h m -> is_u64 dir -> inodes_ok m -> delta <> 0 ->
  (forall w' h' m', Z.of_nat h' <= maxBtreeDepth -> repr t dv w' h' m' ->
     inode_edit m m' dir (fun s => st_size (dir_size (is_Size s) delta) s) -> next w w' -> Q tt w') ->
  (forall e w', repr t dv w' h m -> next w w' -> E e w') ->
  wp X (adjustDirSize partOff dir delta) w Q E.
Proof using HL RWL HR.
  intros Hr Hu Hok Hz HQ HE. unfold adjustDirSize. rewrite (proj2 (Z.eqb_neq _ _) Hz).
  apply wp_bind. eapply (fs_search_spec partOff R X t dv w h m); [done|key_tac| |intros e _; by apply HE].
  intros buf it d _ Ed _ Ecp. cbv beta iota. rewrite Ecp. specialize (Hok _ _ Ed).
  assert (E1 : Uint64 d inodeOffSize = Ok (rd 8 d inodeOffSize)) by (apply get_le_Ok; stat_offs; lia).
  wp_ok E1. fold (dir_size (rd 8 d inodeOffSize) delta).
  destruct (edit_size dir d Hok (dir_size (rd 8 d inodeOffSize) delta)) as (d'&E2&L&S); [apply u64_range|].
  wp_ok E2.
  apply (put_inode_spec t dv w h m dir d d' (fun s => st_size (dir_size (is_Size s) delta) s)); try done. intros w' h' m' _. apply HQ.
Qed.
Lemma adjustDirSize_spec t dv w h m dir delta (Q : unit -> W -> Prop) E :
  repr t dv w h m -> is_u64 dir -> inodes_ok m -> delta <> 0 ->
  (forall w' h' m', repr t dv w' h' m' -> inode_edit m m' dir (fun s => st_size (dir_size (is_Size s) delta) s) ->
     next w w' -> Q tt w') ->
  (forall e w', repr t dv w' h m -> next w w' -> E e w') ->
  wp X (adjustDirSize partOff dir delta) w Q E.
Proof using HL RWL HR.
  intros Hr Hu Hok Hz HQ HE. eapply adjustDirSize_low_spec; try done. intros w' h' m' _. apply HQ.
Qed.

(** The link count after a change. *)
Definition link_count (n delta : Z) : Z := u32 (Z.max 0 (n + delta)).

Lemma adjustDirNlink_spec t dv w h m dir delta (Q : unit -> W -> Prop) E :
  repr t dv w h m -> is_u64 dir -> inodes_ok m ->
  (forall w' h' m' now, Z.of_nat h' <= maxBtreeDepth -> repr t dv w' h' m' -> time_ok now ->
     inode_edit m m' dir (fun s => st_mtime now (st_change (next_gen (tx_sb w)) now (st_nlink (link_count (is_NLink s) delta) s))) ->
     next w w' -> Q tt w') ->
  (forall e w', repr t dv w' h m -> next w w' -> E e w') ->
  wp X (adjustDirNlink partOff dir delta) w Q E.
Proof using HL RWL HR Hclock.
  intros Hr Hu Hok HQ HE. unfold adjustDirNlink.
  apply wp_bind. eapply (fs_search_spec partOff R X t dv w h m); [done|key_tac| |intros e _; by apply HE].
  intros buf it d _ Ed _ Ecp. cbv beta iota. rewrite Ecp. specialize (Hok _ _ Ed).
  assert (E1 : Uint32 d inodeOffNLink = Ok (rd 4 d inodeOffNLink)) by (apply get_le_Ok; stat_offs; lia).
  wp_ok E1. cbv zeta. fold (link_count (rd 4 d inodeOffNLink) delta).
  destruct (edit_nlink dir d Hok (link_count (rd 4 d inodeOffNLink) delta)) as (d1&E2&L1&S1);
    [unfold link_count, u32; apply Z.mod_pos_bound; lia|].
  wp_ok E2. apply wp_bind, wp_gets. apply wp_bind.
  assert (Hok1 : inodeItemSize <= blen d1) by lia.
  pose proof (fun now Ht => edit_change dir d1 Hok1 (next_gen (tx_sb w)) now (u64_range _) Ht) as Hch.
  assert (Hb : exists d2, bumpInodeTransIDSequence d1 (next_gen (tx_sb w)) = Ok d2).
  { destruct (Hch (clock_at 0%nat) (Hclock _)) as (dx&Ex&_). apply outcome_bind_Ok in Ex as (d2&Ex&_). by exists d2. }
  destruct Hb as [d2 Eb]. eapply wp_lift_ok; [exact Eb|]. apply wp_bind, (now_spec t dv w h m); [done|].
  intros w1 now Ht Hr1 Hn1. destruct (Hch now Ht) as (d3&E3&L3&S3). rewrite Eb in E3. cbn [mbind outcome_bind] in E3.
  wp_ok E3. assert (Hok3 : inodeItemSize <= blen d3) by lia.
  destruct (edit_mtime dir d3 Hok3 now Ht) as (d4&E4&L4&S4). wp_ok E4.
  eapply (put_inode_spec t dv w1 h m dir d d4
    (fun s => st_mtime now (st_change (next_gen (tx_sb w)) now (st_nlink (link_count (is_NLink s) delta) s)))); [done|done|done|lia|done| | |].
  - by rewrite S4, S3, S1.
  - intros w2 h2 m2 _ Hlow Hr2 He2 Hn2. apply (HQ w2 h2 m2 now); [done|done|done|exact He2|by etrans].
  - intros e w2 Hr2 Hn2. apply HE; [done|by etrans].
Qed.
End InodeOps.

(** ** Lookups that an edit of an inode does not change *)
Definition same_dirs (m m' : gmap key bytes) : Prop :=
  forall k, typ k = typeDirItem \/ typ k = typeDirIndex -> m' !! k = m !! k.

Lemma same_dirs_sym m m' : same_dirs m m' -> same_dirs m' m.
Proof. intros H k Hk. symmetry. by apply H. Qed.
Lemma prefix_of_agree m m' o t l :
  (forall k, typ k = t -> m' !! k = m !! k) -> prefix_of m o t l -> prefix_of m' o t l.
Proof.
  intros Hs [H1 H2]. split; [done|]. intros k d. rewrite H2. split; intros (Ek&Ho&Ht); split_and!; try done;
    [by rewrite Hs|by rewrite <- Hs].
Qed.
Lemma dir_entry_agree m m' dir name r : same_dirs m m' -> dir_entry m dir name r -> dir_entry m' dir name r.
Proof.
  intros Hs. assert (Hh : forall r', item_hit m' dir name r' <-> item_hit m dir name r').
  { intros r'. unfold item_hit. rewrite Hs by (by left). done. }
  intros [H1|[H1 (l&Hl&El)]]; [left; by apply Hh|right]. split; [intros r'; rewrite Hh; apply H1|].
  exists l. split; [|done]. eapply prefix_of_agree; [|exact Hl]. intros k Hk. apply Hs. by right.
Qed.
Lemma path_to_agree m m' parts cur ino : same_dirs m m' -> path_to m parts cur ino -> path_to m' parts cur ino.
Proof.
  intros Hs. revert cur. induction parts as [|name parts IH]; intros cur; cbn [path_to]; [done|].
  intros (r&Hr&Hp). exists r. split; [by eapply dir_entry_agree|by apply IH].
Qed.
Lemma inode_edit_dirs m m' ino f : inode_edit m m' ino f -> same_dirs m m'.
Proof. intros He k Hk. eapply inode_edit_frame; [done|]. intros ->. by destruct Hk. Qed.

Lemma exts_ok_insert m k d : exts_ok m -> ext_item_ok k d -> exts_ok (<[k := d]> m).
Proof. intros Hm Hk k' d'. rewrite lookup_insert_Some. intros [[<- <-]|[_ E]]; [done|by apply Hm]. Qed.
Lemma exts_ok_edit m m' ino f : exts_ok m -> inode_edit m m' ino f -> exts_ok m'.
Proof. intros Hm (d&d'&_&->&_). apply exts_ok_insert; [done|]. by intros Ht. Qed.

Lemma repr_any {D} `{RWLaws D} `{SafeIO} partOff R t dv (w : txState D) h m : repr partOff R t dv w h m -> repr partOff any_rest t dv w h m.
Proof. intros (c&ads&rest&Hf&Hw&Em&Hi&_&Hne&Hdv). exists c, ads, rest. split_and!; done. Qed.

(** The permission bits change, the type bits stay. *)
Lemma chmod_bits cur perm :
  0 <= perm < 2 ^ 32 ->
  u16 (Z.lor (Z.ldiff cur 0xFFF) (Z.land (u32 perm) 0xFFF)) = Z.lor (Z.ldiff (u16 cur) 0xFFF) (Z.land perm 0xFFF).
Proof.
  intros Hp. unfold u16, u32. rewrite (Z.mod_small perm) by lia. apply Z.bits_inj'. intros n Hn.
  rewrite Z.testbit_mod_pow2, !Z.lor_spec, !Z.ldiff_spec, !Z.land_spec, Z.testbit_mod_pow2 by lia.
  destruct (Z.ltb_spec n 16); cbn [andb]; [done|].
  replace (Z.testbit 0xFFF n) with false; [by rewrite andb_false_r|]. symmetry.
  apply Z.bits_above_log2; [lia|]. change (Z.log2 0xFFF) with 11. lia.
Qed.

Lemma chmod_range cur perm :
  0 <= cur < 2 ^ 32 -> 0 <= Z.lor (Z.ldiff cur 0xFFF) (Z.land (u32 perm) 0xFFF) < 2 ^ 32.
Proof.
  intros Hc. set (v := Z.lor _ _). assert (E : v = v mod 2 ^ 32); [|rewrite E; apply Z.mod_pos_bound; lia].
  apply Z.bits_inj'. intros n Hn. rewrite Z.testbit_mod_pow2 by lia. destruct (Z.ltb_spec n 32); [done|].
  unfold v. rewrite Z.lor_spec, Z.ldiff_spec, Z.land_spec. cbn [andb].
  rewrite <- (Z.mod_small cur (2 ^ 32)), Z.testbit_mod_pow2 by lia. unfold u32. rewrite Z.testbit_mod_pow2 by lia.
  rewrite (proj2 (Z.ltb_ge n 32)) by lia. done.
Qed.

(** ** Attribute changes and their commit *)
Section Attributes.
Context `{HL : SafeIOLaws} {D : Type} `{RWL : RWLaws D} `{CK : Clock} (partOff : Z).
Context (Hclock : forall n, time_ok (clock_at n)).
Context (X : txState D -> Prop) (HX : forall w' : txState D, full (tx_cow w') -> X w').
Context (dv : dataView) (Hroom : partOff + superblockOffset + sbfSize <= dv_size dv).
Abbreviation W := (txState D).
Abbreviation repr := (repr partOff trees).

(** What an operation that replaces one inode item leaves. *)
Definition edited (t : Prop) (w : W) (h : nat) (m : gmap key bytes) (ino : Z) (f : timespec -> InodeStat -> InodeStat) (w' : W) : Prop :=
  exists h' m' now, (h' <= h)%nat /\ Z.of_nat h' <= maxBtreeDepth /\ repr t dv w' h' m' /\ time_ok now /\ inode_edit m m' ino (f now) /\ committed (tx_sb w) (tx_sb w').
(** After an error, the item is the old or the new one and everything else is kept. *)
Definition edit_failed (t : Prop) (w : W) (m : gmap key bytes) (ino : Z) (f : timespec -> InodeStat -> InodeStat) (w' : W) : Prop :=
  exists h' m', FsTree.repr partOff any_rest t dv w' h' m' /\ committed (tx_sb w) (tx_sb w') /\
    (m' = m \/ exists now, time_ok now /\ inode_edit m m' ino (f now)).

(** The mutator may look at the tree; it edits the record by [f]. *)
Lemma updateInodeMetadata_reading t w h m ino (mu : bytes -> SM W bytes) f (Q : unit -> W -> Prop) (E : error -> W -> Prop) :
  repr t dv w h m -> is_u64 ino -> inodes_ok m -> exts_ok m ->
  (forall d (Q' : bytes -> W -> Prop), Z.of_nat h <= maxBtreeDepth -> m !! inodeKey ino = Some d ->
     (forall d', blen d' = blen d -> stat_of ino d' = f (stat_of ino d) -> Q' d' w) -> wp X (mu d) w Q' E) ->
  let g now s := st_change (next_gen (tx_sb w)) now (f s) in
  (forall w', edited t w h m ino g w' -> Q tt w') -> (forall e w', edit_failed t w m ino g w' -> E e w') ->
  wp X (updateInodeMetadata partOff ino mu) w Q E.
Proof using HL RWL Hclock HX Hroom.
  intros Hr Hu Hok Hex Ho g HQ HE. unfold updateInodeMetadata.
  assert (HE0 : forall e w', repr t dv w' h m -> next w w' -> E e w').
  { intros e w' Hr' Hn. apply HE. exists h, m. split_and!; [by eapply repr_any|rewrite Hn; apply committed_refl|by left]. }
  apply wp_bind. eapply (fs_search_spec partOff trees X t dv w h m); [done|key_tac| |intros e _; by apply HE0].
  intros buf it d Hlow Ed _ Ecp. cbv beta iota. rewrite Ecp. specialize (Hok _ _ Ed) as Hd. apply wp_bind, (Ho d _ Hlow Ed). intros d1 L1 S1.
  apply wp_bind, wp_gets, wp_bind. assert (Hok1 : inodeItemSize <= blen d1) by lia.
  pose proof (fun now Ht => edit_change ino d1 Hok1 (next_gen (tx_sb w)) now (u64_range _) Ht) as Hch.
  assert (Hb : exists d2, bumpInodeTransIDSequence d1 (next_gen (tx_sb w)) = Ok d2).
  { destruct (Hch (clock_at 0%nat) (Hclock _)) as (dx&Ex&_). apply outcome_bind_Ok in Ex as (d2&Ex&_). by exists d2. }
  destruct Hb as [d2 Eb]. eapply wp_lift_ok; [exact Eb|]. apply wp_bind, (now_spec partOff trees Hclock X t dv w h m); [done|].
  intros w1 now Ht Hr1 Hn1. destruct (Hch now Ht) as (d3&E3&L3&S3). rewrite Eb in E3. cbn [mbind outcome_bind] in E3.
  wp_ok E3. apply wp_bind. eapply (put_inode_spec partOff trees X t dv w1 h m ino d d3 (g now)); [done|done|done|lia|done| | |].
  - unfold g. by rewrite S3, S1.
  - intros w2 h2 m2 Hle2 Hlow2 Hr2 He2 Hn2. assert (Hsb : tx_sb w2 = tx_sb w) by (rewrite Hn2; exact Hn1).
    apply (commit_spec partOff X dv Hroom t w2 h2 m2); [done|by eapply exts_ok_edit|done| |].
    + intros w3 Hr3 Hc3 _ _ _. apply HQ. exists h2, m2, now. rewrite <- Hsb. done.
    + intros e w3 Hr3 Hc3 _. apply HE. exists h2, m2. rewrite <- Hsb. split_and!; [done|done|right; by exists now].
  - intros e w2 Hr2 Hn2. apply HE0; [done|by etrans].
Qed.

Lemma updateInodeMetadata_spec t w h m ino o f (Q : unit -> W -> Prop) (E : error -> W -> Prop) :
  repr t dv w h m -> is_u64 ino -> inodes_ok m -> exts_ok m ->
  (forall d, m !! inodeKey ino = Some d -> edits ino d (o d) f) ->
  let g now s := st_change (next_gen (tx_sb w)) now (f s) in
  (forall w', edited t w h m ino g w' -> Q tt w') -> (forall e w', edit_failed t w m ino g w' -> E e w') ->
  wp X (updateInodeMetadata partOff ino (fun d => sm_lift (o d))) w Q E.
Proof using HL RWL Hclock HX Hroom.
  intros Hr Hu Hok Hex Ho g HQ HE. eapply updateInodeMetadata_reading; try done.
  intros d Q' _ Ed HQ'. destruct (Ho d Ed) as (d1&E1&L1&S1). eapply wp_lift_ok; [exact E1|]. by apply HQ'.
Qed.

(** The attribute changes of the API, and what each does to the record. *)
Inductive attrOp :=
| Chown (uid gid : Z) | Chmod (perm : Z) | Chtimes (atime mtime : timespec) | Grow (newSize : Z).

Definition run_attr (op : attrOp) (p : bytes) : SM W unit :=
  match op with
  | Chown uid gid => chownInode partOff p uid gid
  | Chmod perm => chmodInode partOff p perm
  | Chtimes atime mtime => chtimesInode partOff p atime mtime
  | Grow newSize => Truncate partOff p newSize
  end.
Definition attr_fields (op : attrOp) (s : InodeStat) : InodeStat :=
  match op with
  | Chown uid gid => st_owner uid gid s
  | Chmod perm => st_mode (Z.lor (Z.ldiff (is_Mode s) 0xFFF) (Z.land perm 0xFFF)) s
  | Chtimes atime mtime => st_mtime mtime (st_atime atime s)
  | Grow newSize => st_size newSize s
  end.
(** The arguments fit the types, and [Grow] is a truncation that does not shrink. *)
Definition attr_args (op : attrOp) (i : inodeItem) : Prop :=
  match op with
  | Chown uid gid => 0 <= uid < 2 ^ 32 /\ 0 <= gid < 2 ^ 32
  | Chmod perm => 0 <= perm < 2 ^ 32
  | Chtimes atime mtime => time_ok atime /\ time_ok mtime
  | Grow newSize => isRegular i = true /\ in_size i < newSize < 2 ^ 63
  end.

Lemma Uint32_mode d : inodeItemSize <= blen d -> Uint32 d inodeOffMode = Ok (rd 4 d inodeOffMode).
Proof using. intros. apply get_le_Ok; stat_offs; lia. Qed.

Lemma run_attr_spec t w h m op p i (Q : unit -> W -> Prop) (E : error -> W -> Prop) :
  repr t dv w h m -> inodes_ok m -> exts_ok m -> resolves m p i -> attr_args op i ->
  let g now s := st_change (next_gen (tx_sb w)) now (attr_fields op s) in
  (forall w', edited t w h m (in_num i) g w' -> Q tt w') ->
  (forall e w', edit_failed t w m (in_num i) g w' -> E e w') ->
  wp X (run_attr op p) w Q E.
Proof using HL RWL Hclock HX Hroom.
  intros Hr Hok Hex Hres Hargs g HQ HE.
  assert (Hf0 : edit_failed t w m (in_num i) g w)
    by (exists h, m; split_and!; [by eapply repr_any|apply committed_refl|by left]).
  assert (Hpath : forall (k : inodeItem -> SM W unit), (is_u64 (in_num i) -> wp X (k i) w Q E) ->
    wp X (i ← fs_path partOff p; k i) w Q E).
  { intros k Hk. apply wp_bind. eapply (fs_path_spec partOff trees X t dv w h m); [done| |intros e _; by apply HE].
    intros i' _ Hu Hres'. rewrite (resolves_fun _ _ _ _ Hres' Hres) in *. by apply Hk. }
  assert (Hmeta : is_u64 (in_num i) -> forall o, (forall d, inodeItemSize <= blen d -> edits (in_num i) d (o d) (attr_fields op)) ->
    wp X (updateInodeMetadata partOff (in_num i) (fun d => sm_lift (o d))) w Q E).
  { intros Hu o Ho. eapply updateInodeMetadata_spec; try done. intros d Ed. apply Ho. by eapply Hok. }
  destruct op as [uid gid|perm|atime mtime|newSize]; cbn [run_attr attr_args attr_fields] in *.
  - apply Hpath. intros Hu. apply Hmeta; [done|]. intros d Hd. apply edit_owner; [done|apply Hargs..].
  - apply Hpath. intros Hu. apply Hmeta; [done|]. intros d Hd. rewrite Uint32_mode by done. cbn [mbind outcome_bind].
    destruct (edit_mode (in_num i) d Hd (Z.lor (Z.ldiff (rd 4 d inodeOffMode) 0xFFF) (Z.land (u32 perm) 0xFFF))) as (d'&E1&L1&S1).
    { apply chmod_range. apply (rd_range 4). }
    exists d'. split_and!; [done|done|]. rewrite S1, chmod_bits by done. done.
  - apply Hpath. intros Hu. apply Hmeta; [done|]. intros d Hd. apply edit_times; [done|apply Hargs..].
  - unfold Truncate. destruct Hargs as (Hreg&Hlt&Hmax).
    assert (Hsz : 0 <= in_size i).
    { destruct Hres as (_&d&_&Hdec). rewrite decode_inode_spec in Hdec. case_if_in Hdec; [done|]. injection Hdec as <-. cbn.
      apply (rd_range 8). }
    rewrite (proj2 (Z.ltb_ge _ _)) by lia. rewrite u64_small by (unfold is_u64; lia). apply Hpath. intros Hu. rewrite Hreg. cbn [negb].
    rewrite (proj2 (Z.ltb_lt _ _)) by lia. apply Hmeta; [done|]. intros d Hd. apply edit_size; [done|unfold is_u64; lia].
Qed.
End Attributes.

(** ** Reading the attributes back *)
Lemma ExtendedStat_spec `{HL : SafeIOLaws} {D : Type} `{RWL : RWLaws D} partOff R (X : txState D -> Prop) t dv w h m p i d
    (Q : InodeStat -> txState D -> Prop) E :
  repr partOff R t dv w h m -> Z.of_nat h <= maxBtreeDepth -> resolves m p i -> m !! inodeKey (in_num i) = Some d ->
  inodeItemSize <= blen d -> Q (stat_of (in_num i) d) w -> wp X (ExtendedStat partOff p) w Q E.
Proof.
  intros Hr Hh Hres Ed Hd HQ. unfold ExtendedStat. apply wp_bind.
  eapply (fs_path_spec partOff R X t dv w h m); [done| |intros e He; exfalso; by apply (He Hh i)].
  intros i' _ Hu Hres'. rewrite (resolves_fun _ _ _ _ Hres' Hres) in *. apply wp_bind.
  eapply (fs_search_spec partOff R X t dv w h m); [done|key_tac| |intros e He; destruct (He Hh); congruence].
  intros buf it d' _ Ed' Eit _. assert (d' = d) as -> by congruence. cbv beta iota. rewrite Eit, decode_stat_spec.
  rewrite (proj2 (Z.ltb_ge _ _)) by lia. by apply wp_lift.
Qed.

Lemma resolves_edit m m' p i f :
  resolves m p i -> inodes_ok m -> inode_edit m m' (in_num i) f ->
  exists i' d', resolves m' p i' /\ in_num i' = in_num i /\ m' !! inodeKey (in_num i) = Some d' /\ inodeItemSize <= blen d' /\
    exists d, m !! inodeKey (in_num i) = Some d /\ stat_of (in_num i) d' = f (stat_of (in_num i) d).
Proof.
  intros (Hp&d0&E0&Hdec) Hok He. pose proof He as (d&d'&Ed&Em&L&S). pose proof (Hok _ _ Ed) as Hd.
  exists (InodeItem (in_num i) (is_Mode (stat_of (in_num i) d')) (is_Size (stat_of (in_num i) d')) (is_NLink (stat_of (in_num i) d'))), d'.
  assert (Ed' : m' !! inodeKey (in_num i) = Some d') by (by rewrite Em, lookup_insert_eq).
  split_and!; [|done|done|lia|by exists d]. split; cbn [in_num].
  - eapply path_to_agree; [by eapply inode_edit_dirs|done].
  - exists d'. split; [done|]. rewrite decode_inode_spec. by rewrite (proj2 (Z.ltb_ge _ _)) by lia.
Qed.

(** C15. [Chown], [Chmod], [Chtimes] and a growing [Truncate] change exactly what they
    are meant to.  When the call succeeds, the attributes [ExtendedStat] returns
    for the path are those from before with the named fields changed (of the mode
    only the permission bits), the transaction id set to the new generation, the
    sequence counted up and the change time set to the clock; every other item of
    the FS tree and all file data are as before.  When it fails, the inode has its
    old or its new attributes and nothing else changed. *)
Theorem attributes_change_exactly `{HL : SafeIOLaws} {D : Type} `{RWL : RWLaws D} `{CK : Clock} (partOff : Z)
    (t : Prop) (dv : dataView) (w : txState D) (h : nat) (m : gmap key bytes) (op : attrOp) (p : bytes) (i : inodeItem) :
  (forall n, time_ok (clock_at n)) -> partOff + superblockOffset + sbfSize <= dv_size dv ->
  repr partOff trees t dv w h m -> Z.of_nat h <= maxBtreeDepth -> inodes_ok m -> exts_ok m ->
  resolves m p i -> attr_args op i ->
  match run_attr partOff op p w with
  | (w', Ok _) => exists old now m' h', ExtendedStat partOff p w = (w, Ok old) /\ time_ok now /\
      ExtendedStat partOff p w' = (w', Ok (st_change (next_gen (tx_sb w)) now (attr_fields op old))) /\
      repr partOff trees t dv w' h' m' /\ forall k, k <> inodeKey (in_num i) -> m' !! k = m !! k
  | (w', Err _) => exists m' h', repr partOff any_rest t dv w' h' m' /\
      (m' = m \/ exists now, time_ok now /\
        inode_edit m m' (in_num i) (fun s => st_change (next_gen (tx_sb w)) now (attr_fields op s)))
  | (w', Panic) => full (tx_cow w')
  | (_, NoFuel) => False
  end.
Proof.
  intros Hclock Hroom Hr Hh Hok Hex Hres Hargs.
  apply (run_attr_spec partOff Hclock (fun w' => full (tx_cow w')) ltac:(done) dv Hroom t w h m op p i
    (fun _ w' => exists old now m' h', ExtendedStat partOff p w = (w, Ok old) /\ time_ok now /\
      ExtendedStat partOff p w' = (w', Ok (st_change (next_gen (tx_sb w)) now (attr_fields op old))) /\
      repr partOff trees t dv w' h' m' /\ forall k, k <> inodeKey (in_num i) -> m' !! k = m !! k)
    (fun _ w' => exists m' h', repr partOff any_rest t dv w' h' m' /\
      (m' = m \/ exists now, time_ok now /\
        inode_edit m m' (in_num i) (fun s => st_change (next_gen (tx_sb w)) now (attr_fields op s)))));
    try done.
  - intros w' (h'&m'&now&_&Hlow&Hr'&Ht&He&_). destruct (resolves_edit m m' p i _ Hres Hok He) as (i'&d'&Hres'&Ei&Ed'&Hd'&d&Ed&S).
    exists (stat_of (in_num i) d), now, m', h'. split_and!; [|done| |done|].
    + apply wp_is. eapply (ExtendedStat_spec partOff trees never t dv w h m p i d); try done. by eapply Hok.
    + apply wp_is. rewrite <- S, <- Ei. eapply (ExtendedStat_spec partOff trees never t dv w' h' m' p i' d'); try done. by rewrite Ei.
    + intros k Hk. by eapply inode_edit_frame.
  - intros e w' (h'&m'&Hr'&_&Hm'). by exists m', h'.
Qed.
