(* ===== verification/Entries.v ===== *)
(** * Adding a directory entry (write.go, mkdir.go, symlink.go)

    The DIR_INDEX, DIR_ITEM and INODE_REF items of a new name and the changes of
    the parent's inode: what they add to the map the FS tree stands for, and how
    lookups see it. *)
From Stdlib Require Import ZArith Lia Strings.Byte.
From stdpp Require Import base option list numbers sorting gmap.
From S2P Require Import Prelude Bytes Alloc Layout SafeIO Chunk Node BTree Walk Split Crc32c Cow Store CowCorrect.
From S2P Require Import Codec Read FileRead Tx Extent Ops FsTree FsLookup InodeEdit Rebuild FsData ExtentLayout ExtentWrite CommitCorrect InodeOps.
Local Open Scope Z_scope.
Local Open Scope btrfs_scope.

(** Nothing of [m] is lost in [m'], apart from the content of one inode item. *)
Definition extends (parent : Z) (m m' : gmap key bytes) : Prop :=
  (forall k d, m !! k = Some d -> k <> inodeKey parent -> m' !! k = Some d) /\
  (is_Some (m !! inodeKey parent) -> is_Some (m' !! inodeKey parent)).

#[global] Instance extends_preorder parent : PreOrder (extends parent).
Proof.
  split; [done|]. intros a b c [H1 H2] [H3 H4]. split; [|auto]. intros k d E Hk. apply H3; [by apply H1|done].
Qed.
Lemma extends_insert parent m k d : m !! k = None -> extends parent m (<[k := d]> m).
Proof.
  intros Hn. split.
  - intros k' d' E _. rewrite lookup_insert_ne; [done|]. intros <-. congruence.
  - intros [x Ex]. destruct (decide (k = inodeKey parent)) as [->|Hne]; [by rewrite lookup_insert_eq|].
    rewrite lookup_insert_ne by done. by exists x.
Qed.
Lemma extends_edit parent m m' f : inode_edit m m' parent f -> extends parent m m'.
Proof.
  intros He. split.
  - intros k d E Hk. by rewrite (inode_edit_frame _ _ _ _ _ He).
  - intros _. destruct He as (d&d'&_&->&_). by rewrite lookup_insert_eq.
Qed.
Lemma extends_subseteq parent m m' : m ⊆ m' -> extends parent m m'.
Proof. intros Hs. split; [intros k d E _; by eapply lookup_weaken|]. intros [x E]. exists x. by eapply lookup_weaken. Qed.

(** The three items of a new name. *)
Definition entry_items (m : gmap key bytes) (ino parent : Z) (name : bytes) (ft idx : Z) : gmap key bytes :=
  let d := encodeDirItem ino typeInodeItem ft name in
  <[Key ino typeInodeRef parent := encodeInodeRef idx name]>
    (<[Key parent typeDirItem (hashDirName name) := d]> (<[Key parent typeDirIndex idx := d]> m)).

(** What [adjustDirSize] and [touchDir] do to the parent. *)
Definition entry_added (name : bytes) (gen : Z) (now : timespec) (s : InodeStat) : InodeStat :=
  let s := st_size (dir_size (is_Size s) (dirEntrySizeDelta name)) s in
  st_mtime now (st_change gen now (st_nlink (link_count (is_NLink s) 0) s)).

Lemma encodeDirItem_nonempty o t ft name : encodeDirItem o t ft name <> [].
Proof.
  intros E. apply (f_equal blen) in E. revert E. unfold encodeDirItem, dirItemHdrSize. pose proof (blen_nonneg name).
  set (n := blen name) in *. rewrite blen_nil.
  match goal with |- blen ?b = 0 -> False => assert (L : blen b = 0x1E + n) by (unfold n; blen_tac) end. lia.
Qed.
Lemma encodeInodeRef_nonempty idx name : encodeInodeRef idx name <> [].
Proof.
  intros E. apply (f_equal blen) in E. revert E. unfold encodeInodeRef. pose proof (blen_nonneg name).
  set (n := blen name) in *. rewrite blen_nil.
  match goal with |- blen ?b = 0 -> False => assert (L : blen b = 10 + n) by (unfold n; blen_tac) end. lia.
Qed.

Lemma covered_parent m parent d k :
  m !! inodeKey parent = Some d -> is_u64 parent -> key_ok k -> (parent < objID k \/ objID k = parent /\ 0 < typ k) -> covered m k.
Proof.
  intros E Hp (Ho&Ht&Hf) Hk. exists (inodeKey parent), d. split; [done|]. unfold key_num, is_u64 in *. cbn [objID typ offset inodeKey].
  unfold typeInodeItem. lia.
Qed.

(** ** How lookups see a new name *)
Definition entry_item (r : Z * Z) (name : bytes) : bytes := encodeDirItem r.1 typeInodeItem r.2 name.
Definition named (m : gmap key bytes) (parent : Z) (name : bytes) (idx : Z) (r : Z * Z) : gmap key bytes :=
  <[Key parent typeDirItem (hashDirName name) := entry_item r name]> (<[Key parent typeDirIndex idx := entry_item r name]> m).

Lemma entry_in_item name n r :
  is_u64 r.1 -> 0 <= r.2 < 256 -> blen name < 2 ^ 16 ->
  entry_in n (entry_item r name) = Ok (if bool_decide (name = n) then Some r else None).
Proof.
  intros Hu Ht Hn. destruct r as [ino ft]. cbn [fst snd] in *. unfold entry_in, parseDirItems, entry_item. cbn [fst snd].
  pose proof (parseDirItems_loop_enc (length (encodeDirItem ino typeInodeItem ft name)) [] [DirEntry ino name ft] n) as Hp.
  cbn [map concat app List.find de_name de_objID de_type enc_entry] in Hp. rewrite app_nil_r in Hp. change (blen []) with 0 in Hp.
  unfold enc_entry in Hp. cbn [de_name de_objID de_type] in Hp. change (encodeDirItem ino 1 ft name) with (encodeDirItem ino typeInodeItem ft name) in Hp.
  rewrite Hp; [|constructor; [done|constructor]|lia]. by case_bool_decide.
Qed.

Lemma first_entry_snoc name l k d :
  entry_in name d = Ok None -> first_entry name (l ++ [(k, d)]) = first_entry name l.
Proof.
  intros E. induction l as [|x l IH]; cbn [app first_entry]; [cbn [snd]; by rewrite E|].
  destruct (entry_in name x.2) as [[]| | |]; cbn [mbind outcome_bind]; try done.
Qed.

Section Named.
Context (m : gmap key bytes) (parent : Z) (name : bytes) (idx : Z) (e : Z * Z) (l0 : list rec).
Context (He1 : is_u64 e.1) (He2 : 0 <= e.2 < 256) (Hlen : blen name < 2 ^ 16).
Context (Hslot : m !! Key parent typeDirItem (hashDirName name) = None) (Hidx : index_fresh m parent idx).
Context (Hl0 : prefix_of m parent typeDirIndex l0).
Abbreviation m' := (named m parent name idx e).

Lemma named_hit : dir_entry m' parent name e.
Proof using He1 He2 Hlen.
  left. exists (entry_item e name). unfold named. rewrite lookup_insert_eq. split; [done|].
  rewrite entry_in_item by done. by rewrite bool_decide_eq_true_2.
Qed.

Lemma named_item_hit dir n r : ~ (dir = parent /\ n = name) -> item_hit m' dir n r <-> item_hit m dir n r.
Proof using He1 He2 Hlen Hslot.
  intros Hne. unfold item_hit, named.
  destruct (decide (Key parent typeDirItem (hashDirName name) = Key dir typeDirItem (hashDirName n))) as [E|E].
  - rewrite <- E, lookup_insert_eq, Hslot. split; [|by intros (d&?&_)]. intros (d&[= <-]&Ed). exfalso.
    rewrite entry_in_item in Ed by done. injection E as Ed' _. case_bool_decide; [|done]. by apply Hne.
  - rewrite lookup_insert_ne by done. by rewrite lookup_insert_ne by done.
Qed.

Lemma named_index : prefix_of m' parent typeDirIndex (l0 ++ [(Key parent typeDirIndex idx, entry_item e name)]).
Proof using Hidx Hl0.
  destruct Hidx as [_ Hi]. unfold named.
  eapply prefix_of_frame; [|apply (prefix_of_snoc m parent typeDirIndex l0 (Key parent typeDirIndex idx) (entry_item e name)); try done].
  - intros k Ho Ht. rewrite lookup_insert_ne; [done|]. intros <-. done.
  - apply Forall_forall. intros [k d] Hr. apply Hl0 in Hr as (Ek&Ho&Ht). specialize (Hi k d Ek Ho Ht).
    unfold key_lt, key_num. cbn [fst objID typ offset]. lia.
  - destruct (m !! Key parent typeDirIndex idx) as [x|] eqn:Ex; [|done]. specialize (Hi _ _ Ex eq_refl eq_refl). cbn in Hi. lia.
Qed.

Lemma named_dir_entry dir n r :
  dir_entry m' dir n r <-> (dir = parent /\ n = name /\ r = e) \/ (~ (dir = parent /\ n = name) /\ dir_entry m dir n r).
Proof using All.
  destruct (decide (dir = parent)) as [->|Hd]; [destruct (decide (n = name)) as [->|Hn]|].
  - split; [|intros [(_&_&->)|[[] _]]; [apply named_hit|done]]. intros Hr. left. split_and!; try done.
    by eapply dir_entry_fun; [|apply named_hit].
  - assert (Hne : ~ (parent = parent /\ n = name)) by tauto.
    assert (Hmiss : entry_in n (entry_item e name) = Ok None) by (rewrite entry_in_item by done; by rewrite bool_decide_eq_false_2).
    transitivity (dir_entry m parent n r); [|tauto]. unfold dir_entry. rewrite named_item_hit by done.
    assert (Hhits : (forall r', ~ item_hit m' parent n r') <-> (forall r', ~ item_hit m parent n r')).
    { split; intros H r'; specialize (H r'); by rewrite named_item_hit in H || rewrite named_item_hit. }
    rewrite Hhits. split; (intros [?|[? (l&Hl&El)]]; [by left|right]); (split; [done|]).
    + exists l0. split; [done|]. rewrite (prefix_of_unique _ _ _ _ _ Hl named_index) in El. by rewrite first_entry_snoc in El.
    + eexists. split; [apply named_index|]. rewrite (prefix_of_unique _ _ _ _ _ Hl Hl0) in El. by rewrite first_entry_snoc.
  - assert (Hne : ~ (dir = parent /\ n = name)) by tauto.
    transitivity (dir_entry m dir n r); [|tauto]. unfold dir_entry. rewrite named_item_hit by done.
    assert (Hhits : (forall r', ~ item_hit m' dir n r') <-> (forall r', ~ item_hit m dir n r')).
    { split; intros H r'; specialize (H r'); by rewrite named_item_hit in H || rewrite named_item_hit. }
    assert (Hf : forall k, objID k = dir -> typ k = typeDirIndex -> m' !! k = m !! k).
    { intros k Ho Ht. unfold named. rewrite !lookup_insert_ne; [done|intros <-; done..]. }
    rewrite Hhits. split; (intros [?|[? (l&Hl&El)]]; [by left|right]); (split; [done|]); exists l; (split; [|done]);
      (eapply prefix_of_frame; [|exact Hl]); intros k Ho Ht; by rewrite Hf.
Qed.

Lemma named_path_to parts cur ino :
  (forall r, ~ dir_entry m parent name r) -> path_to m parts cur ino -> path_to m' parts cur ino.
Proof using All.
  intros Hn. revert cur. induction parts as [|n parts IH]; intros cur; cbn [path_to]; [done|].
  intros (r&Hr&Hp). exists r. split; [|by apply IH]. apply named_dir_entry. right. split; [|done].
  intros [-> ->]. by apply (Hn r).
Qed.
End Named.

Lemma path_to_app m parts parts' cur ino : path_to m (parts ++ parts') cur ino <-> exists mid, path_to m parts cur mid /\ path_to m parts' mid ino.
Proof.
  revert cur. induction parts as [|n parts IH]; intros cur; cbn [app path_to]; [split; [by exists cur|by intros (?&->&?)]|].
  setoid_rewrite IH. split; [intros (r&?&mid&?&?); exists mid; split; [by exists r|done]|intros (mid&(r&?&?)&?); exists r; split; [done|by exists mid]].
Qed.

Section Entries.
Context `{HL : SafeIOLaws} {D : Type} `{RWL : RWLaws D} `{CK : Clock} (partOff : Z) (R : keeper) `{HR : !Stable R}.
Context (Hclock : forall n, time_ok (clock_at n)).
Context (X : txState D -> Prop).
Abbreviation W := (txState D).
Abbreviation repr := (repr partOff R).

Lemma add_entry_spec (t : Prop) dv w h m ino parent name ft (Q : unit -> W -> Prop) E :
  t -> repr t dv w h m -> dirs_numbered m -> inodes_ok m -> is_u64 ino -> is_u64 parent -> parent < ino ->
  is_Some (m !! inodeKey parent) -> m !! Key parent typeDirItem (hashDirName name) = None ->
  m !! Key ino typeInodeRef parent = None -> name <> [] ->
  (forall w' h' m' idx now, Z.of_nat h' <= maxBtreeDepth -> repr t dv w' h' m' -> index_fresh m parent idx -> is_u64 idx -> time_ok now ->
     inode_edit (entry_items m ino parent name ft idx) m' parent (entry_added name (next_gen (tx_sb w)) now) -> next w w' -> Q tt w') ->
  (forall e w', (exists h' m', repr t dv w' h' m' /\ extends parent m m') -> next w w' -> E e w') ->
  wp X (add_entry partOff ino parent name ft) w Q E.
Proof using HL RWL HR Hclock.
  intros Ht Hr Hnum Hok Hui Hup Hlt Hpar Hdi Href Hname HQ HE. destruct Hpar as [dp Edp]. unfold add_entry.
  set (item := encodeDirItem ino typeInodeItem ft name).
  apply wp_bind, (nextDirIndexOffset_spec partOff R X t dv w h m); [done|done|]. intros idx Hidx Hfresh.
  set (k1 := Key parent typeDirIndex idx). set (k2 := Key parent typeDirItem (hashDirName name)). set (k3 := Key ino typeInodeRef parent).
  assert (Hk1 : key_ok k1) by (unfold k1; key_tac). assert (Hk2 : key_ok k2) by (unfold k2; key_tac).
  assert (Hk3 : key_ok k3) by (unfold k3; key_tac).
  apply wp_bind. eapply (fs_insert_spec partOff R X t dv w h m); [done|done|exact Hk1| | |apply encodeDirItem_nonempty| |].
  { intros Hh. destruct (Hfresh Hh) as [_ Hf]. destruct (m !! k1) as [x|] eqn:Ex; [|done]. specialize (Hf k1 x Ex eq_refl eq_refl). cbn in Hf. lia. }
  { intros _. eapply covered_parent; [exact Edp|done|done|]. right. done. }
  2: { intros e w' Hr' Hn. apply HE; [by exists h, m|done]. }
  intros w1 h1 Hh Hr1 Hn1. specialize (Hfresh Hh).
  assert (E1 : m !! k1 = None).
  { destruct Hfresh as [_ Hf]. destruct (m !! k1) as [x|] eqn:Ex; [|done]. specialize (Hf k1 x Ex eq_refl eq_refl). cbn in Hf. lia. }
  assert (X1 : extends parent m (<[k1 := item]> m)) by (by apply extends_insert).
  set (m1 := <[k1 := item]> m) in *.
  assert (P1 : m1 !! inodeKey parent = Some dp) by (unfold m1; rewrite lookup_insert_ne; done).
  apply wp_bind. eapply (fs_insert_spec partOff R X t dv w1 h1 m1); [done|done|exact Hk2| | |apply encodeDirItem_nonempty| |].
  { intros _. unfold m1. rewrite lookup_insert_ne; done. }
  { intros _. eapply covered_parent; [exact P1|done|done|]. right. done. }
  2: { intros e w' Hr' Hn. apply HE; [by exists h1, m1|by etrans]. }
  intros w2 h2 _ Hr2 Hn2. set (m2 := <[k2 := item]> m1) in *.
  assert (X2 : extends parent m m2) by (etrans; [exact X1|]; apply extends_insert; unfold m1; rewrite lookup_insert_ne; done).
  assert (P2 : m2 !! inodeKey parent = Some dp) by (unfold m2; rewrite lookup_insert_ne; done).
  assert (E3 : m2 !! k3 = None).
  { unfold m2, m1. rewrite lookup_insert_ne by done. rewrite lookup_insert_ne by done. done. }
  apply wp_bind. eapply (fs_insert_spec partOff R X t dv w2 h2 m2); [done|done|exact Hk3|done| |apply encodeInodeRef_nonempty| |].
  { intros _. eapply covered_parent; [exact P2|done|done|]. left. done. }
  2: { intros e w' Hr' Hn. apply HE; [by exists h2, m2|by etrans; [|etrans]]. }
  intros w3 h3 _ Hr3 Hn3. change (<[k3 := encodeInodeRef idx name]> m2) with (entry_items m ino parent name ft idx) in *.
  set (m3 := entry_items m ino parent name ft idx) in *.
  assert (X3 : extends parent m m3) by (etrans; [exact X2|]; by apply extends_insert).
  assert (Hok3 : inodes_ok m3).
  { intros i d. unfold m3, entry_items. rewrite !lookup_insert_ne by done. apply Hok. }
  assert (Hnext3 : next w w3) by (by etrans; [|etrans]).
  apply wp_bind. eapply (adjustDirSize_spec partOff R X t dv w3 h3 m3); [done|done|done| | |].
  { unfold dirEntrySizeDelta. destruct name; [done|]. unfold blen. cbn [length]. lia. }
  2: { intros e w' Hr' Hn. apply HE; [by exists h3, m3|by etrans]. }
  intros w4 h4 m4 Hr4 He4 Hn4. assert (X4 : extends parent m m4) by (etrans; [exact X3|by eapply extends_edit]).
  unfold touchDir. eapply (adjustDirNlink_spec partOff R Hclock X t dv w4 h4 m4); [done|done|by eapply inodes_ok_edit| |].
  - intros w5 h5 m5 now Hlow Hr5 Hnow He5 Hn5. apply (HQ w5 h5 m5 idx now); [done|done|done|done|done| |by etrans; [|etrans]].
    assert (Hsb : tx_sb w4 = tx_sb w) by (rewrite Hn4; exact Hnext3). rewrite Hsb in He5.
    exact (inode_edit_trans _ _ _ _ _ _ He4 He5).
  - intros e w5 Hr5 Hn5. apply HE; [by exists h4, m4|by etrans; [|etrans]].
Qed.
End Entries.
