(* ===== verification/XattrOps.v ===== *)
(** * Extended attributes (xattr_write.go)

    [SetXattr] and [RemoveXattr] against [GetXattr]: the attributes of an inode are a
    map from names to values, up to names with the same hash, which share one item. *)
From Stdlib Require Import ZArith Lia Strings.Byte.
From stdpp Require Import base option list numbers sorting gmap.
From S2P Require Import Prelude Bytes Alloc Layout SafeIO Chunk Node BTree Walk Split Crc32c Cow Store CowCorrect.
From S2P Require Import Codec Read FileRead Tx Extent Ops FsTree FsLookup InodeEdit Rebuild FsData ExtentLayout ExtentWrite CommitCorrect.
From S2P Require Import InodeOps Entries.
Local Open Scope Z_scope.
Local Open Scope btrfs_scope.

(** What a read of the attribute [name] of [ino] gives. *)
Definition xattr_read (m : gmap key bytes) (ino : Z) (name : bytes) : outcome bytes :=
  match m !! xattrKey ino name with
  | None => Err ErrNotFound
  | Some d =>
      x ← parseXattrItem d;
      match x with
      | None => Err ErrOther
      | Some (gotName, gotValue) => if bool_decide (gotName = name) then Ok gotValue else Err ErrNotFound
      end
  end.

(** The two operations, and what each does to the item. *)
Inductive xattrOp := SetXattr (value : bytes) | RemoveXattr.

Definition xattr_item (op : xattrOp) (name : bytes) : option bytes :=
  match op with SetXattr value => Some (encodeXattrItemPayload name value) | RemoveXattr => None end.
Definition xattr_put (op : xattrOp) (m : gmap key bytes) (ino : Z) (name : bytes) : gmap key bytes :=
  partial_alter (fun _ => xattr_item op name) (xattrKey ino name) m.
(** What a later read of [nm], a name with the hash of [name], gives. *)
Definition xattr_after (op : xattrOp) (name nm : bytes) : outcome bytes :=
  match op with
  | SetXattr value => if bool_decide (nm = name) then Ok value else Err ErrNotFound
  | RemoveXattr => Err ErrNotFound
  end.
(** Names and values are stored with a length of 16 bits; a removal is followed in
    trees of any height, but one of more than two levels may lose its lower bounds. *)
Definition xattr_args (op : xattrOp) (name : bytes) (t : Prop) (h : nat) : Prop :=
  match op with
  | SetXattr value => t /\ blen name < 2 ^ 16 /\ blen value < 2 ^ 16
  | RemoveXattr => t -> (h <= 1)%nat
  end.

Lemma parseXattrItem_ok d : exists x, parseXattrItem d = Ok x.
Proof. destruct (xattr_roundtrip [] [] ltac:(done) ltac:(done)) as [_ Hp]. destruct (Hp d) as (x&E&_). by exists x. Qed.

Lemma xattr_put_eq op m ino name : xattr_put op m ino name !! xattrKey ino name = xattr_item op name.
Proof. apply lookup_partial_alter_eq. Qed.
Lemma xattr_put_ne op m ino name k : k <> xattrKey ino name -> xattr_put op m ino name !! k = m !! k.
Proof. intros Hk. by apply lookup_partial_alter_ne. Qed.

Lemma xattr_read_agree m m' ino name : m' !! xattrKey ino name = m !! xattrKey ino name -> xattr_read m' ino name = xattr_read m ino name.
Proof. unfold xattr_read. by intros ->. Qed.
Lemma xattr_read_put t h op m ino name nm :
  xattr_args op name t h -> hashDirName nm = hashDirName name -> xattr_read (xattr_put op m ino name) ino nm = xattr_after op name nm.
Proof.
  intros Ha Hh. unfold xattr_read. replace (xattrKey ino nm) with (xattrKey ino name) by (unfold xattrKey; by rewrite Hh).
  rewrite xattr_put_eq. destruct op as [value|]; cbn [xattr_item xattr_after]; [|done]. destruct Ha as (_&Hn&Hv).
  rewrite (proj1 (xattr_roundtrip name value Hn Hv)). cbn [mbind outcome_bind].
  rewrite (bool_decide_ext (name = nm) (nm = name)) by done. done.
Qed.

(** A path keeps its meaning when the directories and its inode item do. *)
Lemma resolves_frame m m' p i :
  same_dirs m m' -> m' !! inodeKey (in_num i) = m !! inodeKey (in_num i) -> resolves m p i -> resolves m' p i.
Proof. intros Hs Ei (Hp&d&Ed&Hd). split; [by eapply path_to_agree|]. exists d. by rewrite Ei. Qed.

Lemma xattr_put_dirs op m ino name : same_dirs m (xattr_put op m ino name).
Proof. intros k Hk. apply xattr_put_ne. intros ->. by destruct Hk. Qed.
Lemma xattr_put_inode op m ino name j : xattr_put op m ino name !! inodeKey j = m !! inodeKey j.
Proof. by apply xattr_put_ne. Qed.
Lemma xattr_put_inodes op m ino name : inodes_ok m -> inodes_ok (xattr_put op m ino name).
Proof. intros Hm j d. rewrite xattr_put_inode. apply Hm. Qed.
Lemma xattr_put_exts op m ino name : exts_ok m -> exts_ok (xattr_put op m ino name).
Proof.
  intros Hm k d E. destruct (decide (k = xattrKey ino name)) as [->|Hk]; [by intros Ht|].
  rewrite xattr_put_ne in E by done. by apply Hm.
Qed.

(** Every path that led somewhere leads to the same inode afterwards. *)
Lemma resolves_after m op ino name m' q j f :
  inodes_ok m -> inode_edit (xattr_put op m ino name) m' ino f -> resolves m q j -> exists j', resolves m' q j' /\ in_num j' = in_num j.
Proof.
  intros Hok He Hres. assert (Hres1 : resolves (xattr_put op m ino name) q j)
    by (eapply resolves_frame; [apply xattr_put_dirs|apply xattr_put_inode|done]).
  destruct (decide (in_num j = ino)) as [<-|Hne].
  - destruct (resolves_edit _ _ q j f Hres1 ltac:(by apply xattr_put_inodes) He) as (j'&_&Hres'&Ej&_). by exists j'.
  - exists j. split; [|done]. eapply resolves_frame; [by eapply inode_edit_dirs| |done].
    eapply inode_edit_frame; [done|]. intros [= E]. done.
Qed.

Section Xattr.
Context `{HL : SafeIOLaws} {D : Type} `{RWL : RWLaws D} `{CK : Clock} (partOff : Z).
Abbreviation W := (txState D).

Lemma getXattr_run R t dv (w : W) h m p i name :
  repr partOff R t dv w h m -> Z.of_nat h <= maxBtreeDepth -> resolves m p i ->
  getXattrInode partOff p name w = (w, xattr_read m (in_num i) name).
Proof using HL RWL.
  intros Hr Hh Hres.
  assert (Hwp : wp never (getXattrInode partOff p name) w
    (fun a w' => w' = w /\ xattr_read m (in_num i) name = Ok a) (fun e w' => w' = w /\ xattr_read m (in_num i) name = Err e)).
  { apply wp_bind. eapply (fs_path_spec partOff R never t dv w h m); [done| |intros e He; exfalso; by apply (He Hh i)].
    intros i' _ Hu Hres'. rewrite (resolves_fun _ _ _ _ Hres' Hres) in *. apply wp_bind. unfold xattr_read.
    eapply (fs_search_spec partOff R never t dv w h m); [done|unfold xattrKey; key_tac| |].
    - intros buf it d _ -> -> _. cbv beta iota. destruct (parseXattrItem_ok d) as [x Ex]. rewrite Ex. apply wp_bind, wp_lift.
      cbn [mbind outcome_bind]. destruct x as [[n v]|]; [|by apply wp_fail]. destruct (bool_decide (n = name)); [by apply wp_ret|by apply wp_fail].
    - intros e He. destruct (He Hh) as [-> ->]. done. }
  unfold wp in Hwp. destruct (getXattrInode partOff p name w) as [w' [v|e| |]]; try done; by destruct Hwp as [-> ->].
Qed.

Context (Hclock : forall n, time_ok (clock_at n)).
Context (X : W -> Prop) (HX : forall w' : W, full (tx_cow w') -> X w').
Context (dv : dataView) (Hroom : partOff + superblockOffset + sbfSize <= dv_size dv).

Definition run_xattr (op : xattrOp) (p name : bytes) : SM W unit :=
  match op with
  | SetXattr value => setXattrInode partOff p name value
  | RemoveXattr => removeXattrInode partOff p name
  end.

(** The first step of both: the item is written, or nothing happened. *)
Lemma put_item_spec R `{HR : !Stable R} t w h m op ino name d (Q : unit -> W -> Prop) (E : error -> W -> Prop) :
  repr partOff R t dv w h m -> Z.of_nat h <= maxBtreeDepth -> is_u64 ino -> m !! inodeKey ino = Some d -> xattr_args op name t h ->
  (forall w' h', repr partOff R t dv w' h' (xattr_put op m ino name) -> next w w' ->
     (op = RemoveXattr -> is_Some (m !! xattrKey ino name)) -> Q tt w') ->
  (forall e w', repr partOff R t dv w' h m -> next w w' -> (op = RemoveXattr -> m !! xattrKey ino name = None -> e = ErrNotFound) -> E e w') ->
  wp X (match op with
        | SetXattr value =>
            r ← sm_try (fs_search partOff (xattrKey ino name));
            match r with
            | Ok _ => fs_update partOff (xattrKey ino name) (encodeXattrItemPayload name value)
            | Err _ => fs_insert partOff (xattrKey ino name) (encodeXattrItemPayload name value)
            | Panic => sm_lift Panic
            | NoFuel => sm_lift NoFuel
            end
        | RemoveXattr => fs_delete partOff (xattrKey ino name)
        end) w Q E.
Proof using HL RWL.
  intros Hr Hh Hu Ed Ha HQ HE. assert (Hk : key_ok (xattrKey ino name)) by (unfold xattrKey; key_tac).
  destruct op as [value|]; cbn [xattr_args] in Ha.
  - destruct Ha as (Ht&_&_). assert (Hne : encodeXattrItemPayload name value <> []).
    { intros Hx. apply (f_equal blen) in Hx. revert Hx. unfold encodeXattrItemPayload, dirItemHdrSize. rewrite blen_nil.
      pose proof (blen_nonneg name). pose proof (blen_nonneg value).
      match goal with |- blen ?b = 0 -> False => assert (L : blen b = 0x1E + blen name + blen value) by blen_tac end. lia. }
    apply wp_bind, wp_try. eapply (fs_search_spec partOff R never t dv w h m); [done|done| |].
    + intros buf it d' _ E' _ _. eapply (fs_update_spec partOff R X t dv w h m); [done..| |].
      * intros w' h' _ _ _ Hr' Hn. by eapply HQ.
      * intros e w' Hr' Hn. by apply HE.
    + intros e He. destruct (He Hh) as [En _]. eapply (fs_insert_spec partOff R X t dv w h m); [done..| |done| |].
      * intros _. eapply covered_parent; [exact Ed|done|done|]. right. done.
      * intros w' h' _ Hr' Hn. by eapply HQ.
      * intros e' w' Hr' Hn. by apply HE.
  - eapply (fs_delete_spec partOff R X t dv w h m); [done|done| |done| |].
    + intros Hx. apply (f_equal (lookup (inodeKey ino))) in Hx. rewrite lookup_delete_ne in Hx by done. by rewrite Ed, lookup_empty in Hx.
    + intros w' h' _ _ Hs Hr' Hn. by eapply HQ; [| |intros _].
    + intros e w' _ He Hr' Hn. apply HE; [done|done|]. intros _. by apply He.
Qed.

(** What an operation leaves, and what a failed one can leave. *)
Definition xattr_done (t : Prop) (w : W) (m : gmap key bytes) (op : xattrOp) (ino : Z) (name : bytes) (w' : W) : Prop :=
  exists h' m' now, Z.of_nat h' <= maxBtreeDepth /\ repr partOff trees t dv w' h' m' /\ time_ok now /\ committed (tx_sb w) (tx_sb w') /\
    inode_edit (xattr_put op m ino name) m' ino (st_change (next_gen (tx_sb w)) now).
Definition xattr_failed (t : Prop) (w : W) (m : gmap key bytes) (op : xattrOp) (ino : Z) (name : bytes) (e : error) (w' : W) : Prop :=
  exists h' m', repr partOff any_rest t dv w' h' m' /\
    (m' = m \/ m' = xattr_put op m ino name \/
     exists now, time_ok now /\ inode_edit (xattr_put op m ino name) m' ino (st_change (next_gen (tx_sb w)) now)) /\
    (op = RemoveXattr -> m !! xattrKey ino name = None -> e = ErrNotFound /\ m' = m).

Lemma run_xattr_spec t w h m op p name i (Q : unit -> W -> Prop) (E : error -> W -> Prop) :
  repr partOff trees t dv w h m -> Z.of_nat h <= maxBtreeDepth -> inodes_ok m -> exts_ok m -> resolves m p i -> xattr_args op name t h ->
  (forall w', xattr_done t w m op (in_num i) name w' -> Q tt w') ->
  (forall e w', xattr_failed t w m op (in_num i) name e w' -> E e w') ->
  wp X (run_xattr op p name) w Q E.
Proof using HL RWL Hclock HX Hroom.
  intros Hr Hh Hok Hex Hres Ha HQ HE. pose proof Hres as (_&d&Ed&_).
  assert (Hpath : forall (k : inodeItem -> SM W unit), (is_u64 (in_num i) -> wp X (k i) w Q E) -> wp X (i ← fs_path partOff p; k i) w Q E).
  { intros k Hk. apply wp_bind. eapply (fs_path_spec partOff trees X t dv w h m); [done| |intros e He; exfalso; by apply (He Hh i)].
    intros i' _ Hu Hres'. rewrite (resolves_fun _ _ _ _ Hres' Hres) in *. by apply Hk. }
  assert (Hmain : forall body, is_u64 (in_num i) ->
    (forall Q' E',
       (forall w' h', repr partOff trees t dv w' h' (xattr_put op m (in_num i) name) -> next w w' ->
          (op = RemoveXattr -> is_Some (m !! xattrKey (in_num i) name)) -> Q' tt w') ->
       (forall e w', repr partOff trees t dv w' h m -> next w w' ->
          (op = RemoveXattr -> m !! xattrKey (in_num i) name = None -> e = ErrNotFound) -> E' e w') -> wp X body w Q' E') ->
    wp X (_ ← body; updateInodeMetadata partOff (in_num i) (fun d => mret d)) w Q E).
  { intros body Hu Hbody. apply wp_bind, Hbody.
    - intros w1 h1 Hr1 Hn1 Hin. apply (updateInodeMetadata_spec partOff Hclock X HX dv Hroom t w1 h1 _ (in_num i) (fun d => Ok d) (fun s => s)
        Q E Hr1 Hu (xattr_put_inodes _ _ _ _ Hok) (xattr_put_exts _ _ _ _ Hex)).
      + intros d1 _. by exists d1.
      + intros w' (h'&m'&now&_&Hlow&Hr'&Ht&He&Hc). apply HQ. exists h', m', now. rewrite <- Hn1. done.
      + intros e w' (h'&m'&Hr'&_&Hm'). apply HE. exists h', m'. rewrite <- Hn1. split_and!; [done|tauto|].
        intros Hop Hnone. destruct (Hin Hop). congruence.
    - intros e w1 Hr1 _ He. apply HE. exists h, m. split_and!; [by eapply repr_any|by left|]. intros Hop Hn. by split; [apply He|]. }
  destruct op as [value|]; cbn [run_xattr]; apply Hpath; intros Hu.
  - apply wp_assoc, Hmain; [done|]. intros Q' E'. by apply (put_item_spec trees t w h m (SetXattr value) (in_num i) name d).
  - apply Hmain; [done|]. intros Q' E'. by apply (put_item_spec trees t w h m RemoveXattr (in_num i) name d).
Qed.
End Xattr.

(** C19. Extended attributes are a map from names to values.  When [SetXattr] or [RemoveXattr]
    succeeds, a [GetXattr] of any attribute of any file gives what it gave before, with
    one exception: the names that share the hash of the given name on the same inode.  Of
    these, after a set the given name has the new value and the others are gone, and after a
    removal all are gone.  No other item changes but the inode's, in its transaction id, sequence and
    change time.  A failed call leaves the old item or the new one; removing what is not there
    is the not-found error and changes nothing. *)
Theorem xattrs_are_a_map `{HL : SafeIOLaws} {D : Type} `{RWL : RWLaws D} `{CK : Clock} (partOff : Z)
    (t : Prop) (dv : dataView) (w : txState D) (h : nat) (m : gmap key bytes) (op : xattrOp) (p name : bytes) (i : inodeItem) :
  (forall n, time_ok (clock_at n)) -> partOff + superblockOffset + sbfSize <= dv_size dv ->
  repr partOff trees t dv w h m -> Z.of_nat h <= maxBtreeDepth -> inodes_ok m -> exts_ok m ->
  resolves m p i -> xattr_args op name t h ->
  match run_xattr partOff op p name w with
  | (w', Ok _) => xattr_done partOff dv t w m op (in_num i) name w' /\
      forall q j nm, resolves m q j -> getXattrInode partOff q nm w' =
        (w', if bool_decide (xattrKey (in_num j) nm = xattrKey (in_num i) name) then xattr_after op name nm
             else (getXattrInode partOff q nm w).2)
  | (w', Err e) => xattr_failed partOff dv t w m op (in_num i) name e w'
  | (w', Panic) => full (tx_cow w')
  | (_, NoFuel) => False
  end.
Proof.
  intros Hclock Hroom Hr Hh Hok Hex Hres Ha.
  apply (run_xattr_spec partOff Hclock (fun w' => full (tx_cow w')) ltac:(done) dv Hroom t w h m op p name i
    (fun _ w' => xattr_done partOff dv t w m op (in_num i) name w' /\ forall q j nm, resolves m q j -> getXattrInode partOff q nm w' =
        (w', if bool_decide (xattrKey (in_num j) nm = xattrKey (in_num i) name) then xattr_after op name nm
             else (getXattrInode partOff q nm w).2))
    (xattr_failed partOff dv t w m op (in_num i) name)); try done.
  intros w' Hdone. split; [done|]. intros q j nm Hq. destruct Hdone as (h'&m'&now&Hlow&Hr'&_&_&He).
  destruct (resolves_after _ _ _ _ _ _ _ _ Hok He Hq) as (j'&Hq'&Ej).
  rewrite (getXattr_run partOff trees t dv w' h' m' q j' nm Hr' Hlow Hq'), Ej.
  rewrite (getXattr_run partOff trees t dv w h m q j nm Hr Hh Hq). cbn [snd].
  rewrite (xattr_read_agree (xattr_put op m (in_num i) name) m') by (by eapply inode_edit_frame).
  f_equal. case_bool_decide as Hk.
  - injection Hk as -> Hhash. by eapply xattr_read_put.
  - apply xattr_read_agree. by apply xattr_put_ne.
Qed.
