(* ===== verification/Paths.v ===== *)
(** * Paths (path.Clean, path.Split and their uses in write.go, mkdir.go, symlink.go)

    The parent directory and the name the write operations derive from a path
    are those a lookup of the path goes through. *)
From Stdlib Require Import ZArith Lia Strings.Byte.
From stdpp Require Import base option list numbers sorting gmap.
From S2P Require Import Prelude Bytes BTree Codec Read Tx Extent Ops FsTree FsLookup.
Local Open Scope Z_scope.

(** A component of a cleaned path: no slash, not empty, not a single dot. *)
Definition part_ok (w : bytes) : Prop := (slash ∉ w) /\ w <> [] /\ w <> dot.
(** The components of a cleaned path; leading dot-dots only when it is relative. *)
Definition cleaned (rooted : bool) (ps : list bytes) : Prop :=
  Forall part_ok ps /\ exists ups rest, ps = ups ++ rest /\ Forall (fun w => w = dotdot) ups /\ Forall (fun w => w <> dotdot) rest /\
    (rooted = true -> ups = []).

(** ** Splitting and joining *)
Lemma split_slash_nonempty s : split_slash s <> [].
Proof. destruct s as [|c s]; [done|]. cbn. case_bool_decide; [done|]. by destruct (split_slash s). Qed.
Lemma split_slash_no_slash s : Forall (fun w => slash ∉ w) (split_slash s).
Proof.
  induction s as [|c s IH]; cbn [split_slash]; [constructor; [apply not_elem_of_nil|constructor]|].
  case_bool_decide as Ec; [by constructor; [apply not_elem_of_nil|]|].
  pose proof (split_slash_nonempty s). destruct (split_slash s) as [|w ws]; [done|]. apply Forall_cons in IH as [Hw Hws]. constructor; [|done].
  rewrite elem_of_cons. intros [<-|?]; [done|done].
Qed.
Lemma split_slash_word w s : slash ∉ w -> split_slash (w ++ slash :: s) = w :: split_slash s.
Proof.
  induction w as [|c w IH]; intros Hw; cbn [app split_slash].
  - by rewrite bool_decide_eq_true_2.
  - rewrite not_elem_of_cons in Hw. destruct Hw as [Hc Hw]. rewrite bool_decide_eq_false_2 by done. by rewrite IH.
Qed.
Lemma split_slash_last w : slash ∉ w -> split_slash w = [w].
Proof.
  induction w as [|c w IH]; intros Hw; cbn [split_slash]; [done|].
  rewrite not_elem_of_cons in Hw. destruct Hw as [Hc Hw]. rewrite bool_decide_eq_false_2 by done. by rewrite IH.
Qed.
Lemma split_join ps : ps <> [] -> Forall (fun w => slash ∉ w) ps -> split_slash (join_slash ps) = ps.
Proof.
  induction ps as [|w [|w' ps] IH]; intros Hne Hps; [done| |]; apply Forall_cons in Hps as [Hw Hps].
  - by apply split_slash_last.
  - change (join_slash (w :: w' :: ps)) with (w ++ slash :: join_slash (w' :: ps)). rewrite split_slash_word by done. by rewrite IH.
Qed.
Lemma join_snoc ps w : ps <> [] -> join_slash (ps ++ [w]) = join_slash ps ++ slash :: w.
Proof.
  induction ps as [|x [|y ps] IH]; intros Hne; [done|done|].
  change (join_slash ((x :: y :: ps) ++ [w])) with (x ++ slash :: join_slash ((y :: ps) ++ [w])). rewrite IH by done.
  change (join_slash (x :: y :: ps)) with (x ++ slash :: join_slash (y :: ps)). by rewrite <- app_assoc.
Qed.
Lemma join_nonempty ps : ps <> [] -> Forall part_ok ps -> join_slash ps <> [].
Proof.
  destruct ps as [|w [|w' ps]]; [done| |]; intros _ Hps; apply Forall_cons in Hps as [(_&Hw&_) _]; [done|].
  intros E. cbn in E. by apply app_eq_nil in E as [? _].
Qed.
Lemma join_head ps c s : Forall part_ok ps -> join_slash ps = c :: s -> c <> slash.
Proof.
  destruct ps as [|w [|w' ps]]; [done| |]; intros Hps; apply Forall_cons in Hps as [(Hw&Hne&_) _].
  - cbn. intros -> ->. apply Hw. by left.
  - destruct w as [|x w]; [done|]. cbn. intros [= <- _] ->. apply Hw. by left.
Qed.

(** ** Cleaning *)
Lemma dotdot_ok : part_ok dotdot.
Proof. split; [vm_compute; by intros H; repeat (apply elem_of_cons in H as [H|H]; [discriminate H|]); apply not_elem_of_nil in H|done]. Qed.

(** On the components of a cleaned path nothing happens. *)
Lemma clean_parts_id rooted ups rest stack :
  Forall part_ok (ups ++ rest) -> Forall (fun w => w = dotdot) ups -> Forall (fun w => w <> dotdot) rest ->
  (ups <> [] -> rooted = false /\ Forall (fun w => w = dotdot) stack) ->
  clean_parts rooted (ups ++ rest) stack = rev stack ++ ups ++ rest.
Proof.
  revert stack. induction ups as [|w ups IH]; cbn [app]; intros stack Hok Hu Hr Hst.
  - clear Hst. revert stack. induction rest as [|w rest IHr]; intros stack; cbn [clean_parts]; [by rewrite app_nil_r|].
    apply Forall_cons in Hok as [(_&H1&H2) Hok], Hr as [H3 Hr].
    rewrite !bool_decide_eq_false_2 by done. cbn [orb]. rewrite IHr by done. cbn [rev]. by rewrite <- app_assoc.
  - apply Forall_cons in Hok as [(_&H1&H2) Hok], Hu as [-> Hu]. destruct (Hst ltac:(done)) as [-> Hs]. cbn [clean_parts].
    rewrite (bool_decide_eq_false_2 (dotdot = [])), (bool_decide_eq_false_2 (dotdot = dot)), (bool_decide_eq_true_2 (dotdot = dotdot)) by done.
    cbn [orb]. destruct stack as [|x stack].
    + rewrite IH; [done..|]. intros _. by split; [|repeat constructor].
    + apply Forall_cons in Hs as [-> Hs]. rewrite bool_decide_eq_true_2 by done. rewrite IH; [|done..|].
      * cbn [rev]. by rewrite <- !app_assoc.
      * intros _. split; [done|]. by repeat constructor.
Qed.

(** The stack of the cleaning loop, oldest component last. *)
Lemma clean_parts_cleaned rooted parts stack :
  Forall (fun w => slash ∉ w) parts -> cleaned rooted (rev stack) -> cleaned rooted (clean_parts rooted parts stack).
Proof.
  revert stack. induction parts as [|w parts IH]; intros stack Hp Hs; cbn [clean_parts]; [done|].
  apply Forall_cons in Hp as [Hw Hp]. destruct (bool_decide (w = []) || bool_decide (w = dot)) eqn:E1; [by apply IH|].
  apply orb_false_iff in E1 as [E1 E2]. apply bool_decide_eq_false in E1, E2. assert (Hok : part_ok w) by done.
  assert (Hpush : forall w, part_ok w -> w <> dotdot -> cleaned rooted (rev stack) -> cleaned rooted (rev (w :: stack))).
  { intros x Hx Hd (H1&ups&rest&E&H2&H3&H4). cbn [rev]. split; [by apply Forall_app; split; [|repeat constructor; apply Hx]|].
    exists ups, (rest ++ [x]). rewrite E, <- app_assoc. split_and!; try done. apply Forall_app. by split; [|repeat constructor]. }
  case_bool_decide as Ed; [subst w|by apply IH; [|apply Hpush]].
  destruct stack as [|x stack].
  - destruct rooted; apply IH; try done. split; [by repeat constructor|]. exists [dotdot], []. by split_and!; repeat constructor.
  - destruct Hs as (H1&ups&rest&E&H2&H3&H4). cbn [rev] in *. case_bool_decide as Ex.
    + subst x. destruct rest as [|y rest _] using rev_ind.
      * rewrite app_nil_r in E. apply IH; [done|]. cbn [rev]. split; [by apply Forall_app; split; [|repeat constructor]|].
        exists (ups ++ [dotdot]), []. rewrite E, app_nil_r. split_and!; [done|by apply Forall_app; split; [|repeat constructor]|done|].
        intros Hr. rewrite (H4 Hr) in E. by destruct (rev stack).
      * rewrite app_assoc in E. apply app_inj_tail in E as [_ <-]. apply Forall_app in H3 as [_ H3]. by inversion H3.
    + apply IH; [done|]. apply Forall_app in H1 as [H1 _]. split; [done|]. destruct rest as [|y rest _] using rev_ind.
      * rewrite app_nil_r in E. rewrite <- E in H2. apply Forall_app in H2 as [_ H2]. inversion H2. done.
      * rewrite app_assoc in E. apply app_inj_tail in E as [E _]. apply Forall_app in H3 as [H3 _]. by exists ups, rest.
Qed.

(** A cleaned path, from its components. *)
Definition path_of (rooted : bool) (ps : list bytes) : bytes :=
  if rooted then slash :: join_slash ps else match ps with [] => dot | _ => join_slash ps end.

Lemma cleaned_nil rooted : cleaned rooted [].
Proof. split; [constructor|]. exists [], []. repeat constructor. Qed.
Lemma cleaned_parts rooted ps : cleaned rooted ps -> clean_parts rooted ps [] = ps.
Proof.
  intros (H1&ups&rest&->&H2&H3&H4). rewrite (clean_parts_id rooted ups rest []); try done.
  intros Hu. split; [|constructor]. destruct rooted; [|done]. by rewrite H4 in Hu.
Qed.
Lemma cleaned_slash rooted ps : cleaned rooted ps -> Forall (fun w => slash ∉ w) ps.
Proof. intros [H _]. eapply Forall_impl; [exact H|]. by intros w [? _]. Qed.

Lemma join_parts ps : Forall part_ok ps -> match join_slash ps with [] => dot | _ => join_slash ps end = path_of false ps.
Proof.
  intros Hps. destruct ps as [|w ps]; [done|]. pose proof (join_nonempty (w :: ps) ltac:(done) Hps) as Hne.
  cbn [path_of]. by destruct (join_slash (w :: ps)).
Qed.

Lemma path_Clean_parts p : exists rooted ps, path_Clean p = path_of rooted ps /\ cleaned rooted ps.
Proof.
  destruct p as [|c p]; [exists false, []; split; [done|apply cleaned_nil]|]. cbn [path_Clean].
  set (rooted := bool_decide (c = slash)). exists rooted, (clean_parts rooted (split_slash (c :: p)) []).
  assert (Hc : cleaned rooted (clean_parts rooted (split_slash (c :: p)) []))
    by (apply clean_parts_cleaned; [apply split_slash_no_slash|apply cleaned_nil]).
  split; [|done]. destruct rooted; [done|]. rewrite join_parts by apply Hc. done.
Qed.

(** Cleaning the path of clean components, with a slash after it or not. *)
Lemma path_Clean_of rooted ps : cleaned rooted ps -> path_Clean (path_of rooted ps) = path_of rooted ps.
Proof.
  intros Hc. pose proof (cleaned_slash _ _ Hc) as Hs. destruct rooted; cbn [path_of].
  - cbn [path_Clean]. rewrite bool_decide_eq_true_2 by done. cbn [split_slash]. rewrite bool_decide_eq_true_2 by done.
    cbn [clean_parts]. rewrite bool_decide_eq_true_2 by done. cbn [orb].
    destruct ps as [|w ps]; [done|]. by rewrite split_join, cleaned_parts.
  - destruct ps as [|w ps]; [done|]. pose proof (join_nonempty (w :: ps) ltac:(done) (proj1 Hc)) as Hne.
    destruct (join_slash (w :: ps)) as [|c s] eqn:Ej; [done|]. cbn [path_Clean].
    rewrite bool_decide_eq_false_2 by (eapply join_head; [apply Hc|exact Ej]). rewrite <- Ej, split_join, cleaned_parts by done.
    by rewrite Ej.
Qed.
Lemma path_Clean_dir rooted ps :
  cleaned rooted ps -> ps <> [] ->
  path_Clean (path_of rooted ps ++ [slash]) = path_of rooted ps.
Proof.
  intros Hc Hne. pose proof (cleaned_slash _ _ Hc) as Hs.
  assert (E : join_slash ps ++ [slash] = join_slash (ps ++ [[]])) by (by rewrite join_snoc).
  assert (Hsp : split_slash (join_slash ps ++ [slash]) = ps ++ [[]]).
  { rewrite E, split_join; [done|by destruct ps|]. apply Forall_app. split; [done|]. repeat constructor. apply not_elem_of_nil. }
  assert (Hcl : clean_parts rooted (ps ++ [[]]) [] = ps).
  { destruct Hc as (H1&ups&rest&->&H2&H3&H4). clear Hs E Hsp Hne.
    assert (Hskip : forall l stack, clean_parts rooted (l ++ [[]]) stack = clean_parts rooted l stack).
    { induction l as [|w l IH]; intros stack; cbn [app clean_parts]; [by rewrite bool_decide_eq_true_2|].
      repeat case_match; by rewrite IH. }
    rewrite Hskip. apply (cleaned_parts rooted). split; [done|]. by exists ups, rest. }
  destruct rooted; cbn [path_of].
  - cbn [app path_Clean]. rewrite bool_decide_eq_true_2 by done. cbn [split_slash]. rewrite bool_decide_eq_true_2 by done.
    cbn [clean_parts]. rewrite bool_decide_eq_true_2 by done. cbn [orb]. by rewrite Hsp, Hcl.
  - destruct ps as [|w ps]; [done|]. pose proof (join_nonempty (w :: ps) ltac:(done) (proj1 Hc)) as Hj.
    destruct (join_slash (w :: ps)) as [|c s] eqn:Ej; [done|]. cbn [app path_Clean].
    rewrite bool_decide_eq_false_2 by (eapply join_head; [apply Hc|exact Ej]).
    change (c :: s ++ [slash]) with ((c :: s) ++ [slash]). rewrite Hsp, Hcl, Ej. done.
Qed.

Lemma path_Split_word pre w : slash ∉ w -> (pre = [] \/ exists q, pre = q ++ [slash]) -> path_Split (pre ++ w) = (pre, w).
Proof.
  intros Hw Hpre. unfold path_Split.
  assert (Htake : take_until (fun c => bool_decide (c = slash)) (rev (pre ++ w)) = rev w).
  { rewrite rev_app_distr. assert (Hr : slash ∉ rev w) by (by rewrite list_elem_of_In, <- in_rev, <- list_elem_of_In).
    destruct Hpre as [->|(q&->)]; cbn [rev].
    - rewrite app_nil_r. clear Hw. induction (rev w) as [|c l IH]; cbn [take_until]; [done|].
      apply not_elem_of_cons in Hr as [Hr1 Hr2]. rewrite bool_decide_eq_false_2 by done. by rewrite IH.
    - rewrite rev_app_distr. cbn [rev app]. clear Hw. induction (rev w) as [|c l IH]; cbn [app take_until].
      + by rewrite bool_decide_eq_true_2.
      + apply not_elem_of_cons in Hr as [Hr1 Hr2]. rewrite bool_decide_eq_false_2 by done. by rewrite IH. }
  rewrite Htake, rev_involutive, length_app. replace (length pre + length w - length w)%nat with (length pre) by lia.
  by rewrite take_app_length.
Qed.

(** ** The components a lookup goes through *)
Lemma path_parts_of rooted ps p : path_Clean p = path_of rooted ps -> cleaned rooted ps -> path_parts p = ps.
Proof.
  intros E Hc. pose proof (cleaned_slash _ _ Hc) as Hs. unfold path_parts. rewrite E. destruct ps as [|w ps]; [by destruct rooted|].
  pose proof (join_nonempty (w :: ps) ltac:(done) (proj1 Hc)) as Hne.
  assert (Hd : path_of rooted (w :: ps) <> [slash] /\ path_of rooted (w :: ps) <> dot /\ trim_slash (path_of rooted (w :: ps)) = join_slash (w :: ps)).
  { unfold path_of. destruct rooted.
    - split_and!; [intros [= E']; by apply Hne|intros E'; apply (f_equal (hd x00)) in E'; vm_compute in E'; discriminate E'|]. cbn [trim_slash]. by rewrite bool_decide_eq_true_2.
    - split_and!.
      + intros E'. by eapply join_head; [apply Hc|exact E'|].
      + intros E'. pose proof (split_join (w :: ps) ltac:(done) Hs) as Hsp. rewrite E' in Hsp. vm_compute in Hsp. injection Hsp as <- <-.
        destruct Hc as [H1 _]. apply Forall_cons in H1 as [(_&_&?) _]. done.
      + destruct (join_slash (w :: ps)) as [|c s] eqn:Ej; [done|]. cbn [trim_slash].
        by rewrite bool_decide_eq_false_2 by (eapply join_head; [apply Hc|exact Ej]). }
  destruct Hd as (H1&H2&H3). rewrite !bool_decide_eq_false_2 by done. cbn [orb]. rewrite H3. by apply split_join.
Qed.

Lemma cleaned_snoc rooted ps w : cleaned rooted (ps ++ [w]) -> cleaned rooted ps /\ part_ok w.
Proof.
  intros (H1&ups&rest&E&H2&H3&H4). apply Forall_app in H1 as [H1 Hw]. apply Forall_cons in Hw as [Hw _]. split; [|done].
  split; [done|]. destruct rest as [|y rest _] using rev_ind.
  - rewrite app_nil_r in E. subst ups. apply Forall_app in H2 as [H2 _]. exists ps, []. rewrite app_nil_r. split_and!; try done.
    intros Hr. specialize (H4 Hr). by destruct ps.
  - rewrite app_assoc in E. apply app_inj_tail in E as [-> _]. apply Forall_app in H3 as [H3 _]. by exists ups, rest.
Qed.

(** The parent directory and the name that [writeFile], [makeDir] and
    [symlinkInode] take a path apart into are the ones a lookup of the path goes
    through: the components of the path are those of the directory followed by
    the name, which is not empty and has no slash.  The exceptions are the root
    and the empty path, where the name is empty or a single dot. *)
Lemma split_dir_parts (p : bytes) :
  let dir := (split_dir p).1 in let name := (split_dir p).2 in
  (path_parts p = path_parts dir ++ [name] /\ name <> [] /\ slash ∉ name) \/
  (path_parts p = [] /\ path_parts dir = [] /\ (name = [] \/ name = dot)).
Proof.
  cbv zeta. destruct (path_Clean_parts p) as (rooted&ps&E&Hc). unfold split_dir.
  rewrite (path_parts_of rooted ps p E Hc), E.
  destruct ps as [|w ps _] using rev_ind.
  { right. destruct rooted; (split; [done|]); vm_compute; auto. }
  left. destruct (cleaned_snoc _ _ _ Hc) as [Hps (Hw1&Hw2&_)].
  assert (Hcase : exists pre r', path_of rooted (ps ++ [w]) = pre ++ w /\ (pre = [] \/ exists q, pre = q ++ [slash]) /\
    path_Clean (if bool_decide (pre = []) then [slash] else pre) = path_of r' ps /\ cleaned r' ps).
  { destruct ps as [|x ps]; [exists (if rooted then [slash] else []), true|exists (path_of rooted (x :: ps) ++ [slash]), rooted].
    - destruct rooted; cbn [app path_of join_slash]; split_and!; try done; try apply cleaned_nil; [right; by exists []|by left].
    - split_and!.
      + destruct rooted; cbn [path_of]; (destruct ((x :: ps) ++ [w]) eqn:Eq; [done|rewrite <- Eq]); rewrite join_snoc by done.
        * cbn [app]. by rewrite <- app_assoc.
        * by rewrite <- app_assoc.
      + right. by eexists.
      + rewrite bool_decide_eq_false_2 by (by intros ?%app_eq_nil; destruct_and?). by apply path_Clean_dir.
      + done. }
  destruct Hcase as (pre&r'&->&Hpre&Hcl&Hc'). rewrite path_Split_word by done. cbn [fst snd]. split_and!; [|done|done].
  f_equal. symmetry. eapply path_parts_of; [|exact Hc']. by rewrite Hcl, path_Clean_of.
Qed.

(** The same for [splitPath], which the operations on existing names use. *)
Lemma splitPath_parts (p : bytes) :
  let dir := (splitPath p).1 in let name := (splitPath p).2 in
  (path_parts p = path_parts dir ++ [name] /\ name <> [] /\ slash ∉ name) \/
  (path_parts p = [] /\ path_parts dir = [] /\ (name = [] \/ name = dot)).
Proof.
  cbv zeta. destruct (path_Clean_parts p) as (rooted&ps&E&Hc). unfold splitPath.
  rewrite (path_parts_of rooted ps p E Hc), E.
  destruct ps as [|w ps _] using rev_ind.
  { right. destruct rooted; (split; [done|]); vm_compute; auto. }
  left. destruct (cleaned_snoc _ _ _ Hc) as [Hps (Hw1&Hw2&_)].
  assert (Hns : path_of rooted (ps ++ [w]) <> [slash]).
  { intros Hx. assert (Hpp : path_parts [slash] = ps ++ [w]) by (eapply (path_parts_of rooted); [|done]; by rewrite <- Hx, path_Clean_of).
    vm_compute in Hpp. by destruct ps. }
  rewrite bool_decide_eq_false_2 by done.
  destruct ps as [|x ps].
  - destruct rooted; cbn [app].
    + assert (Eo : path_of true [w] = [slash] ++ w) by (by destruct w). rewrite Eo, path_Split_word by (done || (right; by exists [])). by split_and!.
    + assert (Eo : path_of false [w] = [] ++ w) by (by destruct w). rewrite Eo, path_Split_word by (done || by left). by split_and!.
  - assert (Eo : path_of rooted ((x :: ps) ++ [w]) = (path_of rooted (x :: ps) ++ [slash]) ++ w).
    { destruct rooted; cbn [path_of]; (destruct ((x :: ps) ++ [w]) eqn:Eq; [done|rewrite <- Eq]); rewrite join_snoc by done; cbn [app];
        by rewrite <- ?app_assoc. }
    rewrite Eo, path_Split_word by (done || (right; by eexists)). set (dir := path_of rooted (x :: ps)).
    destruct (dir ++ [slash]) as [|c s] eqn:Ed; [by destruct dir|]. rewrite <- Ed, length_app. cbn [length].
    replace (length dir + 1 - 1)%nat with (length dir) by lia. rewrite take_app_length.
    assert (Hd : dir <> []).
    { unfold dir, path_of. destruct rooted; [done|]. apply join_nonempty; [done|apply Hps]. }
    rewrite bool_decide_eq_false_2 by done. cbn [fst snd]. split_and!; [|done|done].
    f_equal. symmetry. eapply path_parts_of; [|exact Hps]. by apply path_Clean_of.
Qed.
