(* ===== verification/Create.v ===== *)
(** * Creating files, directories and symbolic links (write.go, mkdir.go, symlink.go)

    The creation of an inode with its directory entry, followed through every
    step and every error: what it adds to the map the FS tree stands for, and what
    the lookups and reads of the API return afterwards. *)
From Stdlib Require Import ZArith Lia Strings.Byte.
From stdpp Require Import base option list numbers sorting gmap.
From S2P Require Import Prelude Bytes Alloc Layout SafeIO Chunk Node BTree Walk Split Crc32c Cow Store CowCorrect.
From S2P Require Import Codec Read FileRead Tx Extent Ops FsTree FsLookup InodeEdit Rebuild FsData ExtentLayout ExtentWrite.
From S2P Require Import CommitCorrect InodeOps Entries Paths.
Local Open Scope Z_scope.
Local Open Scope btrfs_scope.

(** ** Well-formed FS trees *)

(** The items of an inode come with its inode item. *)
Definition owned (m : gmap key bytes) : Prop :=
  forall k d, m !! k = Some d -> typ k = typeInodeRef \/ typ k = typeExtentData -> is_Some (m !! inodeKey (objID k)).
Record fs_wf (m : gmap key bytes) : Prop := FsWf {
  wf_inodes : inodes_ok m;
  wf_exts : exts_ok m;
  wf_inodes_num : inodes_numbered m;
  wf_dirs_num : dirs_numbered m;
  wf_owned : owned m }.

Lemma fresh_inode m ino k d :
  owned m -> inode_fresh m ino -> m !! k = Some d -> typ k = typeInodeItem \/ typ k = typeInodeRef \/ typ k = typeExtentData -> objID k <> ino.
Proof.
  intros Ho [_ Hf] Ek [Ht|Ht] <-.
  - specialize (Hf _ _ Ek Ht). lia.
  - destruct (Ho k d Ek Ht) as [x Ex]. specialize (Hf _ _ Ex eq_refl). cbn in Hf. lia.
Qed.

Lemma adds_extents_frame ino m m' k : adds_extents ino m m' -> typ k <> typeExtentData \/ objID k <> ino -> m' !! k = m !! k.
Proof.
  intros [Hs Hn] Hk. destruct (m !! k) as [d|] eqn:Ek; [by eapply lookup_weaken|].
  destruct (m' !! k) as [d|] eqn:Ek'; [|done]. destruct (Hn k d Ek') as (?&?&_); [congruence|]. tauto.
Qed.

(** ** What a creation adds *)
Definition created (m m' : gmap key bytes) (ino parent : Z) (name : bytes) (ft : Z) (item : bytes) (gen : Z) : Prop :=
  exists mx idx now, inode_fresh m ino /\ index_fresh m parent idx /\ is_u64 ino /\
    adds_extents ino (<[inodeKey ino := item]> m) mx /\
    inode_edit (entry_items mx ino parent name ft idx) m' parent (entry_added name gen now).

Section Created.
Context (m m' : gmap key bytes) (ino parent : Z) (name : bytes) (ft : Z) (item : bytes) (gen : Z).
Context (Hwf : fs_wf m) (Hpar : is_Some (m !! inodeKey parent)).
Context (Hslot : m !! Key parent typeDirItem (hashDirName name) = None).
Context (Hc : created m m' ino parent name ft item gen).

Lemma created_parent : parent < ino.
Proof using Hpar Hc. destruct Hpar as [d Ed], Hc as (mx&idx&now&[_ Hf]&_). by apply (Hf _ _ Ed). Qed.

Lemma created_item : m' !! inodeKey ino = Some item.
Proof using Hpar Hc.
  pose proof created_parent. destruct Hc as (mx&idx&now&_&_&_&Hx&He).
  rewrite (inode_edit_frame _ _ _ _ _ He) by (intros [= ?]; lia). unfold entry_items. rewrite !lookup_insert_ne by done.
  rewrite (adds_extents_frame _ _ _ _ Hx) by (by left). by rewrite lookup_insert_eq.
Qed.

(** Everything that was there stays, apart from the parent's inode item. *)
Lemma created_extends : extends parent m m'.
Proof using Hwf Hc Hslot.
  destruct Hc as (mx&idx&now&Hf&[_ Hi]&_&Hx&He). etrans; [|by eapply extends_edit]. etrans; [apply (extends_insert parent m (inodeKey ino) item)|].
  { destruct (m !! inodeKey ino) as [d|] eqn:Ed; [|done]. destruct Hf as [_ Hf]. specialize (Hf _ _ Ed eq_refl). cbn in Hf. lia. }
  etrans; [apply extends_subseteq, Hx|]. unfold entry_items.
  assert (E : forall k, typ k <> typeExtentData -> k <> inodeKey ino -> mx !! k = m !! k).
  { intros k Ht Hk. rewrite (adds_extents_frame _ _ _ _ Hx) by (by left). by rewrite lookup_insert_ne. }
  etrans; [apply extends_insert|etrans; apply extends_insert].
  - rewrite E by done. destruct (m !! Key parent typeDirIndex idx) as [d|] eqn:Ed; [|done]. specialize (Hi _ _ Ed eq_refl eq_refl). cbn in Hi. lia.
  - rewrite lookup_insert_ne by done. by rewrite E.
  - rewrite !lookup_insert_ne by done. rewrite E by done. destruct (m !! Key ino typeInodeRef parent) as [d|] eqn:Ed; [|done].
    exfalso. eapply (fresh_inode m ino _ _ (wf_owned _ Hwf) Hf Ed); [by right; left|done].
Qed.

(** The extents of other inodes are the same. *)
Lemma created_extents k : typ k = typeExtentData -> objID k <> ino -> m' !! k = m !! k.
Proof using Hc.
  intros Ht Hk. destruct Hc as (mx&idx&now&_&_&_&Hx&He). rewrite (inode_edit_frame _ _ _ _ _ He) by (by intros ->).
  unfold entry_items. rewrite !lookup_insert_ne by (by intros <-). rewrite (adds_extents_frame _ _ _ _ Hx) by (by right).
  by rewrite lookup_insert_ne by (by intros <-).
Qed.

Lemma created_dirs : exists idx, index_fresh m parent idx /\ same_dirs (named m parent name idx (ino, ft)) m'.
Proof using Hc.
  destruct Hc as (mx&idx&now&_&Hi&_&Hx&He). exists idx. split; [done|]. intros k Hk.
  rewrite (inode_edit_frame _ _ _ _ _ He) by (intros ->; by destruct Hk). unfold entry_items, named, entry_item. cbn [fst snd].
  rewrite lookup_insert_ne by (intros <-; by destruct Hk).
  assert (E : mx !! k = m !! k).
  { rewrite (adds_extents_frame _ _ _ _ Hx) by (left; destruct Hk as [-> | ->]; done). rewrite lookup_insert_ne; [done|]. intros <-. by destruct Hk. }
  destruct (decide (k = Key parent typeDirItem (hashDirName name))) as [->|H1]; [by rewrite !lookup_insert_eq|].
  rewrite !(lookup_insert_ne _ (Key parent typeDirItem _)) by done.
  destruct (decide (k = Key parent typeDirIndex idx)) as [->|H2]; [by rewrite !lookup_insert_eq|].
  by rewrite !lookup_insert_ne by done.
Qed.

(** Exactly one name is new. *)
Lemma created_entry l dir n r :
  0 <= ft < 256 -> blen name < 2 ^ 16 -> prefix_of m parent typeDirIndex l ->
  dir_entry m' dir n r <-> (dir = parent /\ n = name /\ r = (ino, ft)) \/ (~ (dir = parent /\ n = name) /\ dir_entry m dir n r).
Proof using Hc Hslot.
  intros Hft Hn Hl. destruct created_dirs as (idx&Hi&Hs). destruct Hc as (_&_&_&_&_&Hu&_).
  rewrite <- (named_dir_entry m parent name idx (ino, ft) l); try done.
  split; apply dir_entry_agree; [by apply same_dirs_sym|done].
Qed.

Lemma created_path l parts cur i :
  0 <= ft < 256 -> blen name < 2 ^ 16 -> prefix_of m parent typeDirIndex l -> (forall r, ~ dir_entry m parent name r) ->
  path_to m parts cur i -> path_to m' parts cur i.
Proof using Hc Hslot.
  intros Hft Hn Hl Hno Hp. destruct created_dirs as (idx&Hi&Hs). destruct Hc as (_&_&_&_&_&Hu&_).
  eapply path_to_agree; [exact Hs|]. by eapply named_path_to.
Qed.
End Created.

Lemma repr_prefix {D} `{RWLaws D} `{SafeIO} partOff R t dv (w : txState D) h m o ty :
  repr partOff R t dv w h m -> exists l, prefix_of m o ty l.
Proof. intros (c&ads&rest&_&Hw&<-&_). eexists. apply filter_prefix_of. by eapply wtree_sorted. Qed.

(** ** The steps of a creation *)
Section Create.
Context `{HL : SafeIOLaws} {D : Type} `{RWL : RWLaws D} `{CK : Clock} (partOff : Z).
Context (Hclock : forall n, time_ok (clock_at n)).
Context (X : txState D -> Prop) (HX : forall w' : txState D, full (tx_cow w') -> X w').
Abbreviation W := (txState D).
Abbreviation repr := (repr partOff trees).
Context (t : Prop) (Ht : t) (dv : dataView) (Hroom : partOff + superblockOffset + sbfSize <= dv_size dv).
Context (w : W) (h : nat) (m : gmap key bytes) (Hr : repr t dv w h m) (Hwf : fs_wf m).
Context (parent : Z) (name : bytes) (Hpar : is_u64 parent) (Hpi : is_Some (m !! inodeKey parent)) (Hname : name <> []).
Context (Hslot : m !! Key parent typeDirItem (hashDirName name) = None).

(** What a failed operation leaves: all that was there, apart from the parent's attributes. *)
Definition kept_after (w' : W) : Prop :=
  exists dv' h' m', FsTree.repr partOff any_rest t dv' w' h' m' /\ dv_le dv dv' /\ extends parent m m' /\ committed (tx_sb w) (tx_sb w').
(** What a successful creation leaves. *)
Definition created_after (ft : Z) (item : Z -> timespec -> bytes) (data : option bytes) (w' : W) : Prop :=
  exists dv' h' m' ino now, Z.of_nat h' <= maxBtreeDepth /\ repr t dv' w' h' m' /\ dv_le dv dv' /\ committed (tx_sb w) (tx_sb w') /\
    time_ok now /\ created m m' ino parent name ft (item ino now) (next_gen (tx_sb w)) /\
    match data with Some data => file_data partOff (tx_sb w) dv' m' ino data | None => True end.

Lemma kept_after_refl w' : repr t dv w' h m -> next w w' -> kept_after w'.
Proof using. intros Hr' Hn. exists dv, h, m. split_and!; [by eapply repr_any|done|done|rewrite Hn; apply committed_refl]. Qed.

(** The inode item of the new inode is in place and its content written. *)
Lemma finish_spec dv1 w1 h1 m1 ino ft item data (E : error -> W -> Prop) now :
  repr t dv1 w1 h1 m1 -> next w w1 -> dv_le dv dv1 -> is_u64 ino -> inode_fresh m ino -> time_ok now ->
  adds_extents ino (<[inodeKey ino := item ino now]> m) m1 -> blen (item ino now) = inodeItemSize ->
  match data with Some data => file_data partOff (tx_sb w) dv1 m1 ino data | None => True end ->
  (forall e w', kept_after w' -> E e w') ->
  wp X (_ ← add_entry partOff ino parent name ft; commit partOff) w1 (fun _ w' => created_after ft item data w') E.
Proof using HL RWL Hclock HX Hroom Hwf Hpar Hpi Hname Hslot Ht.
  intros Hr1 Hn1 Hle Hu Hfr Hnow Hadd Hitem Hdata HE.
  assert (Hpl : parent < ino) by (destruct Hpi as [d Ed], Hfr as [_ Hf]; by apply (Hf _ _ Ed)).
  assert (Efr : forall k, typ k <> typeExtentData -> k <> inodeKey ino -> m1 !! k = m !! k).
  { intros k Hk Hk'. rewrite (adds_extents_frame _ _ _ _ Hadd) by (by left). by rewrite lookup_insert_ne. }
  assert (Hnone : m !! inodeKey ino = None).
  { destruct (m !! inodeKey ino) as [d|] eqn:Ed; [|done]. destruct Hfr as [_ Hf]. specialize (Hf _ _ Ed eq_refl). cbn in Hf. lia. }
  assert (Hext : extends parent m m1) by (etrans; [by apply (extends_insert _ m (inodeKey ino) (item ino now))|apply extends_subseteq, Hadd]).
  assert (Hok1 : inodes_ok m1).
  { intros i d Ed. destruct (decide (i = ino)) as [->|Hi].
    - rewrite (adds_extents_frame _ _ _ _ Hadd), lookup_insert_eq in Ed by (by left). injection Ed as <-. lia.
    - rewrite Efr in Ed by (done || (intros [= ?]; done)). by eapply Hwf. }
  assert (Hex1 : exts_ok m1).
  { intros k d Ed. destruct (decide (typ k = typeExtentData)) as [Hk|Hk]; [|by intros ?].
    destruct (decide (<[inodeKey ino := item ino now]> m !! k = Some d)) as [E0|E0].
    - rewrite lookup_insert_ne in E0 by (by intros <-). by eapply (wf_exts _ Hwf).
    - by apply (proj2 Hadd k d Ed E0). }
  apply wp_bind. eapply (add_entry_spec partOff trees Hclock X t dv1 w1 h1 m1); try done.
  - intros k d Ed Hk. rewrite Efr in Ed by (intros Hx; (rewrite Hk in Hx || rewrite Hx in Hk); done). by eapply (wf_dirs_num _ Hwf).
  - rewrite Efr; [done|done|]. intros [= ?]; lia.
  - by rewrite Efr.
  - rewrite Efr by done. destruct (m !! Key ino typeInodeRef parent) as [d|] eqn:Ed; [|done].
    exfalso. eapply (fresh_inode m ino _ _ (wf_owned _ Hwf) Hfr Ed); [by right; left|done].
  - intros w2 h2 m2 idx now2 Hlow Hr2 Hidx Hui Hnow2 He Hn2.
    assert (Hsb : tx_sb w2 = tx_sb w) by (rewrite Hn2; exact Hn1).
    assert (Hcr : created m m2 ino parent name ft (item ino now) (next_gen (tx_sb w))).
    { exists m1, idx, now2. split_and!; try done; [|rewrite <- Hn1; exact He]. destruct Hidx as [H1 H2]. split; [done|].
      intros k d Ed Ho Hk. apply (H2 k d); [|done|done]. rewrite Efr; [done|by rewrite Hk|]. intros ->. done. }
    assert (Hexts2 : forall k, typ k = typeExtentData -> m2 !! k = m1 !! k).
    { intros k Hk. rewrite (inode_edit_frame _ _ _ _ _ He) by (by intros ->). unfold entry_items. by rewrite !lookup_insert_ne by (by intros <-). }
    assert (Hroom1 : partOff + superblockOffset + sbfSize <= dv_size dv1) by (destruct Hle as [-> _]; done).
    eapply (commit_spec partOff X dv1 Hroom1 t w2 h2 m2); [done| |done| |].
    + intros k d Ed Hk. rewrite Hexts2 in Ed by done. by apply (Hex1 k d Ed).
    + intros w3 Hr3 Hc3 _ _ _. exists dv1, h2, m2, ino, now. rewrite Hsb in Hc3. split_and!; try done.
      destruct data as [data|]; [|done]. eapply (file_data_frame _ _ dv1 dv1); [done| |exact Hdata]. intros k _ Hk. by apply Hexts2.
    + intros e w3 Hr3 Hc3 _. apply HE. exists dv1, h2, m2. rewrite Hsb in Hc3. split_and!; try done. by eapply created_extends.
  - intros e w2 (h2&m2&Hr2&Hx2) Hn2. apply HE. exists dv1, h2, m2. split_and!; [by eapply repr_any|done|by etrans|].
    rewrite Hn2, Hn1. apply committed_refl.
Qed.

Lemma encodeInodeItem_blen ino size mode gen nbytes nlink now : blen (encodeInodeItem ino size mode gen nbytes nlink now) = inodeItemSize.
Proof using.
  rewrite encodeInodeItem_put. rewrite (blen_put_fields inodeItemSize); [|reflexivity|];
    rewrite blen_zeros; inode_offs; lia.
Qed.

(** Inserting the inode item. *)
Lemma insert_inode_spec w1 ino item (Q : unit -> W -> Prop) (E : error -> W -> Prop) :
  repr t dv w1 h m -> next w w1 -> is_u64 ino -> (Z.of_nat h <= maxBtreeDepth -> inode_fresh m ino) -> blen item = inodeItemSize ->
  (forall w' h', inode_fresh m ino -> repr t dv w' h' (<[inodeKey ino := item]> m) -> next w w' -> Q tt w') ->
  (forall e w', kept_after w' -> E e w') ->
  wp X (fs_insert partOff (inodeKey ino) item) w1 Q E.
Proof using HL RWL Hpar Hpi Ht.
  intros Hr1 Hn1 Hu Hfr Hitem HQ HE. destruct Hpi as [dp Edp].
  assert (Hlt : Z.of_nat h <= maxBtreeDepth -> parent < ino) by (intros Hh; destruct (Hfr Hh) as [_ Hf]; by apply (Hf _ _ Edp)).
  eapply (fs_insert_spec partOff trees X t dv w1 h m); [done|done|key_tac| | | | |].
  - intros Hh. destruct (m !! inodeKey ino) as [d|] eqn:Ed; [|done]. destruct (Hfr Hh) as [_ Hf]. specialize (Hf _ _ Ed eq_refl). cbn in Hf. lia.
  - intros Hh. eapply covered_parent; [exact Edp|done|key_tac|]. left. by apply Hlt.
  - intros ->. rewrite blen_nil in Hitem. done.
  - intros w2 h2 Hh Hr2 Hn2. eapply HQ; [by apply Hfr|exact Hr2|by etrans].
  - intros e w2 Hr2 Hn2. apply HE, kept_after_refl; [done|by etrans].
Qed.

Lemma createInodeWithDirEntry_spec data mode ft (E : error -> W -> Prop) :
  0 < sb_sectorSize (tx_sb w) < 2 ^ 62 -> blen data < 2 ^ 62 ->
  (forall e w', kept_after w' -> E e w') ->
  wp X (createInodeWithDirEntry partOff parent name data mode ft) w
    (fun _ w' => exists nbytes, created_after ft (fun ino now => encodeInodeItem ino (blen data) mode (next_gen (tx_sb w)) nbytes 1 now) (Some data) w') E.
Proof using All.
  intros Hsec Hlen HE. unfold createInodeWithDirEntry. apply wp_bind, (nextInodeNum_spec partOff trees X t dv w h m); [done|apply Hwf|].
  intros ino Hu Hfr. apply wp_bind, wp_gets. apply wp_bind.
  assert (Hcl : exists c, classifyExtent data (sb_sectorSize (tx_sb w)) = Ok c).
  { unfold classifyExtent. repeat case_if; eauto. lia. }
  destruct Hcl as [c Ec]. eapply wp_lift_ok; [exact Ec|]. apply wp_bind, (now_spec partOff trees Hclock X t dv w h m); [done|].
  intros w1 now Hnow Hr1 Hn1. set (item := fun ino now => encodeInodeItem ino (blen data) mode (next_gen (tx_sb w)) c.2 1 now).
  assert (Hitem : forall ino now, blen (item ino now) = inodeItemSize) by (intros i n; unfold item; by rewrite encodeInodeItem_blen).
  apply wp_bind, (insert_inode_spec w1 ino (item ino now)); [done|done|done|done|apply Hitem| |done].
  intros w2 h2 Hf Hr2 Hn2. apply wp_bind. set (m0 := <[inodeKey ino := item ino now]> m).
  eapply wp_mono; [apply (writeExtents_spec partOff trees X t Ht w2 dv m0 ino data (next_gen (tx_sb w)) Hu) with
    (E := fun _ w' => partly partOff trees t w2 dv m0 ino w') (h := h2)|..]; try done.
  - exists (inodeKey ino), (item ino now). unfold m0. rewrite lookup_insert_eq. split; [done|]. unfold key_num. cbn [objID typ offset inodeKey].
    unfold typeInodeItem, typeExtentData. lia.
  - intros k d Ed Ho Hk. unfold m0 in Ed. rewrite lookup_insert_ne in Ed by (by intros <-).
    eapply (fresh_inode m ino _ _ (wf_owned _ Hwf) Hf Ed); [by right; right|done].
  - rewrite Hn2. done.
  - intros _ w3 (dv3&h3&m3&Hr3&Hle3&Hn3&Hadd&Hdata). eapply wp_mono; [eapply (finish_spec dv3 w3 h3 m3 ino ft item (Some data)
      (fun _ w' => kept_after w') now)|..]; try done.
    + by etrans.
    + by rewrite <- Hn2.
    + intros u4 w4 H4. exists c.2. exact H4.
  - intros e w3 (dv3&h3&m3&Hr3&Hle3&Hn3&Hadd). apply HE. exists dv3, h3, m3. split_and!; [by eapply repr_any|done| |].
    + etrans; [|apply extends_subseteq, Hadd]. apply extends_insert. destruct (m !! inodeKey ino) as [d|] eqn:Ed; [|done].
      destruct Hf as [_ Hf']. specialize (Hf' _ _ Ed eq_refl). cbn in Hf'. lia.
    + rewrite Hn3, Hn2. apply committed_refl.
Qed.
End Create.

(** ** Reading a file back *)
Section ReadBack.
Context `{HL : SafeIOLaws} `{HD : DecodersLaws} {D : Type} `{RWL : RWLaws D} (partOff : Z) (R : keeper).
Abbreviation W := (txState D).
Abbreviation repr := (repr partOff R).

Lemma fs_path_run t dv (w : W) h m p i :
  repr t dv w h m -> Z.of_nat h <= maxBtreeDepth -> resolves m p i -> fs_path partOff p w = (w, Ok i).
Proof using HL RWL.
  intros Hr Hh Hres. apply wp_is. eapply (fs_path_spec partOff R never t dv w h m); [done| |].
  - intros i' _ _ Hres'. split; [done|]. by eapply resolves_fun.
  - intros e He. by apply (He Hh i).
Qed.

Lemma content_sb sb sb' dv l data : sb_sysChunks sb' = sb_sysChunks sb -> content partOff sb dv l data -> content partOff sb' dv l data.
Proof using.
  intros E Hc DC HDC RA dev Hra Hdev. specialize (Hc DC HDC RA dev Hra Hdev). rewrite <- Hc.
  destruct sb, sb'. cbn in E. subst. reflexivity.
Qed.

Lemma fs_file_data_run t dv (w : W) h m sb i data dev :
  repr t dv w h m -> Z.of_nat h <= maxBtreeDepth -> sb_sysChunks (tx_sb w) = sb_sysChunks sb ->
  file_data partOff sb dv m (in_num i) data -> in_size i = blen data -> blen data <= dev < 2 ^ 63 ->
  fs_file_data partOff dev i w = (w, Ok data).
Proof using HL HD RWL.
  intros Hr Hh Esb (l&Hl&Hne&Hc) Hs Hdev. apply (content_sb _ _ _ _ _ Esb) in Hc.
  unfold fs_file_data, readFileData. rewrite Hs. case_if.
  { bool_prop. assert (data = []) as -> by (destruct data; [done|unfold blen in *; cbn in *; lia]). by destruct w. }
  assert (Ep : fs_prefix partOff (in_num i) typeExtentData w = (w, Ok l)).
  { apply wp_is. eapply (fs_prefix_spec partOff R never t dv w h m); [done|unfold typeExtentData; lia| |].
    - intros l' Hl'. split; [done|]. eapply prefix_of_unique; [by apply Hl'|done].
    - intros e He. destruct (He Hh) as [Hnil _]. by rewrite (prefix_of_unique _ _ _ _ _ Hl Hnil) in Hne. }
  unfold fs_prefix in Ep. unfold sm_gets, tx_lift, mbind, SM_bind in *. cbn [fst snd] in *.
  destruct (collectPrefixItems _ _ _ _ (tx_cow w)) as [s [l'|e| |]] eqn:Ec; try done.
  injection Ep as Ew ->. assert (s = tx_cow w) as -> by (by rewrite <- Ew).
  unfold sm_lift. rewrite Hc; [by destruct w|done| |done].
  destruct Hr as (c&ads&rest&_&_&_&Hi&_). by destruct Hi as (_&_&_&_&_&_&_&_&_&Hread).
Qed.

Lemma ReadFile_run t dv (w : W) h m sb p i data dev :
  repr t dv w h m -> Z.of_nat h <= maxBtreeDepth -> resolves m p i -> isRegular i = true -> sb_sysChunks (tx_sb w) = sb_sysChunks sb ->
  file_data partOff sb dv m (in_num i) data -> in_size i = blen data -> blen data <= dev < 2 ^ 63 ->
  ReadFile partOff dev p w = (w, Ok data).
Proof using HL HD RWL.
  intros Hr Hh Hres Hreg Esb Hd Hs Hdev. unfold ReadFile. erewrite sm_bind_Ok by (by eapply fs_path_run).
  rewrite Hreg. cbn [negb]. by eapply fs_file_data_run.
Qed.
Lemma ReadLink_run t dv (w : W) h m sb p i data dev :
  repr t dv w h m -> Z.of_nat h <= maxBtreeDepth -> resolves m p i -> isSymlink i = true -> sb_sysChunks (tx_sb w) = sb_sysChunks sb ->
  file_data partOff sb dv m (in_num i) data -> in_size i = blen data -> blen data <= dev < 2 ^ 63 ->
  ReadLink partOff dev p w = (w, Ok data).
Proof using HL HD RWL.
  intros Hr Hh Hres Hsym Esb Hd Hs Hdev. unfold ReadLink. erewrite sm_bind_Ok by (by eapply fs_path_run).
  rewrite Hsym. cbn [negb]. by eapply fs_file_data_run.
Qed.
End ReadBack.
