(* ===== verification/CreateApi.v ===== *)
(** * What the creating operations promise (write.go, mkdir.go, symlink.go)

    [WriteFile] of a new name, [MkDir] and [Symlink], from the call to the reads
    that follow it: the path leads to the new inode, its content is what was
    written, and every other file keeps its path and its content. *)
From Stdlib Require Import ZArith Lia Strings.Byte.
From stdpp Require Import base option list numbers sorting gmap.
From S2P Require Import Prelude Bytes Alloc Layout SafeIO Chunk Node BTree Walk Split Crc32c Cow Store CowCorrect.
From S2P Require Import Codec Read FileRead Tx Extent Ops FsTree FsLookup InodeEdit Rebuild FsData ExtentLayout ExtentWrite.
From S2P Require Import CommitCorrect InodeOps Entries Paths Create.
Local Open Scope Z_scope.
Local Open Scope btrfs_scope.

(** ** Modes *)
Lemma perm_bits (P : Z -> bool) perm : forallb P (map Z.of_nat (seq 0 512)) = true -> P (Z.land perm 0x1FF) = true.
Proof.
  intros Hall. rewrite forallb_forall in Hall. apply Hall. apply in_map_iff.
  change 0x1FF with (Z.ones 9). rewrite Z.land_ones by lia. pose proof (Z.mod_pos_bound perm (2 ^ 9) ltac:(lia)).
  exists (Z.to_nat (perm mod 2 ^ 9)). split; [lia|]. apply in_seq. lia.
Qed.

(** The mode of a new inode: the type and the permission bits. *)
Definition new_mode (kind perm : Z) : Z := u16 (Z.lor kind (Z.land perm 0x1FF)).
Lemma new_mode_kind kind perm :
  kind ∈ [0x8000; 0x4000; 0xA000] -> 0 <= new_mode kind perm < 2 ^ 16 /\ Z.land (new_mode kind perm) 0xF000 = kind.
Proof.
  intros Hk. split; [apply Z.mod_pos_bound; lia|]. apply Z.eqb_eq. unfold new_mode.
  rewrite !elem_of_cons, elem_of_nil in Hk. destruct Hk as [->|[->|[->|[]]]];
    match goal with |- (Z.land (u16 (Z.lor ?k _)) _ =? _) = true =>
      apply (perm_bits (fun x => Z.land (u16 (Z.lor k x)) 0xF000 =? k)) end; vm_compute; reflexivity.
Qed.

Section CreateApi.
Context `{HL : SafeIOLaws} {D : Type} `{RWL : RWLaws D} `{CK : Clock} (partOff : Z).
Abbreviation W := (txState D).

(** A mounted file system on which operations can run. *)
Record ready (dv : dataView) (w : W) (h : nat) (m : gmap key bytes) : Prop := Ready {
  rdy_repr : repr partOff trees True dv w h m;
  rdy_low : Z.of_nat h <= maxBtreeDepth;
  rdy_wf : fs_wf m;
  rdy_sector : 0 < sb_sectorSize (tx_sb w) < 2 ^ 62;
  rdy_room : partOff + superblockOffset + sbfSize <= dv_size dv }.

(** The path names nothing yet in a directory that exists, and no other name of
    that directory has the same hash. *)
Definition new_name (m : gmap key bytes) (p : bytes) (parent : Z) : Prop :=
  let '(dir, name) := split_dir p in
  (exists pi, resolves m dir pi /\ in_num pi = parent) /\ name <> [] /\ name <> dot /\ blen name < 2 ^ 16 /\
  (forall r, ~ dir_entry m parent name r) /\ m !! Key parent typeDirItem (hashDirName name) = None.

(** Paths and contents are kept, apart from the attributes of [parent]. *)
Definition files_kept (sb : superblock) (dv dv' : dataView) (m m' : gmap key bytes) (parent : Z) : Prop :=
  forall q i, resolves m q i -> in_num i <> parent ->
    resolves m' q i /\ forall b, file_data partOff sb dv m (in_num i) b -> file_data partOff sb dv' m' (in_num i) b.

(** The file system after an operation that created the inode [i] at [p]. *)
Definition holds (dv : dataView) (w : W) (m : gmap key bytes) (p : bytes) (parent mode : Z) (data : option bytes) (w' : W) : Prop :=
  exists dv' h' m' i, repr partOff trees True dv' w' h' m' /\ Z.of_nat h' <= maxBtreeDepth /\ dv_le dv dv' /\
    committed (tx_sb w) (tx_sb w') /\ resolves m' p i /\ in_mode i = mode /\ in_size i = blen (default [] data) /\ in_nlink i = 1 /\
    match data with Some data => file_data partOff (tx_sb w) dv' m' (in_num i) data | None => True end /\
    files_kept (tx_sb w) dv dv' m m' parent /\
    (inodes_numbered m' -> dirs_numbered m' -> ready dv' w' h' m').

Lemma committed_sector sb sb' : committed sb sb' -> sb_sectorSize sb' = sb_sectorSize sb /\ sb_sysChunks sb' = sb_sysChunks sb.
Proof using. intros (r&g&->). done. Qed.

Lemma created_wf m m' ino parent name ft item gen :
  fs_wf m -> is_Some (m !! inodeKey parent) -> m !! Key parent typeDirItem (hashDirName name) = None ->
  blen item = inodeItemSize -> created m m' ino parent name ft item gen -> inodes_ok m' /\ exts_ok m' /\ owned m'.
Proof using.
  intros Hwf Hpi Hslot Hitem Hc. pose proof (created_item _ _ _ _ _ _ _ _ Hpi Hc) as Hino.
  pose proof (created_extends _ _ _ _ _ _ _ _ Hwf Hslot Hc) as [Hex1 Hex2].
  destruct Hc as (mx&idx&now&Hf&Hi&Hu&Hx&He). pose proof (proj1 Hx) as Hsub.
  assert (Hmx : inodes_ok mx).
  { intros i d Ed. rewrite (adds_extents_frame _ _ _ _ Hx) in Ed by (by left). apply lookup_insert_Some in Ed as [[_ <-]|[_ Ed]]; [lia|by eapply Hwf]. }
  split_and!.
  - eapply inodes_ok_edit; [|exact He]. intros i d. unfold entry_items. rewrite !lookup_insert_ne by done. apply Hmx.
  - eapply exts_ok_edit; [|exact He]. unfold entry_items. do 3 (apply exts_ok_insert; [|by intros ?]). intros k d Ed.
    destruct (decide (<[inodeKey ino := item]> m !! k = Some d)) as [E0|E0]; [|by apply (proj2 Hx k d Ed E0)].
    apply lookup_insert_Some in E0 as [[<- _]|[_ E0]]; [by intros ?|by apply (wf_exts _ Hwf k)].
  - intros k d Ed Ht. destruct (decide (objID k = ino)) as [->|Ho]; [by exists item|].
    assert (Ek : m !! k = Some d).
    { rewrite (inode_edit_frame _ _ _ _ _ He) in Ed by (intros ->; by destruct Ht). unfold entry_items in Ed.
      rewrite !lookup_insert_ne in Ed by (intros <-; first [by destruct Ht|done]).
      rewrite (adds_extents_frame _ _ _ _ Hx) in Ed by (by right). by rewrite lookup_insert_ne in Ed by (intros <-; by destruct Ht). }
    destruct (wf_owned _ Hwf k d Ek Ht) as [x Ex]. destruct (decide (objID k = parent)) as [->|Hp]; [by apply Hex2|].
    exists x. apply Hex1; [done|]. by intros [= ?].
Qed.

Lemma created_holds dv w h m p parent ft mode nbytes data w' :
  ready dv w h m -> new_name m p parent -> 0 <= ft < 256 -> 0 <= mode < 2 ^ 16 -> blen (default [] data) < 2 ^ 62 ->
  created_after partOff True dv w m parent (split_dir p).2 ft
    (fun ino now => encodeInodeItem ino (blen (default [] data)) mode (next_gen (tx_sb w)) nbytes 1 now) data w' ->
  holds dv w m p parent mode data w'.
Proof using.
  intros [Hr Hlow Hwf Hsec Hroom] Hnew Hft Hmode Hlen. unfold new_name in Hnew. pose proof (split_dir_parts p) as Hparts.
  destruct (split_dir p) as [dir name]. cbn [fst snd] in *. destruct Hnew as ((pi&Hpi&Epi)&Hn1&Hn2&Hnlen&Hno&Hslot).
  intros (dv'&h'&m'&ino&now&Hl'&Hr'&Hle&Hcom&Hnow&Hcr&Hdata). destruct (repr_prefix _ _ _ _ _ _ _ parent typeDirIndex Hr) as [l Hl].
  set (size := blen (default [] data)) in *. set (item := encodeInodeItem _ _ _ _ _ _ _) in Hcr. assert (Hsz : is_u64 size) by (unfold is_u64, size; pose proof (blen_nonneg (default [] data)); lia).
  assert (Hpar : is_Some (m !! inodeKey parent)) by (destruct Hpi as (_&d&Ed&_); rewrite <- Epi; by exists d).
  destruct (encodeInodeItem_fields ino size mode (next_gen (tx_sb w)) nbytes 1 now Hsz Hmode ltac:(lia)) as (Li&F1&F2&F3). fold item in Li, F1, F2, F3.
  assert (Hpath : forall q, path_to m q rootDirObjID parent -> path_to m' (q ++ [name]) rootDirObjID ino).
  { intros q Hq. apply path_to_app. exists parent. split; [by eapply (created_path m m')|]. exists (ino, ft). split; [|done].
    apply (created_entry m m' ino parent name ft item (next_gen (tx_sb w)) Hslot Hcr l); try done. by left. }
  assert (Hfr : inode_fresh m ino) by (by destruct Hcr as (?&?&?&?&_)).
  exists dv', h', m', (InodeItem ino mode size 1). split_and!; try done.
  - split; cbn [in_num].
    + destruct Hparts as [(Ep&_)|(_&_&[?|?])]; [|done..]. rewrite Ep. apply Hpath. rewrite <- Epi. apply Hpi.
    + exists item. split; [by eapply created_item|]. by apply decode_inode_fields.
  - intros q i (Hq&d&Ed&Hdec) Hne. destruct (created_extends _ _ _ _ _ _ _ _ Hwf Hslot Hcr) as [Hex _].
    assert (Hni : in_num i <> ino) by (intros E; destruct Hfr as [_ Hf]; rewrite E in Ed; specialize (Hf _ _ Ed eq_refl); cbn in Hf; lia).
    split.
    + split; [by eapply (created_path m m')|]. exists d. split; [|done]. apply Hex; [done|]. by intros [= ?].
    + intros b. apply file_data_frame; [done|]. intros k Ho Ht. eapply created_extents; [exact Hcr|done|congruence].
  - intros H1 H2. destruct (committed_sector _ _ Hcom) as [Es _].
    destruct (created_wf _ _ _ _ _ _ _ _ Hwf Hpar Hslot Li Hcr) as (H3&H4&H5). split; [done|done|done|by rewrite Es|by destruct Hle as [-> _]].
Qed.

(** The lookups before a creation find the directory and no entry. *)
Lemma new_name_run dv w h m p parent :
  ready dv w h m -> new_name m p parent ->
  pathLookupIno partOff (split_dir p).1 w = (w, Ok parent) /\ entry_opt partOff parent (split_dir p).2 w = (w, Ok None) /\
  is_u64 parent /\ is_Some (m !! inodeKey parent).
Proof using HL RWL.
  intros [Hr Hlow Hwf Hsec Hroom] Hnew. unfold new_name in Hnew. destruct (split_dir p) as [dir name]. cbn [fst snd].
  destruct Hnew as ((pi&Hpi&<-)&_&_&_&Hno&_). assert (Hu : is_u64 (in_num pi)).
  { eapply path_to_u64; [|apply Hpi]. unfold is_u64, rootDirObjID. lia. }
  split_and!; [| |done|].
  - unfold pathLookupIno. by erewrite sm_bind_Ok by (by eapply fs_path_run).
  - apply wp_is. eapply (entry_opt_spec partOff trees never True dv w h m); [done|done| |done].
    intros r _ Hr'. by destruct (Hno r (Hr' Hlow)).
  - destruct Hpi as (_&d&Ed&_). by exists d.
Qed.

(** After an error nothing is lost: every item is still there, apart from the
    parent's attributes, and all file data. *)
Definition nothing_lost (dv : dataView) (w : W) (m : gmap key bytes) (parent : Z) (w' : W) : Prop :=
  exists dv' h' m', repr partOff any_rest True dv' w' h' m' /\ dv_le dv dv' /\ extends parent m m' /\ committed (tx_sb w) (tx_sb w').

Context (Hclock : forall n, time_ok (clock_at n)).
Abbreviation full_tx := (fun w' : W => full (tx_cow w')).

Lemma create_wp dv w h m p parent data kind perm ft :
  ready dv w h m -> new_name m p parent -> kind ∈ [0x8000; 0x4000; 0xA000] -> 0 <= ft < 256 -> blen data < 2 ^ 62 ->
  wp full_tx (createInodeWithDirEntry partOff parent (split_dir p).2 data (new_mode kind perm) ft) w
    (fun _ w' => holds dv w m p parent (new_mode kind perm) (Some data) w') (fun _ w' => nothing_lost dv w m parent w').
Proof using HL RWL Hclock.
  intros Hrdy Hnew Hk Hft Hlen. destruct (new_name_run _ _ _ _ _ _ Hrdy Hnew) as (_&_&Hu&Hpi).
  pose proof Hrdy as [Hr Hlow Hwf Hsec Hroom]. destruct (new_mode_kind kind perm Hk) as [Hm _].
  assert (Hn : (split_dir p).2 <> [] /\ m !! Key parent typeDirItem (hashDirName (split_dir p).2) = None)
    by (unfold new_name in Hnew; destruct (split_dir p); cbn; tauto). destruct Hn as [Hn1 Hn2].
  eapply wp_mono; [eapply (createInodeWithDirEntry_spec partOff Hclock full_tx ltac:(done) True I dv Hroom w h m Hr Hwf parent (split_dir p).2
    Hu Hpi Hn1 Hn2 data (new_mode kind perm) ft (fun _ w' => nothing_lost dv w m parent w'))|..]; [done|done|done| |done].
  intros u w' (nbytes&Hc). eapply (created_holds dv w h m p parent ft _ nbytes (Some data)); done.
Qed.

Lemma makeDir_wp dv w h m p parent perm :
  ready dv w h m -> new_name m p parent ->
  wp full_tx (makeDir partOff p perm) w
    (fun _ w' => holds dv w m p parent (new_mode 0x4000 perm) None w') (fun _ w' => nothing_lost dv w m parent w').
Proof using HL RWL Hclock.
  intros Hrdy Hnew. destruct (new_name_run _ _ _ _ _ _ Hrdy Hnew) as (E1&E2&Hu&Hpi).
  pose proof Hrdy as [Hr Hlow Hwf Hsec Hroom]. destruct (new_mode_kind 0x4000 perm) as [Hm _]; [by right; left|].
  assert (Hn : (split_dir p).2 <> [] /\ m !! Key parent typeDirItem (hashDirName (split_dir p).2) = None)
    by (unfold new_name in Hnew; destruct (split_dir p); cbn; tauto). destruct Hn as [Hn1 Hn2].
  pose proof (created_holds dv w h m p parent ftDir (new_mode 0x4000 perm) 0 None) as Hch.
  unfold makeDir. destruct (split_dir p) as [dir name]. cbn [fst snd] in *.
  unfold wp. rewrite (sm_bind_Ok _ _ _ _ _ E1), (sm_bind_Ok _ _ _ _ _ E2). cbv beta iota.
  match goal with |- context [?mm w] => change (wp full_tx mm w (fun _ w' => holds dv w m p parent (new_mode 0x4000 perm) None w')
    (fun _ w' => nothing_lost dv w m parent w')) end.
  apply wp_bind, (nextInodeNum_spec partOff trees full_tx True dv w h m); [done|apply Hwf|]. intros ino Hui Hfr.
  apply wp_bind, wp_gets. cbv zeta. apply wp_bind, (now_spec partOff trees Hclock full_tx True dv w h m); [done|].
  intros w1 now Hnow Hr1 Hw1. change (u16 (Z.lor 0x4000 (Z.land perm 0x1FF))) with (new_mode 0x4000 perm).
  apply wp_bind, (insert_inode_spec partOff full_tx True I dv w h m parent Hu Hpi w1 ino);
    [done|done|done|done|by rewrite encodeInodeItem_blen| |done].
  intros w2 h2 Hf Hr2 Hw2.
  eapply wp_mono; [eapply (finish_spec partOff Hclock full_tx ltac:(done) True I dv Hroom w m Hwf parent name Hu Hpi Hn1 Hn2 dv w2 h2 _ ino ftDir
    (fun ino now => encodeInodeItem ino 0 (new_mode 0x4000 perm) (next_gen (tx_sb w)) 0 1 now) None (fun _ w' => nothing_lost dv w m parent w') now)|..];
    try done. intros u w3 H3. by apply Hch.
Qed.
End CreateApi.

Lemma writeFile_spec `{HL : SafeIOLaws} `{HD : DecodersLaws} {D : Type} `{RWL : RWLaws D} `{CK : Clock} (partOff : Z)
    (dv : dataView) (w : txState D) (h : nat) (m : gmap key bytes) (p data : bytes) (perm parent dev : Z) :
  (forall n, time_ok (clock_at n)) -> ready partOff dv w h m -> new_name m p parent -> blen data < 2 ^ 62 -> blen data <= dev < 2 ^ 63 ->
  match writeFile partOff p data perm w with
  | (w', Ok _) => ReadFile partOff dev p w' = (w', Ok data) /\
      (forall q i b, resolves m q i -> in_num i <> parent -> isRegular i = true -> in_size i = blen b -> blen b <= dev ->
         file_data partOff (tx_sb w) dv m (in_num i) b -> ReadFile partOff dev q w' = (w', Ok b)) /\
      holds partOff dv w m p parent (new_mode 0x8000 perm) (Some data) w'
  | (w', Err _) => nothing_lost partOff dv w m parent w'
  | (w', Panic) => full (tx_cow w')
  | (_, NoFuel) => False
  end.
Proof.
  intros Hclock Hrdy Hnew Hlen Hdev. destruct (new_name_run _ _ _ _ _ _ _ Hrdy Hnew) as (E1&E2&_).
  pose proof (create_wp partOff Hclock dv w h m p parent data 0x8000 perm ftRegFile Hrdy Hnew ltac:(by left) ltac:(unfold ftRegFile; lia) Hlen) as Hc.
  unfold writeFile. destruct (split_dir p) as [dir name] eqn:Es. cbn [fst snd] in *.
  rewrite (sm_bind_Ok _ _ _ _ _ E1), (sm_bind_Ok _ _ _ _ _ E2). cbv beta iota. unfold createFile.
  change (u16 (Z.lor 0x8000 (Z.land perm 0x1FF))) with (new_mode 0x8000 perm). unfold wp in Hc.
  destruct (createInodeWithDirEntry _ _ _ _ _ _ _) as [w' [[]|e| |]]; try done.
  pose proof Hc as (dv'&h'&m'&i&Hr'&Hl'&Hle&Hcom&Hres&Hmode&Hsize&_&Hdata&Hkept&_). destruct (committed_sector _ _ Hcom) as [_ Esb].
  split_and!; [| |done].
  - eapply ReadFile_run; try done. unfold isRegular. rewrite Hmode. apply Z.eqb_eq. apply new_mode_kind. by left.
  - intros q j b Hq Hne Hreg Hs Hb Hd. destruct (Hkept q j Hq Hne) as [Hq' Hd']. eapply ReadFile_run; try done; [by apply Hd'|lia].
Qed.

(** C1. [WriteFile] of a new name and [ReadFile]: when the call succeeds, reading
    the path returns exactly the bytes that were written, whatever their size
    (inline, all zero, one extent or several); the new inode is a regular file with
    the permission bits asked for; and every other file keeps its path and its
    content.  When it fails no item and no file data is lost.  It panics only when
    no node block is left. *)
Theorem writeFile_reads_back `{HL : SafeIOLaws} `{HD : DecodersLaws} {D : Type} `{RWL : RWLaws D} `{CK : Clock} (partOff : Z)
    (dv : dataView) (w : txState D) (h : nat) (m : gmap key bytes) (p data : bytes) (perm parent dev : Z) :
  (forall n, time_ok (clock_at n)) -> ready partOff dv w h m -> new_name m p parent -> blen data < 2 ^ 62 -> blen data <= dev < 2 ^ 63 ->
  match writeFile partOff p data perm w with
  | (w', Ok _) => ReadFile partOff dev p w' = (w', Ok data) /\
      (forall q i b, resolves m q i -> in_num i <> parent -> isRegular i = true -> in_size i = blen b -> blen b <= dev ->
         file_data partOff (tx_sb w) dv m (in_num i) b -> ReadFile partOff dev q w' = (w', Ok b)) /\
      holds partOff dv w m p parent (new_mode 0x8000 perm) (Some data) w'
  | (w', Err _) => nothing_lost partOff dv w m parent w'
  | (w', Panic) => full (tx_cow w')
  | (_, NoFuel) => False
  end.
Proof. apply writeFile_spec. Qed.

(** The run of [Symlink] on a new name. *)
Lemma symlink_spec `{HL : SafeIOLaws} `{HD : DecodersLaws} {D : Type} `{RWL : RWLaws D} `{CK : Clock} (partOff : Z)
    (dv : dataView) (w : txState D) (h : nat) (m : gmap key bytes) (p target : bytes) (parent dev : Z) :
  (forall n, time_ok (clock_at n)) -> ready partOff dv w h m -> new_name m p parent -> target <> [] ->
  blen target < 2 ^ 62 -> blen target <= dev < 2 ^ 63 ->
  match symlinkInode partOff target p w with
  | (w', Ok _) => ReadLink partOff dev p w' = (w', Ok target) /\
      holds partOff dv w m p parent (new_mode 0xA000 0x1FF) (Some target) w'
  | (w', Err _) => nothing_lost partOff dv w m parent w'
  | (w', Panic) => full (tx_cow w')
  | (_, NoFuel) => False
  end.
Proof.
  intros Hclock Hrdy Hnew Htar Hlen Hdev. destruct (new_name_run _ _ _ _ _ _ _ Hrdy Hnew) as (E1&E2&_).
  assert (Hn : (split_dir p).2 <> []) by (unfold new_name in Hnew; destruct (split_dir p); cbn; tauto).
  pose proof (create_wp partOff Hclock dv w h m p parent target 0xA000 0x1FF ftSymlink Hrdy Hnew ltac:(by right; right; left) ltac:(unfold ftSymlink; lia) Hlen) as Hc.
  unfold symlinkInode. rewrite bool_decide_eq_false_2 by done. destruct (split_dir p) as [dir name] eqn:Es. cbn [fst snd] in *.
  rewrite bool_decide_eq_false_2 by done. rewrite (sm_bind_Ok _ _ _ _ _ E1), (sm_bind_Ok _ _ _ _ _ E2). cbv beta iota.
  change (u16 (Z.lor 0xA000 0x1FF)) with (new_mode 0xA000 0x1FF). unfold wp in Hc.
  destruct (createInodeWithDirEntry _ _ _ _ _ _ _) as [w' [[]|e| |]]; try done.
  pose proof Hc as (dv'&h'&m'&i&Hr'&Hl'&Hle&Hcom&Hres&Hmode&Hsize&_&Hdata&Hkept&_). destruct (committed_sector _ _ Hcom) as [_ Esb].
  split; [|done]. eapply ReadLink_run; try done. unfold isSymlink. rewrite Hmode. reflexivity.
Qed.

(** C20. [Symlink] of a new name and [ReadLink]: when the call succeeds, the path is
    a symbolic link and reading it returns exactly the target; every other file is
    kept.  When it fails no item and no file data is lost. *)
Theorem symlink_reads_back `{HL : SafeIOLaws} `{HD : DecodersLaws} {D : Type} `{RWL : RWLaws D} `{CK : Clock} (partOff : Z)
    (dv : dataView) (w : txState D) (h : nat) (m : gmap key bytes) (p target : bytes) (parent dev : Z) :
  (forall n, time_ok (clock_at n)) -> ready partOff dv w h m -> new_name m p parent -> target <> [] ->
  blen target < 2 ^ 62 -> blen target <= dev < 2 ^ 63 ->
  match symlinkInode partOff target p w with
  | (w', Ok _) => ReadLink partOff dev p w' = (w', Ok target) /\
      holds partOff dv w m p parent (new_mode 0xA000 0x1FF) (Some target) w'
  | (w', Err _) => nothing_lost partOff dv w m parent w'
  | (w', Panic) => full (tx_cow w')
  | (_, NoFuel) => False
  end.
Proof. apply symlink_spec. Qed.

(** [MkDir] of a new name: when the call succeeds, [Stat] of the path gives a
    directory of size 0 with the permission bits asked for, and every other file is
    kept.  When it fails no item and no file data is lost. *)
Theorem makeDir_adds_dir `{HL : SafeIOLaws} {D : Type} `{RWL : RWLaws D} `{CK : Clock} (partOff : Z)
    (dv : dataView) (w : txState D) (h : nat) (m : gmap key bytes) (p : bytes) (perm parent : Z) :
  (forall n, time_ok (clock_at n)) -> ready partOff dv w h m -> new_name m p parent ->
  match makeDir partOff p perm w with
  | (w', Ok _) => (exists ino, Stat partOff p w' = (w', Ok (new_mode 0x4000 perm, 0, ino))) /\
      holds partOff dv w m p parent (new_mode 0x4000 perm) None w'
  | (w', Err _) => nothing_lost partOff dv w m parent w'
  | (w', Panic) => full (tx_cow w')
  | (_, NoFuel) => False
  end.
Proof.
  intros Hclock Hrdy Hnew. pose proof (makeDir_wp partOff Hclock dv w h m p parent perm Hrdy Hnew) as Hc. unfold wp in Hc.
  destruct (makeDir _ _ _ _) as [w' [[]|e| |]]; try done. split; [|done].
  destruct Hc as (dv'&h'&m'&i&Hr'&Hl'&Hle&Hcom&Hres&Hmode&Hsize&_). exists (in_num i). unfold Stat.
  erewrite sm_bind_Ok by (by eapply fs_path_run). rewrite Hmode, Hsize. cbn [default]. change (blen []) with 0.
  destruct (new_mode_kind 0x4000 perm) as [Hb _]; [by right; left|]. unfold u16. by rewrite Z.mod_small by lia.
Qed.
