(* ===== verification/Overwrite.v ===== *)
(** * Freeing and replacing the content of a file (write.go)

    [freeInodeExtents] gives the extents of an inode back to the space manager;
    [WriteFile] of an existing name frees them, deletes the extent items, writes the new
    content and updates the inode. *)
From Stdlib Require Import ZArith Lia Strings.Byte.
From stdpp Require Import base option list numbers sorting gmap.
From S2P Require Import Prelude Bytes Alloc Layout SafeIO Chunk Node BTree Walk Split Crc32c Cow Store CowCorrect.
From S2P Require Import Codec Read FileRead Tx Extent Ops FsTree DeletePrefix FsLookup InodeEdit Rebuild FsData ExtentLayout ExtentWrite.
From S2P Require Import CommitCorrect InodeOps Entries Paths Create CreateApi XattrOps.
Local Open Scope Z_scope.
Local Open Scope btrfs_scope.

(** ** Freeing data *)

(** The data known without the bytes of [P]. *)
Definition dv_minus (dv : dataView) (P : Z -> Prop) : dataView :=
  DataView (dv_size dv) (fun p => dv_held dv p /\ ~ P p) (dv_read dv).
Lemma dv_minus_le dv P : dv_le (dv_minus dv P) dv.
Proof. split_and!; cbn; [done|tauto|done]. Qed.

(** The bytes of a list of ranges. *)
Definition in_ranges (rs : list (Z * Z)) (p : Z) : Prop := exists a n, (a, n) ∈ rs /\ a <= p < a + n.
Lemma in_ranges_cons a n rs p : in_ranges ((a, n) :: rs) p <-> a <= p < a + n \/ in_ranges rs p.
Proof.
  unfold in_ranges. split.
  - intros (a'&n'&Hin&Hp). apply elem_of_cons in Hin as [[= -> ->]|Hin]; [by left|right; by exists a', n'].
  - intros [Hp|(a'&n'&Hin&Hp)]; [exists a, n; split; [by left|done]|exists a', n'; split; [by right|done]].
Qed.

(** The disk range of an extent item, as a total function. *)
Definition range_of (sb : superblock) (d : bytes) : option (Z * Z) :=
  match extent_range sb d with Ok r => r | _ => None end.
Lemma extent_range_ok sb d : extent_range sb d = Ok (range_of sb d).
Proof.
  unfold range_of. unfold extent_range. case_if; [done|]. unfold extDataOffType, extDataRegularSize in *.
  rewrite (get_le_Ok 1) by lia. cbn [mbind outcome_bind]. case_if; [done|]. case_if; [done|].
  rewrite !(get_le_Ok 8) by (unfold extDataOffDiskBytenr, extDataOffDiskNumBytes; lia). cbn [mbind outcome_bind].
  case_if; [done|]. unfold logToPhys, lookupChunk. destruct (List.find _ _); cbn [mbind outcome_bind]; [|done]. by case_if.
Qed.
Definition ranges_of (sb : superblock) (l : list rec) : list (Z * Z) := omap (fun r => range_of sb r.2) l.

Section Free.
Context `{HL : SafeIOLaws} {D : Type} `{RWL : RWLaws D} `{CK : Clock} (partOff : Z) (R : keeper) `{HR : !Stable R}.
Context (X : txState D -> Prop).
Abbreviation W := (txState D).
Abbreviation repr := (repr partOff R).

(** Less data known. *)
Lemma repr_dv_le t dv dv' (w : W) h m : dv_le dv' dv -> repr t dv w h m -> repr t dv' w h m.
Proof using.
  intros (E1&E2&E3) (c&ads&rest&Hf&Hw&Em&Hi&HRr&Hne&Hd1&Hd2). exists c, ads, rest. split_and!; try done.
  - destruct Hi as (H1&H2&H3&H4&H5&H6&H7&H8&H9&H10). split_and!; try done. split_and!; [congruence|intros p Hp; by apply H9, E2|].
    intros a n Hn Hp. rewrite H10 by (done || intros q Hq; by apply E2, Hp). by apply E3.
  - split; [congruence|]. intros p Hp. by apply Hd2, E2.
Qed.

(** A range of held bytes inside the device. *)
Definition held_range (dv : dataView) (r : Z * Z) : Prop :=
  0 < r.1 /\ 0 < r.2 /\ partOff + r.1 + r.2 <= dv_size dv /\ forall p, r.1 <= p < r.1 + r.2 -> dv_held dv p.
Fixpoint held_ranges (dv : dataView) (rs : list (Z * Z)) : Prop :=
  match rs with
  | [] => True
  | r :: rs => held_range dv r /\ (forall p, r.1 <= p < r.1 + r.2 -> ~ in_ranges rs p) /\ held_ranges dv rs
  end.

Lemma free_data_spec t dv (w : W) h m a n (Q : unit -> W -> Prop) E :
  repr t dv w h m -> held_range dv (a, n) ->
  (forall w', repr t (dv_minus dv (fun p => a <= p < a + n)) w' h m -> next w w' -> Q tt w') -> wp X (free_data a n) w Q E.
Proof using HL RWL.
  intros (c&ads&rest&Hf&Hw&Em&Hi&HRr&Hne&Hdev) (Ha&Hn&Hsz&Hheld) HQ. cbn [fst snd] in *.
  unfold wp, free_data, tx_lift. pose proof Hi as (Hwf&Hns&Hfree&Hok&Hnd&Hdis&Hnf&Hdsz&Hdat&Hread).
  assert (Hmap : forall p, a <= p < a + n -> Store.mapped (tx_sb w) p) by (intros p Hp; by apply Hdev, Hheld).
  destruct (mapped_addr partOff _ Hf (a + n - 1) (Hmap (a + n - 1) ltac:(lia))) as (_&_&Hhi&_&_).
  assert (Hbig : dev_size (st_dev (tx_cow w)) < 2 ^ 63).
  { destruct (wtree_head _ _ _ _ _ _ Hw) as [l ->]. cbn [app] in Hok. apply Forall_cons in Hok as [(_&_&?) _]. lia. }
  destruct (freeRange_wf (st_sm (tx_cow w)) a n) as (Hwf'&Hcov&_&_); [done|unfold fe_ok; cbn; lia|intros p Hp; by apply Hdat, Hheld|].
  set (sm' := freeRange _ a n) in *.
  assert (Hiff : forall p, is_free sm' p <-> is_free (st_sm (tx_cow w)) p \/ a <= p < a + n).
  { intros p. unfold is_free. rewrite Hcov. pose proof (cov_nonneg (sm_freeExts (st_sm (tx_cow w))) p).
    destruct (inr_spec a n p) as [[? ->]|[? ->]]; lia. }
  apply HQ; [|done]. exists c, ads, rest. cbn [tx_cow tx_sb tx_root]. split_and!; try done; cycle 1.
  { split; [apply Hdev|]. intros p [Hp _]. by apply Hdev. }
  split_and!; cbn [st_sm st_dev]; try done.
  - intros p Hp. apply Hiff in Hp as [Hp|Hp]; [by apply Hfree|]. split_and!; [lia|by apply Hmap|lia|lia].
  - intros x Hx (p&Hp&Hfp). apply Hiff in Hfp as [Hfp|Hfp]; [apply (Hnf x Hx); by exists p|].
    by destruct (Hdat p (Hheld p Hfp)) as [_ Hl]; apply (Hl x Hx).
  - split_and!; cbn; [done| |].
    + intros p [Hp Hout]. destruct (Hdat p Hp) as [Hfp Hl]. split; [|done]. rewrite Hiff. tauto.
    + intros x k Hk Hp. apply Hread; [done|]. intros p Hp'. by apply Hp.
Qed.

Lemma held_ranges_minus dv rs a n :
  held_ranges dv rs -> (forall p, a <= p < a + n -> ~ in_ranges rs p) -> held_ranges (dv_minus dv (fun p => a <= p < a + n)) rs.
Proof using.
  induction rs as [|[b k] rs IH]; [done|]. cbn [held_ranges fst snd]. intros ((H1&H2&H3&H4)&Hd&Hrs) Hout. split_and!.
  - split_and!; cbn; [done..|]. intros p Hp. split; [by apply H4|]. intros Hin. apply (Hout p Hin), in_ranges_cons. by left.
  - done.
  - apply IH; [done|]. intros p Hp Hin. apply (Hout p Hp), in_ranges_cons. by right.
Qed.

Lemma free_extents_spec t l : forall dv (w : W) h m (Q : unit -> W -> Prop) E,
  repr t dv w h m -> held_ranges dv (ranges_of (tx_sb w) l) ->
  (forall w', repr t (dv_minus dv (in_ranges (ranges_of (tx_sb w) l))) w' h m -> next w w' -> Q tt w') ->
  wp X (free_extents l) w Q E.
Proof using HL RWL.
  induction l as [|r l IH]; intros dv w h m Q E Hr Hheld HQ; cbn [free_extents].
  { apply wp_ret, HQ; [|done]. eapply repr_dv_le; [apply dv_minus_le|done]. }
  apply wp_bind, wp_gets. apply wp_bind. eapply wp_lift_ok; [apply extent_range_ok|]. cbn [ranges_of omap list_omap] in *.
  destruct (range_of (tx_sb w) r.2) as [[a n]|]; last first.
  { apply wp_bind, wp_ret. eapply IH; [done|done|]. intros w' Hr' Hn. by apply HQ. }
  cbn [held_ranges fst snd] in Hheld. destruct Hheld as (Hr1&Hout&Hrs). apply wp_bind.
  eapply (free_data_spec t dv w h m); [done|exact Hr1|]. intros w1 Hr1' Hn1.
  eapply IH; [exact Hr1'|rewrite Hn1; by apply held_ranges_minus|]. rewrite Hn1. intros w2 Hr2 Hn2.
  apply HQ; [|by etrans]. eapply repr_dv_le; [|exact Hr2]. split_and!; cbn; [done| |done].
  intros p [Hp Hno]. rewrite in_ranges_cons in Hno. unfold ranges_of. tauto.
Qed.

(** The extents of an inode: their items, and the ranges they take on the disk. *)
Lemma freeInodeExtents_spec t dv (w : W) h m ino l (Q : unit -> W -> Prop) E :
  repr t dv w h m -> Z.of_nat h <= maxBtreeDepth -> prefix_of m ino typeExtentData l -> held_ranges dv (ranges_of (tx_sb w) l) ->
  (forall w', repr t (dv_minus dv (in_ranges (ranges_of (tx_sb w) l))) w' h m -> next w w' -> Q tt w') ->
  wp X (freeInodeExtents partOff ino) w Q E.
Proof using HL RWL.
  intros Hr Hh Hl Hheld HQ. unfold freeInodeExtents. apply wp_bind.
  eapply (prefix_or_nil_spec partOff R X t dv w h m); [done|unfold typeExtentData; lia|]. intros l' Hl'.
  rewrite (prefix_of_unique _ _ _ _ _ (Hl' Hh) Hl). by eapply free_extents_spec.
Qed.
End Free.

(** ** Replacing the content *)

(** Every item but the inode's own and its extents. *)
Definition other_keys (m m' : gmap key bytes) (ino : Z) : Prop :=
  forall k, k <> inodeKey ino -> ~ (objID k = ino /\ typ k = typeExtentData) -> m' !! k = m !! k.
(** What the new content does to the record. *)
Definition rewritten (gen size nbytes : Z) (now : timespec) (s : InodeStat) : InodeStat :=
  st_mtime now (st_change gen now (st_nbytes nbytes (st_size size s))).

Lemma classifyExtent_ok data sector : 0 < sector -> blen data < 2 ^ 62 -> exists c, classifyExtent data sector = Ok c /\ is_u64 c.2.
Proof.
  intros Hs Hl. pose proof (blen_nonneg data). unfold classifyExtent.
  case_if; [by eexists|]. case_if; [eexists; split; [done|]; unfold is_u64; cbn [snd]; lia|]. case_if; [by eexists|]. case_if; [lia|].
  eexists. split; [done|]. apply u64_range.
Qed.

Section Overwrite.
Context `{HL : SafeIOLaws} {D : Type} `{RWL : RWLaws D} `{CK : Clock} (partOff : Z).
Context (Hclock : forall n, time_ok (clock_at n)).
Context (X : txState D -> Prop) (HX : forall w' : txState D, full (tx_cow w') -> X w').
Abbreviation W := (txState D).
Context (dv : dataView) (w : W) (h : nat) (m : gmap key bytes) (Hrdy : ready partOff dv w h m) (Hshort : (h <= 1)%nat).
Context (ino : Z) (d0 : bytes) (Hino : is_u64 ino) (Hd0 : m !! inodeKey ino = Some d0).
Context (l : list rec) (Hl : prefix_of m ino typeExtentData l) (Hcount : Z.of_nat (length l) <= maxTreeNodes).
Context (Hheld : held_ranges partOff dv (ranges_of (tx_sb w) l)).
Context (data : bytes) (Hlen : blen data < 2 ^ 62).

(** The data that does not belong to the old content. *)
Definition dv_rest : dataView := dv_minus dv (in_ranges (ranges_of (tx_sb w) l)).

(** The inode item could not be read, or the item with the new size could not be written,
    in the state [w1] where the new content is stored; the code drops either error. *)
Definition refresh_fails (w1 w2 : W) : Prop :=
  exists e, fs_search partOff (inodeKey ino) w1 = (w2, Err e) \/
    exists d' now nbytes, stat_of ino d' = rewritten (next_gen (tx_sb w)) (blen data) nbytes now (stat_of ino d0) /\
      fs_update partOff (inodeKey ino) d' (Now w1).1 = (w2, Err e).
(** The run that ends in [w'] with the old inode item: the three steps that replace the
    content succeed, the refresh of the inode item fails, and the commit succeeds. *)
Definition size_lost (w' : W) : Prop :=
  exists wf wd w1 w2, freeInodeExtents partOff ino w = (wf, Ok tt) /\ fs_delete_prefix partOff ino typeExtentData wf = (wd, Ok tt) /\
    writeExtents partOff ino data (next_gen (tx_sb w)) wd = (w1, Ok tt) /\ refresh_fails w1 w2 /\ commit partOff w2 = (w', Ok tt).

Definition replaced (w' : W) : Prop :=
  exists dv' h' m', repr partOff trees True dv' w' h' m' /\ dv_le dv_rest dv' /\ committed (tx_sb w) (tx_sb w') /\ other_keys m m' ino /\
    exts_ok m' /\ file_data partOff (tx_sb w) dv' m' ino data /\
    (m' !! inodeKey ino = Some d0 /\ size_lost w' \/
     Z.of_nat h' <= maxBtreeDepth /\ exists d' now nbytes, m' !! inodeKey ino = Some d' /\ blen d' = blen d0 /\ time_ok now /\
       stat_of ino d' = rewritten (next_gen (tx_sb w)) (blen data) nbytes now (stat_of ino d0)).
(** After a failure: the tree of the file system still has every item of the others and
    the data beside the old content is where it was. *)
Definition others_kept (w' : W) : Prop :=
  exists dv' h' m', repr partOff any_rest True dv' w' h' m' /\ dv_le dv_rest dv' /\ other_keys m m' ino.
(** The deletion of the old extent items failed half way: the file system keeps the root
    it had, whose nodes may have been given back, while the items are in a tree under a
    root that the failed call did not return. *)
Definition root_lost (w' : W) : Prop :=
  exists wf e root' h' m', freeInodeExtents partOff ino w = (wf, Ok tt) /\ fs_delete_prefix partOff ino typeExtentData wf = (w', Err e) /\
    repr partOff any_rest True dv_rest (rooted w' root') h' m' /\ other_keys m m' ino.
Definition salvaged (w' : W) : Prop := others_kept w' \/ root_lost w'.

Lemma other_keys_without : other_keys m (without m ino typeExtentData) ino.
Proof using. intros k _ Hk. apply without_keep. destruct (decide (objID k = ino)); [right; tauto|by left]. Qed.
Lemma other_keys_adds m' : adds_extents ino (without m ino typeExtentData) m' -> other_keys m m' ino.
Proof using.
  intros Ha k Hi Hk. rewrite (adds_extents_frame _ _ _ _ Ha); [by apply other_keys_without|].
  destruct (decide (objID k = ino)); [left; tauto|by right].
Qed.
Lemma other_keys_edit m1 m' f : other_keys m m1 ino -> inode_edit m1 m' ino f -> other_keys m m' ino.
Proof using. intros H1 He k Hi Hk. rewrite (inode_edit_frame _ _ _ _ _ He) by done. by apply H1. Qed.

Lemma exts_ok_adds m' : adds_extents ino (without m ino typeExtentData) m' -> exts_ok m'.
Proof using Hrdy.
  intros [_ Hn] k d Ed. destruct (decide (without m ino typeExtentData !! k = Some d)) as [E|E]; [|by apply (Hn k d)].
  apply (wf_exts _ (rdy_wf _ _ _ _ _ Hrdy)). rewrite without_lookup in E. by destruct (in_prefix _ _ k).
Qed.

(** The new size in the inode item: written, or left alone when that fails. *)
Lemma refresh_inode_spec dv1 w1 h1 m1 (Q : unit -> W -> Prop) (E : error -> W -> Prop) :
  repr partOff trees True dv1 w1 h1 m1 -> next w w1 -> m1 !! inodeKey ino = Some d0 -> 
  (forall w' h' m', repr partOff trees True dv1 w' h' m' -> next w w' ->
     (m' = m1 /\ refresh_fails w1 w' \/ Z.of_nat h' <= maxBtreeDepth /\ exists now nbytes, time_ok now /\
        inode_edit m1 m' ino (rewritten (next_gen (tx_sb w)) (blen data) nbytes now)) -> Q tt w') ->
  wp X (r ← sm_try (fs_search partOff (inodeKey ino));
        match r with
        | Ok (inBuf, it) =>
            let d := item_copy inBuf it in
            d ← sm_lift (PutUint64 d inodeOffSize (blen data));
            c ← sm_lift (classifyExtent data (sb_sectorSize (tx_sb w)));
            d ← sm_lift (PutUint64 d inodeOffNBytes c.2);
            d ← sm_lift (bumpInodeTransIDSequence d (next_gen (tx_sb w)));
            now ← Now;
            d ← sm_lift (put_time d inodeOffCTime now);
            d ← sm_lift (put_time d inodeOffMTime now);
            u ← sm_try (fs_update partOff (inodeKey ino) d);
            match u with
            | Ok _ | Err _ => mret tt
            | Panic => sm_lift Panic
            | NoFuel => sm_lift NoFuel
            end
        | Err _ => mret tt
        | Panic => sm_lift Panic
        | NoFuel => sm_lift NoFuel
        end) w1 Q E.
Proof using All.
  intros Hr1 Hn1 Ed HQ. assert (Hd : inodeItemSize <= blen d0) by (by eapply (wf_inodes _ (rdy_wf _ _ _ _ _ Hrdy))).
  apply wp_bind, wp_try, wp_run. eapply (fs_search_spec partOff trees never True dv1 w1 h1 m1);
    [done|key_tac| |intros e _ Erun; apply wp_ret; eapply HQ; [done|done|left; split; [done|exists e; by left]]].
  intros buf it d Hlow Ed' _ Ecp _. assert (d = d0) as -> by congruence. cbv beta iota zeta. rewrite Ecp. pose proof (blen_nonneg data).
  destruct (edit_size ino d0 Hd (blen data)) as (d1&E1&L1&S1); [unfold is_u64; lia|]. wp_ok E1.
  destruct (classifyExtent_ok data (sb_sectorSize (tx_sb w))) as (c&Ec&Hc); [apply Hrdy|done|]. wp_ok Ec.
  assert (H1 : inodeItemSize <= blen d1) by lia. destruct (edit_nbytes ino d1 H1 c.2 Hc) as (d2&E2&L2&S2). wp_ok E2.
  assert (H2 : inodeItemSize <= blen d2) by lia. pose proof (fun now Ht => edit_change ino d2 H2 (next_gen (tx_sb w)) now (u64_range _) Ht) as Hch.
  assert (Hb : exists d3, bumpInodeTransIDSequence d2 (next_gen (tx_sb w)) = Ok d3).
  { destruct (Hch (clock_at 0%nat) (Hclock _)) as (dx&Ex&_). apply outcome_bind_Ok in Ex as (d3&Ex&_). by exists d3. }
  destruct Hb as [d3 Eb]. wp_ok Eb. apply wp_bind, wp_run, (now_spec partOff trees Hclock X True dv1 w1 h1 m1); [done|].
  intros w2 now Ht Hr2 Hn2 Enow. destruct (Hch now Ht) as (d4&E4&L4&S4). rewrite Eb in E4. cbn [mbind outcome_bind] in E4. wp_ok E4.
  assert (H4 : inodeItemSize <= blen d4) by lia. destruct (edit_mtime ino d4 H4 now Ht) as (d5&E5&L5&S5). wp_ok E5.
  apply wp_bind, wp_try, wp_run. eapply (put_inode_spec partOff trees never True dv1 w2 h1 m1 ino d0 d5 (rewritten (next_gen (tx_sb w)) (blen data) c.2 now)); [done|done|done|lia|done| | |].
  - unfold rewritten. by rewrite S5, S4, S2, S1.
  - intros w3 h3 m3 _ Hlow3 Hr3 He3 Hn3 _. apply wp_ret. eapply HQ; [exact Hr3|by etrans; [|etrans]|]. right. split; [done|]. by exists now, c.2.
  - intros e w3 Hr3 Hn3 Erun. apply wp_ret. eapply HQ; [exact Hr3|by etrans; [|etrans]|left; split; [done|]].
    exists e. right. exists d5, now, c.2. rewrite Enow. split; [|exact Erun]. unfold rewritten. by rewrite S5, S4, S2, S1.
Qed.

Lemma overwriteFile_spec (E : error -> W -> Prop) :
  (forall e w', salvaged w' -> E e w') -> wp X (overwriteFile partOff ino data) w (fun _ w' => replaced w') E.
Proof using All.
  intros HE. pose proof Hrdy as [Hr Hlow Hwf Hsec Hroom]. unfold overwriteFile. apply wp_bind, wp_gets. cbv zeta.
  assert (HE1 : forall e w' dv' h' m', repr partOff trees True dv' w' h' m' -> dv_le dv_rest dv' -> other_keys m m' ino -> E e w').
  { intros e w' dv' h' m' Hr' Hle Ho. apply HE. left. exists dv', h', m'. split_and!; [|done..]. by eapply repr_any. }
  apply wp_bind, wp_run, (freeInodeExtents_spec partOff trees X True dv w h m ino l); [done|done|done|done|]. fold dv_rest.
  intros w1 Hr1 Hn1 Ef. apply wp_bind, wp_run. assert (Hk0 : without m ino typeExtentData !! inodeKey ino = Some d0) by (by rewrite without_keep by (by right)).
  eapply (fs_delete_prefix_spec partOff trees X True dv_rest w1 h m); [done|done|key_tac| |done| | |].
  { intros Hx. by rewrite Hx, lookup_empty in Hk0. }
  { intros l' Hl'. by rewrite (prefix_of_unique _ _ _ _ _ Hl' Hl). }
  2: { intros w' root' h' m' Hr' Ew Hn' Ed. apply HE. right. exists w1, ErrOther, root', h', m'. split_and!; [done|done|by eapply repr_any|].
    intros k Hi Hk. pose proof (other_keys_without k Hi Hk) as Hx. rewrite <- Hx, <- Ew. symmetry. apply without_keep.
    destruct (decide (objID k = ino)); [right; tauto|by left]. }
  intros w2 h2 Hle2 Hr2 Hn2 Edel. apply wp_bind, wp_run. assert (Hn02 : next w w2) by (by etrans).
  eapply wp_mono; [apply (writeExtents_spec partOff trees X True I w2 dv_rest (without m ino typeExtentData) ino data (next_gen (tx_sb w)) Hino) with
    (E := fun _ w' => partly partOff trees True w2 dv_rest (without m ino typeExtentData) ino w') (h := h2)|..]; try done.
  - exists (inodeKey ino), d0. split; [done|]. unfold key_num. cbn [objID typ offset inodeKey]. unfold typeInodeItem, typeExtentData. lia.
  - intros k d Ed Ho. by eapply without_gone.
  - by rewrite Hn02.
  - intros [] w3 (dv3&h3&m3&Hr3&Hle3&Hn3&Hadd&Hdata) Ex. apply wp_assoc, wp_bind. assert (Hn03 : next w w3) by (by etrans).
    assert (Ei3 : m3 !! inodeKey ino = Some d0) by (by rewrite (adds_extents_frame _ _ _ _ Hadd) by (by left)).
    eapply (refresh_inode_spec dv3 w3 h3 m3); [done|done|done|].
    intros w4 h4 m4 Hr4 Hn4 Hcase. assert (Ho4 : other_keys m m4 ino).
    { destruct Hcase as [[-> _]|(_&now&nb&_&He)]; [by apply other_keys_adds|]. eapply other_keys_edit; [by apply other_keys_adds|done]. }
    assert (Hx4 : forall k, typ k = typeExtentData -> m4 !! k = m3 !! k).
    { intros k Hk. destruct Hcase as [[-> _]|(_&now&nb&_&He)]; [done|]. rewrite (inode_edit_frame _ _ _ _ _ He); [done|]. by intros ->. }
    assert (Hroom3 : partOff + superblockOffset + sbfSize <= dv_size dv3) by (destruct Hle3 as [-> _]; done).
    assert (Hex4 : exts_ok m4) by (intros k d Ed Hk; rewrite Hx4 in Ed by done; by apply (exts_ok_adds _ Hadd k)).
    apply wp_run. eapply (commit_spec partOff X dv3 Hroom3 True w4 h4 m4); [done|done|done| |].
    + intros w5 Hr5 Hc5 _ _ _ Ec. exists dv3, h4, m4. rewrite Hn4 in Hc5. split_and!; try done.
      * rewrite <- Hn02. eapply (file_data_frame _ _ dv3 dv3); [done| |exact Hdata]. intros k _ Hk. by apply Hx4.
      * destruct Hcase as [[-> Hfail]|(Hlow4&now&nb&Ht&d1&d2&Ed1&->&L&S)]; [left; split; [done|by exists w1, w2, w3, w4]|right]. split; [done|]. assert (d1 = d0) as -> by congruence.
        exists d2, now, nb. rewrite lookup_insert_eq. done.
    + intros e w5 Hr5 Hc5 _ _. apply HE. left. by exists dv3, h4, m4.
  - intros e w3 (dv3&h3&m3&Hr3&Hle3&Hn3&Hadd) _. eapply HE1; [exact Hr3|done|by apply other_keys_adds].
Qed.
End Overwrite.

(** The path names a regular file: its directory, its entry, its inode, and the items
    of its content, whose disk ranges are held and disjoint. *)
Record existing_file {D} (partOff : Z) (dv : dataView) (w : txState D) (m : gmap key bytes) (p : bytes) (i : inodeItem) (ft : Z) (l : list rec) : Prop := ExistingFile {
  ef_entry : exists pi, resolves m (split_dir p).1 pi /\ dir_entry m (in_num pi) (split_dir p).2 (in_num i, ft);
  ef_type : ft <> ftDir;
  ef_inode : resolves m p i /\ isRegular i = true;
  ef_extents : prefix_of m (in_num i) typeExtentData l /\ Z.of_nat (length l) <= maxTreeNodes;
  ef_held : held_ranges partOff dv (ranges_of (tx_sb w) l) }.

(** The lookups of [WriteFile] find the entry. *)
Lemma existing_run `{HL : SafeIOLaws} {D : Type} `{RWL : RWLaws D} `{CK : Clock} (partOff : Z) dv (w : txState D) h m p i ft l data perm :
  ready partOff dv w h m -> existing_file partOff dv w m p i ft l -> writeFile partOff p data perm w = overwriteFile partOff (in_num i) data w.
Proof.
  intros [Hr Hlow _ _ _] [(pi&Hpi&He) Ht _ _ _]. unfold writeFile. destruct (split_dir p) as [dir name]. cbn [fst snd] in *.
  assert (E1 : pathLookupIno partOff dir w = (w, Ok (in_num pi))).
  { unfold pathLookupIno. by erewrite sm_bind_Ok by (by eapply fs_path_run). }
  assert (Hu : is_u64 (in_num pi)) by (eapply path_to_u64; [|apply Hpi]; unfold is_u64, rootDirObjID; lia).
  assert (E2 : entry_opt partOff (in_num pi) name w = (w, Ok (Some (in_num i, ft)))).
  { apply wp_is. eapply (entry_opt_spec partOff trees never True dv w h m); [done|done| |].
    - intros r _ Hr'. split; [done|]. f_equal. by eapply dir_entry_fun; [apply Hr'|].
    - intros Hn. by destruct (Hn Hlow (in_num i, ft)). }
  rewrite (sm_bind_Ok _ _ _ _ _ E1), (sm_bind_Ok _ _ _ _ _ E2). cbv beta iota. by rewrite (proj2 (Z.eqb_neq _ _) Ht).
Qed.

Lemma replaced_resolves {m m' q j ino} : other_keys m m' ino -> in_num j <> ino -> resolves m q j -> resolves m' q j.
Proof.
  intros Ho Hj. apply resolves_frame.
  - intros k Hk. apply Ho; [intros ->; by destruct Hk|]. intros [_ Ht]. destruct Hk as [E|E]; rewrite E in Ht; done.
  - apply Ho; [by intros [= ?]|]. by intros [_ ?].
Qed.

(** C11. [WriteFile] of an existing name and [ReadFile]: when the call succeeds, the new
    bytes are the content of the inode, no item of any other inode has changed, and reading
    the path returns exactly the new bytes while every other file whose content shares
    no disk range with the old content reads as before.  The one exception is the run that
    [size_lost] describes: the content was replaced, and then the search for the inode item or
    the update with the new size returned an error, which the code drops, so that the old
    item stays.  When the call fails, the tree the file system holds has every item of the
    other inodes ([others_kept]), unless the failed step was the deletion of the old extent
    items: then the items are in a tree on the device whose root the file system does not
    hold ([root_lost]). *)
Theorem overwrite_reads_back `{HL : SafeIOLaws} `{HD : DecodersLaws} {D : Type} `{RWL : RWLaws D} `{CK : Clock} (partOff : Z)
    (dv : dataView) (w : txState D) (h : nat) (m : gmap key bytes) (p data : bytes) (perm dev : Z) (i : inodeItem) (ft : Z) (l : list rec) (d0 : bytes) :
  (forall n, time_ok (clock_at n)) -> ready partOff dv w h m -> (h <= 1)%nat -> existing_file partOff dv w m p i ft l ->
  m !! inodeKey (in_num i) = Some d0 -> blen data < 2 ^ 62 -> blen data <= dev < 2 ^ 63 ->
  match writeFile partOff p data perm w with
  | (w', Ok _) => replaced partOff dv w m (in_num i) d0 l data w' /\
      (size_lost partOff w (in_num i) d0 data w' \/
       ReadFile partOff dev p w' = (w', Ok data) /\
       forall q j b, resolves m q j -> in_num j <> in_num i -> isRegular j = true -> in_size j = blen b -> blen b <= dev ->
         file_data partOff (tx_sb w) (dv_rest dv w l) m (in_num j) b -> ReadFile partOff dev q w' = (w', Ok b))
  | (w', Err _) => salvaged partOff dv w m (in_num i) l w'
  | (w', Panic) => full (tx_cow w')
  | (_, NoFuel) => False
  end.
Proof.
  intros Hclock Hrdy Hshort Hex Hd0 Hlen Hdev. rewrite (existing_run partOff dv w h m p i ft l data perm Hrdy Hex).
  destruct Hex as [_ _ [Hres Hreg] [Hl Hcount] Hheld].
  assert (Hu : is_u64 (in_num i)) by (eapply path_to_u64; [|apply Hres]; unfold is_u64, rootDirObjID; lia).
  pose proof (overwriteFile_spec partOff Hclock (fun w' => full (tx_cow w')) ltac:(done) dv w h m Hrdy Hshort (in_num i) d0 Hu Hd0 l Hl Hcount Hheld
    data Hlen (fun _ w' => salvaged partOff dv w m (in_num i) l w') (fun _ _ Hs => Hs)) as Hw. unfold wp in Hw.
  destruct (overwriteFile _ _ _ _) as [w' [[]|e| |]]; try done. split; [done|].
  destruct Hw as (dv'&h'&m'&Hr'&Hle&Hcom&Hoth&_&Hdata&[[_ Hlost]|(Hlow&d'&now&nb&Ed'&L&_&S)]); [by left|right].
  destruct (committed_sector _ _ Hcom) as [_ Esb]. destruct Hres as (Hp&x&Ex&Hdec). assert (x = d0) as -> by congruence.
  rewrite decode_inode_spec in Hdec. case_if_in Hdec; [done|]. injection Hdec as Ei.
  set (i' := InodeItem (in_num i) (in_mode i) (blen data) (in_nlink i)). split.
  - eapply (ReadFile_run partOff trees True dv' w' h' m' (tx_sb w) p i'); try done. split; cbn [i' in_num].
    + eapply path_to_agree; [|exact Hp]. intros k Hk. apply Hoth; [intros ->; by destruct Hk|]. intros [_ Ht]. destruct Hk as [E|E]; rewrite E in Ht; done.
    + exists d'. split; [done|]. rewrite decode_inode_spec, (proj2 (Z.ltb_ge _ _)), S by lia.
      unfold i'. by rewrite <- (f_equal in_mode Ei), <- (f_equal in_nlink Ei).
  - intros q j b Hq Hne Hj Hs Hb Hd. eapply (ReadFile_run partOff trees True dv' w' h' m' (tx_sb w) q j); try done; [by eapply replaced_resolves| |lia].
    eapply file_data_frame; [done| |exact Hd]. intros k Ho Hk. apply Hoth; [by intros ->|]. intros [? _]. congruence.
Qed.
