(* ===== verification/Truncate.v ===== *)
(** * Changing the size of a file (truncate.go)

    [Truncate] below the size of a file drops the extent items behind the new end, cuts the
    one across it and writes the new size; above the size it only writes the new one. *)
From Stdlib Require Import ZArith Lia Strings.Byte.
From stdpp Require Import base option list numbers sorting gmap.
From S2P Require Import Prelude Bytes Alloc Layout SafeIO Chunk Node BTree Walk Split Crc32c Cow Store CowCorrect.
From S2P Require Import Codec Read FileRead Tx Extent Ops FsTree DeletePrefix FsLookup InodeEdit Rebuild FsData ExtentLayout ExtentWrite.
From S2P Require Import CommitCorrect InodeOps Entries Paths Create CreateApi XattrOps Overwrite Trim.
Local Open Scope Z_scope.
Local Open Scope btrfs_scope.

(** ** The items in the tree *)

(** An item fits in a node. *)
Lemma recs_size_elem l r : r ∈ l -> blen r.2 <= recs_size l.
Proof.
  induction l as [|[k d] l IH]; [by intros ?%not_elem_of_nil|]. rewrite recs_size_cons. intros [->|Hr]%elem_of_cons.
  - pose proof (recs_size_nonneg l). cbn. lia.
  - pose proof (blen_nonneg d). specialize (IH Hr). lia.
Qed.
Lemma wtree_items_small t rn h : forall a c ads r, wtree t rn h a c ads -> r ∈ c -> blen r.2 <= maxNodeSize.
Proof.
  induction h as [|h IH]; intros a c ads r; cbn [wtree].
  - intros (buf&_&(_&_&Hn&Hm&_)&_) Hr. apply recs_size_elem in Hr. pose proof (nrecs_nonneg c). hdr_lia.
  - intros (buf&kids&_&_&->&_&_&_&Hk) Hr. apply list_elem_of_In, in_concat in Hr as (x&Hx&Hr). apply in_map_iff in Hx as (kid&<-&Hkid).
    rewrite Forall_forall in Hk. destruct (Hk kid ltac:(by apply list_elem_of_In)) as (_&_&_&Hw). eapply IH; [exact Hw|by apply list_elem_of_In].
Qed.
Lemma repr_items_small `{HL : SafeIOLaws} {D} `{RWL : RWLaws D} partOff R t dv (w : txState D) h m k d :
  repr partOff R t dv w h m -> m !! k = Some d -> blen d < 2 ^ 32.
Proof.
  intros (c&ads&rest&_&Hw&<-&_) E. apply elem_of_list_to_map_2 in E. apply (wtree_items_small _ _ _ _ _ _ _ Hw) in E. cbn in E. unfold maxNodeSize in E. lia.
Qed.
Definition trim_in (n : Z) (r : rec) (m : gmap key bytes) : gmap key bytes :=
  match trim_of n r with TrimKeep => m | TrimDrop => delete r.1 m | TrimTo d => <[r.1 := d]> m end.
Fixpoint trim_map (n : Z) (l : list rec) (m : gmap key bytes) : gmap key bytes :=
  match l with [] => m | r :: l => trim_map n l (trim_in n r m) end.

Lemma trim_in_ne n r m k : k <> r.1 -> trim_in n r m !! k = m !! k.
Proof. intros Hk. unfold trim_in. destruct (trim_of n r); [done|by rewrite lookup_delete_ne|by rewrite lookup_insert_ne]. Qed.
Lemma trim_in_eq n r m : m !! r.1 = Some r.2 -> trim_in n r m !! r.1 = snd <$> trim_item n r.
Proof. intros E. unfold trim_in, trim_item. destruct (trim_of n r); [done|by rewrite lookup_delete_eq|by rewrite lookup_insert_eq]. Qed.

Lemma trim_map_out n l : forall m k, k ∉ l.*1 -> trim_map n l m !! k = m !! k.
Proof.
  induction l as [|r l IH]; intros m k Hk; cbn [trim_map]; [done|]. rewrite fmap_cons, not_elem_of_cons in Hk. destruct Hk as [Hk Hl].
  rewrite IH by done. by apply trim_in_ne.
Qed.
Lemma trim_map_in n l : forall m r, NoDup l.*1 -> r ∈ l -> m !! r.1 = Some r.2 -> trim_map n l m !! r.1 = snd <$> trim_item n r.
Proof.
  induction l as [|x l IH]; intros m r Hnd Hr Em; cbn [trim_map]; [by apply not_elem_of_nil in Hr|].
  rewrite fmap_cons in Hnd. apply NoDup_cons in Hnd as [Hx Hnd]. apply elem_of_cons in Hr as [->|Hr].
  - rewrite trim_map_out by done. by apply trim_in_eq.
  - apply IH; [done..|]. rewrite trim_in_ne; [done|]. intros E. apply Hx. rewrite <- E. apply list_elem_of_fmap. by exists r.
Qed.

Lemma trim_items_elem n l r : r ∈ trim_items n l <-> exists r0, r0 ∈ l /\ trim_item n r0 = Some r.
Proof. apply list_elem_of_omap. Qed.
Lemma trim_items_sorted n l : keys_sorted l -> keys_sorted (trim_items n l).
Proof.
  induction l as [|[k d] l IH]; [done|]. rewrite keys_sorted_cons. intros [Hs Hk]. unfold trim_items. cbn [omap list_omap].
  destruct (trim_item n (k, d)) as [[k' d']|] eqn:E; [|by apply IH]. apply trim_item_key in E. cbn [fst] in E. subst k'.
  apply keys_sorted_cons. split; [by apply IH|]. rewrite Forall_forall in *. intros x Hx. apply list_elem_of_fmap in Hx as (r&->&Hr).
  apply trim_items_elem in Hr as (r0&Hr0&E0). rewrite (trim_item_key _ _ _ E0). apply Hk, list_elem_of_fmap. by exists r0.
Qed.

Section TrimMap.
Context (m : gmap key bytes) (ino n : Z) (l : list rec) (Hl : prefix_of m ino typeExtentData l).

Lemma prefix_keys k : k ∈ l.*1 -> objID k = ino /\ typ k = typeExtentData.
Proof using Hl. intros Hk. apply list_elem_of_fmap in Hk as ([k' d]&->&Hr). by apply Hl in Hr as (_&?&?). Qed.
Lemma prefix_lookup r : r ∈ l -> m !! r.1 = Some r.2.
Proof using Hl. destruct r as [k d]. intros Hr. by apply Hl in Hr as (?&_). Qed.
Lemma prefix_nodup : NoDup l.*1.
Proof using Hl. by apply keys_sorted_NoDup, Hl. Qed.

Lemma trim_map_prefix : prefix_of (trim_map n l m) ino typeExtentData (trim_items n l).
Proof using Hl.
  split; [by apply trim_items_sorted, Hl|]. intros k d. rewrite trim_items_elem. split.
  - intros (r0&Hr0&E). pose proof (trim_item_key _ _ _ E) as Ek. cbn [fst] in Ek. subst k.
    destruct (prefix_keys r0.1) as [-> ->]; [by apply list_elem_of_fmap; exists r0|]. split_and!; [|done..].
    rewrite trim_map_in; [by rewrite E|apply prefix_nodup|done|by apply prefix_lookup].
  - intros (E&Ho&Ht). assert (Hin : k ∈ l.*1).
    { destruct (decide (k ∈ l.*1)) as [|Hno]; [done|]. rewrite trim_map_out in E by done.
      exfalso. apply Hno, list_elem_of_fmap. exists (k, d). split; [done|]. by apply Hl. }
    apply list_elem_of_fmap in Hin as (r0&->&Hr0). exists r0. split; [done|].
    rewrite trim_map_in in E; [|apply prefix_nodup|done|by apply prefix_lookup].
    destruct (trim_item n r0) as [[k' d']|] eqn:Et; [|done]. injection E as ->. apply trim_item_key in Et. cbn [fst] in Et. by rewrite Et.
Qed.
End TrimMap.

(** The first items cut, the others as they were. *)
Definition half_cut (m m' : gmap key bytes) (ino n : Z) (l : list rec) : Prop :=
  other_keys m m' ino /\ forall r, r ∈ l -> m' !! r.1 = Some r.2 \/ m' !! r.1 = snd <$> trim_item n r.
Lemma trim_map_half m ino n l l1 l2 : prefix_of m ino typeExtentData l -> l = l1 ++ l2 -> half_cut m (trim_map n l1 m) ino n l.
Proof.
  intros Hl El. pose proof (prefix_nodup _ _ _ Hl) as Hnd. rewrite El, fmap_app in Hnd. apply NoDup_app in Hnd as (Hnd&_&_). split.
  - intros k _ Hk. apply trim_map_out. intros Hin. apply Hk, (prefix_keys _ _ _ Hl). rewrite El, fmap_app, elem_of_app. by left.
  - intros r Hr. pose proof (prefix_lookup _ _ _ Hl r Hr) as Er. destruct (decide (r.1 ∈ l1.*1)) as [Hin|Hno].
    + apply list_elem_of_fmap in Hin as (r0&E&Hr0). assert (Hr0l : r0 ∈ l) by (rewrite El, elem_of_app; by left).
      pose proof (prefix_lookup _ _ _ Hl r0 Hr0l) as E0. assert (r0 = r) as -> by (destruct r, r0; cbn in *; congruence).
      right. by apply trim_map_in.
    + left. by rewrite trim_map_out.
Qed.

Lemma trim_ext_ok n k d d' : is_u64 (offset k) -> is_u64 n -> blen d < 2 ^ 63 -> ext_item_ok k d -> trim_item n (k, d) = Some (k, d') -> ext_item_ok k d'.
Proof.
  intros Ho Hn Hd Hok. unfold trim_item, trim_of. cbn [fst snd]. rewrite trim_extent_eq by done.
  destruct (Z.leb_spec (blen d) extDataOffType); [by intros [= <-]|].
  destruct (Z.eqb_spec (rd 1 d extDataOffType) extentDataInline) as [Ei|Ei].
  - case_if; [by intros [= <-]|]. case_if; [done|]. intros [= <-] Ht Hlen Hreg. unfold is_u64 in *.
    pose proof (cut_bound (offset k) (blen d - extDataHdrSize) n ltac:(lia) ltac:(lia) ltac:(ext_offs; lia) ltac:(lia)).
    destruct (cut_inline d (n - offset k)) as (_&E&_); [ext_offs; lia..|]. rewrite E, Ei in Hreg. done.
  - case_if; [by intros [= <-]|]. case_if; [by intros [= <-]|]. case_if; [done|]. intros [= <-] Ht Hlen Hreg.
    destruct (cut_regular d (n - offset k)) as (E&_); [lia|unfold is_u64 in *; lia|]. rewrite E. ext_offs. lia.
Qed.
Lemma trim_to_nonempty n r d : is_u64 (offset r.1) -> is_u64 n -> blen r.2 < 2 ^ 63 -> trim_of n r = TrimTo d -> d <> [].
Proof.
  intros Ho Hn Hr E ->. unfold trim_of, is_u64 in *. rewrite trim_extent_eq in E by (unfold is_u64; lia). revert E.
  case_if; [done|]. case_if; (case_if; [done|]; case_if; [done|]).
  - pose proof (cut_bound (offset r.1) (blen r.2 - extDataHdrSize) n ltac:(lia) ltac:(lia) ltac:(ext_offs; lia) ltac:(lia)).
    destruct (cut_inline r.2 (n - offset r.1)) as (L&_); [ext_offs; lia..|]. intros [= E]. rewrite E, blen_nil in L. ext_offs. lia.
  - case_if; [done|]. destruct (cut_regular r.2 (n - offset r.1)) as (L&_); [lia|unfold is_u64; lia|]. intros [= E]. rewrite E, blen_nil in L. ext_offs. lia.
Qed.

Lemma sum_nbytes_ok l : forall acc, is_u64 acc -> exists nb, sum_nbytes l acc = Ok nb /\ is_u64 nb.
Proof.
  induction l as [|r l IH]; intros acc Ha; cbn [sum_nbytes]; [by exists acc|].
  assert (Hn : exists x, extent_nbytes r.2 = Ok x).
  { unfold extent_nbytes. case_if; [by eexists|]. rewrite (get_le_Ok 1) by (ext_offs; lia). cbn [mbind outcome_bind]. case_if; [by eexists|].
    rewrite !(get_le_Ok 8) by (ext_offs; lia). cbn [mbind outcome_bind]. case_if; by eexists. }
  destruct Hn as [x ->]. cbn [mbind outcome_bind]. apply IH, u64_range.
Qed.

(** ** The loop over the items *)
Section TrimLoop.
Context `{HL : SafeIOLaws} {D : Type} `{RWL : RWLaws D} `{CK : Clock} (partOff : Z) (R : keeper) `{HR : !Stable R}.
Context (X : txState D -> Prop).
Abbreviation W := (txState D).
Abbreviation repr := (repr partOff R).

Lemma trim_extents_spec (t : Prop) dv n l : is_u64 n -> forall (w : W) h m (Q : unit -> W -> Prop) (E : error -> W -> Prop),
  repr t dv w h m -> Z.of_nat h <= maxBtreeDepth -> (t -> (h <= 1)%nat) -> NoDup l.*1 ->
  (forall r, r ∈ l -> m !! r.1 = Some r.2) -> (exists k, is_Some (m !! k) /\ k ∉ l.*1) ->
  (forall w' h', (h' <= h)%nat -> repr t dv w' h' (trim_map n l m) -> next w w' -> Q tt w') ->
  (forall e w' h' l1 l2, l = l1 ++ l2 -> repr t dv w' h' (trim_map n l1 m) -> next w w' -> E e w') ->
  wp X (trim_extents partOff n l) w Q E.
Proof using HL RWL HR.
  intros Hn. induction l as [|r l IH]; intros w h m Q E Hr Hh Ht Hnd Hin Hsafe HQ HE; cbn [trim_extents].
  { apply wp_ret. by apply (HQ w h). }
  rewrite fmap_cons in Hnd. apply NoDup_cons in Hnd as [Hx Hnd]. pose proof (Hin r ltac:(by left)) as Er. destruct Hsafe as (k0&Hk0&Hout).
  rewrite fmap_cons, not_elem_of_cons in Hout. destruct Hout as [Hne Hout].
  pose proof (repr_items_small partOff R t dv w h m _ _ Hr Er) as Lr. pose proof (repr_key_ok partOff R t dv w h m _ _ Hr Er) as Hk. pose proof Hk as (_&_&Hoff).
  apply wp_bind. eapply wp_lift_ok; [apply trim_extent_ok; [done|done|lia]|]. apply wp_bind.
  assert (Hstep : forall w1 h1, (h1 <= h)%nat -> repr t dv w1 h1 (trim_in n r m) -> next w w1 -> wp X (trim_extents partOff n l) w1 Q E).
  { intros w1 h1 Hle Hr1 Hn1. eapply (IH w1 h1 (trim_in n r m)); [done|lia|intros; specialize (Ht ltac:(done)); lia|done| | | |].
    - intros x Hx'. rewrite trim_in_ne; [apply Hin; by right|]. intros Ex. apply Hx. rewrite <- Ex.
      apply list_elem_of_fmap. by exists x.
    - exists k0. split; [by rewrite trim_in_ne|done].
    - intros w2 h2 Hle2 Hr2 Hn2. apply (HQ w2 h2); [lia|done|by etrans].
    - intros e w2 h2 l1 l2 -> Hr2 Hn2. apply (HE e w2 h2 (r :: l1) l2); [done|done|by etrans]. }
  unfold trim_in in Hstep. destruct (trim_of n r) as [| |d] eqn:Et.
  - apply wp_ret. by apply (Hstep w h).
  - eapply (fs_delete_spec partOff R X t dv w h m); [done|done| |done| |].
    + intros Hempty. destruct Hk0 as [d0 Hd0]. rewrite <- (lookup_delete_ne m r.1 k0), Hempty, lookup_empty in Hd0 by done. done.
    + intros w1 h1 Hle _ _ Hr1 Hn1. by apply (Hstep w1 h1).
    + intros e w1 _ _ Hr1 Hn1. by apply (HE e w1 h [] (r :: l)).
  - eapply (fs_update_spec partOff R X t dv w h m); [done|done| | |].
    + exact (trim_to_nonempty n r d Hoff Hn ltac:(lia) Et).
    + intros w1 h1 Hle _ _ Hr1 Hn1. by apply (Hstep w1 h1).
    + intros e w1 Hr1 Hn1. by apply (HE e w1 h [] (r :: l)).
Qed.
End TrimLoop.

(** ** The operation *)
Section Cut.
Context `{HL : SafeIOLaws} {D : Type} `{RWL : RWLaws D} `{CK : Clock} (partOff : Z).
Context (Hclock : forall n, time_ok (clock_at n)).
Context (X : txState D -> Prop) (HX : forall w' : txState D, full (tx_cow w') -> X w').
Abbreviation W := (txState D).
Context (dv : dataView) (w : W) (h : nat) (m : gmap key bytes) (Hrdy : ready partOff dv w h m) (Hshort : (h <= 1)%nat).
Context (ino : Z) (d0 : bytes) (Hino : is_u64 ino) (Hd0 : m !! inodeKey ino = Some d0).
Context (l : list rec) (Hl : prefix_of m ino typeExtentData l) (n : Z) (Hn : is_u64 n).

Definition cut_stat (now : timespec) (nb : Z) (s : InodeStat) : InodeStat :=
  st_change (next_gen (tx_sb w)) now (st_nbytes nb (st_size n s)).
(** The file is cut. *)
Definition cut (w' : W) : Prop :=
  exists h' m' d' now nb, repr partOff trees True dv w' h' m' /\ Z.of_nat h' <= maxBtreeDepth /\ committed (tx_sb w) (tx_sb w') /\
    other_keys m m' ino /\ exts_ok m' /\ prefix_of m' ino typeExtentData (trim_items n l) /\
    m' !! inodeKey ino = Some d' /\ blen d' = blen d0 /\ time_ok now /\ sum_nbytes (trim_items n l) 0 = Ok nb /\
    stat_of ino d' = cut_stat now nb (stat_of ino d0).
(** After a failure every item of the file is the old or the cut one, and all others are kept. *)
Definition cut_failed (w' : W) : Prop :=
  exists h' m', repr partOff any_rest True dv w' h' m' /\ committed (tx_sb w) (tx_sb w') /\ half_cut m m' ino n l.

Lemma trim_map_exts : exts_ok (trim_map n l m).
Proof using HL RWL Hrdy Hl Hn.
  intros k d Ed. destruct (decide (k ∈ l.*1)) as [Hin|Hno]; last first.
  { rewrite trim_map_out in Ed by done. by apply (wf_exts _ (rdy_wf _ _ _ _ _ Hrdy)). }
  apply list_elem_of_fmap in Hin as ([k' dk]&->&Hr). cbn [fst] in *. pose proof (prefix_lookup _ _ _ Hl _ Hr) as Er.
  pose proof (repr_key_ok _ _ _ _ _ _ _ _ _ (rdy_repr _ _ _ _ _ Hrdy) Er) as (_&_&Ho). cbn [fst snd] in *.
  pose proof (trim_map_in n l m _ (prefix_nodup _ _ _ Hl) Hr Er) as Et. cbn [fst] in Et. rewrite Et in Ed.
  destruct (trim_item n (k', dk)) as [[k2 d2]|] eqn:Ei; [|done]. injection Ed as ->. pose proof (trim_item_key _ _ _ Ei) as Ek. cbn [fst] in Ek. subst k2.
  eapply (trim_ext_ok n); [exact Ho|done| |by eapply (wf_exts _ (rdy_wf _ _ _ _ _ Hrdy))|exact Ei].
  pose proof (repr_items_small _ _ _ _ _ _ _ _ _ (rdy_repr _ _ _ _ _ Hrdy) Er) as Hx. clear -Hx. lia.
Qed.
Lemma inode_not_extent : inodeKey ino ∉ l.*1.
Proof using Hl. intros Hin. by destruct (prefix_keys _ _ _ Hl _ Hin). Qed.
Lemma trim_map_inodes : inodes_ok (trim_map n l m).
Proof using Hrdy Hl.
  intros i d Ed. rewrite trim_map_out in Ed; [by eapply (wf_inodes _ (rdy_wf _ _ _ _ _ Hrdy))|].
  intros Hin. by destruct (prefix_keys _ _ _ Hl _ Hin).
Qed.

Lemma half_cut_edit m1 m' f : half_cut m m1 ino n l -> inode_edit m1 m' ino f -> half_cut m m' ino n l.
Proof using Hl.
  intros [Ho Hi] He. split; [by eapply other_keys_edit|]. intros r Hr. rewrite (inode_edit_frame _ _ _ _ _ He); [by apply Hi|].
  intros E. apply inode_not_extent. rewrite <- E. apply list_elem_of_fmap. by exists r.
Qed.

(** The loop and the new inode item. *)
Lemma shrink_spec (Q : unit -> W -> Prop) (E : error -> W -> Prop) :
  (forall w', cut w' -> Q tt w') -> (forall e w', cut_failed w' -> E e w') ->
  wp X (_ ← trim_extents partOff n l;
    updateInodeMetadata partOff ino (fun d =>
      d ← sm_lift (PutUint64 d inodeOffSize n);
      items ← prefix_or_nil partOff ino typeExtentData;
      nbytes ← sm_lift (sum_nbytes items 0);
      sm_lift (PutUint64 d inodeOffNBytes nbytes))) w Q E.
Proof using All.
  intros HQ HE. pose proof Hrdy as [Hr Hlow Hwf Hsec Hroom]. apply wp_bind.
  eapply (trim_extents_spec partOff trees X True dv n l Hn w h m); [done|done|done|by eapply prefix_nodup|intros r Hr'; by eapply prefix_lookup| | |].
  { exists (inodeKey ino). split; [by exists d0|apply inode_not_extent]. }
  2: { intros e w' h' l1 l2 El Hr' Hn'. apply HE. exists h', (trim_map n l1 m). split_and!; [by eapply repr_any|rewrite Hn'; apply committed_refl|].
    by eapply trim_map_half. }
  intros w1 h1 Hle1 Hr1 Hn1. set (m1 := trim_map n l m) in *. pose proof (trim_map_prefix m ino n l Hl) as Hp1. fold m1 in Hp1.
  destruct (sum_nbytes_ok (trim_items n l) 0 ltac:(unfold is_u64; lia)) as (nb&Enb&Hnb).
  assert (Hhalf : half_cut m m1 ino n l) by (apply (trim_map_half m ino n l l []); [done|by rewrite app_nil_r]).
  assert (Ed1 : m1 !! inodeKey ino = Some d0) by (unfold m1; rewrite trim_map_out by apply inode_not_extent; done).
  eapply (updateInodeMetadata_reading partOff Hclock X HX dv Hroom True w1 h1 m1 ino _ (fun s => st_nbytes nb (st_size n s)));
    [done|done|apply trim_map_inodes|apply trim_map_exts| | |].
  - intros d Q' Hlow1 Ed HQ'. assert (Hd : inodeItemSize <= blen d) by (by eapply trim_map_inodes).
    destruct (edit_size ino d Hd n Hn) as (da&Ea&La&Sa). wp_ok Ea. apply wp_bind.
    eapply (prefix_or_nil_spec partOff trees X True dv w1 h1 m1); [done|unfold typeExtentData; lia|]. intros l' Hl'.
    rewrite (prefix_of_unique _ _ _ _ _ (Hl' Hlow1) Hp1). wp_ok Enb.
    assert (Hda : inodeItemSize <= blen da) by lia. destruct (edit_nbytes ino da Hda nb Hnb) as (db&Eb&Lb&Sb).
    eapply wp_lift_ok; [exact Eb|]. apply HQ'; [lia|by rewrite Sb, Sa].
  - intros w' (h'&m'&now&Hle'&Hlow'&Hr'&Ht'&He'&Hc'). apply HQ. rewrite Hn1 in Hc', He'. pose proof He' as (dx&d'&Ex&Em&L&S).
    assert (dx = d0) as -> by congruence. exists h', m', d', now, nb. split_and!; try done.
    + by eapply other_keys_edit; [apply Hhalf|].
    + eapply exts_ok_edit; [apply trim_map_exts|done].
    + eapply prefix_of_agree; [|exact Hp1]. intros k Hk. eapply inode_edit_frame; [done|]. by intros ->.
    + by rewrite Em, lookup_insert_eq.
  - intros e w' (h'&m'&Hr'&Hc'&Hcase). apply HE. exists h', m'. rewrite Hn1 in Hc'. split_and!; [done|done|].
    destruct Hcase as [->|(now&_&He)]; [done|by eapply half_cut_edit].
Qed.
End Cut.

(** A scan that finds nothing is an error. *)
Lemma collectPrefixItems_some `{SafeIO} {S} (readNode : Z -> SM S bytes) root o t s s' l :
  collectPrefixItems readNode root o t s = (s', Ok l) -> l <> [].
Proof.
  unfold collectPrefixItems, mbind, SM_bind. destruct (walkPrefixLeaves _ _ _ _ _ _ s) as [s1 [out|e| |]]; try done.
  by destruct out; intros [= _ <-].
Qed.
(** Reading a file of size zero, and a file whose size promises data but that has no items. *)
Section NoItems.
Context `{HL : SafeIOLaws} `{HD : Decoders} {D : Type} `{RWL : RWLaws D} `{CK : Clock} (partOff : Z) (R : keeper).
Lemma ReadFile_empty t dv (w : txState D) h m p i dev :
  repr partOff R t dv w h m -> Z.of_nat h <= maxBtreeDepth -> resolves m p i -> isRegular i = true -> in_size i = 0 ->
  ReadFile partOff dev p w = (w, Ok []).
Proof using HL RWL.
  intros Hr Hh Hres Hreg Hs. unfold ReadFile. erewrite sm_bind_Ok by (by eapply fs_path_run).
  rewrite Hreg. cbn [negb]. unfold fs_file_data, readFileData. rewrite Hs. by destruct w.
Qed.
Lemma ReadFile_no_items t dv (w : txState D) h m p i dev :
  repr partOff R t dv w h m -> Z.of_nat h <= maxBtreeDepth -> resolves m p i -> isRegular i = true -> in_size i <> 0 ->
  prefix_of m (in_num i) typeExtentData [] -> ReadFile partOff dev p w = (w, Err ErrNotFound).
Proof using HL RWL.
  intros Hr Hh Hres Hreg Hs Hl. unfold ReadFile. erewrite sm_bind_Ok by (by eapply fs_path_run).
  rewrite Hreg. cbn [negb]. unfold fs_file_data, readFileData. rewrite (proj2 (Z.eqb_neq _ _) Hs).
  assert (Ep : wp never (fs_prefix partOff (in_num i) typeExtentData) w (fun l' w' => l' = [] /\ w' = w) (fun e w' => e = ErrNotFound /\ w' = w)).
  { eapply (fs_prefix_spec partOff R never t dv w h m); [done|unfold typeExtentData; lia| |].
    - intros l' Hl'. split; [|done]. eapply prefix_of_unique; [by apply Hl'|done].
    - intros e He. by destruct (He Hh). }
  unfold wp, fs_prefix in Ep. unfold sm_gets, tx_lift, mbind, SM_bind in *. cbn [fst snd] in *.
  destruct (collectPrefixItems _ _ _ _ (tx_cow w)) as [s [l'|e| |]] eqn:Ec; try done.
  - destruct Ep as [-> _]. by apply collectPrefixItems_some in Ec.
  - destruct Ep as [-> Ew]. f_equal. exact Ew.
Qed.
End NoItems.

(** The path after a change of the size. *)
Lemma resized_resolves m m' p i d0 d' n :
  resolves m p i -> other_keys m m' (in_num i) -> m !! inodeKey (in_num i) = Some d0 -> m' !! inodeKey (in_num i) = Some d' -> blen d' = blen d0 ->
  is_Mode (stat_of (in_num i) d') = is_Mode (stat_of (in_num i) d0) -> is_NLink (stat_of (in_num i) d') = is_NLink (stat_of (in_num i) d0) ->
  is_Size (stat_of (in_num i) d') = n -> resolves m' p (InodeItem (in_num i) (in_mode i) n (in_nlink i)).
Proof.
  intros (Hp&x&Ex&Hdec) Hoth Hd0 Hd' L Em El Es. assert (x = d0) as -> by congruence.
  rewrite decode_inode_spec in Hdec. case_if_in Hdec; [done|]. injection Hdec as Ei. split; cbn [in_num].
  - eapply path_to_agree; [|exact Hp]. intros k Hk. apply Hoth; [intros ->; by destruct Hk|]. intros [_ Ht]. destruct Hk as [E|E]; rewrite E in Ht; done.
  - exists d'. split; [done|]. rewrite decode_inode_spec, (proj2 (Z.ltb_ge _ _)), Em, El, Es by lia. by rewrite <- (f_equal in_mode Ei), <- (f_equal in_nlink Ei).
Qed.
(** The other files read as before. *)
Lemma others_read `{HL : SafeIOLaws} `{HD : DecodersLaws} {D : Type} `{RWL : RWLaws D} `{CK : Clock} (partOff : Z) t dv (w w' : txState D) h' m m' ino dev :
  repr partOff trees t dv w' h' m' -> Z.of_nat h' <= maxBtreeDepth -> sb_sysChunks (tx_sb w') = sb_sysChunks (tx_sb w) -> other_keys m m' ino -> dev < 2 ^ 63 ->
  forall q j b, resolves m q j -> in_num j <> ino -> isRegular j = true -> in_size j = blen b -> blen b <= dev ->
    file_data partOff (tx_sb w) dv m (in_num j) b -> ReadFile partOff dev q w' = (w', Ok b).
Proof.
  intros Hr' Hlow Esb Hoth Hdev q j b Hq Hne Hj Hsj Hb Hd.
  eapply (ReadFile_run partOff trees t dv w' h' m' (tx_sb w) q j); try done; [by eapply replaced_resolves|].
  eapply file_data_frame; [done| |exact Hd]. intros k Ho Hk. apply Hoth; [by intros ->|]. intros [? _]. congruence.
Qed.

(** The path names a regular file of uncompressed extents with the content [data], longer
    than the new size. *)
Record cuttable {D} `{SafeIO} (partOff : Z) (dv : dataView) (w : txState D) (m : gmap key bytes) (p : bytes) (i : inodeItem) (l : list rec) (data : bytes) (n : Z) : Prop := Cuttable {
  ct_inode : resolves m p i /\ isRegular i = true;
  ct_size : in_size i = blen data /\ 0 <= n < blen data /\ blen data < 2 ^ 63;
  ct_extents : prefix_of m (in_num i) typeExtentData l /\ Forall (plain_item (tx_sb w) dv (blen data)) l;
  ct_content : content partOff (tx_sb w) dv l data }.

Lemma Truncate_spec `{HL : SafeIOLaws} {D : Type} `{RWL : RWLaws D} `{CK : Clock} (partOff : Z) X dv (w : txState D) h m p i l n d0
    (Q : unit -> txState D -> Prop) (E : error -> txState D -> Prop) :
  (forall n, time_ok (clock_at n)) -> (forall w' : txState D, full (tx_cow w') -> X w') ->
  ready partOff dv w h m -> (h <= 1)%nat -> resolves m p i -> isRegular i = true -> 0 <= n < in_size i -> prefix_of m (in_num i) typeExtentData l ->
  m !! inodeKey (in_num i) = Some d0 -> (forall w', cut partOff dv w m (in_num i) d0 l n w' -> Q tt w') -> (forall e w', cut_failed partOff dv w m (in_num i) l n w' -> E e w') ->
  wp X (Truncate partOff p n) w Q E.
Proof.
  intros Hclock HX Hrdy Hshort Hres Hreg Hn Hl Hd0 HQ HE. pose proof Hrdy as [Hr Hlow _ _ _].
  assert (Hu : is_u64 (in_num i)) by (eapply path_to_u64; [|apply Hres]; unfold is_u64, rootDirObjID; lia).
  assert (Hs : in_size i < 2 ^ 64).
  { destruct Hres as (_&d&_&Hdec). rewrite decode_inode_spec in Hdec. case_if_in Hdec; [done|]. injection Hdec as <-. cbn. apply (rd_range 8). }
  unfold Truncate. rewrite (proj2 (Z.ltb_ge _ _)), u64_small by (unfold is_u64; lia). unfold truncateInode.
  apply wp_bind. apply (wp_eq _ _ _ w (Ok i)); [by eapply fs_path_run|]. cbv beta iota. rewrite Hreg. cbn [negb]. rewrite (proj2 (Z.ltb_ge _ n)), (proj2 (Z.eqb_neq n _)) by lia.
  apply wp_bind, wp_try. assert (Hgo : wp X (_ ← trim_extents partOff n l;
    updateInodeMetadata partOff (in_num i) (fun d =>
      d ← sm_lift (PutUint64 d inodeOffSize n);
      items ← prefix_or_nil partOff (in_num i) typeExtentData;
      nbytes ← sm_lift (sum_nbytes items 0);
      sm_lift (PutUint64 d inodeOffNBytes nbytes))) w Q E) by (eapply shrink_spec; try done; unfold is_u64; lia).
  eapply (fs_prefix_spec partOff trees never True dv w h m); [done|unfold typeExtentData; lia| |].
  - intros l' Hl'. apply wp_bind, wp_ret. by rewrite (prefix_of_unique _ _ _ _ _ (Hl' Hlow) Hl).
  - intros e He. destruct (He Hlow) as [Hnil ->]. cbn [is_not_found]. apply wp_bind, wp_ret. by rewrite (prefix_of_unique _ _ _ _ _ Hnil Hl).
Qed.

(** C12. A [Truncate] that shrinks, and [ReadFile]: when the call succeeds, the extent items
    of the file are the old ones cut at the new size, its inode has the new size and the
    bytes its extents still take, and no other item has changed; reading the path returns
    exactly the first bytes of the old content and every other file reads as
    before.  The exception is a file that is left with a size but without an extent item: reading it
    is an error.  When the call fails, every item of the file is the old or the cut one. *)
Theorem truncate_keeps_prefix `{HL : SafeIOLaws} `{HD : DecodersLaws} {D : Type} `{RWL : RWLaws D} `{CK : Clock} (partOff : Z)
    (dv : dataView) (w : txState D) (h : nat) (m : gmap key bytes) (p data : bytes) (n dev : Z) (i : inodeItem) (l : list rec) (d0 : bytes) :
  (forall n, time_ok (clock_at n)) -> ready partOff dv w h m -> (h <= 1)%nat -> dv_prefix dv -> cuttable partOff dv w m p i l data n ->
  m !! inodeKey (in_num i) = Some d0 -> n <= dev < 2 ^ 63 ->
  match Truncate partOff p n w with
  | (w', Ok _) => cut partOff dv w m (in_num i) d0 l n w' /\
      (trim_items n l <> [] \/ n = 0 -> ReadFile partOff dev p w' = (w', Ok (sub data 0 n))) /\
      (trim_items n l = [] -> n <> 0 -> ReadFile partOff dev p w' = (w', Err ErrNotFound)) /\
      forall q j b, resolves m q j -> in_num j <> in_num i -> isRegular j = true -> in_size j = blen b -> blen b <= dev ->
        file_data partOff (tx_sb w) dv m (in_num j) b -> ReadFile partOff dev q w' = (w', Ok b)
  | (w', Err _) => cut_failed partOff dv w m (in_num i) l n w'
  | (w', Panic) => full (tx_cow w')
  | (_, NoFuel) => False
  end.
Proof.
  intros Hclock Hrdy Hshort Hpre [[Hres Hreg] (Hs&Hn&Hmax) [Hl Hplain] Hc] Hd0 Hdev.
  pose proof (Truncate_spec partOff (fun w' => full (tx_cow w')) dv w h m p i l n d0 (fun _ => cut partOff dv w m (in_num i) d0 l n)
    (fun _ => cut_failed partOff dv w m (in_num i) l n) Hclock ltac:(done) Hrdy Hshort Hres Hreg ltac:(lia) Hl Hd0 (fun _ Hc => Hc) (fun _ _ Hf => Hf)) as Hw. unfold wp in Hw.
  destruct (Truncate _ _ _ _) as [w' [[]|e| |]]; try done. split; [done|].
  pose proof (rdy_repr _ _ _ _ _ Hrdy) as Hr.
  destruct Hw as (h'&m'&d'&now&nb&Hr'&Hlow&Hcom&Hoth&_&Hl'&Ed'&L&_&_&S). destruct (committed_sector _ _ Hcom) as [_ Esb].
  pose proof (resized_resolves m m' p i d0 d' n Hres Hoth Hd0 Ed' L ltac:(by rewrite S) ltac:(by rewrite S) ltac:(by rewrite S)) as Hres'.
  set (i' := InodeItem _ _ _ _) in Hres'.
  assert (Hc' : content partOff (tx_sb w) dv (trim_items n l) (sub data 0 n)).
  { apply content_cut; [by eapply repr_flat|done| |done|done|done]. rewrite Forall_forall in *. intros r Hr0. pose proof (prefix_lookup _ _ _ Hl r Hr0).
    split_and!; [by eapply (repr_key_ok partOff trees True dv w h m)|by eapply (repr_items_small partOff trees True dv w h m)|by apply Hplain]. }
  assert (Ln : blen (sub data 0 n) = n) by (apply blen_sub; lia). split_and!.
  - intros [Hne| ->]; [|by eapply (ReadFile_empty partOff trees True dv w' h' m' p i')].
    eapply (ReadFile_run partOff trees True dv w' h' m' (tx_sb w) p i'); try done; [by exists (trim_items n l)|lia].
  - intros Hnil Hz. rewrite Hnil in Hl'. by eapply (ReadFile_no_items partOff trees True dv w' h' m' p i').
  - eapply (others_read partOff True dv w w' h' m m'); [done|done|done|done|lia].
Qed.

(** The path names a regular file of uncompressed extents with zeros behind its size, shorter
    than the new size. *)
Record growable {D} `{SafeIO} (partOff : Z) (dv : dataView) (w : txState D) (m : gmap key bytes) (p : bytes) (i : inodeItem) (l : list rec) (data : bytes) (n : Z) : Prop := Growable {
  gr_inode : resolves m p i /\ isRegular i = true;
  gr_size : in_size i = blen data /\ blen data < n < 2 ^ 63;
  gr_extents : prefix_of m (in_num i) typeExtentData l /\ Forall (tight_item (tx_sb w) dv (blen data)) l;
  gr_content : content partOff (tx_sb w) dv l data }.

(** C13. A [Truncate] that grows, and [ReadFile].  The file has uncompressed extents with
    nothing but zeros behind the old size ([growable], [tight_item]): inline items end
    within it, and a regular extent that reaches past it is a hole or stores zeros there.
    When the call succeeds, no item but the inode's has changed, reading the path returns the
    old content followed by zeros up to the new size, and every other file reads as before.
    A file without an extent item cannot be read afterwards.  When the call fails, the
    inode has its old or its new attributes and nothing else changed.  An extent that
    stores other bytes behind the old size shows them: the code does not look
    ([grown_shows_extent_tail]). *)
Theorem truncate_fills_with_zeros `{HL : SafeIOLaws} `{HD : DecodersLaws} {D : Type} `{RWL : RWLaws D} `{CK : Clock} (partOff : Z)
    (dv : dataView) (w : txState D) (h : nat) (m : gmap key bytes) (p data : bytes) (n dev : Z) (i : inodeItem) (l : list rec) :
  (forall n, time_ok (clock_at n)) -> ready partOff dv w h m -> growable partOff dv w m p i l data n -> n <= dev < 2 ^ 63 ->
  let g now s := st_change (next_gen (tx_sb w)) now (st_size n s) in
  match Truncate partOff p n w with
  | (w', Ok _) => edited partOff dv True w h m (in_num i) g w' /\
      (l <> [] -> ReadFile partOff dev p w' = (w', Ok (data ++ zeros (n - blen data)))) /\
      (l = [] -> ReadFile partOff dev p w' = (w', Err ErrNotFound)) /\
      forall q j b, resolves m q j -> in_num j <> in_num i -> isRegular j = true -> in_size j = blen b -> blen b <= dev ->
        file_data partOff (tx_sb w) dv m (in_num j) b -> ReadFile partOff dev q w' = (w', Ok b)
  | (w', Err _) => edit_failed partOff dv True w m (in_num i) g w'
  | (w', Panic) => full (tx_cow w')
  | (_, NoFuel) => False
  end.
Proof.
  intros Hclock Hrdy [[Hres Hreg] (Hs&Hn&Hmax) [Hl Hplain] Hc] Hdev g. pose proof Hrdy as [Hr Hlow Hwf _ Hroom]. pose proof (blen_nonneg data).
  pose proof (run_attr_spec partOff Hclock (fun w' => full (tx_cow w')) ltac:(done) dv Hroom True w h m (Grow n) p i
    (fun _ => edited partOff dv True w h m (in_num i) g) (fun _ => edit_failed partOff dv True w m (in_num i) g) Hr (wf_inodes _ Hwf) (wf_exts _ Hwf) Hres
    ltac:(split_and!; [done|lia|lia]) (fun _ He => He) (fun _ _ Hf => Hf)) as Hw. unfold wp in Hw. cbn [run_attr] in Hw.
  destruct (Truncate _ _ _ _) as [w' [[]|e| |]]; try done. split; [done|].
  destruct Hw as (h'&m'&now&_&Hlow'&Hr'&_&He&Hcom). destruct (committed_sector _ _ Hcom) as [_ Esb].
  assert (Hoth : other_keys m m' (in_num i)) by (intros k Hk _; by eapply inode_edit_frame).
  assert (Hl' : prefix_of m' (in_num i) typeExtentData l).
  { eapply prefix_of_agree; [|exact Hl]. intros k Hk. eapply inode_edit_frame; [done|]. by intros ->. }
  pose proof He as (d0&d'&Ed0&Em&L&S). assert (Ed' : m' !! inodeKey (in_num i) = Some d') by (by rewrite Em, lookup_insert_eq).
  pose proof (resized_resolves m m' p i d0 d' n Hres Hoth Ed0 Ed' L ltac:(by rewrite S) ltac:(by rewrite S) ltac:(by rewrite S)) as Hres'.
  set (i' := InodeItem _ _ _ _) in Hres'. split_and!.
  - intros Hne. eapply (ReadFile_run partOff trees True dv w' h' m' (tx_sb w) p i'); try done; [|rewrite blen_app, blen_zeros; cbn; lia|rewrite blen_app, blen_zeros; lia].
    exists l. split_and!; [done..|]. apply content_grown; [by eapply repr_flat| |lia|lia|done].
    rewrite Forall_forall in *. intros r Hr0. pose proof (prefix_lookup _ _ _ Hl r Hr0).
    split_and!; [by eapply (repr_key_ok partOff trees True dv w h m)|by eapply (repr_items_small partOff trees True dv w h m)|by apply Hplain].
  - intros ->. eapply (ReadFile_no_items partOff trees True dv w' h' m' p i'); try done. cbn. lia.
  - eapply (others_read partOff True dv w w' h' m m'); [done|done|done|done|lia].
Qed.
