(* ===== verification/Remove.v ===== *)
(** * Removing files (delete.go)

    [DeleteFile] from the call to the lookups that follow it: the name is gone, the space
    of the content is free again, and every other name and file is as before. *)
From Stdlib Require Import ZArith Lia Strings.Byte.
From stdpp Require Import base option list numbers sorting gmap.
From S2P Require Import Prelude Bytes Alloc Layout SafeIO Chunk Node BTree Walk Split Crc32c Cow Store CowCorrect.
From S2P Require Import Codec Read FileRead Tx Extent Ops FsTree DeletePrefix FsLookup InodeEdit Rebuild FsData ExtentLayout ExtentWrite.
From S2P Require Import CommitCorrect InodeOps Entries Paths Create CreateApi XattrOps Overwrite.
Local Open Scope Z_scope.
Local Open Scope btrfs_scope.

(** ** How lookups see that a name is gone *)
Lemma first_entry_skip name l l' k d :
  entry_in name d = Ok None -> first_entry name (l ++ (k, d) :: l') = first_entry name (l ++ l').
Proof.
  intros E. induction l as [|x l IH]; cbn [app first_entry]; [cbn [snd]; by rewrite E|].
  destruct (entry_in name x.2) as [[]| | |]; cbn [mbind outcome_bind]; try done.
Qed.

(** The items of one prefix, without the item of one key. *)
Lemma prefix_of_delete m o t l k d l' :
  prefix_of m o t (l ++ (k, d) :: l') -> prefix_of (delete k m) o t (l ++ l').
Proof.
  intros [Hs Hm]. split; [by eapply keys_sorted_middle|]. intros k' d'. rewrite lookup_delete_Some.
  assert (Hk : forall x, (k, x) ∉ l ++ l').
  { intros x Hx. apply keys_sorted_NoDup in Hs. rewrite map_app in Hs. cbn [map fst] in Hs. apply NoDup_app in Hs as (_&H1&H2).
    apply NoDup_cons in H2 as [H2 _]. apply elem_of_app in Hx as [Hx|Hx].
    - apply (H1 k); [by apply (list_elem_of_fmap_2 fst) in Hx|by left].
    - apply H2. by apply (list_elem_of_fmap_2 fst) in Hx. }
  split.
  - intros Hin. assert (Hin' : (k', d') ∈ l ++ (k, d) :: l') by (rewrite elem_of_app, elem_of_cons; rewrite elem_of_app in Hin; tauto).
    apply Hm in Hin' as (E&Ho&Ht). split_and!; try done. intros <-. by apply (Hk d').
  - intros ([Hne E]&Ho&Ht). assert (Hin : (k', d') ∈ l ++ (k, d) :: l') by (by apply Hm). rewrite elem_of_app, elem_of_cons in Hin.
    rewrite elem_of_app. destruct Hin as [?|[[= -> ->]|?]]; tauto.
Qed.

(** The scan for a DIR_INDEX item looks at the first entry of each item. *)
Lemma find_index_step name k d q :
  find_index name ((k, d) :: q) =
  if blen d <? dirItemHdrSize then find_index name q else
  match dir_entry_at d 0 with
  | Ok (Some (e, _)) => if bool_decide (de_name e = name) then Ok (Some k) else find_index name q
  | _ => find_index name q
  end.
Proof.
  cbn [find_index fst snd]. case_if; [done|]. unfold dir_entry_at, dirItemHdrSize in *.
  rewrite (get_le_Ok 8), !(get_le_Ok 2), (get_le_Ok 1) by lia. cbn [mbind outcome_bind]. rewrite !Z.add_0_l.
  case_if; [done|]. pose proof (rd_range 2 d 0x1B). rewrite slice_Ok by lia. cbn [mbind outcome_bind de_name]. done.
Qed.
Lemma find_index_none name k d q : entry_in name d = Ok None -> find_index name ((k, d) :: q) = find_index name q.
Proof.
  rewrite find_index_step. unfold entry_in, parseDirItems. case_if; [done|]. unfold blen, dirItemHdrSize in *.
  destruct (length d) as [|n] eqn:El; [lia|]. cbn [parseDirItems_loop]. rewrite (proj2 (Z.leb_le _ _)) by (unfold blen, dirItemHdrSize; lia).
  destruct (dir_entry_at d 0) as [[[e nx]|]| | |]; cbn [mbind outcome_bind]; try done. by case_bool_decide.
Qed.
Lemma find_index_item name k e q : is_u64 e.1 -> 0 <= e.2 < 256 -> blen name < 2 ^ 16 ->
  find_index name ((k, entry_item e name) :: q) = Ok (Some k).
Proof.
  intros Hu Ht Hl. rewrite find_index_step. pose proof (enc_entry_long (DirEntry e.1 name e.2)) as Hlong.
  pose proof (dir_entry_at_enc [] (DirEntry e.1 name e.2) [] ltac:(done)) as He. rewrite app_nil_r in He. cbn [app] in He. change (blen []) with 0 in He.
  change (enc_entry (DirEntry e.1 name e.2)) with (entry_item e name) in *.
  rewrite (proj2 (Z.ltb_ge _ _)) by lia. rewrite He. cbn [de_name]. by rewrite bool_decide_eq_true_2.
Qed.

(** A name with exactly one DIR_INDEX item, alone in its DIR_ITEM. *)
Record sole_name (m : gmap key bytes) (parent : Z) (name : bytes) (idx : Z) (e : Z * Z) : Prop := SoleName {
  sn_ino : is_u64 e.1;
  sn_type : 0 <= e.2 < 256;
  sn_len : blen name < 2 ^ 16;
  sn_item : m !! Key parent typeDirItem (hashDirName name) = Some (entry_item e name);
  sn_index : m !! Key parent typeDirIndex idx = Some (entry_item e name);
  sn_only : forall off d, off <> idx -> m !! Key parent typeDirIndex off = Some d -> entry_in name d = Ok None }.
Definition unnamed (m : gmap key bytes) (parent : Z) (name : bytes) (idx : Z) : gmap key bytes :=
  delete (Key parent typeDirItem (hashDirName name)) (delete (Key parent typeDirIndex idx) m).

Section Unnamed.
Context (m : gmap key bytes) (parent : Z) (name : bytes) (idx : Z) (e : Z * Z) (Hn : sole_name m parent name idx e).
Context (l0 : list rec) (Hl0 : prefix_of m parent typeDirIndex l0).
Abbreviation m' := (unnamed m parent name idx).

Lemma unnamed_split : exists l l', l0 = l ++ (Key parent typeDirIndex idx, entry_item e name) :: l' /\
  prefix_of m' parent typeDirIndex (l ++ l') /\ forall k d, (k, d) ∈ l ++ l' -> entry_in name d = Ok None.
Proof using Hn Hl0.
  destruct Hn as [_ _ _ _ Hi Ho]. assert (Hin : (Key parent typeDirIndex idx, entry_item e name) ∈ l0) by (by apply Hl0).
  apply list_elem_of_split in Hin as (l&l'&->). exists l, l'. split; [done|]. pose proof (prefix_of_delete _ _ _ _ _ _ _ Hl0) as Hp. split.
  - eapply prefix_of_frame; [|exact Hp]. intros k _ Ht. unfold unnamed. rewrite lookup_delete_ne; [done|]. by intros <-.
  - intros k d Hk. apply Hp in Hk as (Ek&Hk1&Hk2). apply lookup_delete_Some in Ek as [Hne Ek]. destruct k as [a b off]. cbn in Hk1, Hk2. subst a b.
    apply (Ho off); [|done]. intros ->. done.
Qed.

Lemma unnamed_item_hit dir n r : item_hit m' dir n r <-> ~ (dir = parent /\ n = name) /\ item_hit m dir n r.
Proof using Hn.
  destruct Hn as [Hu Ht Hlen Hit _ _]. unfold item_hit, unnamed.
  destruct (decide (Key parent typeDirItem (hashDirName name) = Key dir typeDirItem (hashDirName n))) as [E|E].
  - rewrite <- E, lookup_delete_eq, Hit. split; [by intros (d&?&_)|]. intros [Hne (d&[= <-]&Ed)]. exfalso.
    rewrite entry_in_item in Ed by done. injection E as Ed' _. case_bool_decide; [|done]. by apply Hne.
  - rewrite lookup_delete_ne by done. rewrite lookup_delete_ne by done. split; [|by intros [_ ?]]. intros Hh. split; [|done].
    by intros [-> ->].
Qed.

Lemma unnamed_dir_entry dir n r : dir_entry m' dir n r <-> ~ (dir = parent /\ n = name) /\ dir_entry m dir n r.
Proof using Hn Hl0.
  destruct unnamed_split as (l&l'&El&Hp&Hno). pose proof Hn as [Hu Ht Hlen Hit Hix Ho]. unfold dir_entry. rewrite unnamed_item_hit.
  destruct (decide (dir = parent /\ n = name)) as [[-> ->]|Hne].
  - split; [|tauto]. intros [[? _]|[_ (l1&Hl1&E1)]]; [tauto|]. exfalso.
    rewrite (prefix_of_unique _ _ _ _ _ Hl1 Hp) in E1. clear -E1 Hno. induction (l ++ l') as [|[k d] q IH]; [done|]. cbn [first_entry snd] in E1.
    rewrite (Hno k d) in E1 by (by left). apply IH; [|done]. intros k' d' Hx. apply (Hno k'). by right.
  - assert (Hhits : (forall r', ~ item_hit m' dir n r') <-> (forall r', ~ item_hit m dir n r')).
    { split; intros H r' Hx; apply (H r'); [by apply unnamed_item_hit|by apply unnamed_item_hit in Hx as [_ ?]]. }
    rewrite Hhits. destruct (decide (dir = parent)) as [->|Hd].
    + assert (Hmiss : entry_in n (entry_item e name) = Ok None).
      { rewrite entry_in_item by done. rewrite bool_decide_eq_false_2; [done|]. intros ->. tauto. }
      assert (Hidx : (exists q, prefix_of m' parent typeDirIndex q /\ first_entry n q = Ok (Some r)) <->
        (exists q, prefix_of m parent typeDirIndex q /\ first_entry n q = Ok (Some r))).
      { split; intros (q&Hq&Eq).
        - exists l0. split; [done|]. rewrite (prefix_of_unique _ _ _ _ _ Hq Hp) in Eq. by rewrite El, first_entry_skip.
        - exists (l ++ l'). split; [done|]. rewrite (prefix_of_unique _ _ _ _ _ Hq Hl0), El, first_entry_skip in Eq by done. done. }
      rewrite Hidx. tauto.
    + assert (Hidx : forall q, prefix_of m' dir typeDirIndex q <-> prefix_of m dir typeDirIndex q).
      { assert (Hf : forall k, objID k = dir -> typ k = typeDirIndex -> m' !! k = m !! k).
        { intros k Hk1 Hk2. unfold unnamed. rewrite !lookup_delete_ne; [done|by intros <-|by intros <-]. }
        intros q. split; apply prefix_of_frame; intros k H1 H2; [symmetry|]; by apply Hf. }
      setoid_rewrite Hidx. tauto.
Qed.

(** Paths that do not go through the name. *)
Lemma unnamed_path_to parts cur i :
  (forall n r, ~ dir_entry m e.1 n r) -> i <> e.1 -> dir_entry m parent name e -> path_to m parts cur i -> path_to m' parts cur i.
Proof using Hn Hl0.
  intros Hleaf Hi He. revert cur. induction parts as [|n parts IH]; intros cur; cbn [path_to]; [done|].
  intros (r&Hr&Hp). exists r. split; [|by apply IH]. apply unnamed_dir_entry. split; [|done]. intros [-> ->].
  rewrite (dir_entry_fun _ _ _ _ _ Hr He) in Hp. destruct parts as [|n' parts]; [by apply Hi|].
  destruct Hp as (r'&Hr'&_). by apply (Hleaf n' r').
Qed.

End Unnamed.

(** ** The steps of a removal *)
Section RemoveSteps.
Context `{HL : SafeIOLaws} {D : Type} `{RWL : RWLaws D} `{CK : Clock} (partOff : Z) (R : keeper) `{HR : !Stable R}.
Context (X : txState D -> Prop).
Abbreviation W := (txState D).
Abbreviation repr := (repr partOff R).

Lemma delete_key_spec t dv w h m k kp dp (Q : unit -> W -> Prop) (E : error -> W -> Prop) :
  repr t dv w h m -> Z.of_nat h <= maxBtreeDepth -> (t -> (h <= 1)%nat) -> key_ok k -> m !! kp = Some dp -> kp <> k ->
  (forall w' h', (h' <= h)%nat -> repr t dv w' h' (delete k m) -> next w w' -> Q tt w') ->
  (forall e w', repr t dv w' h m -> next w w' -> E e w') ->
  wp X (fs_delete partOff k) w Q E.
Proof using HL RWL HR.
  intros Hr Hh Hs Hk Ep Hne HQ HE. eapply (fs_delete_spec partOff R X t dv w h m); [done|done| |done| |].
  - intros Hx. apply (f_equal (lookup kp)) in Hx. by rewrite lookup_delete_ne, Ep, lookup_empty in Hx.
  - intros w' h' Hle _ _ Hr' Hn. by eapply HQ.
  - intros e w' _ _ Hr' Hn. by apply HE.
Qed.
Lemma delete_maybe_spec t dv w h m k kp dp (Q : unit -> W -> Prop) (E : error -> W -> Prop) :
  repr t dv w h m -> Z.of_nat h <= maxBtreeDepth -> (t -> (h <= 1)%nat) -> key_ok k -> m !! kp = Some dp -> kp <> k ->
  (forall w' h', (h' <= h)%nat -> repr t dv w' h' (delete k m) -> next w w' -> Q tt w') ->
  (forall e w', repr t dv w' h m -> next w w' -> E e w') ->
  wp X (tolerate_missing (fs_delete partOff k)) w Q E.
Proof using HL RWL HR.
  intros Hr Hh Hs Hk Ep Hne HQ HE. unfold tolerate_missing. apply wp_bind, wp_try.
  eapply (fs_delete_spec partOff R never t dv w h m); [done|done| |done| |].
  - intros Hx. apply (f_equal (lookup kp)) in Hx. by rewrite lookup_delete_ne, Ep, lookup_empty in Hx.
  - intros w' h' Hle _ _ Hr' Hn. apply wp_ret. by eapply HQ.
  - intros e w' He1 _ Hr' Hn. destruct (is_not_found e); [|by apply wp_fail, HE]. apply wp_ret. eapply HQ; [done| |done].
    by rewrite delete_id by (by apply He1).
Qed.

(** The two entries of the name. *)
Lemma delete_dir_index_spec t dv w h m parent name idx e kp dp (Q : unit -> W -> Prop) (E : error -> W -> Prop) :
  repr t dv w h m -> Z.of_nat h <= maxBtreeDepth -> (t -> (h <= 1)%nat) -> is_u64 parent -> is_u64 idx -> sole_name m parent name idx e ->
  m !! kp = Some dp -> typ kp = typeInodeItem ->
  (forall w' h', (h' <= h)%nat -> repr t dv w' h' (delete (Key parent typeDirIndex idx) m) -> next w w' -> Q tt w') ->
  (forall e w', repr t dv w' h m -> next w w' -> E e w') ->
  wp X (delete_dir_index partOff parent name) w Q E.
Proof using HL RWL HR.
  intros Hr Hh Hs Hup Hui Hn Ep Hkp HQ HE. unfold delete_dir_index. apply wp_bind.
  eapply (prefix_or_nil_spec partOff R X t dv w h m); [done|unfold typeDirIndex; lia|]. intros l Hl. specialize (Hl Hh).
  assert (Ef : find_index name l = Ok (Some (Key parent typeDirIndex idx))).
  { destruct (unnamed_split m parent name idx e Hn l Hl) as (l1&l2&->&_&Hno). clear -Hn Hno. induction l1 as [|[k d] l1 IH]; cbn [app].
    - apply find_index_item; apply Hn.
    - rewrite find_index_none; [|apply (Hno k d); by left]. apply IH. intros k' d' Hx. apply (Hno k'). by right. }
  apply wp_bind. eapply wp_lift_ok; [exact Ef|].
  eapply (delete_key_spec t dv w h m _ kp dp); [done|done|done|key_tac|done| |done|done]. by intros ->.
Qed.
End RemoveSteps.

Lemma sole_name_frame m m' parent name idx e :
  (forall k, objID k = parent -> typ k = typeDirItem \/ typ k = typeDirIndex -> m' !! k = m !! k) -> sole_name m parent name idx e -> sole_name m' parent name idx e.
Proof.
  intros Hf [H1 H2 H3 H4 H5 H6]. split; try done.
  - rewrite Hf; [done|done|by left].
  - rewrite Hf; [done|done|by right].
  - intros off d Ho Ed. apply (H6 off d Ho). rewrite <- Hf; [done|done|by right].
Qed.

(** What [adjustDirSize] and [touchDir] do to the parent. *)
Definition entry_removed (name : bytes) (gen : Z) (now : timespec) (s : InodeStat) : InodeStat :=
  let s := st_size (dir_size (is_Size s) (- dirEntrySizeDelta name)) s in
  st_mtime now (st_change gen now (st_nlink (link_count (is_NLink s) 0) s)).

(** ** Removing an inode with its only name *)
Section RemoveInode.
Context `{HL : SafeIOLaws} {D : Type} `{RWL : RWLaws D} `{CK : Clock} (partOff : Z).
Context (Hclock : forall n, time_ok (clock_at n)).
Context (X : txState D -> Prop) (HX : forall w' : txState D, full (tx_cow w') -> X w').
Abbreviation W := (txState D).
Abbreviation repr := (repr partOff trees).
Context (t : Prop) (dv : dataView) (w : W) (h : nat) (m : gmap key bytes) (Hr : repr t dv w h m) (Hlow : Z.of_nat h <= maxBtreeDepth).
Context (Hshort : t -> (h <= 1)%nat) (Hok : inodes_ok m) (Hex : exts_ok m) (Hroom : partOff + superblockOffset + sbfSize <= dv_size dv).
Context (ino parent : Z) (name : bytes) (idx ft : Z) (d0 dp : bytes).
Context (Hui : is_u64 ino) (Hup : is_u64 parent) (Hux : is_u64 idx) (Hne : parent <> ino) (Hname : name <> []).
Context (Hd0 : m !! inodeKey ino = Some d0) (Hdp : m !! inodeKey parent = Some dp) (Hn : sole_name m parent name idx (ino, ft)).
Context (Hnl : is_NLink (stat_of ino d0) <= 1).
Context (l : list rec) (Hl : prefix_of m ino typeExtentData l) (Hheld : held_ranges partOff dv (ranges_of (tx_sb w) l)).
Context (Hb1 : prefix_bound m ino typeExtentData) (Hb2 : prefix_bound m ino typeXattrItem).

Definition touched (k : key) : Prop :=
  objID k = ino \/ k = Key parent typeDirIndex idx \/ k = Key parent typeDirItem (hashDirName name) \/ k = inodeKey parent.
Definition agree_rest (m' : gmap key bytes) : Prop := forall k, ~ touched k -> m' !! k = m !! k.
(** The items of the inode are gone. *)
Definition no_inode (m : gmap key bytes) : gmap key bytes :=
  delete (inodeKey ino) (delete (Key ino typeInodeRef parent) (without (without m ino typeExtentData) ino typeXattrItem)).
Abbreviation dvr := (dv_rest dv w l).

Definition removed (w' : W) : Prop :=
  exists h' m' now, Z.of_nat h' <= maxBtreeDepth /\ repr t dvr w' h' m' /\ committed (tx_sb w) (tx_sb w') /\ time_ok now /\
    inode_edit (unnamed (no_inode m) parent name idx) m' parent (entry_removed name (next_gen (tx_sb w)) now).
(** After a failure: the tree of the file system still has every untouched item, and the
    data beside the content of the file is where it was. *)
Definition rest_kept (w' : W) : Prop := exists h' m', FsTree.repr partOff any_rest t dvr w' h' m' /\ agree_rest m'.
(** One of the two prefix deletions failed half way: the file system keeps the root it had
    before it, while the items are in a tree under a root that the call did not return. *)
Definition rest_root_lost (w' : W) : Prop :=
  exists wf e root' h' m', freeInodeExtents partOff ino w = (wf, Ok tt) /\
    (fs_delete_prefix partOff ino typeExtentData wf = (w', Err e) \/
     exists wd, fs_delete_prefix partOff ino typeExtentData wf = (wd, Ok tt) /\ fs_delete_prefix partOff ino typeXattrItem wd = (w', Err e)) /\
    FsTree.repr partOff any_rest t dvr (rooted w' root') h' m' /\ agree_rest m'.
Definition rest_salvaged (w' : W) : Prop := rest_kept w' \/ rest_root_lost w'.

Lemma no_inode_parent k : objID k = parent -> no_inode m !! k = m !! k.
Proof using Hne.
  intros Hk. unfold no_inode. rewrite !lookup_delete_ne by (intros <-; cbn in Hk; congruence).
  rewrite !without_keep; [done|left; congruence|left; congruence].
Qed.
Lemma no_inode_rest : agree_rest (no_inode m).
Proof using.
  intros k Hk. unfold touched in Hk. unfold no_inode. rewrite !lookup_delete_ne by (intros <-; cbn in Hk; tauto).
  rewrite !without_keep; [done|left; tauto|left; tauto].
Qed.
Lemma no_inode_sub k d : no_inode m !! k = Some d -> m !! k = Some d.
Proof using.
  unfold no_inode. rewrite !lookup_delete_Some, !without_lookup. intros (_&_&E).
  by destruct (in_prefix ino typeXattrItem k), (in_prefix ino typeExtentData k).
Qed.
Lemma unnamed_sub m1 k d : unnamed m1 parent name idx !! k = Some d -> m1 !! k = Some d.
Proof using. unfold unnamed. rewrite !lookup_delete_Some. tauto. Qed.
Lemma unnamed_rest : agree_rest (unnamed (no_inode m) parent name idx).
Proof using.
  intros k Hk. unfold unnamed. rewrite !lookup_delete_ne by (intros <-; apply Hk; unfold touched; tauto). by apply no_inode_rest.
Qed.

(** The directory entries, the parent and the commit. *)
Lemma remove_name_spec w1 h1 (E : error -> W -> Prop) :
  repr t dvr w1 h1 (no_inode m) -> (h1 <= h)%nat -> next w w1 -> (forall e w', rest_salvaged w' -> E e w') ->
  wp X (_ ← delete_dir_index partOff parent name; _ ← delete_dir_item partOff parent name;
        _ ← adjustDirSize partOff parent (- dirEntrySizeDelta name); _ ← touchDir partOff parent; commit partOff) w1 (fun _ w' => removed w') E.
Proof using All.
  intros Hr1 Hle1 Hn1 HE.
  assert (HE1 : forall e w' h' m', repr t dvr w' h' m' -> agree_rest m' -> E e w').
  { intros e w' h' m' Hr' Ha. apply HE. left. exists h', m'. split; [|done]. by eapply repr_any. }
  assert (P1 : no_inode m !! inodeKey parent = Some dp) by (by rewrite no_inode_parent).
  assert (Hs1 : sole_name (no_inode m) parent name idx (ino, ft)) by (eapply sole_name_frame; [|exact Hn]; intros k Hk _; by apply no_inode_parent).
  assert (Hsh : forall h', (h' <= h)%nat -> t -> (h' <= 1)%nat) by (intros h' Hx Ht; specialize (Hshort Ht); lia).
  apply wp_bind. eapply (delete_dir_index_spec partOff trees X t dvr w1 h1 (no_inode m) parent name idx (ino, ft) (inodeKey parent) dp);
    [done|lia|by apply Hsh|done|done|done|done|done| |intros e w' Hr' _; eapply HE1; [exact Hr'|apply no_inode_rest]].
  intros w2 h2 Hle2 Hr2 Hn2. set (m2 := delete _ (no_inode m)) in Hr2.
  assert (P2 : m2 !! inodeKey parent = Some dp) by (unfold m2; by rewrite lookup_delete_ne).
  apply wp_bind. unfold delete_dir_item. eapply (delete_maybe_spec partOff trees X t dvr w2 h2 m2 _ (inodeKey parent) dp);
    [done|lia|apply Hsh; lia|key_tac|done|done| |].
  2: { intros e w' Hr' _. eapply HE1; [exact Hr'|]. intros k Hk. unfold m2. rewrite lookup_delete_ne by (intros <-; apply Hk; unfold touched; tauto).
       by apply no_inode_rest. }
  intros w3 h3 Hle3 Hr3 Hn3. change (delete _ m2) with (unnamed (no_inode m) parent name idx) in Hr3. set (m3 := unnamed _ _ _ _) in *.
  assert (Hok3 : inodes_ok m3) by (intros i d Ed; by eapply Hok, no_inode_sub, unnamed_sub).
  assert (Hn03 : next w w3) by (by etrans; [|etrans]).
  apply wp_bind. eapply (adjustDirSize_spec partOff trees X t dvr w3 h3 m3); [done|done|done| | |].
  { unfold dirEntrySizeDelta. destruct name; [done|]. unfold blen. cbn [length]. lia. }
  2: { intros e w' Hr' _. eapply HE1; [exact Hr'|apply unnamed_rest]. }
  intros w4 h4 m4 Hr4 He4 Hn4.
  assert (Ha : forall m' f, inode_edit m3 m' parent f -> agree_rest m').
  { intros m' f He k Hk. rewrite (inode_edit_frame _ _ _ _ _ He) by (intros ->; apply Hk; unfold touched; tauto). by apply unnamed_rest. }
  apply wp_bind. unfold touchDir. eapply (adjustDirNlink_spec partOff trees Hclock X t dvr w4 h4 m4); [done|done|by eapply inodes_ok_edit| |].
  2: { intros e w' Hr' _. eapply HE1; [exact Hr'|by eapply Ha]. }
  intros w5 h5 m5 now Hlow5 Hr5 Hnow He5 Hn5. pose proof (inode_edit_trans _ _ _ _ _ _ He4 He5) as He.
  assert (Hn05 : next w w5) by (by etrans; [|etrans]).
  assert (Hsb4 : tx_sb w4 = tx_sb w) by (by etrans; [apply Hn4|]). rewrite Hsb4 in He.
  eapply (commit_spec partOff X dvr ltac:(exact Hroom) t w5 h5 m5); [done| |done| |].
  - eapply exts_ok_edit; [|exact He]. intros k d Ed. apply Hex. by eapply no_inode_sub, unnamed_sub.
  - intros w6 Hr6 Hc6 _ _ _. exists h5, m5, now. rewrite Hn05 in Hc6. done.
  - intros e w6 Hr6 Hc6 _. apply HE. left. exists h5, m5. split; [done|by eapply Ha].
Qed.

Lemma removeInode_spec (E : error -> W -> Prop) :
  (forall e w', rest_salvaged w' -> E e w') -> wp X (removeInode partOff ino parent name) w (fun _ w' => removed w') E.
Proof using All.
  intros HE. unfold removeInode.
  assert (HE1 : forall e w' h' m', repr t dvr w' h' m' -> agree_rest m' -> E e w').
  { intros e w' h' m' Hr' Ha. apply HE. left. exists h', m'. split; [|done]. by eapply repr_any. }
  assert (Hsh : forall h', (h' <= h)%nat -> t -> (h' <= 1)%nat) by (intros h' Hx Ht; specialize (Hshort Ht); lia).
  (* the inode has one name *)
  assert (Hnext : forall Q, wp X (_ ← freeInodeExtents partOff ino; Q tt) w (fun _ w' => removed w') E ->
    wp X (i ← sm_try (fs_inode partOff ino);
          linked ← sm_lift (match i with Ok i => Ok (1 <? in_nlink i) | Err _ => Ok false | Panic => Panic | NoFuel => NoFuel end);
          if linked : bool then unlinkInodeOnly partOff ino parent name else _ ← freeInodeExtents partOff ino; Q tt) w (fun _ w' => removed w') E).
  { intros Q HQ. apply wp_bind, wp_try. eapply (fs_inode_spec partOff trees never t dv w h m); [done|done| |].
    - intros i d _ Ed Hdec. assert (d = d0) as -> by congruence. rewrite decode_inode_spec in Hdec. case_if_in Hdec; [done|]. injection Hdec as <-.
      apply wp_bind, wp_lift. cbn [in_nlink]. rewrite (proj2 (Z.ltb_ge _ _)) by done. exact HQ.
    - intros e _. apply wp_bind, wp_lift. exact HQ. }
  apply (Hnext (fun _ => _)). clear Hnext.
  apply wp_bind, wp_run, (freeInodeExtents_spec partOff trees X t dv w h m ino l); [done|done|done|done|]. fold dvr.
  intros w1 Hr1 Hn1 Ef. set (m1 := without m ino typeExtentData).
  assert (P1 : m1 !! inodeKey parent = Some dp) by (unfold m1; by rewrite without_keep by (by right)).
  assert (Hw1 : agree_rest m1) by (intros k Hk; apply without_keep; left; intros ?; apply Hk; by left).
  apply wp_bind, wp_run, (fs_delete_prefix_spec partOff trees X t dvr w1 h m ino typeExtentData); [done|done|key_tac| |done|done| |].
  { intros Hx. fold m1 in Hx. by rewrite Hx, lookup_empty in P1. }
  2: { intros w' root' h' m' Hr' Ew _ Ed. apply HE. right. exists w1, ErrOther, root', h', m'. split_and!; [done|by left|by eapply repr_any|]. intros k Hk.
       rewrite <- Hw1 by done. unfold m1. rewrite <- Ew. symmetry. apply without_keep. left. intros ?. apply Hk. by left. }
  intros w2 h2 Hle2 Hr2 Hn2 Edel. fold m1 in Hr2. set (m2 := without m1 ino typeXattrItem).
  assert (P2 : m2 !! inodeKey parent = Some dp) by (unfold m2; by rewrite without_keep by (by right)).
  assert (Hw2 : agree_rest m2) by (intros k Hk; unfold m2; rewrite without_keep by (left; intros ?; apply Hk; by left); by apply Hw1).
  assert (Hn02 : next w w2) by (by etrans).
  apply wp_bind. unfold tolerate_missing at 1. apply wp_bind, wp_try, wp_run.
  eapply (fs_delete_prefix_spec partOff trees never t dvr w2 h2 m1 ino typeXattrItem); [done|lia|key_tac| |by apply Hsh| | |].
  { intros Hx. fold m2 in Hx. by rewrite Hx, lookup_empty in P2. }
  { intros l' Hl'. apply Hb2. eapply prefix_of_frame; [|exact Hl']. intros k Ho Hk. symmetry. apply without_keep. right. by rewrite Hk. }
  2: { intros w' root' h' m' Hr' Ew _ Ex. apply wp_fail, HE. right. exists w1, ErrOther, root', h', m'.
       split_and!; [done|right; by exists w2|by eapply repr_any|]. intros k Hk.
       rewrite <- Hw2 by done. unfold m2. rewrite <- Ew. symmetry. apply without_keep. left. intros ?. apply Hk. by left. }
  intros w3 h3 Hle3 Hr3 Hn3 _. fold m2 in Hr3. apply wp_ret.
  apply wp_bind, (delete_maybe_spec partOff trees X t dvr w3 h3 m2 _ (inodeKey parent) dp); [done|lia|apply Hsh; lia|key_tac|done|done| |].
  2: { intros e w' Hr' _. by eapply HE1. }
  intros w4 h4 Hle4 Hr4 Hn4. set (m4 := delete _ m2) in Hr4.
  assert (P4 : m4 !! inodeKey parent = Some dp) by (unfold m4; by rewrite lookup_delete_ne).
  assert (Hw4 : agree_rest m4).
  { intros k Hk. unfold m4. rewrite lookup_delete_ne by (intros <-; apply Hk; by left). by apply Hw2. }
  apply wp_bind, (delete_key_spec partOff trees X t dvr w4 h4 m4 _ (inodeKey parent) dp); [done|lia|apply Hsh; lia|key_tac|done| | |].
  { by intros [= ?]. }
  2: { intros e w' Hr' _. by eapply HE1. }
  intros w5 h5 Hle5 Hr5 Hn5. change (delete _ m4) with (no_inode m) in Hr5.
  apply (remove_name_spec w5 h5); [done|lia| |done]. by etrans; [|etrans; [|etrans]].
Qed.
End RemoveInode.

(** ** [DeleteFile] *)

(** The path names a file that is not a directory and has no other name: its entry, its
    inode, and its items. *)
Record deletable {D} (partOff : Z) (dv : dataView) (w : txState D) (m : gmap key bytes) (p : bytes) (pi i : inodeItem) (idx ft : Z) (l : list rec) : Prop := Deletable {
  dl_parent : resolves m (splitPath p).1 pi;
  dl_name : sole_name m (in_num pi) (splitPath p).2 idx (in_num i, ft) /\ is_u64 idx /\ (splitPath p).2 <> [] /\ (splitPath p).2 <> dot;
  dl_type : ft <> ftDir;
  dl_inode : resolves m p i /\ in_nlink i <= 1 /\ in_num pi <> in_num i;
  dl_leaf : forall n r, ~ dir_entry m (in_num i) n r;
  dl_extents : prefix_of m (in_num i) typeExtentData l /\ held_ranges partOff dv (ranges_of (tx_sb w) l);
  dl_bounds : prefix_bound m (in_num i) typeExtentData /\ prefix_bound m (in_num i) typeXattrItem }.

Lemma no_inode_dirs m ino parent : same_dirs m (no_inode ino parent m).
Proof.
  intros k Hk. unfold no_inode. rewrite !lookup_delete_ne by (intros <-; by destruct Hk).
  rewrite !without_keep; [done|right; destruct Hk as [-> | ->]; done|right; destruct Hk as [-> | ->]; done].
Qed.

Section Deleted.
Context (m m' : gmap key bytes) (ino parent : Z) (name : bytes) (idx ft : Z) (f : InodeStat -> InodeStat).
Context (Hn : sole_name m parent name idx (ino, ft)) (l0 : list rec) (Hl0 : prefix_of m parent typeDirIndex l0).
Context (Hne : parent <> ino) (Hleaf : forall n r, ~ dir_entry m ino n r).
Context (He : inode_edit (unnamed (no_inode ino parent m) parent name idx) m' parent f).

Lemma deleted_sole : sole_name (no_inode ino parent m) parent name idx (ino, ft) /\ prefix_of (no_inode ino parent m) parent typeDirIndex l0.
Proof using Hn Hl0.
  split; [eapply sole_name_frame; [|exact Hn]|eapply prefix_of_agree; [|exact Hl0]]; intros; apply no_inode_dirs; [done|by right].
Qed.

Lemma deleted_path parts cur j : j <> ino -> path_to m parts cur j -> path_to m' parts cur j.
Proof using All.
  intros Hj Hp. destruct deleted_sole as [Hn' Hl']. eapply path_to_agree; [by eapply inode_edit_dirs|].
  apply (unnamed_path_to _ _ _ _ _ Hn' l0 Hl'); [|done| |].
  - intros n r Hd. apply (Hleaf n r). eapply dir_entry_agree; [|exact Hd]. apply same_dirs_sym, no_inode_dirs.
  - left. exists (entry_item (ino, ft) name). destruct Hn' as [H1 H2 H3 H4 _ _]. split; [done|]. rewrite entry_in_item by done. by rewrite bool_decide_eq_true_2.
  - eapply path_to_agree; [apply no_inode_dirs|done].
Qed.
Lemma deleted_entry r : ~ dir_entry m' parent name r.
Proof using All.
  intros Hd. destruct deleted_sole as [Hn' Hl'].
  apply (dir_entry_agree m' (unnamed (no_inode ino parent m) parent name idx)) in Hd; [|by eapply same_dirs_sym, inode_edit_dirs].
  apply (unnamed_dir_entry _ _ _ _ _ Hn' l0 Hl') in Hd as [Hx _]. by apply Hx.
Qed.

(** Items of other inodes, the parent's aside. *)
Lemma deleted_other k : objID k <> ino -> objID k <> parent -> m' !! k = m !! k.
Proof using He.
  intros H1 H2. rewrite (inode_edit_frame _ _ _ _ _ He) by (intros ->; done).
  apply (unnamed_rest m ino parent name idx). unfold touched. intros [?|[->|[->| ->]]]; done.
Qed.
Lemma deleted_resolves q j : in_num j <> ino -> in_num j <> parent -> resolves m q j -> resolves m' q j.
Proof using All.
  intros H1 H2 (Hp&d&Ed&Hd). split; [by apply deleted_path|]. exists d. by rewrite deleted_other.
Qed.
End Deleted.

(** The lookups of [DeleteFile] before the removal. *)
Lemma sole_name_entry m parent name idx e : sole_name m parent name idx e -> dir_entry m parent name e.
Proof.
  intros [H1 H2 H3 H4 _ _]. left. exists (entry_item e name). split; [done|]. rewrite entry_in_item by done. by rewrite bool_decide_eq_true_2.
Qed.
Lemma fs_entry_run `{HL : SafeIOLaws} {D : Type} `{RWL : RWLaws D} partOff t dv (w : txState D) h m parent name idx e :
  repr partOff trees t dv w h m -> Z.of_nat h <= maxBtreeDepth -> is_u64 parent -> sole_name m parent name idx e ->
  fs_entry partOff parent name w = (w, Ok e).
Proof.
  intros Hr Hlow Hup Hn. pose proof (sole_name_entry _ _ _ _ _ Hn) as He. apply wp_is.
  eapply (fs_entry_spec partOff trees never t dv w h m); [done|done| |].
  - intros r _ Hr'. split; [done|]. by eapply dir_entry_fun; [apply Hr'|].
  - intros x Hx. by destruct (Hx Hlow e).
Qed.
Lemma deleteFile_run `{HL : SafeIOLaws} {D : Type} `{RWL : RWLaws D} `{CK : Clock} partOff t dv (w : txState D) h m p pi ino idx ft :
  repr partOff trees t dv w h m -> Z.of_nat h <= maxBtreeDepth -> resolves m (splitPath p).1 pi ->
  sole_name m (in_num pi) (splitPath p).2 idx (ino, ft) -> ft <> ftDir ->
  deleteFile partOff p w = removeInode partOff ino (in_num pi) (splitPath p).2 w.
Proof.
  intros Hr Hlow Hpi Hn Ht. unfold deleteFile. destruct (splitPath p) as [dir name]. cbn [fst snd] in *.
  assert (Hup : is_u64 (in_num pi)) by (eapply path_to_u64; [|apply Hpi]; unfold is_u64, rootDirObjID; lia).
  assert (E1 : pathLookupIno partOff dir w = (w, Ok (in_num pi))) by (unfold pathLookupIno; by erewrite sm_bind_Ok by (by eapply fs_path_run)).
  assert (E2 : fs_entry partOff (in_num pi) name w = (w, Ok (ino, ft))) by (by eapply fs_entry_run).
  rewrite (sm_bind_Ok _ _ _ _ _ E1), (sm_bind_Ok _ _ _ _ _ E2). cbv beta iota. by rewrite (proj2 (Z.eqb_neq _ _) Ht).
Qed.
(** A name that has no entry leads nowhere. *)
Lemma Stat_gone `{HL : SafeIOLaws} {D : Type} `{RWL : RWLaws D} partOff t dv (w : txState D) h m p parent :
  repr partOff trees t dv w h m -> (splitPath p).2 <> [] -> (splitPath p).2 <> dot ->
  path_to m (path_parts (splitPath p).1) rootDirObjID parent -> (forall r, ~ dir_entry m parent (splitPath p).2 r) ->
  exists e, Stat partOff p w = (w, Err e).
Proof.
  intros Hr Hn1 Hn2 Hp Hno. assert (Hwp : wp never (Stat partOff p) w (fun _ _ => False) (fun _ w'' => w'' = w)).
  { unfold Stat. apply wp_bind. eapply (fs_path_spec partOff trees never t _ w h m); [exact Hr| |done]. intros j _ _ (Hj&_). exfalso.
    destruct (splitPath_parts p) as [(Ep&_)|(_&_&[?|?])]; [|done..]. rewrite Ep in Hj. apply path_to_app in Hj as (mid&Hm1&Hm2).
    rewrite (path_to_fun _ _ _ _ _ Hm1 Hp) in Hm2. destruct Hm2 as (r&Hr2&_). by apply (Hno r). }
  unfold wp in Hwp. destruct (Stat partOff p w) as [w'' [v|e| |]]; try done. rewrite Hwp. by exists e.
Qed.

(** The run of [DeleteFile] on a file with one name. *)
Lemma delete_run `{HL : SafeIOLaws} {D : Type} `{RWL : RWLaws D} `{CK : Clock} (partOff : Z)
    (t : Prop) (dv : dataView) (w : txState D) (h : nat) (m : gmap key bytes) (p : bytes) (pi i : inodeItem) (idx ft : Z) (l : list rec) :
  (forall n, time_ok (clock_at n)) -> partOff + superblockOffset + sbfSize <= dv_size dv ->
  repr partOff trees t dv w h m -> Z.of_nat h <= maxBtreeDepth -> (t -> (h <= 1)%nat) -> inodes_ok m -> exts_ok m ->
  deletable partOff dv w m p pi i idx ft l ->
  match deleteFile partOff p w with
  | (w', Ok _) => removed partOff t dv w m (in_num i) (in_num pi) (splitPath p).2 idx l w'
  | (w', Err _) => rest_salvaged partOff t dv w m (in_num i) (in_num pi) (splitPath p).2 idx l w'
  | (w', Panic) => full (tx_cow w')
  | (_, NoFuel) => False
  end.
Proof.
  intros Hclock Hroom Hr Hlow Hshort Hok Hex [Hpi (Hn&Hux&Hn1&Hn2) Ht (Hres&Hnl&Hne) Hleaf (Hl&Hheld) (Hb1&Hb2)].
  assert (Hroot : is_u64 rootDirObjID) by (unfold is_u64, rootDirObjID; lia).
  assert (Hui : is_u64 (in_num i)) by (by eapply path_to_u64; [|apply Hres]).
  assert (Hup : is_u64 (in_num pi)) by (by eapply path_to_u64; [|apply Hpi]).
  pose proof Hres as (Hp&d0&Ed0&Hdec). pose proof Hpi as (Hpp&dp&Edp&_).
  rewrite decode_inode_spec in Hdec. case_if_in Hdec; [done|]. injection Hdec as Ei.
  assert (Hsn : is_NLink (stat_of (in_num i) d0) <= 1) by (cbn; by rewrite <- (f_equal in_nlink Ei) in Hnl).
  rewrite (deleteFile_run partOff t dv w h m p pi (in_num i) idx ft Hr Hlow Hpi Hn Ht).
  exact (removeInode_spec partOff Hclock (fun w' => full (tx_cow w')) ltac:(done) t dv w h m Hr Hlow Hshort Hok Hex Hroom (in_num i) (in_num pi)
    (splitPath p).2 idx ft d0 dp Hui Hup Hux Hne Hn1 Ed0 Edp Hn Hsn l Hl Hheld Hb1 Hb2
    (fun _ w' => rest_salvaged partOff t dv w m (in_num i) (in_num pi) (splitPath p).2 idx l w') (fun _ _ Hs => Hs)).
Qed.

(** C14. [DeleteFile] of a file with one name: when the call succeeds, the path leads nowhere
    and every other file, whatever its path, keeps its inode and, unless it shares disk
    ranges with the deleted content, its bytes; the items of the inode, its
    two directory entries and nothing else are gone, and the parent's size and times are
    updated.  When it fails, the tree the file system holds still has every item but those
    of the file's inode, the two directory entries of the name and the inode item of the
    parent ([rest_kept]), unless the failed step was one of the two prefix deletions: then
    those items are in a tree on the device whose root the file system does not hold
    ([rest_root_lost]). *)
Theorem deleteFile_removes `{HL : SafeIOLaws} `{HD : DecodersLaws} {D : Type} `{RWL : RWLaws D} `{CK : Clock} (partOff : Z)
    (t : Prop) (dv : dataView) (w : txState D) (h : nat) (m : gmap key bytes) (p : bytes) (pi i : inodeItem) (idx ft dev : Z) (l : list rec) :
  (forall n, time_ok (clock_at n)) -> partOff + superblockOffset + sbfSize <= dv_size dv ->
  repr partOff trees t dv w h m -> Z.of_nat h <= maxBtreeDepth -> (t -> (h <= 1)%nat) -> inodes_ok m -> exts_ok m ->
  deletable partOff dv w m p pi i idx ft l -> dev < 2 ^ 63 ->
  match deleteFile partOff p w with
  | (w', Ok _) => removed partOff t dv w m (in_num i) (in_num pi) (splitPath p).2 idx l w' /\
      (exists e, Stat partOff p w' = (w', Err e)) /\
      forall q j b, resolves m q j -> in_num j <> in_num i -> in_num j <> in_num pi -> isRegular j = true -> in_size j = blen b -> blen b <= dev ->
        file_data partOff (tx_sb w) (dv_rest dv w l) m (in_num j) b -> ReadFile partOff dev q w' = (w', Ok b)
  | (w', Err _) => rest_salvaged partOff t dv w m (in_num i) (in_num pi) (splitPath p).2 idx l w'
  | (w', Panic) => full (tx_cow w')
  | (_, NoFuel) => False
  end.
Proof.
  intros Hclock Hroom Hr Hlow Hshort Hok Hex Hdel Hdev.
  pose proof (delete_run partOff t dv w h m p pi i idx ft l Hclock Hroom Hr Hlow Hshort Hok Hex Hdel) as Hw.
  destruct (deleteFile _ _ _) as [w' [[]|e| |]]; try done. split; [done|]. destruct Hdel as [Hpi (Hn&_&Hn1&Hn2) _ (Hres&_&Hne) Hleaf _ _].
  destruct (repr_prefix _ _ _ _ _ _ _ (in_num pi) typeDirIndex Hr) as [l0 Hl0]. pose proof Hpi as (Hpp&_).
  destruct Hw as (h'&m'&now&Hlow'&Hr'&Hcom&_&He). destruct (committed_sector _ _ Hcom) as [_ Esb]. split.
  - eapply (Stat_gone partOff t _ w' h' m' p (in_num pi)); [exact Hr'|done|done| |].
    + by eapply (deleted_path m m' _ _ _ idx ft _ Hn l0 Hl0 Hne Hleaf He).
    + intros r. by eapply (deleted_entry m m' _ _ _ idx ft _ Hn l0 Hl0 Hne Hleaf He).
  - intros q j b Hq H1 H2 Hj Hs Hb Hd. eapply (ReadFile_run partOff trees t _ w' h' m' (tx_sb w) q j); [exact Hr'|done| |done|done| |done|lia].
    + by eapply (deleted_resolves m m' _ _ _ idx ft _ Hn l0 Hl0 Hne Hleaf He).
    + eapply file_data_frame; [done| |exact Hd]. intros k Ho Hk. eapply (deleted_other m m'); [exact He|congruence|congruence].
Qed.
