(* ===== verification/Links.v ===== *)
(** * Hard links (link.go, delete.go)

    [Link] gives an inode another name, [DeleteFile] of an inode with several names takes
    one away: the names, the back references, the link count and the directories, followed
    through every step and every error. *)
From Stdlib Require Import ZArith Lia Strings.Byte.
From stdpp Require Import base option list numbers sorting gmap.
From S2P Require Import Prelude Bytes Alloc Layout SafeIO Chunk Node BTree Walk Split Crc32c Cow Store CowCorrect.
From S2P Require Import Codec Read FileRead Tx Extent Ops FsTree DeletePrefix FsLookup InodeEdit Rebuild FsData ExtentLayout ExtentWrite.
From S2P Require Import CommitCorrect InodeOps Entries Paths Create CreateApi XattrOps Overwrite Remove.
Local Open Scope Z_scope.
Local Open Scope btrfs_scope.

(** ** What may change *)

(** Nothing of [m] is lost in [m'], apart from the content of the items in [P]. *)
Definition keeps (P : key -> Prop) (m m' : gmap key bytes) : Prop :=
  forall k d, m !! k = Some d -> m' !! k = Some d \/ P k /\ is_Some (m' !! k).

#[global] Instance keeps_preorder P : PreOrder (keeps P).
Proof.
  split; [by left|]. intros a b c H1 H2 k d E. destruct (H1 k d E) as [E1|[HP [x E1]]]; [by apply H2|right].
  split; [done|]. destruct (H2 k x E1) as [->|[_ ?]]; [by eexists|done].
Qed.
Lemma keeps_insert (P : key -> Prop) m k d : (m !! k <> None -> P k) -> keeps P m (<[k := d]> m).
Proof.
  intros HP k' d' E. destruct (decide (k = k')) as [->|Hne].
  - right. rewrite lookup_insert_eq. split; [apply HP; congruence|done].
  - left. by rewrite lookup_insert_ne.
Qed.
Lemma keeps_edit (P : key -> Prop) m m' ino f : inode_edit m m' ino f -> P (inodeKey ino) -> keeps P m m'.
Proof. intros (d&d'&_&->&_) HP. by apply keeps_insert. Qed.
Lemma keeps_sub (P : key -> Prop) m m0 m' : m0 ⊆ m -> keeps P m m' -> keeps P m0 m'.
Proof. intros Hs H k d E. apply H. by eapply lookup_weaken. Qed.

(** ** Back references *)
Definition refKey (ino parent : Z) : key := Key ino typeInodeRef parent.

(** The item after a name was added, and after one was removed. *)
Definition ref_added (old : option bytes) (idx : Z) (name new : bytes) : Prop :=
  match old with
  | None => new = encodeInodeRef idx name
  | Some d => exists es, parseInodeRefEntries d = Ok es /\
      new = match append_ref es idx name with None => d | Some es' => encodeInodeRefEntries es' end
  end.
Definition ref_removed (old : option bytes) (name : bytes) (new : option bytes) : Prop :=
  match old with
  | None => new = None
  | Some d => exists es, parseInodeRefEntries d = Ok es /\
      new = match keep_refs es name with [] => None | kept => Some (encodeInodeRefEntries kept) end
  end.

Lemma parseInodeRefEntries_loop_ok fuel d off :
  0 <= off -> blen d < off + Z.of_nat fuel + 10 -> exists es, parseInodeRefEntries_loop fuel d off = Ok es.
Proof.
  revert off. induction fuel as [|fuel IH]; intros off Ho Hf; cbn [parseInodeRefEntries_loop]; (case_if; [|by eexists]); [lia|].
  rewrite (get_le_Ok 8) by lia. cbn [mbind outcome_bind]. rewrite (get_le_Ok 2) by lia. cbn [mbind outcome_bind].
  pose proof (rd_range 2 d (off + 8)). case_if; [by eexists|]. rewrite slice_Ok by lia. cbn [mbind outcome_bind].
  destruct (IH (off + (10 + rd 2 d (off + 8)))) as [es ->]; [lia|lia|]. by eexists.
Qed.
Lemma parseInodeRefEntries_ok d : exists es, parseInodeRefEntries d = Ok es.
Proof. apply parseInodeRefEntries_loop_ok; unfold blen; lia. Qed.
Lemma encodeInodeRefEntries_nonempty e es : encodeInodeRefEntries (e :: es) <> [].
Proof. unfold encodeInodeRefEntries. cbn [map concat]. intros E. apply app_eq_nil in E as [E _]. by eapply encodeInodeRef_nonempty. Qed.
Lemma append_ref_nonempty es idx name es' : append_ref es idx name = Some es' -> encodeInodeRefEntries es' <> [].
Proof.
  unfold append_ref. destruct (existsb _ es); [done|]. intros [= <-]. destruct es as [|e es]; apply encodeInodeRefEntries_nonempty.
Qed.

(** ** The steps *)
Section Steps.
Context `{HL : SafeIOLaws} {D : Type} `{RWL : RWLaws D} `{CK : Clock} (partOff : Z) (R : keeper) `{HR : !Stable R}.
Context (Hclock : forall n, time_ok (clock_at n)).
Context (X : txState D -> Prop).
Abbreviation W := (txState D).
Abbreviation repr := (repr partOff R).

Lemma appendInodeRef_spec (t : Prop) dv w h m ino parent idx name di (Q : unit -> W -> Prop) E :
  t -> repr t dv w h m -> is_u64 ino -> is_u64 parent -> m !! inodeKey ino = Some di ->
  (forall w' h' d, ref_added (m !! refKey ino parent) idx name d -> repr t dv w' h' (<[refKey ino parent := d]> m) -> next w w' -> Q tt w') ->
  (forall e w', repr t dv w' h m -> next w w' -> E e w') ->
  wp X (appendInodeRef partOff ino parent idx name) w Q E.
Proof using HL RWL HR.
  intros Ht Hr Hui Hup Ed HQ HE. unfold appendInodeRef. fold (refKey ino parent).
  assert (Hk : key_ok (refKey ino parent)) by (unfold refKey; key_tac).
  apply wp_bind, wp_try. eapply (fs_search_spec partOff R never t dv w h m); [done|done| |].
  - intros buf it d _ Er -> _. destruct (parseInodeRefEntries_ok d) as [es Es]. wp_ok Es. rewrite Er in HQ.
    destruct (append_ref es idx name) as [es'|] eqn:Ea.
    + eapply (fs_update_spec partOff R X t dv w h m); [done|done|by eapply append_ref_nonempty| |done].
      intros w' h' _ _ _ Hr' Hn. eapply HQ; [|exact Hr'|done]. exists es. by rewrite Ea.
    + apply wp_ret. apply (HQ w h d); [|by rewrite insert_id|done]. exists es. by rewrite Ea.
  - intros e He. eapply (fs_insert_spec partOff R X t dv w h m); [done|done|done|intros Hh; by apply He| |apply encodeInodeRef_nonempty| |done].
    + intros _. eapply covered_parent; [exact Ed|done|done|]. by right.
    + intros w' h' Hh Hr' Hn. eapply HQ; [|exact Hr'|done]. destruct (He Hh) as [-> _]. done.
Qed.

Lemma removeInodeRef_spec (t : Prop) dv w h m ino parent name di (Q : unit -> W -> Prop) E :
  repr t dv w h m -> Z.of_nat h <= maxBtreeDepth -> (t -> (h <= 1)%nat) -> is_u64 ino -> is_u64 parent -> m !! inodeKey ino = Some di ->
  (forall w' h' o, (h' <= h)%nat -> ref_removed (m !! refKey ino parent) name o ->
     repr t dv w' h' (partial_alter (fun _ => o) (refKey ino parent) m) -> next w w' -> Q tt w') ->
  (forall e w', repr t dv w' h m -> next w w' -> E e w') ->
  wp X (removeInodeRef partOff ino parent name) w Q E.
Proof using HL RWL HR.
  intros Hr Hh Hs Hui Hup Ed HQ HE. unfold removeInodeRef. fold (refKey ino parent).
  assert (Hk : key_ok (refKey ino parent)) by (unfold refKey; key_tac).
  apply wp_bind, wp_try. eapply (fs_search_spec partOff R never t dv w h m); [done|done| |].
  - intros buf it d _ Er -> _. destruct (parseInodeRefEntries_ok d) as [es Es]. wp_ok Es. rewrite Er in HQ.
    destruct (keep_refs es name) as [|e0 kept] eqn:Ea.
    + eapply (delete_key_spec partOff R X t dv w h m _ (inodeKey ino) di); [done..| |done]. intros w' h' Hle Hr' Hn.
      apply (HQ w' h' None Hle); [|done|done]. exists es. by rewrite Ea.
    + eapply (fs_update_spec partOff R X t dv w h m); [done|done|apply encodeInodeRefEntries_nonempty| |done].
      intros w' h' Hle _ _ Hr' Hn. apply (HQ w' h' (Some (encodeInodeRefEntries (e0 :: kept))) Hle); [|done|done]. exists es. by rewrite Ea.
  - intros e He. destruct (He Hh) as [En _]. apply wp_ret. apply (HQ w h None); [done|by rewrite En| |done].
    change (partial_alter _ _ m) with (delete (refKey ino parent) m). by rewrite delete_id.
Qed.

(** The entries of a new name. *)
Lemma insert_name_spec (t : Prop) dv w h m ino parent name ft dp (P : key -> Prop) (K : Z -> SM W unit) (Q : unit -> W -> Prop) E :
  t -> repr t dv w h m -> dirs_numbered m -> is_u64 ino -> is_u64 parent -> m !! inodeKey parent = Some dp ->
  m !! Key parent typeDirItem (hashDirName name) = None ->
  (forall w' h' idx, index_fresh m parent idx -> is_u64 idx -> repr t dv w' h' (named m parent name idx (ino, ft)) -> next w w' -> wp X (K idx) w' Q E) ->
  (forall e w' h' m', repr t dv w' h' m' -> keeps P m m' -> next w w' -> E e w') ->
  wp X (idx ← nextDirIndexOffset partOff parent;
        _ ← fs_insert partOff (Key parent typeDirIndex idx) (encodeDirItem ino typeInodeItem ft name);
        _ ← fs_insert partOff (Key parent typeDirItem (hashDirName name)) (encodeDirItem ino typeInodeItem ft name);
        K idx) w Q E.
Proof using HL RWL HR.
  intros Ht Hr Hnum Hui Hup Edp Hslot HK HE.
  apply wp_bind, (nextDirIndexOffset_spec partOff R X t dv w h m); [done|done|]. intros idx Hidx Hfresh.
  set (k1 := Key parent typeDirIndex idx). set (k2 := Key parent typeDirItem (hashDirName name)).
  assert (Hk1 : key_ok k1) by (unfold k1; key_tac). assert (Hk2 : key_ok k2) by (unfold k2; key_tac).
  assert (E1 : Z.of_nat h <= maxBtreeDepth -> m !! k1 = None).
  { intros Hh. destruct (Hfresh Hh) as [_ Hf]. destruct (m !! k1) as [x|] eqn:Ex; [|done]. specialize (Hf k1 x Ex eq_refl eq_refl). cbn in Hf. lia. }
  apply wp_bind. eapply (fs_insert_spec partOff R X t dv w h m); [done|done|done|done| |apply encodeDirItem_nonempty| |].
  { intros _. eapply covered_parent; [exact Edp|done|done|]. by right. }
  2: { intros e w' Hr' Hn. by eapply HE. }
  intros w1 h1 Hh Hr1 Hn1. set (m1 := <[k1 := _]> m) in *.
  assert (E2 : m1 !! k2 = None) by (unfold m1; by rewrite lookup_insert_ne).
  assert (P1 : m1 !! inodeKey parent = Some dp) by (unfold m1; by rewrite lookup_insert_ne).
  apply wp_bind. eapply (fs_insert_spec partOff R X t dv w1 h1 m1); [done|done|done|done| |apply encodeDirItem_nonempty| |].
  { intros _. eapply covered_parent; [exact P1|done|done|]. by right. }
  2: { intros e w' Hr' Hn. eapply HE; [exact Hr'| |by etrans]. apply keeps_insert. intros Hx. by rewrite E1 in Hx. }
  intros w2 h2 _ Hr2 Hn2. apply (HK w2 h2 idx (Hfresh Hh) Hidx); [exact Hr2|by etrans].
Qed.

(** The tail of an edit of an inode: transaction id, sequence and change time. *)
Lemma change_inode_spec (t : Prop) dv w h m ino d d1 f (K : SM W unit) (Q : unit -> W -> Prop) E :
  repr t dv w h m -> is_u64 ino -> m !! inodeKey ino = Some d -> inodeItemSize <= blen d -> blen d1 = blen d ->
  stat_of ino d1 = f (stat_of ino d) ->
  (forall w' h' m' now, (h' <= h)%nat -> Z.of_nat h' <= maxBtreeDepth -> repr t dv w' h' m' -> time_ok now ->
     inode_edit m m' ino (fun s => st_change (next_gen (tx_sb w)) now (f s)) -> next w w' -> wp X K w' Q E) ->
  (forall e w', repr t dv w' h m -> next w w' -> E e w') ->
  wp X (sb ← sm_gets tx_sb; d ← sm_lift (bumpInodeTransIDSequence d1 (next_gen sb)); now ← Now;
        d ← sm_lift (put_time d inodeOffCTime now); _ ← fs_update partOff (inodeKey ino) d; K) w Q E.
Proof using HL RWL HR Hclock.
  intros Hr Hu Ed Hd L1 S1 HK HE. apply wp_bind, wp_gets, wp_bind. assert (Hok1 : inodeItemSize <= blen d1) by lia.
  pose proof (fun now Ht => edit_change ino d1 Hok1 (next_gen (tx_sb w)) now (u64_range _) Ht) as Hch.
  assert (Hb : exists d2, bumpInodeTransIDSequence d1 (next_gen (tx_sb w)) = Ok d2).
  { destruct (Hch (clock_at 0%nat) (Hclock _)) as (dx&Ex&_). apply outcome_bind_Ok in Ex as (d2&Ex&_). by exists d2. }
  destruct Hb as [d2 Eb]. eapply wp_lift_ok; [exact Eb|]. apply wp_bind, (now_spec partOff R Hclock X t dv w h m); [done|].
  intros w1 now Ht Hr1 Hn1. destruct (Hch now Ht) as (d3&E3&L3&S3). rewrite Eb in E3. cbn [mbind outcome_bind] in E3.
  wp_ok E3. apply wp_bind.
  eapply (put_inode_spec partOff R X t dv w1 h m ino d d3 (fun s => st_change (next_gen (tx_sb w)) now (f s))); [done|done|done|lia|done| | |].
  - by rewrite S3, S1.
  - intros w2 h2 m2 Hle Hlow Hr2 He2 Hn2. apply (HK w2 h2 m2 now); try done. by etrans.
  - intros e w2 Hr2 Hn2. apply HE; [done|by etrans].
Qed.
End Steps.

(** ** A new name for an inode *)

(** What [linkInode] does to the inode, and [adjustDirSize] to the directory. *)
Definition link_up (gen : Z) (now : timespec) (s : InodeStat) : InodeStat := st_change gen now (st_nlink (u32 (is_NLink s + 1)) s).
Definition dir_grown (name : bytes) (s : InodeStat) : InodeStat := st_size (dir_size (is_Size s) (dirEntrySizeDelta name)) s.

Definition linked (m m' : gmap key bytes) (ino parent : Z) (name : bytes) (ft gen : Z) : Prop :=
  exists idx now d m3, index_fresh m parent idx /\ is_u64 idx /\ time_ok now /\ ref_added (m !! refKey ino parent) idx name d /\
    inode_edit (<[refKey ino parent := d]> (named m parent name idx (ino, ft))) m3 ino (link_up gen now) /\
    inode_edit m3 m' parent (dir_grown name).
(** The items that hold something else afterwards. *)
Definition relinked (ino parent : Z) (k : key) : Prop := k = inodeKey ino \/ k = inodeKey parent \/ k = refKey ino parent.

Lemma named_inode m parent name idx e j : named m parent name idx e !! inodeKey j = m !! inodeKey j.
Proof. unfold named. by rewrite !lookup_insert_ne. Qed.
Lemma named_exts m parent name idx e : exts_ok m -> exts_ok (named m parent name idx e).
Proof. intros Hm. unfold named. apply exts_ok_insert; [apply exts_ok_insert; [done|]|]; by intros ?. Qed.
Lemma named_keeps P m parent name idx e :
  index_fresh m parent idx -> m !! Key parent typeDirItem (hashDirName name) = None -> keeps P m (named m parent name idx e).
Proof.
  intros [_ Hf] Hs. unfold named. etrans; apply keeps_insert; intros Hx; exfalso; apply Hx.
  - destruct (m !! Key parent typeDirIndex idx) as [d|] eqn:Ed; [|done]. specialize (Hf _ _ Ed eq_refl eq_refl). cbn in Hf. lia.
  - by rewrite lookup_insert_ne.
Qed.

Section Link.
Context `{HL : SafeIOLaws} {D : Type} `{RWL : RWLaws D} `{CK : Clock} (partOff : Z).
Context (Hclock : forall n, time_ok (clock_at n)).
Context (X : txState D -> Prop) (HX : forall w' : txState D, full (tx_cow w') -> X w').
Abbreviation W := (txState D).
Abbreviation repr := (repr partOff trees).
Context (t : Prop) (Ht : t) (dv : dataView) (w : W) (h : nat) (m : gmap key bytes) (Hr : repr t dv w h m).
Context (Hok : inodes_ok m) (Hex : exts_ok m) (Hnum : dirs_numbered m) (Hroom : partOff + superblockOffset + sbfSize <= dv_size dv).
Context (ino parent : Z) (name : bytes) (ft : Z) (di dp : bytes).
Context (Hui : is_u64 ino) (Hup : is_u64 parent) (Hname : name <> []).
Context (Hdi : m !! inodeKey ino = Some di) (Hdp : m !! inodeKey parent = Some dp).
Context (Hslot : m !! Key parent typeDirItem (hashDirName name) = None).

Definition linked_after (w' : W) : Prop :=
  exists h' m', Z.of_nat h' <= maxBtreeDepth /\ repr t dv w' h' m' /\ linked m m' ino parent name ft (next_gen (tx_sb w)) /\
    committed (tx_sb w) (tx_sb w').
Definition link_failed (w' : W) : Prop :=
  exists h' m', FsTree.repr partOff any_rest t dv w' h' m' /\ keeps (relinked ino parent) m m' /\ committed (tx_sb w) (tx_sb w').

Lemma link_steps_spec (E : error -> W -> Prop) :
  (forall e w', link_failed w' -> E e w') ->
  wp X (idxOff ← nextDirIndexOffset partOff parent;
        _ ← fs_insert partOff (Key parent typeDirIndex idxOff) (encodeDirItem ino typeInodeItem ft name);
        _ ← fs_insert partOff (Key parent typeDirItem (hashDirName name)) (encodeDirItem ino typeInodeItem ft name);
        _ ← appendInodeRef partOff ino parent idxOff name;
        '(inBuf, it) ← fs_search partOff (inodeKey ino);
        nlink ← sm_lift (Uint32 (item_copy inBuf it) inodeOffNLink);
        d ← sm_lift (PutUint32 (item_copy inBuf it) inodeOffNLink (u32 (nlink + 1)));
        sb ← sm_gets tx_sb;
        d ← sm_lift (bumpInodeTransIDSequence d (next_gen sb));
        now ← Now;
        d ← sm_lift (put_time d inodeOffCTime now);
        _ ← fs_update partOff (inodeKey ino) d;
        _ ← adjustDirSize partOff parent (dirEntrySizeDelta name);
        commit partOff) w (fun _ w' => linked_after w') E.
Proof using All.
  intros HE. set (P := relinked ino parent).
  assert (HE1 : forall e w' h' m', repr t dv w' h' m' -> keeps P m m' -> next w w' -> E e w').
  { intros e w' h' m' Hr' Hk Hn. apply HE. exists h', m'. split_and!; [by eapply repr_any|done|]. rewrite Hn. apply committed_refl. }
  eapply (insert_name_spec partOff trees X t dv w h m ino parent name ft dp P); try done.
  intros w1 h1 idx Hfr Hidx Hr1 Hn1. set (m1 := named m parent name idx (ino, ft)) in *.
  assert (K1 : keeps P m m1) by (by apply named_keeps).
  assert (I1 : m1 !! inodeKey ino = Some di) by (unfold m1; by rewrite named_inode).
  assert (Er : m1 !! refKey ino parent = m !! refKey ino parent) by (unfold m1, named; by rewrite !lookup_insert_ne).
  apply wp_bind, (appendInodeRef_spec partOff trees X t dv w1 h1 m1 ino parent idx name di); try done.
  2: { intros e w' Hr' Hn. eapply HE1; [exact Hr'|done|by etrans]. }
  rewrite Er. intros w2 h2 d Hd Hr2 Hn2. set (m2 := <[refKey ino parent := d]> m1) in *.
  assert (K2 : keeps P m m2) by (etrans; [exact K1|apply keeps_insert; intros _; by right; right]).
  assert (I2 : m2 !! inodeKey ino = Some di) by (unfold m2; by rewrite lookup_insert_ne).
  assert (Hok2 : inodes_ok m2) by (intros j x; unfold m2, m1; rewrite lookup_insert_ne, named_inode by done; apply Hok).
  assert (Hex2 : exts_ok m2) by (apply exts_ok_insert; [by apply named_exts|by intros ?]).
  assert (Hn02 : next w w2) by (by etrans).
  apply wp_bind. eapply (fs_search_spec partOff trees X t dv w2 h2 m2); [done|key_tac| |intros e _; by eapply HE1].
  intros buf it d' _ Ed _ Ecp. assert (d' = di) as -> by congruence. cbv beta iota. rewrite Ecp. specialize (Hok2 _ _ Ed) as Hdl.
  assert (E1 : Uint32 di inodeOffNLink = Ok (rd 4 di inodeOffNLink)) by (apply get_le_Ok; stat_offs; lia). wp_ok E1.
  destruct (edit_nlink ino di Hdl (u32 (rd 4 di inodeOffNLink + 1))) as (d1&E2&L1&S1); [unfold u32; apply Z.mod_pos_bound; lia|]. wp_ok E2.
  eapply (change_inode_spec partOff trees Hclock X t dv w2 h2 m2 ino di d1 (fun s => st_nlink (u32 (is_NLink s + 1)) s)); try done.
  2: { intros e w' Hr' Hn. eapply HE1; [exact Hr'|done|by etrans]. }
  rewrite Hn02. intros w3 h3 m3 now _ _ Hr3 Hnow He3 Hn3.
  assert (K3 : keeps P m m3) by (etrans; [exact K2|eapply keeps_edit; [exact He3|by left]]).
  assert (Hn03 : next w w3) by (by etrans).
  apply wp_bind. eapply (adjustDirSize_low_spec partOff trees X t dv w3 h3 m3); [done|done|by eapply inodes_ok_edit| | |].
  { unfold dirEntrySizeDelta. destruct name; [done|]. unfold blen. cbn [length]. lia. }
  2: { intros e w' Hr' Hn. eapply HE1; [exact Hr'|done|by etrans]. }
  intros w4 h4 m4 Hlow4 Hr4 He4 Hn4. assert (Hn04 : next w w4) by (by etrans).
  eapply (commit_spec partOff X dv Hroom t w4 h4 m4); [done| |done| |].
  - eapply exts_ok_edit; [|exact He4]. by eapply exts_ok_edit.
  - intros w5 Hr5 Hc5 _ _ _. exists h4, m4. rewrite Hn04 in Hc5. split_and!; try done. by exists idx, now, d, m3.
  - intros e w5 Hr5 Hc5 _. apply HE. exists h4, m4. rewrite Hn04 in Hc5. split_and!; [done| |done].
    etrans; [exact K3|]. eapply keeps_edit; [exact He4|by right; left].
Qed.
End Link.

(** ** Taking a name away *)
Definition link_down (gen : Z) (now : timespec) (s : InodeStat) : InodeStat := st_change gen now (st_nlink (is_NLink s - 1) s).

Definition unlinked (m m' : gmap key bytes) (ino parent : Z) (name : bytes) (idx gen : Z) : Prop :=
  exists now now' o m3, time_ok now /\ time_ok now' /\ ref_removed (m !! refKey ino parent) name o /\
    inode_edit (partial_alter (fun _ => o) (refKey ino parent) (unnamed m parent name idx)) m3 ino (link_down gen now) /\
    inode_edit m3 m' parent (entry_removed name gen now').
(** What is there apart from the name and its back references. *)
Definition nameless (m : gmap key bytes) (ino parent : Z) (name : bytes) (idx : Z) : gmap key bytes :=
  delete (refKey ino parent) (unnamed m parent name idx).

Lemma unnamed_inode m parent name idx j : unnamed m parent name idx !! inodeKey j = m !! inodeKey j.
Proof. unfold unnamed. by rewrite !lookup_delete_ne. Qed.
Lemma unnamed_ref m parent name idx ino p : unnamed m parent name idx !! refKey ino p = m !! refKey ino p.
Proof. unfold unnamed. by rewrite !lookup_delete_ne. Qed.
Lemma unnamed_le m parent name idx : unnamed m parent name idx ⊆ m.
Proof. unfold unnamed. etrans; apply delete_subseteq. Qed.
Lemma nameless_alter m ino parent name idx o : nameless m ino parent name idx ⊆ partial_alter (fun _ => o) (refKey ino parent) (unnamed m parent name idx).
Proof.
  apply map_subseteq_spec. intros k d. unfold nameless. rewrite lookup_delete_Some. intros [Hne E]. by rewrite lookup_partial_alter_ne.
Qed.
Lemma exts_ok_sub m m' : m' ⊆ m -> exts_ok m -> exts_ok m'.
Proof. intros Hs Hm k d E. apply Hm. by eapply lookup_weaken. Qed.

Section RemoveName.
Context `{HL : SafeIOLaws} {D : Type} `{RWL : RWLaws D} `{CK : Clock} (partOff : Z).
Context (X : txState D -> Prop).
Abbreviation W := (txState D).
Abbreviation repr := (repr partOff trees).
Context (t : Prop) (dv : dataView) (w : W) (h : nat) (m : gmap key bytes) (Hr : repr t dv w h m) (Hlow : Z.of_nat h <= maxBtreeDepth).
Context (Hshort : t -> (h <= 1)%nat).
Context (ino parent : Z) (name : bytes) (idx ft : Z) (di : bytes).
Context (Hui : is_u64 ino) (Hup : is_u64 parent) (Hux : is_u64 idx).
Context (Hdi : m !! inodeKey ino = Some di) (Hn : sole_name m parent name idx (ino, ft)).

(** The directory entries and the back reference of a name. *)
Lemma take_name_spec (P : key -> Prop) (K : SM W unit) (Q : unit -> W -> Prop) (E : error -> W -> Prop) :
  (forall w' h' o, (h' <= h)%nat -> ref_removed (m !! refKey ino parent) name o ->
     repr t dv w' h' (partial_alter (fun _ => o) (refKey ino parent) (unnamed m parent name idx)) -> next w w' -> wp X K w' Q E) ->
  (forall e w' h' m', repr t dv w' h' m' -> keeps P (nameless m ino parent name idx) m' -> next w w' -> E e w') ->
  wp X (_ ← delete_dir_index partOff parent name; _ ← delete_dir_item partOff parent name;
        _ ← removeInodeRef partOff ino parent name; K) w Q E.
Proof using HL RWL Hr Hlow Hshort Hui Hup Hux Hdi Hn.
  intros HK HE. assert (Hsh : forall h', (h' <= h)%nat -> t -> (h' <= 1)%nat) by (intros h' Hx Ht; specialize (Hshort Ht); lia).
  assert (HE1 : forall e w' h' m', repr t dv w' h' m' -> unnamed m parent name idx ⊆ m' -> next w w' -> E e w').
  { intros e w' h' m' Hr' Hs. apply (HE e w' h' m' Hr'). eapply keeps_sub; [|done]. etrans; [apply delete_subseteq|exact Hs]. }
  apply wp_bind. eapply (delete_dir_index_spec partOff trees X t dv w h m parent name idx (ino, ft) (inodeKey ino) di); try done.
  2: { intros e w' Hr' Hn'. eapply HE1; [exact Hr'|apply unnamed_le|done]. }
  intros w1 h1 Hle1 Hr1 Hn1. set (m1 := delete _ m) in Hr1.
  assert (I1 : m1 !! inodeKey ino = Some di) by (unfold m1; by rewrite lookup_delete_ne).
  apply wp_bind. unfold delete_dir_item. eapply (delete_maybe_spec partOff trees X t dv w1 h1 m1 _ (inodeKey ino) di);
    [done|lia|by apply Hsh|key_tac|done|done| |].
  2: { intros e w' Hr' Hn'. eapply HE1; [exact Hr'|apply delete_subseteq|by etrans]. }
  intros w2 h2 Hle2 Hr2 Hn2. change (delete _ m1) with (unnamed m parent name idx) in Hr2. assert (Hn02 : next w w2) by (by etrans).
  apply wp_bind. eapply (removeInodeRef_spec partOff trees X t dv w2 h2 (unnamed m parent name idx) ino parent name di);
    [done|lia|apply Hsh; lia|done|done|by rewrite unnamed_inode| |].
  2: { intros e w' Hr' Hn'. eapply HE1; [exact Hr'|done|by etrans]. }
  rewrite unnamed_ref. intros w3 h3 o Hle3 Ho Hr3 Hn3. apply (HK w3 h3 o); [lia|done|done|by etrans].
Qed.
End RemoveName.

Section Unlink.
Context `{HL : SafeIOLaws} {D : Type} `{RWL : RWLaws D} `{CK : Clock} (partOff : Z).
Context (Hclock : forall n, time_ok (clock_at n)).
Context (X : txState D -> Prop) (HX : forall w' : txState D, full (tx_cow w') -> X w').
Abbreviation W := (txState D).
Abbreviation repr := (repr partOff trees).
Context (t : Prop) (dv : dataView) (w : W) (h : nat) (m : gmap key bytes) (Hr : repr t dv w h m) (Hlow : Z.of_nat h <= maxBtreeDepth).
Context (Hshort : t -> (h <= 1)%nat) (Hok : inodes_ok m) (Hex : exts_ok m) (Hroom : partOff + superblockOffset + sbfSize <= dv_size dv).
Context (ino parent : Z) (name : bytes) (idx ft : Z) (di : bytes).
Context (Hui : is_u64 ino) (Hup : is_u64 parent) (Hux : is_u64 idx) (Hname : name <> []).
Context (Hdi : m !! inodeKey ino = Some di) (Hn : sole_name m parent name idx (ino, ft)).
Context (Hnl : 1 < is_NLink (stat_of ino di)).

Definition unlinked_after (w' : W) : Prop :=
  exists h' m', Z.of_nat h' <= maxBtreeDepth /\ repr t dv w' h' m' /\ unlinked m m' ino parent name idx (next_gen (tx_sb w)) /\
    committed (tx_sb w) (tx_sb w').
Definition unlink_failed (w' : W) : Prop :=
  exists h' m', FsTree.repr partOff any_rest t dv w' h' m' /\ keeps (relinked ino parent) (nameless m ino parent name idx) m' /\
    committed (tx_sb w) (tx_sb w').

Lemma unlinkInodeOnly_spec (E : error -> W -> Prop) :
  (forall e w', unlink_failed w' -> E e w') -> wp X (unlinkInodeOnly partOff ino parent name) w (fun _ w' => unlinked_after w') E.
Proof using All.
  intros HE. set (P := relinked ino parent). unfold unlinkInodeOnly.
  assert (HE1 : forall e w' h' m', repr t dv w' h' m' -> keeps P (nameless m ino parent name idx) m' -> next w w' -> E e w').
  { intros e w' h' m' Hr' Hk Hn'. apply HE. exists h', m'. split_and!; [by eapply repr_any|done|]. rewrite Hn'. apply committed_refl. }
  eapply (take_name_spec partOff X t dv w h m Hr Hlow Hshort ino parent name idx ft di Hui Hup Hux Hdi Hn P); [|exact HE1].
  intros w3 h3 o Hle3 Ho Hr3 Hn3. set (m3 := partial_alter _ _ _) in Hr3.
  assert (K3 : keeps P (nameless m ino parent name idx) m3) by (apply (keeps_sub P m3); [apply nameless_alter|done]).
  assert (F3 : forall j, m3 !! inodeKey j = m !! inodeKey j) by (intros j; unfold m3; by rewrite lookup_partial_alter_ne, unnamed_inode).
  assert (Hok3 : inodes_ok m3) by (intros j x; rewrite F3; apply Hok).
  assert (Hex3 : exts_ok m3).
  { intros k d Ed. destruct (decide (k = refKey ino parent)) as [->|Hk]; [by intros ?|]. unfold m3 in Ed.
    rewrite lookup_partial_alter_ne in Ed by done. apply Hex. eapply lookup_weaken; [exact Ed|apply unnamed_le]. }
  apply wp_bind. eapply (fs_search_spec partOff trees X t dv w3 h3 m3); [done|key_tac| |intros e _; by eapply HE1].
  intros buf it d' _ Ed _ Ecp. rewrite F3 in Ed. assert (d' = di) as -> by congruence. cbv beta iota. rewrite Ecp. specialize (Hok _ _ Hdi) as Hdl.
  assert (E1 : Uint32 di inodeOffNLink = Ok (rd 4 di inodeOffNLink)) by (apply get_le_Ok; stat_offs; lia). wp_ok E1.
  change (is_NLink (stat_of ino di)) with (rd 4 di inodeOffNLink) in Hnl. rewrite (proj2 (Z.ltb_lt _ _)) by lia.
  pose proof (rd_range 4 di inodeOffNLink) as Hrng.
  destruct (edit_nlink ino di Hdl (rd 4 di inodeOffNLink - 1)) as (d1&E2&L1&S1); [change (256 ^ Z.of_nat 4) with (2 ^ 32) in Hrng; lia|]. wp_ok E2.
  eapply (change_inode_spec partOff trees Hclock X t dv w3 h3 m3 ino di d1 (fun s => st_nlink (is_NLink s - 1) s)); try done; [by rewrite F3| |].
  2: { intros e w' Hr' Hn'. eapply HE1; [exact Hr'|done|by etrans]. }
  rewrite Hn3. intros w4 h4 m4 now _ _ Hr4 Hnow He4 Hn4.
  assert (K4 : keeps P (nameless m ino parent name idx) m4) by (etrans; [exact K3|eapply keeps_edit; [exact He4|by left]]).
  assert (Hn04 : next w w4) by (by etrans). assert (Hok4 : inodes_ok m4) by (by eapply inodes_ok_edit).
  apply wp_bind. eapply (adjustDirSize_low_spec partOff trees X t dv w4 h4 m4); [done|done|done| | |].
  { unfold dirEntrySizeDelta. destruct name; [done|]. unfold blen. cbn [length]. lia. }
  2: { intros e w' Hr' Hn'. eapply HE1; [exact Hr'|done|by etrans]. }
  intros w5 h5 m5 _ Hr5 He5 Hn5. assert (Hn05 : next w w5) by (by etrans).
  assert (K5 : keeps P (nameless m ino parent name idx) m5) by (etrans; [exact K4|eapply keeps_edit; [exact He5|by right; left]]).
  apply wp_bind. unfold touchDir. eapply (adjustDirNlink_spec partOff trees Hclock X t dv w5 h5 m5); [done|done|by eapply inodes_ok_edit| |].
  2: { intros e w' Hr' Hn'. eapply HE1; [exact Hr'|done|by etrans]. }
  rewrite Hn05. intros w6 h6 m6 now' Hlow6 Hr6 Hnow' He6 Hn6. assert (Hn06 : next w w6) by (by etrans).
  pose proof (inode_edit_trans _ _ _ _ _ _ He5 He6) as He.
  eapply (commit_spec partOff X dv Hroom t w6 h6 m6); [done| |done| |].
  - eapply exts_ok_edit; [|exact He]. by eapply exts_ok_edit.
  - intros w7 Hr7 Hc7 _ _ _. exists h6, m6. rewrite Hn06 in Hc7. split_and!; try done. by exists now, now', o, m4.
  - intros e w7 Hr7 Hc7 _. apply HE. exists h6, m6. rewrite Hn06 in Hc7. split_and!; [done| |done].
    etrans; [exact K4|]. eapply keeps_edit; [exact He|by right; left].
Qed.
End Unlink.
