(* ===== verification/LinkApi.v ===== *)
(** * [Link] and the removal of one of several names

    What the names of an inode lead to after [Link], and after a [DeleteFile] that leaves
    other names: the content is one, the link count follows the names. *)
From Stdlib Require Import ZArith Lia Strings.Byte.
From stdpp Require Import base option list numbers sorting gmap.
From S2P Require Import Prelude Bytes Alloc Layout SafeIO Chunk Node BTree Walk Split Crc32c Cow Store CowCorrect.
From S2P Require Import Codec Read FileRead Tx Extent Ops FsTree DeletePrefix FsLookup InodeEdit Rebuild FsData ExtentLayout ExtentWrite.
From S2P Require Import CommitCorrect InodeOps Entries Paths Create CreateApi XattrOps Overwrite Remove Links.
Local Open Scope Z_scope.
Local Open Scope btrfs_scope.

Definition with_nlink (i : inodeItem) (n : Z) : inodeItem := InodeItem (in_num i) (in_mode i) (in_size i) n.

(** An edit that changes of what a lookup sees only the link count. *)
Definition only_nlink (f : InodeStat -> InodeStat) (g : Z -> Z) : Prop :=
  forall s, is_Mode (f s) = is_Mode s /\ is_Size (f s) = is_Size s /\ is_NLink (f s) = g (is_NLink s).
Lemma link_up_only gen now : only_nlink (link_up gen now) (fun n => u32 (n + 1)).
Proof. by intros []. Qed.
Lemma link_down_only gen now : only_nlink (link_down gen now) (fun n => n - 1).
Proof. by intros []. Qed.

(** ** An inode and a directory edited one after the other *)
Section TwoEdits.
Context (m1 m2 m' : gmap key bytes) (ino parent : Z) (f g : InodeStat -> InodeStat) (n : Z -> Z).
Context (H1 : inode_edit m1 m2 ino f) (H2 : inode_edit m2 m' parent g) (Hf : only_nlink f n).

Lemma two_dirs : same_dirs m1 m'.
Proof using H1 H2.
  intros k Hk. rewrite (inode_edit_dirs _ _ _ _ H2) by done. by apply (inode_edit_dirs _ _ _ _ H1).
Qed.
Lemma two_frame k : k <> inodeKey ino -> k <> inodeKey parent -> m' !! k = m1 !! k.
Proof using H1 H2. intros E1 E2. rewrite (inode_edit_frame _ _ _ _ _ H2) by done. by apply (inode_edit_frame _ _ _ _ _ H1). Qed.
Lemma two_inode d : ino <> parent -> m1 !! inodeKey ino = Some d ->
  exists d', m' !! inodeKey ino = Some d' /\ blen d' = blen d /\ stat_of ino d' = f (stat_of ino d).
Proof using H1 H2.
  intros Hne E. destruct H1 as (x&d'&Ex&->&L&S). assert (x = d) as -> by congruence. exists d'. split; [|done].
  rewrite (inode_edit_frame _ _ _ _ _ H2) by (intros [= ?]; done). by rewrite lookup_insert_eq.
Qed.
Lemma two_decode d i : ino <> parent -> m1 !! inodeKey ino = Some d -> decode_inode ino d = Ok i ->
  exists d', m' !! inodeKey ino = Some d' /\ decode_inode ino d' = Ok (with_nlink i (n (in_nlink i))).
Proof using H1 H2 Hf.
  intros Hne E Hd. destruct (two_inode d Hne E) as (d'&E'&L&S). exists d'. split; [done|].
  rewrite decode_inode_spec in Hd |- *. rewrite L. destruct (blen d <? inodeItemSize); [done|]. injection Hd as <-.
  rewrite S. destruct (Hf (stat_of ino d)) as (->&->&->). done.
Qed.
Lemma two_inodes_ok : inodes_ok m1 -> inodes_ok m'.
Proof using H1 H2. intros Hm. eapply inodes_ok_edit; [|exact H2]. by eapply inodes_ok_edit. Qed.
Lemma two_exts_ok : exts_ok m1 -> exts_ok m'.
Proof using H1 H2. intros Hm. eapply exts_ok_edit; [|exact H2]. by eapply exts_ok_edit. Qed.
Lemma two_some j : is_Some (m1 !! inodeKey j) -> is_Some (m' !! inodeKey j).
Proof using H1 H2.
  intros Hs. destruct H1 as (?&?&_&->&_), H2 as (?&?&_&->&_).
  destruct (decide (inodeKey parent = inodeKey j)) as [->|E1]; [by rewrite lookup_insert_eq|rewrite lookup_insert_ne by done].
  destruct (decide (inodeKey ino = inodeKey j)) as [->|E2]; [by rewrite lookup_insert_eq|by rewrite lookup_insert_ne].
Qed.
End TwoEdits.

(** The attributes a path shows. *)
Lemma ExtendedStat_run `{HL : SafeIOLaws} {D : Type} `{RWL : RWLaws D} partOff t dv (w : txState D) h m p i d :
  repr partOff trees t dv w h m -> Z.of_nat h <= maxBtreeDepth -> inodes_ok m -> resolves m p i -> m !! inodeKey (in_num i) = Some d ->
  ExtendedStat partOff p w = (w, Ok (stat_of (in_num i) d)).
Proof.
  intros Hr Hh Hok Hres Ed. apply wp_is. eapply (ExtendedStat_spec partOff trees never t dv w h m p i d); try done. by eapply Hok.
Qed.

(** ** After [Link] *)
Section Linked.
Context (m m' : gmap key bytes) (ino parent : Z) (name : bytes) (ft gen : Z) (l0 : list rec).
Context (Hl : linked m m' ino parent name ft gen) (Hl0 : prefix_of m parent typeDirIndex l0).
Context (Hu : is_u64 ino) (Hft : 0 <= ft < 256) (Hlen : blen name < 2 ^ 16).
Context (Hslot : m !! Key parent typeDirItem (hashDirName name) = None) (Hno : forall r, ~ dir_entry m parent name r).

Lemma linked_path parts cur j : path_to m parts cur j -> path_to m' parts cur j.
Proof using All.
  destruct Hl as (idx&now&d&m3&Hfr&_&_&_&He1&He2). intros Hp. eapply path_to_agree; [exact (two_dirs _ _ _ _ _ _ _ He1 He2)|].
  eapply (path_to_agree (named m parent name idx (ino, ft))); [|apply (named_path_to m parent name idx (ino, ft) l0); done].
  intros k Hk. rewrite lookup_insert_ne; [done|]. intros <-. by destruct Hk.
Qed.
Lemma linked_entry : dir_entry m' parent name (ino, ft).
Proof using All.
  destruct Hl as (idx&now&d&m3&Hfr&_&_&_&He1&He2). eapply dir_entry_agree; [exact (two_dirs _ _ _ _ _ _ _ He1 He2)|].
  eapply (dir_entry_agree (named m parent name idx (ino, ft))); [|by apply named_hit].
  intros k Hk. rewrite lookup_insert_ne; [done|]. intros <-. by destruct Hk.
Qed.
Lemma linked_frame k : typ k <> typeInodeRef -> typ k <> typeDirItem -> typ k <> typeDirIndex -> k <> inodeKey ino -> k <> inodeKey parent -> m' !! k = m !! k.
Proof using Hl.
  intros H1 H2 H3 H4 H5. destruct Hl as (idx&now&d&m3&_&_&_&_&He1&He2). rewrite (two_frame _ _ _ _ _ _ _ He1 He2) by done.
  rewrite lookup_insert_ne by (intros <-; done). unfold named. rewrite !lookup_insert_ne; [done|intros <-; done..].
Qed.
Lemma linked_inode d i : ino <> parent -> m !! inodeKey ino = Some d -> decode_inode ino d = Ok i ->
  exists d' now, m' !! inodeKey ino = Some d' /\ decode_inode ino d' = Ok (with_nlink i (u32 (in_nlink i + 1))) /\
    time_ok now /\ stat_of ino d' = link_up gen now (stat_of ino d).
Proof using Hl.
  intros Hne E Hd. destruct Hl as (idx&now&x&m3&_&_&Hnow&_&He1&He2).
  assert (E1 : <[refKey ino parent := x]> (named m parent name idx (ino, ft)) !! inodeKey ino = Some d) by (by rewrite lookup_insert_ne, named_inode).
  destruct (two_decode _ _ _ _ _ _ _ _ He1 He2 (link_up_only gen now) d i Hne E1 Hd) as (d'&Ed'&Hd').
  destruct (two_inode _ _ _ _ _ _ _ He1 He2 d Hne E1) as (d2&Ed2&_&S). exists d', now. split_and!; try done. congruence.
Qed.
Lemma linked_wf : fs_wf m -> is_Some (m !! inodeKey ino) -> dirs_numbered m' -> fs_wf m'.
Proof using Hl.
  intros [W1 W2 W3 W4 W5] Hi Hd. pose proof linked_frame as Hfr. destruct Hl as (idx&now&x&m3&_&_&Hnow&_&He1&He2).
  set (m1 := <[refKey ino parent := x]> _) in He1.
  assert (F1 : forall j, m1 !! inodeKey j = m !! inodeKey j) by (intros j; unfold m1; by rewrite lookup_insert_ne, named_inode).
  assert (Hs : forall j, is_Some (m !! inodeKey j) -> is_Some (m' !! inodeKey j)) by (intros j; rewrite <- F1; apply (two_some _ _ _ _ _ _ _ He1 He2)).
  split; [| | |done|].
  - eapply two_inodes_ok; [exact He1|exact He2|]. intros j y. rewrite F1. apply W1.
  - eapply two_exts_ok; [exact He1|exact He2|]. apply exts_ok_insert; [by apply named_exts|by intros ?].
  - intros k y Ek Ht. destruct (decide (k = inodeKey ino)) as [->|H1]; [destruct Hi as [z Ez]; by eapply W3|].
    destruct (decide (k = inodeKey parent)) as [->|H2].
    + destruct He2 as (z&_&Ez&_). rewrite (inode_edit_frame _ _ _ _ _ He1), F1 in Ez by done. by eapply W3.
    + rewrite Hfr in Ek by (done || rewrite Ht; done). by eapply W3.
  - intros k y Ek Ht. apply Hs. destruct (decide (k = refKey ino parent)) as [->|H1]; [exact Hi|].
    rewrite (two_frame _ _ _ _ _ _ _ He1 He2) in Ek by (intros ->; by destruct Ht). unfold m1 in Ek. rewrite lookup_insert_ne in Ek by done.
    unfold named in Ek. rewrite !lookup_insert_ne in Ek by (intros <-; by destruct Ht). by eapply W5.
Qed.
End Linked.

(** A path to an inode that is not a directory, and a free name in another place. *)
Record link_args (m : gmap key bytes) (oldPath newPath : bytes) (i pi : inodeItem) : Prop := LinkArgs {
  la_old : resolves m oldPath i /\ isDir i = false;
  la_parent : resolves m (splitPath newPath).1 pi /\ in_num i <> in_num pi;
  la_name : (splitPath newPath).2 <> [] /\ (splitPath newPath).2 <> dot /\ blen (splitPath newPath).2 < 2 ^ 16;
  la_free : (forall r, ~ dir_entry m (in_num pi) (splitPath newPath).2 r) /\ m !! Key (in_num pi) typeDirItem (hashDirName (splitPath newPath).2) = None }.
Definition link_type (i : inodeItem) : Z := if isSymlink i then ftSymlink else ftRegFile.

Section LinkRun.
Context `{HL : SafeIOLaws} {D : Type} `{RWL : RWLaws D} `{CK : Clock} (partOff : Z) (Hclock : forall n, time_ok (clock_at n)).
Context (dv : dataView) (w : txState D) (h : nat) (m : gmap key bytes) (Hrdy : ready partOff dv w h m).
Context (oldPath newPath : bytes) (i pi : inodeItem) (Ha : link_args m oldPath newPath i pi).

Lemma link_run :
  match linkInode partOff oldPath newPath w with
  | (w', Ok _) => linked_after partOff True dv w m (in_num i) (in_num pi) (splitPath newPath).2 (link_type i) w'
  | (w', Err _) => link_failed partOff True dv w m (in_num i) (in_num pi) w'
  | (w', Panic) => full (tx_cow w')
  | (_, NoFuel) => False
  end.
Proof using All.
  destruct Hrdy as [Hr Hlow [W1 W2 W3 W4 W5] Hsec Hroom], Ha as [[Hold Hdir] [Hpi Hne] (Hn1&Hn2&Hn3) [Hno Hslot]].
  assert (Hroot : is_u64 rootDirObjID) by (unfold is_u64, rootDirObjID; lia).
  assert (Hui : is_u64 (in_num i)) by (by eapply path_to_u64; [|apply Hold]).
  assert (Hup : is_u64 (in_num pi)) by (by eapply path_to_u64; [|apply Hpi]).
  pose proof Hold as (_&di&Edi&_). pose proof Hpi as (_&dp&Edp&_).
  pose proof (link_steps_spec partOff Hclock (fun w' => full (tx_cow w')) ltac:(done) True I dv w h m Hr W1 W2 W4 Hroom (in_num i) (in_num pi)
    (splitPath newPath).2 (link_type i) di dp Hui Hup Hn1 Edi Edp Hslot
    (fun _ w' => link_failed partOff True dv w m (in_num i) (in_num pi) w') (fun _ _ Hx => Hx)) as Hw. unfold wp in Hw.
  unfold linkInode. erewrite sm_bind_Ok by (by eapply fs_path_run). rewrite Hdir. destruct (splitPath newPath) as [dir name]. cbn [fst snd] in *.
  rewrite bool_decide_eq_false_2 by done.
  assert (E1 : pathLookupIno partOff dir w = (w, Ok (in_num pi))) by (unfold pathLookupIno; by erewrite sm_bind_Ok by (by eapply fs_path_run)).
  assert (E2 : entry_opt partOff (in_num pi) name w = (w, Ok None)).
  { apply wp_is. eapply (entry_opt_spec partOff trees never True dv w h m); [done|done| |done]. intros r _ Hr'. by destruct (Hno r (Hr' Hlow)). }
  rewrite (sm_bind_Ok _ _ _ _ _ E1), (sm_bind_Ok _ _ _ _ _ E2). cbv beta iota zeta. fold (link_type i). exact Hw.
Qed.
End LinkRun.

(** C17. [Link]: when the call succeeds, the new path and the old one show the same inode,
    with the attributes from before, one link more and a new change time; the new path reads
    as the old one did, and every other file keeps its path and its content.  The file system
    is again one that operations can run on.  When it fails no item is lost: only the
    inode items of the file and of the directory and the back references can have changed. *)
Theorem link_adds_name `{HL : SafeIOLaws} `{HD : DecodersLaws} {D : Type} `{RWL : RWLaws D} `{CK : Clock} (partOff : Z)
    (dv : dataView) (w : txState D) (h : nat) (m : gmap key bytes) (oldPath newPath : bytes) (i pi : inodeItem) (dev : Z) :
  (forall n, time_ok (clock_at n)) -> ready partOff dv w h m -> link_args m oldPath newPath i pi -> dev < 2 ^ 63 ->
  match linkInode partOff oldPath newPath w with
  | (w', Ok _) =>
      (exists s now, ExtendedStat partOff oldPath w = (w, Ok s) /\ time_ok now /\
         ExtendedStat partOff oldPath w' = (w', Ok (link_up (next_gen (tx_sb w)) now s)) /\
         ExtendedStat partOff newPath w' = (w', Ok (link_up (next_gen (tx_sb w)) now s))) /\
      (forall q j b, resolves m q j -> in_num j <> in_num pi -> isRegular j = true -> in_size j = blen b -> blen b <= dev ->
         file_data partOff (tx_sb w) dv m (in_num j) b ->
         ReadFile partOff dev q w' = (w', Ok b) /\ (in_num j = in_num i -> ReadFile partOff dev newPath w' = (w', Ok b))) /\
      exists h' m', repr partOff trees True dv w' h' m' /\ (dirs_numbered m' -> ready partOff dv w' h' m')
  | (w', Err _) => link_failed partOff True dv w m (in_num i) (in_num pi) w'
  | (w', Panic) => full (tx_cow w')
  | (_, NoFuel) => False
  end.
Proof.
  intros Hclock Hrdy Ha Hdev. pose proof (link_run partOff Hclock dv w h m Hrdy oldPath newPath i pi Ha) as Hw.
  destruct (linkInode partOff oldPath newPath w) as [w' [[]|e| |]]; try done. destruct Hw as (h'&m'&Hlow'&Hr'&Hl&Hcom).
  destruct Hrdy as [Hr Hlow Hwf Hsec Hroom], Ha as [[Hold Hdir] [Hpi Hne] (Hn1&Hn2&Hn3) [Hno Hslot]].
  assert (Hui : is_u64 (in_num i)) by (eapply path_to_u64; [|apply Hold]; unfold is_u64, rootDirObjID; lia).
  assert (Hft : 0 <= link_type i < 256) by (unfold link_type, ftSymlink, ftRegFile; destruct (isSymlink i); lia).
  destruct (repr_prefix _ _ _ _ _ _ _ (in_num pi) typeDirIndex Hr) as [l0 Hl0]. destruct (committed_sector _ _ Hcom) as [Esec Esb].
  pose proof (linked_path _ _ _ _ _ _ _ l0 Hl Hl0 Hui Hft Hn3 Hslot Hno) as Hpath.
  pose proof (linked_entry _ _ _ _ _ _ _ l0 Hl Hl0 Hui Hft Hn3 Hslot Hno) as Hent.
  pose proof Hold as (Hpo&di&Edi&Hdec). destruct (linked_inode _ _ _ _ _ _ _ Hl di i Hne Edi Hdec) as (d'&now&Ed'&Hdec'&Hnow&S).
  set (i' := with_nlink i (u32 (in_nlink i + 1))) in *. assert (Hwf' : dirs_numbered m' -> fs_wf m') by (eapply linked_wf; [exact Hl|done|by eexists]).
  assert (Hro : resolves m' oldPath i') by (split; [by apply Hpath|by exists d']).
  assert (Hrn : resolves m' newPath i').
  { split; [|by exists d']. destruct (splitPath_parts newPath) as [(Ep&_)|(_&_&[?|?])]; [|done..]. rewrite Ep. apply path_to_app.
    exists (in_num pi). split; [by apply Hpath, Hpi|]. by exists (in_num i, link_type i). }
  assert (Hok' : inodes_ok m').
  { destruct Hl as (idx&nw&x&m3&_&_&_&_&He1&He2). eapply two_inodes_ok; [exact He1|exact He2|].
    intros j y. rewrite lookup_insert_ne, named_inode by done. apply (wf_inodes _ Hwf). }
  split_and!.
  - exists (stat_of (in_num i) di), now. rewrite <- S. split_and!; [by eapply ExtendedStat_run; [..|apply (wf_inodes _ Hwf)| |]|done| |];
      by apply (ExtendedStat_run partOff True dv w' h' m' _ i').
  - intros q j b Hq Hj Hreg Hsz Hb Hd.
    assert (Hd' : file_data partOff (tx_sb w) dv m' (in_num j) b).
    { eapply file_data_frame; [done| |exact Hd]. intros k Ho Hk. apply (linked_frame _ _ _ _ _ _ _ Hl); try (by rewrite Hk); by intros ->. }
    destruct (decide (in_num j = in_num i)) as [Eji|Eji]; [|split; [|done]].
    + assert (Hij : j = i) by (destruct Hq as (_&dj&Edj&Hdj); rewrite Eji in Edj, Hdj; congruence). subst j.
      assert (Hqi : resolves m' q i') by (split; [by apply Hpath, Hq|by exists d']).
      split; [|intros _]; by apply (ReadFile_run partOff trees True dv w' h' m' (tx_sb w) _ i').
    + eapply (ReadFile_run partOff trees True dv w' h' m' (tx_sb w) q j); try done. destruct Hq as (Hqp&dj&Edj&Hdj).
      split; [by apply Hpath|]. exists dj. split; [|done]. rewrite (linked_frame _ _ _ _ _ _ _ Hl); try done; by intros [= ?].
  - exists h', m'. split; [done|]. intros Hdn. split; [done|done|by apply Hwf'|by rewrite Esec|done].
Qed.

(** ** After the removal of one of several names *)

(** The path ends in another directory entry than the given one. *)
Definition other_name (m : gmap key bytes) (q : bytes) (parent : Z) (name : bytes) : Prop :=
  exists dir n dirIno, path_parts q = dir ++ [n] /\ path_to m dir rootDirObjID dirIno /\ ~ (dirIno = parent /\ n = name).

(** A path is kept when it does not end in the name that goes. *)
Lemma unnamed_other_path m parent name idx e l0 q j :
  sole_name m parent name idx e -> prefix_of m parent typeDirIndex l0 -> (forall n r, ~ dir_entry m e.1 n r) ->
  path_to m (path_parts q) rootDirObjID j -> (j = e.1 -> other_name m q parent name) ->
  path_to (unnamed m parent name idx) (path_parts q) rootDirObjID j.
Proof.
  intros Hn Hl0 Hleaf Hp Hother. pose proof (sole_name_entry _ _ _ _ _ Hn) as He.
  pose proof (fun parts cur i => unnamed_path_to m parent name idx e Hn l0 Hl0 parts cur i Hleaf) as Hu.
  destruct (decide (j = e.1)) as [->|Hne]; [|by apply Hu]. destruct (Hother eq_refl) as (dir&n&dirIno&Eq&Hd&Hno).
  rewrite Eq in Hp |- *. apply path_to_app in Hp as (mid&H1&H2). rewrite (path_to_fun _ _ _ _ _ H1 Hd) in H2.
  apply path_to_app. exists dirIno. destruct H2 as (r&Hr&Hp). split.
  - apply Hu; [|done|done]. intros ->. by apply (Hleaf n r).
  - exists r. split; [|done]. by apply (unnamed_dir_entry _ _ _ _ _ Hn l0 Hl0).
Qed.

Section Unlinked.
Context (m m' : gmap key bytes) (ino parent : Z) (name : bytes) (idx ft gen : Z) (l0 : list rec).
Context (Hu : unlinked m m' ino parent name idx gen) (Hn : sole_name m parent name idx (ino, ft)) (Hl0 : prefix_of m parent typeDirIndex l0).
Context (Hleaf : forall n r, ~ dir_entry m ino n r).

Lemma unlinked_dirs : same_dirs (unnamed m parent name idx) m'.
Proof using Hu.
  destruct Hu as (now&now'&o&m3&_&_&_&He1&He2). intros k Hk. rewrite (two_dirs _ _ _ _ _ _ _ He1 He2) by done.
  rewrite lookup_partial_alter_ne; [done|]. intros <-. by destruct Hk.
Qed.
Lemma unlinked_gone r : ~ dir_entry m' parent name r.
Proof using Hu Hn Hl0.
  intros Hd. apply (dir_entry_agree _ _ _ _ _ (same_dirs_sym _ _ unlinked_dirs)) in Hd.
  apply (unnamed_dir_entry _ _ _ _ _ Hn l0 Hl0) in Hd as [Hx _]. by apply Hx.
Qed.
Lemma unlinked_path q j : path_to m (path_parts q) rootDirObjID j -> (j = ino -> other_name m q parent name) -> path_to m' (path_parts q) rootDirObjID j.
Proof using All. intros Hp Ho. eapply path_to_agree; [apply unlinked_dirs|]. by eapply unnamed_other_path. Qed.
Lemma unlinked_frame k : typ k <> typeInodeRef -> typ k <> typeDirItem -> typ k <> typeDirIndex -> k <> inodeKey ino -> k <> inodeKey parent -> m' !! k = m !! k.
Proof using Hu.
  intros H1 H2 H3 H4 H5. destruct Hu as (now&now'&o&m3&_&_&_&He1&He2). rewrite (two_frame _ _ _ _ _ _ _ He1 He2) by done.
  rewrite lookup_partial_alter_ne by (intros <-; done). unfold unnamed. rewrite !lookup_delete_ne; [done|intros <-; done..].
Qed.
Lemma unlinked_inode d i : ino <> parent -> m !! inodeKey ino = Some d -> decode_inode ino d = Ok i ->
  exists d' now, m' !! inodeKey ino = Some d' /\ decode_inode ino d' = Ok (with_nlink i (in_nlink i - 1)) /\
    time_ok now /\ stat_of ino d' = link_down gen now (stat_of ino d).
Proof using Hu.
  intros Hne E Hd. destruct Hu as (now&now'&o&m3&Hnow&_&_&He1&He2). set (m1 := partial_alter _ _ _) in He1.
  assert (E1 : m1 !! inodeKey ino = Some d) by (unfold m1; by rewrite lookup_partial_alter_ne, unnamed_inode).
  destruct (two_decode _ _ _ _ _ _ _ _ He1 He2 (link_down_only gen now) d i Hne E1 Hd) as (d'&Ed'&Hd').
  destruct (two_inode _ _ _ _ _ _ _ He1 He2 d Hne E1) as (d2&Ed2&_&S). exists d', now. split_and!; try done. congruence.
Qed.
Lemma unlinked_inodes_ok : inodes_ok m -> inodes_ok m'.
Proof using Hu.
  intros Hok. destruct Hu as (now&now'&o&m3&_&_&_&He1&He2). eapply two_inodes_ok; [exact He1|exact He2|].
  intros j y. rewrite lookup_partial_alter_ne, unnamed_inode by done. apply Hok.
Qed.
End Unlinked.

(** The path names a file that has other names. *)
Record shared_file (m : gmap key bytes) (p : bytes) (pi i : inodeItem) (idx ft : Z) : Prop := SharedFile {
  sf_parent : resolves m (splitPath p).1 pi;
  sf_name : sole_name m (in_num pi) (splitPath p).2 idx (in_num i, ft) /\ is_u64 idx /\ (splitPath p).2 <> [] /\ (splitPath p).2 <> dot;
  sf_type : ft <> ftDir;
  sf_inode : resolves m p i /\ 1 < in_nlink i /\ in_num i <> in_num pi;
  sf_leaf : forall n r, ~ dir_entry m (in_num i) n r }.

(** An inode with several names is only unlinked. *)
Lemma removeInode_linked `{HL : SafeIOLaws} {D : Type} `{RWL : RWLaws D} `{CK : Clock} partOff t dv (w : txState D) h m ino parent name d :
  repr partOff trees t dv w h m -> Z.of_nat h <= maxBtreeDepth -> inodes_ok m -> is_u64 ino -> m !! inodeKey ino = Some d ->
  1 < is_NLink (stat_of ino d) -> removeInode partOff ino parent name w = unlinkInodeOnly partOff ino parent name w.
Proof.
  intros Hr Hlow Hok Hu Ed Hnl. unfold removeInode. set (i := InodeItem ino (is_Mode (stat_of ino d)) (is_Size (stat_of ino d)) (is_NLink (stat_of ino d))).
  assert (E : sm_try (fs_inode partOff ino) w = (w, Ok (Ok i))).
  { apply wp_is, wp_try. eapply (fs_inode_spec partOff trees never t dv w h m); [done|done| |].
    - intros i' d' _ Ed' Hdec. assert (d' = d) as -> by congruence. rewrite decode_inode_spec in Hdec. case_if_in Hdec; [done|].
      injection Hdec as <-. done.
    - intros e He. destruct (He Hlow d i Ed). specialize (Hok _ _ Ed). rewrite decode_inode_spec.
      by rewrite (proj2 (Z.ltb_ge _ _)) by lia. }
  rewrite (sm_bind_Ok _ _ _ _ _ E). cbn [in_nlink i]. rewrite (proj2 (Z.ltb_lt _ _)) by done. reflexivity.
Qed.

(** The run of [DeleteFile] on one of several names. *)
Lemma unlink_run `{HL : SafeIOLaws} {D : Type} `{RWL : RWLaws D} `{CK : Clock} (partOff : Z)
    (t : Prop) (dv : dataView) (w : txState D) (h : nat) (m : gmap key bytes) (p : bytes) (pi i : inodeItem) (idx ft : Z) :
  (forall n, time_ok (clock_at n)) -> partOff + superblockOffset + sbfSize <= dv_size dv ->
  repr partOff trees t dv w h m -> Z.of_nat h <= maxBtreeDepth -> (t -> (h <= 1)%nat) -> inodes_ok m -> exts_ok m ->
  shared_file m p pi i idx ft ->
  match deleteFile partOff p w with
  | (w', Ok _) => unlinked_after partOff t dv w m (in_num i) (in_num pi) (splitPath p).2 idx w'
  | (w', Err _) => unlink_failed partOff t dv w m (in_num i) (in_num pi) (splitPath p).2 idx w'
  | (w', Panic) => full (tx_cow w')
  | (_, NoFuel) => False
  end.
Proof.
  intros Hclock Hroom Hr Hlow Hshort Hok Hex [Hpi (Hn&Hux&Hn1&Hn2) Ht (Hres&Hnl&Hne) Hleaf].
  assert (Hroot : is_u64 rootDirObjID) by (unfold is_u64, rootDirObjID; lia).
  assert (Hui : is_u64 (in_num i)) by (by eapply path_to_u64; [|apply Hres]).
  assert (Hup : is_u64 (in_num pi)) by (by eapply path_to_u64; [|apply Hpi]). pose proof Hres as (Hp&di&Edi&Hdec).
  assert (Hsn : 1 < is_NLink (stat_of (in_num i) di)).
  { pose proof Hdec as Hx. rewrite decode_inode_spec in Hx. case_if_in Hx; [done|]. injection Hx as Ei. by rewrite <- (f_equal in_nlink Ei) in Hnl. }
  rewrite (deleteFile_run partOff t dv w h m p pi (in_num i) idx ft Hr Hlow Hpi Hn Ht), (removeInode_linked partOff t dv w h m _ _ _ di Hr Hlow Hok Hui Edi Hsn).
  exact (unlinkInodeOnly_spec partOff Hclock (fun w' => full (tx_cow w')) ltac:(done) t dv w h m Hr Hlow Hshort Hok Hex Hroom (in_num i) (in_num pi)
    (splitPath p).2 idx ft di Hui Hup Hux Hn1 Edi Hn Hsn
    (fun _ w' => unlink_failed partOff t dv w m (in_num i) (in_num pi) (splitPath p).2 idx w') (fun _ _ Hs => Hs)).
Qed.

(** C18. [DeleteFile] of one of several names of a file: when the call succeeds, the path leads
    nowhere; every other name of the file shows the attributes from before with one link
    less and a new change time, and reads as before, as every other file does.  When it
    fails no item is lost but the two directory entries and the back reference of the name;
    the inode items of the file and of the directory can have changed. *)
Theorem unlink_keeps_file `{HL : SafeIOLaws} `{HD : DecodersLaws} {D : Type} `{RWL : RWLaws D} `{CK : Clock} (partOff : Z)
    (t : Prop) (dv : dataView) (w : txState D) (h : nat) (m : gmap key bytes) (p : bytes) (pi i : inodeItem) (idx ft dev : Z) :
  (forall n, time_ok (clock_at n)) -> partOff + superblockOffset + sbfSize <= dv_size dv ->
  repr partOff trees t dv w h m -> Z.of_nat h <= maxBtreeDepth -> (t -> (h <= 1)%nat) -> inodes_ok m -> exts_ok m ->
  shared_file m p pi i idx ft -> dev < 2 ^ 63 ->
  match deleteFile partOff p w with
  | (w', Ok _) =>
      (exists e, Stat partOff p w' = (w', Err e)) /\
      (exists s now, ExtendedStat partOff p w = (w, Ok s) /\ time_ok now /\
         forall q, resolves m q i -> other_name m q (in_num pi) (splitPath p).2 ->
           ExtendedStat partOff q w' = (w', Ok (link_down (next_gen (tx_sb w)) now s))) /\
      forall q j b, resolves m q j -> in_num j <> in_num pi -> (in_num j = in_num i -> other_name m q (in_num pi) (splitPath p).2) ->
        isRegular j = true -> in_size j = blen b -> blen b <= dev ->
        file_data partOff (tx_sb w) dv m (in_num j) b -> ReadFile partOff dev q w' = (w', Ok b)
  | (w', Err _) => unlink_failed partOff t dv w m (in_num i) (in_num pi) (splitPath p).2 idx w'
  | (w', Panic) => full (tx_cow w')
  | (_, NoFuel) => False
  end.
Proof.
  intros Hclock Hroom Hr Hlow Hshort Hok Hex Hsh Hdev.
  pose proof (unlink_run partOff t dv w h m p pi i idx ft Hclock Hroom Hr Hlow Hshort Hok Hex Hsh) as Hw.
  destruct (deleteFile _ _ _) as [w' [[]|e| |]]; try done. destruct Hsh as [Hpi (Hn&_&Hn1&Hn2) _ (Hres&_&Hne) Hleaf].
  destruct (repr_prefix _ _ _ _ _ _ _ (in_num pi) typeDirIndex Hr) as [l0 Hl0]. pose proof Hres as (Hp&di&Edi&Hdec).
  destruct Hw as (h'&m'&Hlow'&Hr'&Hu&Hcom). destruct (committed_sector _ _ Hcom) as [_ Esb].
  pose proof (unlinked_path m m' _ _ _ idx ft _ l0 Hu Hn Hl0 Hleaf) as Hpath.
  destruct (unlinked_inode m m' _ _ _ _ _ Hu di i Hne Edi Hdec) as (d'&now&Ed'&Hdec'&Hnow&S). split_and!.
  - eapply (Stat_gone partOff t dv w' h' m' p (in_num pi)); [done|done|done| |].
    + apply Hpath; [apply Hpi|done].
    + intros r. by eapply unlinked_gone.
  - exists (stat_of (in_num i) di), now. split_and!; [by apply (ExtendedStat_run partOff t dv w h m)|done|]. intros q Hq Ho. rewrite <- S.
    apply (ExtendedStat_run partOff t dv w' h' m' q (with_nlink i (in_nlink i - 1))); [done|done|by eapply unlinked_inodes_ok| |done].
    split; [by apply Hpath; [apply Hq|]|by exists d'].
  - intros q j b Hq Hj Ho Hreg Hsz Hb Hd.
    assert (Hd' : file_data partOff (tx_sb w) dv m' (in_num j) b).
    { eapply file_data_frame; [done| |exact Hd]. intros k Hk1 Hk. apply (unlinked_frame _ _ _ _ _ _ _ Hu); try (by rewrite Hk); by intros ->. }
    destruct (decide (in_num j = in_num i)) as [Eji|Eji].
    + assert (Hij : j = i) by (destruct Hq as (_&dj&Edj&Hdj); rewrite Eji in Edj, Hdj; congruence). subst j.
      apply (ReadFile_run partOff trees t dv w' h' m' (tx_sb w) q (with_nlink i (in_nlink i - 1))); try done.
      split; [by apply Hpath; [apply Hq|]|by exists d'].
    + eapply (ReadFile_run partOff trees t dv w' h' m' (tx_sb w) q j); try done. destruct Hq as (Hqp&dj&Edj&Hdj).
      split; [by apply Hpath|]. exists dj. split; [|done]. rewrite (unlinked_frame _ _ _ _ _ _ _ Hu); try done; by intros [= ?].
Qed.
