(* ===== verification/Rename.v ===== *)
(** * [Rename] (rename.go)

    The name of an inode is taken away in one directory and given in another: what is
    found under the old path is found under the new one, a directory with all that is
    below it, and every other path is as before. *)
From Stdlib Require Import ZArith Lia Strings.Byte.
From stdpp Require Import base option list numbers sorting gmap.
From S2P Require Import Prelude Bytes Alloc Layout SafeIO Chunk Node BTree Walk Split Crc32c Cow Store CowCorrect.
From S2P Require Import Codec Read FileRead Tx Extent Ops FsTree DeletePrefix FsLookup InodeEdit Rebuild FsData ExtentLayout ExtentWrite.
From S2P Require Import CommitCorrect InodeOps Entries Paths Create CreateApi XattrOps Overwrite Remove Links LinkApi.
Local Open Scope Z_scope.
Local Open Scope btrfs_scope.

(** ** What a rename does to the items *)
Definition dir_shrunk (name : bytes) (s : InodeStat) : InodeStat := st_size (dir_size (is_Size s) (- dirEntrySizeDelta name)) s.
Definition dir_touched (gen : Z) (now : timespec) (s : InodeStat) : InodeStat :=
  st_mtime now (st_change gen now (st_nlink (link_count (is_NLink s) 0) s)).

(** The sizes and times of the two directories. *)
Definition parents_edited (m m' : gmap key bytes) (oldParent newParent : Z) (oldName newName : bytes) (gen : Z) : Prop :=
  exists m1 m2 m3 now, inode_edit m m1 oldParent (dir_shrunk oldName) /\ inode_edit m1 m2 newParent (dir_grown newName) /\
    time_ok now /\ inode_edit m2 m3 oldParent (dir_touched gen now) /\
    (oldParent = newParent /\ m' = m3 \/
     oldParent <> newParent /\ exists now', time_ok now' /\ inode_edit m3 m' newParent (dir_touched gen now')).

Definition renamed (m m' : gmap key bytes) (ino oldParent newParent : Z) (oldName newName : bytes) (oldIdx ft gen : Z) : Prop :=
  exists o idx d, let m1 := partial_alter (fun _ => o) (refKey ino oldParent) (unnamed m oldParent oldName oldIdx) in
    ref_removed (m !! refKey ino oldParent) oldName o /\ index_fresh m1 newParent idx /\
    ref_added (m1 !! refKey ino newParent) idx newName d /\
    parents_edited (<[refKey ino newParent := d]> (named m1 newParent newName idx (ino, ft))) m' oldParent newParent oldName newName gen.

(** The items that can hold something else. *)
Definition moved (ino oldParent newParent : Z) (k : key) : Prop :=
  k = inodeKey oldParent \/ k = inodeKey newParent \/ k = refKey ino newParent.

Section Parents.
Context (m m' : gmap key bytes) (oldParent newParent : Z) (oldName newName : bytes) (gen : Z).
Context (Hp : parents_edited m m' oldParent newParent oldName newName gen).
Lemma parents_frame k : k <> inodeKey oldParent -> k <> inodeKey newParent -> m' !! k = m !! k.
Proof using Hp.
  intros H1 H2. destruct Hp as (m1&m2&m3&now&E1&E2&_&E3&H). assert (E : m3 !! k = m !! k).
  { rewrite (inode_edit_frame _ _ _ _ _ E3), (inode_edit_frame _ _ _ _ _ E2), (inode_edit_frame _ _ _ _ _ E1) by done. done. }
  destruct H as [[_ ->]|(_&now'&_&E4)]; [done|]. by rewrite (inode_edit_frame _ _ _ _ _ E4).
Qed.
Lemma parents_dirs : same_dirs m m'.
Proof using Hp. intros k Hk. apply parents_frame; intros ->; by destruct Hk. Qed.
Lemma parents_inodes_ok : inodes_ok m -> inodes_ok m'.
Proof using Hp.
  intros Hm. destruct Hp as (m1&m2&m3&now&E1&E2&_&E3&H). assert (H3 : inodes_ok m3) by (eauto using inodes_ok_edit).
  destruct H as [[_ ->]|(_&now'&_&E4)]; [done|by eapply inodes_ok_edit].
Qed.
Lemma parents_exts_ok : exts_ok m -> exts_ok m'.
Proof using Hp.
  intros Hm. destruct Hp as (m1&m2&m3&now&E1&E2&_&E3&H). assert (H3 : exts_ok m3) by (eauto using exts_ok_edit).
  destruct H as [[_ ->]|(_&now'&_&E4)]; [done|by eapply exts_ok_edit].
Qed.
End Parents.

(** ** The steps *)
Section Rename.
Context `{HL : SafeIOLaws} {D : Type} `{RWL : RWLaws D} `{CK : Clock} (partOff : Z).
Context (Hclock : forall n, time_ok (clock_at n)).
Context (X : txState D -> Prop) (HX : forall w' : txState D, full (tx_cow w') -> X w').
Abbreviation W := (txState D).
Abbreviation repr := (repr partOff trees).
Context (t : Prop) (Ht : t) (dv : dataView) (Hroom : partOff + superblockOffset + sbfSize <= dv_size dv).
Context (ino oldParent newParent : Z) (oldName newName : bytes) (ft : Z).
Context (Huo : is_u64 oldParent) (Hun : is_u64 newParent) (Hno : oldName <> []) (Hnn : newName <> []).

(** Both directories, and the commit. *)
Lemma parents_spec w h m P (Q : unit -> W -> Prop) (E : error -> W -> Prop) :
  repr t dv w h m -> inodes_ok m -> exts_ok m -> P (inodeKey oldParent) -> P (inodeKey newParent) ->
  (forall w' h' m', Z.of_nat h' <= maxBtreeDepth -> repr t dv w' h' m' ->
     parents_edited m m' oldParent newParent oldName newName (next_gen (tx_sb w)) -> committed (tx_sb w) (tx_sb w') -> Q tt w') ->
  (forall e w' h' m', FsTree.repr partOff any_rest t dv w' h' m' -> keeps P m m' -> committed (tx_sb w) (tx_sb w') -> E e w') ->
  wp X (_ ← adjustDirSize partOff oldParent (- dirEntrySizeDelta oldName);
        _ ← adjustDirSize partOff newParent (dirEntrySizeDelta newName);
        _ ← touchDir partOff oldParent;
        _ ← (if oldParent =? newParent then mret tt else touchDir partOff newParent);
        commit partOff) w Q E.
Proof using HL RWL Hclock HX Hroom Huo Hun Hno Hnn.
  intros Hr Hok Hex Po Pn HQ HE.
  assert (HE1 : forall e w' h' m', repr t dv w' h' m' -> keeps P m m' -> next w w' -> E e w').
  { intros e w' h' m' Hr' Hk Hn. eapply HE; [by eapply repr_any|done|]. rewrite Hn. apply committed_refl. }
  assert (Hdelta : forall n : bytes, n <> [] -> 0 < dirEntrySizeDelta n).
  { intros n Hn. unfold dirEntrySizeDelta. destruct n; [done|]. unfold blen. cbn [length]. lia. }
  apply wp_bind, (adjustDirSize_spec partOff trees X t dv w h m); [done|done|done|specialize (Hdelta _ Hno); lia| |].
  2: { intros e w' Hr' Hn. by eapply HE1. }
  intros w1 h1 m1 Hr1 He1 Hn1. assert (K1 : keeps P m m1) by (by eapply keeps_edit).
  apply wp_bind, (adjustDirSize_spec partOff trees X t dv w1 h1 m1); [done|done|by eapply inodes_ok_edit|specialize (Hdelta _ Hnn); lia| |].
  2: { intros e w' Hr' Hn. eapply HE1; [exact Hr'|done|by etrans]. }
  intros w2 h2 m2 Hr2 He2 Hn2. assert (K2 : keeps P m m2) by (etrans; [exact K1|by eapply keeps_edit]). assert (Hn02 : next w w2) by (by etrans).
  assert (Hok2 : inodes_ok m2) by (eauto using inodes_ok_edit).
  apply wp_bind, (adjustDirNlink_spec partOff trees Hclock X t dv w2 h2 m2); [done|done|done| |].
  2: { intros e w' Hr' Hn. eapply HE1; [exact Hr'|done|by etrans]. }
  rewrite Hn02. intros w3 h3 m3 now Hlow3 Hr3 Hnow He3 Hn3.
  assert (K3 : keeps P m m3) by (etrans; [exact K2|by eapply keeps_edit]). assert (Hn03 : next w w3) by (by etrans).
  assert (Hend : forall w4 h4 m4, Z.of_nat h4 <= maxBtreeDepth -> repr t dv w4 h4 m4 -> next w w4 -> keeps P m m4 ->
    parents_edited m m4 oldParent newParent oldName newName (next_gen (tx_sb w)) -> wp X (commit partOff) w4 Q E).
  { intros w4 h4 m4 Hlow4 Hr4 Hn4 K4 Hp. eapply (commit_spec partOff X dv Hroom t w4 h4 m4); [done|by eapply parents_exts_ok|done| |].
    - intros w5 Hr5 Hc5 _ _ _. rewrite Hn4 in Hc5. by eapply HQ.
    - intros e w5 Hr5 Hc5 _. rewrite Hn4 in Hc5. by eapply HE. }
  apply wp_bind. destruct (Z.eqb_spec oldParent newParent) as [Eq|Hne].
  - apply wp_ret, (Hend w3 h3 m3); try done. exists m1, m2, m3, now. split_and!; try done. by left.
  - apply (adjustDirNlink_spec partOff trees Hclock X t dv w3 h3 m3); [done|done|by eapply inodes_ok_edit| |].
    2: { intros e w' Hr' Hn. eapply HE1; [exact Hr'|done|by etrans]. }
    rewrite Hn03. intros w4 h4 m4 now' Hlow4 Hr4 Hnow' He4 Hn4. apply (Hend w4 h4 m4); [done|done|by etrans| |].
    + etrans; [exact K3|by eapply keeps_edit].
    + exists m1, m2, m3, now. split_and!; try done. right. split; [done|]. by exists now'.
Qed.

Context (w : W) (h : nat) (m : gmap key bytes) (Hr : repr t dv w h m) (Hlow : Z.of_nat h <= maxBtreeDepth) (Hshort : (h <= 1)%nat).
Context (Hok : inodes_ok m) (Hex : exts_ok m) (Hnum : dirs_numbered m).
Context (oldIdx : Z) (di dp : bytes) (Hui : is_u64 ino) (Hux : is_u64 oldIdx).
Context (Hdi : m !! inodeKey ino = Some di) (Hdp : m !! inodeKey newParent = Some dp) (Hn : sole_name m oldParent oldName oldIdx (ino, ft)).
Context (Hslot : m !! Key newParent typeDirItem (hashDirName newName) = None).

Definition renamed_after (w' : W) : Prop :=
  exists h' m', Z.of_nat h' <= maxBtreeDepth /\ repr t dv w' h' m' /\
    renamed m m' ino oldParent newParent oldName newName oldIdx ft (next_gen (tx_sb w)) /\ committed (tx_sb w) (tx_sb w').
(** Nothing is lost but the old name. *)
Definition rename_failed (w' : W) : Prop :=
  exists h' m', FsTree.repr partOff any_rest t dv w' h' m' /\
    keeps (moved ino oldParent newParent) (nameless m ino oldParent oldName oldIdx) m' /\ committed (tx_sb w) (tx_sb w').

Lemma rename_steps_spec (E : error -> W -> Prop) :
  (forall e w', rename_failed w' -> E e w') ->
  wp X (_ ← delete_dir_index partOff oldParent oldName;
        _ ← delete_dir_item partOff oldParent oldName;
        _ ← removeInodeRef partOff ino oldParent oldName;
        idxOff ← nextDirIndexOffset partOff newParent;
        _ ← fs_insert partOff (Key newParent typeDirIndex idxOff) (encodeDirItem ino typeInodeItem ft newName);
        _ ← fs_insert partOff (Key newParent typeDirItem (hashDirName newName)) (encodeDirItem ino typeInodeItem ft newName);
        _ ← appendInodeRef partOff ino newParent idxOff newName;
        _ ← adjustDirSize partOff oldParent (- dirEntrySizeDelta oldName);
        _ ← adjustDirSize partOff newParent (dirEntrySizeDelta newName);
        _ ← touchDir partOff oldParent;
        _ ← (if oldParent =? newParent then mret tt else touchDir partOff newParent);
        commit partOff) w (fun _ w' => renamed_after w') E.
Proof using All.
  intros HE. set (P := moved ino oldParent newParent). set (base := nameless m ino oldParent oldName oldIdx).
  assert (HE1 : forall e w' h' m', repr t dv w' h' m' -> keeps P base m' -> next w w' -> E e w').
  { intros e w' h' m' Hr' Hk Hn'. apply HE. exists h', m'. split_and!; [by eapply repr_any|done|]. rewrite Hn'. apply committed_refl. }
  eapply (take_name_spec partOff X t dv w h m Hr Hlow (fun _ => Hshort) ino oldParent oldName oldIdx ft di Hui Huo Hux Hdi Hn P); [|exact HE1].
  intros w1 h1 o _ Ho Hr1 Hn1. set (m1 := partial_alter (fun _ => o) (refKey ino oldParent) (unnamed m oldParent oldName oldIdx)) in *.
  assert (K1 : keeps P base m1) by (apply (keeps_sub P m1); [apply nameless_alter|done]).
  assert (Sub : forall k, typ k <> typeInodeRef -> forall d, m1 !! k = Some d -> m !! k = Some d).
  { intros k Hk d. unfold m1. rewrite lookup_partial_alter_ne by (intros <-; done). intros E'. eapply lookup_weaken; [exact E'|apply unnamed_le]. }
  assert (F1 : forall j, m1 !! inodeKey j = m !! inodeKey j) by (intros j; unfold m1; by rewrite lookup_partial_alter_ne, unnamed_inode).
  eapply (insert_name_spec partOff trees X t dv w1 h1 m1 ino newParent newName ft dp P); [done|done| |done|done|by rewrite F1| | |].
  { intros k d Ed Hk. eapply (Hnum k d); [apply (Sub k); [by rewrite Hk|done]|done]. }
  { destruct (m1 !! _) as [x|] eqn:Ex; [|done]. by apply Sub in Ex; [rewrite Hslot in Ex|]. }
  2: { intros e w' h' m' Hr' Hk Hn'. eapply HE1; [exact Hr'|by etrans|by etrans]. }
  intros w2 h2 idx Hfr Hidx Hr2 Hn2. set (m2 := named m1 newParent newName idx (ino, ft)) in *. assert (Hn02 : next w w2) by (by etrans).
  assert (K2 : keeps P base m2).
  { etrans; [exact K1|apply named_keeps; [done|]]. destruct (m1 !! _) as [x|] eqn:Ex; [|done]. by apply Sub in Ex; [rewrite Hslot in Ex|]. }
  assert (Er : m2 !! refKey ino newParent = m1 !! refKey ino newParent) by (unfold m2, named; by rewrite !lookup_insert_ne).
  apply wp_bind, (appendInodeRef_spec partOff trees X t dv w2 h2 m2 ino newParent idx newName di); try done.
  { unfold m2. by rewrite named_inode, F1. }
  2: { intros e w' Hr' Hn'. eapply HE1; [exact Hr'|done|by etrans]. }
  rewrite Er. intros w3 h3 d Hd Hr3 Hn3. set (m3 := <[refKey ino newParent := d]> m2) in *. assert (Hn03 : next w w3) by (by etrans).
  assert (K3 : keeps P base m3) by (etrans; [exact K2|apply keeps_insert; intros _; by right; right]).
  apply (parents_spec w3 h3 m3 P); [done| | |by left|by right; left| |].
  - intros j x. unfold m3, m2. rewrite lookup_insert_ne, named_inode, F1 by done. apply Hok.
  - apply exts_ok_insert; [apply named_exts|by intros ?]. intros k x Ex Hk. eapply (Hex k x); [apply (Sub k); [by rewrite Hk|done]|done].
  - rewrite Hn03. intros w4 h4 m4 Hlow4 Hr4 Hp Hc. exists h4, m4. split_and!; try done. exists o, idx, d. done.
  - rewrite Hn03. intros e w4 h4 m4 Hr4 Hk Hc. apply HE. exists h4, m4. split_and!; [done|by etrans|done].
Qed.
End Rename.

(** ** Paths that avoid a name *)
Fixpoint path_not (m : gmap key bytes) (parent : Z) (name : bytes) (parts : list bytes) (cur ino : Z) : Prop :=
  match parts with
  | [] => cur = ino
  | n :: parts => ~ (cur = parent /\ n = name) /\ exists r, dir_entry m cur n r /\ path_not m parent name parts r.1 ino
  end.
Lemma path_not_to m parent name parts cur ino : path_not m parent name parts cur ino -> path_to m parts cur ino.
Proof.
  revert cur. induction parts as [|n parts IH]; intros cur; cbn [path_not path_to]; [done|]. intros (_&r&Hr&Hp). exists r. split; [done|by apply IH].
Qed.
Lemma path_not_agree m m' parent name parts cur ino :
  (forall dir n r, ~ (dir = parent /\ n = name) -> dir_entry m dir n r -> dir_entry m' dir n r) ->
  path_not m parent name parts cur ino -> path_to m' parts cur ino.
Proof.
  intros Hs. revert cur. induction parts as [|n parts IH]; intros cur; cbn [path_not path_to]; [done|].
  intros (Hne&r&Hr&Hp). exists r. split; [by apply Hs|by apply IH].
Qed.
(** The path of an inode without the name. *)
Definition resolves_not (m : gmap key bytes) (parent : Z) (name : bytes) (q : bytes) (i : inodeItem) : Prop :=
  path_not m parent name (path_parts q) rootDirObjID (in_num i) /\ exists d, m !! inodeKey (in_num i) = Some d /\ decode_inode (in_num i) d = Ok i.

Lemma unnamed_prefix m parent name idx e l0 o l :
  sole_name m parent name idx e -> prefix_of m parent typeDirIndex l0 -> prefix_of m o typeDirIndex l ->
  exists l', prefix_of (unnamed m parent name idx) o typeDirIndex l'.
Proof.
  intros Hn Hl0 Hl. destruct (decide (o = parent)) as [->|Hne].
  - destruct (unnamed_split m parent name idx e Hn l0 Hl0) as (a&b&_&Hp&_). by exists (a ++ b).
  - exists l. eapply prefix_of_frame; [|exact Hl]. intros k Ho Hk. unfold unnamed. rewrite !lookup_delete_ne; [done|intros <-; done..].
Qed.

Section Renamed.
Context (m m' : gmap key bytes) (ino oldParent newParent : Z) (oldName newName : bytes) (oldIdx ft gen : Z).
Context (Hm : renamed m m' ino oldParent newParent oldName newName oldIdx ft gen) (Hn : sole_name m oldParent oldName oldIdx (ino, ft)).
Context (l0 l1 : list rec) (Hl0 : prefix_of m oldParent typeDirIndex l0) (Hl1 : prefix_of (unnamed m oldParent oldName oldIdx) newParent typeDirIndex l1).
Context (Hlen : blen newName < 2 ^ 16) (Hslot : m !! Key newParent typeDirItem (hashDirName newName) = None).
Context (Hfree : forall r, ~ dir_entry m newParent newName r).
Abbreviation mu := (unnamed m oldParent oldName oldIdx).

Lemma renamed_dirs : exists idx, index_fresh mu newParent idx /\ same_dirs (named mu newParent newName idx (ino, ft)) m'.
Proof using Hm.
  destruct Hm as (o&idx&d&_&Hfr&_&Hp). exists idx.
  assert (E : forall k, typ k = typeDirItem \/ typ k = typeDirIndex -> partial_alter (fun _ => o) (refKey ino oldParent) mu !! k = mu !! k)
    by (intros k Hk; apply lookup_partial_alter_ne; intros <-; by destruct Hk). split.
  - destruct Hfr as [H1 H2]. split; [done|]. intros k x Ek Ho Hk. apply (H2 k x); [|done|done]. rewrite E by (by right). done.
  - intros k Hk. rewrite (parents_dirs _ _ _ _ _ _ _ Hp) by done. rewrite lookup_insert_ne by (intros <-; by destruct Hk).
    unfold named. destruct (decide (k = Key newParent typeDirItem (hashDirName newName))) as [->|H1]; [by rewrite !lookup_insert_eq|].
    rewrite !(lookup_insert_ne _ (Key newParent typeDirItem _)) by done.
    destruct (decide (k = Key newParent typeDirIndex idx)) as [->|H2]; [by rewrite !lookup_insert_eq|]. rewrite !lookup_insert_ne by done. by apply E.
Qed.

Lemma renamed_entry dir n r :
  dir_entry m' dir n r <-> (dir = newParent /\ n = newName /\ r = (ino, ft)) \/ (~ (dir = oldParent /\ n = oldName) /\ dir_entry m dir n r).
Proof using Hm Hn Hl0 Hl1 Hlen Hslot Hfree.
  destruct renamed_dirs as (idx&Hfr&Hs). assert (Hslot' : mu !! Key newParent typeDirItem (hashDirName newName) = None).
  { destruct (mu !! _) as [x|] eqn:Ex; [|done]. eapply lookup_weaken in Ex; [|apply unnamed_le]. congruence. }
  transitivity (dir_entry (named mu newParent newName idx (ino, ft)) dir n r).
  { split; apply dir_entry_agree; [by apply same_dirs_sym|done]. }
  rewrite (named_dir_entry mu newParent newName idx (ino, ft) l1 (sn_ino _ _ _ _ _ Hn) (sn_type _ _ _ _ _ Hn) Hlen Hslot' Hfr Hl1).
  rewrite (unnamed_dir_entry m oldParent oldName oldIdx (ino, ft) Hn l0 Hl0). split; [tauto|]. intros [?|[H1 H2]]; [by left|right].
  split_and!; [|done|done]. intros [-> ->]. by apply (Hfree r).
Qed.

Lemma renamed_path parts cur j : path_not m oldParent oldName parts cur j -> path_to m' parts cur j.
Proof using Hm Hn Hl0 Hl1 Hlen Hslot Hfree. apply path_not_agree. intros dir n r Hne Hr. apply renamed_entry. by right. Qed.
Lemma renamed_gone r : ~ dir_entry m' oldParent oldName r.
Proof using Hm Hn Hl0 Hl1 Hlen Hslot Hfree.
  rewrite renamed_entry. intros [(E1&E2&_)|[Hx _]]; [|by apply Hx]. apply (Hfree (ino, ft)). rewrite <- E1, <- E2. by eapply sole_name_entry.
Qed.
Lemma renamed_frame k : typ k <> typeInodeRef -> typ k <> typeDirItem -> typ k <> typeDirIndex -> k <> inodeKey oldParent -> k <> inodeKey newParent -> m' !! k = m !! k.
Proof using Hm.
  intros H1 H2 H3 H4 H5. destruct Hm as (o&idx&d&_&_&_&Hp). rewrite (parents_frame _ _ _ _ _ _ _ Hp) by done.
  rewrite lookup_insert_ne by (intros <-; done). unfold named. rewrite !lookup_insert_ne by (intros <-; done).
  rewrite lookup_partial_alter_ne by (intros <-; done). unfold unnamed. rewrite !lookup_delete_ne; [done|intros <-; done..].
Qed.
Lemma renamed_inodes_ok : inodes_ok m -> inodes_ok m'.
Proof using Hm.
  intros Hok. destruct Hm as (o&idx&d&_&_&_&Hp). eapply parents_inodes_ok; [exact Hp|]. intros j x.
  rewrite lookup_insert_ne, named_inode, lookup_partial_alter_ne, unnamed_inode by done. apply Hok.
Qed.
End Renamed.

(** ** The operation *)

(** The old path names an inode, which is neither directory; the new path names nothing in a
    directory that exists, and the ways to both directories do not lead through the old name. *)
Record rename_args (m : gmap key bytes) (oldPath newPath : bytes) (op np i : inodeItem) (idx ft : Z) : Prop := RenameArgs {
  ra_old : resolves_not m (in_num op) (splitPath oldPath).2 (splitPath oldPath).1 op /\ (splitPath oldPath).2 <> [] /\ (splitPath oldPath).2 <> dot;
  ra_name : sole_name m (in_num op) (splitPath oldPath).2 idx (in_num i, ft) /\ is_u64 idx;
  ra_inode : resolves m oldPath i /\ in_num i <> in_num op /\ in_num i <> in_num np;
  ra_new : resolves_not m (in_num op) (splitPath oldPath).2 (splitPath newPath).1 np /\ (splitPath newPath).2 <> [] /\ (splitPath newPath).2 <> dot /\
    blen (splitPath newPath).2 < 2 ^ 16;
  ra_free : (forall r, ~ dir_entry m (in_num np) (splitPath newPath).2 r) /\ m !! Key (in_num np) typeDirItem (hashDirName (splitPath newPath).2) = None }.

Section RenameRun.
Context `{HL : SafeIOLaws} {D : Type} `{RWL : RWLaws D} `{CK : Clock} (partOff : Z) (Hclock : forall n, time_ok (clock_at n)).
Context (dv : dataView) (w : txState D) (h : nat) (m : gmap key bytes) (Hrdy : ready partOff dv w h m) (Hshort : (h <= 1)%nat).
Context (oldPath newPath : bytes) (op np i : inodeItem) (idx ft : Z) (Ha : rename_args m oldPath newPath op np i idx ft).

Lemma rename_run :
  match renameEntry partOff oldPath newPath w with
  | (w', Ok _) => renamed_after partOff True dv (in_num i) (in_num op) (in_num np) (splitPath oldPath).2 (splitPath newPath).2 ft w m idx w'
  | (w', Err _) => rename_failed partOff True dv (in_num i) (in_num op) (in_num np) (splitPath oldPath).2 w m idx w'
  | (w', Panic) => full (tx_cow w')
  | (_, NoFuel) => False
  end.
Proof using All.
  destruct Hrdy as [Hr Hlow [W1 W2 W3 W4 W5] Hsec Hroom], Ha as [(Hop&Ho1&Ho2) [Hn Hux] (Hres&Hne1&Hne2) (Hnp&Hn1&Hn2&Hn3) [Hfree Hslot]].
  assert (Hto : forall q j, resolves_not m (in_num op) (splitPath oldPath).2 q j -> resolves m q j).
  { intros q j [Hp Hd]. split; [by eapply path_not_to|done]. }
  apply Hto in Hop, Hnp. assert (Hroot : is_u64 rootDirObjID) by (unfold is_u64, rootDirObjID; lia).
  assert (Hui : is_u64 (in_num i)) by (by eapply path_to_u64; [|apply Hres]).
  assert (Huo : is_u64 (in_num op)) by (by eapply path_to_u64; [|apply Hop]).
  assert (Hun : is_u64 (in_num np)) by (by eapply path_to_u64; [|apply Hnp]).
  pose proof Hres as (_&di&Edi&_). pose proof Hnp as (_&dp&Edp&_).
  pose proof (rename_steps_spec partOff Hclock (fun w' => full (tx_cow w')) ltac:(done) True I dv Hroom (in_num i) (in_num op) (in_num np)
    (splitPath oldPath).2 (splitPath newPath).2 ft Huo Hun Ho1 Hn1 w h m Hr Hlow Hshort W1 W2 W4 idx di dp Hui Hux Edi Edp Hn Hslot
    (fun _ w' => rename_failed partOff True dv (in_num i) (in_num op) (in_num np) (splitPath oldPath).2 w m idx w') (fun _ _ Hx => Hx)) as Hw.
  unfold wp in Hw. unfold renameEntry. clear Hto. destruct (splitPath oldPath) as [oldDir oldName], (splitPath newPath) as [newDir newName]. cbn [fst snd] in *.
  assert (E1 : pathLookupIno partOff oldDir w = (w, Ok (in_num op))) by (unfold pathLookupIno; by erewrite sm_bind_Ok by (by eapply fs_path_run)).
  assert (E2 : fs_entry partOff (in_num op) oldName w = (w, Ok (in_num i, ft))) by (by eapply fs_entry_run).
  assert (E3 : pathLookupIno partOff newDir w = (w, Ok (in_num np))) by (unfold pathLookupIno; by erewrite sm_bind_Ok by (by eapply fs_path_run)).
  assert (E4 : entry_opt partOff (in_num np) newName w = (w, Ok None)).
  { apply wp_is. eapply (entry_opt_spec partOff trees never True dv w h m); [done|done| |done]. intros r _ Hr'. by destruct (Hfree r (Hr' Hlow)). }
  rewrite (sm_bind_Ok _ _ _ _ _ E1), (sm_bind_Ok _ _ _ _ _ E2). cbv beta iota.
  rewrite (sm_bind_Ok _ _ _ _ _ E3), (sm_bind_Ok _ _ _ _ _ E4). cbv beta iota zeta. rewrite sm_ret_bind. exact Hw.
Qed.
End RenameRun.

(** C16. [Rename] to a name that is free: when the call succeeds, the old path leads nowhere and
    the new one shows the same inode with the same attributes; a path that went on below the
    old name goes on below the new one, so that a directory moves with its contents; every
    path that avoids the old name leads where it led, apart from the attributes of the two
    directories, and every file has its content.  When it fails nothing is lost but, at
    most, the old name: the inode and its data are kept. *)
Theorem rename_moves_name `{HL : SafeIOLaws} `{HD : DecodersLaws} {D : Type} `{RWL : RWLaws D} `{CK : Clock} (partOff : Z)
    (dv : dataView) (w : txState D) (h : nat) (m : gmap key bytes) (oldPath newPath : bytes) (op np i : inodeItem) (idx ft dev : Z) :
  (forall n, time_ok (clock_at n)) -> ready partOff dv w h m -> (h <= 1)%nat -> rename_args m oldPath newPath op np i idx ft -> dev < 2 ^ 63 ->
  match renameEntry partOff oldPath newPath w with
  | (w', Ok _) =>
      (exists e, Stat partOff oldPath w' = (w', Err e)) /\
      (exists s, ExtendedStat partOff oldPath w = (w, Ok s) /\ ExtendedStat partOff newPath w' = (w', Ok s)) /\
      (forall q q' rest j b, path_parts q = path_parts oldPath ++ rest -> path_parts q' = path_parts newPath ++ rest ->
         resolves m q j -> path_not m (in_num op) (splitPath oldPath).2 rest (in_num i) (in_num j) ->
         isRegular j = true -> in_num j <> in_num op -> in_num j <> in_num np -> in_size j = blen b -> blen b <= dev ->
         file_data partOff (tx_sb w) dv m (in_num j) b -> ReadFile partOff dev q' w' = (w', Ok b)) /\
      (forall q j b, resolves_not m (in_num op) (splitPath oldPath).2 q j -> in_num j <> in_num op -> in_num j <> in_num np ->
         isRegular j = true -> in_size j = blen b -> blen b <= dev ->
         file_data partOff (tx_sb w) dv m (in_num j) b -> ReadFile partOff dev q w' = (w', Ok b))
  | (w', Err _) => rename_failed partOff True dv (in_num i) (in_num op) (in_num np) (splitPath oldPath).2 w m idx w'
  | (w', Panic) => full (tx_cow w')
  | (_, NoFuel) => False
  end.
Proof.
  intros Hclock Hrdy Hshort Ha Hdev. pose proof (rename_run partOff Hclock dv w h m Hrdy Hshort oldPath newPath op np i idx ft Ha) as Hw.
  destruct (renameEntry partOff oldPath newPath w) as [w' [[]|e| |]]; try done. destruct Hw as (h'&m'&Hlow'&Hr'&Hm&Hcom).
  destruct Hrdy as [Hr Hlow Hwf Hsec Hroom], Ha as [(Hop&Ho1&Ho2) [Hn Hux] (Hres&Hne1&Hne2) (Hnp&Hn1&Hn2&Hn3) [Hfree Hslot]].
  destruct (committed_sector _ _ Hcom) as [_ Esb]. destruct (repr_prefix _ _ _ _ _ _ _ (in_num op) typeDirIndex Hr) as [l0 Hl0].
  destruct (repr_prefix _ _ _ _ _ _ _ (in_num np) typeDirIndex Hr) as [l Hl]. destruct (unnamed_prefix _ _ _ _ _ _ _ _ Hn Hl0 Hl) as [l1 Hl1].
  pose proof (renamed_path m m' _ _ _ _ _ idx ft _ Hm Hn l0 l1 Hl0 Hl1 Hn3 Hslot Hfree) as Hpath.
  pose proof (renamed_entry m m' _ _ _ _ _ idx ft _ Hm Hn l0 l1 Hl0 Hl1 Hn3 Hslot Hfree) as Hent.
  assert (Hfr : forall j, in_num j <> in_num op -> in_num j <> in_num np -> m' !! inodeKey (in_num j) = m !! inodeKey (in_num j)).
  { intros j H1 H2. apply (renamed_frame _ _ _ _ _ _ _ _ _ _ Hm); try done; by intros [= ?]. }
  assert (Hread : forall q j b, path_to m' (path_parts q) rootDirObjID (in_num j) -> (exists d, m !! inodeKey (in_num j) = Some d /\ decode_inode (in_num j) d = Ok j) ->
    in_num j <> in_num op -> in_num j <> in_num np -> isRegular j = true -> in_size j = blen b -> blen b <= dev ->
    file_data partOff (tx_sb w) dv m (in_num j) b -> ReadFile partOff dev q w' = (w', Ok b)).
  { intros q j b Hp (d&Ed&Hd) H1 H2 Hreg Hsz Hb Hdata. eapply (ReadFile_run partOff trees True dv w' h' m' (tx_sb w) q j); try done.
    - split; [done|]. exists d. by rewrite Hfr.
    - eapply file_data_frame; [done| |exact Hdata]. intros k Hk1 Hk. apply (renamed_frame _ _ _ _ _ _ _ _ _ _ Hm); try (by rewrite Hk); by intros ->. }
  assert (Hnew : forall rest j, path_not m (in_num op) (splitPath oldPath).2 rest (in_num i) j -> path_to m' (path_parts newPath ++ rest) rootDirObjID j).
  { intros rest j Hp. apply path_to_app. exists (in_num i). split; [|by apply Hpath].
    destruct (splitPath_parts newPath) as [(Ep&_)|(_&_&[?|?])]; [|done..]. rewrite Ep. apply path_to_app. exists (in_num np).
    split; [by apply Hpath, Hnp|]. exists (in_num i, ft). split; [|done]. apply Hent. by left. }
  pose proof Hres as (_&di&Edi&Hdec). split_and!.
  - eapply (Stat_gone partOff True dv w' h' m' oldPath (in_num op)); [done|done|done|by apply Hpath, Hop|].
    intros r. by eapply (renamed_gone m m' _ _ _ _ _ idx ft _ Hm Hn l0 l1).
  - exists (stat_of (in_num i) di). split; [by apply (ExtendedStat_run partOff True dv w h m); [..|apply (wf_inodes _ Hwf)| |]|].
    apply (ExtendedStat_run partOff True dv w' h' m' newPath i); [done|done|eapply renamed_inodes_ok; [exact Hm|apply (wf_inodes _ Hwf)]| |by rewrite Hfr].
    split; [|exists di; by rewrite Hfr]. specialize (Hnew [] (in_num i) eq_refl). by rewrite app_nil_r in Hnew.
  - intros q q' rest j b _ Eq' (_&Hj) Hrest Hreg H1 H2 Hsz Hb Hdata. apply (Hread q' j); try done. rewrite Eq'. by apply Hnew.
  - intros q j b [Hq Hj] H1 H2 Hreg Hsz Hb Hdata. apply (Hread q j); try done. by apply Hpath.
Qed.
