(* ===== verification/Session.v ===== *)
(** * Sessions: operations one after the other

    The state every theorem on a write operation asks for, [ready], is what every such operation
    leaves when it succeeds: the theorems apply again to the next call. *)
From Stdlib Require Import ZArith Lia Strings.Byte.
From stdpp Require Import base option list numbers sorting gmap.
From S2P Require Import Prelude Bytes Alloc Layout SafeIO Chunk Node BTree Walk Split Crc32c Cow Store CowCorrect.
From S2P Require Import Codec Read FileRead Tx Extent Ops FsTree DeletePrefix FsLookup InodeEdit Rebuild FsData ExtentLayout ExtentWrite.
From S2P Require Import CommitCorrect InodeOps Entries XattrOps Paths Create CreateApi Overwrite Trim Truncate Remove Links LinkApi Rename.
Local Open Scope Z_scope.
Local Open Scope btrfs_scope.

(** ** Well-formed items *)
Definition sound (m : gmap key bytes) : Prop := inodes_ok m /\ exts_ok m /\ owned m.

Lemma sound_wf m : fs_wf m -> sound m.
Proof. intros [H1 H2 _ _ H3]. done. Qed.
Lemma sound_edit m m' ino f : sound m -> inode_edit m m' ino f -> sound m'.
Proof.
  intros (H1&H2&H3) He. split_and!; [by eapply inodes_ok_edit|by eapply exts_ok_edit|]. destruct He as (d&d'&_&->&_).
  intros k x Ex Ht. rewrite lookup_insert_ne in Ex by (intros <-; by destruct Ht). destruct (H3 k x Ex Ht) as [y Ey].
  destruct (decide (inodeKey (objID k) = inodeKey ino)) as [->|Hk]; [rewrite lookup_insert_eq; by eexists|rewrite lookup_insert_ne by done; by exists y].
Qed.
(** Directory entries, back references and attributes come and go. *)
Lemma sound_alter m k o :
  sound m -> typ k <> typeInodeItem -> typ k <> typeExtentData -> (typ k = typeInodeRef -> is_Some (m !! inodeKey (objID k))) ->
  sound (partial_alter (fun _ => o) k m).
Proof.
  intros (H1&H2&H3) Hi Hx Hr. set (m' := partial_alter _ k m). assert (Hne : forall k', k' <> k -> m' !! k' = m !! k') by (intros; by apply lookup_partial_alter_ne).
  assert (Hino : forall j, m' !! inodeKey j = m !! inodeKey j) by (intros j; apply Hne; intros <-; by apply Hi). split_and!.
  - intros j d E. rewrite Hino in E. by eapply H1.
  - intros k' d E Ht. rewrite Hne in E by (intros ->; by apply Hx). by apply (H2 k' d E).
  - intros k' d E Ht. rewrite Hino. destruct (decide (k' = k)) as [->|Hk]; [destruct Ht as [Ht|Ht]; [by apply Hr|done]|]. rewrite Hne in E by done. by eapply H3.
Qed.
Lemma sound_insert m k d :
  sound m -> typ k <> typeInodeItem -> typ k <> typeExtentData -> (typ k = typeInodeRef -> is_Some (m !! inodeKey (objID k))) -> sound (<[k := d]> m).
Proof. apply (sound_alter m k (Some d)). Qed.
Lemma sound_delete m k : sound m -> typ k <> typeInodeItem -> typ k <> typeExtentData -> typ k <> typeInodeRef -> sound (delete k m).
Proof. intros H1 H2 H3 H4. by apply (sound_alter m k None). Qed.

Lemma sound_named m parent name idx e : sound m -> sound (named m parent name idx e).
Proof. intros Hm. unfold named. do 2 (apply sound_insert; [|done..]). done. Qed.
Lemma sound_unnamed m parent name idx : sound m -> sound (unnamed m parent name idx).
Proof. intros Hm. unfold unnamed. do 2 (apply sound_delete; [|done..]). done. Qed.
Lemma sound_xattr m op ino name : sound m -> sound (xattr_put op m ino name).
Proof. intros Hm. by apply sound_alter. Qed.

(** Other items and the extents of one inode. *)
Lemma sound_other m m' ino : sound m -> other_keys m m' ino -> exts_ok m' ->
  (forall d', m' !! inodeKey ino = Some d' -> inodeItemSize <= blen d') -> is_Some (m' !! inodeKey ino) -> sound m'.
Proof.
  intros (H1&_&H3) Ho Hx Hd Hi. assert (Hino : forall j, j <> ino -> m' !! inodeKey j = m !! inodeKey j).
  { intros j Hj. apply Ho; [by intros [= ?]|]. by intros [_ ?]. }
  split_and!; [|done|].
  - intros j d E. destruct (decide (j = ino)) as [->|Hj]; [by apply Hd|]. rewrite Hino in E by done. by eapply H1.
  - intros k d E Ht. destruct (decide (objID k = ino)) as [->|Hk]; [done|]. rewrite Hino by done.
    apply (H3 k d); [|done]. rewrite <- E. symmetry. apply Ho; [by intros ->|tauto].
Qed.

(** ** What each operation leaves *)
Lemma edit_inode m m' ino f j : inode_edit m m' ino f -> is_Some (m !! inodeKey j) -> is_Some (m' !! inodeKey j).
Proof.
  intros (d&d'&_&->&_) [x Ex]. destruct (decide (inodeKey j = inodeKey ino)) as [->|Hk]; [rewrite lookup_insert_eq; by eexists|].
  rewrite lookup_insert_ne by done. by exists x.
Qed.
Lemma sound_linked m m' ino parent name ft gen : sound m -> is_Some (m !! inodeKey ino) -> linked m m' ino parent name ft gen -> sound m'.
Proof.
  intros Hm Hi (idx&now&d&m3&_&_&_&_&E1&E2). eapply sound_edit; [|exact E2]. eapply sound_edit; [|exact E1].
  apply sound_insert; [by apply sound_named|done|done|]. intros _. by rewrite named_inode.
Qed.
Lemma sound_unlinked m m' ino parent name idx gen : sound m -> is_Some (m !! inodeKey ino) -> unlinked m m' ino parent name idx gen -> sound m'.
Proof.
  intros Hm Hi (now&now'&o&m3&_&_&_&E1&E2). eapply sound_edit; [|exact E2]. eapply sound_edit; [|exact E1].
  apply sound_alter; [by apply sound_unnamed|done|done|]. intros _. by rewrite unnamed_inode.
Qed.
Lemma sound_parents m m' op np on nn gen : sound m -> parents_edited m m' op np on nn gen -> sound m'.
Proof.
  intros Hm (m1&m2&m3&now&E1&E2&_&E3&H). assert (H3 : sound m3) by (do 3 (eapply sound_edit; [|eassumption]); done).
  destruct H as [[_ ->]|(_&now'&_&E4)]; [done|by eapply sound_edit].
Qed.
Lemma sound_renamed m m' ino op np on nn idx ft gen :
  sound m -> is_Some (m !! inodeKey ino) -> renamed m m' ino op np on nn idx ft gen -> sound m'.
Proof.
  intros Hm Hi (o&nidx&d&_&_&_&Hp). set (m1 := partial_alter _ _ _) in Hp. eapply sound_parents; [|exact Hp].
  assert (Hi1 : is_Some (m1 !! inodeKey ino)) by (unfold m1; by rewrite lookup_partial_alter_ne, unnamed_inode).
  apply sound_insert; [|done|done|intros _; by rewrite named_inode]. apply sound_named, sound_alter; [by apply sound_unnamed|done|done|].
  intros _. by rewrite unnamed_inode.
Qed.

(** The items of an inode that has no other back reference go. *)
Definition one_parent (m : gmap key bytes) (ino parent : Z) : Prop :=
  forall k d, m !! k = Some d -> objID k = ino -> typ k = typeInodeRef -> k = refKey ino parent.
Lemma sound_no_inode m ino parent : sound m -> one_parent m ino parent -> sound (no_inode ino parent m).
Proof.
  intros (H1&H2&H3) Hone. assert (Hsub : forall k d, no_inode ino parent m !! k = Some d -> m !! k = Some d) by apply no_inode_sub.
  split_and!; [intros j d E; by eapply H1, Hsub|intros k d E Ht; apply (H2 k d); [by apply Hsub|done]|].
  intros k d E Ht. pose proof (Hsub _ _ E) as Em. assert (Hk : objID k <> ino).
  { intros Ho. unfold no_inode in E. apply lookup_delete_Some in E as [_ E]. apply lookup_delete_Some in E as [Hk E].
    destruct Ht as [Ht|Ht]; [by apply Hk; rewrite (Hone k d)|]. rewrite without_keep in E by (right; by rewrite Ht). by eapply (without_gone m ino typeExtentData k d). }
  destruct (H3 k d Em Ht) as [x Ex]. exists x. unfold no_inode. rewrite !lookup_delete_ne by (intros [= ?]; congruence).
  by rewrite !without_keep by (by right).
Qed.

(** ** The items of a state *)

(** A device has one height and one set of items under a root. *)
Lemma wtree_height t t' rn h h' a c c' ads ads' : wtree t rn h a c ads -> wtree t' rn h' a c' ads' -> h = h'.
Proof.
  assert (Hlevel : forall t h c ads, wtree t rn h a c ads -> exists buf, rn a = Ok buf /\ rd 1 buf 0x64 = Z.of_nat h).
  { intros t0 [|h0] c0 ads0; cbn [wtree].
    - intros (buf&E&(_&L&_)&_). by exists buf.
    - intros (buf&kids&E&(_&L&_)&_). by exists buf. }
  intros H1 H2. destruct (Hlevel _ _ _ _ H1) as (b1&E1&L1), (Hlevel _ _ _ _ H2) as (b2&E2&L2). rewrite E1 in E2. injection E2 as ->. lia.
Qed.
Section Views.
Context `{HL : SafeIOLaws} {D : Type} `{RWL : RWLaws D} (partOff : Z) (R R' : keeper) (t t' : Prop).
Context (dv dv' : dataView) (w : txState D) (h h' : nat) (m m' : gmap key bytes).
Context (H1 : repr partOff R t dv w h m) (H2 : repr partOff R' t' dv' w h' m').

Lemma repr_height : h = h'.
Proof using H1 H2. destruct H1 as (c&ads&rest&_&Hw&_), H2 as (c'&ads'&rest'&_&Hw'&_). by eapply wtree_height. Qed.
Lemma repr_size : dv_size dv = dv_size dv'.
Proof using H1 H2.
  destruct H1 as (c&ads&rest&_&_&_&(_&_&_&_&_&_&_&E1&_)&_), H2 as (c'&ads'&rest'&_&_&_&(_&_&_&_&_&_&_&E2&_)&_). congruence.
Qed.
Lemma repr_sub : Z.of_nat h <= maxBtreeDepth -> m ⊆ m'.
Proof using H1 H2 HL RWL.
  intros Hh. apply map_subseteq_spec. intros k d E. pose proof (repr_key_ok _ _ _ _ _ _ _ _ _ H1 E) as Hk.
  assert (W1 : wp never (fs_search partOff k) w (fun r _ => item_copy r.1 r.2 = d) (fun _ _ => False)).
  { eapply (fs_search_spec partOff R never t dv w h m); [done|done| |].
    - intros buf it d' _ E' _ Ec. cbn. congruence.
    - intros e He. destruct (He Hh). congruence. }
  assert (W2 : wp never (fs_search partOff k) w (fun r _ => m' !! k = Some (item_copy r.1 r.2)) (fun _ _ => True)).
  { eapply (fs_search_spec partOff R' never t' dv' w h' m'); [done|done| |done]. intros buf it d' _ E' _ Ec. cbn. congruence. }
  unfold wp in W1, W2. destruct (fs_search partOff k w) as [w1 [r|e| |]]; try done. by rewrite W1 in W2.
Qed.
End Views.
Lemma repr_fun `{HL : SafeIOLaws} {D : Type} `{RWL : RWLaws D} partOff R R' t t' dv dv' (w : txState D) h h' m m' :
  repr partOff R t dv w h m -> repr partOff R' t' dv' w h' m' -> Z.of_nat h <= maxBtreeDepth -> m = m'.
Proof.
  intros H1 H2 Hh. pose proof (repr_height _ _ _ _ _ _ _ _ _ _ _ _ H1 H2) as <-. apply (anti_symm (⊆)); by eapply repr_sub.
Qed.

(** ** The operations *)
Inductive fsOp :=
| OWrite (p data : bytes) (perm : Z) | OMkDir (p : bytes) (perm : Z) | OSymlink (target p : bytes)
| OAttr (op : attrOp) (p : bytes) | OXattr (op : xattrOp) (p name : bytes) | OShrink (p : bytes) (n : Z)
| OLink (oldPath newPath : bytes) | ODelete (p : bytes) | ORename (oldPath newPath : bytes).

Section Session.
Context `{HL : SafeIOLaws} `{HD : DecodersLaws} {D : Type} `{RWL : RWLaws D} `{CK : Clock} (partOff : Z).
Context (Hclock : forall n, time_ok (clock_at n)).
Abbreviation W := (txState D).

Definition run_op (o : fsOp) : SM W unit :=
  match o with
  | OWrite p data perm => writeFile partOff p data perm
  | OMkDir p perm => makeDir partOff p perm
  | OSymlink target p => symlinkInode partOff target p
  | OAttr op p => run_attr partOff op p
  | OXattr op p name => run_xattr partOff op p name
  | OShrink p n => Truncate partOff p n
  | OLink oldPath newPath => linkInode partOff oldPath newPath
  | ODelete p => deleteFile partOff p
  | ORename oldPath newPath => renameEntry partOff oldPath newPath
  end.

(** The situations in which the operations are specified. *)
Definition applicable (o : fsOp) (dv : dataView) (w : W) (h : nat) (m : gmap key bytes) : Prop :=
  match o with
  | OWrite p data _ => blen data < 2 ^ 62 /\
      ((exists parent, new_name m p parent) \/ (h <= 1)%nat /\ exists i ft l, existing_file partOff dv w m p i ft l)
  | OMkDir p _ => exists parent, new_name m p parent
  | OSymlink target p => target <> [] /\ blen target < 2 ^ 62 /\ exists parent, new_name m p parent
  | OAttr op p => exists i, resolves m p i /\ attr_args op i
  | OXattr op p name => exists i, resolves m p i /\ xattr_args op name True h
  | OShrink p n => (h <= 1)%nat /\ exists i, resolves m p i /\ isRegular i = true /\ 0 <= n < in_size i
  | OLink oldPath newPath => exists i pi, link_args m oldPath newPath i pi
  | ODelete p => (h <= 1)%nat /\ exists pi i idx ft, shared_file m p pi i idx ft \/
      one_parent m (in_num i) (in_num pi) /\ exists l, deletable partOff dv w m p pi i idx ft l
  | ORename oldPath newPath => (h <= 1)%nat /\ exists op np i idx ft, rename_args m oldPath newPath op np i idx ft
  end.

(** The limits of the format are not reached: the depth of a tree and the numbers of inodes and of
    directory entries. *)
Definition in_limits (h : nat) (m : gmap key bytes) : Prop := Z.of_nat h <= maxBtreeDepth /\ inodes_numbered m /\ dirs_numbered m.
Definition ready_again (w' : W) : Prop :=
  exists dv' h' m', repr partOff trees True dv' w' h' m' /\ (in_limits h' m' -> ready partOff dv' w' h' m').
(** How an operation ends: it succeeds and leaves such a file system again, it fails, or it has used up the
    node blocks. *)
Definition ends_well (r : W * outcome unit) : Prop :=
  match r with
  | (w', Ok _) => ready_again w'
  | (_, Err _) => True
  | (w', Panic) => full (tx_cow w')
  | (_, NoFuel) => False
  end.

Lemma ready_next dv (w w' : W) h m dv' h' m' :
  ready partOff dv w h m -> repr partOff trees True dv' w' h' m' -> committed (tx_sb w) (tx_sb w') -> dv_size dv' = dv_size dv -> sound m' -> ready_again w'.
Proof using.
  intros [_ _ _ Hsec Hroom] Hr' Hc Hsz (H1&H2&H3). exists dv', h', m'. split; [done|]. intros (Hl&Hi&Hd). destruct (committed_sector _ _ Hc) as [Es _].
  split; [done|done|by split|by rewrite Es|by rewrite Hsz].
Qed.
Lemma holds_ready dv (w w' : W) m p parent mode data : holds partOff dv w m p parent mode data w' -> ready_again w'.
Proof using.
  intros (dv'&h'&m'&i&Hr'&_&_&_&_&_&_&_&_&_&Hrdy). exists dv', h', m'. split; [done|]. intros (_&Hi&Hd). by apply Hrdy.
Qed.

Context (dv : dataView) (w : W) (h : nat) (m : gmap key bytes) (Hrdy : ready partOff dv w h m).

Lemma write_ready p data perm : applicable (OWrite p data perm) dv w h m -> ends_well (writeFile partOff p data perm w).
Proof using All.
  intros [Hlen Hcase]. pose proof (blen_nonneg data). destruct Hcase as [[parent Hnew]|(Hshort&i&ft&l&Hex)].
  - pose proof (writeFile_spec partOff dv w h m p data perm parent (2 ^ 62) Hclock Hrdy Hnew Hlen ltac:(lia)) as Hw.
    destruct (writeFile _ _ _ _ _) as [w' [[]|e| |]]; try done. destruct Hw as (_&_&Hh). by eapply holds_ready.
  - rewrite (existing_run partOff dv w h m p i ft l data perm Hrdy Hex). destruct Hex as [_ _ [Hres Hreg] [Hl Hcount] Hheld].
    assert (Hu : is_u64 (in_num i)) by (eapply path_to_u64; [|apply Hres]; unfold is_u64, rootDirObjID; lia). pose proof Hres as (_&d0&Hd0&_).
    pose proof (overwriteFile_spec partOff Hclock (fun w' => full (tx_cow w')) ltac:(done) dv w h m Hrdy Hshort (in_num i) d0 Hu Hd0 l Hl Hcount Hheld
      data Hlen (fun _ _ => True) (fun _ _ _ => I)) as Hw. unfold wp in Hw. destruct (overwriteFile _ _ _ _) as [w' [[]|e| |]]; try done.
    destruct Hw as (dv'&h'&m'&Hr'&Hle&Hcom&Hoth&Hx&_&Hino). eapply ready_next; [done|exact Hr'|done|by destruct Hle|].
    pose proof (wf_inodes _ (rdy_wf _ _ _ _ _ Hrdy) _ _ Hd0) as Hd. eapply sound_other; [apply sound_wf, (rdy_wf _ _ _ _ _ Hrdy)|done|done| |].
    + intros d' E'. destruct Hino as [[E0 _]|(_&d1&_&_&E1&L&_)]; [|lia || assert (d' = d1) as -> by congruence; lia]. assert (d' = d0) as -> by congruence. done.
    + destruct Hino as [[E0 _]|(_&d1&_&_&E1&_)]; by eexists.
Qed.

Lemma shrink_ready p n : applicable (OShrink p n) dv w h m -> ends_well (Truncate partOff p n w).
Proof using All.
  intros (Hshort&i&Hres&Hreg&Hn). pose proof Hres as (_&d0&Hd0&_). pose proof Hrdy as [Hr _ Hwf _ _].
  destruct (repr_prefix _ _ _ _ _ _ _ (in_num i) typeExtentData Hr) as [l Hl].
  pose proof (Truncate_spec partOff (fun w' => full (tx_cow w')) dv w h m p i l n d0 (fun _ => cut partOff dv w m (in_num i) d0 l n) (fun _ _ => True)
    Hclock ltac:(done) Hrdy Hshort Hres Hreg Hn Hl Hd0 (fun _ Hc => Hc) (fun _ _ _ => I)) as Hw. unfold wp in Hw.
  destruct (Truncate _ _ _ _) as [w' [[]|e| |]]; try done.
  destruct Hw as (h'&m'&d'&now&nb&Hr'&_&Hcom&Hoth&Hx&_&Ed'&L&_). eapply ready_next; [done|exact Hr'|done|done|].
  pose proof (wf_inodes _ Hwf _ _ Hd0). eapply sound_other; [by apply sound_wf|exact Hoth|done| |by eexists].
  intros d E'. assert (d = d') as -> by congruence. lia.
Qed.
Lemma delete_ready p : applicable (ODelete p) dv w h m -> ends_well (deleteFile partOff p w).
Proof using All.
  intros (Hshort&pi&i&idx&ft&Hcase). pose proof Hrdy as [Hr Hlow Hwf _ Hroom]. pose proof (sound_wf _ Hwf) as Hs. destruct Hcase as [Hsh|(Hone&l&Hdel)].
  - pose proof (unlink_run partOff True dv w h m p pi i idx ft Hclock Hroom Hr Hlow ltac:(done) (wf_inodes _ Hwf) (wf_exts _ Hwf) Hsh) as Hw.
    destruct (deleteFile _ _ _) as [w' [[]|e| |]]; try done. destruct Hw as (h'&m'&_&Hr'&Hu&Hcom), Hsh as [_ _ _ ((_&d0&Hd0&_)&_) _]. eapply ready_next; [done|exact Hr'|done|done|].
    eapply sound_unlinked; [done|by eexists|exact Hu].
  - pose proof (delete_run partOff True dv w h m p pi i idx ft l Hclock Hroom Hr Hlow ltac:(done) (wf_inodes _ Hwf) (wf_exts _ Hwf) Hdel) as Hw.
    destruct (deleteFile _ _ _) as [w' [[]|e| |]]; try done. destruct Hw as (h'&m'&now&_&Hr'&Hcom&_&He). eapply ready_next; [done|exact Hr'|done|done|].
    eapply sound_edit; [|exact He]. by apply sound_unnamed, sound_no_inode.
Qed.

Lemma wp_ends (a : SM W unit) : wp (fun w' => full (tx_cow w')) a w (fun _ => ready_again) (fun _ _ => True) -> ends_well (a w).
Proof using. unfold wp, ends_well. by destruct (a w) as [w' [[]|e| |]]. Qed.
Lemma run_op_ends o : applicable o dv w h m -> ends_well (run_op o w).
Proof using All.
  pose proof Hrdy as [Hr Hlow Hwf _ Hroom]. pose proof (sound_wf _ Hwf) as Hs.
  destruct o as [p data perm|p perm|target p|op p|op p name|p n|oldPath newPath|p|oldPath newPath]; cbn [run_op].
  - by apply write_ready.
  - intros [parent Hnew]. pose proof (makeDir_wp partOff Hclock dv w h m p parent perm Hrdy Hnew) as Hw. unfold wp in Hw.
    destruct (makeDir _ _ _ _) as [w' [[]|e| |]]; try done. by eapply holds_ready.
  - intros (Ht&Hlen&parent&Hnew). pose proof (blen_nonneg target).
    pose proof (symlink_spec partOff dv w h m p target parent (2 ^ 62) Hclock Hrdy Hnew Ht Hlen ltac:(lia)) as Hw.
    destruct (symlinkInode _ _ _ _) as [w' [[]|e| |]]; try done. by eapply holds_ready, Hw.
  - intros (i&Hres&Ha). apply wp_ends.
    eapply (run_attr_spec partOff Hclock (fun w' => full (tx_cow w')) ltac:(done) dv Hroom True w h m op p i); [done|apply Hwf|apply Hwf|done|done| |done].
    intros w1 (h'&m'&now&_&_&Hr'&_&He&Hcom). eapply ready_next; [done|exact Hr'|done|done|by eapply sound_edit].
  - intros (i&Hres&Ha). apply wp_ends.
    eapply (run_xattr_spec partOff Hclock (fun w' => full (tx_cow w')) ltac:(done) dv Hroom True w h m op p name i); [done|done|apply Hwf|apply Hwf|done|done| |done].
    intros w1 (h'&m'&now&_&Hr'&_&Hcom&He). eapply ready_next; [done|exact Hr'|done|done|]. eapply sound_edit; [|exact He]. by apply sound_xattr.
  - by apply shrink_ready.
  - intros (i&pi&Ha). pose proof (link_run partOff Hclock dv w h m Hrdy oldPath newPath i pi Ha) as Hw.
    destruct (linkInode _ _ _ _) as [w' [[]|e| |]]; try done. destruct Hw as (h'&m'&_&Hr'&Hl&Hcom), Ha as [((_&d0&Hd0&_)&_) _ _ _]. eapply ready_next; [done|exact Hr'|done|done|].
    eapply sound_linked; [done|by eexists|exact Hl].
  - by apply delete_ready.
  - intros (Hshort&op&np&i&idx&ft&Ha). pose proof (rename_run partOff Hclock dv w h m Hrdy Hshort oldPath newPath op np i idx ft Ha) as Hw.
    destruct (renameEntry _ _ _ _) as [w' [[]|e| |]]; try done. destruct Hw as (h'&m'&_&Hr'&Hn&Hcom), Ha as [_ _ ((_&d0&Hd0&_)&_) _ _]. eapply ready_next; [done|exact Hr'|done|done|].
    eapply sound_renamed; [done|by eexists|exact Hn].
Qed.
End Session.

(** ** Sequences of operations *)
Record fsState (D : Type) := FsState { fs_dv : dataView; fs_w : txState D; fs_h : nat; fs_m : gmap key bytes }.
Arguments FsState {D}. Arguments fs_dv {D}. Arguments fs_w {D}. Arguments fs_h {D}. Arguments fs_m {D}.

Section Sessions.
Context `{HL : SafeIOLaws} `{HD : DecodersLaws} {D : Type} `{RWL : RWLaws D} `{CK : Clock} (partOff : Z).

Definition ready_state (s : fsState D) : Prop := ready partOff (fs_dv s) (fs_w s) (fs_h s) (fs_m s).
(** A view of what is on the device, within the limits of the format. *)
Definition view (s : fsState D) : Prop := repr partOff trees True (fs_dv s) (fs_w s) (fs_h s) (fs_m s) /\ in_limits (fs_h s) (fs_m s).

(** One operation after the other, each in a situation in which it is specified, and each
    successful. *)
Inductive session : fsState D -> list fsOp -> fsState D -> Prop :=
| session_nil s : session s [] s
| session_op s o s1 ops s2 :
    applicable partOff o (fs_dv s) (fs_w s) (fs_h s) (fs_m s) -> run_op partOff o (fs_w s) = (fs_w s1, Ok tt) -> view s1 ->
    session s1 ops s2 -> session s (o :: ops) s2.

Lemma ready_view dv (w : txState D) h m : ready_again partOff w -> repr partOff trees True dv w h m -> in_limits h m -> ready partOff dv w h m.
Proof using HL RWL.
  intros (dv'&h'&m'&Hr'&Hrdy) Hr Hlim. pose proof (repr_height _ _ _ _ _ _ _ _ _ _ _ _ Hr Hr') as <-. pose proof Hlim as [Hlow _].
  pose proof (repr_fun _ _ _ _ _ _ _ _ _ _ _ _ Hr Hr' Hlow) as <-. destruct (Hrdy Hlim) as [_ _ Hwf Hsec Hroom].
  split; try done. by rewrite (repr_size _ _ _ _ _ _ _ _ _ _ _ _ Hr Hr').
Qed.
Lemma session_ready s ops s' : (forall n, time_ok (clock_at n)) -> session s ops s' -> ready_state s -> ready_state s'.
Proof using HL HD RWL.
  intros Hclock. induction 1 as [s|s o s1 ops s2 Ha Hrun [Hr1 Hlim] _ IH]; [done|]. intros Hrdy. apply IH.
  apply ready_view; [|done|done].
  pose proof (run_op_ends partOff Hclock _ _ _ _ Hrdy o Ha) as He. by rewrite Hrun in He.
Qed.
Lemma session_snoc s ops s1 o s2 :
  session s ops s1 -> applicable partOff o (fs_dv s1) (fs_w s1) (fs_h s1) (fs_m s1) -> run_op partOff o (fs_w s1) = (fs_w s2, Ok tt) -> view s2 ->
  session s (ops ++ [o]) s2.
Proof using.
  induction 1 as [s|s o' s1' ops s1 Ha' Hrun' Hv' _ IH]; intros Ha Hrun Hv; cbn [app]; [by econstructor; [..|constructor]|].
  econstructor; [done|done|done|]. by apply IH.
Qed.
End Sessions.

(** C5. Operations compose.  From a file system on which operations can run, however many of
    them have succeeded one after the other, whichever they were, operations can run on
    the file system again.  An operation that comes next succeeds, and the sequence goes on with it
    unless a limit of the format is reached, or fails with an error, or has used up the node
    blocks; it does not run for ever. *)
Theorem sessions_stay_ready `{HL : SafeIOLaws} `{HD : DecodersLaws} {D : Type} `{RWL : RWLaws D} `{CK : Clock} (partOff : Z)
    (s s' : fsState D) (ops : list fsOp) :
  (forall n, time_ok (clock_at n)) -> ready_state partOff s -> session partOff s ops s' ->
  ready_state partOff s' /\
  forall o, applicable partOff o (fs_dv s') (fs_w s') (fs_h s') (fs_m s') ->
    match run_op partOff o (fs_w s') with
    | (w', Ok _) => exists dv h m, let s'' := FsState dv w' h m in repr partOff trees True dv w' h m /\
        (in_limits h m -> session partOff s (ops ++ [o]) s'' /\ ready_state partOff s'')
    | (_, Err _) => True
    | (w', Panic) => full (tx_cow w')
    | (_, NoFuel) => False
    end.
Proof.
  intros Hclock Hrdy Hs. pose proof (session_ready partOff s ops s' Hclock Hs Hrdy) as Hrdy'. split; [done|]. intros o Ha.
  pose proof (run_op_ends partOff Hclock _ _ _ _ Hrdy' o Ha) as He. destruct (run_op partOff o (fs_w s')) as [w' [[]|e| |]] eqn:E; try done.
  destruct He as (dv&h&m&Hr&Hready). exists dv, h, m. split; [done|]. intros Hlim. split; [|by apply Hready]. by eapply session_snoc.
Qed.
