(* ===== verification/OpsExamples.v ===== *)
(** * The operations on a concrete file system

    A small file system on the memory device of CowExamples: a root tree with the
    ROOT_ITEMs of the extent tree and of the FS tree, an FS tree with the root
    directory, an empty extent tree.  The theorems on the write operations are
    applied to it. *)
From Stdlib Require Import ZArith Lia Strings.Byte.
From stdpp Require Import base option list numbers sorting gmap.
From S2P Require Import Prelude Bytes Alloc Layout SafeIO Chunk Node BTree Walk Split Crc32c Cow Store CowCorrect CowExamples.
From S2P Require Import Codec Read FileRead Tx Extent Ops FsTree FsLookup InodeEdit Rebuild FsData ExtentLayout ExtentWrite.
From S2P Require Import CommitCorrect InodeOps Entries Paths Create CreateApi.
Local Open Scope Z_scope.
Local Open Scope btrfs_scope.
#[local] Existing Instance listSafeIO.
#[local] Existing Instance storedDecoders.
#[local] Existing Instance storedDecoders_laws.

(** A clock that counts seconds. *)
#[local] Instance fxClock : Clock := fun n => (1700000000 + Z.of_nat n mod 1000, 5).
Lemma fx_clock n : time_ok (clock_at n).
Proof. unfold time_ok, clock_at, fxClock. cbn [fst snd]. pose proof (Z.mod_pos_bound (Z.of_nat n) 1000 ltac:(lia)). lia. Defined.

Definition fx_chunk : chunkMapping := ChunkMapping 0x11000 0x7000 0x11000 0 0x4 0x10000 1 [ChunkStripe 1 0x11000].
Definition fx_sb : superblock :=
  Superblock 1024 4096 1024 4096 0x18000 0x11000 0x11000 7 1 (zeros 16) (zeros 256) [fx_chunk].

Definition fx_leaf (l : list rec) : bytes :=
  match buildLeafFromItems (zeros 1024) l 1024 with Ok b => b | _ => [] end.
Definition fx_root_item (bytenr : Z) : bytes := wr 8 (zeros 239) rootItemOffBytenr bytenr.
Definition fx_root_items : list rec :=
  [(Key extentTreeObjID typeRootItem 0, fx_root_item 0x11800); (Key fsTreeObjID typeRootItem 0, fx_root_item 0x11400)].
Definition fx_dir_item : bytes := encodeInodeItem rootDirObjID 0 0x41ED 7 0 1 (1600000000, 0).
Definition fx_fs_items : list rec := [(inodeKey rootDirObjID, fx_dir_item); (Key rootDirObjID typeInodeRef rootDirObjID, encodeInodeRef 0 dotdot)].
Definition fx_dev : bytes :=
  zeros 0x11000 ++ fx_leaf fx_root_items ++ fx_leaf fx_fs_items ++ fx_leaf [] ++ zeros (0x18000 - 0x11C00).
Definition fx : txState bytes := TxState (CowState fx_dev (SpaceManager [FreeExtent 0x11C00 0x6400] 1024)) fx_sb 0x11400 0.
Definition fx_m : gmap key bytes := leaf_map fx_fs_items.
Definition fx_dv : dataView := no_data 0x18000.

Definition name_a : bytes := [byte_of_Z 97].
Definition path_a : bytes := [slash; byte_of_Z 97].

(** ** It is a file system the theorems speak about *)
Lemma fx_flat : flat_map 0 fx_sb.
Proof.
  split; [vm_compute; split; discriminate|]. split; [lia|]. split; [split|].
  - intros m. cbn. rewrite elem_of_cons, elem_of_nil. intros [->|[]]. cbn. lia.
  - intros m m'. cbn. rewrite !elem_of_cons, !elem_of_nil. intros [->|[]] [->|[]]. by left.
  - split; repeat constructor.
Defined.

Definition fx_ads : list Z := [0x11400; 0x11000; 0x11800].
Lemma fx_mapped p : Store.mapped fx_sb p <-> 0x11000 <= p < 0x18000.
Proof.
  split.
  - intros (c&Hc&Hp). cbn in Hc. apply elem_of_cons in Hc as [->|Hc]; [cbn in Hp; lia|by apply not_elem_of_nil in Hc].
  - intros Hp. exists fx_chunk. split; [by left|cbn; lia].
Qed.

Lemma fx_Inv : Inv 0 fx_sb fx_dv (tx_cow fx) fx_ads.
Proof.
  assert (Hfree : forall p, is_free (st_sm (tx_cow fx)) p <-> 0x11C00 <= p < 0x18000).
  { intros p. unfold is_free, cov. cbn [fx tx_cow st_sm sm_freeExts map sumZ foldr fe_physStart fe_size].
    destruct (inr_spec 0x11C00 0x6400 p) as [[? ->]|[? ->]]; lia. }
  assert (Hsz : dev_size (st_dev (tx_cow fx)) = 0x18000) by (vm_compute; reflexivity).
  assert (Hads : forall a, a ∈ fx_ads -> a = 0x11400 \/ a = 0x11000 \/ a = 0x11800).
  { intros a. unfold fx_ads. rewrite !elem_of_cons, elem_of_nil. tauto. }
  split; [|split; [reflexivity|split; [|split; [|split; [|split; [|split]]]]]].
  - split; [repeat constructor; unfold fe_ok; cbn; lia|]. split; [|cbn; lia].
    intros p. cbn. destruct (inr_spec 0x11C00 0x6400 p) as [[? ->]|[? ->]]; lia.
  - intros p Hp. apply Hfree in Hp. rewrite Hsz. split; [lia|]. split; [apply fx_mapped; lia|lia].
  - apply Forall_forall. intros a Ha. apply Hads in Ha. unfold block_ok. rewrite Hsz.
    change (sb_nodeSize fx_sb) with 1024. split; [lia|]. split; [intros p Hp; apply fx_mapped; lia|lia].
  - apply (bool_decide_unpack _). vm_compute. reflexivity.
  - intros a b Ha Hb. apply Hads in Ha, Hb. change (sb_nodeSize fx_sb) with 1024. lia.
  - intros a Ha (p&Hp&Hf). apply Hads in Ha. apply Hfree in Hf. change (sb_nodeSize fx_sb) with 1024 in Hp. lia.
  - split; [done|]. split; [intros p []|]. intros a n Hn Hd. destruct (Hd a ltac:(lia)).
Qed.

Lemma fx_tree t a l :
  rn 0 fx_sb (tx_cow fx) a = Ok (fx_leaf l) -> leaf_repr (fx_leaf l) l -> keys_sorted l ->
  wtree t (rn 0 fx_sb (tx_cow fx)) 0 a l [a].
Proof. intros H1 H2 H3. by exists (fx_leaf l). Qed.

Lemma fx_read_root : rn 0 fx_sb (tx_cow fx) 0x11000 = Ok (fx_leaf fx_root_items).
Proof. vm_compute. reflexivity. Qed.
Lemma fx_read_fs : rn 0 fx_sb (tx_cow fx) 0x11400 = Ok (fx_leaf fx_fs_items).
Proof. vm_compute. reflexivity. Qed.
Lemma fx_read_ext : rn 0 fx_sb (tx_cow fx) 0x11800 = Ok (fx_leaf []).
Proof. vm_compute. reflexivity. Qed.

Lemma fx_root_map : leaf_map fx_root_items !! Key extentTreeObjID typeRootItem 0 = Some (fx_root_item 0x11800) /\
  leaf_map fx_root_items !! Key fsTreeObjID typeRootItem 0 = Some (fx_root_item 0x11400) /\
  leaf_map fx_root_items !! Key dataRelocTreeObjID typeRootItem 0 = None.
Proof. split; [reflexivity|split; reflexivity]. Qed.

Lemma fx_trees : trees fx_sb (rn 0 fx_sb (tx_cow fx)) [0x11000; 0x11800].
Proof.
  destruct fx_root_map as (E1&E2&E3).
  exists 0%nat, fx_root_items, [0x11000], [0x11800], [], []. split_and!.
  - done.
  - apply fx_tree; [apply fx_read_root|repeat split; vm_compute; first [reflexivity|discriminate]|].
    repeat constructor; vm_compute; reflexivity.
  - done.
  - repeat constructor; discriminate.
  - exists 0x11400, (fx_root_item 0x11400). split_and!; [exact E2|vm_compute; discriminate|vm_compute; reflexivity].
  - intros r (d&Ed&_&<-). rewrite E1 in Ed. injection Ed as <-. apply list_elem_of_singleton. vm_compute. reflexivity.
  - intros a buf Ha Er. apply list_elem_of_singleton in Ha as ->. rewrite fx_read_ext in Er. injection Er as <-.
    intros Hl. exfalso. apply Hl. vm_compute. reflexivity.
  - intros r (d&Ed&_). rewrite E3 in Ed. discriminate Ed.
  - intros a buf Ha. by apply not_elem_of_nil in Ha.
  - intros a buf items it Ha. by apply not_elem_of_nil in Ha.
  - unfold is_u64. cbn. lia.
  - intros p Hp. rewrite fx_mapped. unfold superblockOffset, sbfSize in Hp. lia.
Qed.

Lemma fx_repr : repr 0 trees True fx_dv fx 0 fx_m.
Proof.
  exists fx_fs_items, [0x11400], [0x11000; 0x11800]. split_and!.
  - apply fx_flat.
  - apply fx_tree; [apply fx_read_fs|repeat split; vm_compute; first [reflexivity|discriminate]|].
    repeat constructor; vm_compute; reflexivity.
  - done.
  - apply fx_Inv.
  - apply fx_trees.
  - repeat constructor; discriminate.
  - split; [vm_compute; discriminate|]. by intros p [].
Qed.

Lemma fx_items k d : fx_m !! k = Some d ->
  (k = inodeKey rootDirObjID /\ d = fx_dir_item) \/ (k = Key rootDirObjID typeInodeRef rootDirObjID /\ d = encodeInodeRef 0 dotdot).
Proof.
  intros E. apply elem_of_list_to_map_2 in E. unfold fx_fs_items in E.
  rewrite !elem_of_cons, elem_of_nil in E. destruct E as [[= -> ->]|[[= -> ->]|[]]]; [by left|by right].
Qed.

Lemma fx_wf : fs_wf fx_m.
Proof.
  split.
  - intros ino d E. apply fx_items in E as [[_ ->]|[[=] _]]. vm_compute. discriminate.
  - intros k d E Ht. by apply fx_items in E as [[-> _]|[-> _]].
  - intros k d E Ht. apply fx_items in E as [[-> _]|[-> _]]; [|done]. cbn. unfold rootDirObjID. lia.
  - intros k d E Ht. by apply fx_items in E as [[-> _]|[-> _]].
  - intros k d E Ht. exists fx_dir_item. by apply fx_items in E as [[-> _]|[-> _]].
Qed.

Lemma fx_ready : ready 0 fx_dv fx 0 fx_m.
Proof.
  split; [apply fx_repr|done|apply fx_wf|cbn; lia|]. unfold superblockOffset, sbfSize. cbn. lia.
Qed.

Definition fx_dir : inodeItem := InodeItem rootDirObjID 0x41ED 0 1.
Lemma fx_root_resolves : resolves fx_m [slash] fx_dir.
Proof. split; [reflexivity|]. exists fx_dir_item. split; [reflexivity|vm_compute; reflexivity]. Qed.

Lemma fx_new_name : new_name fx_m path_a rootDirObjID.
Proof.
  unfold new_name. replace (split_dir path_a) with ([slash], name_a) by (vm_compute; reflexivity).
  assert (Hs : fx_m !! Key rootDirObjID typeDirItem (hashDirName name_a) = None).
  { destruct (fx_m !! _) as [d|] eqn:E; [|done]. by apply fx_items in E as [[[=] _]|[[=] _]]. }
  split_and!; [exists fx_dir; split; [apply fx_root_resolves|done]|done|done|vm_compute; reflexivity| |exact Hs].
  intros r [(d&Ed&_)|[_ (l&[_ Hl]&El)]]; [congruence|].
  destruct l as [|[k d] l]; [done|]. destruct (proj1 (Hl k d) ltac:(by left)) as (Ek&_&Ht).
  by apply fx_items in Ek as [[-> _]|[-> _]].
Qed.

(** ** The theorems on it *)

Definition data_a : bytes := repeat (byte_of_Z 65) 5.
Lemma writeFile_reads_back_witness :
  exists w', writeFile 0 path_a data_a 0x1A4 fx = (w', Ok tt) /\ ReadFile 0 (2 ^ 40) path_a w' = (w', Ok data_a).
Proof.
  assert (Hok : is_ok (writeFile 0 path_a data_a 0x1A4 fx) = true) by (vm_compute; reflexivity).
  assert (Hlen : blen data_a = 5) by (vm_compute; reflexivity).
  pose proof (writeFile_reads_back 0 fx_dv fx 0 fx_m path_a data_a 0x1A4 rootDirObjID (2 ^ 40) fx_clock fx_ready fx_new_name
    ltac:(lia) ltac:(lia)) as Hw.
  destruct (writeFile 0 path_a data_a 0x1A4 fx) as [w' [[]|e| |]]; try discriminate Hok.
  exists w'. split; [reflexivity|]. apply Hw.
Defined.

Lemma symlink_reads_back_witness :
  match symlinkInode 0 path_a path_a fx with
  | (w', Ok _) => ReadLink 0 (2 ^ 40) path_a w' = (w', Ok path_a) /\
      holds 0 fx_dv fx fx_m path_a rootDirObjID (new_mode 0xA000 0x1FF) (Some path_a) w'
  | (w', Err _) => nothing_lost 0 fx_dv fx fx_m rootDirObjID w'
  | (w', Panic) => full (tx_cow w')
  | (_, NoFuel) => False
  end.
Proof.
  assert (Hlen : blen path_a = 2) by (vm_compute; reflexivity).
  apply (symlink_reads_back 0 fx_dv fx 0 fx_m path_a path_a rootDirObjID (2 ^ 40) fx_clock fx_ready fx_new_name);
    first [discriminate|lia].
Defined.

Lemma makeDir_adds_dir_witness :
  match makeDir 0 path_a 0x1ED fx with
  | (w', Ok _) => (exists ino, Stat 0 path_a w' = (w', Ok (new_mode 0x4000 0x1ED, 0, ino))) /\
      holds 0 fx_dv fx fx_m path_a rootDirObjID (new_mode 0x4000 0x1ED) None w'
  | (w', Err _) => nothing_lost 0 fx_dv fx fx_m rootDirObjID w'
  | (w', Panic) => full (tx_cow w')
  | (_, NoFuel) => False
  end.
Proof. apply (makeDir_adds_dir 0 fx_dv fx 0 fx_m path_a 0x1ED rootDirObjID fx_clock fx_ready fx_new_name). Defined.

Lemma commit_keeps_tree_witness :
  match commit 0 fx with
  | (w', Ok _) => repr 0 trees True fx_dv w' 0 fx_m /\ committed fx_sb (tx_sb w') /\ on_disk 0 w' /\
      (published 0 w' \/ root_item_kept 0 fx w')
  | (w', Err _) => repr 0 any_rest True fx_dv w' 0 fx_m /\ committed fx_sb (tx_sb w')
  | (w', Panic) => full (tx_cow w')
  | (_, NoFuel) => False
  end.
Proof.
  apply (commit_keeps_tree 0 fx_dv True fx 0 fx_m fx_repr (wf_exts _ fx_wf)).
  unfold superblockOffset, sbfSize. cbn. lia.
Defined.

Lemma attributes_change_exactly_witness :
  match run_attr 0 (Chmod 0x1C0) [slash] fx with
  | (w', Ok _) => exists old now m' h', ExtendedStat 0 [slash] fx = (fx, Ok old) /\ time_ok now /\
      ExtendedStat 0 [slash] w' = (w', Ok (st_change (next_gen fx_sb) now (attr_fields (Chmod 0x1C0) old))) /\
      repr 0 trees True fx_dv w' h' m' /\ forall k, k <> inodeKey rootDirObjID -> m' !! k = fx_m !! k
  | (w', Err _) => exists m' h', repr 0 any_rest True fx_dv w' h' m' /\
      (m' = fx_m \/ exists now, time_ok now /\
         inode_edit fx_m m' rootDirObjID (fun s => st_change (next_gen fx_sb) now (attr_fields (Chmod 0x1C0) s)))
  | (w', Panic) => full (tx_cow w')
  | (_, NoFuel) => False
  end.
Proof.
  apply (attributes_change_exactly 0 True fx_dv fx 0 fx_m (Chmod 0x1C0) [slash] fx_dir fx_clock);
    [unfold superblockOffset, sbfSize; cbn; lia|apply fx_repr|done|apply fx_wf|apply fx_wf|apply fx_root_resolves|cbn; lia].
Defined.
