(* ===== verification/FileExamples.v ===== *)
(** * A file system with a file

    The file system of OpsExamples with one more entry: the regular file [/a], whose content
    is one extent on the disk.  The theorems on existing files are applied to it. *)
From Stdlib Require Import ZArith Lia Strings.Byte.
From stdpp Require Import base option list numbers sorting gmap.
From S2P Require Import Prelude Bytes Alloc Layout SafeIO Chunk Node BTree Walk Split Crc32c Cow Store CowCorrect CowExamples.
From S2P Require Import Codec Read FileRead Tx Extent Ops FsTree DeletePrefix FsLookup InodeEdit Rebuild FsData ExtentLayout ExtentWrite.
From S2P Require Import CommitCorrect InodeOps Entries XattrOps Paths Create CreateApi Overwrite Remove OpsExamples.
Local Open Scope Z_scope.
Local Open Scope btrfs_scope.
#[local] Existing Instance listSafeIO.
#[local] Existing Instance storedDecoders.
#[local] Existing Instance storedDecoders_laws.
#[local] Existing Instance fxClock.

Definition fz_ino : Z := 257.
Definition fz_item : bytes := encodeInodeItem fz_ino 3000 0x81A4 7 4096 1 (1600000000, 0).
Definition fz_ref : bytes := encodeInodeRef 3 name_a.
Definition fz_entry : bytes := entry_item (fz_ino, ftRegFile) name_a.
Definition fz_extent : bytes := encodeExtentData 0x13000 4096 0 3000 7.
Definition fz_hash : Z := hashDirName name_a.
Definition fz_items : list rec :=
  [(inodeKey rootDirObjID, fx_dir_item); (Key rootDirObjID typeInodeRef rootDirObjID, encodeInodeRef 0 dotdot);
   (Key rootDirObjID typeDirItem fz_hash, fz_entry); (Key rootDirObjID typeDirIndex 3, fz_entry);
   (inodeKey fz_ino, fz_item); (Key fz_ino typeInodeRef rootDirObjID, fz_ref); (Key fz_ino typeExtentData 0, fz_extent)].
Definition fz_data : bytes := repeat (byte_of_Z 66) 3000.

(** The device with a given leaf as its FS tree, and the data of the file. *)
Definition dev_of (items : list rec) : bytes :=
  zeros 0x11000 ++ fx_leaf fx_root_items ++ fx_leaf items ++ fx_leaf [] ++ zeros (0x13000 - 0x11C00) ++ fz_data ++ zeros (0x18000 - 0x13000 - 3000).
Definition fs_of (items : list rec) : txState bytes :=
  TxState (CowState (dev_of items) (SpaceManager [FreeExtent 0x11C00 0x1400; FreeExtent 0x14000 0x4000] 1024)) fx_sb 0x11400 0.
Definition dv_of (items : list rec) : dataView := DataView 0x18000 (fun p => 0x13000 <= p < 0x14000) (fun a n => ReadAt (dev_of items) a n).

(** ** It is a file system the theorems speak about *)
Section Fixture.
Context (items : list rec) (Hsz : dev_size (st_dev (tx_cow (fs_of items))) = 0x18000).
Context (Hread : forall a l, (a, l) ∈ [(0x11000, fx_root_items); (0x11400, items); (0x11800, [])] -> rn 0 fx_sb (tx_cow (fs_of items)) a = Ok (fx_leaf l)).
Context (Hleaf : leaf_repr (fx_leaf items) items) (Hsorted : keys_sorted items) (Hne : Forall (fun r => r.2 <> []) items).

Lemma fixture_Inv : Inv 0 fx_sb (dv_of items) (tx_cow (fs_of items)) fx_ads.
Proof using Hsz.
  assert (Hfree : forall p, is_free (st_sm (tx_cow (fs_of items))) p <-> 0x11C00 <= p < 0x13000 \/ 0x14000 <= p < 0x18000).
  { intros p. unfold is_free, cov. cbn [fs_of tx_cow st_sm sm_freeExts map sumZ foldr fe_physStart fe_size].
    destruct (inr_spec 0x11C00 0x1400 p) as [[? ->]|[? ->]], (inr_spec 0x14000 0x4000 p) as [[? ->]|[? ->]]; lia. }
  assert (Hads : forall a, a ∈ fx_ads -> a = 0x11400 \/ a = 0x11000 \/ a = 0x11800).
  { intros a. unfold fx_ads. rewrite !elem_of_cons, elem_of_nil. tauto. }
  split; [|split; [reflexivity|split; [|split; [|split; [|split; [|split]]]]]].
  - split; [repeat constructor; unfold fe_ok; cbn; lia|]. split; [|cbn; lia].
    intros p. cbn. destruct (inr_spec 0x11C00 0x1400 p) as [[? ->]|[? ->]], (inr_spec 0x14000 0x4000 p) as [[? ->]|[? ->]]; lia.
  - intros p Hp. apply Hfree in Hp. rewrite Hsz. split; [lia|]. split; [apply fx_mapped; lia|lia].
  - apply Forall_forall. intros a Ha. apply Hads in Ha. unfold block_ok. rewrite Hsz.
    change (sb_nodeSize fx_sb) with 1024. split; [lia|]. split; [intros p Hp; apply fx_mapped; lia|lia].
  - apply (bool_decide_unpack _). vm_compute. reflexivity.
  - intros a b Ha Hb. apply Hads in Ha, Hb. change (sb_nodeSize fx_sb) with 1024. lia.
  - intros a Ha (p&Hp&Hf). apply Hads in Ha. apply Hfree in Hf. change (sb_nodeSize fx_sb) with 1024 in Hp. lia.
  - split; [exact Hsz|]. split; [|done]. intros p Hp. cbn in Hp. rewrite Hfree. split; [lia|].
    intros a Ha. apply Hads in Ha. change (sb_nodeSize fx_sb) with 1024. lia.
Qed.

Lemma fixture_trees : trees fx_sb (rn 0 fx_sb (tx_cow (fs_of items))) [0x11000; 0x11800].
Proof using Hread.
  apply (trees_stable fx_sb (rn 0 fx_sb (tx_cow fx)) _ _ [] fx_trees). intros x. rewrite !elem_of_cons, elem_of_nil.
  intros [->|[->|[]]].
  - rewrite fx_read_root. apply Hread. by left.
  - rewrite fx_read_ext. apply Hread. by right; right; left.
Qed.
Lemma fixture_tree t : wtree t (rn 0 fx_sb (tx_cow (fs_of items))) 0 0x11400 items [0x11400].
Proof using Hread Hleaf Hsorted. exists (fx_leaf items). split_and!; [apply Hread; by right; left|done..]. Qed.

Lemma fixture_repr t : repr 0 trees t (dv_of items) (fs_of items) 0 (leaf_map items).
Proof using All.
  exists items, [0x11400], [0x11000; 0x11800]. split_and!; [apply fx_flat|apply fixture_tree|done|apply fixture_Inv|apply fixture_trees|done|].
  split; [vm_compute; discriminate|]. intros p Hp. apply fx_mapped. cbn in Hp. lia.
Qed.
Lemma fixture_lookup k d : leaf_map items !! k = Some d <-> (k, d) ∈ items.
Proof using Hsorted. unfold leaf_map. rewrite <- elem_of_list_to_map; [done|]. by apply keys_sorted_NoDup. Qed.
End Fixture.

(** A leaf that was built, read from the device. *)
Ltac fixture_reads := rewrite !elem_of_cons, elem_of_nil; intros [[= -> ->]|[[= -> ->]|[[= -> ->]|[]]]]; vm_compute; reflexivity.
Lemma fx_leaf_repr l : leaf_need l <= 1024 -> nrecs l < 2 ^ 32 -> Forall (fun r => key_ok r.1) l -> leaf_repr (fx_leaf l) l.
Proof.
  intros Hn Hc Hk. assert (Hz : blen (zeros 1024) = 1024) by (vm_compute; reflexivity).
  pose proof (buildLeafFromItems_spec (zeros 1024) l 1024) as Hb. rewrite Hz in Hb. specialize (Hb ltac:(done) ltac:(done) Hc Hk).
  rewrite (proj2 (Z.leb_le _ _) Hn) in Hb. destruct Hb as (buf&E&Hr&_). unfold fx_leaf. by rewrite E.
Qed.
Ltac fixture_leaf := apply fx_leaf_repr; [vm_compute; discriminate|vm_compute; reflexivity|repeat constructor; vm_compute; done].
Ltac fixture_sorted := repeat constructor; vm_compute; reflexivity.

(** ** The file system with one file *)
Definition fz : txState bytes := fs_of fz_items.
Definition fz_m : gmap key bytes := leaf_map fz_items.
Definition fz_dv : dataView := dv_of fz_items.
Lemma fz_size : dev_size (st_dev (tx_cow fz)) = 0x18000.
Proof. vm_compute. reflexivity. Qed.
Lemma fz_read a l : (a, l) ∈ [(0x11000, fx_root_items); (0x11400, fz_items); (0x11800, [])] -> rn 0 fx_sb (tx_cow fz) a = Ok (fx_leaf l).
Proof. fixture_reads. Qed.
Lemma fz_leaf : leaf_repr (fx_leaf fz_items) fz_items.
Proof. fixture_leaf. Qed.
Lemma fz_sorted : keys_sorted fz_items.
Proof. fixture_sorted. Qed.
Lemma fz_repr t : repr 0 trees t fz_dv fz 0 fz_m.
Proof. apply fixture_repr; [apply fz_size|apply fz_read|apply fz_leaf|apply fz_sorted|repeat constructor; discriminate]. Qed.

Lemma fz_lookup k d : fz_m !! k = Some d <-> (k, d) ∈ fz_items.
Proof. apply fixture_lookup, fz_sorted. Qed.
Ltac fz_cases E := apply fz_lookup in E; unfold fz_items in E; rewrite !elem_of_cons, elem_of_nil in E;
  repeat match type of E with _ \/ _ => destruct E as [E|E] end; try done; injection E as -> ->.

Lemma fz_wf : fs_wf fz_m.
Proof.
  split.
  - intros ino d E. apply fz_lookup in E. unfold fz_items in E. rewrite !elem_of_cons, elem_of_nil in E.
    repeat match type of E with _ \/ _ => destruct E as [E|E] end; try done; injection E as _ ->; vm_compute; discriminate.
  - intros k d E Ht. fz_cases E; done.
  - intros k d E Ht. fz_cases E; try done; cbn; unfold rootDirObjID, fz_ino; lia.
  - intros k d E Ht. fz_cases E; try done; cbn; lia.
  - intros k d E Ht. fz_cases E; by destruct Ht.
Qed.
Lemma fz_ready : ready 0 fz_dv fz 0 fz_m.
Proof. split; [apply fz_repr|done|apply fz_wf|cbn; lia|]. unfold superblockOffset, sbfSize. cbn. lia. Qed.

Definition fz_root : inodeItem := InodeItem rootDirObjID 0x41ED 0 1.
Definition fz_file : inodeItem := InodeItem fz_ino 0x81A4 3000 1.
Lemma fz_hit : item_hit fz_m rootDirObjID name_a (fz_ino, ftRegFile).
Proof. exists fz_entry. split; [by apply fz_lookup; right; right; left|vm_compute; reflexivity]. Qed.
Lemma fz_root_resolves : resolves fz_m [slash] fz_root.
Proof. split; [reflexivity|]. exists fx_dir_item. split; [by apply fz_lookup; left|vm_compute; reflexivity]. Qed.
Lemma fz_file_resolves : resolves fz_m path_a fz_file.
Proof.
  split.
  - replace (path_parts path_a) with [name_a] by (vm_compute; reflexivity). exists (fz_ino, ftRegFile). split; [left; apply fz_hit|done].
  - exists fz_item. split; [by apply fz_lookup; do 4 right; left|vm_compute; reflexivity].
Qed.
Lemma fz_extents : prefix_of fz_m fz_ino typeExtentData [(Key fz_ino typeExtentData 0, fz_extent)].
Proof.
  split; [repeat constructor|]. intros k d. rewrite list_elem_of_singleton. split.
  - intros [= -> ->]. split; [by apply fz_lookup; do 6 right; left|done].
  - intros (E&Ho&Ht). fz_cases E; done.
Qed.
Lemma fz_ranges : ranges_of fx_sb [(Key fz_ino typeExtentData 0, fz_extent)] = [(0x13000, 4096)].
Proof. vm_compute. reflexivity. Qed.
Lemma fz_held : held_ranges 0 fz_dv (ranges_of (tx_sb fz) [(Key fz_ino typeExtentData 0, fz_extent)]).
Proof.
  change (tx_sb fz) with fx_sb. rewrite fz_ranges. split; [|split; [|done]].
  - unfold held_range. cbn. split_and!; lia || (intros p Hp; lia).
  - intros p _ (a&n&Hin&_). by apply not_elem_of_nil in Hin.
Qed.

(** ** The theorems on it *)
Definition fz_new : bytes := repeat (byte_of_Z 67) 4000.
Lemma fz_existing : existing_file 0 fz_dv fz fz_m path_a fz_file ftRegFile [(Key fz_ino typeExtentData 0, fz_extent)].
Proof.
  split.
  - exists fz_root. replace (split_dir path_a) with ([slash], name_a) by (vm_compute; reflexivity). split; [apply fz_root_resolves|left; apply fz_hit].
  - done.
  - split; [apply fz_file_resolves|reflexivity].
  - split; [apply fz_extents|vm_compute; discriminate].
  - apply fz_held.
Qed.

Lemma overwrite_reads_back_witness :
  exists w', writeFile 0 path_a fz_new 0x1A4 fz = (w', Ok tt) /\ replaced 0 fz_dv fz fz_m fz_ino fz_item [(Key fz_ino typeExtentData 0, fz_extent)] fz_new w'.
Proof.
  assert (Hok : is_ok (writeFile 0 path_a fz_new 0x1A4 fz) = true) by (vm_compute; reflexivity).
  assert (Hlen : blen fz_new = 4000) by (vm_compute; reflexivity).
  pose proof (overwrite_reads_back 0 fz_dv fz 0 fz_m path_a fz_new 0x1A4 (2 ^ 40) fz_file ftRegFile _ fz_item fx_clock fz_ready ltac:(lia) fz_existing
    (proj2 (fz_lookup _ _) ltac:(do 4 right; left)) ltac:(lia) ltac:(lia)) as Hw.
  destruct (writeFile 0 path_a fz_new 0x1A4 fz) as [w' [[]|e| |]]; try discriminate Hok.
  exists w'. split; [reflexivity|]. apply Hw.
Defined.

Lemma fz_deletable : deletable 0 fz_dv fz fz_m path_a fz_root fz_file 3 ftRegFile [(Key fz_ino typeExtentData 0, fz_extent)].
Proof.
  split; replace (splitPath path_a) with ([slash], name_a) by (vm_compute; reflexivity); cbn [fst snd].
  - apply fz_root_resolves.
  - split_and!; [split|unfold is_u64; lia|done|done].
    + unfold is_u64, fz_file, fz_ino. cbn. lia.
    + cbn. unfold ftRegFile. lia.
    + vm_compute. reflexivity.
    + by apply fz_lookup; do 2 right; left.
    + by apply fz_lookup; do 3 right; left.
    + intros off d Ho E. exfalso. fz_cases E. congruence.
  - done.
  - split_and!; [apply fz_file_resolves|cbn; lia|done].
  - intros n r [(d&E&_)|[_ (l&[_ Hl]&El)]]; [by fz_cases E|]. destruct l as [|[k d] l]; [done|].
    destruct (proj1 (Hl k d) ltac:(by left)) as (E&Ho&Ht). by fz_cases E.
  - split; [apply fz_extents|apply fz_held].
  - split; intros l Hl.
    + rewrite (prefix_of_unique _ _ _ _ _ Hl fz_extents). vm_compute. discriminate.
    + destruct l as [|[k d] l]; [vm_compute; discriminate|]. destruct (proj1 (proj2 Hl k d) ltac:(by left)) as (E&Ho&Ht). by fz_cases E.
Qed.

Lemma deleteFile_removes_witness :
  exists w' e, deleteFile 0 path_a fz = (w', Ok tt) /\ Stat 0 path_a w' = (w', Err e).
Proof.
  assert (Hok : is_ok (deleteFile 0 path_a fz) = true) by (vm_compute; reflexivity).
  pose proof (deleteFile_removes 0 True fz_dv fz 0 fz_m path_a fz_root fz_file 3 ftRegFile (2 ^ 40) _ fx_clock ltac:(unfold superblockOffset, sbfSize; cbn; lia)
    (fz_repr True) ltac:(done) ltac:(lia) (wf_inodes _ fz_wf) (wf_exts _ fz_wf) fz_deletable ltac:(lia)) as Hw.
  destruct (deleteFile 0 path_a fz) as [w' [[]|e| |]]; try discriminate Hok.
  destruct Hw as (_&[e He]&_). exists w', e. done.
Defined.

(** The extents of the file deleted from its tree. *)
Lemma cowDeletePrefix_refines_witness :
  exists s' root', cowDeletePrefix 0 fx_sb 0x11400 fz_ino typeExtentData (tx_cow fz) = (s', Ok root') /\
    cow_ok True 0 fx_sb fz_dv 0 (tx_cow fz) (others_of fz_ino typeExtentData fz_items) [0x11000; 0x11800] s' root'.
Proof.
  assert (Hok : is_ok (cowDeletePrefix 0 fx_sb 0x11400 fz_ino typeExtentData (tx_cow fz)) = true) by (vm_compute; reflexivity).
  pose proof (fixture_tree fz_items fz_read fz_leaf fz_sorted True) as Hw.
  pose proof (cowDeletePrefix_refines True 0 fx_sb fz_dv fx_flat ltac:(vm_compute; discriminate) fz_ino typeExtentData
    ltac:(unfold key_ok, fz_ino, typeExtentData; cbn; lia) (tx_cow fz) 0 0x11400 fz_items [0x11400] [0x11000; 0x11800] Hw (fixture_Inv fz_items fz_size)
    ltac:(done) ltac:(repeat constructor; discriminate) ltac:(discriminate) ltac:(lia) ltac:(vm_compute; discriminate)) as Hs.
  destruct (cowDeletePrefix 0 fx_sb 0x11400 fz_ino typeExtentData (tx_cow fz)) as [s' [root'|e| |]]; try discriminate Hok.
  by exists s', root'.
Defined.

Definition attr_name : bytes := map byte_of_Z [117; 115; 101; 114; 46; 97].
Lemma set_run p value name (w : txState bytes) : run_xattr 0 (SetXattr value) p name w = setXattrInode 0 p name value w.
Proof. reflexivity. Qed.
Lemma set_after value name : xattr_after (SetXattr value) name name = Ok value.
Proof. cbn [xattr_after]. by rewrite bool_decide_eq_true_2. Qed.
Lemma xattrs_are_a_map_witness :
  exists w', setXattrInode 0 path_a attr_name name_a fz = (w', Ok tt) /\ getXattrInode 0 path_a attr_name w' = (w', Ok name_a).
Proof.
  assert (Hok : is_ok (setXattrInode 0 path_a attr_name name_a fz) = true) by (vm_compute; reflexivity).
  pose proof (xattrs_are_a_map 0 True fz_dv fz 0 fz_m (SetXattr name_a) path_a attr_name fz_file fx_clock
    ltac:(unfold superblockOffset, sbfSize; cbn; lia) (fz_repr True) ltac:(done) (wf_inodes _ fz_wf) (wf_exts _ fz_wf) fz_file_resolves
    ltac:(split_and!; [done|vm_compute; reflexivity|vm_compute; reflexivity])) as Hw. rewrite set_run in Hw.
  destruct (setXattrInode 0 path_a attr_name name_a fz) as [w' [[]|e| |]]; try discriminate Hok.
  destruct Hw as [_ Hget]. exists w'. split; [reflexivity|]. rewrite (Hget path_a fz_file attr_name fz_file_resolves).
  by rewrite bool_decide_eq_true_2, set_after.
Defined.
