(* ===== verification/LinkExamples.v ===== *)
(** * Links and renames on concrete file systems

    The theorems on links, unlinking and renaming applied to the file system of FileExamples
    and to one whose file has two names; and a rename of a path to itself. *)
From Stdlib Require Import ZArith Lia Strings.Byte.
From stdpp Require Import base option list numbers sorting gmap.
From S2P Require Import Prelude Bytes Alloc Layout SafeIO Chunk Node BTree Walk Split Crc32c Cow Store CowCorrect CowExamples.
From S2P Require Import Codec Read FileRead Tx Extent Ops FsTree DeletePrefix FsLookup InodeEdit Rebuild FsData ExtentLayout ExtentWrite.
From S2P Require Import CommitCorrect InodeOps Entries XattrOps Paths Create CreateApi Overwrite Remove Links LinkApi Rename OpsExamples FileExamples.
Local Open Scope Z_scope.
Local Open Scope btrfs_scope.
#[local] Existing Instance listSafeIO.
#[local] Existing Instance storedDecoders.
#[local] Existing Instance storedDecoders_laws.
#[local] Existing Instance fxClock.

Definition name_b : bytes := [byte_of_Z 98].
Definition path_b : bytes := [slash; byte_of_Z 98].
Lemma split_a : splitPath path_a = ([slash], name_a).
Proof. vm_compute. reflexivity. Qed.
Lemma split_b : splitPath path_b = ([slash], name_b).
Proof. vm_compute. reflexivity. Qed.

(** ** The file system with one file *)
Lemma fz_no_b r : ~ dir_entry fz_m (in_num fz_root) name_b r.
Proof.
  intros [(d&E&_)|[_ (l&[_ Hl]&El)]]; [by fz_cases E|]. assert (Hx : first_entry name_b l = Ok None); [|congruence].
  assert (Hall : forall k d, (k, d) ∈ l -> entry_in name_b d = Ok None).
  { intros k d Hk. apply Hl in Hk as (E&Ho&Ht). fz_cases E; try done; vm_compute; reflexivity. }
  clear -Hall. induction l as [|[k d] l IH]; [done|]. cbn [first_entry snd]. rewrite (Hall k d) by (by left). apply IH.
  intros k' d' Hk. apply (Hall k'). by right.
Qed.
Lemma fz_slot_b : fz_m !! Key (in_num fz_root) typeDirItem (hashDirName name_b) = None.
Proof. destruct (fz_m !! _) as [d|] eqn:E; [|done]. exfalso. by fz_cases E. Qed.
Lemma fz_link_args : link_args fz_m path_a path_b fz_file fz_root.
Proof.
  split; rewrite ?split_b; cbn [fst snd].
  - split; [apply fz_file_resolves|reflexivity].
  - split; [apply fz_root_resolves|done].
  - done.
  - split; [apply fz_no_b|apply fz_slot_b].
Qed.

Lemma link_adds_name_witness :
  exists w' s now, linkInode 0 path_a path_b fz = (w', Ok tt) /\ ExtendedStat 0 path_b w' = (w', Ok (link_up (next_gen fx_sb) now s)).
Proof.
  assert (Hok : is_ok (linkInode 0 path_a path_b fz) = true) by (vm_compute; reflexivity).
  pose proof (link_adds_name 0 fz_dv fz 0 fz_m path_a path_b fz_file fz_root (2 ^ 40) fx_clock fz_ready fz_link_args ltac:(lia)) as Hw.
  destruct (linkInode 0 path_a path_b fz) as [w' [[]|e| |]]; try discriminate Hok.
  destruct Hw as ((s&now&_&_&_&Hs)&_). by exists w', s, now.
Defined.

Lemma fz_name : sole_name fz_m (in_num fz_root) name_a 3 (in_num fz_file, ftRegFile) /\ is_u64 3.
Proof. pose proof (dl_name _ _ _ _ _ _ _ _ _ _ fz_deletable) as (Hn&Hu&_). by rewrite split_a in Hn. Qed.
Lemma fz_root_not : resolves_not fz_m (in_num fz_root) name_a [slash] fz_root.
Proof. split; [reflexivity|]. apply fz_root_resolves. Qed.
Lemma fz_rename_args : rename_args fz_m path_a path_b fz_root fz_root fz_file 3 ftRegFile.
Proof.
  split; rewrite ?split_a, ?split_b; cbn [fst snd].
  - split_and!; [apply fz_root_not|done|done].
  - apply fz_name.
  - split_and!; [apply fz_file_resolves|done|done].
  - split_and!; [apply fz_root_not|done|done|vm_compute; reflexivity].
  - split; [apply fz_no_b|apply fz_slot_b].
Qed.

Lemma rename_moves_name_witness :
  exists w' s e, renameEntry 0 path_a path_b fz = (w', Ok tt) /\ Stat 0 path_a w' = (w', Err e) /\ ExtendedStat 0 path_b w' = (w', Ok s).
Proof.
  assert (Hok : is_ok (renameEntry 0 path_a path_b fz) = true) by (vm_compute; reflexivity).
  pose proof (rename_moves_name 0 fz_dv fz 0 fz_m path_a path_b fz_root fz_root fz_file 3 ftRegFile (2 ^ 40) fx_clock fz_ready ltac:(lia) fz_rename_args ltac:(lia)) as Hw.
  destruct (renameEntry 0 path_a path_b fz) as [w' [[]|e| |]]; try discriminate Hok.
  destruct Hw as ([e He]&(s&_&Hs)&_). by exists w', s, e.
Defined.

(** A rename of a path to itself takes the source for an existing destination: the call
    succeeds, and the file is gone. *)
Theorem rename_to_itself_loses_file :
  is_ok (ReadFile 0 (2 ^ 40) path_a fz) = true /\ is_ok (renameEntry 0 path_a path_a fz) = true /\
  (ReadFile 0 (2 ^ 40) path_a (renameEntry 0 path_a path_a fz).1).2 = Err ErrNotFound.
Proof. split; [|split]; vm_compute; reflexivity. Qed.

(** ** A file with two names *)
Definition fl_item : bytes := encodeInodeItem fz_ino 3000 0x81A4 7 4096 2 (1600000000, 0).
Definition fl_ref : bytes := encodeInodeRefEntries [InodeRefEntry 3 name_a; InodeRefEntry 4 name_b].
Definition fl_entry : bytes := entry_item (fz_ino, ftRegFile) name_b.
Definition fl_items : list rec :=
  [(inodeKey rootDirObjID, fx_dir_item); (Key rootDirObjID typeInodeRef rootDirObjID, encodeInodeRef 0 dotdot);
   (Key rootDirObjID typeDirItem fz_hash, fz_entry); (Key rootDirObjID typeDirItem (hashDirName name_b), fl_entry);
   (Key rootDirObjID typeDirIndex 3, fz_entry); (Key rootDirObjID typeDirIndex 4, fl_entry);
   (inodeKey fz_ino, fl_item); (Key fz_ino typeInodeRef rootDirObjID, fl_ref); (Key fz_ino typeExtentData 0, fz_extent)].
Definition fl : txState bytes := fs_of fl_items.
Definition fl_m : gmap key bytes := leaf_map fl_items.
Lemma fl_sorted : keys_sorted fl_items.
Proof. fixture_sorted. Qed.
Lemma fl_size : dev_size (st_dev (tx_cow fl)) = 0x18000.
Proof. vm_compute. reflexivity. Qed.
Lemma fl_read a l : (a, l) ∈ [(0x11000, fx_root_items); (0x11400, fl_items); (0x11800, [])] -> rn 0 fx_sb (tx_cow fl) a = Ok (fx_leaf l).
Proof. fixture_reads. Qed.
Lemma fl_leaf : leaf_repr (fx_leaf fl_items) fl_items.
Proof. fixture_leaf. Qed.
Lemma fl_repr t : repr 0 trees t (dv_of fl_items) fl 0 fl_m.
Proof. apply fixture_repr; [apply fl_size|apply fl_read|apply fl_leaf|apply fl_sorted|repeat constructor; discriminate]. Qed.
Lemma fl_lookup k d : fl_m !! k = Some d <-> (k, d) ∈ fl_items.
Proof. apply fixture_lookup, fl_sorted. Qed.
Ltac fl_cases E := apply fl_lookup in E; unfold fl_items in E; rewrite !elem_of_cons, elem_of_nil in E;
  repeat match type of E with _ \/ _ => destruct E as [E|E] end; try done; injection E as -> ->.

Definition fl_file : inodeItem := InodeItem fz_ino 0x81A4 3000 2.
Lemma fl_root_resolves : resolves fl_m [slash] fz_root.
Proof. split; [reflexivity|]. exists fx_dir_item. split; [by apply fl_lookup; left|vm_compute; reflexivity]. Qed.
Lemma fl_inode : exists d, fl_m !! inodeKey fz_ino = Some d /\ decode_inode fz_ino d = Ok fl_file.
Proof. exists fl_item. split; [by apply fl_lookup; do 6 right; left|vm_compute; reflexivity]. Qed.
Lemma fl_resolves_a : resolves fl_m path_a fl_file.
Proof.
  split; [|apply fl_inode]. replace (path_parts path_a) with [name_a] by (vm_compute; reflexivity). exists (fz_ino, ftRegFile). split; [|done].
  left. exists fz_entry. split; [by apply fl_lookup; do 2 right; left|vm_compute; reflexivity].
Qed.
Lemma fl_resolves_b : resolves fl_m path_b fl_file.
Proof.
  split; [|apply fl_inode]. replace (path_parts path_b) with [name_b] by (vm_compute; reflexivity). exists (fz_ino, ftRegFile). split; [|done].
  left. exists fl_entry. split; [by apply fl_lookup; do 3 right; left|vm_compute; reflexivity].
Qed.
Lemma fl_other : other_name fl_m path_b rootDirObjID name_a.
Proof. exists [], name_b, rootDirObjID. split_and!; [vm_compute; reflexivity|done|]. intros [_ [=]]. Qed.
Lemma fl_shared : shared_file fl_m path_a fz_root fl_file 3 ftRegFile.
Proof.
  split; rewrite ?split_a; cbn [fst snd].
  - apply fl_root_resolves.
  - split_and!; [split|unfold is_u64; lia|done|done].
    + unfold is_u64, fl_file, fz_ino. cbn. lia.
    + cbn. unfold ftRegFile. lia.
    + vm_compute. reflexivity.
    + by apply fl_lookup; do 2 right; left.
    + by apply fl_lookup; do 4 right; left.
    + intros off d Ho E. fl_cases E; [congruence|vm_compute; reflexivity].
  - done.
  - split_and!; [apply fl_resolves_a|cbn; lia|done].
  - intros n r [(d&E&_)|[_ (l&[_ Hl]&El)]]; [by fl_cases E|]. destruct l as [|[k d] l]; [done|].
    destruct (proj1 (Hl k d) ltac:(by left)) as (E&Ho&Ht). by fl_cases E.
Qed.
Lemma fl_inodes_ok : inodes_ok fl_m.
Proof.
  intros ino d E. apply fl_lookup in E. unfold fl_items in E. rewrite !elem_of_cons, elem_of_nil in E.
  repeat match type of E with _ \/ _ => destruct E as [E|E] end; try done; injection E as _ ->; vm_compute; discriminate.
Qed.
Lemma fl_exts_ok : exts_ok fl_m.
Proof. intros k d E Ht. fl_cases E; done. Qed.

Lemma unlink_keeps_file_witness :
  exists w' s now e, deleteFile 0 path_a fl = (w', Ok tt) /\ Stat 0 path_a w' = (w', Err e) /\
    ExtendedStat 0 path_b w' = (w', Ok (link_down (next_gen fx_sb) now s)).
Proof.
  assert (Hok : is_ok (deleteFile 0 path_a fl) = true) by (vm_compute; reflexivity).
  pose proof (unlink_keeps_file 0 True (dv_of fl_items) fl 0 fl_m path_a fz_root fl_file 3 ftRegFile (2 ^ 40) fx_clock
    ltac:(unfold superblockOffset, sbfSize; cbn; lia) (fl_repr True) ltac:(done) ltac:(lia) fl_inodes_ok fl_exts_ok fl_shared ltac:(lia)) as Hw.
  destruct (deleteFile 0 path_a fl) as [w' [[]|e| |]]; try discriminate Hok.
  destruct Hw as ([e He]&(s&now&_&_&Hs)&_). exists w', s, now, e. split_and!; [reflexivity|done|].
  apply Hs; [apply fl_resolves_b|]. rewrite split_a. apply fl_other.
Defined.
