(* ===== verification/TruncateExamples.v ===== *)
(** * Changing the size of a concrete file

    The theorems of Truncate and Session applied to the file of FileExamples; a file that
    cannot be read after it was emptied and grown, and one that shows the bytes its extent
    stores behind its old size. *)
From Stdlib Require Import ZArith Lia Strings.Byte.
From stdpp Require Import base option list numbers sorting gmap.
From S2P Require Import Prelude Bytes Alloc Layout SafeIO Chunk Node BTree Walk Split Crc32c Cow Store CowCorrect CowExamples.
From S2P Require Import Codec Read FileRead Tx Extent Ops FsTree DeletePrefix FsLookup InodeEdit Rebuild FsData ExtentLayout ExtentWrite.
From S2P Require Import CommitCorrect InodeOps Entries XattrOps Paths Create CreateApi Overwrite Remove Trim Truncate Session OpsExamples FileExamples.
Local Open Scope Z_scope.
Local Open Scope btrfs_scope.
#[local] Existing Instance listSafeIO.
#[local] Existing Instance storedDecoders.
#[local] Existing Instance storedDecoders_laws.
#[local] Existing Instance fxClock.

Definition fz_exts : list rec := [(Key fz_ino typeExtentData 0, fz_extent)].

Lemma mem_prefix (d : bytes) a n k b : 0 < k <= n -> ReadAt d a n = Ok b -> ReadAt d a k = Ok (sub b 0 k).
Proof.
  intros Hk. cbn. destruct (mem_in d a n) eqn:E; [|done]. intros [= <-]. apply mem_in_true in E as (H1&H2&H3).
  rewrite (proj2 (mem_in_true _ _ _)) by lia. rewrite sub_sub by lia. by rewrite Z.add_0_r.
Qed.
Lemma fz_prefix : dv_prefix fz_dv.
Proof. intros a n k b Hk _ E. by apply (mem_prefix _ a n k b). Qed.
Lemma fz_data_len : blen fz_data = 3000.
Proof. vm_compute. reflexivity. Qed.
Lemma fz_data_read : dv_read fz_dv 0x13000 3000 = Ok fz_data.
Proof. vm_compute. reflexivity. Qed.

Lemma fz_plain : plain_item fx_sb fz_dv (blen fz_data) (Key fz_ino typeExtentData 0, fz_extent).
Proof.
  rewrite fz_data_len. unfold plain_item. cbn [fst snd offset].
  assert (Ea : data_addr fz_extent = 0x13000) by (vm_compute; reflexivity).
  assert (En : rd 8 fz_extent extDataOffNumBytes = 3000) by (vm_compute; reflexivity).
  assert (Et : rd 1 fz_extent extDataOffType = extentDataRegular) by (vm_compute; reflexivity).
  rewrite Ea, En, Et. intros _ _. split; [done|]. intros _ _. split; [lia|]. intros _.
  split; [vm_compute; reflexivity|]. split; [apply fx_mapped; lia|]. split; [intros p Hp; cbn in *; lia|].
  exists fz_data. split; [apply fz_data_read|apply fz_data_len].
Qed.
Lemma fz_content : content 0 fx_sb fz_dv fz_exts fz_data.
Proof.
  apply (content_chunks 0 fx_sb fz_dv fx_flat fz_ino); [unfold is_u64, fz_ino; lia|]. exists 3000. rewrite fz_data_len. split; [|done].
  split_and!; [done|lia|]. exists 0x13000, 4096, 7. split_and!; [done|done|apply fx_mapped; lia|intros p Hp; cbn in *; lia|].
  replace (sub fz_data 0 (3000 - 0)) with fz_data by (vm_compute; reflexivity). apply fz_data_read.
Qed.
Lemma fz_cuttable n : 0 <= n < 3000 -> cuttable 0 fz_dv fz fz_m path_a fz_file fz_exts fz_data n.
Proof.
  intros Hn. split.
  - split; [apply fz_file_resolves|reflexivity].
  - rewrite fz_data_len. split_and!; [done|lia|lia|lia].
  - split; [apply fz_extents|]. apply Forall_singleton, fz_plain.
  - apply fz_content.
Qed.
Lemma fz_growable n : 3000 < n < 2 ^ 63 -> growable 0 fz_dv fz fz_m path_a fz_file fz_exts fz_data n.
Proof.
  intros Hn. split.
  - split; [apply fz_file_resolves|reflexivity].
  - rewrite fz_data_len. split_and!; [done|lia|lia].
  - split; [apply fz_extents|]. apply Forall_singleton. split; [apply fz_plain|]. rewrite fz_data_len. cbn [fst snd offset].
    split_and!; [lia|intros _ E; vm_compute in E; discriminate E|]. intros _ _ Hov _. exfalso. revert Hov.
    assert (En : rd 8 fz_extent extDataOffNumBytes = 3000) by (vm_compute; reflexivity). rewrite En. lia.
  - apply fz_content.
Qed.

Lemma truncate_keeps_prefix_witness :
  exists w', Truncate 0 path_a 1000 fz = (w', Ok tt) /\ ReadFile 0 (2 ^ 40) path_a w' = (w', Ok (sub fz_data 0 1000)).
Proof.
  assert (Hok : is_ok (Truncate 0 path_a 1000 fz) = true) by (vm_compute; reflexivity).
  pose proof (truncate_keeps_prefix 0 fz_dv fz 0 fz_m path_a fz_data 1000 (2 ^ 40) fz_file fz_exts fz_item fx_clock fz_ready ltac:(lia) fz_prefix
    (fz_cuttable 1000 ltac:(lia)) (proj2 (fz_lookup _ _) ltac:(do 4 right; left)) ltac:(lia)) as Hw.
  destruct (Truncate 0 path_a 1000 fz) as [w' [[]|e| |]]; try discriminate Hok.
  destruct Hw as (_&Hread&_). exists w'. split; [reflexivity|]. apply Hread. left. vm_compute. discriminate.
Defined.

Lemma truncate_fills_with_zeros_witness :
  exists w', Truncate 0 path_a 5000 fz = (w', Ok tt) /\ ReadFile 0 (2 ^ 40) path_a w' = (w', Ok (fz_data ++ zeros (5000 - blen fz_data))).
Proof.
  assert (Hok : is_ok (Truncate 0 path_a 5000 fz) = true) by (vm_compute; reflexivity).
  pose proof (truncate_fills_with_zeros 0 fz_dv fz 0 fz_m path_a fz_data 5000 (2 ^ 40) fz_file fz_exts fx_clock fz_ready
    (fz_growable 5000 ltac:(lia)) ltac:(lia)) as Hw.
  destruct (Truncate 0 path_a 5000 fz) as [w' [[]|e| |]]; try discriminate Hok.
  destruct Hw as (_&Hread&_). exists w'. split; [reflexivity|]. by apply Hread.
Defined.

(** A file that was cut to nothing has no extent item left; grown again it cannot be read,
    although a hole reads as zeros. *)
Theorem emptied_then_grown_unreadable :
  let w1 := (Truncate 0 path_a 0 fz).1 in let w2 := (Truncate 0 path_a 100 w1).1 in
  is_ok (Truncate 0 path_a 0 fz) = true /\ (ReadFile 0 (2 ^ 40) path_a w1).2 = Ok [] /\
  is_ok (Truncate 0 path_a 100 w1) = true /\ (ReadFile 0 (2 ^ 40) path_a w2).2 = Err ErrNotFound.
Proof. cbv zeta. split_and!; vm_compute; reflexivity. Qed.

(** The last block of the file holds zeros behind its content. *)
Lemma fz_zero_tail : zero_tail fz_dv 3000 0 0x13000 4096.
Proof.
  split; [intros p Hp; cbn in *; lia|]. exists (fz_data ++ zeros 1096). split; [vm_compute; reflexivity|]. split; [|vm_compute; reflexivity].
  intros k Hk. assert (E : ReadAt (dev_of fz_items) 0x13000 4096 = Ok (fz_data ++ zeros 1096)) by (vm_compute; reflexivity).
  apply (mem_prefix _ 0x13000 4096 k _ ltac:(lia) E).
Qed.

(** What an extent stores behind the size of the file shows when the file grows: the file of
    2000 bytes whose extent holds 3000, grown to 3000, reads as the 3000 bytes of the
    extent and not as its content followed by zeros. *)
Definition long_items : list rec :=
  map (fun r => if bool_decide (r.1 = inodeKey fz_ino) then (r.1, encodeInodeItem fz_ino 2000 0x81A4 7 4096 1 (1600000000, 0)) else r) fz_items.
Theorem grown_shows_extent_tail :
  let w := fs_of long_items in let w1 := (Truncate 0 path_a 3000 w).1 in
  (ReadFile 0 (2 ^ 40) path_a w).2 = Ok (sub fz_data 0 2000) /\ is_ok (Truncate 0 path_a 3000 w) = true /\
  (ReadFile 0 (2 ^ 40) path_a w1).2 = Ok fz_data.
Proof. cbv zeta. split_and!; vm_compute; reflexivity. Qed.

(** A session on the file system. *)
Definition fz_state : fsState bytes := FsState fz_dv fz 0 fz_m.
Lemma sessions_stay_ready_witness :
  exists w' dv h m, run_op 0 (OShrink path_a 1000) fz = (w', Ok tt) /\ repr 0 trees True dv w' h m /\
    (in_limits h m -> session 0 fz_state [OShrink path_a 1000] (FsState dv w' h m) /\ ready_state 0 (FsState dv w' h m)).
Proof.
  assert (Hok : is_ok (run_op 0 (OShrink path_a 1000) fz) = true) by (vm_compute; reflexivity).
  destruct (sessions_stay_ready 0 fz_state fz_state [] fx_clock fz_ready (session_nil 0 fz_state)) as [_ Hnext].
  specialize (Hnext (OShrink path_a 1000)). cbn [fs_dv fs_w fs_h fs_m fz_state] in Hnext.
  assert (Ha : applicable 0 (OShrink path_a 1000) fz_dv fz 0 fz_m).
  { split; [lia|]. exists fz_file. split_and!; [apply fz_file_resolves|reflexivity|lia|cbn; lia]. }
  specialize (Hnext Ha). destruct (run_op 0 (OShrink path_a 1000) fz) as [w' [[]|e| |]]; try discriminate Hok.
  destruct Hnext as (dv&h&m&Hr&Hgo). by exists w', dv, h, m.
Defined.
