(* ===== verification/Resize.v ===== *)
(** * Resizing (resize.go, resize_chunk.go, resize_reloc.go)

    [Grow] and [Shrink] with everything they call: the in-place edits of the chunk,
    device and extent trees and of the superblock's chunk array, the relocation of
    data extents and tree blocks out of the tail, and the removal of a whole
    trailing chunk.  The state is that of [Tx]; [Truncate] and [Sync] of the
    backing device come from [BlockDev]. *)
From Stdlib Require Import ZArith Lia Strings.Byte.
From stdpp Require Import base option list numbers sorting gmap.
From S2P Require Import Prelude Bytes Alloc Layout SafeIO Chunk Node BTree Split Crc32c Cow Codec Tx Extent.
Local Open Scope Z_scope.
Local Open Scope btrfs_scope.

(** The rest of the [blockBackend] interface. *)
Class BlockDev (D : Type) := {
  dev_Truncate : D -> Z -> D * outcome unit;
  dev_Sync : D -> outcome unit }.

Definition fmtMinSize : Z := 0x100000.
Definition resizeMinSize : Z := fmtMinSize.
Definition devExtentLengthOff : Z := 24.

Definition set_totalBytes (sb : superblock) (n : Z) : superblock :=
  Superblock (sb_nodeSize sb) (sb_sectorSize sb) (sb_leafSize sb) (sb_stripeSize sb)
    n (sb_rootLogAddr sb) (sb_chunkLogAddr sb) (sb_generation sb)
    (sb_devID sb) (sb_uuid sb) (sb_label sb) (sb_sysChunks sb).
Definition set_cm_size (m : chunkMapping) (n : Z) : chunkMapping :=
  ChunkMapping (cm_logStart m) n (cm_physStart m) (cm_localStripeIdx m) (cm_profile m) (cm_stripeLen m)
    (cm_subStripes m) (cm_stripes m).
(** [fs.sb.sysChunks[idx].size = n] *)
Definition set_chunk_size (sb : superblock) (idx : nat) (n : Z) : superblock :=
  set_sysChunks sb (alter (fun m => set_cm_size m n) idx (sb_sysChunks sb)).

(** ** The trailing chunk *)
Definition tailChunk_step (i : nat) (m : chunkMapping) (best : option nat * Z) : option nat * Z :=
  if cm_localStripeIdx m <? 0 then best else
  let tail := cm_physStart m +₆₄ cm_size m in
  if best.2 <? tail then (Some i, tail) else best.
Fixpoint tailChunk_loop (i : nat) (l : list chunkMapping) (best : option nat * Z) : option nat * Z :=
  match l with
  | [] => best
  | m :: l => tailChunk_loop (S i) l (tailChunk_step i m best)
  end.
Definition tailChunkIdxLocked (sb : superblock) (endPhys : Z) : outcome nat :=
  match tailChunk_loop 0 (sb_sysChunks sb) (None, 0) with
  | (None, _) => Err ErrOther
  | (Some i, tail) => if tail =? endPhys then Ok i else Err ErrOther
  end.

(** ** The superblock's chunk array *)

(** The entry of a chunk: its offset in the array and its length.  An entry is
    longer than its header, so [length arr] rounds are enough. *)
Fixpoint find_sys_entry (fuel : nat) (arr : bytes) (logStart off : Z) : outcome (option (Z * Z)) :=
  if off + keySize + chunkHeaderSize + chunkStripeSize <=? blen arr then
    match fuel with
    | O => NoFuel
    | S fuel =>
        keyType ← Uint8 arr (off + 8);
        keyOff ← Uint64 arr (off + 9);
        numStripes ← Uint16 arr (off + keySize + chunkNumStripes);
        let entryLen := keySize + chunkHeaderSize + numStripes * chunkStripeSize in
        if blen arr <? off + entryLen then Ok None else
        if (keyType =? typeChunkItem) && (keyOff =? logStart) then Ok (Some (off, entryLen))
        else find_sys_entry fuel arr logStart (off + entryLen)
    end
  else Ok None.

(** The array of a superblock, when its size makes sense. *)
Definition sys_array (buf : bytes) : outcome (option bytes) :=
  arrSz ← Uint32 buf sbfSysChunkArrSz;
  if (arrSz <=? 0) || (blen buf <? sbfSysChunkArr + arrSz) then Ok None else
  arr ← slice buf sbfSysChunkArr (sbfSysChunkArr + arrSz);
  Ok (Some arr).
Definition sys_entry (buf : bytes) (logStart : Z) : outcome (option (bytes * Z * Z)) :=
  arr ← sys_array buf;
  match arr with
  | None => Ok None
  | Some arr =>
      e ← find_sys_entry (length arr) arr logStart 0;
      Ok (match e with Some (off, len) => Some (arr, off, len) | None => None end)
  end.

(** The new superblock of [rewriteSysChunkArrayEntryLocked]; [None] when there is
    no such entry. *)
Definition resize_sys_entry (buf : bytes) (logStart newSize : Z) : outcome (option bytes) :=
  e ← sys_entry buf logStart;
  match e with
  | None => Ok None
  | Some (_, off, _) =>
      buf ← PutUint64 buf (sbfSysChunkArr + off + keySize + chunkSize) newSize;
      buf ← updateSuperblockCRC buf;
      Ok (Some buf)
  end.
(** The new superblock of [deleteSysChunkArrayEntryLocked]. *)
Definition remove_sys_entry (buf : bytes) (logStart : Z) : outcome (option bytes) :=
  e ← sys_entry buf logStart;
  match e with
  | None => Ok None
  | Some (arr, off, entryLen) =>
      rest ← slice arr (off + entryLen) (blen arr);
      buf ← copy_at buf (sbfSysChunkArr + off) rest;
      let newArrSz := blen arr - entryLen in
      buf ← PutUint32 buf sbfSysChunkArrSz newArrSz;
      buf ← clear_range buf (sbfSysChunkArr + newArrSz) (sbfSysChunkArr + blen arr);
      buf ← updateSuperblockCRC buf;
      Ok (Some buf)
  end.

(** The sum of the sizes of the local chunks. *)
Definition devBytesUsed (sb : superblock) : Z :=
  foldl (fun acc m => if 0 <=? cm_localStripeIdx m then acc +₆₄ cm_size m else acc) 0 (sb_sysChunks sb).

(** The new superblock of [rewriteResizedSuperblockLocked]. *)
Definition resized_superblock (sb : superblock) (buf : bytes) (newTotalBytes : Z) : outcome bytes :=
  buf ← PutUint64 buf sbfTotalBytes newTotalBytes;
  buf ← PutUint64 buf sbfChunkLogAddr (sb_chunkLogAddr sb);
  buf ← PutUint64 buf (sbfDevItem + 0x08) newTotalBytes;
  buf ← PutUint64 buf (sbfDevItem + 0x10) (devBytesUsed sb);
  updateSuperblockCRC buf.

(** ** Data extents in the tail *)
Record relocTarget := RelocTarget {
  rt_ino : Z; rt_keyOffset : Z; rt_diskBytenr : Z; rt_diskBytes : Z; rt_fileOffset : Z; rt_numBytes : Z;
  rt_ramBytes : Z; rt_generation : Z; rt_compress : Z }.

(** [phys < dropEnd && phys+n > dropStart], in [uint64]. *)
Definition overlaps (phys n dropStart dropEnd : Z) : bool :=
  (phys <? dropEnd) && (dropStart <? phys +₆₄ n).

Definition reloc_target (sb : superblock) (dropStart dropEnd : Z) (k : key) (ed : bytes) : outcome (option relocTarget) :=
  if negb (typ k =? typeExtentData) then Ok None else
  if blen ed <? extDataRegularSize then Ok None else
  extType ← Uint8 ed extDataOffType;
  if negb (extType =? extentDataRegular) then Ok None else
  disk ← Uint64 ed extDataOffDiskBytenr;
  diskBytes ← Uint64 ed extDataOffDiskNumBytes;
  if (disk =? 0) || (diskBytes =? 0) then Ok None else
  if negb (overlaps (physFromLog sb disk) diskBytes dropStart dropEnd) then Ok None else
  fileOffset ← Uint64 ed extDataOffOffset;
  numBytes ← Uint64 ed extDataOffNumBytes;
  ramBytes ← Uint64 ed extDataOffRamBytes;
  generation ← Uint64 ed 0x00;
  compress ← Uint8 ed extDataOffCompression;
  Ok (Some (RelocTarget (objID k) (offset k) disk diskBytes fileOffset numBytes ramBytes generation compress)).

Fixpoint leaf_targets (sb : superblock) (dropStart dropEnd : Z) (buf : bytes) (items : list leafItem) (out : list relocTarget)
    : outcome (list relocTarget) :=
  match items with
  | [] => Ok out
  | it :: items =>
      t ← reloc_target sb dropStart dropEnd (it_k it) (item_data it buf);
      leaf_targets sb dropStart dropEnd buf items (match t with Some t => out ++ [t] | None => out end)
  end.

Definition encodeExtentDataRelocated (t : relocTarget) (newDisk newLen : Z) : bytes :=
  let buf := zeros extDataRegularSize in
  let buf := wr 8 buf 0x00 (rt_generation t) in
  let buf := wr 8 buf extDataOffRamBytes (rt_ramBytes t) in
  let buf := wr 1 buf extDataOffCompression (rt_compress t) in
  let buf := wr 1 buf extDataOffType extentDataRegular in
  let buf := wr 8 buf extDataOffDiskBytenr newDisk in
  let buf := wr 8 buf extDataOffDiskNumBytes newLen in
  let buf := wr 8 buf extDataOffOffset (rt_fileOffset t) in
  wr 8 buf extDataOffNumBytes (rt_numBytes t).

(** [make([]byte, n)] panics for a length no address space has. *)
Definition make_len (n : Z) : outcome unit := if 2 ^ 48 <=? n then Panic else Ok tt.

(** A walk with a closure over a local variable, whose error is returned. *)
Definition run_var_err {S A} (m : SM (S * A) unit) (a : A) : SM S A := fun s =>
  let '((s, a), r) := m (s, a) in
  (s, match r with Ok _ => Ok a | Err e => Err e | Panic => Panic | NoFuel => NoFuel end).

Section Resize.
Context `{SafeIO} {D : Type} `{RW : ReaderWriterAt D} `{BD : BlockDev D} (partOff : Z).
Abbreviation M := (SM (cowState D)).
Abbreviation T := (SM (txState D)).

Definition Truncate_dev (size : Z) : T unit :=
  tx_lift (fun _ s => let '(d, r) := dev_Truncate (st_dev s) size in (CowState d (st_sm s), r)).
Definition Sync : T unit := tx_lift (fun _ s => (s, dev_Sync (st_dev s))).
Definition sm_update (f : spaceManager -> spaceManager) : T unit :=
  tx_lift (fun _ s => (CowState (st_dev s) (f (st_sm s)), Ok tt)).

(** ** Items edited in place *)

(** [items := parseLeafItems(...); d := items[idx].data(leaf)], then an edit of [d]
    in the leaf. *)
Definition edit_at (leaf : bytes) (idx minLen : Z) (f : bytes -> outcome bytes) : outcome bytes :=
  hdr ← parseNodeHeader leaf;
  items ← parseLeafItems leaf (hdr_nItems hdr);
  match items !! Z.to_nat idx with
  | None => Panic
  | Some it => if blen (item_data it leaf) <? minLen then Err ErrOther else
      leaf ← edit_item leaf it f; updateNodeCRC leaf
  end.

(** The leaf of the chunk tree and its address. *)
Definition chunk_leaf : T (Z * bytes) :=
  sb ← sm_gets tx_sb;
  phys ← sm_lift (physAddr sb partOff (sb_chunkLogAddr sb));
  leafBuf ← dev_read phys (sb_nodeSize sb);
  mret (phys, leafBuf).

(** The leaf of a tree that holds a key. *)
Definition leaf_with_key (sb : superblock) (k : key) (logAddr : Z) (found : option (bytes * Z)) : M (option (bytes * Z)) :=
  match found with
  | Some _ => mret found
  | None =>
      r ← sm_try (node_read partOff sb logAddr);
      match r with
      | Ok buf =>
          hdr ← sm_lift (parseNodeHeader buf);
          if negb (hdr_level hdr =? 0) then mret None else
          idx ← sm_lift (findItemIdx buf (objID k) (typ k) (offset k));
          if idx <? 0 then mret None else
          match physAddr sb partOff logAddr with
          | Ok phys => mret (Some (buf, phys))
          | Err _ => mret None
          | Panic => sm_lift Panic
          | NoFuel => sm_lift NoFuel
          end
      | Err _ => mret None
      | Panic => sm_lift Panic
      | NoFuel => sm_lift NoFuel
      end
  end.
Definition findExtentLeafWithKey (root : Z) (k : key) : T (option (bytes * Z)) :=
  tx_lift (fun sb => run_var_err (walkNodeAddrs (fun x => with_var (node_read partOff sb x)) root
    (fun a => var_step (leaf_with_key sb k a))) None).

Definition devTreeRootLocked : T Z :=
  sb ← sm_gets tx_sb;
  '(buf, it) ← tx_search partOff (sb_rootLogAddr sb) (Key devTreeObjID typeRootItem 0);
  let d := item_data it buf in
  if blen d <? rootItemOffBytenr + 8 then sm_fail ErrOther else sm_lift (Uint64 d rootItemOffBytenr).

(** A step whose error means that there is nothing to do. *)
Definition or_skip {A} (m : T A) (k : A -> T unit) : T unit :=
  r ← sm_try m;
  match r with
  | Ok a => k a
  | Err _ => mret tt
  | Panic => sm_lift Panic
  | NoFuel => sm_lift NoFuel
  end.

Definition rewriteDevExtentLengthLocked (logStart newLen : Z) : T unit :=
  or_skip devTreeRootLocked (fun devRoot =>
    f ← findExtentLeafWithKey devRoot (Key 1 typeDevExtent logStart);
    match f with
    | None => mret tt
    | Some (leafBuf, phys) =>
        idx ← sm_lift (findItemIdx leafBuf 1 typeDevExtent logStart);
        if idx <? 0 then mret tt else
        leafBuf ← sm_lift (edit_at leafBuf idx (devExtentLengthOff + 8) (fun d => PutUint64 d devExtentLengthOff newLen));
        dev_write phys leafBuf
    end).

Definition rewriteSysChunkArrayEntryLocked (logStart newSize : Z) : T unit :=
  buf ← dev_read (partOff + superblockOffset) sbfSize;
  b ← sm_lift (resize_sys_entry buf logStart newSize);
  match b with
  | Some buf => dev_write (partOff + superblockOffset) buf
  | None => mret tt
  end.

Definition rewriteChunkSizeLocked (logStart newSize : Z) : T unit :=
  '(phys, leafBuf) ← chunk_leaf;
  idx ← sm_lift (findItemIdx leafBuf firstChunkTreeObjID typeChunkItem logStart);
  if idx <? 0 then sm_fail ErrOther else
  leafBuf ← sm_lift (edit_at leafBuf idx chunkHeaderSize (fun d => PutUint64 d chunkSize newSize));
  _ ← dev_write phys leafBuf;
  _ ← rewriteSysChunkArrayEntryLocked logStart newSize;
  rewriteDevExtentLengthLocked logStart newSize.

Definition rewriteBlockGroupLengthLocked (chunkLogStart oldLen newLen : Z) : T unit :=
  if oldLen =? newLen then mret tt else
  or_skip (tx_lift (fun sb => extentTreeRoot partOff sb)) (fun extRoot =>
    f ← findExtentLeafWithKey extRoot (Key chunkLogStart typeBlockGroupItem oldLen);
    match f with
    | None => mret tt
    | Some (leafBuf, leafPhys) =>
        idx ← sm_lift (findItemIdx leafBuf chunkLogStart typeBlockGroupItem oldLen);
        if idx <? 0 then mret tt else
        leafBuf ← sm_lift (PutUint64 leafBuf (nodeHdrSize + idx * itemSize + 9) newLen);
        leafBuf ← sm_lift (updateNodeCRC leafBuf);
        dev_write leafPhys leafBuf
    end).

Definition rewriteChunkTreeDevItemLocked (totalBytes bytesUsed : Z) : T unit :=
  '(phys, leafBuf) ← chunk_leaf;
  hdr ← sm_lift (parseNodeHeader leafBuf);
  if negb (hdr_level hdr =? 0) then mret tt else
  idx ← sm_lift (findItemIdx leafBuf devItemsObjID typeDevItem 1);
  if idx <? 0 then mret tt else
  leafBuf ← sm_lift (edit_at leafBuf idx (0x10 + 8) (fun dd =>
    dd ← PutUint64 dd 0x08 totalBytes; PutUint64 dd 0x10 bytesUsed));
  dev_write phys leafBuf.

Definition rewriteResizedSuperblockLocked (newTotalBytes : Z) : T unit :=
  sb ← sm_gets tx_sb;
  buf ← dev_read (partOff + superblockOffset) sbfSize;
  buf ← sm_lift (resized_superblock sb buf newTotalBytes);
  _ ← dev_write (partOff + superblockOffset) buf;
  rewriteChunkTreeDevItemLocked newTotalBytes (devBytesUsed sb).

Definition readBytesUsedLocked : T Z :=
  buf ← dev_read (i64 (partOff + superblockOffset + sbfBytesUsed)) 8;
  sm_lift (Uint64 buf 0).

(** ** Growing *)
Definition grow_checks (sb : superblock) (cur newSizeBytes : Z) : outcome unit :=
  if newSizeBytes <? cur then Err ErrOther else
  if newSizeBytes <? resizeMinSize then Err ErrOther else
  if sb_sectorSize sb <=? 0 then Err ErrOther else
  if negb (Z.rem newSizeBytes (sb_sectorSize sb) =? 0) then Err ErrOther else Ok tt.

Definition Grow (newSizeBytes : Z) : T unit :=
  if newSizeBytes <? 0 then sm_fail ErrOther else
  sb ← sm_gets tx_sb;
  let cur := i64 (sb_totalBytes sb) in
  if newSizeBytes =? cur then mret tt else
  _ ← sm_lift (grow_checks sb cur newSizeBytes);
  tailIdx ← sm_lift (tailChunkIdxLocked sb (u64 cur));
  let added := u64 (newSizeBytes - cur) in
  _ ← Truncate_dev (i64 (partOff + newSizeBytes));
  match sb_sysChunks sb !! tailIdx with
  | None => sm_lift Panic
  | Some oldChunk =>
      let newSize := cm_size oldChunk +₆₄ added in
      _ ← rewriteChunkSizeLocked (cm_logStart oldChunk) newSize;
      _ ← set_sb (fun sb => set_chunk_size sb tailIdx newSize);
      _ ← rewriteResizedSuperblockLocked (u64 newSizeBytes);
      _ ← set_sb (fun sb => set_totalBytes sb (u64 newSizeBytes));
      _ ← sm_update (fun sm => freeRange sm (cm_physStart oldChunk +₆₄ cm_size oldChunk) added);
      Sync
  end.

(** ** What lives in the tail *)
Definition collectRelocTargets (dropStart dropEnd : Z) : T (list relocTarget) :=
  root ← sm_gets tx_root;
  tx_lift (fun sb => run_var (walkLeaves (fun x => with_var (node_read partOff sb x)) root
    (fun buf items => var_step (fun out => sm_lift (leaf_targets sb dropStart dropEnd buf items out)))) []).

Definition node_overlaps (sb : superblock) (logAddr dropStart dropEnd : Z) : bool :=
  overlaps (physFromLog sb logAddr) (sb_nodeSize sb) dropStart dropEnd.

(** The first block of a tree in the range, after those found before. *)
Definition check_block (sb : superblock) (dropStart dropEnd logAddr : Z) (hit : option Z) : option Z :=
  match hit with
  | Some _ => hit
  | None => if node_overlaps sb logAddr dropStart dropEnd then Some logAddr else None
  end.
Definition check_tree (sb : superblock) (dropStart dropEnd root : Z) (hit : option Z) : M (option Z) :=
  run_var (walkNodeAddrs (fun x => with_var (node_read partOff sb x)) root
    (fun a => var_step (fun hit => mret (check_block sb dropStart dropEnd a hit)))) hit.
Fixpoint check_roots (sb : superblock) (dropStart dropEnd : Z) (skipExtentTree : bool) (buf : bytes) (items : list leafItem)
    (hit : option Z) : M (option Z) :=
  match items with
  | [] => mret hit
  | it :: items =>
      let d := item_data it buf in
      if negb (typ (it_k it) =? typeRootItem) || (objID (it_k it) =? fsTreeObjID) ||
         (skipExtentTree && (objID (it_k it) =? extentTreeObjID)) || (blen d <? rootItemOffBytenr + 8)
      then check_roots sb dropStart dropEnd skipExtentTree buf items hit
      else
        br ← sm_lift (Uint64 d rootItemOffBytenr);
        hit ← (if br =? 0 then mret hit else check_tree sb dropStart dropEnd br hit);
        check_roots sb dropStart dropEnd skipExtentTree buf items hit
  end.
Definition liveMetaInRangeOpt (dropStart dropEnd : Z) (skipExtentTree : bool) : T (option Z) :=
  fsTreeRoot ← sm_gets tx_root;
  tx_lift (fun sb =>
    hit ← check_tree sb dropStart dropEnd (sb_chunkLogAddr sb) None;
    hit ← check_tree sb dropStart dropEnd (sb_rootLogAddr sb) hit;
    hit ← check_tree sb dropStart dropEnd fsTreeRoot hit;
    run_var (walkLeaves (fun x => with_var (node_read partOff sb x)) (sb_rootLogAddr sb)
      (fun buf items => var_step (check_roots sb dropStart dropEnd skipExtentTree buf items))) hit).
Definition liveMetaInRange (dropStart dropEnd : Z) : T (option Z) := liveMetaInRangeOpt dropStart dropEnd false.
End Resize.
