(* ===== verification/Reloc.v ===== *)
(** * Relocation (resize_reloc.go)

    Moving the live contents of a physical range out of it: data extents are copied
    and their items updated through [cowUpdate]; tree blocks of every tree but the
    FS tree and the extent tree are rewritten bottom-up along the paths that reach
    the range, and the superblock or the ROOT_ITEM is pointed at the new root. *)
From Stdlib Require Import ZArith Lia Strings.Byte.
From stdpp Require Import base option list numbers sorting gmap.
From S2P Require Import Prelude Bytes Alloc Layout SafeIO Chunk Node BTree Split Crc32c Cow Codec Tx Extent Resize.
Local Open Scope Z_scope.
Local Open Scope btrfs_scope.

Section Blocks.
Context `{SafeIO} {D : Type} `{RW : ReaderWriterAt D} (partOff : Z) (sb : superblock).
Abbreviation M := (SM (cowState D)).

(** [fs.sm.freeRange(phys, n)] *)
Definition free_at (phys n : Z) : M unit := fun s =>
  (CowState (st_dev s) (freeRange (st_sm s) phys n), Ok tt).
(** A step after whose failure a range is given back before the error is returned. *)
Definition or_free {A} (m : M A) (phys n : Z) : M A :=
  r ← sm_try m;
  match r with
  | Ok a => mret a
  | Err e => _ ← free_at phys n; sm_fail e
  | Panic => sm_lift Panic
  | NoFuel => sm_lift NoFuel
  end.

Definition relocateNodeBuffer (node : bytes) (limit : Z) : M Z :=
  newPhys ← m_alloc;
  if limit <? newPhys +₆₄ sb_nodeSize sb
  then _ ← free_at newPhys (sb_nodeSize sb); sm_fail ErrOther
  else
    let newLog := physToLog sb newPhys in
    node ← sm_lift (PutUint64 node 0x30 newLog);
    node ← sm_lift (PutUint64 node 0x50 (next_gen sb));
    node ← sm_lift (updateNodeCRC node);
    _ ← or_free (m_write (i64 (partOff + i64 newPhys)) node) newPhys (sb_nodeSize sb);
    mret newLog.

Definition relocateLeafBlock (oldLog limit : Z) : M Z :=
  oldPhys ← sm_lift (physAddr sb partOff oldLog);
  buf ← dev_ReadAt oldPhys (sb_nodeSize sb);
  relocateNodeBuffer buf limit.

(** The new address of a (sub)tree and whether it changed. *)
Fixpoint relocateSubtreePath (fuel : nat) (logAddr dropStart dropEnd depth : Z) : M (Z * bool) :=
  if maxBtreeDepth <? depth then sm_fail ErrOther else
  match fuel with
  | O => sm_lift NoFuel
  | S fuel =>
      node ← node_read partOff sb logAddr;
      hdr ← sm_lift (parseNodeHeader node);
      let overlaps := node_overlaps sb logAddr dropStart dropEnd in
      '(node, changed) ←
        (if hdr_level hdr <=? 0 then mret (node, false) else
         (fix children (n : nat) (i : Z) (node : bytes) (changed : bool) : M (bytes * bool) :=
            match n with
            | O => mret (node, changed)
            | S n =>
                let off := nodeHdrSize + i * keyPtrSize in
                if blen node <? off + keyPtrSize then mret (node, changed) else
                childLog ← sm_lift (Uint64 node (off + 17));
                if childLog =? 0 then children n (i + 1) node changed else
                '(newChild, childChanged) ← relocateSubtreePath fuel childLog dropStart dropEnd (depth + 1);
                if childChanged : bool then
                  node ← sm_lift (PutUint64 node (off + 17) newChild);
                  node ← sm_lift (PutUint64 node (off + 25) (next_gen sb));
                  children n (i + 1) node true
                else children n (i + 1) node changed
            end) (Z.to_nat (hdr_nItems hdr)) 0 node false);
      if negb changed && negb overlaps then mret (logAddr, false) else
      newLog ← relocateNodeBuffer node dropStart;
      mret (newLog, true)
  end.

Definition repointRootItemLocked (objID newBytenr : Z) : M unit :=
  leafLog ← rootItemLeafLogAddr partOff sb objID;
  phys ← sm_lift (physAddr sb partOff leafLog);
  leaf ← dev_ReadAt phys (sb_nodeSize sb);
  hdr ← sm_lift (parseNodeHeader leaf);
  if negb (hdr_level hdr =? 0) then sm_fail ErrOther else
  idx ← sm_lift (findItemIdx leaf objID typeRootItem 0);
  if idx <? 0 then sm_fail ErrOther else
  leaf ← sm_lift (edit_at leaf idx (rootItemOffBytenr + 8) (fun d =>
    d ← PutUint64 d rootItemOffBytenr newBytenr;
    put_generation sb d));
  m_write phys leaf.

(** Whether a tree has a block in the range, and the trees of a ROOT_TREE leaf that have one. *)
Definition subtreeTouchesTail (dropStart dropEnd root : Z) : M bool :=
  run_var (walkNodeAddrs (fun x => with_var (node_read partOff sb x)) root
    (fun a => var_step (fun hit => mret (hit || node_overlaps sb a dropStart dropEnd)))) false.
Fixpoint tail_refs (dropStart dropEnd : Z) (buf : bytes) (items : list leafItem) (refs : list (Z * Z)) : M (list (Z * Z)) :=
  match items with
  | [] => mret refs
  | it :: items =>
      let d := item_data it buf in
      if negb (typ (it_k it) =? typeRootItem) || (objID (it_k it) =? fsTreeObjID) || (blen d <? rootItemOffBytenr + 8)
      then tail_refs dropStart dropEnd buf items refs
      else
        br ← sm_lift (Uint64 d rootItemOffBytenr);
        hit ← (if br =? 0 then mret false else subtreeTouchesTail dropStart dropEnd br);
        tail_refs dropStart dropEnd buf items (if hit : bool then refs ++ [(objID (it_k it), br)] else refs)
  end.
Fixpoint relocate_refs (dropStart dropEnd : Z) (refs : list (Z * Z)) : M unit :=
  match refs with
  | [] => mret tt
  | r :: refs =>
      if r.1 =? extentTreeObjID then relocate_refs dropStart dropEnd refs else
      '(newLog, _) ← relocateSubtreePath depth_fuel r.2 dropStart dropEnd 0;
      _ ← repointRootItemLocked r.1 newLog;
      relocate_refs dropStart dropEnd refs
  end.
End Blocks.

Section Reloc.
Context `{SafeIO} {D : Type} `{RW : ReaderWriterAt D} (partOff : Z).
Abbreviation T := (SM (txState D)).

Definition relocateTailMetadata (dropStart dropEnd : Z) : T unit :=
  hit ← tx_lift (fun sb => subtreeTouchesTail partOff sb dropStart dropEnd (sb_rootLogAddr sb));
  _ ← (if hit : bool then
         '(newLog, _) ← tx_lift (fun sb => relocateSubtreePath partOff sb depth_fuel (sb_rootLogAddr sb) dropStart dropEnd 0);
         set_sb (fun sb => set_rootLogAddr sb newLog)
       else mret tt);
  refs ← tx_lift (fun sb => run_var_err (walkLeaves (fun x => with_var (node_read partOff sb x)) (sb_rootLogAddr sb)
           (fun buf items => var_step (tail_refs partOff sb dropStart dropEnd buf items))) []);
  tx_lift (fun sb => relocate_refs partOff sb dropStart dropEnd refs).

(** The copy of one data extent: where it went. *)
Definition move_extent (t : relocTarget) (dropStart : Z) : T (Z * Z) :=
  '(newPhys, newLen) ← alloc_data (rt_diskBytes t);
  if dropStart <? newPhys +₆₄ newLen then _ ← free_data newPhys newLen; sm_fail ErrOther else
  _ ← sm_lift (make_len (rt_diskBytes t));
  _ ← tx_lift (fun sb => or_free (
        buf ← dev_ReadAt (i64 (partOff + i64 (physFromLog sb (rt_diskBytenr t)))) (rt_diskBytes t);
        m_write (i64 (partOff + i64 newPhys)) buf) newPhys newLen);
  mret (newPhys, newLen).

(** The part of a moved extent that is below the range. *)
Definition free_below (oldPhys diskBytes dropStart : Z) : T unit :=
  if oldPhys <? dropStart then free_data oldPhys (Z.min (dropStart -₆₄ oldPhys) diskBytes) else mret tt.

Fixpoint move_extents (dropStart : Z) (targets : list relocTarget) : T unit :=
  match targets with
  | [] => mret tt
  | t :: targets =>
      '(newPhys, newLen) ← move_extent t dropStart;
      sb ← sm_gets tx_sb;
      _ ← fs_update partOff (Key (rt_ino t) typeExtentData (rt_keyOffset t))
            (encodeExtentDataRelocated t (physToLog sb newPhys) newLen);
      _ ← free_below (physFromLog sb (rt_diskBytenr t)) (rt_diskBytes t) dropStart;
      move_extents dropStart targets
  end.

Definition relocateTailExtents (dropStart dropEnd : Z) : T unit :=
  targets ← collectRelocTargets partOff dropStart dropEnd;
  _ ← move_extents dropStart targets;
  _ ← relocateTailMetadata dropStart dropEnd;
  hit ← liveMetaInRangeOpt partOff dropStart dropEnd true;
  match hit with Some _ => sm_fail ErrOther | None => mret tt end.
End Reloc.
