(* ===== verification/Shrink.v ===== *)
(** * Shrinking (resize.go, resize_chunk.go)

    [Shrink] cuts the trailing chunk when its tail is free, evacuates the tail first
    when it is not, and removes the chunk altogether when the new size is its start.
    [Resize] picks between [Grow] and [Shrink]. *)
From Stdlib Require Import ZArith Lia Strings.Byte.
From stdpp Require Import base option list numbers sorting gmap.
From S2P Require Import Prelude Bytes Alloc Layout SafeIO Chunk Node BTree Split Crc32c Cow Codec Tx Extent Resize Reloc.
Local Open Scope Z_scope.
Local Open Scope btrfs_scope.

(** [append(l[:idx], l[idx+1:]...)] *)
Definition drop_chunk (sb : superblock) (idx : nat) : superblock :=
  set_sysChunks sb (take idx (sb_sysChunks sb) ++ drop (S idx) (sb_sysChunks sb)).

(** Whether another local chunk ends where the device is to end. *)
Fixpoint anchored_from (i : nat) (l : list chunkMapping) (idx : nat) (newSize : Z) : bool :=
  match l with
  | [] => false
  | m :: l => (negb (i =? idx)%nat && (0 <=? cm_localStripeIdx m) && (cm_physStart m +₆₄ cm_size m =? newSize))
              || anchored_from (S i) l idx newSize
  end.
Definition anchored (sb : superblock) (idx : nat) (newSize : Z) : bool := anchored_from 0 (sb_sysChunks sb) idx newSize.

Definition shrink_checks (sb : superblock) (cur newSizeBytes : Z) : outcome unit :=
  if cur <? newSizeBytes then Err ErrOther else
  if newSizeBytes <? resizeMinSize then Err ErrOther else
  if sb_sectorSize sb <=? 0 then Err ErrOther else
  if negb (Z.rem newSizeBytes (sb_sectorSize sb) =? 0) then Err ErrOther else Ok tt.

Section Shrink.
Context `{SafeIO} {D : Type} `{RW : ReaderWriterAt D} `{BD : BlockDev D} (partOff : Z).
Abbreviation T := (SM (txState D)).

(** [fs.sb.sysChunks[idx]] *)
Definition chunk_at (idx : nat) : T chunkMapping :=
  sb ← sm_gets tx_sb;
  match sb_sysChunks sb !! idx with Some m => mret m | None => sm_lift Panic end.

(** ** Deleting the items of a chunk *)
Definition delete_item (leaf : bytes) (k : key) : outcome bytes :=
  idx ← findItemIdx leaf (objID k) (typ k) (offset k);
  if idx <? 0 then Err ErrOther else
  leaf ← leafDeleteItem leaf idx;
  updateNodeCRC leaf.
Definition deleteLeafItemInPlace (phys : Z) (k : key) : T unit :=
  sb ← sm_gets tx_sb;
  leaf ← dev_read phys (sb_nodeSize sb);
  leaf ← sm_lift (delete_item leaf k);
  dev_write phys leaf.
Definition deleteChunkTreeItemLocked (k : key) : T unit :=
  sb ← sm_gets tx_sb;
  phys ← sm_lift (physAddr sb partOff (sb_chunkLogAddr sb));
  deleteLeafItemInPlace phys k.
Definition delete_found (root : Z) (k : key) : T unit :=
  f ← findExtentLeafWithKey partOff root k;
  match f with
  | None => mret tt
  | Some (_, phys) => deleteLeafItemInPlace phys k
  end.
Definition deleteDevTreeItemLocked (k : key) : T unit :=
  or_skip (devTreeRootLocked partOff) (fun devRoot => delete_found devRoot k).
Definition deleteBlockGroupItemLocked (chunkLogStart size : Z) : T unit :=
  or_skip (tx_lift (fun sb => extentTreeRoot partOff sb))
    (fun extRoot => delete_found extRoot (Key chunkLogStart typeBlockGroupItem size)).
Definition deleteSysChunkArrayEntryLocked (logStart : Z) : T unit :=
  buf ← dev_read (partOff + superblockOffset) sbfSize;
  b ← sm_lift (remove_sys_entry buf logStart);
  match b with
  | Some buf => dev_write (partOff + superblockOffset) buf
  | None => mret tt
  end.

(** ** Whether a chunk is empty *)

(** The [used] field of a block group in its leaf. *)
Definition group_used (leaf : bytes) (k : key) : outcome (option Z) :=
  idx ← findItemIdx leaf (objID k) (typ k) (offset k);
  if idx <? 0 then Ok None else
  hdr ← parseNodeHeader leaf;
  items ← parseLeafItems leaf (hdr_nItems hdr);
  match items !! Z.to_nat idx with
  | None => Panic
  | Some it => if blen (item_data it leaf) <? 8 then Ok None else u ← Uint64 (item_data it leaf) 0; Ok (Some u)
  end.
(** A step whose error means that there is no answer. *)
Definition or_none {A B} (m : T A) (k : A -> T (option B)) : T (option B) :=
  r ← sm_try m;
  match r with
  | Ok a => k a
  | Err _ => mret None
  | Panic => sm_lift Panic
  | NoFuel => sm_lift NoFuel
  end.
Definition blockGroupUsedLocked (logStart size : Z) : T (option Z) :=
  let k := Key logStart typeBlockGroupItem size in
  or_none (tx_lift (fun sb => extentTreeRoot partOff sb)) (fun extRoot =>
    or_none (findExtentLeafWithKey partOff extRoot k) (fun f =>
      match f with
      | None => mret None
      | Some (leaf, _) => sm_lift (group_used leaf k)
      end)).

(** [used, ok := blockGroupUsedLocked(...); ok && used != 0] *)
Definition group_in_use (logStart size : Z) : T bool :=
  u ← blockGroupUsedLocked logStart size;
  mret (match u with Some used => negb (used =? 0) | None => false end).

Definition chunkIsEvacuableLocked (idx : nat) : T bool :=
  c ← chunk_at idx;
  let fin := cm_physStart c +₆₄ cm_size c in
  targets ← collectRelocTargets partOff (cm_physStart c) fin;
  if negb (bool_decide (targets = [])) then mret false else
  hit ← liveMetaInRange partOff (cm_physStart c) fin;
  match hit with
  | Some _ => mret false
  | None => used ← group_in_use (cm_logStart c) (cm_size c); mret (negb used)
  end.

(** ** Removing the trailing chunk *)
Definition removeTrailingChunkLocked (idx : nat) (newSize : Z) : T unit :=
  chunk ← chunk_at idx;
  _ ← deleteChunkTreeItemLocked (Key firstChunkTreeObjID typeChunkItem (cm_logStart chunk));
  _ ← deleteDevTreeItemLocked (Key 1 typeDevExtent (cm_logStart chunk));
  _ ← deleteBlockGroupItemLocked (cm_logStart chunk) (cm_size chunk);
  _ ← deleteSysChunkArrayEntryLocked (cm_logStart chunk);
  _ ← set_sb (fun sb => drop_chunk sb idx);
  _ ← sm_update (fun sm => remove sm (cm_physStart chunk) (cm_size chunk));
  _ ← rewriteResizedSuperblockLocked partOff newSize;
  _ ← set_sb (fun sb => set_totalBytes sb newSize);
  _ ← Truncate_dev (i64 (partOff + i64 newSize));
  Sync.

(** [relocateTailExtents], after whose failure the evicted range is given back. *)
Definition evacuate (dropStart dropEnd : Z) : T unit :=
  _ ← sm_update (fun sm => remove sm dropStart (dropEnd -₆₄ dropStart));
  r ← sm_try (relocateTailExtents partOff dropStart dropEnd);
  match r with
  | Ok _ => mret tt
  | Err e => _ ← free_data dropStart (dropEnd -₆₄ dropStart); sm_fail e
  | Panic => sm_lift Panic
  | NoFuel => sm_lift NoFuel
  end.

Definition relocateNonEmptyChunkLocked (idx : nat) : T unit :=
  chunk ← chunk_at idx;
  let dropStart := cm_physStart chunk in
  let dropEnd := cm_physStart chunk +₆₄ cm_size chunk in
  _ ← evacuate dropStart dropEnd;
  leftover ← collectRelocTargets partOff dropStart dropEnd;
  if negb (bool_decide (leftover = []))
  then _ ← free_data dropStart (dropEnd -₆₄ dropStart); sm_fail ErrOther
  else
    root ← sm_gets tx_root;
    _ ← updateFsTreeRoot partOff root;
    used ← group_in_use (cm_logStart chunk) (cm_size chunk);
    if used : bool then sm_fail ErrOther else mret tt.

Definition removeWholeTrailingChunkLocked (idx : nat) (newSize : Z) : T unit :=
  chunk ← chunk_at idx;
  if negb (newSize =? cm_physStart chunk) then sm_fail ErrOther else
  sb ← sm_gets tx_sb;
  if negb (anchored sb idx newSize) then sm_fail ErrOther else
  empty ← chunkIsEvacuableLocked idx;
  _ ← (if empty : bool then mret tt else relocateNonEmptyChunkLocked idx);
  removeTrailingChunkLocked idx newSize.

(** ** [Shrink] *)

(** The part of the trailing chunk that is dropped is emptied; whether that moved anything. *)
Definition empty_tail (dropStart dropEnd : Z) : T bool :=
  s ← sm_gets tx_cow;
  if rangeFree (st_sm s) dropStart (dropEnd -₆₄ dropStart) then mret false else
  _ ← evacuate dropStart dropEnd;
  leftover ← collectRelocTargets partOff dropStart dropEnd;
  if negb (bool_decide (leftover = [])) then sm_fail ErrOther else mret true.

(** The new geometry, once the tail is empty. *)
Definition cut_tail (tailIdx : nat) (tail : chunkMapping) (dropStart dropEnd newSizeBytes : Z) (relocated : bool) : T unit :=
  let newChunkSize := cm_size tail -₆₄ (dropEnd -₆₄ dropStart) in
  _ ← rewriteChunkSizeLocked partOff (cm_logStart tail) newChunkSize;
  _ ← set_sb (fun sb => set_chunk_size sb tailIdx newChunkSize);
  _ ← (if relocated then root ← sm_gets tx_root; updateFsTreeRoot partOff root
       else rewriteBlockGroupLengthLocked partOff (cm_logStart tail) (cm_size tail) newChunkSize);
  _ ← rewriteResizedSuperblockLocked partOff (u64 newSizeBytes);
  _ ← set_sb (fun sb => set_totalBytes sb (u64 newSizeBytes));
  _ ← sm_update (fun sm => remove sm dropStart (dropEnd -₆₄ dropStart));
  _ ← Truncate_dev (i64 (partOff + newSizeBytes));
  Sync.

Definition Shrink (newSizeBytes : Z) : T unit :=
  if newSizeBytes <? 0 then sm_fail ErrOther else
  sb ← sm_gets tx_sb;
  let cur := i64 (sb_totalBytes sb) in
  if newSizeBytes =? cur then mret tt else
  _ ← sm_lift (shrink_checks sb cur newSizeBytes);
  bytesUsed ← readBytesUsedLocked partOff;
  if u64 newSizeBytes <? bytesUsed then sm_fail ErrOther else
  tailIdx ← sm_lift (tailChunkIdxLocked sb (u64 cur));
  tail ← chunk_at tailIdx;
  if u64 newSizeBytes <=? cm_physStart tail
  then removeWholeTrailingChunkLocked tailIdx (u64 newSizeBytes)
  else
    relocated ← empty_tail (u64 newSizeBytes) (u64 cur);
    cut_tail tailIdx tail (u64 newSizeBytes) (u64 cur) newSizeBytes relocated.

Definition Resize (newSizeBytes : Z) : T unit :=
  if newSizeBytes <? 0 then sm_fail ErrOther else
  sb ← sm_gets tx_sb;
  let cur := i64 (sb_totalBytes sb) in
  if newSizeBytes =? cur then mret tt else
  if cur <? newSizeBytes then Grow partOff newSizeBytes else Shrink newSizeBytes.
End Shrink.
