(* ===== verification/ResizeCorrect.v ===== *)
(** * What resizing promises (resize.go, resize_chunk.go)

    The trailing chunk that anchors a resize, what a volume that has grown looks like, and what a
    failed relocation does to the free list. *)
From Stdlib Require Import ZArith Lia Strings.Byte.
From stdpp Require Import base option list numbers sorting gmap.
From S2P Require Import Prelude Bytes Alloc Layout SafeIO Chunk Node BTree Walk Split Crc32c Cow Store CowCorrect CowExamples.
From S2P Require Import Codec Read FileRead Mount Tx Extent Ops FsTree FsLookup InodeEdit Rebuild FsData ExtentLayout ExtentWrite.
From S2P Require Import CommitCorrect InodeOps Entries Paths Create CreateApi OpsExamples Resize Reloc Shrink.
Local Open Scope Z_scope.
Local Open Scope btrfs_scope.

(** ** The trailing chunk *)
Definition chunk_tail (m : chunkMapping) : Z := cm_physStart m +₆₄ cm_size m.
Definition local_chunk (m : chunkMapping) : Prop := 0 <= cm_localStripeIdx m.

Lemma tailChunk_loop_spec l i best :
  0 <= best.2 ->
  let r := tailChunk_loop i l best in
  best.2 <= r.2 /\ (forall m, m ∈ l -> local_chunk m -> chunk_tail m <= r.2) /\
  (r = best \/ exists j m, l !! j = Some m /\ r = (Some (i + j)%nat, chunk_tail m) /\ local_chunk m).
Proof.
  revert i best. induction l as [|m l IH]; intros i best Hb; cbn [tailChunk_loop].
  { cbv zeta. split_and!; [lia|by intros m ?%not_elem_of_nil|by left]. }
  assert (Hst : let s := tailChunk_step i m best in best.2 <= s.2 /\ (local_chunk m -> chunk_tail m <= s.2) /\
    (s = best \/ s = (Some i, chunk_tail m) /\ local_chunk m)).
  { unfold tailChunk_step, local_chunk, chunk_tail. case_if; bool_prop; [split_and!; [lia|lia|by left]|].
    case_if; bool_prop; cbn [snd]; [split_and!; [lia|lia|right; split; [done|lia]]|split_and!; [lia|lia|by left]]. }
  cbv zeta in *. destruct Hst as (H1&H2&H3). destruct (IH (S i) (tailChunk_step i m best) ltac:(lia)) as (I1&I2&I3). split_and!.
  - lia.
  - intros m' [->|Hm]%elem_of_cons Hl; [specialize (H2 Hl); lia|by apply I2].
  - destruct I3 as [->|(j&m'&Ej&->&Hl)].
    + destruct H3 as [->|[-> Hl]]; [by left|]. right. exists 0%nat, m. rewrite Nat.add_0_r. done.
    + right. exists (S j), m'. rewrite Nat.add_succ_comm. done.
Qed.

(** The anchor of a resize: a local chunk that ends where the device ends, past which no
    local chunk reaches. *)
Lemma tailChunk_spec sb e : 0 < e ->
  match tailChunkIdxLocked sb e with
  | Ok i => exists m, sb_sysChunks sb !! i = Some m /\ local_chunk m /\ chunk_tail m = e /\
      forall m', m' ∈ sb_sysChunks sb -> local_chunk m' -> chunk_tail m' <= e
  | Err _ => (forall m, m ∈ sb_sysChunks sb -> local_chunk m -> chunk_tail m <> e) \/
      exists m, m ∈ sb_sysChunks sb /\ local_chunk m /\ e < chunk_tail m
  | _ => False
  end.
Proof.
  intros He. unfold tailChunkIdxLocked. destruct (tailChunk_loop_spec (sb_sysChunks sb) 0 (None, 0) ltac:(cbn; lia)) as (_&Hmax&Hr). cbv zeta in *.
  destruct Hr as [Hr|(j&m&Ej&Hr&Hl)]; rewrite Hr in *; cbn [snd fst] in *.
  - left. intros m Hm Hl Ht. specialize (Hmax m Hm Hl). lia.
  - rewrite Nat.add_0_l. case_if; bool_prop; [by exists m; subst|].
    destruct (Z_lt_ge_dec e (chunk_tail m)) as [Hlt|Hge]; [right; exists m; split_and!; [by eapply list_elem_of_lookup_2|done|done]|].
    left. intros m' Hm' Hl' Ht. specialize (Hmax m' Hm' Hl'). lia.
Qed.

(** A step that succeeded, and the rest. *)
Lemma sm_bind_inv {S A B} (m : SM S A) (f : A -> SM S B) s s' b :
  (m ≫= f) s = (s', Ok b) -> exists s1 a, m s = (s1, Ok a) /\ f a s1 = (s', Ok b).
Proof. unfold mbind, SM_bind. destruct (m s) as [s1 [a| | |]]; try done. eauto. Qed.

(** ** Without an anchor *)
Section Refuse.
Context `{SafeIO} {D : Type} `{RW : ReaderWriterAt D} `{BD : BlockDev D} (partOff : Z).
Abbreviation cur w := (i64 (sb_totalBytes (tx_sb w))).

Lemma Grow_no_anchor (w : txState D) n : n <> cur w -> tailChunkIdxLocked (tx_sb w) (u64 (cur w)) = Err ErrOther ->
  Grow partOff n w = (w, Err ErrOther).
Proof using.
  intros Hn Hb. unfold Grow. case_if; [done|]. rewrite (sm_bind_Ok _ _ _ w (tx_sb w)) by done. case_if; [bool_prop; lia|].
  destruct (decide (grow_checks (tx_sb w) (cur w) n = Ok tt)) as [Ec|Ec].
  - rewrite Ec, (sm_lift_Ok _ _ _ _ eq_refl). by rewrite Hb.
  - assert (Ee : grow_checks (tx_sb w) (cur w) n = Err ErrOther) by (revert Ec; unfold grow_checks; repeat case_if; done). by rewrite Ee.
Qed.
Lemma Resize_eq (w : txState D) n : Resize partOff n w =
  if n <? 0 then (w, Err ErrOther) else if n =? cur w then (w, Ok tt) else
  if cur w <? n then Grow partOff n w else Shrink partOff n w.
Proof using.
  unfold Resize. case_if; [done|]. rewrite (sm_bind_Ok _ _ _ w (tx_sb w)) by done. repeat case_if; done.
Qed.
End Refuse.

Section Tail.
Context `{HL : SafeIO} {D : Type} `{RWL : RWLaws D} `{BD : BlockDev D} (partOff : Z).
Abbreviation cur w := (i64 (sb_totalBytes (tx_sb w))).

Lemma readBytesUsed_run (w : txState D) : exists o, readBytesUsedLocked partOff w = (w, o) /\ ((exists v, o = Ok v) \/ exists e, o = Err e).
Proof using RWL.
  unfold readBytesUsedLocked, mbind, SM_bind, dev_read, tx_lift. destruct w as [s sb r n]. cbn [tx_cow tx_sb tx_root tx_tick].
  pose proof (ReadAt_safe (st_dev s) (i64 (partOff + superblockOffset + sbfBytesUsed)) 8) as Hs.
  destruct (ReadAt _ _ 8) as [b|e| |] eqn:E; try done; [|eauto].
  apply ReadAt_blen in E; [|lia]. unfold sm_lift. rewrite get_le_Ok by lia. eauto.
Qed.

(** A trailing chunk that does not end at the device size stops every resize. *)
Lemma Resize_no_anchor (w : txState D) n :
  tailChunkIdxLocked (tx_sb w) (u64 (cur w)) = Err ErrOther -> n <> cur w -> exists e, Resize partOff n w = (w, Err e).
Proof using RWL.
  intros Ht Hn. rewrite Resize_eq. case_if; [eauto|]. case_if; [bool_prop; lia|]. case_if; bool_prop.
  - exists ErrOther. by apply Grow_no_anchor.
  - unfold Shrink. rewrite (proj2 (Z.ltb_ge n 0)) by lia. rewrite (sm_bind_Ok _ _ _ w (tx_sb w)) by done.
    rewrite (proj2 (Z.eqb_neq n _)) by done.
    destruct (shrink_checks (tx_sb w) (cur w) n) as [[]|e| |] eqn:Ec; try (revert Ec; unfold shrink_checks; by repeat case_if).
    2: { exists e. done. }
    rewrite (sm_lift_Ok _ _ _ _ eq_refl). destruct (readBytesUsed_run w) as (o&Eo&[[v ->]|[e ->]]).
    + rewrite (sm_bind_Ok _ _ _ _ _ Eo). case_if; [by exists ErrOther|]. rewrite Ht. by exists ErrOther.
    + exists e. unfold mbind at 1, SM_bind at 1. by rewrite Eo.
Qed.
End Tail.

(** ** Steps that keep a part of the state *)
Definition stays {S A} (P : S -> Prop) (m : SM S A) : Prop := forall s, P s -> P (m s).1.
Section Keeps.
Context {S : Type} (P : S -> Prop).
Lemma stays_ret {A} (a : A) : stays P (mret a).
Proof. by intros s Hs. Qed.
Lemma stays_lift {A} (o : outcome A) : stays P (sm_lift o).
Proof. by intros s Hs. Qed.
Lemma stays_fail {A} e : stays P (sm_fail (A := A) e).
Proof. by intros s Hs. Qed.
Lemma stays_gets {A} (f : S -> A) : stays P (sm_gets f).
Proof. by intros s Hs. Qed.
Lemma stays_bind {A B} (m : SM S A) (f : A -> SM S B) : stays P m -> (forall a, stays P (f a)) -> stays P (m ≫= f).
Proof.
  intros Hm Hf s Hs. specialize (Hm s Hs). unfold mbind, SM_bind. destruct (m s) as [s1 [a|e| |]]; cbn in *; [by apply Hf|done..].
Qed.
Lemma stays_try {A} (m : SM S A) : stays P m -> stays P (sm_try m).
Proof. intros Hm s Hs. specialize (Hm s Hs). unfold sm_try. by destruct (m s) as [s1 []]. Qed.
Lemma stays_run {A} (m : SM S A) s s' o : stays P m -> P s -> m s = (s', o) -> P s'.
Proof. intros Hm Hs E. specialize (Hm s Hs). by rewrite E in Hm. Qed.
End Keeps.
Create HintDb stays discriminated.
#[export] Hint Resolve stays_ret stays_lift stays_fail stays_gets stays_try : stays.
Ltac stays_step :=
  first [ apply stays_bind; [|intros ?] | case_match | solve [auto with stays] ].
Ltac stays_tac := repeat stays_step.

Lemma stays_with_var {S A R} (P : S -> Prop) (m : SM S R) : stays P m -> stays (fun sa : S * A => P sa.1) (with_var m).
Proof. intros Hm [s a] Hs. specialize (Hm s Hs). unfold with_var. cbn [fst snd]. by destruct (m s). Qed.
Lemma stays_var_step {S A} (P : S -> Prop) (f : A -> SM S A) : (forall a, stays P (f a)) -> stays (fun sa : S * A => P sa.1) (var_step f).
Proof. intros Hf [s a] Hs. specialize (Hf a s Hs). unfold var_step. cbn [fst snd]. by destruct (f a s) as [s1 []]. Qed.
Lemma stays_run_var_err {S A} (P : S -> Prop) (m : SM (S * A) unit) a : stays (fun sa : S * A => P sa.1) m -> stays P (run_var_err m a).
Proof. intros Hm s Hs. specialize (Hm (s, a) Hs). unfold run_var_err. by destruct (m (s, a)) as [[s1 a1] []]. Qed.
Lemma stays_addrWalk `{SafeIO} {S} (P : S -> Prop) (rd : Z -> SM S bytes) (fn : Z -> SM S unit) :
  (forall a, stays P (rd a)) -> (forall a, stays P (fn a)) -> forall fuel w a d, stays P (addrWalk_rec rd fuel fn w a d).
Proof.
  intros Hrd Hfn. induction fuel as [|fuel IH]; intros w a d; cbn [addrWalk_rec]; stays_tac; try (by apply Hfn); try (by apply stays_try).
  match goal with |- stays P (_ ?l ?w0) => generalize w0; induction l as [|child l IHl]; intros w1 end; [apply stays_ret|].
  case_if; [apply IHl|]. apply stays_bind; [apply IH|intros w2; apply IHl].
Qed.
Lemma stays_searchTree `{SafeIO} {S} (P : S -> Prop) (rd : Z -> SM S bytes) : (forall a, stays P (rd a)) ->
  forall fuel seen a pl d o t f, stays P (searchTree_loop rd fuel seen a pl d o t f).
Proof.
  intros Hrd. induction fuel as [|fuel IH]; intros; cbn [searchTree_loop]; stays_tac; try (by apply Hrd); try (by apply IH).
Qed.

(** The in-place edits of a resize write to the device and nowhere else. *)
Section Edits.
Context `{SafeIO} {D : Type} `{RW : ReaderWriterAt D} `{BD : BlockDev D} (partOff : Z) (sb0 : superblock) (root0 : Z) (sm0 : spaceManager).
Definition same_geometry (w : txState D) : Prop := tx_sb w = sb0 /\ tx_root w = root0 /\ st_sm (tx_cow w) = sm0.
Definition same_sm (s : cowState D) : Prop := st_sm s = sm0.

Lemma stays_tx_lift {A} (f : superblock -> SM (cowState D) A) : (forall sb, stays same_sm (f sb)) -> stays same_geometry (tx_lift f).
Proof using.
  intros Hf w (H1&H2&H3). specialize (Hf (tx_sb w) (tx_cow w) H3). unfold tx_lift. destruct (f _ _) as [s r]. by split_and!.
Qed.
Lemma stays_node_read sb a : stays same_sm (node_read partOff sb a).
Proof using. by intros s Hs. Qed.
Lemma stays_dev_read off n : stays same_geometry (dev_read off n).
Proof using. apply stays_tx_lift. by intros sb s Hs. Qed.
Lemma stays_dev_write off b : stays same_geometry (dev_write off b).
Proof using.
  apply stays_tx_lift. intros sb s Hs. unfold m_write. by destruct (WriteAt _ _ _).
Qed.
Lemma stays_truncate n : stays same_geometry (Truncate_dev n).
Proof using. apply stays_tx_lift. intros sb s Hs. cbn. by destruct (dev_Truncate _ _). Qed.
Lemma stays_sync : stays same_geometry Sync.
Proof using. apply stays_tx_lift. by intros sb s Hs. Qed.
Lemma stays_tx_search root k : stays same_geometry (tx_search partOff root k).
Proof using. apply stays_tx_lift. intros sb. apply stays_searchTree. intros a. apply stays_node_read. Qed.
Lemma stays_find_leaf root k : stays same_geometry (findExtentLeafWithKey partOff root k).
Proof using.
  apply stays_tx_lift. intros sb. apply stays_run_var_err. apply stays_bind; [|intros; apply stays_ret].
  apply stays_addrWalk; intros a; [apply stays_with_var, stays_node_read|]. apply stays_var_step. intros found. unfold leaf_with_key. stays_tac.
  apply stays_try, stays_node_read.
Qed.
Hint Resolve stays_dev_read stays_dev_write stays_tx_search stays_find_leaf : stays.

Lemma rewriteChunkSize_stays l n : stays same_geometry (rewriteChunkSizeLocked partOff l n).
Proof using.
  unfold rewriteChunkSizeLocked, chunk_leaf, rewriteSysChunkArrayEntryLocked, rewriteDevExtentLengthLocked, devTreeRootLocked. stays_tac.
  apply stays_try. stays_tac.
Qed.
Lemma rewriteSuperblock_stays n : stays same_geometry (rewriteResizedSuperblockLocked partOff n).
Proof using. unfold rewriteResizedSuperblockLocked, rewriteChunkTreeDevItemLocked, chunk_leaf. stays_tac. Qed.
End Edits.

(** ** The superblock of a resized volume on the device *)

(** A write that returns without an error: its bytes are read back, and what could be read
    elsewhere still can. *)
Class WriteDone (D : Type) `{RW : ReaderWriterAt D} := {
  WriteAt_done d off b d' : WriteAt d off b = (d', Ok tt) -> ReadAt d' off (blen b) = Ok b /\
    forall off' n x, 0 <= n -> off' + n <= off \/ off + blen b <= off' -> ReadAt d off' n = Ok x -> ReadAt d' off' n = Ok x }.

Lemma put_le_inv n b off v b' : put_le n b off v = Ok b' -> b' = wr n b off v /\ blen b' = blen b.
Proof.
  unfold put_le. case_if; [|done]. intros [= <-]. split; [done|]. unfold in_range in *. bool_prop. rewrite blen_wr; lia.
Qed.

Lemma edit_at_blen leaf idx minLen f leaf' : 0 < minLen -> (forall d d', f d = Ok d' -> blen d' = blen d) ->
  edit_at leaf idx minLen f = Ok leaf' -> blen leaf' = blen leaf.
Proof.
  intros Hm Hf. unfold edit_at. intros (hdr&_&(items&_&E)%outcome_bind_Ok)%outcome_bind_Ok.
  destruct (items !! Z.to_nat idx) as [it|]; [|done]. destruct (Z.ltb_spec (blen (item_data it leaf)) minLen) as [|Hlen]; [done|].
  apply outcome_bind_Ok in E as (b&E1&E2). unfold edit_item in E1. apply outcome_bind_Ok in E1 as (d&Ed&Eb). injection Eb as <-.
  apply Hf in Ed. set (st := nodeHdrSize + it_dataOff it) in *.
  assert (Hin : 0 <= st /\ st + blen (item_data it leaf) <= blen leaf).
  { revert Hlen. unfold item_data, st. case_if; unfold blen at 1; [cbn; lia|]. bool_prop. unfold sub, blen in *.
    rewrite length_take, length_drop. unfold nodeHdrSize in *. lia. }
  assert (L : blen (splice leaf st d) = blen leaf) by (apply blen_splice; lia).
  unfold updateNodeCRC in E2. apply outcome_bind_Ok in E2 as (body&_&[_ L2]%put_le_inv). lia.
Qed.

Lemma devBytesUsed_u64 sb : is_u64 (devBytesUsed sb).
Proof.
  unfold devBytesUsed. set (f := fun _ _ => _). enough (Hg : forall l acc, is_u64 acc -> is_u64 (foldl f acc l)) by (apply Hg; unfold is_u64; lia).
  induction l as [|m l IH]; intros acc Ha; [done|]. cbn [foldl]. apply IH. unfold f. case_if; [apply u64_range|done].
Qed.

Lemma resized_superblock_spec sb buf n b' : blen buf = sbfSize -> is_u64 n -> resized_superblock sb buf n = Ok b' ->
  blen b' = sbfSize /\ rd 8 b' sbfTotalBytes = n /\ rd 8 b' (sbfDevItem + 0x08) = n /\ rd 8 b' (sbfDevItem + 0x10) = devBytesUsed sb.
Proof.
  intros Hb Hn. unfold resized_superblock, updateSuperblockCRC, sbfTotalBytes, sbfChunkLogAddr, sbfDevItem, sbfSize in *. pose proof (devBytesUsed_u64 sb) as Hu.
  intros (b1&[-> L1]%put_le_inv&E)%outcome_bind_Ok. apply outcome_bind_Ok in E as (b2&[-> L2]%put_le_inv&E).
  apply outcome_bind_Ok in E as (b3&[-> L3]%put_le_inv&E). apply outcome_bind_Ok in E as (b4&[-> L4]%put_le_inv&E).
  apply outcome_bind_Ok in E as (body&_&E). apply put_le_inv in E as [-> L5]. split; [lia|].
  unfold is_u64 in *. split_and!; rewrite ?rd_wr_out by lia; rewrite rd_wr_same by lia; apply Z.mod_small; change (256 ^ Z.of_nat 8) with (2 ^ 64); lia.
Qed.

(** The superblock of the volume on the device: its size, and the size and the used bytes of
    its device. *)
Definition sized_on_device {D : Type} `{RW : ReaderWriterAt D} (partOff : Z) (w : txState D) (n used : Z) : Prop :=
  exists buf, ReadAt (st_dev (tx_cow w)) (partOff + superblockOffset) sbfSize = Ok buf /\
    rd 8 buf sbfTotalBytes = n /\ rd 8 buf (sbfDevItem + 0x08) = n /\ rd 8 buf (sbfDevItem + 0x10) = used.
(** The leaf of the chunk tree is not where the superblock is. *)
Definition chunk_leaf_apart (partOff : Z) (sb : superblock) : Prop :=
  0 <= partOff /\ 0 <= sb_chunkLogAddr sb /\ partOff + sb_chunkLogAddr sb < 2 ^ 63 /\ 0 <= sb_nodeSize sb /\
  disjoint_ranges (sb_chunkLogAddr sb) (sb_nodeSize sb) superblockOffset sbfSize.

Lemma superblock_on_device {D : Type} `{RWL : RWLaws D} `{WD : !WriteDone D} (partOff : Z) (w w' : txState D) n :
  rewriteResizedSuperblockLocked partOff n w = (w', Ok tt) -> is_u64 n -> chunk_leaf_apart partOff (tx_sb w) ->
  sized_on_device partOff w' n (devBytesUsed (tx_sb w)).
Proof.
  intros E Hn (P1&P2&P3&P4&Hd). unfold rewriteResizedSuperblockLocked in E. rewrite (sm_bind_Ok _ _ _ w (tx_sb w)) in E by done.
  destruct w as [[d sm] sb root tick]. cbn [tx_sb] in *.
  apply sm_bind_inv in E as (w1&buf&E1&E). unfold dev_read, tx_lift in E1. cbn [tx_sb tx_cow st_dev tx_root tx_tick] in E1. injection E1 as <- E1.
  apply sm_bind_inv in E as (w1&buf1&E2&E). injection E2 as <- E2.
  pose proof (ReadAt_blen _ _ _ _ (ltac:(done) : 0 <= sbfSize) E1) as L0. destruct (resized_superblock_spec _ _ _ _ L0 Hn E2) as (L1&F1&F2&F3).
  apply sm_bind_inv in E as (w1&[]&E3&E). unfold dev_write, tx_lift, m_write in E3. cbn [tx_sb tx_cow st_dev tx_root tx_tick st_sm] in E3.
  destruct (WriteAt d (partOff + superblockOffset) buf1) as [d1 r1] eqn:Ew. injection E3 as <- ->.
  destruct (WriteAt_done _ _ _ _ Ew) as [Hr _]. rewrite L1 in Hr.
  enough (Hk : ReadAt (st_dev (tx_cow w')) (partOff + superblockOffset) sbfSize = Ok buf1) by (by exists buf1).
  unfold rewriteChunkTreeDevItemLocked in E. apply sm_bind_inv in E as (w1&[phys leaf]&E4&E).
  unfold chunk_leaf in E4. apply sm_bind_inv in E4 as (w2&sb2&E5&E4). injection E5 as <- <-. cbn [tx_sb] in E4.
  apply sm_bind_inv in E4 as (w2&ph&E5&E4). injection E5 as <- E5.
  apply sm_bind_inv in E4 as (w2&lf&E6&E4). injection E4 as <- <- <-. unfold dev_read, tx_lift in E6. cbn [tx_sb tx_cow st_dev tx_root tx_tick] in E6. injection E6 as <- E6.
  apply (ReadAt_blen _ _ _ _ P4) in E6 as L2.
  destruct (physAddr_cases sb partOff (sb_chunkLogAddr sb)) as [Ep|Ep]; rewrite Ep in E5; [|done].
  rewrite (i64_small (sb_chunkLogAddr sb)), i64_small in E5 by lia. injection E5 as <-.
  apply sm_bind_inv in E as (w2&hdr&E7&E). injection E7 as <- _. case_if_in E; [by injection E as <-|].
  apply sm_bind_inv in E as (w2&idx&E8&E). injection E8 as <- _. case_if_in E; [by injection E as <-|].
  apply sm_bind_inv in E as (w2&leaf'&E9&E). injection E9 as <- E9.
  apply edit_at_blen in E9; [|lia|intros dd dd' (x&[_ L]%put_le_inv&[_ L']%put_le_inv)%outcome_bind_Ok; lia].
  unfold dev_write, tx_lift, m_write in E. cbn [tx_sb tx_cow st_dev tx_root tx_tick st_sm] in E.
  destruct (WriteAt d1 (partOff + sb_chunkLogAddr sb) leaf') as [d2 r2] eqn:Ew2. injection E as <- ->. cbn [tx_cow st_dev].
  destruct (WriteAt_done _ _ _ _ Ew2) as [_ Hf]. apply Hf; [unfold sbfSize; lia| |done]. unfold disjoint_ranges in Hd. lia.
Qed.

(** ** Growing *)

(** The superblock with one chunk made longer. *)
Definition grown_sb (sb : superblock) (idx : nat) (c : chunkMapping) (added n : Z) : superblock :=
  set_totalBytes (set_sysChunks sb (<[idx := set_cm_size c (cm_size c + added)]> (sb_sysChunks sb))) n.

(** Addresses under the longer chunk: the old ones lead where they led, the new ones to the
    bytes behind the old end. *)
Lemma grown_translates sb idx c added n : sb_sysChunks sb !! idx = Some c -> local_chunk c -> 0 <= added ->
  let sb' := grown_sb sb idx c added n in chunk_map_wf (sb_sysChunks sb) -> chunk_map_wf (sb_sysChunks sb') ->
  (forall a p, logToPhys sb a = Ok p -> logToPhys sb' a = Ok p) /\
  forall i, 0 <= i < added -> logToPhys sb' (cm_logStart c + cm_size c + i) = Ok (cm_physStart c + cm_size c + i).
Proof.
  intros Hc Hloc Ha sb' Hwf Hwf'. set (c' := set_cm_size c (cm_size c + added)). pose proof (list_elem_of_lookup_2 _ _ _ Hc) as Hin.
  assert (Hin' : c' ∈ sb_sysChunks sb') by (apply (list_elem_of_lookup_2 _ idx), list_lookup_insert_eq; by eapply lookup_lt_Some).
  destruct (proj1 Hwf _ Hin) as (B1&B2&B3&B4&B5&_). destruct (proj1 Hwf' _ Hin') as (_&_&C3&_&C5&_). cbn [c' set_cm_size cm_logStart cm_size cm_physStart] in C3, C5. split.
  - intros a p. unfold logToPhys, lookupChunk. destruct (List.find _ (sb_sysChunks sb)) as [m|] eqn:Ef; [|done]. cbn [mbind outcome_bind].
    apply find_some in Ef as [Hm Hr]. apply list_elem_of_In in Hm. apply (in_chunk_iff sb Hwf m a Hm) in Hr.
    apply list_elem_of_lookup in Hm as [j Hj]. destruct (decide (j = idx)) as [->|Hne].
    + assert (m = c) as -> by congruence. rewrite (find_chunk sb' Hwf' c' a Hin') by (cbn; lia). done.
    + rewrite (find_chunk sb' Hwf' m a); [done| |done]. apply (list_elem_of_lookup_2 _ j). cbn. by rewrite list_lookup_insert_ne.
  - intros i Hi. unfold logToPhys, lookupChunk. rewrite (find_chunk sb' Hwf' c' _ Hin') by (cbn; lia). cbn [mbind outcome_bind].
    unfold local_chunk in Hloc. cbn [c' set_cm_size cm_localStripeIdx cm_physStart cm_logStart]. rewrite (proj2 (Z.ltb_ge _ 0)) by done.
    rewrite (u64_small (_ - cm_logStart c)) by (unfold is_u64; lia). rewrite u64_small by (unfold is_u64; lia). rewrite i64_small by lia. f_equal. lia.
Qed.

(** C24. A volume that has grown.  A [Resize] to a larger size that succeeds makes the local chunk
    that ended at the old size end at the new one, sets the size of the volume, and gives
    the new bytes, and no others, to the free list; the root of the FS tree, the other
    chunks and the other fields of the superblock in memory are as before.  The superblock on
    the device has the new size, also as that of its device, and the sum of the sizes of the
    local chunks ([sized_on_device]), the leaf of the chunk tree being elsewhere.  When the longer
    chunk overlaps no other in the logical address space, which the code does not check,
    every address that could be translated leads where it led, and those behind the
    old end of the chunk lead to the new bytes. *)
Theorem grow_extends_volume `{HS : SafeIO} {D : Type} `{RWL : RWLaws D} `{WD : !WriteDone D} `{BD : BlockDev D} (partOff : Z) (w w' : txState D) (n : Z) :
  let cur := i64 (sb_totalBytes (tx_sb w)) in
  Resize partOff n w = (w', Ok tt) -> 0 < cur < n -> n < 2 ^ 63 -> chunk_map_wf (sb_sysChunks (tx_sb w)) ->
  sm_wf (st_sm (tx_cow w)) -> (forall p, cur <= p < n -> ~ is_free (st_sm (tx_cow w)) p) -> chunk_leaf_apart partOff (tx_sb w) ->
  exists idx c, sb_sysChunks (tx_sb w) !! idx = Some c /\ local_chunk c /\ cm_physStart c + cm_size c = cur /\
    tx_sb w' = grown_sb (tx_sb w) idx c (n - cur) n /\ tx_root w' = tx_root w /\
    sm_wf (st_sm (tx_cow w')) /\ (forall p, is_free (st_sm (tx_cow w')) p <-> is_free (st_sm (tx_cow w)) p \/ cur <= p < n) /\
    sized_on_device partOff w' n (devBytesUsed (tx_sb w')) /\
    (chunk_map_wf (sb_sysChunks (tx_sb w')) ->
     (forall a p, logToPhys (tx_sb w) a = Ok p -> logToPhys (tx_sb w') a = Ok p) /\
     forall i, 0 <= i < n - cur -> logToPhys (tx_sb w') (cm_logStart c + cm_size c + i) = Ok (cur + i)).
Proof.
  intros cur E Hn Hmax Hwf Hsm Hnf Hap. rewrite Resize_eq in E. fold cur in E. rewrite (proj2 (Z.ltb_ge n 0)), (proj2 (Z.eqb_neq n cur)), (proj2 (Z.ltb_lt cur n)) in E by lia.
  unfold Grow in E. rewrite (proj2 (Z.ltb_ge n 0)) in E by lia. rewrite (sm_bind_Ok _ _ _ w (tx_sb w)) in E by done. fold cur in E.
  rewrite (proj2 (Z.eqb_neq n cur)) in E by lia. apply sm_bind_inv in E as (w1&[]&Ec&E). injection Ec as <- _.
  apply sm_bind_inv in E as (w1&idx&Ei&E). injection Ei as <- Ei. rewrite (u64_small cur), (u64_small (n - cur)), (u64_small n) in * by (unfold is_u64; lia).
  pose proof (tailChunk_spec (tx_sb w) cur ltac:(lia)) as Ht. rewrite Ei in Ht. destruct Ht as (c&Hc&Hloc&Htail&_).
  destruct (proj1 Hwf c (list_elem_of_lookup_2 _ _ _ Hc)) as (B1&B2&B3&B4&B5&_). unfold chunk_tail in Htail. rewrite u64_small in Htail by (unfold is_u64; lia).
  set (G := fun sb => same_geometry (D := D) sb (tx_root w) (st_sm (tx_cow w))).
  apply sm_bind_inv in E as (w1&[]&E1&E). assert (G1 : G (tx_sb w) w1) by (eapply stays_run; [apply stays_truncate| |exact E1]; done).
  rewrite Hc in E. rewrite (u64_small (cm_size c + _)), (u64_small (cm_physStart c + _)), Htail in E by (unfold is_u64; lia).
  apply sm_bind_inv in E as (w2&[]&E2&E). assert (G2 : G (tx_sb w) w2) by (eapply stays_run; [apply rewriteChunkSize_stays|exact G1|exact E2]).
  apply sm_bind_inv in E as (w3&[]&E3&E). injection E3 as <-. set (w3 := TxState _ _ _ _) in E.
  assert (G3 : G (set_chunk_size (tx_sb w) idx (cm_size c + (n - cur))) w3) by (destruct G2 as (S1&S2&S3); split_and!; [cbn; by rewrite S1|done|done]).
  apply sm_bind_inv in E as (w4&[]&E4&E). assert (G4 : G (set_chunk_size (tx_sb w) idx (cm_size c + (n - cur))) w4)
    by (eapply stays_run; [apply rewriteSuperblock_stays|exact G3|exact E4]).
  assert (Hdev : sized_on_device partOff w4 n (devBytesUsed (set_chunk_size (tx_sb w) idx (cm_size c + (n - cur))))).
  { rewrite <- (proj1 G3). apply (superblock_on_device _ _ _ _ E4); [unfold is_u64; lia|]. rewrite (proj1 G3). exact Hap. }
  apply sm_bind_inv in E as (w5&[]&E5&E). injection E5 as <-. apply sm_bind_inv in E as (w6&[]&E6&E). injection E6 as <-.
  set (w6 := TxState _ _ _ _) in E. destruct G4 as (S1&S2&S3).
  assert (G6 : same_geometry (set_totalBytes (set_chunk_size (tx_sb w) idx (cm_size c + (n - cur))) n) (tx_root w) (freeRange (st_sm (tx_cow w)) cur (n - cur)) w6)
    by (split_and!; cbn; [by rewrite S1|done|by rewrite S3]).
  pose proof (stays_run _ _ _ _ _ (stays_sync _ _ _) G6 E) as (T1&T2&T3).
  assert (Hg : tx_sb w' = grown_sb (tx_sb w) idx c (n - cur) n).
  { rewrite T1. unfold grown_sb, set_chunk_size. do 2 f_equal. apply list_eq. intros j. destruct (decide (j = idx)) as [->|Hne].
    - rewrite list_lookup_alter_eq, Hc, list_lookup_insert_eq by (by eapply lookup_lt_Some). done.
    - by rewrite list_lookup_alter_ne, list_lookup_insert_ne. }
  destruct (freeRange_wf (st_sm (tx_cow w)) cur (n - cur)) as (Hsm'&Hcov&_); [done|unfold fe_ok; cbn; lia|intros p Hp; apply Hnf; lia|].
  exists idx, c. rewrite T3. split_and!; try done.
  - intros p. unfold is_free. rewrite Hcov. pose proof (cov_nonneg (sm_freeExts (st_sm (tx_cow w))) p).
    destruct (inr_spec cur (n - cur) p) as [[? ->]|[? ->]]; lia.
  - assert (Edev : st_dev (tx_cow w') = st_dev (tx_cow w4)) by (unfold Sync, tx_lift in E; by injection E as <-).
    unfold sized_on_device. rewrite Edev, T1. exact Hdev.
  - rewrite Hg. intros Hwf'. destruct (grown_translates (tx_sb w) idx c (n - cur) n) as [Hold Hnew]; [done|done|lia|done|done|]. split; [done|].
    intros i Hi. rewrite Hnew by done. by rewrite Htail.
Qed.

(** ** A failed evacuation *)
Section Failed.
Context `{HS : SafeIO} {D : Type} `{RW : ReaderWriterAt D} (partOff : Z).

(** The state with the tail taken out of the free list. *)
Definition evicted (w : txState D) (s e : Z) : txState D :=
  TxState (CowState (st_dev (tx_cow w)) (remove (st_sm (tx_cow w)) s (e -₆₄ s))) (tx_sb w) (tx_root w) (tx_tick w).
Definition freed (w : txState D) (s n : Z) : txState D :=
  TxState (CowState (st_dev (tx_cow w)) (freeRange (st_sm (tx_cow w)) s n)) (tx_sb w) (tx_root w) (tx_tick w).

Lemma evacuate_err (w w1 : txState D) s e err :
  relocateTailExtents partOff s e (evicted w s e) = (w1, Err err) -> evacuate partOff s e w = (freed w1 s (e -₆₄ s), Err err).
Proof using.
  intros Hr. unfold evacuate. rewrite (sm_bind_Ok _ _ _ (evicted w s e) tt) by (by destruct w).
  unfold mbind at 1, SM_bind at 1, sm_try. rewrite Hr. reflexivity.
Qed.
End Failed.

(** C25. A failed shrink frees the live tail.  When the relocation of the tail fails, the whole
    range is given back to the allocator, and not the part of it that was free: every byte
    of it is free afterwards, so a block of the tail that is still in use (the device, the
    tree root and the superblock are those the failed relocation left) is handed out by a
    later allocation. *)
Theorem failed_shrink_frees_live_tail `{HS : SafeIO} {D : Type} `{RWL : RWLaws D} (partOff : Z) (w w1 : txState D) (s e : Z) err :
  0 <= s < e -> e < 2 ^ 64 -> relocateTailExtents partOff s e (evicted w s e) = (w1, Err err) ->
  sm_wf (st_sm (tx_cow w1)) -> (forall p, s <= p < e -> ~ is_free (st_sm (tx_cow w1)) p) ->
  exists w2, evacuate partOff s e w = (w2, Err err) /\
    st_dev (tx_cow w2) = st_dev (tx_cow w1) /\ tx_root w2 = tx_root w1 /\ tx_sb w2 = tx_sb w1 /\
    (forall p, s <= p < e -> is_free (st_sm (tx_cow w2)) p) /\
    forall dv live a, a ∈ live -> s <= a < e -> 0 < sb_nodeSize (tx_sb w2) -> ~ Inv partOff (tx_sb w2) dv (tx_cow w2) live.
Proof.
  intros Hs He Hr Hw Hf. pose proof (evacuate_err _ _ _ _ _ _ Hr) as E. rewrite u64_small in E by (unfold is_u64; lia).
  assert (Hfree : forall p, s <= p < e -> is_free (st_sm (tx_cow (freed w1 s (e - s)))) p).
  { destruct (freeRange_wf (st_sm (tx_cow w1)) s (e - s)) as (_&Hc&_); [done|unfold fe_ok; cbn; lia|intros p Hp; apply Hf; lia|].
    intros p Hp. unfold is_free, freed. cbn [tx_cow st_sm]. rewrite Hc. pose proof (cov_nonneg (sm_freeExts (st_sm (tx_cow w1))) p).
    destruct (inr_spec s (e - s) p) as [[_ ->]|[? _]]; lia. }
  exists (freed w1 s (e - s)). split_and!; try done.
  intros dv live a Ha Hin Hns (_&_&_&_&_&_&Hn&_). apply (Hn a Ha). exists a. split; [lia|]. by apply Hfree.
Qed.

(** The FS tree of the example lies in the tail and there is nowhere to move it: after the
    failed call its root is the next block the allocator gives. *)
#[local] Existing Instance listSafeIO.
Definition fx_failed : txState bytes := (relocateTailExtents 0 0x11400 0x18000 (evicted fx 0x11400 0x18000)).1.
Lemma failed_shrink_frees_live_tail_witness :
  exists w2 err, evacuate 0 0x11400 0x18000 fx = (w2, Err err) /\ tx_root w2 = 0x11400 /\
    (forall p, 0x11400 <= p < 0x18000 -> is_free (st_sm (tx_cow w2)) p) /\ (allocNodeBlock (st_sm (tx_cow w2))).2 = Ok 0x11400.
Proof.
  assert (Ho : (relocateTailExtents 0 0x11400 0x18000 (evicted fx 0x11400 0x18000)).2 = Err ErrOther) by (vm_compute; reflexivity).
  assert (Er : relocateTailExtents 0 0x11400 0x18000 (evicted fx 0x11400 0x18000) = (fx_failed, Err ErrOther))
    by (rewrite <- Ho; unfold fx_failed; apply surjective_pairing).
  assert (Esm : st_sm (tx_cow fx_failed) = SpaceManager [] 1024) by (vm_compute; reflexivity).
  destruct (failed_shrink_frees_live_tail (D := bytes) 0 fx fx_failed 0x11400 0x18000 ErrOther ltac:(lia) ltac:(lia) Er) as (w2&E&_&Hroot&_&Hfree&_).
  - rewrite Esm. split_and!; [constructor|intros p; cbn; lia|cbn; lia].
  - intros p _ Hf. rewrite Esm in Hf. unfold is_free, cov in Hf. cbn in Hf. lia.
  - exists w2, ErrOther. split; [exact E|]. rewrite (evacuate_err _ _ _ _ _ _ Er) in E. injection E as <-. split_and!.
    + rewrite Hroot. vm_compute. reflexivity.
    + exact Hfree.
    + vm_compute. reflexivity.
Defined.
