(* ===== verification/TailCheck.v ===== *)
(** * When a tail is cut (resize.go, resize_reloc.go)

    [collectRelocTargets] and [liveMetaInRange] decide whether a range of the device is in
    use: by a data extent of the FS tree, or by a block of the chunk, root or FS tree or of a
    tree the root tree names.  [Shrink] cuts a tail, or drops a chunk, only after they
    found nothing in it, or after the free list said that it is free. *)
From Stdlib Require Import ZArith Lia Strings.Byte.
From stdpp Require Import base option list numbers sorting gmap.
From S2P Require Import Prelude Bytes Alloc Layout SafeIO Chunk MultiDev Node BTree Walk Split Crc32c Cow Store CowCorrect CowExamples.
From S2P Require Import Codec Read FileRead Mount Tx Extent Ops FsTree FsLookup InodeEdit Rebuild FsData ExtentLayout ExtentWrite.
From S2P Require Import CommitCorrect InodeOps Entries Paths Create CreateApi OpsExamples Resize Reloc Shrink ResizeCorrect.
Local Open Scope Z_scope.
Local Open Scope btrfs_scope.

(** Two ranges that share a byte. *)
Definition shares (a n s e : Z) : Prop := exists p, a <= p < a + n /\ s <= p < e.
Lemma overlaps_spec a n s e : 0 <= a -> 0 < n -> a + n < 2 ^ 64 -> s < e -> overlaps a n s e = true <-> shares a n s e.
Proof.
  intros Ha Hn Hl Hs. unfold overlaps, shares. rewrite u64_small by (unfold is_u64; lia). rewrite andb_true_iff, !Z.ltb_lt. split.
  - intros [H1 H2]. exists (Z.max a s). lia.
  - intros (p&Hp&Hq). lia.
Qed.

(** ** Data extents *)

(** What a record of the FS tree asks for. *)
Definition target_of (sb : superblock) (s e : Z) (r : rec) : option relocTarget :=
  match Mount.extent_range r with
  | Some (disk, n) =>
      if (n =? 0) || negb (overlaps (physFromLog sb disk) n s e) then None
      else Some (RelocTarget (objID r.1) (offset r.1) disk n (rd 8 r.2 extDataOffOffset) (rd 8 r.2 extDataOffNumBytes)
        (rd 8 r.2 extDataOffRamBytes) (rd 8 r.2 0x00) (rd 1 r.2 extDataOffCompression))
  | None => None
  end.

Lemma reloc_target_eq sb s e r : reloc_target sb s e r.1 r.2 = Ok (target_of sb s e r).
Proof.
  destruct r as [k d]. unfold reloc_target, target_of, Mount.extent_range. cbn [fst snd].
  destruct (typ k =? typeExtentData); [|done]. cbn [negb andb]. rewrite (Z.leb_antisym (blen d)).
  case_if; [done|]. cbn [negb andb]. bool_prop.
  unfold extDataRegularSize, extDataHdrSize in *.
  repeat match goal with |- context [get_le ?n d ?o] =>
    rewrite (get_le_Ok n d o) by (unfold extDataOffType, extDataOffDiskBytenr, extDataOffDiskNumBytes, extDataOffOffset, extDataOffNumBytes,
      extDataOffRamBytes, extDataOffCompression; lia) end.
  cbn [mbind outcome_bind]. destruct (rd 1 d extDataOffType =? extentDataRegular); [|done]. cbn [negb andb].
  destruct (rd 8 d extDataOffDiskBytenr =? 0); [done|]. cbn [negb orb]. destruct (rd 8 d extDataOffDiskNumBytes =? 0); [done|]. cbn [orb].
  by destruct (overlaps _ _ _ _).
Qed.

Lemma leaf_targets_eq sb s e buf items out :
  leaf_targets sb s e buf items out = Ok (out ++ omap (target_of sb s e) (map (fun it => (it_k it, item_data it buf)) items)).
Proof.
  revert out. induction items as [|it items IH]; intros out; cbn [leaf_targets map omap list_omap]; [by rewrite app_nil_r|].
  pose proof (reloc_target_eq sb s e (it_k it, item_data it buf)) as E. cbn [fst snd] in E. rewrite E. cbn [mbind outcome_bind].
  rewrite IH. destruct (target_of _ _ _ _); [by rewrite <- app_assoc|done].
Qed.

Section Walks.
Context `{HL : SafeIOLaws} {D : Type} `{RWL : RWLaws D} (partOff : Z) (sb : superblock) (s : cowState D) (ds de : Z).
Context (Hns : nodeHdrSize <= sb_nodeSize sb).
Abbreviation rn0 := (rn partOff sb s).

Lemma foldl_append {A B} (f : A -> option B) l out :
  foldl (fun o x => match f x with Some y => o ++ [y] | None => o end) out l = out ++ omap f l.
Proof using.
  revert out. induction l as [|x l IH]; intros out; cbn [foldl omap list_omap]; [by rewrite app_nil_r|].
  rewrite IH. destruct (f x); [by rewrite <- app_assoc|done].
Qed.

(** A walk with a local variable leaves the state alone. *)
Lemma foldl_snd {X A B} (g : A -> B -> A) (l : list B) (x : X) (a : A) :
  foldl (fun sa b => (sa.1, g sa.2 b)) (x, a) l = (x, foldl g a l).
Proof using. revert a. induction l as [|b l IH]; intros a; cbn [foldl fst snd]; done || apply IH. Qed.

Lemma node_read_eq a : node_read partOff sb a s = (s, rn0 a).
Proof using. reflexivity. Qed.

Lemma var_reads {A} x (sa : cowState D * A) buf :
  sa.1 = s -> rn0 x = Ok buf -> with_var (node_read partOff sb x) sa = (sa, Ok buf).
Proof using. destruct sa as [s0 a]. cbn [fst]. intros -> E. unfold with_var. cbn [fst snd]. rewrite node_read_eq, E. done. Qed.

Lemma collect_tree root c ads :
  tree_at rn0 root c ads ->
  run_var (walkLeaves (fun x => with_var (node_read partOff sb x)) root
    (fun buf items => var_step (fun out => sm_lift (leaf_targets sb ds de buf items out)))) [] s = (s, Ok (omap (target_of sb ds de) c)).
Proof using HL.
  intros (h&Ht&Hn&Hl&Hh). unfold run_var.
  set (g := fun (o : list relocTarget) (r : rec) => match target_of sb ds de r with Some y => o ++ [y] | None => o end).
  erewrite (walkLeaves_tree rn0 (fun sa => sa.1 = s) (fun x => with_var (node_read partOff sb x))
    (fun x sa buf Hs E => var_reads x sa buf Hs E) _ (fun sa r => (sa.1, g sa.2 r)) (fun _ => True)); try done.
  - rewrite foldl_snd. unfold g. by rewrite foldl_append.
  - intros buf items [s0 out] Hs _. cbn [fst] in Hs. subst s0. unfold var_step, sm_lift. cbn [fst snd]. rewrite leaf_targets_eq, foldl_snd.
    unfold g. by rewrite foldl_append.
  - by apply Forall_true.
Qed.

(** ** Blocks *)
Lemma check_fold ads hit :
  foldl (fun h a => check_block sb ds de a h) hit ads = None <-> hit = None /\ Forall (fun a => node_overlaps sb a ds de = false) ads.
Proof using.
  revert hit. induction ads as [|a ads IH]; intros hit; cbn [foldl]; [by split; [|intros []]|].
  rewrite IH, Forall_cons. unfold check_block. destruct hit as [z|]; [by split; intros []|].
  destruct (node_overlaps sb a ds de); split; try (by intros []); by intros (_&?&?).
Qed.

Lemma check_tree_tree root c ads hit :
  tree_at rn0 root c ads -> check_tree partOff sb ds de root hit s = (s, Ok (foldl (fun h a => check_block sb ds de a h) hit ads)).
Proof using HL.
  intros (h&Ht&Hn&Hl&Hh). unfold check_tree, run_var.
  erewrite (walkNodeAddrs_tree rn0 (fun sa => sa.1 = s) (fun x => with_var (node_read partOff sb x))
    (fun x sa buf Hs E => var_reads x sa buf Hs E) _ (fun sa a => (sa.1, check_block sb ds de a sa.2))); try done.
  - by rewrite (foldl_snd (fun h a => check_block sb ds de a h)).
Qed.

(** Whatever the tree, a hit stays a hit. *)
Lemma node_var_source {A} (G : A -> Prop) :
  node_source (fun sa => sa.1 = s /\ G sa.2) (fun x => with_var (A := A) (node_read partOff sb x)).
Proof using HL RWL Hns.
  intros a [s0 v] [Hs Hv]. cbn [fst snd] in *. subst s0. unfold with_var. cbn [fst snd]. rewrite node_read_eq. split; [done|].
  unfold rn, readNodeUncached. cbn [snd].
  destruct (physAddr_cases sb partOff a) as [->| ->]; cbn [mbind outcome_bind]; [|done].
  destruct (MakeBytes_cases (sb_nodeSize sb) maxNodeSize) as [[-> ?]| ->]; cbn [mbind outcome_bind]; [|done].
  rewrite blen_zeros by lia.
  match goal with |- safe_with (ReadAt ?d ?o ?n) _ => pose proof (ReadAt_safe d o n) as Hs'; destruct (ReadAt d o n) as [b| | |] eqn:E end; try done.
  apply ReadAt_blen in E; [cbn; lia|lia].
Qed.
Lemma check_tree_run root hit :
  exists hit', check_tree partOff sb ds de root hit s = (s, Ok hit') /\ (hit' = None -> hit = None).
Proof using HL RWL Hns.
  set (G := fun v : option Z => hit <> None -> v = hit).
  assert (Hw : sm_safe (fun sa => sa.1 = s /\ G sa.2) (walkNodeAddrs (fun x => with_var (node_read partOff sb x)) root
    (fun a => var_step (fun hit => mret (check_block sb ds de a hit)))) (fun _ => True)).
  { apply walkNodeAddrs_safe; [apply node_var_source|]. intros x [s0 v] [Hs Hv]. cbn [fst snd] in *. subst s0. unfold var_step. cbn [fst snd mret SM_ret].
    split; [|done]. split; [done|]. unfold G, check_block in *. intros Hh. rewrite (Hv Hh). by destruct hit. }
  destruct (Hw (s, hit)) as [[H1 H2] H3]; [done|]. unfold check_tree, run_var. destruct (walkNodeAddrs _ _ _ _) as [[s1 v] [u|e| |]]; cbn [fst snd] in *; try done; subst s1;
    (exists v; split; [done|]; intros ->; destruct (decide (hit = None)) as [|Hne]; [done|by specialize (H2 Hne)]).
Qed.

(** The trees of the root tree that are checked. *)
Definition checked_root (skip : bool) (r : rec) : option Z :=
  if (objID r.1 =? fsTreeObjID) || (skip && (objID r.1 =? extentTreeObjID)) then None else root_bytenr r.
Definition root_step (skip : bool) (hit : option Z) (r : rec) : option Z :=
  match checked_root skip r with
  | Some b => match (check_tree partOff sb ds de b hit s).2 with Ok h => h | _ => hit end
  | None => hit
  end.

Lemma check_roots_eq skip buf items hit :
  check_roots partOff sb ds de skip buf items hit s =
  (s, Ok (foldl (root_step skip) hit (map (fun it => (it_k it, item_data it buf)) items))).
Proof using HL RWL Hns.
  revert hit. induction items as [|it items IH]; intros hit; [done|]. cbn [check_roots map foldl].
  unfold root_step at 2, checked_root, root_bytenr. cbn [fst snd].
  destruct (typ (it_k it) =? typeRootItem); cbn [negb orb andb]; [|rewrite IH; by destruct (_ || _)].
  destruct (objID (it_k it) =? fsTreeObjID); cbn [orb]; [apply IH|].
  destruct (skip && _); cbn [orb]; [apply IH|].
  rewrite (Z.leb_antisym (blen _)). destruct (blen (item_data it buf) <? rootItemOffBytenr + 8) eqn:El; cbn [negb andb]; [apply IH|]. bool_prop.
  rewrite get_le_Ok by (unfold rootItemOffBytenr in *; lia). rewrite (sm_lift_Ok _ _ _ _ eq_refl).
  destruct (rd 8 (item_data it buf) rootItemOffBytenr =? 0); cbn [negb].
  - rewrite (sm_bind_Ok _ _ _ s hit) by done. apply IH.
  - destruct (check_tree_run (rd 8 (item_data it buf) rootItemOffBytenr) hit) as (h'&E&_). rewrite (sm_bind_Ok _ _ _ _ _ E), E. apply IH.
Qed.

Lemma root_step_None skip hit r : root_step skip hit r = None ->
  hit = None /\ forall b, checked_root skip r = Some b -> (check_tree partOff sb ds de b None s).2 = Ok None.
Proof using HL RWL Hns.
  unfold root_step. destruct (checked_root skip r) as [b|]; [|by intros ->].
  destruct (check_tree_run b hit) as (h'&E&Hm). rewrite E. cbn [snd]. intros ->. rewrite (Hm eq_refl) in E. split; [by apply Hm|].
  intros b' [= <-]. by rewrite E.
Qed.
Lemma roots_None skip c hit : foldl (root_step skip) hit c = None ->
  hit = None /\ forall r b, r ∈ c -> checked_root skip r = Some b -> (check_tree partOff sb ds de b None s).2 = Ok None.
Proof using HL RWL Hns.
  revert hit. induction c as [|r c IH]; intros hit; cbn [foldl]; [split; [done|by intros r b ?%not_elem_of_nil]|].
  intros Hf. destruct (IH _ Hf) as [Hs Hr]. apply root_step_None in Hs as [-> Hb]. split; [done|].
  intros r' b [->|Hin]%elem_of_cons; [by apply Hb|by apply Hr].
Qed.

(** No block of the trees shares a byte with the range. *)
Definition clear_nodes (ads : list Z) : Prop := Forall (fun a => node_overlaps sb a ds de = false) ads.

Lemma roots_walk skip c ads hit :
  tree_at rn0 (sb_rootLogAddr sb) c ads ->
  run_var (walkLeaves (fun x => with_var (node_read partOff sb x)) (sb_rootLogAddr sb)
    (fun buf items => var_step (check_roots partOff sb ds de skip buf items))) hit s = (s, Ok (foldl (root_step skip) hit c)).
Proof using HL RWL Hns.
  intros (h&Ht&Hn&Hl&Hh). unfold run_var.
  erewrite (walkLeaves_tree rn0 (fun sa => sa.1 = s) (fun x => with_var (node_read partOff sb x))
    (fun x sa buf Hs E => var_reads x sa buf Hs E) _ (fun sa r => (sa.1, root_step skip sa.2 r)) (fun _ => True)); try done.
  - by rewrite foldl_snd.
  - intros buf items [s0 out] Hs _. cbn [fst] in Hs. subst s0. unfold var_step. cbn [fst snd]. by rewrite check_roots_eq, foldl_snd.
  - by apply Forall_true.
Qed.
End Walks.

Section Live.
Context `{HL : SafeIOLaws} {D : Type} `{RWL : RWLaws D} `{BD : BlockDev D} (partOff : Z).
Abbreviation wrn w := (rn partOff (tx_sb w) (tx_cow w)).

Lemma tx_lift_same {A} (f : superblock -> SM (cowState D) A) (w : txState D) o :
  f (tx_sb w) (tx_cow w) = (tx_cow w, o) -> tx_lift f w = (w, o).
Proof using. intros E. unfold tx_lift. rewrite E. by destruct w. Qed.

Lemma collectRelocTargets_spec (w : txState D) ds de c ads :
  tree_at (wrn w) (tx_root w) c ads ->
  collectRelocTargets partOff ds de w = (w, Ok (omap (target_of (tx_sb w) ds de) c)).
Proof using HL.
  intros Ht. unfold collectRelocTargets. rewrite (sm_bind_Ok _ _ _ w (tx_root w)) by done. apply tx_lift_same. by eapply collect_tree.
Qed.

(** On any image the two checks answer and change nothing. *)
Lemma leaves_run {A} (sb : superblock) (s : cowState D) root (f : bytes -> list leafItem -> A -> SM (cowState D) A) a :
  nodeHdrSize <= sb_nodeSize sb -> (forall buf items a, exists a', f buf items a s = (s, Ok a')) ->
  exists a', run_var (walkLeaves (fun x => with_var (node_read partOff sb x)) root (fun buf items => var_step (f buf items))) a s = (s, Ok a').
Proof using HL RWL.
  intros Hns Hf. assert (Hw : sm_safe (fun sa => sa.1 = s /\ True) (walkLeaves (fun x => with_var (node_read partOff sb x)) root
    (fun buf items => var_step (f buf items))) (fun _ => True)).
  { apply walkLeaves_safe; [by apply (node_var_source partOff sb s Hns (fun _ : A => True))|]. intros buf items _ [s0 v] [Hs _]. cbn [fst snd] in *. subst s0.
    unfold var_step. cbn [fst snd]. destruct (Hf buf items v) as [v' ->]. done. }
  destruct (Hw (s, a)) as [[H1 _] H3]; [done|]. unfold run_var. destruct (walkLeaves _ _ _ _) as [[s1 v] [u|e| |]]; cbn [fst snd] in *; try done; subst s1; eauto.
Qed.
Lemma collect_run (w : txState D) ds de :
  nodeHdrSize <= sb_nodeSize (tx_sb w) -> exists l, collectRelocTargets partOff ds de w = (w, Ok l).
Proof using HL RWL.
  intros Hns. unfold collectRelocTargets.
  destruct (leaves_run (tx_sb w) (tx_cow w) (tx_root w) (fun buf items out => sm_lift (leaf_targets (tx_sb w) ds de buf items out)) [] Hns) as [l E].
  - intros buf items a. unfold sm_lift. rewrite leaf_targets_eq. eauto.
  - exists l. rewrite (sm_bind_Ok _ _ _ w (tx_root w)) by done. by apply tx_lift_same.
Qed.
Lemma liveMeta_run (w : txState D) ds de skip :
  nodeHdrSize <= sb_nodeSize (tx_sb w) -> exists hit, liveMetaInRangeOpt partOff ds de skip w = (w, Ok hit).
Proof using HL RWL.
  intros Hns. unfold liveMetaInRangeOpt. rewrite (sm_bind_Ok _ _ _ w (tx_root w)) by done.
  destruct (check_tree_run partOff (tx_sb w) (tx_cow w) ds de Hns (sb_chunkLogAddr (tx_sb w)) None) as (h1&E1&_).
  destruct (check_tree_run partOff (tx_sb w) (tx_cow w) ds de Hns (sb_rootLogAddr (tx_sb w)) h1) as (h2&E2&_).
  destruct (check_tree_run partOff (tx_sb w) (tx_cow w) ds de Hns (tx_root w) h2) as (h3&E3&_).
  destruct (leaves_run (tx_sb w) (tx_cow w) (sb_rootLogAddr (tx_sb w)) (check_roots partOff (tx_sb w) ds de skip) h3 Hns) as [h4 E4].
  - intros buf items a. rewrite check_roots_eq by done. eauto.
  - exists h4. apply tx_lift_same. by rewrite (sm_bind_Ok _ _ _ _ _ E1), (sm_bind_Ok _ _ _ _ _ E2), (sm_bind_Ok _ _ _ _ _ E3).
Qed.

(** The trees a check of the metadata looks at. *)
Record live_trees (w : txState D) (cc : list rec) (adsc : list Z) (cr : list rec) (adsr : list Z) (cf : list rec) (adsf : list Z) : Prop := LiveTrees {
  lt_node : nodeHdrSize <= sb_nodeSize (tx_sb w);
  lt_chunk : tree_at (wrn w) (sb_chunkLogAddr (tx_sb w)) cc adsc;
  lt_root : tree_at (wrn w) (sb_rootLogAddr (tx_sb w)) cr adsr;
  lt_fs : tree_at (wrn w) (tx_root w) cf adsf }.

Lemma liveMeta_spec (w : txState D) ds de skip cc adsc cr adsr cf adsf :
  live_trees w cc adsc cr adsr cf adsf ->
  exists hit, liveMetaInRangeOpt partOff ds de skip w = (w, Ok hit) /\
    (hit = None -> clear_nodes (tx_sb w) ds de (adsc ++ adsr ++ adsf) /\
     forall r b c' ads', r ∈ cr -> checked_root skip r = Some b -> tree_at (wrn w) b c' ads' -> clear_nodes (tx_sb w) ds de ads').
Proof using HL RWL.
  intros [Hns Hc Hr Hf]. unfold liveMetaInRangeOpt. rewrite (sm_bind_Ok _ _ _ w (tx_root w)) by done.
  eexists. split.
  - apply tx_lift_same. rewrite (sm_bind_Ok _ _ _ _ _ (check_tree_tree _ _ _ ds de _ _ _ None Hc)).
    rewrite (sm_bind_Ok _ _ _ _ _ (check_tree_tree _ _ _ ds de _ _ _ _ Hr)), (sm_bind_Ok _ _ _ _ _ (check_tree_tree _ _ _ ds de _ _ _ _ Hf)).
    by apply (roots_walk _ _ _ ds de Hns skip cr adsr).
  - intros E. apply roots_None in E as [E Hroots]; [|done]. apply check_fold in E as [E F3]. apply check_fold in E as [E F2].
    apply check_fold in E as [_ F1]. split; [unfold clear_nodes; by rewrite !Forall_app|].
    intros r b c' ads' Hin Hb Ht. specialize (Hroots r b Hin Hb). rewrite (check_tree_tree _ _ _ ds de _ _ _ None Ht) in Hroots.
    injection Hroots as Hroots. by apply check_fold in Hroots as [_ ?].
Qed.

(** The last thing a relocation that succeeded did was to look for blocks. *)
Lemma relocate_checked (w w' : txState D) ds de u :
  relocateTailExtents partOff ds de w = (w', Ok u) -> nodeHdrSize <= sb_nodeSize (tx_sb w') ->
  liveMetaInRangeOpt partOff ds de true w' = (w', Ok None).
Proof using HL RWL.
  intros E Hns. unfold relocateTailExtents in E. apply sm_bind_inv in E as (w1&ts&_&E). apply sm_bind_inv in E as (w2&[]&_&E).
  apply sm_bind_inv in E as (w3&[]&_&E). apply sm_bind_inv in E as (w4&hit&Eh&E). destruct hit as [a|]; [done|]. injection E as -> _.
  assert (Hsb : tx_sb w' = tx_sb w3).
  { unfold liveMetaInRangeOpt in Eh. rewrite (sm_bind_Ok _ _ _ w3 (tx_root w3)) in Eh by done. unfold tx_lift in Eh.
    match type of Eh with context [?m (tx_cow w3)] => destruct (m (tx_cow w3)) end. by injection Eh as <- _. }
  rewrite Hsb in Hns. destruct (liveMeta_run w3 ds de true Hns) as [h E3]. rewrite E3 in Eh. by injection Eh as <- ->.
Qed.
Lemma evacuate_inv (w w' : txState D) ds de u :
  evacuate partOff ds de w = (w', Ok u) -> exists w0, relocateTailExtents partOff ds de w0 = (w', Ok tt).
Proof using.
  intros E. unfold evacuate in E. apply sm_bind_inv in E as (w0&[]&_&E). exists w0. unfold mbind, SM_bind, sm_try in E.
  destruct (relocateTailExtents partOff ds de w0) as [w1 [[]|e| |]]; try done. by injection E as ->.
Qed.
End Live.

Lemma overlaps_false a n s e : overlaps a n s e = false -> 0 <= a -> a + n < 2 ^ 64 -> s < e -> ~ shares a n s e.
Proof.
  intros Ho Ha Hl Hs (p&Hp&Hq). assert (overlaps a n s e = true); [|congruence]. apply overlaps_spec; try lia. by exists p.
Qed.

(** ** What a cut tail holds *)

(** On the trees of [w]: no data extent of the FS tree, no block of the chunk, root or FS tree
    and no block of a tree a ROOT_ITEM names ([skip]: the extent tree apart) has a byte in
    the range.  Addresses whose range would wrap are left out. *)
Definition tail_clear `{SafeIO} {D : Type} `{ReaderWriterAt D} (partOff : Z) (skip : bool) (w : txState D) (ds de : Z) : Prop :=
  forall cc adsc cr adsr cf adsf, live_trees partOff w cc adsc cr adsr cf adsf ->
  let sb := tx_sb w in
  (forall r disk n, r ∈ cf -> Mount.extent_range r = Some (disk, n) -> 0 <= physFromLog sb disk -> physFromLog sb disk + n < 2 ^ 64 ->
     ~ shares (physFromLog sb disk) n ds de) /\
  (forall a, a ∈ adsc ++ adsr ++ adsf -> 0 <= physFromLog sb a -> physFromLog sb a + sb_nodeSize sb < 2 ^ 64 ->
     ~ shares (physFromLog sb a) (sb_nodeSize sb) ds de) /\
  (forall r b c' ads' a, r ∈ cr -> checked_root skip r = Some b -> tree_at (rn partOff sb (tx_cow w)) b c' ads' -> a ∈ ads' ->
     0 <= physFromLog sb a -> physFromLog sb a + sb_nodeSize sb < 2 ^ 64 -> ~ shares (physFromLog sb a) (sb_nodeSize sb) ds de).

Section Cut.
Context `{HL : SafeIOLaws} {D : Type} `{RWL : RWLaws D} `{BD : BlockDev D} (partOff : Z).
Abbreviation W := (txState D).

(** The two checks found nothing. *)
Lemma checks_clear (w : W) ds de skip : ds < de ->
  (nodeHdrSize <= sb_nodeSize (tx_sb w) -> collectRelocTargets partOff ds de w = (w, Ok [])) ->
  (nodeHdrSize <= sb_nodeSize (tx_sb w) -> liveMetaInRangeOpt partOff ds de skip w = (w, Ok None)) -> tail_clear partOff skip w ds de.
Proof using HL RWL.
  intros Hd Ec Em cc adsc cr adsr cf adsf Hl. cbv zeta. pose proof (lt_node _ _ _ _ _ _ _ _ Hl) as Hns. specialize (Ec Hns). specialize (Em Hns).
  destruct (liveMeta_spec partOff w ds de skip _ _ _ _ _ _ Hl) as (hit&Eh&Hh). rewrite Em in Eh. injection Eh as <-. destruct (Hh eq_refl) as [Hn Hr].
  rewrite (collectRelocTargets_spec partOff w ds de _ _ (lt_fs _ _ _ _ _ _ _ _ Hl)) in Ec. injection Ec as Ec. split_and!.
  - intros r disk n Hin Hx H0 Hb. destruct (decide (n = 0)) as [->|Hn0]; [intros (p&Hp&_); lia|].
    apply overlaps_false; try done. destruct (overlaps (physFromLog (tx_sb w) disk) n ds de) eqn:Eo; [|done].
    assert (Ht : exists t, target_of (tx_sb w) ds de r = Some t).
    { unfold target_of. rewrite Hx, Eo, (proj2 (Z.eqb_neq n 0) Hn0). cbn [orb negb]. eauto. }
    destruct Ht as [t Ht]. assert (Hin' : t ∈ omap (target_of (tx_sb w) ds de) cf) by (apply list_elem_of_omap; by exists r).
    rewrite Ec in Hin'. by apply not_elem_of_nil in Hin'.
  - intros a Ha H0 Hb. unfold clear_nodes in Hn. rewrite Forall_forall in Hn. apply overlaps_false; try done. by apply Hn.
  - intros r b c' ads' a Hin Hb Ht Ha H0 Hbd. specialize (Hr r b c' ads' Hin Hb Ht). unfold clear_nodes in Hr. rewrite Forall_forall in Hr.
    apply overlaps_false; try done. by apply Hr.
Qed.

Lemma collect_same (w w' : W) ds de l : collectRelocTargets partOff ds de w = (w', Ok l) -> nodeHdrSize <= sb_nodeSize (tx_sb w') -> w' = w.
Proof using HL RWL.
  intros Ec Hns. assert (Hsb : tx_sb w' = tx_sb w).
  { unfold collectRelocTargets in Ec. rewrite (sm_bind_Ok _ _ _ w (tx_root w)) in Ec by done. unfold tx_lift in Ec.
    match type of Ec with context [?m (tx_cow w)] => destruct (m (tx_cow w)) end. by injection Ec as <- _. }
  rewrite Hsb in Hns. destruct (collect_run partOff w ds de Hns) as [l' El]. rewrite El in Ec. by injection Ec as <- _.
Qed.
(** The steps that move what is in the tail, and the check behind them. *)
Lemma evacuated_clear (w w1 w2 : W) ds de u : ds < de ->
  evacuate partOff ds de w = (w1, Ok u) -> collectRelocTargets partOff ds de w1 = (w2, Ok []) -> tail_clear partOff true w2 ds de.
Proof using HL RWL.
  intros Hd Ee Ec. destruct (evacuate_inv _ _ _ _ _ _ Ee) as [w0 Er]. apply checks_clear; [done| |]; intros Hns;
    pose proof (collect_same _ _ _ _ _ Ec Hns) as ->; [done|]. by eapply relocate_checked.
Qed.

Lemma empty_tail_clear (w w' : W) ds de relocated :
  0 <= ds < de -> de < 2 ^ 63 -> sm_wf (st_sm (tx_cow w)) -> empty_tail partOff ds de w = (w', Ok relocated) ->
  if relocated then tail_clear partOff true w' ds de else w' = w /\ forall p, ds <= p < de -> is_free (st_sm (tx_cow w)) p.
Proof using HL RWL.
  intros Hd He Hwf E. unfold empty_tail in E. rewrite (sm_bind_Ok _ _ _ w (tx_cow w)) in E by done.
  rewrite (u64_small (de - ds)) in E by (unfold is_u64; lia). destruct (rangeFree _ _ _) eqn:Erf.
  { injection E as <- <-. split; [done|]. intros p Hp. destruct Hwf as (Hok&_). unfold rangeFree in Erf. case_if_in Erf; bool_prop; [lia|].
    rewrite u64_small in Erf by (unfold is_u64; lia). pose proof (rangeFree_loop_sound _ _ _ Hok Erf p ltac:(lia)). unfold is_free. lia. }
  apply sm_bind_inv in E as (w1&[]&Ee&E). apply sm_bind_inv in E as (w2&left&Ec&E).
  destruct (bool_decide (left = [])) eqn:Eb; [|done]. cbn [negb] in E. injection E as -> <-. apply bool_decide_eq_true in Eb as ->.
  eapply evacuated_clear; [lia|done|done].
Qed.

Lemma chunk_at_inv (w w' : W) idx c : chunk_at idx w = (w', Ok c) -> w' = w /\ sb_sysChunks (tx_sb w) !! idx = Some c.
Proof using.
  unfold chunk_at. rewrite (sm_bind_Ok _ _ _ w (tx_sb w)) by done. destruct (_ !! idx); [|done]. by intros [= -> ->].
Qed.

(** The two ways to drop a whole chunk: it was empty, or it was evacuated and the commit that
    followed left its block group unused. *)
Definition chunk_dropped (w w' : W) (idx : nat) (c : chunkMapping) : Prop :=
  (exists we, chunkIsEvacuableLocked partOff idx w = (we, Ok true) /\ tail_clear partOff false w (cm_physStart c) (chunk_tail c) /\
     removeTrailingChunkLocked partOff idx (cm_physStart c) we = (w', Ok tt)) \/
  (exists wc wr wg, tail_clear partOff true wc (cm_physStart c) (chunk_tail c) /\ updateFsTreeRoot partOff (tx_root wc) wc = (wr, Ok tt) /\
     group_in_use partOff (cm_logStart c) (cm_size c) wr = (wg, Ok false) /\ removeTrailingChunkLocked partOff idx (cm_physStart c) wg = (w', Ok tt)).

(** Reading a block group leaves the superblock alone. *)
Lemma stays_sb_lift {A} sb0 (f : superblock -> SM (cowState D) A) : stays (fun w => tx_sb w = sb0) (tx_lift f).
Proof using. intros w Hw. unfold tx_lift. by destruct (f _ _). Qed.
Lemma group_in_use_sb sb0 a n : stays (fun w => tx_sb w = sb0) (group_in_use partOff a n).
Proof using.
  apply stays_bind; [|intros; apply stays_ret]. unfold blockGroupUsedLocked, or_none. stays_tac; apply stays_try; stays_tac; apply stays_sb_lift.
Qed.

Lemma evacuable_clear (w we : W) idx c : nodeHdrSize <= sb_nodeSize (tx_sb w) -> sb_sysChunks (tx_sb w) !! idx = Some c ->
  cm_physStart c < chunk_tail c -> chunkIsEvacuableLocked partOff idx w = (we, Ok true) -> tail_clear partOff false w (cm_physStart c) (chunk_tail c).
Proof using HL RWL.
  intros Hns Hc Hd E. unfold chunkIsEvacuableLocked in E. apply sm_bind_inv in E as (w0&c'&E0&E). apply chunk_at_inv in E0 as [-> Hc'].
  assert (c' = c) as -> by congruence. cbv zeta in E. fold (chunk_tail c) in E. apply sm_bind_inv in E as (w1&ts&Ec&E).
  destruct (collect_run partOff w (cm_physStart c) (chunk_tail c) Hns) as [l El]. rewrite El in Ec. injection Ec as <- ->.
  destruct (bool_decide (ts = [])) eqn:Eb; [|done]. cbn [negb] in E. apply bool_decide_eq_true in Eb as ->.
  apply sm_bind_inv in E as (w1&hit&Eh&E). destruct hit as [a|]; [done|]. apply checks_clear; [done|done|]. intros _.
  destruct (liveMeta_run partOff w (cm_physStart c) (chunk_tail c) false Hns) as [h E3]. unfold liveMetaInRange in Eh. rewrite E3 in Eh.
  injection Eh as _ ->. exact E3.
Qed.

Lemma evacuable_sb (w we : W) idx b : nodeHdrSize <= sb_nodeSize (tx_sb w) -> chunkIsEvacuableLocked partOff idx w = (we, Ok b) -> tx_sb we = tx_sb w.
Proof using HL RWL.
  intros Hns E. unfold chunkIsEvacuableLocked in E. apply sm_bind_inv in E as (w0&c&E0&E). apply chunk_at_inv in E0 as [-> Hc]. cbv zeta in E.
  apply sm_bind_inv in E as (w1&ts&Ec&E). destruct (collect_run partOff w (cm_physStart c) (cm_physStart c +₆₄ cm_size c) Hns) as [l El].
  rewrite El in Ec. injection Ec as <- ->. destruct (bool_decide (ts = [])); [|by injection E as <-]. cbn [negb] in E.
  apply sm_bind_inv in E as (w1&hit&Eh&E). destruct (liveMeta_run partOff w (cm_physStart c) (cm_physStart c +₆₄ cm_size c) false Hns) as [h E3].
  unfold liveMetaInRange in Eh. rewrite E3 in Eh. injection Eh as <- ->. destruct hit as [a|]; [by injection E as <-|].
  apply sm_bind_inv in E as (w2&u&Eu&E). injection E as <- _. exact (stays_run _ _ _ _ _ (group_in_use_sb (tx_sb w) _ _) eq_refl Eu).
Qed.

Lemma whole_chunk_clear (w w' : W) idx c n : nodeHdrSize <= sb_nodeSize (tx_sb w) -> sb_sysChunks (tx_sb w) !! idx = Some c ->
  n < chunk_tail c -> removeWholeTrailingChunkLocked partOff idx n w = (w', Ok tt) -> n = cm_physStart c /\ chunk_dropped w w' idx c.
Proof using HL RWL.
  intros Hns Hc Hn E. unfold removeWholeTrailingChunkLocked in E. apply sm_bind_inv in E as (w0&c'&E0&E). apply chunk_at_inv in E0 as [-> Hc'].
  assert (c' = c) as -> by congruence. destruct (Z.eqb_spec n (cm_physStart c)) as [->|]; [|done]. split; [done|]. cbn [negb] in E.
  rewrite (sm_bind_Ok _ _ _ w (tx_sb w)) in E by done. destruct (anchored _ _ _); [|done]. cbn [negb] in E.
  apply sm_bind_inv in E as (we&empty&Ee&E). apply sm_bind_inv in E as (w2&[]&Er&E). destruct empty.
  - injection Er as ->. left. exists w2. split_and!; [done|by eapply evacuable_clear|done].
  - right. unfold relocateNonEmptyChunkLocked in Er. apply sm_bind_inv in Er as (w3&c3&E3&Er). apply chunk_at_inv in E3 as [-> Hc3].
    rewrite (evacuable_sb _ _ _ _ Hns Ee) in Hc3. assert (c3 = c) as -> by congruence. cbv zeta in Er. fold (chunk_tail c) in Er.
    apply sm_bind_inv in Er as (w4&[]&Ev&Er). apply sm_bind_inv in Er as (wc&left&Ec&Er).
    destruct (bool_decide (left = [])) eqn:Eb; cbn [negb] in Er; [|by apply sm_bind_inv in Er as (?&?&_&?)]. apply bool_decide_eq_true in Eb as ->.
    rewrite (sm_bind_Ok _ _ _ wc (tx_root wc)) in Er by done. apply sm_bind_inv in Er as (wr&[]&Eu&Er). apply sm_bind_inv in Er as (wg&used&Eg&Er).
    destruct used; [done|]. injection Er as ->. exists wc, wr, w2. split_and!; [|done|done|done]. eapply evacuated_clear; [lia|done|done].
Qed.
End Cut.

(** C21. What [Shrink] cuts off is empty.  A [Shrink] to another size that succeeds finds the
    local chunk that ends at the device size and cuts it, or drops it when the new size is
    its start.  A cut follows the emptying step: either every byte of the tail was in
    the free list and nothing was moved, or on the trees that step left [tail_clear] holds: no
    data extent of the FS tree and no block of the chunk, root or FS tree or of a tree a
    ROOT_ITEM names has a byte in the tail, the extent tree apart, which the commit
    writes anew.  A dropped chunk was clear in this sense, the extent tree included, or
    was emptied, found clear, committed and then found unused in its block group.  Data
    extents of trees other than the FS tree are not looked at. *)
Theorem shrink_cuts_empty_tail `{HL : SafeIOLaws} {D : Type} `{RWL : RWLaws D} `{BD : BlockDev D} (partOff : Z) (w w' : txState D) (n : Z) :
  let cur := i64 (sb_totalBytes (tx_sb w)) in
  Shrink partOff n w = (w', Ok tt) -> n <> cur -> sm_wf (st_sm (tx_cow w)) -> nodeHdrSize <= sb_nodeSize (tx_sb w) ->
  exists idx c, sb_sysChunks (tx_sb w) !! idx = Some c /\ local_chunk c /\ chunk_tail c = cur /\
    (forall c', c' ∈ sb_sysChunks (tx_sb w) -> local_chunk c' -> chunk_tail c' <= cur) /\
    (cm_physStart c < n /\ (exists wc relocated, empty_tail partOff n cur w = (wc, Ok relocated) /\
       cut_tail partOff idx c n cur n relocated wc = (w', Ok tt) /\
       if relocated : bool then tail_clear partOff true wc n cur else wc = w /\ forall p, n <= p < cur -> is_free (st_sm (tx_cow w)) p) \/
     n = cm_physStart c /\ chunk_dropped partOff w w' idx c).
Proof.
  intros cur E Hne Hwf Hns. assert (Hcur : - 2 ^ 63 <= cur < 2 ^ 63) by (unfold cur, i64; pose proof (Z.mod_pos_bound (sb_totalBytes (tx_sb w) + 2 ^ 63) (2 ^ 64) ltac:(lia)); lia).
  unfold Shrink in E. case_if_in E; [done|]. rewrite (sm_bind_Ok _ _ _ w (tx_sb w)) in E by done. fold cur in E.
  rewrite (proj2 (Z.eqb_neq n cur) Hne) in E. apply sm_bind_inv in E as (w1&[]&Ec&E). unfold sm_lift in Ec. injection Ec as <- Ec.
  assert (Hn : 0 < n < cur).
  { revert Ec. unfold shrink_checks. destruct (Z.ltb_spec cur n); [done|]. destruct (Z.ltb_spec n resizeMinSize); [done|]. intros _.
    change resizeMinSize with 1048576 in *. lia. }
  destruct (readBytesUsed_run partOff w) as (o&Eo&Ho). apply sm_bind_inv in E as (w2&used&Eu&E). rewrite Eo in Eu. injection Eu as <- ->.
  case_if_in E; [done|]. apply sm_bind_inv in E as (w2&idx&Ei&E). unfold sm_lift in Ei. injection Ei as <- Ei.
  rewrite (u64_small cur), (u64_small n) in * by (unfold is_u64; lia).
  pose proof (tailChunk_spec (tx_sb w) cur ltac:(lia)) as Ht. rewrite Ei in Ht. destruct Ht as (c&Hc&Hloc&Htail&Hmax).
  apply sm_bind_inv in E as (w2&c'&Ea&E). apply chunk_at_inv in Ea as [-> Hc']. assert (c' = c) as -> by congruence.
  exists idx, c. split_and!; try done. case_if_in E; bool_prop.
  - right. apply (whole_chunk_clear partOff _ _ _ c) in E; [done|done|done|lia].
  - left. split; [lia|]. apply sm_bind_inv in E as (wc&relocated&Ee&E). exists wc, relocated. split_and!; [done|done|].
    by apply (empty_tail_clear partOff w wc n cur) in Ee; [|lia|lia|done].
Qed.

(** ** On a small image *)
#[local] Existing Instance listSafeIO.

(** The example with a further tree whose only block is the last of the chunk. *)
Definition fy_root_items : list rec :=
  [(Key extentTreeObjID typeRootItem 0, fx_root_item 0x11800); (Key fsTreeObjID typeRootItem 0, fx_root_item 0x11400);
   (Key csumTreeObjID typeRootItem 0, fx_root_item 0x17C00)].
Definition fy_dev : bytes :=
  zeros 0x11000 ++ fx_leaf fy_root_items ++ fx_leaf fx_fs_items ++ fx_leaf [] ++ zeros (0x17C00 - 0x11C00) ++ fx_leaf [].
Definition fy : txState bytes := TxState (CowState fy_dev (SpaceManager [FreeExtent 0x11C00 0x6000] 1024)) fx_sb 0x11400 0.
Definition fy_after : txState bytes := (empty_tail 0 0x17C00 0x18000 fy).1.

(** The records of a leaf. *)
Definition recs_at (w : txState bytes) (a : Z) : list rec :=
  match rn 0 (tx_sb w) (tx_cow w) a with
  | Ok buf => match parseLeafItems buf (rd 4 buf 0x60) with Ok items => map (fun it => (it_k it, item_data it buf)) items | _ => [] end
  | _ => []
  end.
Definition fy_cr : list rec := Eval vm_compute in recs_at fy_after 0x11000.
Definition fy_csum : option Z := Eval vm_compute in (match fy_cr !! 2%nat with Some r => root_bytenr r | None => None end).

Example fy_moves : (empty_tail 0 0x17C00 0x18000 fy).2 = Ok true /\ fy_csum = Some 0x11C00.
Proof. vm_compute. split; reflexivity. Qed.

Lemma leaf_tree (w : txState bytes) a (l : list rec) buf :
  rn 0 (tx_sb w) (tx_cow w) a = Ok buf -> leaf_repr buf l -> keys_sorted l -> tree_at (rn 0 (tx_sb w) (tx_cow w)) a l [a].
Proof. intros E R S. exists 0%nat. split_and!; [by exists buf|apply NoDup_singleton|done|done]. Qed.

Definition fy_root_leaf : bytes := Eval vm_compute in (match rn 0 (tx_sb fy_after) (tx_cow fy_after) 0x11000 with Ok b => b | _ => [] end).
Lemma fy_live : live_trees 0 fy_after fy_cr [0x11000] fy_cr [0x11000] fx_fs_items [0x11400].
Proof.
  assert (Hsb : sb_nodeSize (tx_sb fy_after) = 1024 /\ sb_chunkLogAddr (tx_sb fy_after) = 0x11000 /\ sb_rootLogAddr (tx_sb fy_after) = 0x11000 /\
    tx_root fy_after = 0x11400) by (vm_compute; split_and!; reflexivity).
  destruct Hsb as (H1&H2&H3&H4).
  assert (Hr : rn 0 (tx_sb fy_after) (tx_cow fy_after) 0x11000 = Ok fy_root_leaf) by (vm_compute; reflexivity).
  assert (Hf : rn 0 (tx_sb fy_after) (tx_cow fy_after) 0x11400 = Ok (fx_leaf fx_fs_items)) by (vm_compute; reflexivity).
  assert (Ht : tree_at (rn 0 (tx_sb fy_after) (tx_cow fy_after)) 0x11000 fy_cr [0x11000]).
  { apply (leaf_tree _ _ _ _ Hr); [repeat split; vm_compute; first [reflexivity|discriminate]|repeat constructor; vm_compute; reflexivity]. }
  split.
  - rewrite H1. vm_compute. discriminate.
  - by rewrite H2.
  - by rewrite H3.
  - rewrite H4. apply (leaf_tree _ _ _ _ Hf); [repeat split; vm_compute; first [reflexivity|discriminate]|repeat constructor; vm_compute; reflexivity].
Qed.

(** The emptying step moves the block and finds the tail clear. *)
Example fy_clear : forall a, a ∈ [0x11000; 0x11000; 0x11400] -> 0 <= physFromLog (tx_sb fy_after) a -> physFromLog (tx_sb fy_after) a + 1024 < 2 ^ 64 ->
  ~ shares (physFromLog (tx_sb fy_after) a) 1024 0x17C00 0x18000.
Proof.
  assert (E : empty_tail 0 0x17C00 0x18000 fy = (fy_after, Ok true)) by (rewrite <- (proj1 fy_moves); unfold fy_after; apply surjective_pairing).
  assert (Hwf : sm_wf (st_sm (tx_cow fy))).
  { split; [repeat constructor; unfold fe_ok; cbn; lia|]. split; [|cbn; lia].
    intros p. cbn. destruct (inr_spec 0x11C00 0x6000 p) as [[? ->]|[? ->]]; lia. }
  assert (Hn : sb_nodeSize (tx_sb fy_after) = 1024) by (vm_compute; reflexivity). rewrite <- Hn.
  apply (empty_tail_clear 0) in E; [|lia|lia|done]. exact (proj1 (proj2 (E _ _ _ _ _ _ fy_live))).
Qed.

(** A volume whose blocks are at its start, on a device that stores that part of it. *)
#[local] Instance headDev : BlockDev bytes := {|
  dev_Truncate d n := (take (Z.to_nat (Z.min n (blen d))) d, Ok tt);
  dev_Sync d := Ok tt;
|}.
Definition fv_chunk (size : Z) : chunkMapping := ChunkMapping 0x11000 (size - 0x11000) 0x11000 0 0x4 0x10000 1 [ChunkStripe 1 0x11000].
Definition fv_sb (size : Z) : superblock :=
  Superblock 1024 4096 1024 4096 size 0x11000 0x11C00 7 1 (zeros 16) (zeros 256) [fv_chunk size].
Definition fv_chunk_items (size : Z) : list rec := [(Key firstChunkTreeObjID typeChunkItem 0x11000, wr 8 (zeros 80) chunkSize (size - 0x11000))].
Definition fv_dev (size : Z) : bytes :=
  zeros 0x11000 ++ fx_leaf fx_root_items ++ fx_leaf fx_fs_items ++ fx_leaf [] ++ fx_leaf (fv_chunk_items size).
Definition fv (size : Z) : txState bytes :=
  TxState (CowState (fv_dev size) (SpaceManager [FreeExtent 0x12000 (size - 0x12000)] 1024)) (fv_sb size) 0x11400 0.
Lemma fv_sm_wf size : 0x12000 < size < 2 ^ 63 -> sm_wf (st_sm (tx_cow (fv size))).
Proof.
  intros Hs. split; [repeat constructor; unfold fe_ok; cbn; lia|]. split; [|cbn; lia].
  intros p. cbn. destruct (inr_spec 0x12000 (size - 0x12000) p) as [[? ->]|[? ->]]; lia.
Qed.
Definition fv_after : txState bytes := (Shrink 0 0x100000 (fv 0x200000)).1.

#[local] Instance memRW_done : WriteDone bytes.
Proof.
  constructor. intros d off b d'. cbn. destruct (mem_in d off (blen b)) eqn:E; [|done]. intros [= <-]. apply mem_in_true in E as (H1&H2&H3).
  assert (L : blen (splice d off b) = blen d) by (by apply blen_splice). unfold mem_in. rewrite L. split.
  - fold (mem_in d off (blen b)). rewrite (proj2 (mem_in_true _ _ _)) by done. f_equal. by apply sub_splice_same.
  - intros off' n x Hn Hd. fold (mem_in d off' n). destruct (mem_in d off' n) eqn:E; [|done]. apply mem_in_true in E as (?&?&?).
    intros [= <-]. f_equal. apply sub_splice_out; lia.
Qed.
Lemma grow_extends_volume_witness :
  exists w', Resize 0 0x200000 (fv 0x18000) = (w', Ok tt) /\ sb_totalBytes (tx_sb w') = 0x200000 /\
    (forall p, is_free (st_sm (tx_cow w')) p <-> is_free (st_sm (tx_cow (fv 0x18000))) p \/ 0x18000 <= p < 0x200000) /\
    sized_on_device 0 w' 0x200000 (devBytesUsed (tx_sb w')).
Proof.
  assert (Ho : (Resize 0 0x200000 (fv 0x18000)).2 = Ok tt) by (vm_compute; reflexivity).
  destruct (Resize 0 0x200000 (fv 0x18000)) as [w' o] eqn:E. cbn [snd] in Ho. subst o.
  assert (Hnf : forall p, 0x18000 <= p < 0x200000 -> ~ is_free (st_sm (tx_cow (fv 0x18000))) p).
  { intros p Hp. unfold is_free, cov. cbn [fv tx_cow st_sm sm_freeExts map sumZ foldr fe_physStart fe_size].
    destruct (inr_spec 0x12000 (0x18000 - 0x12000) p) as [[? ->]|[? ->]]; lia. }
  assert (Hwf : chunk_map_wf (sb_sysChunks (tx_sb (fv 0x18000)))).
  { split; intros m; cbn [fv tx_sb fv_sb sb_sysChunks]; [intros ->%list_elem_of_singleton; cbn; lia|].
    intros m' ->%list_elem_of_singleton ->%list_elem_of_singleton. by left. }
  assert (Hap : chunk_leaf_apart 0 (tx_sb (fv 0x18000))).
  { unfold chunk_leaf_apart, disjoint_ranges, superblockOffset, sbfSize. cbn [fv tx_sb fv_sb sb_chunkLogAddr sb_nodeSize]. lia. }
  destruct (grow_extends_volume (D := bytes) 0 (fv 0x18000) w' 0x200000 E ltac:(vm_compute; split; reflexivity) ltac:(lia) Hwf
    (fv_sm_wf 0x18000 ltac:(lia)) Hnf Hap) as (idx&c&_&_&_&Hsb&_&_&Hf&Hdev&_).
  exists w'. split; [reflexivity|]. split; [by rewrite Hsb|]. split; [exact Hf|exact Hdev].
Defined.

Lemma shrink_cuts_empty_tail_witness :
  Shrink 0 0x100000 (fv 0x200000) = (fv_after, Ok tt) /\ sb_totalBytes (tx_sb fv_after) = 0x100000 /\
  forall p, 0x100000 <= p < 0x200000 -> is_free (st_sm (tx_cow (fv 0x200000))) p.
Proof.
  assert (Ho : (Shrink 0 0x100000 (fv 0x200000)).2 = Ok tt) by (vm_compute; reflexivity).
  assert (E : Shrink 0 0x100000 (fv 0x200000) = (fv_after, Ok tt)) by (rewrite <- Ho; unfold fv_after; apply surjective_pairing).
  pose proof (fv_sm_wf 0x200000 ltac:(lia)) as Hwf.
  destruct (shrink_cuts_empty_tail (D := bytes) 0 (fv 0x200000) fv_after 0x100000 E ltac:(vm_compute; discriminate) Hwf ltac:(vm_compute; discriminate))
    as (idx&c&Hc&_&_&_&Hcut).
  split; [exact E|]. split; [vm_compute; reflexivity|]. assert (Hcc : c = fv_chunk 0x200000).
  { destruct idx as [|[|idx]]; [by injection Hc|discriminate Hc..]. }
  destruct Hcut as [(_&wc&relocated&Ee&_&Hf)|[Hx _]]; [|rewrite Hcc in Hx; discriminate Hx].
  change (i64 (sb_totalBytes (tx_sb (fv 0x200000)))) with 0x200000 in *.
  assert (Er : (empty_tail 0 0x100000 0x200000 (fv 0x200000)).2 = Ok false) by (vm_compute; reflexivity).
  rewrite Ee in Er. cbn [snd] in Er. injection Er as ->. exact (proj2 Hf).
Defined.
