(* ===== verification/Subvol.v ===== *)
(** * Subvolumes and snapshots (subvol.go)

    The enumeration of the trees of the ROOT_TREE and the read-only view of one of
    them.  The callback of [walkAllLeaves] fills three maps; the loop over the first
    of them follows the order of a Go map, which the language leaves open: [order]
    lists a map's entries. *)
From Stdlib Require Import ZArith Lia Strings.Byte.
From stdpp Require Import base option list numbers sorting gmap.
From S2P Require Import Prelude Bytes Layout SafeIO Chunk Node BTree Walk CowCorrect Codec Read Mount.
Local Open Scope Z_scope.
Local Open Scope btrfs_scope.

Record Subvolume := MkSubvolume {
  sv_ID : Z; sv_ParentID : Z; sv_Name : bytes; sv_RootBytenr : Z; sv_Generation : Z }.
Record rootInfo := RootInfo { ri_bytenr : Z; ri_generation : Z; ri_offset : Z }.
(** The maps of [enumerateSubvolumes]; [roots[id].seen] is the presence of the key. *)
Record rootMaps := RootMaps { rm_roots : gmap Z rootInfo; rm_refs : gmap Z rootRef; rm_parents : gmap Z Z }.
Definition noMaps : rootMaps := RootMaps ∅ ∅ ∅.

Definition add_ref (m : rootMaps) (child parent : Z) (rr : rootRef) : rootMaps :=
  RootMaps (rm_roots m) (<[child := rr]> (rm_refs m)) (<[child := parent]> (rm_parents m)).

(** The callback, on the key and the payload of an item. *)
Definition visit_root_rec (m : rootMaps) (r : rec) : outcome rootMaps :=
  let '(k, d) := r in
  if typ k =? typeRootItem then
    if blen d <? rootItemMinSize then Ok m else
    if match rm_roots m !! objID k with Some info => offset k <? ri_offset info | None => false end then Ok m else
    bytenr ← Uint64 d rootItemOffBytenr;
    generation ← Uint64 d rootItemOffGeneration;
    Ok (RootMaps (<[objID k := RootInfo bytenr generation (offset k)]> (rm_roots m)) (rm_refs m) (rm_parents m))
  else if typ k =? typeRootRef then
    rr ← parseRootRef d;
    Ok (match rr with Some rr => add_ref m (offset k) (objID k) rr | None => m end)
  else if typ k =? typeRootBackref then
    rr ← parseRootRef d;
    Ok (match rr with
        | Some rr => if bool_decide (is_Some (rm_refs m !! objID k)) then m else add_ref m (objID k) (offset k) rr
        | None => m
        end)
  else Ok m.
Definition visit_root_item (m : rootMaps) (buf : bytes) (it : leafItem) : outcome (rootMaps * bool) :=
  m ← visit_root_rec m (it_k it, item_data it buf);
  Ok (m, true).

(** The trees that are reported: the default one and the free range. *)
Definition reported (id : Z) : bool :=
  negb (negb (id =? fsTreeObjID) && ((id <? firstFreeObjID) || (lastFreeObjID <? id))).
Definition to_subvolume (m : rootMaps) (id : Z) (info : rootInfo) : Subvolume :=
  match rm_refs m !! id with
  | Some rr => MkSubvolume id (default 0 (rm_parents m !! id)) (rr_name rr) (ri_bytenr info) (ri_generation info)
  | None => MkSubvolume id 0 [] (ri_bytenr info) (ri_generation info)
  end.
Definition list_subvolumes (order : gmap Z rootInfo -> list (Z * rootInfo)) (m : rootMaps) : list Subvolume :=
  map (fun p => to_subvolume m p.1 p.2) (List.filter (fun p => reported p.1) (order (rm_roots m))).

(** The callback over the items of a leaf; it stops the walk with [false]. *)
Fixpoint visit_all {A} (visit : A -> bytes -> leafItem -> outcome (A * bool)) (buf : bytes) (items : list leafItem) (acc : A)
    : outcome (A * bool) :=
  match items with
  | [] => Ok (acc, true)
  | it :: items =>
      '(acc, go) ← visit acc buf it;
      if go : bool then visit_all visit buf items acc else Ok (acc, false)
  end.

Record subvolView := SubvolView { vw_fsTreeRoot : Z; vw_sub : Subvolume }.

Section Subvol.
Context `{SafeIO} `{Decoders} {S : Type} (readNode : Z -> SM S bytes).
Context (ReadAt : Z -> Z -> outcome bytes) (dev partOff : Z) (sb : superblock).
Context (order : gmap Z rootInfo -> list (Z * rootInfo)).

Fixpoint walkAllLeaves_loop {A} (fuel : nat) (seen : VisitSet) (guard : LoopGuard) (stack : list (Z * Z))
    (visit : A -> bytes -> leafItem -> outcome (A * bool)) (acc : A) : SM S A :=
  match stack with
  | [] => mret acc
  | (logAddr, depth) :: stack =>
      if maxBtreeDepth <? depth then sm_fail ErrLoopLimit
      else match fuel with
      | O => sm_lift NoFuel
      | Datatypes.S fuel =>
          guard ← sm_lift (guard_next guard);
          seen ← sm_lift (visit_check seen logAddr);
          buf ← readNode logAddr;
          hdr ← sm_lift (parseNodeHeader buf);
          if hdr_level hdr =? 0 then
            items ← sm_lift (parseLeafItems buf (hdr_nItems hdr));
            '(acc, go) ← sm_lift (visit_all visit buf items acc);
            if go : bool then walkAllLeaves_loop fuel seen guard stack visit acc else mret acc
          else
            ptrs ← sm_lift (child_ptrs buf (hdr_nItems hdr) (fun _ => false));
            let children := List.filter (fun c => negb (c =? 0)) ptrs in
            walkAllLeaves_loop fuel seen guard (map (fun c => (c, depth + 1)) children ++ stack) visit acc
      end
  end.
Definition walkAllLeaves {A} (rootLogAddr : Z) (visit : A -> bytes -> leafItem -> outcome (A * bool)) (acc : A) : SM S A :=
  walkAllLeaves_loop walk_fuel visit_empty (NewLoopGuard maxTreeNodes) [(rootLogAddr, 0)] visit acc.

Definition enumerateSubvolumes : SM S (list Subvolume) :=
  m ← walkAllLeaves (sb_rootLogAddr sb) visit_root_item noMaps;
  mret (list_subvolumes order m).

(** The first subvolume that fits, as a view. *)
Definition open_first (ok : Subvolume -> bool) (subs : list Subvolume) : outcome subvolView :=
  match List.find ok subs with
  | Some s => if sv_RootBytenr s =? 0 then Err ErrOther else Ok (SubvolView (sv_RootBytenr s) s)
  | None => Err ErrNotFound
  end.
Definition OpenSubvolumeByID (id : Z) : SM S subvolView :=
  subs ← enumerateSubvolumes;
  sm_lift (open_first (fun s => sv_ID s =? id) subs).
Definition OpenSubvolumeByName (name : bytes) : SM S subvolView :=
  subs ← enumerateSubvolumes;
  sm_lift (open_first (fun s => bool_decide (sv_Name s = name) && negb (bool_decide (sv_Name s = []))) subs).

(** ** Reads in a view *)
Definition view_ReadFile (v : subvolView) (path : bytes) : SM S bytes :=
  i ← pathLookup readNode (vw_fsTreeRoot v) path;
  if negb (isRegular i) then sm_fail ErrOther else
  readFileData readNode ReadAt dev partOff sb (vw_fsTreeRoot v) i.
Definition view_ListDir (v : subvolView) (path : bytes) : SM S (list dirEntry) :=
  i ← pathLookup readNode (vw_fsTreeRoot v) path;
  if negb (isDir i) then sm_fail ErrOther else readDir readNode (vw_fsTreeRoot v) (in_num i).
Definition view_Stat (v : subvolView) (path : bytes) : SM S (Z * Z * Z) :=
  i ← pathLookup readNode (vw_fsTreeRoot v) path;
  mret (u16 (in_mode i), in_size i, in_num i).
Definition view_ReadLink (v : subvolView) (path : bytes) : SM S bytes :=
  i ← pathLookup readNode (vw_fsTreeRoot v) path;
  if negb (isSymlink i) then sm_fail ErrOther else
  readSymlink readNode ReadAt dev partOff sb (vw_fsTreeRoot v) i.
End Subvol.

(** ** The walk is a fold over the items *)
Section Walk.
Context `{HL : SafeIOLaws} (rn : Z -> outcome bytes) {A : Type}.
Context (visit : A -> bytes -> leafItem -> outcome (A * bool)) (g : A -> rec -> A).
Context (Hvisit : forall acc buf it, visit acc buf it = Ok (g acc (it_k it, item_data it buf), true)).

Lemma visit_all_fold buf items acc :
  visit_all visit buf items acc = Ok (foldl g acc (map (fun it => (it_k it, item_data it buf)) items), true).
Proof using Hvisit.
  revert acc. induction items as [|it items IH]; intros acc; cbn [visit_all map foldl]; [done|].
  rewrite Hvisit. cbn [mbind outcome_bind]. apply IH.
Qed.

Lemma kids_frames kids d h :
  Forall (fun k => kid_addr k <> 0 /\ subtree rn h (kid_addr k) (kid_recs k) (kid_addrs k)) kids ->
  d + Z.of_nat h <= maxBtreeDepth ->
  let fs := map (fun x => Frame (kid_addr x) d h (kid_recs x) (kid_addrs x)) kids in
  map fr_key fs = map (fun c => (c, d)) (List.filter (fun c => negb (c =? 0)) (map kid_addr kids)) /\
  Forall (frame_ok rn) fs /\ frames_ads fs = concat (map kid_addrs kids) /\ frames_recs fs = concat (map kid_recs kids).
Proof using.
  intros Hk Hd fs. unfold fs, frames_ads, frames_recs. rewrite !map_map. split_and!; [| |done..].
  - induction Hk as [|k kids [Hk _] _ IH]; [done|]. cbn. rewrite (proj2 (Z.eqb_neq _ _) Hk). cbn. by rewrite IH.
  - apply Forall_fmap. eapply Forall_impl; [exact Hk|]. intros k [_ Hs]. by split.
Qed.

Lemma walkAllLeaves_frames fuel w frames acc :
  Forall (frame_ok rn) frames -> can_visit w (frames_ads frames) -> (length (frames_ads frames) <= fuel)%nat ->
  walkAllLeaves_loop (pure_reader rn) fuel w.1 w.2 (map fr_key frames) visit acc tt = (tt, Ok (foldl g acc (frames_recs frames))).
Proof using HL Hvisit.
  revert w frames acc. induction fuel as [|fuel IH]; intros w frames acc Hok Hv Hf;
    (destruct frames as [|[a d h c ads] frames]; [done|]);
    apply Forall_cons in Hok as [[Hsub Hd] Hok]; cbn [fr_h fr_a fr_c fr_ads fr_d] in *;
    assert (Hads : exists rest, ads = a :: rest)
      by (destruct h; [destruct Hsub as (?&?&?&?&->)|destruct Hsub as (?&?&?&?&?&->&_)]; by eexists);
    destruct Hads as [rest ->]; unfold frames_ads in Hv, Hf; cbn [map concat fr_ads app length] in Hv, Hf; [lia|].
  cbn [map fr_key fr_a fr_d walkAllLeaves_loop]. case_if; [lia|].
  destruct (enter w a _ Hv) as (g'&Eg&(v&Ev&Hvis)&_). rewrite (sm_lift_Ok _ _ _ _ Eg), (sm_lift_Ok _ _ _ _ Ev).
  pose proof (can_visit_rest w _ [a] _ Hv Hvis) as Hv'. unfold frames_recs. cbn [map concat fr_c]. rewrite foldl_app.
  destruct h as [|h].
  - destruct Hsub as (buf&Hr&Hl&Hs&[= ->]). rewrite (sm_bind_Ok _ _ _ tt buf) by (unfold pure_reader; by rewrite Hr).
    destruct (leaf_repr_header _ _ Hl) as [la Hh]. rewrite (sm_lift_Ok _ _ _ _ Hh). cbn [hdr_level hdr_nItems].
    rewrite Z.eqb_refl. destruct (parseLeafItems_repr _ _ Hl) as (items&E&Hi). rewrite (sm_lift_Ok _ _ _ _ E).
    rewrite visit_all_fold, Hi, (sm_lift_Ok _ _ _ _ eq_refl). apply (IH (v, g')); [done|done|unfold frames_ads; cbn in Hf; lia].
  - destruct Hsub as (buf&kids&Hr&Hi&->&[= ->]&_&Hkids). rewrite (sm_bind_Ok _ _ _ tt buf) by (unfold pure_reader; by rewrite Hr).
    destruct (kids_of _ _ _ Hi) as [Hh Hc]. rewrite (sm_lift_Ok _ _ _ _ Hh). cbn [hdr_level hdr_nItems].
    rewrite (proj2 (Z.eqb_neq _ _)) by lia. rewrite (sm_lift_Ok _ _ _ _ Hc).
    destruct (kids_frames kids (d + 1) h Hkids ltac:(lia)) as (Ek&Fk&Ea&Er).
    cbv zeta. rewrite <- Ek, <- map_app. rewrite (IH (v, g')).
    + unfold frames_recs in Er |- *. by rewrite map_app, concat_app, foldl_app, Er.
    + by apply Forall_app.
    + unfold frames_ads in Ea |- *. by rewrite map_app, concat_app, Ea.
    + unfold frames_ads in Ea |- *. rewrite map_app, concat_app, Ea. cbn [app length] in Hf. lia.
Qed.

Lemma walkAllLeaves_tree h root c ads acc :
  subtree rn h root c ads -> Z.of_nat h <= maxBtreeDepth -> NoDup ads -> Z.of_nat (length ads) <= maxTreeNodes ->
  sm_run (walkAllLeaves (pure_reader rn) root visit acc) = Ok (foldl g acc c).
Proof using HL Hvisit.
  intros Hs Hh Hn Hl. unfold sm_run, walkAllLeaves.
  pose proof (walkAllLeaves_frames walk_fuel (visit_empty, NewLoopGuard maxTreeNodes) [Frame root 0 h c ads] acc) as Hw.
  unfold frames_ads, frames_recs, fr_key in Hw. cbn [map concat fr_a fr_d fr_c fr_ads fst snd] in Hw.
  rewrite !app_nil_r in Hw. rewrite Hw; [done|by repeat constructor| |unfold walk_fuel; lia].
  split_and!; [done| |cbn [snd]; rewrite NewLoopGuard_spec; [done|unfold maxTreeNodes; lia]].
  intros x _. cbn [fst]. rewrite visit_empty_spec. apply not_elem_of_nil.
Qed.
End Walk.

(** ** What the ROOT_TREE says

    [root_info_of], [ref_of] and [backref_of] read one item: the tree or child it is
    about and what it says.  [subvolume_in] is the subvolume of an id: its last
    ROOT_ITEM, named by its last ROOT_REF or else by its first ROOT_BACKREF. *)
Definition ref_in (d : bytes) : option rootRef := match parseRootRef d with Ok rr => rr | _ => None end.
Definition root_info_of (r : rec) : option (Z * rootInfo) :=
  if (typ r.1 =? typeRootItem) && (rootItemMinSize <=? blen r.2)
  then Some (objID r.1, RootInfo (rd 8 r.2 rootItemOffBytenr) (rd 8 r.2 rootItemOffGeneration) (offset r.1)) else None.
Definition ref_of (r : rec) : option (Z * (Z * rootRef)) :=
  if typ r.1 =? typeRootRef then (fun rr => (offset r.1, (objID r.1, rr))) <$> ref_in r.2 else None.
Definition backref_of (r : rec) : option (Z * (Z * rootRef)) :=
  if typ r.1 =? typeRootBackref then (fun rr => (objID r.1, (offset r.1, rr))) <$> ref_in r.2 else None.
Definition entries {A} (f : rec -> option (Z * A)) (id : Z) (c : list rec) : list A :=
  omap (fun r => p ← f r; if p.1 =? id then Some p.2 else None) c.
Definition name_in (c : list rec) (id : Z) : option (Z * rootRef) :=
  match last (entries ref_of id c) with Some x => Some x | None => head (entries backref_of id c) end.
Definition subvolume_in (c : list rec) (id : Z) : option Subvolume :=
  info ← last (entries root_info_of id c);
  Some (match name_in c id with
        | Some (parent, rr) => MkSubvolume id parent (rr_name rr) (ri_bytenr info) (ri_generation info)
        | None => MkSubvolume id 0 [] (ri_bytenr info) (ri_generation info)
        end).

Lemma parseRootRef_ref d : parseRootRef d = Ok (ref_in d).
Proof.
  unfold ref_in, parseRootRef, rootRefHdrSize. case_if; [done|]. rewrite (get_le_Ok 2) by lia. cbn [mbind outcome_bind].
  pose proof (rd_range 2 d 16). case_if; [done|]. rewrite (get_le_Ok 8) by lia. cbn [mbind outcome_bind].
  by rewrite slice_Ok by lia.
Qed.

Lemma entries_snoc {A} (f : rec -> option (Z * A)) id c r :
  entries f id (c ++ [r]) = entries f id c ++ match f r with Some p => if p.1 =? id then [p.2] else [] | None => [] end.
Proof. unfold entries. rewrite omap_app. f_equal. cbn. destruct (f r) as [p|]; [cbn; by destruct (p.1 =? id)|done]. Qed.

(** The maps after the items [c]. *)
Definition maps_of (c : list rec) (m : rootMaps) : Prop := forall id,
  rm_roots m !! id = last (entries root_info_of id c) /\
  rm_refs m !! id = snd <$> name_in c id /\ rm_parents m !! id = fst <$> name_in c id.

(** One callback, without its (impossible) failure. *)
Definition visit_step (m : rootMaps) (r : rec) : rootMaps :=
  match visit_root_rec m r with Ok m' => m' | _ => m end.
Lemma visit_root_rec_step m r : visit_root_rec m r = Ok (visit_step m r).
Proof.
  unfold visit_step. destruct r as [k d]. unfold visit_root_rec, rootItemMinSize, rootItemOffBytenr, rootItemOffGeneration.
  rewrite parseRootRef_ref. destruct (typ k =? typeRootItem); [|by repeat case_match].
  destruct (Z.ltb_spec (blen d) 0xB8); [done|]. case_if; [done|]. by rewrite !get_le_Ok by lia.
Qed.

Lemma name_in_snoc c r id :
  name_in (c ++ [r]) id =
  match ref_of r with
  | Some p => if p.1 =? id then Some p.2 else name_in c id
  | None => match name_in c id with
            | Some x => Some x
            | None => match backref_of r with Some p => if p.1 =? id then Some p.2 else None | None => None end
            end
  end.
Proof.
  unfold name_in. rewrite !entries_snoc.
  assert (Hx : ref_of r = None \/ backref_of r = None).
  { unfold ref_of, backref_of, typeRootRef, typeRootBackref. destruct (Z.eqb_spec (typ r.1) 0x9C) as [->|]; by auto. }
  destruct (ref_of r) as [p|].
  - destruct (p.1 =? id); [by rewrite last_snoc|]. rewrite app_nil_r.
    destruct Hx as [?|Hb]; [done|]. by rewrite Hb, app_nil_r.
  - rewrite app_nil_r. destruct (last (entries ref_of id c)); [done|]. destruct (entries backref_of id c) as [|x l]; [|done].
    destruct (backref_of r) as [p|]; [|done]. by destruct (p.1 =? id).
Qed.

(** No item before has the same tree id and a higher offset. *)
Lemma root_offset_le c k d info :
  keys_sorted (c ++ [(k, d)]) -> typ k = typeRootItem -> last (entries root_info_of (objID k) c) = Some info ->
  (offset k <? ri_offset info) = false.
Proof.
  intros Hs Ht Hl. apply last_Some_elem_of in Hl. apply list_elem_of_omap in Hl as ([k' d']&Hin&E).
  unfold root_info_of in E. cbn [fst snd] in E. destruct (Z.eqb_spec (typ k') typeRootItem) as [Ht'|]; [|done]. cbn [andb] in E.
  destruct (_ <=? _); [|done]. cbn in E. destruct (Z.eqb_spec (objID k') (objID k)) as [Eo|]; [|done]. injection E as <-.
  apply keys_sorted_app in Hs as (_&_&Hlt). specialize (Hlt k' k). unfold key_lt, key_num in Hlt.
  rewrite Ht, Ht', Eo in Hlt. cbn [ri_offset]. apply Z.ltb_ge. apply Z.lt_le_incl.
  assert (k' ∈ map fst c) by (apply list_elem_of_fmap; by exists (k', d')). specialize (Hlt H ltac:(by left)). lia.
Qed.

Lemma maps_of_step c m r : keys_sorted (c ++ [r]) -> maps_of c m -> maps_of (c ++ [r]) (visit_step m r).
Proof.
  intros Hs Hm id. rewrite entries_snoc, name_in_snoc. destruct (Hm id) as (H1&H2&H3). destruct r as [k d].
  unfold visit_step, visit_root_rec. rewrite parseRootRef_ref.
  unfold root_info_of at 2, ref_of, backref_of. cbn [fst snd]. unfold typeRootRef, typeRootBackref.
  destruct (Z.eqb_spec (typ k) typeRootItem) as [Et|Et].
  - rewrite Et. cbn [andb]. change (typeRootItem =? 0x9C) with false. change (typeRootItem =? 0x90) with false. cbn match.
    assert (Hn : forall x : option (Z * rootRef), match x with Some y => Some y | None => None end = x) by (by intros []).
    rewrite Hn. destruct (Z.ltb_spec (blen d) rootItemMinSize) as [Hlen|Hlen].
    { rewrite (proj2 (Z.leb_gt _ _)) by lia. by rewrite app_nil_r. }
    rewrite (proj2 (Z.leb_le _ _)) by lia.
    assert (Hold : match rm_roots m !! objID k with Some info => offset k <? ri_offset info | None => false end = false).
    { destruct (Hm (objID k)) as (Hk&_). destruct (rm_roots m !! objID k) as [info|]; [|done]. by eapply root_offset_le. }
    rewrite Hold.
    unfold rootItemMinSize, rootItemOffBytenr, rootItemOffGeneration in *. rewrite !get_le_Ok by lia.
    cbn [mbind outcome_bind rm_roots rm_refs rm_parents fst snd]. split; [|done].
    destruct (Z.eqb_spec (objID k) id) as [<-|Hne]; [by rewrite lookup_insert_eq, last_snoc|].
    by rewrite lookup_insert_ne, app_nil_r by done.
  - cbn [andb]. rewrite app_nil_r. cbn [mbind outcome_bind].
    destruct (Z.eqb_spec (typ k) 0x9C) as [Er|Er]; [|destruct (Z.eqb_spec (typ k) 0x90) as [Eb|Eb]].
    + rewrite Er. change (0x9C =? 0x90) with false. cbn match. destruct (ref_in d) as [rr|]; cbn [fmap option_fmap option_map fst snd].
      * unfold add_ref. cbn [rm_roots rm_refs rm_parents fst snd]. destruct (Z.eqb_spec (offset k) id) as [<-|Hne].
        -- by rewrite !lookup_insert_eq.
        -- by rewrite !lookup_insert_ne.
      * by rewrite ?H1, ?H2, ?H3; destruct (name_in c id).
    + destruct (ref_in d) as [rr|]; cbn [fmap option_fmap option_map fst snd]; [|by rewrite ?H1, ?H2, ?H3; destruct (name_in c id)].
      destruct (Hm (objID k)) as (_&Hk&_). case_bool_decide as Hsome.
      * destruct (Z.eqb_spec (objID k) id) as [<-|Hne]; [|by rewrite ?H1, ?H2, ?H3; destruct (name_in c id)].
        rewrite Hk in Hsome. destruct (name_in c (objID k)); [done|]. by destruct Hsome.
      * unfold add_ref. cbn [rm_roots rm_refs rm_parents fst snd]. destruct (Z.eqb_spec (objID k) id) as [<-|Hne].
        -- rewrite !lookup_insert_eq. destruct (name_in c (objID k)); [|done]. rewrite Hk in Hsome. destruct Hsome. by eexists.
        -- rewrite !lookup_insert_ne by done. by rewrite ?H1, ?H2, ?H3; destruct (name_in c id).
    + by rewrite ?H1, ?H2, ?H3; destruct (name_in c id).
Qed.

Lemma maps_of_fold c : keys_sorted c -> maps_of c (foldl visit_step noMaps c).
Proof.
  induction c as [|r c IH] using rev_ind; intros Hs; [by intros id|].
  rewrite foldl_app. apply maps_of_step; [done|]. apply IH. by apply keys_sorted_app in Hs as [? _].
Qed.

Lemma subtree_sorted rn h a c ads : subtree rn h a c ads -> keys_sorted c.
Proof.
  revert a c ads. induction h as [|h IH]; intros a c ads.
  - by intros (buf&_&_&?&_).
  - intros (buf&kids&_&_&->&_&Hs&Hk). apply separated_sorted; [done|]. eapply Forall_impl; [exact Hk|].
    intros k [_ Hk']. by eapply IH.
Qed.

(** ** The enumeration and the views *)
Section Enumerate.
Context `{HL : SafeIOLaws} (rn : Z -> outcome bytes) (sb : superblock) (order : gmap Z rootInfo -> list (Z * rootInfo)).
Context (h : nat) (c : list rec) (ads : list Z).
Context (Ht : subtree rn h (sb_rootLogAddr sb) c ads) (Hh : Z.of_nat h <= maxBtreeDepth).
Context (Hn : NoDup ads) (Hl : Z.of_nat (length ads) <= maxTreeNodes).
Context (Hord : forall m, order m ≡ₚ map_to_list m).

Lemma enumerate_run :
  sm_run (enumerateSubvolumes (pure_reader rn) sb order) = Ok (list_subvolumes order (foldl visit_step noMaps c)).
Proof using HL Ht Hh Hn Hl.
  unfold enumerateSubvolumes. rewrite sm_run_bind.
  rewrite (walkAllLeaves_tree rn visit_root_item visit_step) with (h := h) (c := c) (ads := ads); try done.
  intros acc buf it. unfold visit_root_item. by rewrite visit_root_rec_step.
Qed.

Lemma list_subvolumes_in m sv :
  maps_of c m -> sv ∈ list_subvolumes order m <-> reported (sv_ID sv) = true /\ subvolume_in c (sv_ID sv) = Some sv.
Proof using Hord.
  intros Hm. unfold list_subvolumes. rewrite list_elem_of_fmap. split.
  - intros ([id info]&->&Hin). apply list_elem_of_In, filter_In in Hin as [Hin Hr]. apply list_elem_of_In in Hin.
    rewrite Hord in Hin. apply elem_of_map_to_list in Hin. destruct (Hm id) as (H1&H2&H3). cbn [fst snd] in *.
    assert (Eid : sv_ID (to_subvolume m id info) = id) by (unfold to_subvolume; by destruct (rm_refs m !! id)).
    rewrite Eid. split; [done|]. unfold subvolume_in, to_subvolume. rewrite <- H1, Hin, H2, H3. cbn.
    by destruct (name_in c id) as [[]|].
  - intros [Hr E]. destruct (Hm (sv_ID sv)) as (H1&H2&H3). unfold subvolume_in in E. rewrite <- H1 in E.
    destruct (rm_roots m !! sv_ID sv) as [info|] eqn:Ei; [|done]. exists (sv_ID sv, info). split.
    + unfold to_subvolume. cbn [fst snd]. rewrite H2, H3. cbn in E. by destruct (name_in c (sv_ID sv)) as [[]|]; injection E as <-.
    + apply list_elem_of_In, filter_In. split; [|done]. apply list_elem_of_In. rewrite Hord. by apply elem_of_map_to_list.
Qed.

Lemma list_subvolumes_ids m : NoDup (map sv_ID (list_subvolumes order m)).
Proof using Hord.
  unfold list_subvolumes. rewrite map_map.
  replace (map _ _) with (List.filter reported (map fst (order (rm_roots m)))).
  - apply NoDup_ListNoDup, List.NoDup_filter, NoDup_ListNoDup. change (NoDup (order (rm_roots m)).*1). rewrite Hord. apply NoDup_fst_map_to_list.
  - induction (order (rm_roots m)) as [|[id info] l IH]; [done|]. cbn. destruct (reported id); cbn; [|done].
    rewrite IH. f_equal. unfold to_subvolume. by destruct (rm_refs m !! id).
Qed.

(** C22. The enumeration of subvolumes reports the ROOT_TREE exactly: on a tree whose
    nodes are distinct and at most [maxTreeNodes] many, whatever order Go ranges over
    its map in, it succeeds, no id is reported twice, and a subvolume is reported if
    and only if it is the default tree or in the free range of ids and the ROOT_TREE
    describes it so: the address and generation of its last (highest offset)
    ROOT_ITEM, the name and parent of its ROOT_REF, or of its first ROOT_BACKREF when
    no ROOT_REF names it. *)
Theorem subvolumes_enumerated :
  exists subs, sm_run (enumerateSubvolumes (pure_reader rn) sb order) = Ok subs /\ NoDup (map sv_ID subs) /\
    forall sv, sv ∈ subs <-> reported (sv_ID sv) = true /\ subvolume_in c (sv_ID sv) = Some sv.
Proof using HL Ht Hh Hn Hl Hord.
  eexists. split; [apply enumerate_run|]. split; [apply list_subvolumes_ids|]. intros sv.
  apply list_subvolumes_in, maps_of_fold. by eapply subtree_sorted.
Qed.

Lemma find_sole (ok : Subvolume -> bool) subs sv :
  sv ∈ subs -> ok sv = true -> (forall sv', sv' ∈ subs -> ok sv' = true -> sv' = sv) -> List.find ok subs = Some sv.
Proof using.
  intros Hin Hok Hu. destruct (List.find ok subs) as [sv'|] eqn:E.
  - apply List.find_some in E as [Hin' Hok']. f_equal. apply Hu; [by apply list_elem_of_In|done].
  - apply list_elem_of_In in Hin. eapply List.find_none in E; [|exact Hin]. congruence.
Qed.

Lemma subvolume_in_id id sv : subvolume_in c id = Some sv -> sv_ID sv = id.
Proof using.
  unfold subvolume_in. destruct (last _); [|done]. cbn. by destruct (name_in c id) as [[]|]; intros [= <-].
Qed.

(** C23. Opening a subvolume by its id gives the view of that tree and of no other:
    for an id that is reported and described by the ROOT_TREE the view is rooted at
    the address the ROOT_TREE gives (an address of 0 is refused), for every other id
    the call fails with the not-found error. *)
Theorem OpenSubvolumeByID_correct id :
  sm_run (OpenSubvolumeByID (pure_reader rn) sb order id) =
  match subvolume_in c id with
  | Some sv => if negb (reported id) then Err ErrNotFound
               else if sv_RootBytenr sv =? 0 then Err ErrOther else Ok (SubvolView (sv_RootBytenr sv) sv)
  | None => Err ErrNotFound
  end.
Proof using HL Ht Hh Hn Hl Hord.
  unfold OpenSubvolumeByID. rewrite sm_run_bind, enumerate_run. cbn [mbind outcome_bind]. rewrite sm_run_lift.
  set (m := foldl visit_step noMaps c). unfold open_first.
  assert (Hin : forall sv, sv ∈ list_subvolumes order m <-> reported (sv_ID sv) = true /\ subvolume_in c (sv_ID sv) = Some sv)
    by (intros sv; apply list_subvolumes_in, maps_of_fold; by eapply subtree_sorted).
  destruct (List.find _ _) as [sv|] eqn:E.
  - apply List.find_some in E as [Hsv Eid]. apply list_elem_of_In, Hin in Hsv as [Hr Hs]. apply Z.eqb_eq in Eid. subst id.
    by rewrite Hs, Hr.
  - destruct (subvolume_in c id) as [sv|] eqn:Es; [|done]. pose proof (subvolume_in_id _ _ Es) as Eid.
    destruct (reported id) eqn:Er; [|done]. exfalso. subst id. assert (Hsv : sv ∈ list_subvolumes order m) by (by apply Hin).
    apply list_elem_of_In in Hsv. eapply List.find_none in E; [|exact Hsv]. cbn in E. rewrite Z.eqb_refl in E. done.
Qed.

(** Opening a subvolume by name gives the subvolume of that name when exactly one
    reported subvolume has it, whatever order Go ranges over its map in. *)
Theorem OpenSubvolumeByName_correct name sv :
  name <> [] -> sv_Name sv = name -> reported (sv_ID sv) = true -> subvolume_in c (sv_ID sv) = Some sv ->
  (forall sv', reported (sv_ID sv') = true -> subvolume_in c (sv_ID sv') = Some sv' -> sv_Name sv' = name -> sv' = sv) ->
  sv_RootBytenr sv <> 0 ->
  sm_run (OpenSubvolumeByName (pure_reader rn) sb order name) = Ok (SubvolView (sv_RootBytenr sv) sv).
Proof using HL Ht Hh Hn Hl Hord.
  intros Hne En Hr Hs Hu Hb. unfold OpenSubvolumeByName. rewrite sm_run_bind, enumerate_run. cbn [mbind outcome_bind].
  rewrite sm_run_lift. set (m := foldl visit_step noMaps c). unfold open_first.
  assert (Hin : forall sv, sv ∈ list_subvolumes order m <-> reported (sv_ID sv) = true /\ subvolume_in c (sv_ID sv) = Some sv)
    by (intros sv'; apply list_subvolumes_in, maps_of_fold; by eapply subtree_sorted).
  rewrite (find_sole _ _ sv).
  - by rewrite (proj2 (Z.eqb_neq _ _) Hb).
  - by apply Hin.
  - rewrite En. by rewrite !bool_decide_decide, decide_True, decide_False.
  - intros sv' [H1 H2]%Hin Hok. apply andb_true_iff in Hok as [Hok _]. apply bool_decide_eq_true in Hok. by apply Hu.
Qed.
End Enumerate.

(** ** A root tree with a subvolume *)
Definition sx_root_item (bytenr : Z) : bytes := wr 8 (wr 8 (zeros 239) rootItemOffBytenr bytenr) rootItemOffGeneration 7.
Definition sx_items : list rec :=
  [(Key 5 typeRootItem 0, sx_root_item 0x2000); (Key 5 typeRootRef 256, wr 2 (zeros 18) 16 1 ++ [byte_of_Z 97]);
   (Key 256 typeRootItem 0, sx_root_item 0x3000)].
Definition sx_leaf : bytes := ex_leaf_of 1024 sx_items.
Definition sx_rn (a : Z) : outcome bytes := if a =? 0x1000 then Ok sx_leaf else Err ErrIO.
Definition sx_sb : superblock := Superblock 1024 1024 1024 1024 0x4000000 0x1000 0x100200 7 1 (zeros 16) (zeros 256) [].
Definition sx_subvol : Subvolume := MkSubvolume 256 5 [byte_of_Z 97] 0x3000 7.

Lemma sx_tree : subtree sx_rn 0 0x1000 sx_items [0x1000].
Proof.
  exists sx_leaf. split_and!; [reflexivity| |repeat constructor; vm_compute; reflexivity|reflexivity].
  repeat split; vm_compute; first [reflexivity|discriminate].
Qed.

Lemma subvolumes_enumerated_witness :
  exists subs, sm_run (enumerateSubvolumes (H := listSafeIO) (pure_reader sx_rn) sx_sb map_to_list) = Ok subs /\ sx_subvol ∈ subs.
Proof.
  destruct (subvolumes_enumerated (H := listSafeIO) sx_rn sx_sb map_to_list 0 sx_items [0x1000] sx_tree ltac:(vm_compute; discriminate)
    (NoDup_singleton _) ltac:(vm_compute; discriminate) (fun m => Permutation_refl _)) as (subs&E&_&Hs).
  exists subs. split; [exact E|]. apply Hs. split; vm_compute; reflexivity.
Defined.

Lemma OpenSubvolumeByID_correct_witness :
  sm_run (OpenSubvolumeByID (H := listSafeIO) (pure_reader sx_rn) sx_sb map_to_list 256) = Ok (SubvolView 0x3000 sx_subvol).
Proof.
  rewrite (OpenSubvolumeByID_correct (H := listSafeIO) sx_rn sx_sb map_to_list 0 sx_items [0x1000] sx_tree ltac:(vm_compute; discriminate)
    (NoDup_singleton _) ltac:(vm_compute; discriminate) (fun m => Permutation_refl _) 256).
  vm_compute. reflexivity.
Defined.
