(* ===== verification/Api.v ===== *)
(** * The open file system (fs.go, nodecache.go, openfile.go, subvol.go)

    The exported operations: what they share is the mutex, the node cache and the state
    the other files work on.  Reads go through the cache, which [reader] keeps while the
    generation stands; every operation that writes drops it.  The mutex makes each call
    one step. *)
From Stdlib Require Import ZArith Lia Strings.Byte.
From stdpp Require Import base option list numbers sorting gmap.
From S2P Require Import Prelude Bytes Alloc Layout SafeIO Chunk MultiDev Node BTree Walk Split Crc32c Cow Store CowCorrect CowExamples.
From S2P Require Import Codec Read FileRead Mount Tx Extent Ops FsTree Resize Reloc Shrink ResizeCorrect Subvol.
Local Open Scope Z_scope.
Local Open Scope btrfs_scope.

(** The fields of an open [btrfsFS] that change: the device, the free list, the
    superblock and the root (in the transaction state) and the cache. *)
Record openFS (D : Type) := OpenFS { of_tx : txState D; of_cache : option cachedReader }.
Arguments OpenFS {D}.
Arguments of_tx {D}.
Arguments of_cache {D}.

Definition OpenFromDevice `{SafeIO} `{Gpt} (dev : device) (partIndex : Z) : outcome btrfsFS := OpenFromDevices [dev] partIndex.

(** ** Reads through a node reader *)
Section Lookup.
Context `{SafeIO} `{Decoders} {S : Type} (readNode : Z -> SM S bytes).
Context (ReadAt : Z -> Z -> outcome bytes) (dev partOff : Z) (sb : superblock) (root : Z).

Definition read_file (p : bytes) : SM S bytes :=
  i ← pathLookup readNode root p;
  if negb (isRegular i) then sm_fail ErrOther else readFileData readNode ReadAt dev partOff sb root i.
Definition list_dir (p : bytes) : SM S (list dirEntry) :=
  i ← pathLookup readNode root p;
  if negb (isDir i) then sm_fail ErrOther else readDir readNode root (in_num i).
Definition stat (p : bytes) : SM S (Z * Z * Z) :=
  i ← pathLookup readNode root p;
  mret (u16 (in_mode i), in_size i, in_num i).
Definition read_link (p : bytes) : SM S bytes :=
  i ← pathLookup readNode root p;
  if negb (isSymlink i) then sm_fail ErrOther else readSymlink readNode ReadAt dev partOff sb root i.
Definition get_xattr (p name : bytes) : SM S bytes :=
  i ← pathLookup readNode root p;
  '(buf, it) ← searchTree readNode root (in_num i) typeXattrItem (hashDirName name);
  x ← sm_lift (parseXattrItem (item_data it buf));
  match x with
  | None => sm_fail ErrOther
  | Some (gotName, gotValue) => if bool_decide (gotName = name) then mret gotValue else sm_fail ErrNotFound
  end.
Definition xattrs (p : bytes) : SM S (list (bytes * bytes)) :=
  i ← pathLookup readNode root p;
  r ← sm_try (collectPrefixItems readNode root (in_num i) typeXattrItem);
  match r with
  | Ok items => sm_lift (xattr_map items [])
  | Err e => if is_not_found e then mret [] else sm_fail e
  | Panic => sm_lift Panic
  | NoFuel => sm_lift NoFuel
  end.
End Lookup.

(** ** The operations *)
Section Api.
Context `{SafeIO} `{Decoders} {D : Type} `{RW : ReaderWriterAt D} `{BD : BlockDev D} `{Clock} (partOff dev : Z).
Abbreviation F := (SM (openFS D)).

(** [r := fs.reader()] and a read through it. *)
Definition cached {A} (f : (Z -> SM (option cachedReader) bytes) -> (Z -> Z -> outcome bytes) -> superblock -> Z -> SM (option cachedReader) A)
    : F A := fun fs =>
  let w := of_tx fs in
  let sb := tx_sb w in
  let dev := ReadAt (st_dev (tx_cow w)) in
  let '(c, r) := f (readNode dev partOff sb) dev sb (tx_root w) (Some (reader (of_cache fs) (sb_generation sb))) in
  (OpenFS w c, r).
(** [defer fs.invalidateCache()] and a change of the file system. *)
Definition mutating {A} (m : SM (txState D) A) : F A := fun fs =>
  let '(w, r) := m (of_tx fs) in (OpenFS w (invalidateCache (of_cache fs)), r).
(** A call that reads the device itself. *)
Definition direct {A} (m : SM (txState D) A) : F A := fun fs =>
  let '(w, r) := m (of_tx fs) in (OpenFS w (of_cache fs), r).

Definition FS_ReadFile (p : bytes) : F bytes := cached (fun rd ra sb root => read_file rd ra dev partOff sb root p).
Definition FS_ListDir (p : bytes) : F (list dirEntry) := cached (fun rd _ _ root => list_dir rd root p).
Definition FS_Stat (p : bytes) : F (Z * Z * Z) := cached (fun rd _ _ root => stat rd root p).
Definition FS_ReadLink (p : bytes) : F bytes := cached (fun rd ra sb root => read_link rd ra dev partOff sb root p).
Definition FS_GetXattr (p name : bytes) : F bytes := cached (fun rd _ _ root => get_xattr rd root p name).
Definition FS_Xattrs (p : bytes) : F (list (bytes * bytes)) := cached (fun rd _ _ root => xattrs rd root p).
Definition FS_OpenFile (p : bytes) : F btrfsFile := cached (fun rd _ _ root => openBtrfsFile rd root p).
Definition FS_ExtendedStat (p : bytes) : F InodeStat := direct (ExtendedStat partOff p).

Definition FS_WriteFile (p data : bytes) (perm : Z) : F unit := mutating (writeFile partOff p data perm).
Definition FS_MkDir (p : bytes) (perm : Z) : F unit := mutating (makeDir partOff p perm).
Definition FS_DeleteFile (p : bytes) : F unit := mutating (deleteFile partOff p).
Definition FS_DeleteDir (fuel : nat) (p : bytes) : F unit := mutating (deleteDir partOff fuel p).
Definition FS_Rename (oldPath newPath : bytes) : F unit := mutating (renameEntry partOff oldPath newPath).
Definition FS_Link (oldPath newPath : bytes) : F unit := mutating (linkInode partOff oldPath newPath).
Definition FS_Symlink (target linkPath : bytes) : F unit := mutating (symlinkInode partOff target linkPath).
Definition FS_Chown (p : bytes) (uid gid : Z) : F unit := mutating (chownInode partOff p uid gid).
Definition FS_Chmod (p : bytes) (perm : Z) : F unit := mutating (chmodInode partOff p perm).
Definition FS_Chtimes (p : bytes) (atime mtime : timespec) : F unit := mutating (chtimesInode partOff p atime mtime).
(** A negative size is refused before the cache is dropped. *)
Definition FS_Truncate (p : bytes) (newSize : Z) : F unit :=
  if newSize <? 0 then sm_fail ErrOther else mutating (truncateInode partOff p (u64 newSize)).
Definition FS_SetXattr (p name value : bytes) : F unit := mutating (setXattrInode partOff p name value).
Definition FS_RemoveXattr (p name : bytes) : F unit := mutating (removeXattrInode partOff p name).
Definition FS_Grow (n : Z) : F unit := if n <? 0 then sm_fail ErrOther else mutating (Grow partOff n).
Definition FS_Shrink (n : Z) : F unit := if n <? 0 then sm_fail ErrOther else mutating (Shrink partOff n).
Definition FS_Resize (n : Z) : F unit :=
  if n <? 0 then sm_fail ErrOther else
  cur ← sm_gets (fun fs => i64 (sb_totalBytes (tx_sb (of_tx fs))));
  if n =? cur then mret tt else
  if cur <? n then FS_Grow n else FS_Shrink n.

(** A handle keeps the items it was opened with and reads the device. *)
Definition File_ReadAt (f : btrfsFile) (len off : Z) : F (bytes * bool) :=
  direct (fun w => (w, file_ReadAt (ReadAt (st_dev (tx_cow w))) dev partOff (tx_sb w) f len off)).

(** Subvolumes: found on the device, read through the cache of the parent. *)
Section Views.
Context (order : gmap Z rootInfo -> list (Z * rootInfo)).
Definition FS_Subvolumes : F (list Subvolume) :=
  direct (tx_lift (fun sb => enumerateSubvolumes (node_read partOff sb) sb order)).
Definition FS_OpenSubvolumeByID (id : Z) : F subvolView :=
  direct (tx_lift (fun sb => OpenSubvolumeByID (node_read partOff sb) sb order id)).
Definition FS_OpenSubvolumeByName (name : bytes) : F subvolView :=
  direct (tx_lift (fun sb => OpenSubvolumeByName (node_read partOff sb) sb order name)).
End Views.
Definition View_ReadFile (v : subvolView) (p : bytes) : F bytes := cached (fun rd ra sb _ => view_ReadFile rd ra dev partOff sb v p).
Definition View_ListDir (v : subvolView) (p : bytes) : F (list dirEntry) := cached (fun rd _ _ _ => view_ListDir rd v p).
Definition View_Stat (v : subvolView) (p : bytes) : F (Z * Z * Z) := cached (fun rd _ _ _ => view_Stat rd v p).
Definition View_ReadLink (v : subvolView) (p : bytes) : F bytes := cached (fun rd ra sb _ => view_ReadLink rd ra dev partOff sb v p).
End Api.

(** ** The cache does not show *)

(** Every read above is written for any node reader: through a reader that behaves as
    a function of the address it has the outcome it has with that function. *)
Lemma sm_refines_try {S A} (inv : S -> Prop) (m : SM S A) o : sm_refines inv m o -> sm_refines inv (sm_try m) (Ok o).
Proof. intros Hm s Hs. unfold sm_try. destruct (Hm s Hs) as [E Hi]. destruct (m s) as [s' r]. cbn in *. by subst. Qed.
Lemma sm_run_try {A} (m : SM unit A) : sm_run (sm_try m) = Ok (sm_run m).
Proof. unfold sm_run, sm_try. by destruct (m tt) as [[] o]. Qed.

Section Like.
Context `{SafeIO} `{Decoders} {S : Type} (inv : S -> Prop) (rdn : Z -> SM S bytes) (rn : Z -> outcome bytes).
Context {HR : ReaderLike inv rdn rn}.
Context (ReadAt : Z -> Z -> outcome bytes) (dev partOff : Z) (sb : superblock) (root : Z).
Abbreviation pr := (pure_reader rn).

Lemma searchTree_like o t f : sm_refines inv (searchTree rdn root o t f) (sm_run (searchTree pr root o t f)).
Proof using HR. apply (searchTree_loop_like inv rdn rn). Qed.
Lemma prefix_like o t : sm_refines inv (collectPrefixItems rdn root o t) (sm_run (collectPrefixItems pr root o t)).
Proof using HR. apply (collectPrefixItems_like inv rdn rn). Qed.

Ltac like_bind := rewrite ?sm_run_bind; apply sm_refines_bind; [|intros ? _].
Ltac like_try := rewrite ?sm_run_try; apply sm_refines_try.

Lemma readInode_like ino : sm_refines inv (readInode rdn root ino) (sm_run (readInode pr root ino)).
Proof using HR. unfold readInode. like_bind; [apply searchTree_like|]. destruct a as [buf it]. apply sm_refines_lift. Qed.

Lemma lookupDirEntry_like dirIno name : sm_refines inv (lookupDirEntry rdn root dirIno name) (sm_run (lookupDirEntry pr root dirIno name)).
Proof using HR.
  unfold lookupDirEntry. like_bind; [like_try; apply searchTree_like|]. like_bind; [apply sm_refines_lift|].
  destruct a0 as [r|]; [apply sm_refines_ret|]. like_bind; [like_try; apply prefix_like|]. like_bind; [apply sm_refines_lift|].
  destruct a1; [apply sm_refines_ret|apply sm_refines_fail].
Qed.
Lemma walk_path_like parts cur : sm_refines inv (walk_path rdn root parts cur) (sm_run (walk_path pr root parts cur)).
Proof using HR.
  revert cur. induction parts as [|name parts IH]; intros cur; cbn [walk_path]; [apply sm_refines_ret|].
  like_bind; [apply lookupDirEntry_like|]. apply IH.
Qed.
Lemma pathLookup_like p : sm_refines inv (pathLookup rdn root p) (sm_run (pathLookup pr root p)).
Proof using HR.
  unfold pathLookup. destruct (_ || _); [apply readInode_like|]. like_bind; [apply walk_path_like|apply readInode_like].
Qed.
Lemma readDir_like ino : sm_refines inv (readDir rdn root ino) (sm_run (readDir pr root ino)).
Proof using HR.
  unfold readDir. like_bind; [like_try; apply prefix_like|]. destruct a; first [apply sm_refines_lift|apply sm_refines_ret].
Qed.
Lemma readFileData_like i :
  sm_refines inv (readFileData rdn ReadAt dev partOff sb root i) (sm_run (readFileData pr ReadAt dev partOff sb root i)).
Proof using HR.
  unfold readFileData. destruct (_ =? 0); [apply sm_refines_ret|]. like_bind; [apply prefix_like|apply sm_refines_lift].
Qed.

Lemma read_file_like p : sm_refines inv (read_file rdn ReadAt dev partOff sb root p) (sm_run (read_file pr ReadAt dev partOff sb root p)).
Proof using HR. unfold read_file. like_bind; [apply pathLookup_like|]. destruct (negb _); [apply sm_refines_fail|apply readFileData_like]. Qed.
Lemma list_dir_like p : sm_refines inv (list_dir rdn root p) (sm_run (list_dir pr root p)).
Proof using HR. unfold list_dir. like_bind; [apply pathLookup_like|]. destruct (negb _); [apply sm_refines_fail|apply readDir_like]. Qed.
Lemma stat_like p : sm_refines inv (stat rdn root p) (sm_run (stat pr root p)).
Proof using HR. unfold stat. like_bind; [apply pathLookup_like|apply sm_refines_ret]. Qed.
Lemma read_link_like p : sm_refines inv (read_link rdn ReadAt dev partOff sb root p) (sm_run (read_link pr ReadAt dev partOff sb root p)).
Proof using HR. unfold read_link. like_bind; [apply pathLookup_like|]. destruct (negb _); [apply sm_refines_fail|apply readFileData_like]. Qed.
Lemma get_xattr_like p name : sm_refines inv (get_xattr rdn root p name) (sm_run (get_xattr pr root p name)).
Proof using HR.
  unfold get_xattr. like_bind; [apply pathLookup_like|]. like_bind; [apply searchTree_like|]. destruct a0 as [buf it].
  like_bind; [apply sm_refines_lift|]. destruct a0 as [[n v]|]; [|apply sm_refines_fail]. destruct (bool_decide _); auto with btrfs.
Qed.
Lemma xattrs_like p : sm_refines inv (xattrs rdn root p) (sm_run (xattrs pr root p)).
Proof using HR.
  unfold xattrs. like_bind; [apply pathLookup_like|]. like_bind; [like_try; apply prefix_like|].
  destruct a0 as [items|e| |]; try apply sm_refines_lift. destruct (is_not_found e); auto with btrfs.
Qed.
Lemma openBtrfsFile_like p : sm_refines inv (openBtrfsFile rdn root p) (sm_run (openBtrfsFile pr root p)).
Proof using HR.
  unfold openBtrfsFile. like_bind; [apply pathLookup_like|]. destruct (negb _); [apply sm_refines_fail|].
  destruct (_ =? 0); [apply sm_refines_ret|]. like_bind; [apply prefix_like|]. like_bind; [apply sm_refines_lift|apply sm_refines_ret].
Qed.
End Like.

(** ** Sessions *)
Inductive op :=
  | OReadFile (p : bytes) | OListDir (p : bytes) | OStat (p : bytes) | OReadLink (p : bytes)
  | OGetXattr (p name : bytes) | OXattrs (p : bytes) | OExtendedStat (p : bytes)
  | OOpenFile (p : bytes) | OReadAt (f : btrfsFile) (len off : Z)
  | OWriteFile (p data : bytes) (perm : Z) | OMkDir (p : bytes) (perm : Z) | ODeleteFile (p : bytes) | ODeleteDir (fuel : nat) (p : bytes)
  | ORename (oldPath newPath : bytes) | OLink (oldPath newPath : bytes) | OSymlink (target linkPath : bytes)
  | OChown (p : bytes) (uid gid : Z) | OChmod (p : bytes) (perm : Z) | OChtimes (p : bytes) (atime mtime : timespec)
  | OTruncate (p : bytes) (newSize : Z) | OSetXattr (p name value : bytes) | ORemoveXattr (p name : bytes)
  | OGrow (n : Z) | OShrink (n : Z) | OResize (n : Z)
  | OSubvolumes | OOpenSubvolumeByID (id : Z) | OOpenSubvolumeByName (name : bytes)
  | OViewReadFile (v : subvolView) (p : bytes) | OViewListDir (v : subvolView) (p : bytes)
  | OViewStat (v : subvolView) (p : bytes) | OViewReadLink (v : subvolView) (p : bytes).
Inductive value :=
  | VUnit | VBytes (b : bytes) | VEntries (l : list dirEntry) | VStat (s : Z * Z * Z) | VXattrs (l : list (bytes * bytes))
  | VInode (s : InodeStat) | VFile (f : btrfsFile) | VRead (r : bytes * bool) | VSubvolumes (l : list Subvolume) | VView (v : subvolView).

Definition give {S A} (f : A -> value) (m : SM S A) : SM S value := a ← m; mret (f a).
Definition unit_v (_ : unit) : value := VUnit.

(** The calls of a program one after the other, and what they return. *)
Fixpoint session {S} (run : op -> SM S value) (ops : list op) (s : S) : S * list (outcome value) :=
  match ops with
  | [] => (s, [])
  | o :: ops => let '(s, r) := run o s in let '(s, rs) := session run ops s in (s, r :: rs)
  end.

Section Session.
Context `{SafeIO} `{Decoders} {D : Type} `{RW : ReaderWriterAt D} `{BD : BlockDev D} `{Clock} (partOff dev : Z).
Context (order : gmap Z rootInfo -> list (Z * rootInfo)).

Definition run_op (o : op) : SM (openFS D) value :=
  match o with
  | OReadFile p => give VBytes (FS_ReadFile partOff dev p)
  | OListDir p => give VEntries (FS_ListDir partOff p)
  | OStat p => give VStat (FS_Stat partOff p)
  | OReadLink p => give VBytes (FS_ReadLink partOff dev p)
  | OGetXattr p name => give VBytes (FS_GetXattr partOff p name)
  | OXattrs p => give VXattrs (FS_Xattrs partOff p)
  | OExtendedStat p => give VInode (FS_ExtendedStat partOff p)
  | OOpenFile p => give VFile (FS_OpenFile partOff p)
  | OReadAt f len off => give VRead (File_ReadAt partOff dev f len off)
  | OWriteFile p data perm => give unit_v (FS_WriteFile partOff p data perm)
  | OMkDir p perm => give unit_v (FS_MkDir partOff p perm)
  | ODeleteFile p => give unit_v (FS_DeleteFile partOff p)
  | ODeleteDir fuel p => give unit_v (FS_DeleteDir partOff fuel p)
  | ORename a b => give unit_v (FS_Rename partOff a b)
  | OLink a b => give unit_v (FS_Link partOff a b)
  | OSymlink a b => give unit_v (FS_Symlink partOff a b)
  | OChown p uid gid => give unit_v (FS_Chown partOff p uid gid)
  | OChmod p perm => give unit_v (FS_Chmod partOff p perm)
  | OChtimes p a m => give unit_v (FS_Chtimes partOff p a m)
  | OTruncate p n => give unit_v (FS_Truncate partOff p n)
  | OSetXattr p name v => give unit_v (FS_SetXattr partOff p name v)
  | ORemoveXattr p name => give unit_v (FS_RemoveXattr partOff p name)
  | OGrow n => give unit_v (FS_Grow partOff n)
  | OShrink n => give unit_v (FS_Shrink partOff n)
  | OResize n => give unit_v (FS_Resize partOff n)
  | OSubvolumes => give VSubvolumes (FS_Subvolumes partOff order)
  | OOpenSubvolumeByID id => give VView (FS_OpenSubvolumeByID partOff order id)
  | OOpenSubvolumeByName name => give VView (FS_OpenSubvolumeByName partOff order name)
  | OViewReadFile v p => give VBytes (View_ReadFile partOff dev v p)
  | OViewListDir v p => give VEntries (View_ListDir partOff v p)
  | OViewStat v p => give VStat (View_Stat partOff v p)
  | OViewReadLink v p => give VBytes (View_ReadLink partOff dev v p)
  end.

(** The same calls on a file system that reads every node from the device. *)
Definition uncached {A} (f : (Z -> SM (cowState D) bytes) -> (Z -> Z -> outcome bytes) -> superblock -> Z -> SM (cowState D) A)
    : SM (txState D) A := fun w =>
  tx_lift (fun sb s => f (node_read partOff sb) (ReadAt (st_dev s)) sb (tx_root w) s) w.
Definition plain_op (o : op) : SM (txState D) value :=
  match o with
  | OReadFile p => give VBytes (ReadFile partOff dev p)
  | OListDir p => give VEntries (ListDir partOff p)
  | OStat p => give VStat (Stat partOff p)
  | OReadLink p => give VBytes (ReadLink partOff dev p)
  | OGetXattr p name => give VBytes (getXattrInode partOff p name)
  | OXattrs p => give VXattrs (Xattrs partOff p)
  | OExtendedStat p => give VInode (ExtendedStat partOff p)
  | OOpenFile p => give VFile (uncached (fun rd _ _ root => openBtrfsFile rd root p))
  | OReadAt f len off => give VRead (fun w => (w, file_ReadAt (ReadAt (st_dev (tx_cow w))) dev partOff (tx_sb w) f len off))
  | OWriteFile p data perm => give unit_v (writeFile partOff p data perm)
  | OMkDir p perm => give unit_v (makeDir partOff p perm)
  | ODeleteFile p => give unit_v (deleteFile partOff p)
  | ODeleteDir fuel p => give unit_v (deleteDir partOff fuel p)
  | ORename a b => give unit_v (renameEntry partOff a b)
  | OLink a b => give unit_v (linkInode partOff a b)
  | OSymlink a b => give unit_v (symlinkInode partOff a b)
  | OChown p uid gid => give unit_v (chownInode partOff p uid gid)
  | OChmod p perm => give unit_v (chmodInode partOff p perm)
  | OChtimes p a m => give unit_v (chtimesInode partOff p a m)
  | OTruncate p n => give unit_v (Truncate partOff p n)
  | OSetXattr p name v => give unit_v (setXattrInode partOff p name v)
  | ORemoveXattr p name => give unit_v (removeXattrInode partOff p name)
  | OGrow n => give unit_v (Grow partOff n)
  | OShrink n => give unit_v (Shrink partOff n)
  | OResize n => give unit_v (Resize partOff n)
  | OSubvolumes => give VSubvolumes (tx_lift (fun sb => enumerateSubvolumes (node_read partOff sb) sb order))
  | OOpenSubvolumeByID id => give VView (tx_lift (fun sb => OpenSubvolumeByID (node_read partOff sb) sb order id))
  | OOpenSubvolumeByName name => give VView (tx_lift (fun sb => OpenSubvolumeByName (node_read partOff sb) sb order name))
  | OViewReadFile v p => give VBytes (uncached (fun rd ra sb _ => view_ReadFile rd ra dev partOff sb v p))
  | OViewListDir v p => give VEntries (uncached (fun rd _ _ _ => view_ListDir rd v p))
  | OViewStat v p => give VStat (uncached (fun rd _ _ _ => view_Stat rd v p))
  | OViewReadLink v p => give VBytes (uncached (fun rd ra sb _ => view_ReadLink rd ra dev partOff sb v p))
  end.

(** Every node in the cache is the device's. *)
Definition fs_coherent (fs : openFS D) : Prop :=
  coherent (ReadAt (st_dev (tx_cow (of_tx fs)))) partOff (tx_sb (of_tx fs)) (of_cache fs).

(** One call with and without the cache. *)
Definition same_step {A} (m : SM (openFS D) A) (m' : SM (txState D) A) : Prop := forall fs, fs_coherent fs ->
  exists fs' r, m fs = (fs', r) /\ fs_coherent fs' /\ m' (of_tx fs) = (of_tx fs', r).

Lemma same_give {A} (f : A -> value) m m' : same_step m m' -> same_step (give f m) (give f m').
Proof using.
  intros Hm fs Hc. destruct (Hm fs Hc) as (fs'&r&E&Hc'&E'). unfold give, mbind, SM_bind. rewrite E, E'. destruct r; by do 2 eexists.
Qed.
Lemma same_mutating {A} (m : SM (txState D) A) : same_step (mutating m) m.
Proof using. intros fs _. unfold mutating. destruct (m (of_tx fs)) as [w r]. by do 2 eexists. Qed.
Lemma same_fail {A} e : same_step (A := A) (sm_fail e) (sm_fail e).
Proof using. intros fs Hc. by do 2 eexists. Qed.

(** A call that leaves the transaction state alone keeps the cache coherent. *)
Lemma same_direct {A} (m : SM (txState D) A) : (forall w, (m w).1 = w) -> same_step (direct m) m.
Proof using.
  intros Hm fs Hc. unfold direct. specialize (Hm (of_tx fs)). destruct (m (of_tx fs)) as [w r]. cbn [fst] in Hm. subst w. by do 2 eexists.
Qed.

Lemma reader_coherent (fs : openFS D) : fs_coherent fs ->
  coherent (ReadAt (st_dev (tx_cow (of_tx fs)))) partOff (tx_sb (of_tx fs)) (Some (reader (of_cache fs) (sb_generation (tx_sb (of_tx fs))))).
Proof using.
  intros Hc. unfold reader, fs_coherent in *. destruct (of_cache fs) as [c|]; [|apply coherent_new]. destruct (negb _); [apply coherent_new|done].
Qed.

(** A read that does not depend on the reader. *)
Definition any_reader {A} (f : forall S, (Z -> SM S bytes) -> (Z -> Z -> outcome bytes) -> superblock -> Z -> SM S A) : Prop :=
  forall S (inv : S -> Prop) rdn rn ra sb root, ReaderLike inv rdn rn ->
    sm_refines inv (f S rdn ra sb root) (sm_run (f unit (pure_reader rn) ra sb root)).

#[local] Instance node_read_like' sb (s : cowState D) : ReaderLike (fun s' => s' = s) (node_read partOff sb) (rn partOff sb s).
Proof. intros a s' ->. done. Qed.

Lemma uncached_run {A} (f : forall S, (Z -> SM S bytes) -> (Z -> Z -> outcome bytes) -> superblock -> Z -> SM S A) (w : txState D) :
  any_reader f -> uncached (f (cowState D)) w =
    (w, sm_run (f unit (pure_reader (rn partOff (tx_sb w) (tx_cow w))) (ReadAt (st_dev (tx_cow w))) (tx_sb w) (tx_root w))).
Proof using.
  intros Hf. unfold uncached, tx_lift.
  destruct (Hf _ _ _ _ (ReadAt (st_dev (tx_cow w))) (tx_sb w) (tx_root w) (node_read_like' (tx_sb w) (tx_cow w)) (tx_cow w) eq_refl) as [E1 E2].
  destruct (f _ _ _ _ _ (tx_cow w)) as [s r]. cbn in *. subst. by destruct w.
Qed.
Lemma same_cached {A} (f : forall S, (Z -> SM S bytes) -> (Z -> Z -> outcome bytes) -> superblock -> Z -> SM S A) :
  any_reader f -> same_step (cached partOff (f (option cachedReader))) (uncached (f (cowState D))).
Proof using.
  intros Hf fs Hc. rewrite uncached_run by done. unfold cached.
  destruct (Hf _ _ _ _ (ReadAt (st_dev (tx_cow (of_tx fs)))) (tx_sb (of_tx fs)) (tx_root (of_tx fs))
    (readNode_like (ReadAt (st_dev (tx_cow (of_tx fs)))) partOff (tx_sb (of_tx fs))) _ (reader_coherent fs Hc)) as [E1 E2].
  destruct (f _ _ _ _ _ (Some _)) as [c r]. cbn [fst snd] in *. do 2 eexists. split; [done|]. split; [exact E2|]. by subst.
Qed.
Lemma same_eq {A} (m : SM (openFS D) A) m1 m2 : same_step m m1 -> (forall w, m2 w = m1 w) -> same_step m m2.
Proof using. intros Hm He fs Hc. rewrite He. by apply Hm. Qed.

(** The operations of the transaction state read as the ones above do. *)
Abbreviation pure w := (pure_reader (rn partOff (tx_sb w) (tx_cow w))).
Lemma path_run p (w : txState D) : fs_path partOff p w = (w, sm_run (pathLookup (pure w) (tx_root w) p)).
Proof using. apply (uncached_run (fun S rd _ _ root => pathLookup rd root p)). intros S inv rdn rn' ra sb root HR. by apply pathLookup_like. Qed.
Lemma prefix_run o t (w : txState D) : fs_prefix partOff o t w = (w, sm_run (collectPrefixItems (pure w) (tx_root w) o t)).
Proof using. apply (uncached_run (fun S rd _ _ root => collectPrefixItems rd root o t)). intros S inv rdn rn' ra sb root HR. by apply prefix_like. Qed.
Lemma search_run k (w : txState D) :
  fs_search partOff k w = (w, sm_run (searchTree (pure w) (tx_root w) (objID k) (typ k) (offset k))).
Proof using. apply (uncached_run (fun S rd _ _ root => searchTree rd root (objID k) (typ k) (offset k))). intros S inv rdn rn' ra sb root HR. by apply searchTree_like. Qed.
Lemma data_run i (w : txState D) :
  fs_file_data partOff dev i w = (w, sm_run (readFileData (pure w) (ReadAt (st_dev (tx_cow w))) dev partOff (tx_sb w) (tx_root w) i)).
Proof using.
  apply (uncached_run (fun S rd ra sb root => readFileData rd ra dev partOff sb root i)). intros S inv rdn rn' ra sb root HR. by apply readFileData_like.
Qed.
Lemma readDir_run ino (w : txState D) : fs_readDir partOff ino w = (w, sm_run (readDir (pure w) (tx_root w) ino)).
Proof using. apply (uncached_run (fun S rd _ _ root => readDir rd root ino)). intros S inv rdn rn' ra sb root HR. by apply readDir_like. Qed.

(** A step with a known outcome, and the pure computation beside it. *)
Lemma bind_run {A B} (m : SM (txState D) A) (o : outcome A) (f : A -> SM (txState D) B) (g : A -> SM unit B) w :
  m w = (w, o) -> (forall a, f a w = (w, sm_run (g a))) -> (m ≫= f) w = (w, o ≫= fun a => sm_run (g a)).
Proof using. intros E Hf. unfold mbind, SM_bind, outcome_bind. rewrite E. by destruct o. Qed.

Ltac run_bind := rewrite sm_run_bind; apply bind_run; [|intros ?].
Ltac by_reader := intros ? ? ? ? ? ? ? ?.

Lemma ReadFile_plain p (w : txState D) : ReadFile partOff dev p w = uncached (fun rd ra sb root => read_file rd ra dev partOff sb root p) w.
Proof using.
  rewrite (uncached_run (fun S rd ra sb root => read_file rd ra dev partOff sb root p)) by (by_reader; by apply read_file_like).
  unfold ReadFile, read_file. run_bind; [apply path_run|]. destruct (negb _); [done|apply data_run].
Qed.
Lemma ReadLink_plain p (w : txState D) : ReadLink partOff dev p w = uncached (fun rd ra sb root => read_link rd ra dev partOff sb root p) w.
Proof using.
  rewrite (uncached_run (fun S rd ra sb root => read_link rd ra dev partOff sb root p)) by (by_reader; by apply read_link_like).
  unfold ReadLink, read_link. run_bind; [apply path_run|]. destruct (negb _); [done|apply data_run].
Qed.
Lemma ListDir_plain p (w : txState D) : ListDir partOff p w = uncached (fun rd _ _ root => list_dir rd root p) w.
Proof using.
  rewrite (uncached_run (fun S rd _ _ root => list_dir rd root p)) by (by_reader; by apply list_dir_like).
  unfold ListDir, list_dir. run_bind; [apply path_run|]. destruct (negb _); [done|apply readDir_run].
Qed.
Lemma Stat_plain p (w : txState D) : Stat partOff p w = uncached (fun rd _ _ root => stat rd root p) w.
Proof using.
  rewrite (uncached_run (fun S rd _ _ root => stat rd root p)) by (by_reader; by apply stat_like).
  unfold Stat, stat. by run_bind; [apply path_run|].
Qed.
Lemma GetXattr_plain p name (w : txState D) : getXattrInode partOff p name w = uncached (fun rd _ _ root => get_xattr rd root p name) w.
Proof using.
  rewrite (uncached_run (fun S rd _ _ root => get_xattr rd root p name)) by (by_reader; by apply get_xattr_like).
  unfold getXattrInode, get_xattr. run_bind; [apply path_run|]. run_bind; [apply search_run|]. destruct a0 as [buf it].
  run_bind; [done|]. destruct a0 as [[n v]|]; [|done]. by destruct (bool_decide _).
Qed.
Lemma Xattrs_plain p (w : txState D) : Xattrs partOff p w = uncached (fun rd _ _ root => xattrs rd root p) w.
Proof using.
  rewrite (uncached_run (fun S rd _ _ root => xattrs rd root p)) by (by_reader; by apply xattrs_like).
  unfold Xattrs, xattrs. run_bind; [apply path_run|]. rewrite sm_run_bind, sm_run_try. apply bind_run.
  - unfold sm_try. by rewrite prefix_run.
  - intros r. destruct r as [items|e| |]; try done. by destruct (is_not_found e).
Qed.
Lemma ExtendedStat_keeps p (w : txState D) : (ExtendedStat partOff p w).1 = w.
Proof using.
  unfold ExtendedStat, mbind, SM_bind. rewrite path_run. destruct (sm_run _) as [i| | |]; try done. rewrite search_run.
  by destruct (sm_run _) as [[buf it]| | |].
Qed.

(** Reads of the device leave the state alone. *)
Definition keeps {S A} (m : SM S A) : Prop := forall s, (m s).1 = s.
Lemma keeps_bind {S A B} (m : SM S A) (f : A -> SM S B) : keeps m -> (forall a, keeps (f a)) -> keeps (m ≫= f).
Proof using.
  intros Hm Hf s. specialize (Hm s). unfold mbind, SM_bind. destruct (m s) as [s' [a| | |]]; cbn in *; subst; try done. apply Hf.
Qed.
Lemma keeps_lift {S A} (o : outcome A) : keeps (S := S) (sm_lift o).
Proof using. by intros s. Qed.
Lemma walkAll_keeps {A} sb fuel seen g st (visit : A -> bytes -> leafItem -> outcome (A * bool)) acc :
  keeps (S := cowState D) (walkAllLeaves_loop (node_read partOff sb) fuel seen g st visit acc).
Proof using.
  revert seen g st acc. induction fuel as [|fuel IH]; intros seen g st acc; destruct st as [|[a d] st]; cbn [walkAllLeaves_loop];
    try (destruct (maxBtreeDepth <? d)); try (by intros s).
  do 3 (apply keeps_bind; [by intros s|intros ?]). apply keeps_bind; [apply keeps_lift|intros hdr].
  destruct (hdr_level hdr =? 0); (apply keeps_bind; [apply keeps_lift|intros ?]); [|apply IH].
  apply keeps_bind; [apply keeps_lift|]. intros [acc' []]; [apply IH|by intros s].
Qed.
Lemma enumerate_keeps sb : keeps (S := cowState D) (enumerateSubvolumes (node_read partOff sb) sb order).
Proof using. apply keeps_bind; [apply walkAll_keeps|]. by intros m s. Qed.
Lemma lift_keeps {A} (f : superblock -> SM (cowState D) A) : (forall sb, keeps (f sb)) -> keeps (tx_lift f).
Proof using. intros Hf w. unfold tx_lift. specialize (Hf (tx_sb w) (tx_cow w)). destruct (f _ _) as [s r]. cbn in *. subst. by destruct w. Qed.

Lemma same_nonneg {A} n (m : SM (txState D) A) : (forall w, n < 0 -> m w = (w, Err ErrOther)) ->
  same_step (if n <? 0 then sm_fail ErrOther else mutating m) m.
Proof using.
  intros Hm. destruct (Z.ltb_spec n 0); [|apply same_mutating]. eapply same_eq; [apply same_fail|]. intros w. by rewrite Hm.
Qed.
Lemma Grow_step n : same_step (FS_Grow partOff n) (Grow partOff n).
Proof using. apply same_nonneg. intros w Hn. unfold Grow. by rewrite (proj2 (Z.ltb_lt n 0)). Qed.
Lemma Shrink_step n : same_step (FS_Shrink partOff n) (Shrink partOff n).
Proof using. apply same_nonneg. intros w Hn. unfold Shrink. by rewrite (proj2 (Z.ltb_lt n 0)). Qed.
Lemma Resize_step n : same_step (FS_Resize partOff n) (Resize partOff n).
Proof using.
  intros fs Hc. rewrite Resize_eq. unfold FS_Resize. destruct (n <? 0); [by do 2 eexists|].
  rewrite (sm_bind_Ok _ _ _ fs (i64 (sb_totalBytes (tx_sb (of_tx fs))))) by done. destruct (n =? _); [by do 2 eexists|].
  destruct (_ <? n); [by apply Grow_step|by apply Shrink_step].
Qed.

Lemma step_same o : same_step (run_op o) (plain_op o).
Proof using.
  destruct o; cbn [run_op plain_op]; apply same_give; try apply same_mutating.
  - eapply same_eq; [|apply ReadFile_plain]. apply (same_cached (fun S rd ra sb root => read_file rd ra dev partOff sb root p)). by_reader. by apply read_file_like.
  - eapply same_eq; [|apply ListDir_plain]. apply (same_cached (fun S rd _ _ root => list_dir rd root p)). by_reader. by apply list_dir_like.
  - eapply same_eq; [|apply Stat_plain]. apply (same_cached (fun S rd _ _ root => stat rd root p)). by_reader. by apply stat_like.
  - eapply same_eq; [|apply ReadLink_plain]. apply (same_cached (fun S rd ra sb root => read_link rd ra dev partOff sb root p)). by_reader. by apply read_link_like.
  - eapply same_eq; [|apply GetXattr_plain]. apply (same_cached (fun S rd _ _ root => get_xattr rd root p name)). by_reader. by apply get_xattr_like.
  - eapply same_eq; [|apply Xattrs_plain]. apply (same_cached (fun S rd _ _ root => xattrs rd root p)). by_reader. by apply xattrs_like.
  - apply same_direct. intros w. apply ExtendedStat_keeps.
  - apply (same_cached (fun S rd _ _ root => openBtrfsFile rd root p)). by_reader. by apply openBtrfsFile_like.
  - by apply same_direct.
  - unfold FS_Truncate, Truncate. destruct (newSize <? 0); [apply same_fail|apply same_mutating].
  - apply Grow_step.
  - apply Shrink_step.
  - apply Resize_step.
  - apply same_direct, lift_keeps. intros sb. apply enumerate_keeps.
  - apply same_direct, lift_keeps. intros sb. apply keeps_bind; [apply enumerate_keeps|intros subs; apply keeps_lift].
  - apply same_direct, lift_keeps. intros sb. apply keeps_bind; [apply enumerate_keeps|intros subs; apply keeps_lift].
  - apply (same_cached (fun S rd ra sb _ => view_ReadFile rd ra dev partOff sb v p)). by_reader. by apply read_file_like.
  - apply (same_cached (fun S rd _ _ _ => view_ListDir rd v p)). by_reader. by apply list_dir_like.
  - apply (same_cached (fun S rd _ _ _ => view_Stat rd v p)). by_reader. by apply stat_like.
  - apply (same_cached (fun S rd ra sb _ => view_ReadLink rd ra dev partOff sb v p)). by_reader. by apply read_link_like.
Qed.

Lemma session_same ops (fs : openFS D) : fs_coherent fs ->
  exists fs' rs, session run_op ops fs = (fs', rs) /\ fs_coherent fs' /\ session plain_op ops (of_tx fs) = (of_tx fs', rs).
Proof using.
  revert fs. induction ops as [|o ops IH]; intros fs Hc; cbn [session]; [by do 2 eexists|].
  destruct (step_same o fs Hc) as (fs1&r&E1&Hc1&E1'). rewrite E1, E1'. destruct (IH fs1 Hc1) as (fs2&rs&E2&Hc2&E2').
  rewrite E2, E2'. by do 2 eexists.
Qed.
End Session.

(** C4. The node cache never shows.  Whatever calls a program makes after the mount, reads
    and writes in any order, views of subvolumes and open handles included, every call
    returns what it returns on a file system that reads every node from the device, the
    device, the free list, the superblock and the tree root end up the same, and every
    node in the cache is the one on the device: no read sees a block from before a write. *)
Theorem cache_never_shows `{SafeIO} `{Decoders} {D : Type} `{RW : ReaderWriterAt D} `{BD : BlockDev D} `{Clock} (partOff dev : Z)
    (order : gmap Z rootInfo -> list (Z * rootInfo)) (w : txState D) (ops : list op) :
  let '(fs, rs) := session (run_op partOff dev order) ops (OpenFS w None) in
  session (plain_op partOff dev order) ops w = (of_tx fs, rs) /\ fs_coherent partOff fs.
Proof.
  destruct (session_same partOff dev order ops (OpenFS w None) I) as (fs'&rs&E&Hc&E'). rewrite E. done.
Qed.
