(* ===== verification/Format.v ===== *)
(** * Formatting (format.go)

    The layout of a new file system, the builders of its items, its nine blocks and
    [Format] itself.  The random bytes of the three UUIDs, the time, the outcome of
    opening and of closing the file and the answer of [Size] are parameters; the
    state is the file, opened and emptied. *)
From Stdlib Require Import ZArith Lia Strings.Byte.
From stdpp Require Import base option list numbers sorting gmap.
From S2P Require Import Prelude Bytes Alloc Layout SafeIO Chunk MultiDev Node BTree Crc32c Cow Codec Mount Extent Resize.
Local Open Scope Z_scope.
Local Open Scope btrfs_scope.

Record FormatConfig := MkFormatConfig { cfg_UUID : bytes; cfg_Label : bytes }.

Definition fmtNodeSize : Z := 4096.
Definition fmtSuperblockOff : Z := 0x10000.
Definition fmtSysChunkLogical : Z := 0x100000.
Definition fmtSysBlocks : Z := 1.
Definition fmtDataBlocks : Z := 7.
Definition fmtStripeLen : Z := 64 * 1024.
Definition headerFlagWritten : Z := 1.
Definition headerBackrefRevMixed : Z := 1.
Definition fmtDevExtentSize : Z := 48.
Definition fmtMinSizeLayout : Z := fmtSysChunkLogical + 2 * fmtStripeLen.

(** ** The layout *)
Record fmtLayout := FmtLayout {
  fl_sysChunkLogical : Z; fl_sysChunkLen : Z; fl_dataChunkLogical : Z; fl_dataChunkLen : Z;
  fl_chunkLog : Z; fl_rootLog : Z; fl_fsLog : Z; fl_extentLog : Z; fl_devLog : Z; fl_csumLog : Z; fl_uuidLog : Z;
  fl_dataRelocLog : Z; fl_bytesUsed : Z; fl_devBytesUsed : Z }.

Definition refSysLen : Z := 4 * 2 ^ 20.
Definition sys_len (imageSize : Z) : Z :=
  if imageSize <? fmtSysChunkLogical + refSysLen + fmtDataBlocks * fmtNodeSize + fmtStripeLen then fmtStripeLen else refSysLen.
Definition computeLayout (imageSize : Z) : fmtLayout :=
  let sysLen := sys_len imageSize in
  let dataStart := fmtSysChunkLogical + sysLen in
  let dataLen := (imageSize -₆₄ dataStart) / fmtStripeLen * fmtStripeLen in
  FmtLayout fmtSysChunkLogical sysLen dataStart dataLen
    fmtSysChunkLogical dataStart (dataStart + 1 * fmtNodeSize) (dataStart + 2 * fmtNodeSize)
    (dataStart + 3 * fmtNodeSize) (dataStart + 4 * fmtNodeSize) (dataStart + 5 * fmtNodeSize)
    (dataStart + 6 * fmtNodeSize) ((fmtSysBlocks + fmtDataBlocks) * fmtNodeSize) (sysLen +₆₄ dataLen).

(** ** Items *)
Definition buildDevItemBytes (imageSize devBytesUsed : Z) (devUUID fsid : bytes) : bytes :=
  let d := zeros 98 in
  let d := wr 8 d 0x00 1 in
  let d := wr 8 d 0x08 imageSize in
  let d := wr 8 d 0x10 devBytesUsed in
  let d := wr 4 d 0x18 fmtNodeSize in
  let d := wr 4 d 0x1C fmtNodeSize in
  let d := wr 4 d 0x20 fmtNodeSize in
  let d := splice d 0x42 devUUID in
  splice d 0x52 fsid.

Definition buildChunkItemBytes (length typ stripeOffset ioAlign ioWidth subStripes : Z) (devUUID : bytes) : bytes :=
  let item := zeros (chunkHeaderSize + chunkStripeSize) in
  let item := wr 8 item chunkSize length in
  let item := wr 8 item chunkRootObjID extentTreeObjID in
  let item := wr 8 item chunkStripeLen fmtStripeLen in
  let item := wr 8 item chunkType typ in
  let item := wr 4 item chunkOptIOAlign ioAlign in
  let item := wr 4 item chunkOptIOWidth ioWidth in
  let item := wr 4 item chunkMinIOSize fmtNodeSize in
  let item := wr 2 item chunkNumStripes 1 in
  let item := wr 2 item chunkSubStripes subStripes in
  let item := wr 8 item chunkStripeDevID 1 in
  let item := wr 8 item chunkStripeOffset stripeOffset in
  splice item chunkStripeDevUUID devUUID.
Definition buildSysChunkItemBytes (lay : fmtLayout) (devUUID : bytes) : bytes :=
  buildChunkItemBytes (fl_sysChunkLen lay) blockGroupSystem (fl_sysChunkLogical lay) fmtNodeSize fmtNodeSize 0 devUUID.
Definition buildDataChunkItemBytes (lay : fmtLayout) (devUUID : bytes) : bytes :=
  buildChunkItemBytes (fl_dataChunkLen lay) (Z.lor blockGroupData blockGroupMeta) (fl_dataChunkLogical lay)
    fmtStripeLen fmtStripeLen 1 devUUID.
Definition buildSysChunkItemKey (lay : fmtLayout) (devUUID : bytes) : bytes :=
  let k := zeros keySize in
  let k := wr 8 k 0 firstChunkTreeObjID in
  let k := wr 1 k 8 typeChunkItem in
  let k := wr 8 k 9 (fl_sysChunkLogical lay) in
  k ++ buildSysChunkItemBytes lay devUUID.

Definition buildRootItemBytes (dirID bytenr : Z) : bytes :=
  let ri := zeros 439 in
  let ri := wr 8 ri inodeOffNBytes fmtNodeSize in
  let ri := wr 8 ri 0xA0 1 in
  let ri := wr 8 ri 0xA8 dirID in
  let ri := wr 8 ri 0xB0 bytenr in
  let ri := wr 8 ri 0xB8 0 in
  let ri := wr 8 ri 0xC0 fmtNodeSize in
  let ri := wr 8 ri 0xC8 0 in
  let ri := wr 8 ri 0xD0 0 in
  let ri := wr 4 ri 0xD8 1 in
  let ri := wr 1 ri 0xEE 0 in
  wr 8 ri rootItemOffGenerationV2 1.

Definition buildDevExtentBytes (chunkOffset length : Z) (chunkUUID : bytes) : bytes :=
  let d := zeros fmtDevExtentSize in
  let d := wr 8 d 0 chunkTreeObjID in
  let d := wr 8 d 8 firstChunkTreeObjID in
  let d := wr 8 d 16 chunkOffset in
  let d := wr 8 d 24 length in
  splice d 32 chunkUUID.

(** The inode of a tree's root directory and its reference to itself. *)
Definition root_dir_inode (now : timespec) : bytes :=
  let rinode := zeros inodeItemSize in
  let rinode := wr 8 rinode inodeOffGeneration 1 in
  let rinode := wr 4 rinode inodeOffNLink 1 in
  let rinode := wr 4 rinode inodeOffMode 0x41ED in
  let rinode := wr 8 rinode inodeOffFlags inodeFlagNoDataSum in
  let rinode := writeBtrfsTimespec rinode inodeOffATime now in
  let rinode := writeBtrfsTimespec rinode inodeOffCTime now in
  let rinode := writeBtrfsTimespec rinode inodeOffMTime now in
  writeBtrfsTimespec rinode inodeOffOTime now.
Definition root_dir_ref : bytes :=
  let ref := zeros (8 + 2 + 2) in
  let ref := wr 8 ref 0 0 in
  let ref := wr 2 ref 8 2 in
  splice ref 10 dotdot.

(** ** The superblock *)
Definition root_backup (lay : fmtLayout) (imageSize : Z) (bk : bytes) : bytes :=
  let bk := wr 8 bk 0x00 (fl_rootLog lay) in
  let bk := wr 8 bk 0x08 1 in
  let bk := wr 8 bk 0x10 (fl_chunkLog lay) in
  let bk := wr 8 bk 0x18 1 in
  let bk := wr 8 bk 0x20 (fl_extentLog lay) in
  let bk := wr 8 bk 0x28 1 in
  let bk := wr 8 bk 0x30 (fl_fsLog lay) in
  let bk := wr 8 bk 0x38 1 in
  let bk := wr 8 bk 0x40 (fl_devLog lay) in
  let bk := wr 8 bk 0x48 1 in
  let bk := wr 8 bk 0x50 (fl_csumLog lay) in
  let bk := wr 8 bk 0x58 1 in
  let bk := wr 8 bk 0x60 imageSize in
  let bk := wr 8 bk 0x68 (fl_bytesUsed lay) in
  wr 8 bk 0x70 1.

Definition buildSuperblockBytes (uuid devUUID label : bytes) (imageSize : Z) (lay : fmtLayout) : bytes :=
  let buf := zeros sbfSize in
  let buf := splice buf sbfUUID uuid in
  let buf := wr 8 buf sbfPhysAddr fmtSuperblockOff in
  let buf := wr 8 buf sbfMagic sbMagic in
  let buf := wr 8 buf sbfGeneration 1 in
  let buf := wr 8 buf sbfFlags headerFlagWritten in
  let buf := wr 8 buf sbfRootLogAddr (fl_rootLog lay) in
  let buf := wr 8 buf sbfChunkLogAddr (fl_chunkLog lay) in
  let buf := wr 8 buf sbfTotalBytes imageSize in
  let buf := wr 8 buf sbfBytesUsed (fl_bytesUsed lay) in
  let buf := wr 8 buf sbfRootDirObjID rootDirObjID in
  let buf := wr 8 buf sbfNumDevices 1 in
  let buf := wr 4 buf sbfSectorSize fmtNodeSize in
  let buf := wr 4 buf sbfNodeSize fmtNodeSize in
  let buf := wr 4 buf sbfLeafSize fmtNodeSize in
  let buf := wr 4 buf sbfStripeSize fmtNodeSize in
  let buf := splice buf sbfDevItem (buildDevItemBytes imageSize (fl_devBytesUsed lay) devUUID uuid) in
  let buf := wr 8 buf sbfChunkRootGeneration 1 in
  let buf := wr 8 buf sbfCompatFlags 0 in
  let buf := wr 8 buf sbfCompatROFlags 0 in
  let buf := wr 8 buf sbfIncompatFlags incompatMixedFlags in
  let buf := wr 2 buf sbfCsumType csumTypeCRC32C in
  let buf := splice buf sbfLabel (take 255 label) in
  let sysEntry := buildSysChunkItemKey lay devUUID in
  let buf := splice buf sbfSysChunkArr sysEntry in
  let buf := wr 4 buf sbfSysChunkArrSz (blen sysEntry) in
  splice buf sbfRootBackups (root_backup lay imageSize (sub buf sbfRootBackups rootBackupSize)).

(** ** The leaves *)
Definition buildLeaf (uuid chunkUUID : bytes) (logAddr generation owner : Z) : bytes :=
  let buf := zeros fmtNodeSize in
  let buf := splice buf 32 uuid in
  let buf := wr 8 buf 0x30 logAddr in
  let buf := wr 8 buf 0x38 (Z.lor headerFlagWritten (Z.shiftl headerBackrefRevMixed 56)) in
  let buf := splice buf 0x40 chunkUUID in
  let buf := wr 8 buf 0x50 generation in
  let buf := wr 8 buf 0x58 owner in
  let buf := wr 4 buf 0x60 0 in
  wr 1 buf 0x64 0.

(** [_ = leafInsertItem(leaf, k, d)]: a leaf without room stays as it is. *)
Definition insert_or_keep (leaf : bytes) (r : rec) : outcome bytes :=
  match leafInsertItem leaf r.1 r.2 with
  | Err _ => Ok leaf
  | o => o
  end.
Fixpoint insert_all (leaf : bytes) (recs : list rec) : outcome bytes :=
  match recs with
  | [] => Ok leaf
  | r :: recs => leaf ← insert_or_keep leaf r; insert_all leaf recs
  end.

(** The items of each tree, in the order in which they are inserted. *)
Definition chunk_items (lay : fmtLayout) (imageSize : Z) (devUUID uuid : bytes) : list rec :=
  [(Key devItemsObjID typeDevItem 1, buildDevItemBytes imageSize (fl_devBytesUsed lay) devUUID uuid);
   (Key firstChunkTreeObjID typeChunkItem (fl_sysChunkLogical lay), buildSysChunkItemBytes lay devUUID);
   (Key firstChunkTreeObjID typeChunkItem (fl_dataChunkLogical lay), buildDataChunkItemBytes lay devUUID)].
Definition root_items (lay : fmtLayout) : list rec :=
  [(Key extentTreeObjID typeRootItem 0, buildRootItemBytes 0 (fl_extentLog lay));
   (Key devTreeObjID typeRootItem 0, buildRootItemBytes 0 (fl_devLog lay));
   (Key fsTreeObjID typeRootItem 0, buildRootItemBytes rootDirObjID (fl_fsLog lay));
   (Key csumTreeObjID typeRootItem 0, buildRootItemBytes 0 (fl_csumLog lay));
   (Key uuidTreeObjID typeRootItem 0, buildRootItemBytes 0 (fl_uuidLog lay));
   (Key dataRelocTreeObjID typeRootItem 0, buildRootItemBytes rootDirObjID (fl_dataRelocLog lay))].
Definition dir_items (now : timespec) : list rec :=
  [(Key rootDirObjID typeInodeItem 0, root_dir_inode now);
   (Key rootDirObjID typeInodeRef rootDirObjID, root_dir_ref)].
Definition addMeta (logAddr owner : Z) : rec := (Key logAddr typeMetadataItem 0, buildMetadataItemBytes owner).
Definition addBG (logAddr length used flags : Z) : rec :=
  (Key logAddr typeBlockGroupItem length, buildBlockGroupItemBytes used flags).
Definition extent_items (lay : fmtLayout) : list rec :=
  [addMeta (fl_chunkLog lay) chunkTreeObjID;
   addBG (fl_sysChunkLogical lay) (fl_sysChunkLen lay) (fmtSysBlocks * fmtNodeSize) blockGroupSystem;
   addMeta (fl_rootLog lay) rootTreeObjID;
   addMeta (fl_fsLog lay) fsTreeObjID;
   addMeta (fl_extentLog lay) extentTreeObjID;
   addMeta (fl_devLog lay) devTreeObjID;
   addMeta (fl_csumLog lay) csumTreeObjID;
   addMeta (fl_uuidLog lay) uuidTreeObjID;
   addMeta (fl_dataRelocLog lay) dataRelocTreeObjID;
   addBG (fl_dataChunkLogical lay) (fl_dataChunkLen lay) (fmtDataBlocks * fmtNodeSize) (Z.lor blockGroupData blockGroupMeta)].
Definition dev_items (lay : fmtLayout) (chunkUUID : bytes) : list rec :=
  [(Key devStatsObjID typePersistentItem 1, zeros 40);
   (Key 1 typeDevExtent (fl_sysChunkLogical lay), buildDevExtentBytes (fl_sysChunkLogical lay) (fl_sysChunkLen lay) chunkUUID);
   (Key 1 typeDevExtent (fl_dataChunkLogical lay), buildDevExtentBytes (fl_dataChunkLogical lay) (fl_dataChunkLen lay) chunkUUID)].

(** The blocks and where they go. *)
Section Blocks.
Context (lay : fmtLayout) (imageSize : Z) (uuid devUUID chunkUUID label : bytes) (now : timespec).

Definition format_leaf (logAddr owner : Z) (recs : list rec) : outcome bytes :=
  leaf ← insert_all (buildLeaf uuid chunkUUID logAddr 1 owner) recs;
  updateNodeCRC leaf.
Definition buildDirTreeLeaf (logAddr owner : Z) : outcome bytes := format_leaf logAddr owner (dir_items now).

Definition format_writes : outcome (list (Z * bytes)) :=
  chunkLeaf ← format_leaf (fl_chunkLog lay) chunkTreeObjID (chunk_items lay imageSize devUUID uuid);
  rootLeaf ← format_leaf (fl_rootLog lay) rootTreeObjID (root_items lay);
  fsLeaf ← buildDirTreeLeaf (fl_fsLog lay) fsTreeObjID;
  dataRelocLeaf ← buildDirTreeLeaf (fl_dataRelocLog lay) dataRelocTreeObjID;
  extentLeaf ← format_leaf (fl_extentLog lay) extentTreeObjID (extent_items lay);
  devLeaf ← format_leaf (fl_devLog lay) devTreeObjID (dev_items lay chunkUUID);
  csumLeaf ← format_leaf (fl_csumLog lay) csumTreeObjID [];
  uuidLeaf ← format_leaf (fl_uuidLog lay) uuidTreeObjID [];
  sb ← updateSuperblockCRC (buildSuperblockBytes uuid devUUID label imageSize lay);
  Ok [(fmtSuperblockOff, sb); (fl_chunkLog lay, chunkLeaf); (fl_rootLog lay, rootLeaf); (fl_fsLog lay, fsLeaf);
      (fl_extentLog lay, extentLeaf); (fl_devLog lay, devLeaf); (fl_csumLog lay, csumLeaf); (fl_uuidLog lay, uuidLeaf);
      (fl_dataRelocLog lay, dataRelocLeaf)].
End Blocks.

(** ** [Format] *)
Definition format_checks (sizeBytes : Z) : outcome unit :=
  if negb (Z.rem sizeBytes fmtNodeSize =? 0) then Err ErrOther else
  if sizeBytes <? fmtMinSize then Err ErrOther else
  if u64 sizeBytes <? fmtMinSizeLayout then Err ErrOther else
  if fl_dataChunkLen (computeLayout (u64 sizeBytes)) <? fmtDataBlocks * fmtNodeSize then Err ErrOther else Ok tt.

Section Format.
Context `{SafeIO} `{Gpt} {D : Type} `{RW : ReaderWriterAt D} `{BD : BlockDev D}.
Context (openFile closeFile : outcome unit) (randUUID randDev randChunk : outcome bytes) (now : timespec).
Context (Size : D -> option Z).

Definition file_write (off : Z) (b : bytes) : SM D unit := fun d => WriteAt d off b.
Definition file_truncate (size : Z) : SM D unit := fun d => dev_Truncate d size.
Definition open_image : SM D btrfsFS := fun d => (d, OpenFromDevices [Device (ReadAt d) (Size d)] (-1)).

Fixpoint write_all (writes : list (Z * bytes)) : SM D unit :=
  match writes with
  | [] => mret tt
  | w :: writes => _ ← file_write (i64 w.1) w.2; write_all writes
  end.

Definition Format (sizeBytes : Z) (cfg : FormatConfig) : SM D btrfsFS :=
  _ ← sm_lift (format_checks sizeBytes);
  let lay := computeLayout (u64 sizeBytes) in
  _ ← sm_lift openFile;
  _ ← file_truncate sizeBytes;
  uuid ← sm_lift (if bool_decide (cfg_UUID cfg = zeros 16) then randUUID else Ok (cfg_UUID cfg));
  devUUID ← sm_lift randDev;
  chunkUUID ← sm_lift randChunk;
  writes ← sm_lift (format_writes lay (u64 sizeBytes) uuid devUUID chunkUUID (cfg_Label cfg) now);
  _ ← write_all writes;
  _ ← sm_lift closeFile;
  open_image.
End Format.
