(* ===== verification/FormatItems.v ===== *)
(** * What the builders of Format write (format.go)

    [patches] is a buffer after a sequence of stores; a store that no later one
    overlaps is read back.  With it the fields of the superblock, of the chunk items,
    of the ROOT_ITEMs and of the root directory's inode are read from the buffers the
    builders make, by the parsers of the mount. *)
From Stdlib Require Import ZArith Lia Strings.Byte.
From stdpp Require Import base option list numbers sorting gmap.
From S2P Require Import Prelude Bytes Alloc Layout SafeIO Chunk MultiDev Node BTree Crc32c Cow Codec Mount Store Extent Resize Format.
Local Open Scope Z_scope.
Local Open Scope btrfs_scope.

(** ** Sequences of stores *)
Fixpoint patches (b : bytes) (l : list (Z * bytes)) : bytes :=
  match l with
  | [] => b
  | p :: l => patches (splice b p.1 p.2) l
  end.

(** The offsets and lengths of the stores, and the checks on them. *)
Definition shape (l : list (Z * bytes)) : list (Z * Z) := map (fun p => (p.1, blen p.2)) l.
Definition shape_in (len : Z) (sh : list (Z * Z)) : bool := forallb (fun q => (0 <=? q.1) && (q.1 + q.2 <=? len)) sh.
Definition shape_off (off n : Z) (sh : list (Z * Z)) : bool := forallb (fun q => (off + n <=? q.1) || (q.1 + q.2 <=? off)) sh.

Lemma blen_patches len l b : shape_in len (shape l) = true -> blen b = len -> blen (patches b l) = len.
Proof.
  revert b. induction l as [|[off s] l IH]; intros b Hs Hb; [done|]. cbn in Hs |- *. bool_prop.
  apply IH; [done|]. by rewrite blen_splice by lia.
Qed.

Lemma sub_patches_off len l b off n :
  shape_in len (shape l) = true -> blen b = len -> shape_off off n (shape l) = true -> 0 <= off -> 0 <= n -> off + n <= len ->
  sub (patches b l) off n = sub b off n.
Proof.
  revert b. induction l as [|[o s] l IH]; intros b Hs Hb Ho H0 Hn Hl; [done|]. cbn in Hs, Ho |- *.
  apply andb_prop in Ho as [Ho Ho']. bool_prop. rewrite IH by (try done; by rewrite blen_splice by lia).
  apply sub_splice_out; lia.
Qed.

(** What the [i]-th store left, when no later one overlaps it. *)
Lemma sub_patches_at len l b i off s :
  l !! i = Some (off, s) -> shape_in len (shape l) = true -> blen b = len ->
  shape_off off (blen s) (drop (S i) (shape l)) = true -> sub (patches b l) off (blen s) = s.
Proof.
  revert b i. induction l as [|[o s'] l IH]; intros b i Hi Hs Hb Ho; [done|]. cbn in Hs. bool_prop.
  destruct i as [|i]; cbn [lookup list_lookup] in Hi; cbn [patches fst snd].
  - injection Hi as -> ->. cbn [shape map drop] in Ho. rewrite drop_0 in Ho.
    rewrite (sub_patches_off len) by (try done; try apply blen_nonneg; try (by rewrite blen_splice by lia); lia).
    apply sub_splice_same; lia.
  - apply (IH _ i); try done. by rewrite blen_splice by lia.
Qed.

Lemma rd_patches_at len l b i n off v :
  l !! i = Some (off, le_enc n v) -> shape_in len (shape l) = true -> blen b = len ->
  shape_off off (Z.of_nat n) (drop (S i) (shape l)) = true -> rd n (patches b l) off = v mod 256 ^ Z.of_nat n.
Proof.
  intros Hi Hs Hb Ho. unfold rd. rewrite <- (blen_le_enc n v) in Ho |- * at 1.
  rewrite (sub_patches_at len l b i off) by done. apply le_dec_enc.
Qed.

(** A field inside a larger store. *)
Lemma rd_patches_in len l b i off s n p :
  l !! i = Some (off, s) -> shape_in len (shape l) = true -> blen b = len ->
  shape_off off (blen s) (drop (S i) (shape l)) = true -> 0 <= off -> off + blen s <= len -> 0 <= p -> p + Z.of_nat n <= blen s ->
  rd n (patches b l) (off + p) = rd n s p.
Proof.
  intros Hi Hs Hb Ho H0 Hl Hp Hn. rewrite <- (sub_patches_at len l b i off s) at 1 by done.
  symmetry. apply rd_sub; try lia. rewrite (blen_patches len) by done. lia.
Qed.

(** ** Chunk items *)
Definition chunk_patches (length typ stripeOffset ioAlign ioWidth subStripes : Z) (devUUID : bytes) : list (Z * bytes) :=
  [(chunkSize, le_enc 8 length); (chunkRootObjID, le_enc 8 extentTreeObjID); (chunkStripeLen, le_enc 8 fmtStripeLen);
   (chunkType, le_enc 8 typ); (chunkOptIOAlign, le_enc 4 ioAlign); (chunkOptIOWidth, le_enc 4 ioWidth);
   (chunkMinIOSize, le_enc 4 fmtNodeSize); (chunkNumStripes, le_enc 2 1); (chunkSubStripes, le_enc 2 subStripes);
   (chunkStripeDevID, le_enc 8 1); (chunkStripeOffset, le_enc 8 stripeOffset); (chunkStripeDevUUID, devUUID)].
Lemma chunk_item_patches length typ so ia iw ss devUUID :
  buildChunkItemBytes length typ so ia iw ss devUUID =
  patches (zeros (chunkHeaderSize + chunkStripeSize)) (chunk_patches length typ so ia iw ss devUUID).
Proof. reflexivity. Qed.

Section ChunkItem.
Context (length typ so ia iw ss : Z) (devUUID : bytes) (Hdev : blen devUUID = 16).
Context (Hlen : is_u64 length) (Htyp : is_u64 typ) (Hso : is_u64 so) (Hss : 0 <= ss < 2 ^ 16).
Abbreviation item := (buildChunkItemBytes length typ so ia iw ss devUUID).
Abbreviation l := (chunk_patches length typ so ia iw ss devUUID).

Lemma chunk_shape : shape l =
  [(0, 8); (8, 8); (0x10, 8); (0x18, 8); (0x20, 4); (0x24, 4); (0x28, 4); (0x2C, 2); (0x2E, 2); (0x30, 8); (0x38, 8); (0x40, 16)].
Proof using Hdev. unfold shape, chunk_patches. cbn [map fst snd]. rewrite !blen_le_enc, Hdev. reflexivity. Qed.

Lemma chunk_item_blen : blen item = 80.
Proof using Hdev. rewrite chunk_item_patches. apply blen_patches; [rewrite chunk_shape; reflexivity|reflexivity]. Qed.

Lemma chunk_field i n off v :
  l !! i = Some (off, le_enc n v) -> shape_off off (Z.of_nat n) (drop (S i) (shape l)) = true -> 0 <= v < 256 ^ Z.of_nat n ->
  rd n item off = v.
Proof using Hdev.
  intros Hi Ho Hv. rewrite chunk_item_patches, (rd_patches_at 80 _ _ i n off v); try done; [|by rewrite chunk_shape].
  by apply Z.mod_small.
Qed.

Lemma chunk_item_stripes : rd 2 item chunkNumStripes = 1.
Proof using Hdev. apply (chunk_field 7); [done|rewrite chunk_shape; reflexivity|cbn; lia]. Qed.

(** The mapping a chunk item of Format stands for. *)
Lemma chunk_item_decodes rest logAddr :
  decode_chunk logAddr 1 (item ++ rest) =
  Ok (ChunkMapping logAddr length so 0 typ fmtStripeLen ss [ChunkStripe 1 so]).
Proof using Hdev Hlen Htyp Hso Hss.
  assert (Hrd : forall n off, 0 <= off -> off + Z.of_nat n <= 80 -> rd n (item ++ rest) off = rd n item off).
  { intros n off H0 H1. rewrite <- (rd_app_mid n [] item rest off) by (rewrite ?chunk_item_blen; lia). f_equal. }
  assert (Hb : 80 <= blen (item ++ rest)) by (rewrite blen_app, chunk_item_blen; pose proof (blen_nonneg rest); lia).
  pose proof chunk_shape as Hsh. unfold is_u64 in *.
  assert (F1 : rd 8 (item ++ rest) chunkSize = length)
    by (rewrite Hrd by (vm_compute; done); apply (chunk_field 0); [done|rewrite Hsh; reflexivity|cbn; lia]).
  assert (F2 : rd 2 (item ++ rest) chunkNumStripes = 1)
    by (rewrite Hrd by (vm_compute; done); apply (chunk_field 7); [done|rewrite Hsh; reflexivity|cbn; lia]).
  assert (F3 : rd 8 (item ++ rest) chunkType = typ)
    by (rewrite Hrd by (vm_compute; done); apply (chunk_field 3); [done|rewrite Hsh; reflexivity|cbn; lia]).
  assert (F4 : rd 8 (item ++ rest) chunkStripeLen = fmtStripeLen)
    by (rewrite Hrd by (vm_compute; done); apply (chunk_field 2); [done|rewrite Hsh; reflexivity|unfold fmtStripeLen; cbn; lia]).
  assert (F5 : rd 2 (item ++ rest) chunkSubStripes = ss)
    by (rewrite Hrd by (vm_compute; done); apply (chunk_field 8); [done|rewrite Hsh; reflexivity|cbn; lia]).
  assert (F6 : rd 8 (item ++ rest) chunkHeaderSize = 1)
    by (rewrite Hrd by (vm_compute; done); apply (chunk_field 9); [done|rewrite Hsh; reflexivity|cbn; lia]).
  assert (F7 : rd 8 (item ++ rest) (chunkHeaderSize + 8) = so)
    by (rewrite Hrd by (vm_compute; done); apply (chunk_field 10); [done|rewrite Hsh; reflexivity|cbn; lia]).
  unfold decode_chunk. unfold chunkHeaderSize, chunkStripeSize, chunkSize, chunkNumStripes, chunkType, chunkStripeLen, chunkSubStripes in *.
  do 5 (rewrite get_le_Ok by lia; cbn [mbind outcome_bind]). rewrite F1, F2, F3, F4, F5.
  unfold parseAllStripes. change (Z.to_nat 1) with 1%nat. cbn [parseAllStripes_loop].
  unfold chunkHeaderSize, chunkStripeSize. change (1 <=? 0) with false. cbn match.
  rewrite (proj2 (Z.ltb_ge _ _)) by lia. change (48 + 0 * 32) with 48.
  do 2 (rewrite get_le_Ok by lia; cbn [mbind outcome_bind]). rewrite F6, F7. reflexivity.
Qed.
End ChunkItem.

(** ** The superblock's chunk array *)
Definition key_patches (lay : fmtLayout) : list (Z * bytes) :=
  [(0, le_enc 8 firstChunkTreeObjID); (8, le_enc 1 typeChunkItem); (9, le_enc 8 (fl_sysChunkLogical lay))].
Definition sys_mapping (lay : fmtLayout) : chunkMapping :=
  ChunkMapping (fl_sysChunkLogical lay) (fl_sysChunkLen lay) (fl_sysChunkLogical lay) 0 blockGroupSystem fmtStripeLen 0
    [ChunkStripe 1 (fl_sysChunkLogical lay)].
Definition data_mapping (lay : fmtLayout) : chunkMapping :=
  ChunkMapping (fl_dataChunkLogical lay) (fl_dataChunkLen lay) (fl_dataChunkLogical lay) 0 (Z.lor blockGroupData blockGroupMeta)
    fmtStripeLen 1 [ChunkStripe 1 (fl_dataChunkLogical lay)].

Lemma key_shape lay : shape (key_patches lay) = [(0, 8); (8, 1); (9, 8)].
Proof. unfold shape, key_patches. cbn [map fst snd]. rewrite !blen_le_enc. reflexivity. Qed.
Lemma sys_key_blen lay : blen (patches (zeros keySize) (key_patches lay)) = 17.
Proof. apply blen_patches; [rewrite key_shape; reflexivity|reflexivity]. Qed.

Section Superblock.
Context (uuid devUUID label : bytes) (imageSize : Z) (lay : fmtLayout).
Context (Huuid : blen uuid = 16) (Hdev : blen devUUID = 16).
Context (Hl1 : is_u64 (fl_sysChunkLogical lay)) (Hl2 : is_u64 (fl_sysChunkLen lay)).

Lemma sys_item_blen : blen (buildSysChunkItemBytes lay devUUID) = 80.
Proof using Hdev. unfold buildSysChunkItemBytes. apply chunk_item_blen. exact Hdev. Qed.

Lemma sys_entry_blen : blen (buildSysChunkItemKey lay devUUID) = 97.
Proof using Hdev.
  unfold buildSysChunkItemKey. rewrite blen_app, sys_item_blen.
  change (blen (patches (zeros keySize) (key_patches lay)) + 80 = 97). rewrite sys_key_blen. reflexivity.
Qed.

Lemma sys_array_parses : parseSysChunkArray (buildSysChunkItemKey lay devUUID) 1 = Ok [sys_mapping lay].
Proof using Hdev Hl1 Hl2.
  pose proof sys_entry_blen as Hb. unfold parseSysChunkArray.
  assert (Hf : length (buildSysChunkItemKey lay devUUID) = 97%nat) by (unfold blen in Hb; lia).
  rewrite Hf. change 97%nat with (S (S 95)). cbn [parseSysChunkArray_loop]. rewrite Hb.
  change (97 <? 0 + keySize) with false. cbn match.
  set (k := patches (zeros keySize) (key_patches lay)).
  change (buildSysChunkItemKey lay devUUID) with (k ++ buildSysChunkItemBytes lay devUUID) in *.
  assert (Hk : blen k = 17) by (apply sys_key_blen).
  assert (Hrd : forall n off, 0 <= off -> off + Z.of_nat n <= 17 -> rd n (k ++ buildSysChunkItemBytes lay devUUID) off = rd n k off).
  { intros n off H0 H1. apply (rd_app_mid n [] k). done. lia. }
  do 2 (rewrite get_le_Ok by lia; cbn [mbind outcome_bind]). change (0 + 8) with 8. change (0 + 9) with 9.
  assert (K1 : rd 1 k 8 = typeChunkItem mod 256 ^ Z.of_nat 1)
    by (apply (rd_patches_at 17 _ _ 1); first [reflexivity|rewrite key_shape; reflexivity]).
  assert (K2 : rd 8 k 9 = fl_sysChunkLogical lay mod 256 ^ Z.of_nat 8)
    by (apply (rd_patches_at 17 _ _ 2); first [reflexivity|rewrite key_shape; reflexivity]).
  rewrite !Hrd by lia. rewrite K1, K2.
  rewrite (Z.mod_small (fl_sysChunkLogical lay)) by (unfold is_u64 in Hl1; cbn; lia).
  change (typeChunkItem mod 256 ^ Z.of_nat 1) with typeChunkItem. change (negb (typeChunkItem =? 0xE4)) with false. cbn match.
  change (97 <? 0 + keySize + chunkHeaderSize + chunkStripeSize) with false. cbn match.
  rewrite slice_Ok by (unfold keySize; lia). cbn [mbind outcome_bind].
  assert (Hs : sub (k ++ buildSysChunkItemBytes lay devUUID) (0 + keySize) (97 - (0 + keySize)) = buildSysChunkItemBytes lay devUUID).
  { pose proof (sub_app_mid k (buildSysChunkItemBytes lay devUUID) [] 0 80 ltac:(lia) ltac:(lia) ltac:(rewrite sys_item_blen; lia)) as Hm.
    rewrite app_nil_r, Hk in Hm. change (0 + keySize) with (17 + 0). change (97 - (17 + 0)) with 80. rewrite Hm.
    pose proof (sub_all (buildSysChunkItemBytes lay devUUID)) as Ha. by rewrite sys_item_blen in Ha. }
  rewrite Hs. pose proof sys_item_blen as Hi.
  rewrite get_le_Ok by (rewrite ?Hi; unfold chunkNumStripes; lia). cbn [mbind outcome_bind].
  assert (Hn : rd 2 (buildSysChunkItemBytes lay devUUID) chunkNumStripes = 1).
  { unfold buildSysChunkItemBytes. apply (chunk_field _ _ _ _ _ _ _ Hdev 7); [reflexivity|rewrite chunk_shape; [reflexivity|exact Hdev]|cbn; lia]. }
  rewrite Hn. change (1 =? 0) with false. cbn match.
  pose proof (chunk_item_decodes (fl_sysChunkLen lay) blockGroupSystem (fl_sysChunkLogical lay) fmtNodeSize fmtNodeSize 0 devUUID Hdev
    Hl2 ltac:(unfold is_u64, blockGroupSystem; lia) Hl1 ltac:(lia) [] (fl_sysChunkLogical lay)) as Hd.
  rewrite app_nil_r in Hd. fold (buildSysChunkItemBytes lay devUUID) in Hd. rewrite Hd. cbn [mbind outcome_bind]. rewrite ?Hb.
  change (97 <? 0 + keySize + chunkHeaderSize + 1 * chunkStripeSize + keySize) with true. reflexivity.
Qed.

(** ** The superblock *)
Definition backup_fields : list field :=
  [(8%nat, 0x00, fl_rootLog lay); (8%nat, 0x08, 1); (8%nat, 0x10, fl_chunkLog lay); (8%nat, 0x18, 1); (8%nat, 0x20, fl_extentLog lay);
   (8%nat, 0x28, 1); (8%nat, 0x30, fl_fsLog lay); (8%nat, 0x38, 1); (8%nat, 0x40, fl_devLog lay); (8%nat, 0x48, 1);
   (8%nat, 0x50, fl_csumLog lay); (8%nat, 0x58, 1); (8%nat, 0x60, imageSize); (8%nat, 0x68, fl_bytesUsed lay); (8%nat, 0x70, 1)].
Lemma blen_root_backup bk : blen bk = 168 -> blen (root_backup lay imageSize bk) = 168.
Proof using.
  intros Hb. change (root_backup lay imageSize bk) with (put_fields bk backup_fields).
  rewrite (blen_put_fields 168); [done|reflexivity|lia].
Qed.

Definition dev_patches : list (Z * bytes) :=
  [(0x00, le_enc 8 1); (0x08, le_enc 8 imageSize); (0x10, le_enc 8 (fl_devBytesUsed lay)); (0x18, le_enc 4 fmtNodeSize);
   (0x1C, le_enc 4 fmtNodeSize); (0x20, le_enc 4 fmtNodeSize); (0x42, devUUID); (0x52, uuid)].
Abbreviation devItem := (buildDevItemBytes imageSize (fl_devBytesUsed lay) devUUID uuid).
Lemma dev_shape : shape dev_patches = [(0, 8); (8, 8); (0x10, 8); (0x18, 4); (0x1C, 4); (0x20, 4); (0x42, 16); (0x52, 16)].
Proof using Huuid Hdev. unfold shape, dev_patches. cbn [map fst snd]. rewrite !blen_le_enc, Huuid, Hdev. reflexivity. Qed.
Lemma dev_item_blen : blen devItem = 98.
Proof using Huuid Hdev. change devItem with (patches (zeros 98) dev_patches). apply blen_patches; [rewrite dev_shape; reflexivity|reflexivity]. Qed.
Lemma dev_item_id : rd 8 devItem 0 = 1.
Proof using Huuid Hdev.
  change devItem with (patches (zeros 98) dev_patches).
  rewrite (rd_patches_at 98 _ _ 0 8 0 1) by first [reflexivity|rewrite dev_shape; reflexivity]. reflexivity.
Qed.

(** The stores of [buildSuperblockBytes] before the last one. *)
Definition sb_patches : list (Z * bytes) :=
  [(sbfUUID, uuid); (sbfPhysAddr, le_enc 8 fmtSuperblockOff); (sbfMagic, le_enc 8 sbMagic); (sbfGeneration, le_enc 8 1);
   (sbfFlags, le_enc 8 headerFlagWritten); (sbfRootLogAddr, le_enc 8 (fl_rootLog lay)); (sbfChunkLogAddr, le_enc 8 (fl_chunkLog lay));
   (sbfTotalBytes, le_enc 8 imageSize); (sbfBytesUsed, le_enc 8 (fl_bytesUsed lay)); (sbfRootDirObjID, le_enc 8 rootDirObjID);
   (sbfNumDevices, le_enc 8 1); (sbfSectorSize, le_enc 4 fmtNodeSize); (sbfNodeSize, le_enc 4 fmtNodeSize);
   (sbfLeafSize, le_enc 4 fmtNodeSize); (sbfStripeSize, le_enc 4 fmtNodeSize); (sbfDevItem, devItem);
   (sbfChunkRootGeneration, le_enc 8 1); (sbfCompatFlags, le_enc 8 0); (sbfCompatROFlags, le_enc 8 0);
   (sbfIncompatFlags, le_enc 8 incompatMixedFlags); (sbfCsumType, le_enc 2 csumTypeCRC32C); (sbfLabel, take 255 label);
   (sbfSysChunkArr, buildSysChunkItemKey lay devUUID); (sbfSysChunkArrSz, le_enc 4 (blen (buildSysChunkItemKey lay devUUID)))].
Lemma superblock_patches :
  buildSuperblockBytes uuid devUUID label imageSize lay =
  let buf := patches (zeros sbfSize) sb_patches in
  splice buf sbfRootBackups (root_backup lay imageSize (sub buf sbfRootBackups rootBackupSize)).
Proof using. unfold buildSuperblockBytes, sb_patches, wr. cbv zeta. cbn [patches fst snd]. reflexivity. Qed.

Definition label_len : Z := blen (take 255 label).
Lemma label_bounds : 0 <= label_len <= 255.
Proof using. unfold label_len, blen. rewrite length_take. lia. Qed.
Lemma sb_shape : shape sb_patches =
  [(0x20, 16); (0x30, 8); (0x40, 8); (0x48, 8); (0x38, 8); (0x50, 8); (0x58, 8); (0x70, 8); (0x78, 8); (0x80, 8); (0x88, 8);
   (0x90, 4); (0x94, 4); (0x98, 4); (0x9C, 4); (0xC9, 98); (0xA4, 8); (0xAC, 8); (0xB4, 8); (0xBC, 8); (0xC4, 2);
   (0x12B, label_len); (0x32B, 97); (0xA0, 4)].
Proof using Huuid Hdev.
  unfold shape, sb_patches. cbn [map fst snd]. rewrite !blen_le_enc, Huuid, dev_item_blen, sys_entry_blen. reflexivity.
Qed.
Lemma sb_shape_in : shape_in 0x1000 (shape sb_patches) = true.
Proof using Huuid Hdev.
  rewrite sb_shape. unfold shape_in. rewrite forallb_forall. intros q Hq. pose proof label_bounds.
  cbn [In] in Hq. apply andb_true_intro. repeat (destruct Hq as [<-|Hq]; [cbn [fst snd]; lia|]). done.
Qed.
Abbreviation sbuf := (buildSuperblockBytes uuid devUUID label imageSize lay).
Abbreviation inner := (patches (zeros sbfSize) sb_patches).
Lemma inner_blen : blen inner = 0x1000.
Proof using Huuid Hdev. apply blen_patches; [apply sb_shape_in|]. by rewrite blen_zeros. Qed.
Lemma backup_blen : blen (root_backup lay imageSize (sub inner sbfRootBackups rootBackupSize)) = 168.
Proof using Huuid Hdev. apply blen_root_backup. apply blen_sub; rewrite ?inner_blen; unfold sbfRootBackups, rootBackupSize; lia. Qed.
Lemma superblock_blen : blen sbuf = 0x1000.
Proof using Huuid Hdev.
  rewrite superblock_patches. cbv zeta. rewrite blen_splice; rewrite ?inner_blen, ?backup_blen; [done|unfold sbfRootBackups; lia..].
Qed.
Lemma superblock_sub off n : 0 <= off -> 0 <= n -> off + n <= 0xB2B -> sub sbuf off n = sub inner off n.
Proof using Huuid Hdev.
  intros H0 Hn Hl. rewrite superblock_patches. cbv zeta.
  apply sub_splice_out; rewrite ?inner_blen, ?backup_blen; unfold sbfRootBackups; lia.
Qed.
Lemma superblock_rd n off : 0 <= off -> off + Z.of_nat n <= 0xB2B -> rd n sbuf off = rd n inner off.
Proof using Huuid Hdev. intros. unfold rd. by rewrite superblock_sub by lia. Qed.
Lemma superblock_field i n off v :
  sb_patches !! i = Some (off, le_enc n v) -> 0 <= off -> off + Z.of_nat n <= 0xB2B ->
  shape_off off (Z.of_nat n) (drop (S i) (shape sb_patches)) = true -> 0 <= v < 256 ^ Z.of_nat n -> rd n sbuf off = v.
Proof using Huuid Hdev.
  intros Hi H0 Hl Ho Hv. rewrite superblock_rd by done.
  rewrite (rd_patches_at 0x1000 _ _ i n off v) by first [done|apply sb_shape_in]. by apply Z.mod_small.
Qed.
End Superblock.

(** ** The superblock as the mount parses it *)
Definition format_sb (lay : fmtLayout) (imageSize : Z) (uuid label : bytes) : superblock :=
  Superblock fmtNodeSize fmtNodeSize fmtNodeSize fmtNodeSize imageSize (fl_rootLog lay) (fl_chunkLog lay) 1 1 uuid label
    [sys_mapping lay].

(** A field of the superblock: store [i], which no later store overlaps. *)
Ltac sb_field Hfield Hsh Hdis i :=
  apply (Hfield i); [reflexivity|vm_compute; discriminate|vm_compute; discriminate|
    rewrite Hsh; cbn [drop shape_off forallb fst snd]; rewrite ?Hdis by (vm_compute; discriminate); reflexivity|
    unfold is_u64 in *; first [cbn; lia|vm_compute; split; congruence]].

Section Parse.
Context `{HL : SafeIOLaws} (uuid devUUID label : bytes) (imageSize : Z) (lay : fmtLayout).
Context (Huuid : blen uuid = 16) (Hdev : blen devUUID = 16).
Context (Hl1 : is_u64 (fl_sysChunkLogical lay)) (Hl2 : is_u64 (fl_sysChunkLen lay)).
Context (Hl3 : is_u64 (fl_rootLog lay)) (Hl4 : is_u64 (fl_chunkLog lay)) (Hsz : is_u64 imageSize).
Abbreviation sbuf := (buildSuperblockBytes uuid devUUID label imageSize lay).

Lemma superblock_crc : exists h, updateSuperblockCRC sbuf = Ok (wr 4 sbuf 0 h) /\ blen (wr 4 sbuf 0 h) = 0x1000.
Proof using Huuid Hdev.
  pose proof (superblock_blen uuid devUUID label imageSize lay Huuid Hdev) as Hb. eexists. split.
  - unfold updateSuperblockCRC. rewrite slice_Ok by lia. cbn [mbind outcome_bind]. apply put_le_Ok; lia.
  - by rewrite blen_wr by lia.
Qed.

Lemma superblock_parses h : exists label',
  parse_superblock (wr 4 sbuf 0 h) = Ok (format_sb lay imageSize uuid label').
Proof using HL Huuid Hdev Hl1 Hl2 Hl3 Hl4 Hsz.
  pose proof (superblock_blen uuid devUUID label imageSize lay Huuid Hdev) as Hb0.
  pose proof (sb_shape uuid devUUID label imageSize lay Huuid Hdev) as Hsh.
  pose proof (label_bounds label) as Hlab.
  assert (Hb : blen (wr 4 sbuf 0 h) = 0x1000) by (by rewrite blen_wr by lia).
  assert (Hrd : forall n off, 4 <= off -> off + Z.of_nat n <= 0x1000 -> rd n (wr 4 sbuf 0 h) off = rd n sbuf off)
    by (intros n off H0 H1; apply rd_wr_out; lia).
  assert (Hsub : forall off n, 4 <= off -> 0 <= n -> off + n <= 0x1000 -> sub (wr 4 sbuf 0 h) off n = sub sbuf off n)
    by (intros off n H0 H1 H2; apply sub_wr_out; lia).
  revert Hb Hrd Hsub. generalize (wr 4 sbuf 0 h). intros b Hb Hrd Hsub.
  assert (Hfield : forall i n off v, sb_patches uuid devUUID label imageSize lay !! i = Some (off, le_enc n v) -> 4 <= off ->
     off + Z.of_nat n <= 0xB2B -> shape_off off (Z.of_nat n) (drop (S i) (shape (sb_patches uuid devUUID label imageSize lay))) = true ->
     0 <= v < 256 ^ Z.of_nat n -> rd n b off = v).
  { intros i n off v Hi H0 Hl Ho Hv. rewrite Hrd by lia. apply (superblock_field uuid devUUID label imageSize lay Huuid Hdev i); try done; lia. }
  assert (Hdis : forall off n, off + n <= 0x12B -> ((off + n <=? 0x12B) || (0x12B + label_len label <=? off)) = true)
    by (intros off n Ho; by rewrite (proj2 (Z.leb_le _ _) Ho)).
  assert (F1 : rd 8 b sbfMagic = sbMagic) by (sb_field Hfield Hsh Hdis 2%nat).
  assert (F2 : rd 4 b sbfSectorSize = fmtNodeSize) by (sb_field Hfield Hsh Hdis 11%nat).
  assert (F3 : rd 4 b sbfNodeSize = fmtNodeSize) by (sb_field Hfield Hsh Hdis 12%nat).
  assert (F4 : rd 4 b sbfLeafSize = fmtNodeSize) by (sb_field Hfield Hsh Hdis 13%nat).
  assert (F5 : rd 4 b sbfStripeSize = fmtNodeSize) by (sb_field Hfield Hsh Hdis 14%nat).
  assert (F6 : rd 8 b sbfTotalBytes = imageSize) by (sb_field Hfield Hsh Hdis 7%nat).
  assert (F7 : rd 8 b sbfRootLogAddr = fl_rootLog lay) by (sb_field Hfield Hsh Hdis 5%nat).
  assert (F8 : rd 8 b sbfChunkLogAddr = fl_chunkLog lay) by (sb_field Hfield Hsh Hdis 6%nat).
  assert (F9 : rd 8 b sbfGeneration = 1) by (sb_field Hfield Hsh Hdis 3%nat).
  assert (F10 : rd 4 b sbfSysChunkArrSz = 97).
  { replace 97 with (blen (buildSysChunkItemKey lay devUUID)) by (by apply sys_entry_blen).
    apply (Hfield 23%nat); [reflexivity|vm_compute; discriminate|vm_compute; discriminate|by rewrite Hsh|].
    rewrite sys_entry_blen by done. cbn. lia. }
  assert (Hin : forall i off s, sb_patches uuid devUUID label imageSize lay !! i = Some (off, s) -> 4 <= off -> off + blen s <= 0xB2B ->
     shape_off off (blen s) (drop (S i) (shape (sb_patches uuid devUUID label imageSize lay))) = true -> sub b off (blen s) = s).
  { intros i off s Hi H0 Hl Ho. pose proof (blen_nonneg s). rewrite Hsub by lia.
    rewrite (superblock_sub uuid devUUID label imageSize lay Huuid Hdev) by lia.
    apply (sub_patches_at 0x1000 _ _ i); [done|by apply sb_shape_in|by rewrite blen_zeros|done]. }
  assert (F11 : sub b sbfUUID (sbfUUID + 16 - sbfUUID) = uuid).
  { replace (sbfUUID + 16 - sbfUUID) with (blen uuid) by (rewrite Huuid; reflexivity).
    apply (Hin 0%nat); [reflexivity|vm_compute; discriminate|rewrite Huuid; vm_compute; discriminate|].
    rewrite Hsh, Huuid. cbn [drop shape_off forallb fst snd]. rewrite ?Hdis by (vm_compute; discriminate). reflexivity. }
  assert (F12 : sub b sbfSysChunkArr 97 = buildSysChunkItemKey lay devUUID).
  { replace 97 with (blen (buildSysChunkItemKey lay devUUID)) by (by apply sys_entry_blen).
    apply (Hin 22%nat); [reflexivity|vm_compute; discriminate|rewrite sys_entry_blen by done; vm_compute; discriminate|].
    rewrite Hsh, sys_entry_blen by done. reflexivity. }
  assert (F13 : rd 8 b sbfDevItem = 1).
  { pose proof (dev_item_blen uuid devUUID imageSize lay Huuid Hdev) as Hdb. unfold rd.
    rewrite <- (Z.add_0_r sbfDevItem). change (Z.of_nat 8) with 8.
    rewrite <- (sub_sub b sbfDevItem 98 0 8) by (try rewrite Hb; unfold sbfDevItem; lia). rewrite <- Hdb at 1.
    rewrite (Hin 15%nat sbfDevItem (buildDevItemBytes imageSize (fl_devBytesUsed lay) devUUID uuid));
      [|reflexivity|vm_compute; discriminate|rewrite Hdb; vm_compute; discriminate|].
    - change (rd 8 (buildDevItemBytes imageSize (fl_devBytesUsed lay) devUUID uuid) 0 = 1). by apply dev_item_id.
    - rewrite Hsh, Hdb. cbn [drop shape_off forallb fst snd]. rewrite ?Hdis by (vm_compute; discriminate). reflexivity. }
  exists (sub b sbfLabel (sbfLabel + 256 - sbfLabel)). unfold parse_superblock.
  rewrite (get_le_Ok 8 b sbfMagic), (get_le_Ok 4 b sbfSectorSize), (get_le_Ok 4 b sbfNodeSize), (get_le_Ok 4 b sbfLeafSize),
    (get_le_Ok 4 b sbfStripeSize), (get_le_Ok 8 b sbfTotalBytes), (get_le_Ok 8 b sbfRootLogAddr), (get_le_Ok 8 b sbfChunkLogAddr),
    (get_le_Ok 8 b sbfGeneration), (get_le_Ok 8 b sbfDevItem), (get_le_Ok 4 b sbfSysChunkArrSz),
    (slice_Ok b sbfUUID), (slice_Ok b sbfLabel) by (rewrite ?Hb; vm_compute; discriminate).
  cbn [mbind outcome_bind]. rewrite F1, Z.eqb_refl. cbn [negb].
  rewrite F2, F3, F4, F5, F6, F7, F8, F9, F11, F13.
  change ((fmtNodeSize =? 0) || (fmtNodeSize =? 0)) with false.
  change ((fmtNodeSize <? nodeHdrSize) || (maxNodeSize <? fmtNodeSize)) with false.
  change (negb (fmtNodeSize mod fmtNodeSize =? 0)) with false. cbn match.
  rewrite F10, Slice_Ok by (rewrite ?Hb; vm_compute; discriminate). cbn [mbind outcome_bind].
  rewrite F12, sys_array_parses by done. reflexivity.
Qed.
End Parse.
