(* ===== verification/FormatLeaves.v ===== *)
(** * The leaves of a new file system (format.go)

    Every leaf Format builds stores the items it was given; the items of the root tree,
    of the chunk tree and of the directory trees are read back by the parsers. *)
From Stdlib Require Import ZArith Lia Strings.Byte.
From stdpp Require Import base option list numbers sorting gmap.
From S2P Require Import Prelude Bytes Alloc Layout SafeIO Chunk MultiDev Node BTree Crc32c Cow Codec Read Mount Store Extent Ops.
From S2P Require Import Resize Format FormatItems.
Local Open Scope Z_scope.
Local Open Scope btrfs_scope.

(** ** Empty leaves and insertions *)
Section Leaf.
Context (uuid chunkUUID : bytes) (Hu : blen uuid = 16) (Hc : blen chunkUUID = 16).

Definition leaf_patches (logAddr generation owner : Z) : list (Z * bytes) :=
  [(32, uuid); (0x30, le_enc 8 logAddr); (0x38, le_enc 8 (Z.lor headerFlagWritten (Z.shiftl headerBackrefRevMixed 56)));
   (0x40, chunkUUID); (0x50, le_enc 8 generation); (0x58, le_enc 8 owner); (0x60, le_enc 4 0); (0x64, le_enc 1 0)].
Lemma leaf_shape a g o : shape (leaf_patches a g o) = [(32, 16); (0x30, 8); (0x38, 8); (0x40, 16); (0x50, 8); (0x58, 8); (0x60, 4); (0x64, 1)].
Proof using Hu Hc. unfold shape, leaf_patches. cbn [map fst snd]. rewrite !blen_le_enc, Hu, Hc. reflexivity. Qed.
Lemma buildLeaf_patches a g o : buildLeaf uuid chunkUUID a g o = patches (zeros fmtNodeSize) (leaf_patches a g o).
Proof using. unfold buildLeaf, leaf_patches, wr. cbv zeta. cbn [patches fst snd]. reflexivity. Qed.

Lemma buildLeaf_empty a g o : blen (buildLeaf uuid chunkUUID a g o) = fmtNodeSize /\ leaf_repr (buildLeaf uuid chunkUUID a g o) [].
Proof using Hu Hc.
  rewrite buildLeaf_patches. pose proof (leaf_shape a g o) as Hsh.
  assert (Hz : blen (zeros fmtNodeSize) = fmtNodeSize) by (by rewrite blen_zeros).
  assert (Hb : blen (patches (zeros fmtNodeSize) (leaf_patches a g o)) = fmtNodeSize)
    by (apply blen_patches; [rewrite Hsh; reflexivity|done]).
  split; [done|]. split_and!.
  - rewrite (rd_patches_at fmtNodeSize _ _ 6 4 0x60 0); [reflexivity|reflexivity|rewrite Hsh; reflexivity|done|rewrite Hsh; reflexivity].
  - rewrite (rd_patches_at fmtNodeSize _ _ 7 1 0x64 0); [reflexivity|reflexivity|rewrite Hsh; reflexivity|done|rewrite Hsh; reflexivity].
  - rewrite Hb. vm_compute. discriminate.
  - rewrite Hb. vm_compute. discriminate.
  - done.
Qed.
End Leaf.

Lemma first_gt_end k recs : Forall (fun r => key_ok r.1) recs -> key_ok k -> Forall (fun r => key_lt r.1 k) recs -> first_gt k recs = length recs.
Proof.
  intros Hk Hok. induction Hk as [|r recs Hr _ IH]; intros Hl; [done|]. apply Forall_cons in Hl as [Hlt Hl]. cbn [first_gt length].
  rewrite compareKey_gt by done. unfold key_lt in Hlt. case_if; [lia|]. by rewrite IH.
Qed.

(** Items inserted in key order are appended. *)
Lemma insert_all_sorted leaf recs0 recs :
  leaf_repr leaf recs0 -> Forall (fun r => key_ok r.1) (recs0 ++ recs) -> keys_sorted (recs0 ++ recs) ->
  leaf_need (recs0 ++ recs) <= blen leaf ->
  exists leaf', insert_all leaf recs = Ok leaf' /\ blen leaf' = blen leaf /\ leaf_repr leaf' (recs0 ++ recs).
Proof.
  revert leaf recs0. induction recs as [|[k d] recs IH]; intros leaf recs0 Hl Hk Hs Hn.
  { exists leaf. rewrite app_nil_r in *. done. }
  pose proof Hk as Hk'. apply Forall_app in Hk' as [Hk0 Hk1]. apply Forall_cons in Hk1 as [Hkk Hk1]. cbn [fst] in Hkk.
  pose proof (leafInsertItem_spec leaf recs0 k d Hl Hkk) as Hi.
  assert (Hneed : leaf_need recs0 + itemSize + blen d <= blen leaf).
  { rewrite leaf_need_app, leaf_need_cons in Hn. pose proof (leaf_need_pos recs). unfold itemSize, nodeHdrSize in *. lia. }
  rewrite (proj2 (Z.leb_le _ _) Hneed) in Hi. destruct Hi as (leaf1&E&[L _]&Hl1).
  assert (Hlt : Forall (fun r : rec => key_lt r.1 k) recs0).
  { apply keys_sorted_app in Hs as (_&_&Hlt). apply Forall_forall. intros r Hr. apply Hlt; [by apply list_elem_of_fmap_2|by left]. }
  assert (Hins : insert_at (first_gt k recs0) (k, d) recs0 = recs0 ++ [(k, d)]).
  { unfold insert_at. rewrite first_gt_end by done. by rewrite take_ge, drop_ge by lia. }
  rewrite Hins in Hl1. cbn [insert_all]. unfold insert_or_keep. cbn [fst snd]. rewrite E. cbn [mbind outcome_bind].
  destruct (IH leaf1 (recs0 ++ [(k, d)])) as (leaf2&E2&L2&R2); rewrite <- ?app_assoc; try done; [by rewrite L|].
  exists leaf2. rewrite <- app_assoc in R2. split_and!; [done|congruence|done].
Qed.

(** Items in any order end up in key order. *)
Lemma insert_all_perm leaf recs0 recs :
  leaf_repr leaf recs0 -> keys_sorted recs0 -> Forall (fun r => key_ok r.1) (recs0 ++ recs) -> NoDup (recs0 ++ recs).*1 ->
  leaf_need (recs0 ++ recs) <= blen leaf ->
  exists leaf' recs', insert_all leaf recs = Ok leaf' /\ blen leaf' = blen leaf /\ leaf_repr leaf' recs' /\
    keys_sorted recs' /\ recs' ≡ₚ recs0 ++ recs.
Proof.
  revert leaf recs0. induction recs as [|[k d] recs IH]; intros leaf recs0 Hl Hs Hk Hd Hn.
  { exists leaf, recs0. rewrite app_nil_r in *. done. }
  pose proof Hk as Hk'. apply Forall_app in Hk' as [Hk0 Hk1]. apply Forall_cons in Hk1 as [Hkk Hk1]. cbn [fst] in Hkk.
  pose proof (leafInsertItem_spec leaf recs0 k d Hl Hkk) as Hi.
  assert (Hneed : leaf_need recs0 + itemSize + blen d <= blen leaf).
  { rewrite leaf_need_app, leaf_need_cons in Hn. pose proof (leaf_need_pos recs). unfold itemSize, nodeHdrSize in *. lia. }
  rewrite (proj2 (Z.leb_le _ _) Hneed) in Hi. destruct Hi as (leaf1&E&[L _]&Hl1).
  set (recs1 := insert_at (first_gt k recs0) (k, d) recs0) in *.
  assert (Hp : recs1 ++ recs ≡ₚ recs0 ++ (k, d) :: recs).
  { unfold recs1, insert_at. pose proof (take_drop (first_gt k recs0) recs0) as Et. revert Et. generalize (take (first_gt k recs0) recs0), (drop (first_gt k recs0) recs0).
    intros l1 l2 <-. rewrite <- !app_assoc. apply Permutation_app_head. cbn [app]. apply Permutation_middle. }
  cbn [insert_all]. unfold insert_or_keep. cbn [fst snd]. rewrite E. cbn [mbind outcome_bind].
  destruct (IH leaf1 recs1) as (leaf2&recs2&E2&L2&R2&S2&P2); try done.
  - apply insert_at_sorted; try done. rewrite fmap_app, NoDup_app in Hd. destruct Hd as (_&Hd&_).
    intros Hin. apply (Hd k); [by apply list_elem_of_In|by left].
  - by rewrite Hp.
  - by rewrite Hp.
  - rewrite L. etrans; [|exact Hn]. rewrite !leaf_need_app, leaf_need_cons. unfold recs1. rewrite leaf_need_insert_at. lia.
  - exists leaf2, recs2. split_and!; [done|congruence|done|done|]. by rewrite P2.
Qed.

Lemma node_crc leaf recs : leaf_repr leaf recs -> exists leaf', updateNodeCRC leaf = Ok leaf' /\ blen leaf' = blen leaf /\ leaf_repr leaf' recs.
Proof.
  intros Hl. destruct (leaf_repr_bounds _ _ Hl) as [Hb _]. destruct (updateNodeCRC_csum leaf) as (leaf'&E&_&L&A); [unfold nodeHdrSize in Hb; lia|].
  exists leaf'. split_and!; [done|done|]. eapply leaf_repr_body; [exact Hl|]. split; [done|]. intros p Hp. apply A. lia.
Qed.

Section FormatLeaf.
Context (uuid chunkUUID : bytes) (Hu : blen uuid = 16) (Hc : blen chunkUUID = 16).

Lemma format_leaf_sorted a owner recs :
  Forall (fun r => key_ok r.1) recs -> keys_sorted recs -> leaf_need recs <= fmtNodeSize ->
  exists leaf, format_leaf uuid chunkUUID a owner recs = Ok leaf /\ blen leaf = fmtNodeSize /\ leaf_repr leaf recs.
Proof using Hu Hc.
  intros Hk Hs Hn. destruct (buildLeaf_empty uuid chunkUUID Hu Hc a 1 owner) as [Lb Hb]. unfold format_leaf.
  destruct (insert_all_sorted _ [] recs Hb) as (leaf&E&L&R); try done; [by rewrite Lb|]. rewrite E. cbn [mbind outcome_bind].
  destruct (node_crc leaf recs R) as (leaf'&E'&L'&R'). exists leaf'. split_and!; [done|congruence|done].
Qed.
Lemma format_leaf_perm a owner recs :
  Forall (fun r => key_ok r.1) recs -> NoDup recs.*1 -> leaf_need recs <= fmtNodeSize ->
  exists leaf recs', format_leaf uuid chunkUUID a owner recs = Ok leaf /\ blen leaf = fmtNodeSize /\ leaf_repr leaf recs' /\
    keys_sorted recs' /\ recs' ≡ₚ recs.
Proof using Hu Hc.
  intros Hk Hd Hn. destruct (buildLeaf_empty uuid chunkUUID Hu Hc a 1 owner) as [Lb Hb]. unfold format_leaf.
  destruct (insert_all_perm _ [] recs Hb) as (leaf&recs'&E&L&R&S&P); try done; [constructor|by rewrite Lb|]. rewrite E. cbn [mbind outcome_bind].
  destruct (node_crc leaf recs' R) as (leaf'&E'&L'&R'). exists leaf', recs'. split_and!; [done|congruence|done|done|done].
Qed.
End FormatLeaf.

(** ** The layout *)
Definition layout_at (start len : Z) : fmtLayout :=
  FmtLayout fmtSysChunkLogical (start - fmtSysChunkLogical) start len fmtSysChunkLogical start
    (start + 1 * fmtNodeSize) (start + 2 * fmtNodeSize) (start + 3 * fmtNodeSize) (start + 4 * fmtNodeSize)
    (start + 5 * fmtNodeSize) (start + 6 * fmtNodeSize) ((fmtSysBlocks + fmtDataBlocks) * fmtNodeSize)
    (start - fmtSysChunkLogical +₆₄ len).
Definition start_ok (start : Z) : Prop := start = 0x110000 \/ start = 0x500000.

Lemma layout_spec size :
  fmtMinSizeLayout <= size < 2 ^ 63 ->
  exists start len, computeLayout size = layout_at start len /\ start_ok start /\ 0x10000 <= len /\
    start + len <= size < start + len + 0x10000 /\ len mod 0x10000 = 0.
Proof.
  unfold fmtMinSizeLayout, fmtSysChunkLogical, fmtStripeLen. intros Hs. exists (fmtSysChunkLogical + sys_len size).
  exists ((size -₆₄ (fmtSysChunkLogical + sys_len size)) / fmtStripeLen * fmtStripeLen).
  assert (Hst : start_ok (fmtSysChunkLogical + sys_len size) /\ 0x10000 <= size - (fmtSysChunkLogical + sys_len size)).
  { unfold start_ok, sys_len, fmtSysChunkLogical, refSysLen, fmtDataBlocks, fmtNodeSize, fmtStripeLen. case_if; lia. }
  destruct Hst as [Hst Hroom]. assert (Hpos : 0 <= fmtSysChunkLogical + sys_len size) by (unfold start_ok in Hst; lia).
  rewrite u64_small by (unfold is_u64; lia). set (start := fmtSysChunkLogical + sys_len size) in *.
  split_and!.
  - unfold computeLayout, layout_at. fold start. rewrite u64_small by (unfold is_u64; lia).
    replace (start - fmtSysChunkLogical) with (sys_len size) by (unfold start; lia). done.
  - done.
  - unfold fmtStripeLen. change (64 * 1024) with 65536. pose proof (Z.mul_div_le (size - start) 65536 ltac:(lia)).
    assert (1 <= (size - start) / 65536) by (apply Z.div_le_lower_bound; lia). lia.
  - unfold fmtStripeLen. change (64 * 1024) with 65536. pose proof (Z.mul_div_le (size - start) 65536 ltac:(lia)). lia.
  - unfold fmtStripeLen. change (64 * 1024) with 65536. pose proof (Z.mod_pos_bound (size - start) 65536 ltac:(lia)).
    pose proof (Z.div_mod (size - start) 65536 ltac:(lia)). lia.
  - unfold fmtStripeLen. change (64 * 1024) with 65536. apply Z.mod_mul. lia.
Qed.

(** ** The items *)
Lemma root_item_fields dirID bytenr : is_u64 bytenr ->
  blen (buildRootItemBytes dirID bytenr) = 439 /\ rd 8 (buildRootItemBytes dirID bytenr) rootItemOffBytenr = bytenr.
Proof.
  intros Hb.
  set (l := [(8%nat, inodeOffNBytes, fmtNodeSize); (8%nat, 0xA0, 1); (8%nat, 0xA8, dirID)] ++ (8%nat, 0xB0, bytenr) ::
    [(8%nat, 0xB8, 0); (8%nat, 0xC0, fmtNodeSize); (8%nat, 0xC8, 0); (8%nat, 0xD0, 0); (4%nat, 0xD8, 1); (1%nat, 0xEE, 0);
     (8%nat, rootItemOffGenerationV2, 1)] : list field).
  change (buildRootItemBytes dirID bytenr) with (put_fields (zeros 439) l). split.
  - rewrite (blen_put_fields 439); [by rewrite blen_zeros|reflexivity|by rewrite blen_zeros].
  - unfold l. rewrite (rd_put_fields 439); [|reflexivity|by rewrite blen_zeros|reflexivity]. apply Z.mod_small. unfold is_u64 in Hb. cbn. lia.
Qed.

Definition time_fields (off : Z) (now : timespec) : list field := [(8%nat, off, u64 now.1); (4%nat, off + 8, u32 now.2)].
Lemma root_dir_fields now :
  blen (root_dir_inode now) = inodeItemSize /\ rd 8 (root_dir_inode now) inodeOffSize = 0 /\
  rd 4 (root_dir_inode now) inodeOffNLink = 1 /\ rd 4 (root_dir_inode now) inodeOffMode = 0x41ED.
Proof.
  set (l := [(8%nat, inodeOffGeneration, 1); (4%nat, inodeOffNLink, 1); (4%nat, inodeOffMode, 0x41ED); (8%nat, inodeOffFlags, inodeFlagNoDataSum)]
    ++ time_fields inodeOffATime now ++ time_fields inodeOffCTime now ++ time_fields inodeOffMTime now ++ time_fields inodeOffOTime now : list field).
  change (root_dir_inode now) with (put_fields (zeros inodeItemSize) l).
  assert (Hz : blen (zeros inodeItemSize) = inodeItemSize) by (by rewrite blen_zeros). split_and!.
  - rewrite (blen_put_fields inodeItemSize); [done|reflexivity|by rewrite Hz].
  - rewrite (rd_put_fields_out inodeItemSize); [apply rd_zeros|reflexivity|by rewrite Hz|reflexivity|vm_compute; discriminate|rewrite Hz; vm_compute; discriminate].
  - change l with ([(8%nat, inodeOffGeneration, 1)] ++ (4%nat, inodeOffNLink, 1) :: (4%nat, inodeOffMode, 0x41ED) :: drop 3 l).
    rewrite (rd_put_fields inodeItemSize); [reflexivity|reflexivity|by rewrite Hz|reflexivity].
  - change l with ([(8%nat, inodeOffGeneration, 1); (4%nat, inodeOffNLink, 1)] ++ (4%nat, inodeOffMode, 0x41ED) :: drop 3 l).
    rewrite (rd_put_fields inodeItemSize); [reflexivity|reflexivity|by rewrite Hz|reflexivity].
Qed.

Lemma root_dir_ref_blen : blen root_dir_ref = 12.
Proof. reflexivity. Qed.
Lemma dev_extent_blen a l chunkUUID : blen chunkUUID = 16 -> blen (buildDevExtentBytes a l chunkUUID) = fmtDevExtentSize.
Proof.
  intros Hc. assert (Hz : blen (zeros fmtDevExtentSize) = fmtDevExtentSize) by (by rewrite blen_zeros).
  change (buildDevExtentBytes a l chunkUUID) with (patches (zeros fmtDevExtentSize)
    [(0, le_enc 8 chunkTreeObjID); (8, le_enc 8 firstChunkTreeObjID); (16, le_enc 8 a); (24, le_enc 8 l); (32, chunkUUID)]).
  apply blen_patches; [|done]. unfold shape. cbn [map fst snd]. rewrite !blen_le_enc, Hc. reflexivity.
Qed.
