(* ===== verification/FormatMount.v ===== *)
(** * A formatted image mounts (format.go, fs.go)

    [Format] on a file of any admitted size ends in the mounted file system of the image
    it wrote: an FS tree that holds the root directory, every block of the image out of
    the free list, everything the write operations ask for. *)
From Stdlib Require Import ZArith Lia Strings.Byte.
From stdpp Require Import base option list numbers sorting gmap.
From S2P Require Import Prelude Bytes Alloc Layout SafeIO Chunk MultiDev Node BTree Walk Split Crc32c Cow Store CowCorrect.
From S2P Require Import Codec Read FileRead Mount Tx Extent Ops FsTree FsLookup InodeEdit Rebuild FsData ExtentLayout ExtentWrite.
From S2P Require Import CommitCorrect InodeOps Entries Paths Create CreateApi Resize Format FormatItems FormatLeaves.
Local Open Scope Z_scope.
Local Open Scope btrfs_scope.

(** ** Writing the blocks *)
Definition clear_of (w w' : Z * bytes) : Prop := w.1 + blen w.2 <= w'.1 \/ w'.1 + blen w'.2 <= w.1.
Fixpoint apart (ws : list (Z * bytes)) : Prop :=
  match ws with
  | [] => True
  | w :: ws => Forall (clear_of w) ws /\ apart ws
  end.

Section Write.
Context {D : Type} `{RWL : RWLaws D}.

Lemma write_all_reads ws (d : D) :
  Forall (fun w => 0 <= w.1 /\ w.1 + blen w.2 <= Store.dev_size d) ws -> Store.dev_size d < 2 ^ 63 -> apart ws ->
  exists d', write_all ws d = (d', Ok tt) /\ Store.dev_size d' = Store.dev_size d /\
    (forall w, w ∈ ws -> ReadAt d' w.1 (blen w.2) = Ok w.2) /\
    forall off n, 0 <= n -> Forall (fun w => off + n <= w.1 \/ w.1 + blen w.2 <= off) ws -> ReadAt d' off n = ReadAt d off n.
Proof using RWL.
  revert d. induction ws as [|[off b] ws IH]; intros d Hin Hsz Hap.
  { exists d. split_and!; try done. by intros w ?%not_elem_of_nil. }
  apply Forall_cons in Hin as [[H0 Hl] Hin]. cbn [fst snd] in *. destruct Hap as [Hc Hap]. pose proof (blen_nonneg b).
  destruct (WriteAt_in d off b H0 Hl) as (d1&E1&S1&R1&F1).
  destruct (IH d1) as (d2&E2&S2&R2&F2); [by rewrite S1|by rewrite S1|done|]. exists d2. split_and!.
  - cbn [write_all fst snd]. rewrite i64_small by lia. rewrite (sm_bind_Ok _ _ _ d1 tt); [done|exact E1].
  - congruence.
  - intros w [->|Hw]%elem_of_cons; [|by apply R2]. cbn [fst snd]. rewrite F2; [done|lia|].
    eapply Forall_impl; [exact Hc|]. intros w' [?|?]; cbn [fst snd] in *; lia.
  - intros o n Hn Hf. apply Forall_cons in Hf as [Hf1 Hf]. cbn [fst snd] in Hf1. rewrite F2 by done. apply F1; [done|lia].
Qed.
End Write.

(** ** The blocks *)
Ltac distinct_keys :=
  unfold typeMetadataItem, typeBlockGroupItem, typePersistentItem, typeDevExtent;
  repeat (apply NoDup_cons; split;
    [rewrite ?elem_of_cons, elem_of_nil; let Hin := fresh in intros Hin;
     repeat (destruct Hin as [Hin|Hin]; [exfalso; revert Hin; intros [=]; lia|]); exact Hin|]);
  apply NoDup_nil_2.

Section Blocks.
Context (start len size : Z) (uuid devUUID chunkUUID label : bytes) (now : timespec).
Context (Hstart : start_ok start) (Hlen : 0x10000 <= len) (Hsize : start + len <= size < 2 ^ 63).
Context (Huuid : blen uuid = 16) (Hdev : blen devUUID = 16) (Hchunk : blen chunkUUID = 16).
Abbreviation lay := (layout_at start len).

Lemma layout_u64 : is_u64 (fl_sysChunkLogical lay) /\ is_u64 (fl_sysChunkLen lay) /\ is_u64 (fl_dataChunkLogical lay) /\
  is_u64 (fl_dataChunkLen lay) /\ is_u64 (fl_rootLog lay) /\ is_u64 (fl_chunkLog lay) /\ is_u64 (fl_fsLog lay) /\
  is_u64 (fl_extentLog lay) /\ is_u64 (fl_devLog lay) /\ is_u64 (fl_csumLog lay) /\ is_u64 (fl_uuidLog lay) /\ is_u64 (fl_dataRelocLog lay).
Proof using Hstart Hlen Hsize.
  unfold is_u64, layout_at, fmtSysChunkLogical, fmtNodeSize. cbn [fl_sysChunkLogical fl_sysChunkLen fl_dataChunkLogical fl_dataChunkLen
    fl_rootLog fl_chunkLog fl_fsLog fl_extentLog fl_devLog fl_csumLog fl_uuidLog fl_dataRelocLog]. unfold start_ok in Hstart. lia.
Qed.

Lemma root_items_ok :
  Forall (fun r => key_ok r.1) (root_items lay) /\ keys_sorted (root_items lay) /\ leaf_need (root_items lay) <= fmtNodeSize.
Proof using Hstart Hlen Hsize.
  destruct layout_u64 as (_&_&_&_&U1&U2&U3&U4&U5&U6&U7&U8). split_and!.
  - unfold root_items. repeat constructor; vm_compute; congruence.
  - unfold keys_sorted, root_items. cbn [map fst]. repeat constructor.
  - unfold leaf_need, root_items, recs_size, nrecs. cbn [map snd length].
    rewrite !(fun a b H => proj1 (root_item_fields a b H)) by done. vm_compute. discriminate.
Qed.

Lemma dir_items_ok :
  Forall (fun r => key_ok r.1) (dir_items now) /\ keys_sorted (dir_items now) /\ leaf_need (dir_items now) <= fmtNodeSize.
Proof using.
  split_and!.
  - unfold dir_items. repeat constructor; vm_compute; congruence.
  - unfold keys_sorted, dir_items. cbn [map fst]. repeat constructor.
  - unfold leaf_need, dir_items, recs_size, nrecs. cbn [map snd length].
    rewrite (proj1 (root_dir_fields now)), root_dir_ref_blen. vm_compute. discriminate.
Qed.

Lemma chunk_items_ok :
  Forall (fun r => key_ok r.1) (chunk_items lay size devUUID uuid) /\ keys_sorted (chunk_items lay size devUUID uuid) /\
  leaf_need (chunk_items lay size devUUID uuid) <= fmtNodeSize.
Proof using Hstart Hlen Hsize Huuid Hdev.
  destruct layout_u64 as (U1&U2&U3&U4&_). split_and!.
  - unfold chunk_items. repeat constructor; cbn [fst objID typ offset]; unfold is_u64 in *; first [lia|vm_compute; congruence].
  - unfold keys_sorted, chunk_items. cbn [map fst]. repeat constructor; unfold key_lt, key_num; cbn [objID typ offset];
      unfold layout_at, fmtSysChunkLogical, devItemsObjID, firstChunkTreeObjID, typeDevItem, typeChunkItem, start_ok in *;
      cbn [fl_sysChunkLogical fl_dataChunkLogical]; lia.
  - unfold leaf_need, chunk_items, recs_size, nrecs. cbn [map snd length].
    rewrite dev_item_blen, sys_item_blen by done. unfold buildDataChunkItemBytes. rewrite chunk_item_blen by done.
    vm_compute. discriminate.
Qed.

Lemma extent_items_ok :
  Forall (fun r => key_ok r.1) (extent_items lay) /\ NoDup (extent_items lay).*1 /\ leaf_need (extent_items lay) <= fmtNodeSize.
Proof using Hstart Hlen Hsize.
  destruct layout_u64 as (U1&U2&U3&U4&U5&U6&U7&U8&U9&U10&U11&U12). unfold is_u64 in *. split_and!.
  - unfold extent_items, addMeta, addBG. repeat constructor; cbn [fst objID typ offset]; first [lia|vm_compute; congruence].
  - unfold extent_items, addMeta, addBG. rewrite !fmap_cons, fmap_nil. cbn [fst].
    unfold layout_at, fmtSysChunkLogical, fmtNodeSize, start_ok in *.
    cbn [fl_sysChunkLogical fl_sysChunkLen fl_dataChunkLogical fl_dataChunkLen fl_rootLog fl_chunkLog fl_fsLog fl_extentLog fl_devLog fl_csumLog fl_uuidLog fl_dataRelocLog].
    distinct_keys.
  - unfold leaf_need, extent_items, recs_size, nrecs, addMeta, addBG. cbn [map snd length]. vm_compute. discriminate.
Qed.
Lemma dev_items_ok :
  Forall (fun r => key_ok r.1) (dev_items lay chunkUUID) /\ NoDup (dev_items lay chunkUUID).*1 /\ leaf_need (dev_items lay chunkUUID) <= fmtNodeSize.
Proof using Hstart Hlen Hsize Hchunk.
  destruct layout_u64 as (U1&U2&U3&U4&_). unfold is_u64 in *. split_and!.
  - unfold dev_items. repeat constructor; cbn [fst objID typ offset]; first [lia|vm_compute; congruence].
  - unfold dev_items. rewrite !fmap_cons, fmap_nil. cbn [fst].
    unfold layout_at, fmtSysChunkLogical, start_ok in *. cbn [fl_sysChunkLogical fl_dataChunkLogical].
    distinct_keys.
  - unfold leaf_need, dev_items, recs_size, nrecs. cbn [map snd length]. rewrite !dev_extent_blen by done. vm_compute. discriminate.
Qed.

(** The leaves of the image: where they are and what they store. *)
Definition image_leaves (ext dev : list rec) : list (Z * list rec) :=
  [(fl_chunkLog lay, chunk_items lay size devUUID uuid); (fl_rootLog lay, root_items lay); (fl_fsLog lay, dir_items now);
   (fl_extentLog lay, ext); (fl_devLog lay, dev); (fl_csumLog lay, []); (fl_uuidLog lay, []); (fl_dataRelocLog lay, dir_items now)].
Definition leaf_of (w : Z * bytes) (l : Z * list rec) : Prop := w.1 = l.1 /\ blen w.2 = fmtNodeSize /\ leaf_repr w.2 l.2.

Lemma format_writes_ok : exists h leaves ext dev,
  format_writes lay size uuid devUUID chunkUUID label now =
    Ok ((fmtSuperblockOff, wr 4 (buildSuperblockBytes uuid devUUID label size lay) 0 h) :: leaves) /\
  Forall2 leaf_of leaves (image_leaves ext dev) /\
  keys_sorted ext /\ ext ≡ₚ extent_items lay /\ keys_sorted dev /\ dev ≡ₚ dev_items lay chunkUUID.
Proof using Hstart Hlen Hsize Huuid Hdev Hchunk.
  destruct extent_items_ok as (K4&S4&N4). destruct dev_items_ok as (K5&S5&N5). destruct chunk_items_ok as (K1&S1&N1). destruct root_items_ok as (K2&S2&N2). destruct dir_items_ok as (K3&S3&N3).
  destruct (format_leaf_sorted uuid chunkUUID Huuid Hchunk (fl_chunkLog lay) chunkTreeObjID _ K1 S1 N1) as (b1&E1&L1&R1).
  destruct (format_leaf_sorted uuid chunkUUID Huuid Hchunk (fl_rootLog lay) rootTreeObjID _ K2 S2 N2) as (b2&E2&L2&R2).
  destruct (format_leaf_sorted uuid chunkUUID Huuid Hchunk (fl_fsLog lay) fsTreeObjID _ K3 S3 N3) as (b3&E3&L3&R3).
  destruct (format_leaf_sorted uuid chunkUUID Huuid Hchunk (fl_dataRelocLog lay) dataRelocTreeObjID _ K3 S3 N3) as (b8&E8&L8&R8).
  destruct (format_leaf_perm uuid chunkUUID Huuid Hchunk (fl_extentLog lay) extentTreeObjID _ K4 S4 N4) as (b4&ext&E4&L4&R4&O4&P4).
  destruct (format_leaf_perm uuid chunkUUID Huuid Hchunk (fl_devLog lay) devTreeObjID _ K5 S5 N5) as (b5&dev&E5&L5&R5&O5&P5).
  destruct (format_leaf_sorted uuid chunkUUID Huuid Hchunk (fl_csumLog lay) csumTreeObjID []) as (b6&E6&L6&R6);
    [done|constructor|vm_compute; discriminate|].
  destruct (format_leaf_sorted uuid chunkUUID Huuid Hchunk (fl_uuidLog lay) uuidTreeObjID []) as (b7&E7&L7&R7);
    [done|constructor|vm_compute; discriminate|].
  destruct (superblock_crc uuid devUUID label size lay Huuid Hdev) as (h&Eh&_).
  exists h, [(fl_chunkLog lay, b1); (fl_rootLog lay, b2); (fl_fsLog lay, b3); (fl_extentLog lay, b4); (fl_devLog lay, b5);
    (fl_csumLog lay, b6); (fl_uuidLog lay, b7); (fl_dataRelocLog lay, b8)], ext, dev. split_and!; [| |done..].
  - unfold format_writes, buildDirTreeLeaf. rewrite E1, E2, E3, E8, E4, E5, E6, E7, Eh. cbn [mbind outcome_bind]. reflexivity.
  - unfold image_leaves. repeat (apply Forall2_cons_2; [split; [reflexivity|split; assumption]|]). apply Forall2_nil_2.
Qed.
End Blocks.

(** ** The image on the device *)
Section Image.
Context `{HL : SafeIOLaws} {D : Type} `{RWL : RWLaws D}.
Context (start len size : Z) (uuid devUUID chunkUUID label : bytes) (now : timespec).
Context (Hstart : start_ok start) (Hlen : 0x10000 <= len) (Hsize : start + len <= size < 2 ^ 63).
Context (Huuid : blen uuid = 16) (Hdev : blen devUUID = 16) (Hchunk : blen chunkUUID = 16).
Abbreviation lay := (layout_at start len).
Abbreviation leaves_at := (image_leaves start len size uuid devUUID now).

Definition image (d : D) (label' : bytes) (ext dev : list rec) : Prop :=
  Store.dev_size d = size /\ keys_sorted ext /\ ext ≡ₚ extent_items lay /\ keys_sorted dev /\ readSuperblock (ReadAt d) 0 = Ok (format_sb lay size uuid label') /\
  forall a recs, (a, recs) ∈ leaves_at ext dev ->
    exists buf, ReadAt d a fmtNodeSize = Ok buf /\ blen buf = fmtNodeSize /\ leaf_repr buf recs.

Lemma leaves_apart leaves ext dev :
  Forall2 leaf_of leaves (leaves_at ext dev) ->
  Forall (fun w => 0x10000 + 0x1000 <= w.1 /\ w.1 + blen w.2 <= size) leaves /\ apart leaves /\
  Forall (fun w => 0x10000 <= w.1 /\ w.1 + blen w.2 <= start + 0x7000) leaves.
Proof using Hstart Hlen Hsize.
  unfold image_leaves. intros Hf.
  repeat match goal with
  | H : Forall2 leaf_of _ (_ :: _) |- _ => apply Forall2_cons_inv_r in H as ([? ?]&?&(?&?&?)&H&->)
  | H : Forall2 leaf_of _ [] |- _ => apply Forall2_nil_inv_r in H as ->
  end. cbn [fst snd] in *. subst.
  unfold apart, clear_of, layout_at, fmtSysChunkLogical, fmtNodeSize in *.
  cbn [fl_chunkLog fl_rootLog fl_fsLog fl_extentLog fl_devLog fl_csumLog fl_uuidLog fl_dataRelocLog] in *.
  split; [|split]; [repeat constructor|split_and!; repeat constructor|repeat constructor]; cbn [fst snd];
    repeat match goal with H : blen _ = 4096 |- _ => rewrite ?H; clear H end; unfold start_ok in Hstart; lia.
Qed.

Lemma format_writes_image (d : D) :
  Store.dev_size d = size ->
  exists ws d' label' ext dev, format_writes lay size uuid devUUID chunkUUID label now = Ok ws /\
    write_all ws d = (d', Ok tt) /\ image d' label' ext dev /\
    forall off n, 0 <= n -> off + n <= 0x10000 \/ start + 0x7000 <= off -> ReadAt d' off n = ReadAt d off n.
Proof using HL RWL Hstart Hlen Hsize Huuid Hdev Hchunk.
  intros Hd. destruct (format_writes_ok start len size uuid devUUID chunkUUID label now) as (h&leaves&ext&dev&E&Hf&O4&P4&O5&P5); try done.
  destruct (layout_u64 start len size) as (U1&U2&_&_&U3&U4&_); try done.
  destruct (superblock_parses uuid devUUID label size lay Huuid Hdev U1 U2 U3 U4 ltac:(unfold is_u64, start_ok in *; lia) h) as (label'&Ep).
  assert (Hb : blen (wr 4 (buildSuperblockBytes uuid devUUID label size lay) 0 h) = 0x1000)
    by (rewrite blen_wr; rewrite ?superblock_blen by done; lia).
  destruct (leaves_apart leaves ext dev Hf) as (Hin&Hap&Hlow).
  destruct (write_all_reads ((fmtSuperblockOff, wr 4 (buildSuperblockBytes uuid devUUID label size lay) 0 h) :: leaves) d)
    as (d'&Ew&Es&Hr&Hout).
  - constructor; cbn [fst snd].
    + rewrite Hb, Hd. unfold fmtSuperblockOff, start_ok in *. lia.
    + eapply Forall_impl; [exact Hin|]. intros w. cbn. rewrite Hd. lia.
  - rewrite Hd. lia.
  - cbn [apart]. split; [|done]. eapply Forall_impl; [exact Hin|]. intros w [H1 _]. left. cbn [fst snd]. rewrite Hb. unfold fmtSuperblockOff. lia.
  - do 5 eexists. split; [exact E|]. split; [exact Ew|]. split; [split; [congruence|]|]. split; [exact O4|]. split; [exact P4|]. split; [exact O5|]. split.
    + unfold readSuperblock. specialize (Hr (fmtSuperblockOff, _) ltac:(by left)). cbn [fst snd] in Hr. rewrite Hb in Hr.
      change (i64 (0 + superblockOffset)) with fmtSuperblockOff. change sbfSize with 0x1000. rewrite Hr. exact Ep.
    + intros a recs Ha. apply list_elem_of_lookup in Ha as [i Hi]. destruct (Forall2_lookup_r _ _ _ _ _ Hf Hi) as (w&Hw&E1&L&R).
      cbn [fst snd] in *. exists w.2. split_and!; [|done|done]. rewrite <- E1, <- L. apply Hr. right. by eapply list_elem_of_lookup_2.
    + intros off n Hn Ho. apply Hout; [done|]. constructor.
      * cbn [fst snd]. rewrite Hb. unfold fmtSuperblockOff, start_ok in *. lia.
      * eapply Forall_impl; [exact Hlow|]. intros w. cbn. unfold start_ok in *. lia.
Qed.
End Image.
