(* ===== verification/FormatReady.v ===== *)
(** * The mounted image (format.go, fs.go)

    Reading the nodes of a formatted image through the device pool, loading its chunk
    tree, resolving its FS tree and building its space manager; the state the write
    operations then start from. *)
From Stdlib Require Import ZArith Lia Strings.Byte.
From stdpp Require Import base option list numbers sorting gmap.
From S2P Require Import Prelude Bytes Alloc Layout SafeIO Chunk MultiDev Node BTree Walk Split Crc32c Cow Store CowCorrect.
From S2P Require Import Codec Read FileRead Mount Tx Extent Ops FsTree FsLookup InodeEdit Rebuild FsData ExtentLayout ExtentWrite.
From S2P Require Import CommitCorrect InodeOps Entries Paths Create CreateApi Resize Format FormatItems FormatLeaves FormatMount.
Local Open Scope Z_scope.
Local Open Scope btrfs_scope.

Section Mounted.
Context `{HL : SafeIOLaws} {D : Type} `{RWL : RWLaws D}.
Context (start len size : Z) (uuid devUUID label' : bytes) (now : timespec).
Context (Hstart : start_ok start) (Hlen : 0x10000 <= len) (Hsize : start + len <= size < 2 ^ 62).
Context (Huuid : blen uuid = 16) (Hdev : blen devUUID = 16).
Context (d : D) (ext dev : list rec) (Himg : image start len size uuid devUUID now d label' ext dev).
Abbreviation lay := (layout_at start len).
Abbreviation sb0 := (format_sb lay size uuid label').
Abbreviation pool := (newDevicePool (ReadAt d) 0 sb0).

(** The superblock after the load of the chunk tree. *)
Definition loaded_sb : superblock := set_sysChunks sb0 [sys_mapping lay; data_mapping lay].

Lemma sys_in a : 0x100000 <= a < start -> cm_logStart (sys_mapping lay) <= a < cm_logStart (sys_mapping lay) + cm_size (sys_mapping lay).
Proof using. cbn. unfold fmtSysChunkLogical. lia. Qed.
Lemma data_in a : start <= a < start + len -> cm_logStart (data_mapping lay) <= a < cm_logStart (data_mapping lay) + cm_size (data_mapping lay).
Proof using. cbn. lia. Qed.

Lemma loaded_wf : chunk_map_wf [sys_mapping lay; data_mapping lay].
Proof using Hstart Hlen Hsize.
  unfold start_ok in Hstart. split.
  - intros m. rewrite !elem_of_cons, elem_of_nil. unfold sys_mapping, data_mapping, layout_at, fmtSysChunkLogical.
    intros [->|[->|[]]]; cbn; lia.
  - intros m m'. rewrite !elem_of_cons, !elem_of_nil. unfold disjoint_ranges, sys_mapping, data_mapping, layout_at, fmtSysChunkLogical.
    intros [->|[->|[]]] [->|[->|[]]]; cbn; first [by left|right; lia].
Qed.

(** A chunk of the image is one stripe on the primary device, at its own address. *)
Definition own_stripe (m : chunkMapping) : Prop :=
  mirrored m = true /\ cm_localStripeIdx m = 0 /\ cm_stripes m = [ChunkStripe 1 (cm_logStart m)].

Lemma pool_reads sbx a m b :
  sb_nodeSize sbx = fmtNodeSize -> lookupChunk sbx a = Ok m -> own_stripe m -> 0 <= cm_logStart m <= a -> a < 2 ^ 62 ->
  ReadAt d a fmtNodeSize = Ok b -> readNodeUncached (pool_ReadAt (with_sb pool sbx)) 0 sbx a = Ok b.
Proof using HL.
  intros Hns El (Hm&Hi&Hs) Hb Ha Hr. rewrite (readNode_mirrored pool 0 ltac:(lia) eq_refl sbx a m El Hm) by lia.
  rewrite Hns. destruct (MakeBytes_cases fmtNodeSize maxNodeSize) as [[-> _]|E].
  2: { pose proof (MakeBytes_spec fmtNodeSize maxNodeSize) as Hq. rewrite E in Hq. cbn in Hq. discriminate Hq. }
  cbn [mbind outcome_bind]. rewrite blen_zeros by (unfold fmtNodeSize; lia).
  assert (Ht : tryStripe pool fmtNodeSize (a -₆₄ cm_logStart m) (ChunkStripe 1 (cm_logStart m)) = Some (Ok b)).
  { unfold tryStripe. change (dp_devices pool !! _) with (Some (ReadAt d)). cbn [cs_offset dp_partOff newDevicePool].
    rewrite (u64_small (a - cm_logStart m)) by (unfold is_u64; lia).
    replace (cm_logStart m + (a - cm_logStart m)) with a by lia.
    rewrite u64_small by (unfold is_u64; lia). rewrite !i64_small by (rewrite ?i64_small; lia).
    rewrite Z.add_0_l. by rewrite Hr. }
  unfold readSingleOrMirror. rewrite Hi, Hs. change ([ChunkStripe 1 (cm_logStart m)] !! Z.to_nat 0) with (Some (ChunkStripe 1 (cm_logStart m))).
  cbn [length]. by rewrite Ht.
Qed.

Lemma sys_own : own_stripe (sys_mapping lay).
Proof using. done. Qed.
Lemma data_own : own_stripe (data_mapping lay).
Proof using. done. Qed.

(** ** The chunk tree *)
Abbreviation leaves_at := (image_leaves start len size uuid devUUID now ext dev).

Lemma chunk_leaf : exists buf, ReadAt d fmtSysChunkLogical fmtNodeSize = Ok buf /\ leaf_repr buf (chunk_items lay size devUUID uuid).
Proof using Himg. destruct Himg as (_&_&_&_&_&Hl). destruct (Hl fmtSysChunkLogical _ ltac:(by left)) as (buf&E&_&R). by exists buf. Qed.

Lemma boot_wf : chunk_map_wf (sb_sysChunks sb0).
Proof using Hstart Hlen Hsize.
  destruct loaded_wf as [H1 H2]. cbn [sb_sysChunks format_sb]. split.
  - intros m Hm%list_elem_of_singleton. apply H1. rewrite Hm. by left.
  - intros m m' Hm%list_elem_of_singleton Hm'%list_elem_of_singleton. left. congruence.
Qed.

Lemma boot_lookup : lookupChunk sb0 fmtSysChunkLogical = Ok (sys_mapping lay).
Proof using Hstart Hlen Hsize.
  unfold lookupChunk. rewrite (find_chunk sb0 boot_wf (sys_mapping lay)); [done|by left|apply sys_in].
  unfold fmtSysChunkLogical, start_ok in *. lia.
Qed.

Lemma chunk_tree : subtree (boot_node pool 0 sb0) 0 (sb_chunkLogAddr sb0) (chunk_items lay size devUUID uuid) [fmtSysChunkLogical].
Proof using HL Hstart Hlen Hsize Huuid Hdev Himg.
  destruct chunk_leaf as (buf&E&R). destruct (chunk_items_ok start len size uuid devUUID) as (_&Hs&_); try done; [lia|].
  exists buf. split_and!; [|done|done|done]. change (sb_chunkLogAddr sb0) with fmtSysChunkLogical.
  unfold boot_node. rewrite boot_lookup. change (mirrored (sys_mapping lay) && _ && _) with true. cbv match.
  apply (pool_reads sb0 _ (sys_mapping lay)); [done|apply boot_lookup|apply sys_own|cbn; unfold fmtSysChunkLogical; lia|done|done].
Qed.

Lemma chunk_maps :
  foldl add_mapping [sys_mapping lay] (omap (chunk_of 1) (chunk_items lay size devUUID uuid)) = [sys_mapping lay; data_mapping lay].
Proof using Hstart Hlen Hsize Huuid Hdev.
  destruct (layout_u64 start len size) as (U1&U2&U3&U4&_); try done; [lia|].
  assert (Hc : forall a l t io iw ss, is_u64 l -> is_u64 t -> is_u64 a -> 0 <= ss < 2 ^ 16 ->
     chunk_of 1 (Key firstChunkTreeObjID typeChunkItem a, buildChunkItemBytes l t a io iw ss devUUID) =
     Some (ChunkMapping a l a 0 t fmtStripeLen ss [ChunkStripe 1 a])).
  { intros a l t io iw ss Hl Ht Ha Hss.
    pose proof (chunk_item_decodes l t a io iw ss devUUID Hdev Hl Ht Ha Hss [] a) as Hd. rewrite app_nil_r in Hd.
    pose proof (chunk_item_stripes l t a io iw ss devUUID Hdev) as Hn.
    unfold chunk_of. cbn [fst snd typ offset]. rewrite chunk_item_blen, Hn by done. rewrite Hd. reflexivity. }
  unfold chunk_items. cbn [omap list_omap]. change (chunk_of 1 (Key devItemsObjID typeDevItem 1, _)) with (@None chunkMapping). cbv match.
  unfold buildSysChunkItemBytes, buildDataChunkItemBytes.
  rewrite !Hc by (try done; vm_compute; split; congruence). cbn [foldl].
  fold (sys_mapping lay) (data_mapping lay).
  unfold add_mapping. cbn [existsb]. rewrite (proj2 (same_mapping_id _ _) eq_refl). cbn [orb existsb].
  assert (Hne : same_mapping (data_mapping lay) (sys_mapping lay) = false).
  { apply not_true_iff_false. rewrite same_mapping_id. unfold map_id, sys_mapping, data_mapping, layout_at, fmtSysChunkLogical. cbn.
    unfold start_ok in Hstart. intros [= ? _ _]. lia. }
  by rewrite Hne.
Qed.

Lemma load_image : loadChunkTree pool 0 sb0 = (loaded_sb, Ok tt).
Proof using HL Hstart Hlen Hsize Huuid Hdev Himg.
  destruct (loadChunkTree_spec pool 0 sb0 ltac:(lia) eq_refl 0 _ _ chunk_tree) as (sb'&E&Ec&(l&El)&_).
  - apply NoDup_singleton.
  - done.
  - done.
  - rewrite E. unfold loaded_sb. rewrite <- chunk_maps. change [sys_mapping lay] with (sb_sysChunks sb0).
    change 1 with (sb_devID sb0). rewrite <- Ec, El. done.
Qed.

(** ** The trees *)
Lemma leaf_addr a recs : (a, recs) ∈ leaves_at ->
  0x100000 <= a /\ (a + fmtNodeSize <= start \/ start <= a) /\ a + fmtNodeSize <= start + len.
Proof using Hstart Hlen.
  unfold image_leaves. rewrite !elem_of_cons, elem_of_nil. unfold layout_at, fmtSysChunkLogical, fmtNodeSize, start_ok in *.
  cbn [fl_chunkLog fl_rootLog fl_fsLog fl_extentLog fl_devLog fl_csumLog fl_uuidLog fl_dataRelocLog].
  intros Ha. repeat destruct Ha as [[= -> _]|Ha]; [lia..|done].
Qed.

Lemma loaded_lookup a : 0x100000 <= a < start + len -> exists m, lookupChunk loaded_sb a = Ok m /\ own_stripe m /\ 0 <= cm_logStart m <= a.
Proof using Hstart Hlen Hsize.
  intros Ha. assert (Hf : forall m, m ∈ [sys_mapping lay; data_mapping lay] -> cm_logStart m <= a < cm_logStart m + cm_size m ->
    lookupChunk loaded_sb a = Ok m).
  { intros m Hm Hin. unfold lookupChunk. by rewrite (find_chunk loaded_sb loaded_wf m) by done. }
  destruct (Z_lt_ge_dec a start) as [Hlt|Hge].
  - exists (sys_mapping lay). split_and!; [apply Hf; [by left|by apply sys_in; lia]|apply sys_own|..];
      unfold sys_mapping, layout_at, fmtSysChunkLogical; cbn; lia.
  - exists (data_mapping lay). unfold start_ok in Hstart.
    split_and!; [apply Hf; [right; by left|by apply data_in; lia]|apply data_own|..]; unfold data_mapping, layout_at; cbn; lia.
Qed.

Abbreviation prn := (readNodeUncached (pool_ReadAt (with_sb pool loaded_sb)) 0 loaded_sb).

Lemma pool_leaf a recs : (a, recs) ∈ leaves_at -> exists buf, ReadAt d a fmtNodeSize = Ok buf /\ prn a = Ok buf /\ leaf_repr buf recs.
Proof using HL Hstart Hlen Hsize Himg.
  intros Ha. destruct (leaf_addr _ _ Ha) as (H1&_&H2). destruct Himg as (_&_&_&_&_&Hl). destruct (Hl _ _ Ha) as (buf&E&_&R).
  destruct (loaded_lookup a) as (m&El&Ho&Hm); [unfold fmtNodeSize in H2; lia|]. exists buf. split_and!; [done| |done].
  apply (pool_reads loaded_sb a m); try done. unfold fmtNodeSize in H2. lia.
Qed.

Lemma pool_tree a recs : (a, recs) ∈ leaves_at -> keys_sorted recs -> tree_at prn a recs [a].
Proof using HL Hstart Hlen Hsize Himg.
  intros Ha Hs. destruct (pool_leaf _ _ Ha) as (buf&_&E&R). exists 0%nat. split_and!; [|apply NoDup_singleton|done|done].
  by exists buf.
Qed.

Lemma root_bytenr_item o dirID b : is_u64 b -> b <> 0 ->
  root_bytenr (Key o typeRootItem 0, buildRootItemBytes dirID b) = Some b.
Proof using.
  intros Hb Hb0. destruct (root_item_fields dirID b Hb) as [L R]. unfold root_bytenr. cbn [fst snd typ]. rewrite L, R.
  rewrite (proj2 (Z.eqb_neq b 0)) by done. reflexivity.
Qed.
Lemma root_map_lookup o dirID b : (Key o typeRootItem 0, buildRootItemBytes dirID b) ∈ root_items lay ->
  leaf_map (root_items lay) !! Key o typeRootItem 0 = Some (buildRootItemBytes dirID b).
Proof using. intros Hin. apply elem_of_list_to_map_1; [|done]. apply (bool_decide_unpack _). vm_compute. reflexivity. Qed.

Lemma resolve_image : sm_run (resolveRootTree (pure_reader prn) loaded_sb) = Ok (fl_fsLog lay).
Proof using HL Hstart Hlen Hsize Himg.
  destruct (root_items_ok start len size) as (_&Hs&_); try done; [lia|].
  destruct (pool_tree (fl_rootLog lay) (root_items lay)) as (h&Ht&_&_&Hh); [right; by left|done|].
  destruct (layout_u64 start len size) as (_&_&_&_&_&_&U&_); try done; [lia|].
  pose proof (searchTree_spec prn h _ _ _ (Key fsTreeObjID typeRootItem 0) Ht Hh ltac:(vm_compute; intuition congruence)) as Hq.
  rewrite (root_map_lookup fsTreeObjID rootDirObjID (fl_fsLog lay)) in Hq by (do 2 right; by left).
  destruct Hq as (buf&it&E&_&Ed). destruct (root_item_fields rootDirObjID (fl_fsLog lay) U) as [L R].
  unfold resolveRootTree, sm_run in *. change (sb_rootLogAddr loaded_sb) with (fl_rootLog lay). cbn [objID typ offset] in E.
  unfold mbind, SM_bind. destruct (searchTree _ _ _ _ _ tt) as [s r]. cbn [snd] in E. subst r.
  rewrite Ed, L. change (439 <? 0xB0 + 8) with false. cbv match. unfold sm_lift. cbn [snd].
  rewrite get_le_Ok by (rewrite ?L; lia). f_equal. exact R.
Qed.

(** ** The space manager *)
Lemma leaves_sorted a recs : (a, recs) ∈ leaves_at -> keys_sorted recs.
Proof using Hstart Hlen Hsize Huuid Hdev Himg.
  destruct (root_items_ok start len size) as (_&S1&_); try done; [lia|]. destruct (dir_items_ok now) as (_&S2&_).
  destruct (chunk_items_ok start len size uuid devUUID) as (_&S3&_); try done; [lia|]. destruct Himg as (_&S4&_&S5&_).
  unfold image_leaves. rewrite !elem_of_cons, elem_of_nil. intros Ha.
  repeat (destruct Ha as [[= _ ->]|Ha]; [first [done|constructor]|]). done.
Qed.

Lemma device_safe : backend_safe (ReadAt d).
Proof using RWL.
  intros o n Hn. unfold fills. pose proof (ReadAt_safe d o n) as Hs. destruct (ReadAt d o n) as [b| | |] eqn:E; try done.
  by apply (ReadAt_blen d o n b Hn).
Qed.
Lemma pool_is_safe : pool_safe pool.
Proof using RWL. split; [apply device_safe|]. apply map_Forall_insert_2; [apply device_safe|apply map_Forall_empty]. Qed.

Lemma loaded_ok : sb_ok loaded_sb.
Proof using HL RWL Hstart Hlen Hsize Huuid Hdev Himg.
  pose proof (readSuperblock_safe (ReadAt d) 0 device_safe) as Hr. destruct Himg as (_&_&_&_&Er&_). rewrite Er in Hr.
  destruct (loadChunkTree_safe pool 0 pool_is_safe _ Hr) as [Hl _]. by rewrite load_image in Hl.
Qed.
Lemma pool_fills a : safe_with (prn a) (fun buf => nodeHdrSize <= blen buf).
Proof using HL RWL Hstart Hlen Hsize Huuid Hdev Himg.
  apply readNode_fills; [apply loaded_ok|]. intros o n Hn. apply pool_reads_fill; [|done]. apply pool_is_safe.
Qed.

Lemma dir_no_extents : extents_no_wrap loaded_sb (dir_items now).
Proof using. unfold extents_no_wrap, dir_items. by repeat constructor. Qed.

Lemma loaded_phys a : 0x100000 <= a < start + len -> logToPhys loaded_sb a = Ok a.
Proof using Hstart Hlen Hsize.
  intros Ha. destruct (loaded_lookup a Ha) as (m&El&(_&Hi&_)&Hm). unfold logToPhys. rewrite El. cbn [mbind outcome_bind]. rewrite Hi.
  assert (Hid : cm_physStart m = cm_logStart m).
  { unfold lookupChunk in El. destruct (List.find _ _) as [m'|] eqn:Ef; [|done]. injection El as ->. apply find_some in Ef as [Hin _].
    destruct Hin as [<-|[<-|[]]]; done. }
  change (0 <? 0) with false. cbv match. rewrite Hid. rewrite (u64_small (a - cm_logStart m)) by (unfold is_u64; lia).
  replace (cm_logStart m + (a - cm_logStart m)) with a by lia. rewrite u64_small by (unfold is_u64; lia). by rewrite i64_small by lia.
Qed.

Lemma space_image : exists sm, buildSpaceManager prn loaded_sb (fl_fsLog lay) = Ok sm /\ sm_wf sm /\ sm_nodeSize sm = fmtNodeSize /\
  (forall p, is_free sm p -> start <= p < start + len) /\
  (forall a recs, (a, recs) ∈ leaves_at -> taken a fmtNodeSize sm).
Proof using HL RWL Hstart Hlen Hsize Huuid Hdev Himg.
  assert (Ht : forall a recs, (a, recs) ∈ leaves_at -> tree_at prn a recs [a]).
  { intros a recs Ha. apply pool_tree; [done|by eapply leaves_sorted]. }
  destruct (buildSpaceManager_spec prn loaded_sb pool_fills loaded_wf ltac:(vm_compute; split; congruence) (fl_fsLog lay)
    (root_items lay) [fl_rootLog lay] (chunk_items lay size devUUID uuid) [fl_chunkLog lay] (dir_items now) [fl_fsLog lay])
    as (sm&E&Hw&Hf&_&_&_&Hr&Hrr&_).
  - apply NoDup_cons. split; [|apply NoDup_singleton]. intros Hin%list_elem_of_singleton.
    pose proof (f_equal cm_logStart Hin) as He. cbn in He. unfold fmtSysChunkLogical, start_ok in *. lia.
  - intros m. cbn [sb_sysChunks set_sysChunks loaded_sb]. rewrite !elem_of_cons, elem_of_nil. unfold start_ok in Hstart.
    intros [->|[->|[]]]; cbn; unfold fmtSysChunkLogical; lia.
  - apply Ht. right. by left.
  - apply Ht. by left.
  - apply Ht. do 2 right. by left.
  - apply dir_no_extents.
  - exists sm. pose proof (buildSpaceManager_safe prn loaded_sb (fl_fsLog lay) pool_fills) as Hns. rewrite E in Hns.
    split_and!; [done|done|exact Hns| |].
    + intros p Hp. destruct (Hf p Hp) as (m&Hm&Hs&Hin). cbn [sb_sysChunks set_sysChunks loaded_sb] in Hm.
      rewrite !elem_of_cons, elem_of_nil in Hm. destruct Hm as [->|[->|[]]]; [done|]. cbn in Hin. lia.
    + intros a recs Ha. destruct (leaf_addr _ _ Ha) as (A1&_&A2). unfold fmtNodeSize in A2.
      assert (Hph : logToPhys loaded_sb a = Ok a) by (apply loaded_phys; lia).
      assert (Hroot : forall o dirID, (Key o typeRootItem 0, buildRootItemBytes dirID a) ∈ root_items lay -> taken a fmtNodeSize sm).
      { intros o dirID Hin. apply (Hrr _ a recs [a] a Hin); [|by apply Ht|by left|done].
        apply root_bytenr_item; [unfold is_u64; lia|lia]. }
      unfold image_leaves in Ha. rewrite !elem_of_cons, elem_of_nil in Ha. unfold root_items in Hroot.
      repeat (destruct Ha as [Ha|Ha]; [injection Ha as -> _|]); [..|done].
      * apply (Hr (fl_chunkLog lay)); [right; by left|exact Hph].
      * apply (Hr (fl_rootLog lay)); [by left|exact Hph].
      * apply (Hr (fl_fsLog lay)); [do 2 right; by left|exact Hph].
      * eapply Hroot. left.
      * eapply Hroot. right. left.
      * eapply Hroot. do 3 right. left.
      * eapply Hroot. do 4 right. left.
      * eapply Hroot. do 5 right. left.
Qed.

(** ** The state the operations start from *)
Section State.
Context (sm : spaceManager) (Hsm : buildSpaceManager prn loaded_sb (fl_fsLog lay) = Ok sm).

Definition mounted : txState D := TxState (CowState d sm) loaded_sb (fl_fsLog lay) 0.
Definition image_nodes : list Z :=
  [fl_fsLog lay; fl_rootLog lay; fl_extentLog lay; fl_dataRelocLog lay; fl_chunkLog lay; fl_devLog lay; fl_csumLog lay; fl_uuidLog lay].

Lemma space_sm : sm_wf sm /\ sm_nodeSize sm = fmtNodeSize /\ (forall p, is_free sm p -> start <= p < start + len) /\
  (forall a recs, (a, recs) ∈ leaves_at -> taken a fmtNodeSize sm).
Proof using HL RWL Hstart Hlen Hsize Huuid Hdev Himg Hsm. destruct space_image as (sm'&E&H'). rewrite Hsm in E. injection E as ->. exact H'. Qed.

Lemma loaded_mapped p : Store.mapped loaded_sb p <-> 0x100000 <= p < start + len.
Proof using Hstart Hlen.
  unfold start_ok in Hstart. split.
  - intros (m&Hm&Hp). cbn [sb_sysChunks set_sysChunks loaded_sb] in Hm. rewrite !elem_of_cons, elem_of_nil in Hm.
    destruct Hm as [->|[->|[]]]; cbn in Hp; unfold fmtSysChunkLogical in *; lia.
  - intros Hp. destruct (Z_lt_ge_dec p start).
    + exists (sys_mapping lay). split; [by left|apply sys_in; lia].
    + exists (data_mapping lay). split; [right; by left|apply data_in; lia].
Qed.

Lemma loaded_flat : flat_map 0 loaded_sb.
Proof using Hstart Hlen Hsize.
  split; [vm_compute; split; discriminate|]. split; [lia|]. split; [apply loaded_wf|].
  split; repeat constructor; cbn; unfold fmtSysChunkLogical, start_ok in *; lia.
Qed.

Lemma image_node a : a ∈ image_nodes -> exists recs, (a, recs) ∈ leaves_at.
Proof using.
  unfold image_nodes, image_leaves. rewrite !elem_of_cons, elem_of_nil. intros Ha.
  repeat (destruct Ha as [->|Ha]; [eexists; repeat first [apply list_elem_of_here|apply list_elem_of_further]|]). done.
Qed.

Lemma image_nodes_apart a b : a ∈ image_nodes -> b ∈ image_nodes -> a = b \/ a + fmtNodeSize <= b \/ b + fmtNodeSize <= a.
Proof using Hstart.
  unfold image_nodes, layout_at, fmtNodeSize, fmtSysChunkLogical, start_ok in *.
  cbn [fl_chunkLog fl_rootLog fl_fsLog fl_extentLog fl_devLog fl_csumLog fl_uuidLog fl_dataRelocLog].
  rewrite !elem_of_cons, !elem_of_nil. intros Ha Hb. lia.
Qed.
Lemma image_nodes_NoDup : NoDup image_nodes.
Proof using Hstart.
  unfold image_nodes, layout_at, fmtNodeSize, fmtSysChunkLogical, start_ok in *.
  cbn [fl_chunkLog fl_rootLog fl_fsLog fl_extentLog fl_devLog fl_csumLog fl_uuidLog fl_dataRelocLog].
  repeat (apply NoDup_cons; split; [rewrite ?elem_of_cons, elem_of_nil; lia|]). apply NoDup_nil_2.
Qed.

Lemma mounted_Inv : Inv 0 loaded_sb (no_data size) (CowState d sm) image_nodes.
Proof using HL RWL Hstart Hlen Hsize Huuid Hdev Himg Hsm.
  destruct space_sm as (Hw&Hns&Hf&Ht). assert (Hd : Store.dev_size d = size) by apply Himg.
  split; [done|]. split; [done|]. split; [|split; [|split; [apply image_nodes_NoDup|split; [apply image_nodes_apart|split]]]]; cbn [st_dev st_sm].
  - intros p Hp. apply Hf in Hp. rewrite loaded_mapped, Hd. unfold start_ok in Hstart. lia.
  - apply Forall_forall. intros a Ha. destruct (image_node a Ha) as [recs Hr]. destruct (leaf_addr _ _ Hr) as (A1&_&A2).
    change (sb_nodeSize loaded_sb) with fmtNodeSize. unfold block_ok. cbn [st_dev]. rewrite Hd. change (sb_nodeSize loaded_sb) with fmtNodeSize.
    split; [lia|]. split; [intros p Hp; apply loaded_mapped; lia|lia].
  - intros a Ha (p&Hp&Hfree). destruct (image_node a Ha) as [recs Hr]. by apply (Ht _ _ Hr p).
  - split; [done|]. split; [intros p []|]. intros a n Hn Hdt. destruct (Hdt a ltac:(lia)).
Qed.

Abbreviation drn := (rn 0 loaded_sb (CowState d sm)).
Lemma drn_leaf a recs : (a, recs) ∈ leaves_at -> exists buf, drn a = Ok buf /\ leaf_repr buf recs.
Proof using HL Hstart Hlen Hsize Himg.
  intros Ha. destruct (leaf_addr _ _ Ha) as (A1&_&A2). destruct (pool_leaf _ _ Ha) as (buf&E&_&R). exists buf. split; [|done].
  unfold rn, readNodeUncached. destruct (mapped_addr 0 loaded_sb loaded_flat a) as (_&_&_&_&->); [apply loaded_mapped; unfold fmtNodeSize in *; lia|].
  cbn [mbind outcome_bind]. destruct (MakeBytes_cases fmtNodeSize maxNodeSize) as [[Em _]|Em].
  - change (sb_nodeSize loaded_sb) with fmtNodeSize. rewrite Em. cbn [mbind outcome_bind]. by rewrite blen_zeros by (unfold fmtNodeSize; lia).
  - pose proof (MakeBytes_spec fmtNodeSize maxNodeSize) as Hq. rewrite Em in Hq. discriminate Hq.
Qed.
Lemma drn_tree t a recs : (a, recs) ∈ leaves_at -> wtree t drn 0 a recs [a].
Proof using HL Hstart Hlen Hsize Huuid Hdev Himg.
  intros Ha. destruct (drn_leaf _ _ Ha) as (buf&E&R). exists buf. split_and!; [done|done| |done]. by eapply leaves_sorted.
Qed.
Lemma drn_closed a recs : (a, recs) ∈ leaves_at -> closed drn [a].
Proof using HL Hstart Hlen Hsize Himg.
  intros Ha x buf Hx%list_elem_of_singleton E. subst x. destruct (drn_leaf _ _ Ha) as (buf'&E'&R). rewrite E in E'. injection E' as <-.
  intros Hl. exfalso. apply Hl. apply R.
Qed.

Lemma root_item_at o r : root_at (root_items lay) o r ->
  forall dirID b, is_u64 b -> (Key o typeRootItem 0, buildRootItemBytes dirID b) ∈ root_items lay -> r = b.
Proof using.
  intros (x&Ex&_&<-) dirID b Hb Hin. rewrite (root_map_lookup _ _ _ Hin) in Ex. injection Ex as <-. by apply root_item_fields.
Qed.

Lemma dir_leaves_ok a : (a, dir_items now) ∈ leaves_at -> leaves_ok drn [a].
Proof using HL Hstart Hlen Hsize Huuid Hdev Himg.
  intros Ha x buf items it Hx E Hit Hin. apply list_elem_of_singleton in Hx as ->.
  destruct (wtree_scan True drn 0 a (dir_items now) [a] a buf (drn_tree True _ _ Ha) ltac:(by left) E) as [_ Hs].
  specialize (Hs items Hit it Hin). unfold dir_items in Hs. rewrite !elem_of_cons, elem_of_nil in Hs. intros Ht.
  destruct Hs as [[= Ek _]|[[= Ek _]|[]]]; by rewrite Ek in Ht.
Qed.

Lemma mounted_trees : trees loaded_sb drn (drop 1 image_nodes).
Proof using HL Hstart Hlen Hsize Huuid Hdev Himg.
  destruct (layout_u64 start len size) as (_&_&_&_&U1&U2&U3&U4&U5&U6&U7&U8); try done; [lia|].
  assert (Hre : (Key extentTreeObjID typeRootItem 0, buildRootItemBytes 0 (fl_extentLog lay)) ∈ root_items lay) by left.
  assert (Hrf : (Key fsTreeObjID typeRootItem 0, buildRootItemBytes rootDirObjID (fl_fsLog lay)) ∈ root_items lay) by (do 2 right; left).
  assert (Hrd : (Key dataRelocTreeObjID typeRootItem 0, buildRootItemBytes rootDirObjID (fl_dataRelocLog lay)) ∈ root_items lay)
    by (do 5 right; left).
  assert (Hle : (fl_extentLog lay, ext) ∈ leaves_at) by (do 3 right; left).
  assert (Hld : (fl_dataRelocLog lay, dir_items now) ∈ leaves_at) by (do 7 right; left).
  exists 0%nat, (root_items lay), [fl_rootLog lay], [fl_extentLog lay], [fl_dataRelocLog lay],
    [fl_chunkLog lay; fl_devLog lay; fl_csumLog lay; fl_uuidLog lay]. split_and!.
  - reflexivity.
  - apply drn_tree. right. left.
  - done.
  - assert (Hne : forall dirID b, is_u64 b -> buildRootItemBytes dirID b <> []).
    { intros dirID b Hb E. apply (f_equal blen) in E. rewrite (proj1 (root_item_fields _ _ Hb)) in E. discriminate E. }
    unfold root_items. repeat (apply Forall_cons; split; [by apply Hne|]). apply Forall_nil. exact I.
  - exists (fl_fsLog lay), (buildRootItemBytes rootDirObjID (fl_fsLog lay)). destruct (root_item_fields rootDirObjID _ U3) as [L R].
    split_and!; [by apply root_map_lookup|rewrite L; vm_compute; discriminate|done].
  - intros r Hr. rewrite (root_item_at _ _ Hr 0 (fl_extentLog lay)) by done. left.
  - by eapply drn_closed.
  - intros r Hr _. rewrite (root_item_at _ _ Hr rootDirObjID (fl_dataRelocLog lay)) by done. left.
  - by eapply drn_closed.
  - by apply dir_leaves_ok.
  - done.
  - intros p Hp. rewrite loaded_mapped. unfold superblockOffset, sbfSize in Hp. lia.
Qed.
End State.
End Mounted.

(** ** The root directory *)
Abbreviation root_map now := (leaf_map (dir_items now)).
Lemma root_map_items now k x : root_map now !! k = Some x ->
  (k = inodeKey rootDirObjID /\ x = root_dir_inode now) \/ (k = Key rootDirObjID typeInodeRef rootDirObjID /\ x = root_dir_ref).
Proof.
  intros E. apply elem_of_list_to_map_2 in E. unfold dir_items in E.
  rewrite !elem_of_cons, elem_of_nil in E. destruct E as [[= -> ->]|[[= -> ->]|[]]]; [by left|by right].
Qed.
Lemma root_map_wf now : fs_wf (root_map now).
Proof.
  split.
  - intros ino x E. apply root_map_items in E as [[_ ->]|[[=] _]]. by rewrite (proj1 (root_dir_fields now)).
  - intros k x E Ht. by apply root_map_items in E as [[-> _]|[-> _]].
  - intros k x E Ht. apply root_map_items in E as [[-> _]|[-> _]]; [|done]. cbn. unfold rootDirObjID. lia.
  - intros k x E Ht. by apply root_map_items in E as [[-> _]|[-> _]].
  - intros k x E Ht. exists (root_dir_inode now). by apply root_map_items in E as [[-> _]|[-> _]].
Qed.
Lemma root_map_resolves now : resolves (root_map now) [slash] (InodeItem rootDirObjID 0x41ED 0 1).
Proof.
  split; [reflexivity|]. exists (root_dir_inode now). split; [reflexivity|]. destruct (root_dir_fields now) as (L&R1&R2&R3).
  unfold decode_inode. rewrite L. change (inodeItemSize <? inodeItemSize) with false. cbv match.
  rewrite (get_le_Ok 8 _ inodeOffSize), (get_le_Ok 4 _ inodeOffNLink), (get_le_Ok 4 _ inodeOffMode) by (rewrite ?L; vm_compute; congruence).
  cbn [mbind outcome_bind]. by rewrite R1, R2, R3.
Qed.
Lemma root_map_empty now name r : ~ dir_entry (root_map now) rootDirObjID name r.
Proof.
  intros [(x&Ex&_)|[_ (l&[_ Hl]&El)]]; [by apply root_map_items in Ex as [[[=] _]|[[=] _]]|].
  destruct l as [|[k x] l]; [done|]. destruct (proj1 (Hl k x) ltac:(by left)) as (Ek&_&Ht).
  by apply root_map_items in Ek as [[-> _]|[-> _]].
Qed.

(** The root directory, read from a leaf of the device that holds nothing else. *)
Lemma root_dir_runs `{HL : SafeIOLaws} {D : Type} `{RWL : RWLaws D} partOff (w : txState D) now :
  wtree True (rn partOff (tx_sb w) (tx_cow w)) 0 (tx_root w) (dir_items now) [tx_root w] ->
  Stat partOff [slash] w = (w, Ok (0x41ED, 0, rootDirObjID)) /\ ListDir partOff [slash] w = (w, Ok []).
Proof.
  intros Hw. pose proof (wtree_subtree _ _ _ _ _ _ Hw) as Hs. set (sb := tx_sb w) in *. set (s := tx_cow w) in *. set (a := tx_root w) in *.
  assert (Hlike : ReaderLike (fun s' => s' = s) (node_read partOff sb) (rn partOff sb s)) by (intros x s' ->; done).
  assert (Hdepth : Z.of_nat 0 <= maxBtreeDepth) by (vm_compute; discriminate).
  assert (Hin : readInode (node_read partOff sb) a rootDirObjID s = (s, Ok (InodeItem rootDirObjID 0x41ED 0 1))).
  { destruct (root_map_resolves now) as (_&d&Ed&Hd). cbn [in_num] in Ed, Hd. pose proof (searchTree_spec _ _ _ _ _ (inodeKey rootDirObjID) Hs Hdepth ltac:(vm_compute; intuition congruence)) as Hq.
    rewrite Ed in Hq. destruct Hq as (buf&it&Er&_&Ei). destruct (searchTree_loop_like (fun s' => s' = s) (node_read partOff sb) (rn partOff sb s)
      depth_fuel visit_empty a (-1) 0 rootDirObjID typeInodeItem 0 s eq_refl) as [E2 E1].
    pose proof (eq_trans E2 Er) as E3. unfold readInode, searchTree, mbind, SM_bind.
    destruct (searchTree_loop _ _ _ _ _ _ _ _ _ s) as [s1 r]. cbn [fst snd] in E1, E3. subst s1 r.
    unfold sm_lift. by rewrite Ei, Hd. }
  assert (Hp : fs_path partOff [slash] w = (w, Ok (InodeItem rootDirObjID 0x41ED 0 1))).
  { unfold fs_path. rewrite (sm_bind_Ok _ _ _ w a) by done. unfold tx_lift. fold sb s. unfold pathLookup.
    replace (bool_decide (path_Clean [slash] = [slash])) with true by (vm_compute; reflexivity). cbn [orb]. rewrite Hin. by destruct w. }
  assert (Hr : fs_readDir partOff rootDirObjID w = (w, Ok [])).
  { unfold fs_readDir. rewrite (sm_bind_Ok _ _ _ w a) by done. unfold tx_lift. fold sb s. unfold readDir, mbind, SM_bind, sm_try.
    destruct (collectPrefixItems_like (fun s' => s' = s) (node_read partOff sb) (rn partOff sb s) a rootDirObjID typeDirIndex s eq_refl) as [E2 E1].
    rewrite (collectPrefixItems_spec _ 0 a (dir_items now) [a] rootDirObjID typeDirIndex Hs Hdepth (NoDup_singleton _) ltac:(vm_compute; discriminate)
      ltac:(vm_compute; split; congruence)) in E2.
    change (List.filter _ (dir_items now)) with (@nil rec) in E2. cbv match in E2.
    destruct (collectPrefixItems _ _ _ _ s) as [s1 r]. cbn [fst snd] in E1, E2. subst s1 r. by destruct w. }
  unfold Stat, ListDir. rewrite !(sm_bind_Ok _ _ _ _ _ Hp). split; [done|]. cbn [in_num]. exact Hr.
Qed.

(** What the mount of a formatted image is, whatever the size of the device: its chunks, its
    free space, its trees on the device and its root directory. *)
Record formatted `{SafeIO} {D : Type} `{RWLaws D} (start len size : Z) (now : timespec) (d : D) (fs : btrfsFS) : Prop := Formatted {
  fm_chunks : map (fun m => (cm_logStart m, cm_physStart m, cm_size m)) (sb_sysChunks (fs_sb fs)) =
    [(0x100000, 0x100000, start - 0x100000); (start, start, len)];
  fm_free : forall p, is_free (fs_sm fs) p -> start <= p < start + len;
  fm_blocks : Inv 0 (fs_sb fs) (no_data size) (CowState d (fs_sm fs)) (image_nodes start len);
  fm_fs_tree : wtree True (rn 0 (fs_sb fs) (CowState d (fs_sm fs))) 0 (fs_fsTreeRoot fs) (dir_items now) [fs_fsTreeRoot fs];
  fm_trees : trees (fs_sb fs) (rn 0 (fs_sb fs) (CowState d (fs_sm fs))) (drop 1 (image_nodes start len)) }.

Section Ready.
Context `{HL : SafeIOLaws} {D : Type} `{RWL : RWLaws D} `{CK : Clock}.
Context (start len size : Z) (uuid devUUID label' : bytes) (now : timespec).
Context (Hstart : start_ok start) (Hlen : 0x10000 <= len) (Hsize : start + len <= size < 2 ^ 62).
Context (Huuid : blen uuid = 16) (Hdev : blen devUUID = 16).
Context (d : D) (ext dev : list rec) (Himg : image start len size uuid devUUID now d label' ext dev).

(** Opening the image. *)
Lemma open_image_ok `{Gpt} dsize :
  partitionOffset (Device (ReadAt d) dsize) (-1) = Ok 0 ->
  exists fs, OpenFromDevices [Device (ReadAt d) dsize] (-1) = Ok fs /\ fs_partOffset fs = 0 /\
    fs_sb fs = loaded_sb start len size uuid label' /\ formatted start len size now d fs /\
    (size <= maxTreeNodes * fmtNodeSize ->
     ready 0 (no_data size) (TxState (CowState d (fs_sm fs)) (fs_sb fs) (fs_fsTreeRoot fs) 0) 0 (root_map now)).
Proof using HL RWL Hstart Hlen Hsize Huuid Hdev Himg.
  intros Hp. destruct (space_image start len size uuid devUUID label' now Hstart Hlen Hsize Huuid Hdev d ext dev Himg) as (sm&Esm&_).
  eexists. split; [|split; [|split; [|split]]].
  - unfold OpenFromDevices. rewrite Hp. cbn [mbind outcome_bind Mount.dev_read add_devices].
    rewrite (proj1 (proj2 (proj2 (proj2 (proj2 Himg))))). cbn [mbind outcome_bind].
    rewrite (load_image start len size uuid devUUID label' now Hstart Hlen Hsize Huuid Hdev d ext dev Himg). cbn [mbind outcome_bind].
    rewrite (resolve_image start len size uuid devUUID label' now Hstart Hlen Hsize d ext dev Himg). cbn [mbind outcome_bind].
    rewrite Esm. reflexivity.
  - reflexivity.
  - reflexivity.
  - destruct (space_sm start len size uuid devUUID label' now Hstart Hlen Hsize Huuid Hdev d ext dev Himg sm Esm) as (_&_&Hfree&_).
    split; cbn [fs_sm fs_sb fs_fsTreeRoot]; [reflexivity|done|by eapply mounted_Inv| |by eapply mounted_trees].
    eapply drn_tree; try done. do 2 right. left.
  - cbn [fs_sm fs_sb fs_fsTreeRoot]. intros Hfit. split.
    + exists (dir_items now), [fl_fsLog (layout_at start len)], (drop 1 (image_nodes start len)). cbn [tx_sb tx_cow tx_root]. split_and!.
      * by apply (loaded_flat start len size).
      * eapply drn_tree; try done. do 2 right. left.
      * reflexivity.
      * by eapply mounted_Inv.
      * by eapply mounted_trees.
      * unfold dir_items. repeat constructor; cbn [snd]; intros E; [|discriminate E].
        apply (f_equal blen) in E. rewrite (proj1 (root_dir_fields now)) in E. discriminate E.
      * done.
    + done.
    + apply root_map_wf.
    + done.
    + unfold superblockOffset, sbfSize, start_ok in *. cbn. lia.
Qed.
End Ready.
