(* ===== verification/FormatCorrect.v ===== *)
(** * Format makes a file system (format.go)

    The laws of the backing file, the sizes [Format] admits, and the theorem that
    composes formatting, mounting and the write operations. *)
From Stdlib Require Import ZArith Lia Strings.Byte.
From stdpp Require Import base option list numbers sorting gmap.
From S2P Require Import Prelude Bytes Alloc Layout SafeIO Chunk MultiDev Node BTree Walk Split Crc32c Cow Store CowCorrect CowExamples.
From S2P Require Import Codec Read FileRead Mount Tx Extent Ops FsTree FsLookup InodeEdit Rebuild FsData ExtentLayout ExtentWrite.
From S2P Require Import CommitCorrect InodeOps Entries Paths Create CreateApi Resize Reloc Shrink ResizeCorrect Format FormatItems FormatLeaves FormatMount FormatReady.
Local Open Scope Z_scope.
Local Open Scope btrfs_scope.

(** ** The backing file *)

(** [Truncate] sets the size: what stays is kept, what is new reads as zeros. *)
Class BlockDevLaws (D : Type) `{RWL : RWLaws D} `{BD : BlockDev D} := {
  dev_Truncate_ok d n : 0 <= n < 2 ^ 63 ->
    exists d', dev_Truncate d n = (d', Ok tt) /\ Store.dev_size d' = n /\
      (forall off m, 0 <= off -> 0 <= m -> off + m <= Z.min n (Store.dev_size d) -> ReadAt d' off m = ReadAt d off m) /\
      (forall off m, Store.dev_size d <= off -> 0 <= m -> off + m <= n -> ReadAt d' off m = Ok (zeros m)) }.

(** Zeros where a partition table or its backup would be. *)
Definition blank (r : blockBackend) (n : Z) : Prop :=
  forall off m, 0 <= off -> 0 <= m -> off + m <= 0x10000 \/ (n - 0x4200 <= off /\ off + m <= n) -> r off m = Ok (zeros m).

(** ** The sizes *)
Lemma format_checks_spec sizeBytes : - 2 ^ 63 <= sizeBytes < 2 ^ 63 ->
  format_checks sizeBytes =
    if (sizeBytes mod fmtNodeSize =? 0) && (fmtMinSizeLayout <=? sizeBytes) then Ok tt else Err ErrOther.
Proof.
  intros Hr. unfold format_checks.
  assert (Hm : (Z.rem sizeBytes fmtNodeSize =? 0) = (sizeBytes mod fmtNodeSize =? 0)).
  { apply eq_true_iff_eq. rewrite !Z.eqb_eq. unfold fmtNodeSize. rewrite Z.rem_divide, Z.mod_divide by lia. done. }
  rewrite Hm. destruct (sizeBytes mod fmtNodeSize =? 0) eqn:E; [|done]. cbn [negb andb].
  change fmtMinSize with 1048576. change fmtMinSizeLayout with 1179648.
  destruct (Z.ltb_spec sizeBytes 1048576); [by rewrite (proj2 (Z.leb_gt _ _)) by lia|].
  rewrite (u64_small sizeBytes) by (unfold is_u64; lia).
  destruct (Z.ltb_spec sizeBytes 1179648); [by rewrite (proj2 (Z.leb_gt _ _)) by lia|].
  rewrite (proj2 (Z.leb_le _ _)) by lia.
  destruct (layout_spec sizeBytes) as (start&len&->&_&Hl&_); [change fmtMinSizeLayout with 1179648; lia|].
  unfold layout_at. cbn [fl_dataChunkLen]. unfold fmtDataBlocks, fmtNodeSize. by rewrite (proj2 (Z.ltb_ge _ _)) by lia.
Qed.

Section Format.
Context `{HL : SafeIOLaws} `{GP : Gpt} {D : Type} `{BDL : BlockDevLaws D}.
Context (openFile closeFile : outcome unit) (randUUID randDev randChunk : outcome bytes) (now : timespec) (Size : D -> option Z).

(** What the environment does when nothing goes wrong: the file opens and closes, the
    random source fills its buffers, [Size] answers, and the partition table parser
    finds none where it would be. *)
Record env_ok (cfg : FormatConfig) (uuid devUUID chunkUUID : bytes) : Prop := EnvOk {
  env_open : openFile = Ok tt;
  env_close : closeFile = Ok tt;
  env_uuid : (if bool_decide (cfg_UUID cfg = zeros 16) then randUUID else Ok (cfg_UUID cfg)) = Ok uuid;
  env_dev : randDev = Ok devUUID;
  env_chunk : randChunk = Ok chunkUUID;
  env_uuid_len : blen uuid = 16;
  env_dev_len : blen devUUID = 16;
  env_chunk_len : blen chunkUUID = 16;
  env_size : forall d : D, Size d = Some (Store.dev_size d);
  env_gpt : forall r n, blank r n -> gpt_List r n = GptNoTable }.

Abbreviation run := (Format openFile closeFile randUUID randDev randChunk now Size).

Lemma Format_spec sizeBytes cfg uuid devUUID chunkUUID (d : D) :
  env_ok cfg uuid devUUID chunkUUID -> format_checks sizeBytes = Ok tt -> - 2 ^ 63 <= sizeBytes < 2 ^ 62 -> Store.dev_size d = 0 ->
  exists d' fs, run sizeBytes cfg d = (d', Ok fs) /\ Store.dev_size d' = sizeBytes /\
    fs_partOffset fs = 0 /\ (exists start len label', start_ok start /\ 0x10000 <= len /\ len mod 0x10000 = 0 /\ start + len <= sizeBytes < start + len + 0x10000 /\
      fs_sb fs = loaded_sb start len sizeBytes uuid label' /\ readSuperblock (ReadAt d') 0 = Ok (set_sysChunks (fs_sb fs) (take 1 (sb_sysChunks (fs_sb fs)))) /\
      formatted start len sizeBytes now d' fs) /\
    (sizeBytes <= maxTreeNodes * fmtNodeSize ->
     ready 0 (no_data sizeBytes) (TxState (CowState d' (fs_sm fs)) (fs_sb fs) (fs_fsTreeRoot fs) 0) 0 (root_map now)).
Proof using HL BDL.
  intros [Eo Ec Eu Ed Ek Lu Ld Lk Hsz Hg] Hc Hr H0.
  pose proof Hc as Hc'. rewrite format_checks_spec in Hc' by lia. case_if_in Hc'; [|done]. bool_prop.
  change fmtMinSizeLayout with 1179648 in *.
  destruct (layout_spec sizeBytes) as (start&len&El&Hst&Hl&Hfit&Hmod); [change fmtMinSizeLayout with 1179648; lia|].
  destruct (dev_Truncate_ok d sizeBytes ltac:(lia)) as (d1&E1&S1&_&Z1). rewrite H0 in Z1.
  destruct (format_writes_image start len sizeBytes uuid devUUID chunkUUID (cfg_Label cfg) now Hst Hl ltac:(lia) Lu Ld Lk d1 S1)
    as (ws&d2&label'&ext&dev&Ew&Er&Himg&Hout).
  assert (Hblank : blank (ReadAt d2) sizeBytes).
  { intros off m Ho Hm Hw. rewrite Hout; [apply Z1; unfold start_ok in Hst; lia|done|unfold start_ok in Hst; lia]. }
  destruct (open_image_ok start len sizeBytes uuid devUUID label' now Hst Hl ltac:(lia) Lu Ld d2 ext dev Himg (Size d2)) as (fs&Ef&Hp&Hsb&Hform&Hready).
  { unfold partitionOffset. cbn [Mount.dev_size Mount.dev_read]. change (0 <=? -1) with false. cbv match.
    rewrite Hsz, (proj1 Himg). unfold deviceSize. rewrite (proj2 (Z.ltb_lt 0 sizeBytes)) by lia. by rewrite Hg. }
  assert (Hrs : readSuperblock (ReadAt d2) 0 = Ok (set_sysChunks (fs_sb fs) (take 1 (sb_sysChunks (fs_sb fs))))).
  { rewrite Hsb. destruct Himg as (_&_&_&_&Hx&_). exact Hx. }
  exists d2, fs. split_and!; [|apply Himg|done|by exists start, len, label'|done].
  unfold Format. rewrite Hc, (sm_lift_Ok _ _ _ _ eq_refl), Eo, (sm_lift_Ok _ _ _ _ eq_refl).
  rewrite (sm_bind_Ok _ _ _ d1 tt) by exact E1. rewrite Eu, (sm_lift_Ok _ _ _ _ eq_refl), Ed, (sm_lift_Ok _ _ _ _ eq_refl), Ek, (sm_lift_Ok _ _ _ _ eq_refl).
  rewrite (u64_small sizeBytes) by (unfold is_u64; lia). rewrite El, Ew, (sm_lift_Ok _ _ _ _ eq_refl).
  rewrite (sm_bind_Ok _ _ _ d2 tt) by exact Er. rewrite Ec, (sm_lift_Ok _ _ _ _ eq_refl). unfold open_image. by rewrite Ef.
Qed.
End Format.

(** C3. [Format] makes a file system.  For every admitted size, on an empty file and an
    environment in which nothing fails, [Format] writes the nine blocks, mounts the
    image through [OpenFromDevices] and returns it.  The superblock on the device has the
    UUID and the size asked for and the system chunk; the mounted chunk map is the system
    chunk from 1 MiB and the data chunk behind it, which ends at the size rounded down to
    64 KiB.  On the device are the FS tree, whose only leaf holds the root directory, and
    the other trees; the eight nodes are disjoint, in the chunks and not free, and all free
    space is in the data chunk.  [Stat] of [/] on the result shows mode 0755, size 0 and
    inode 256, and [ListDir] of it nothing.  Up to 4 GiB, the bound of the invariant of the
    write operations, the result is [ready] for them.  A size that is not a
    multiple of 4096 or below 1 MiB + 128 KiB is refused with the file untouched. *)
Theorem Format_mounts `{HL : SafeIOLaws} `{GP : Gpt} {D : Type} `{BDL : BlockDevLaws D} openFile closeFile randUUID randDev randChunk
    (now : timespec) Size sizeBytes cfg uuid devUUID chunkUUID (d : D) :
  env_ok openFile closeFile randUUID randDev randChunk Size cfg uuid devUUID chunkUUID -> - 2 ^ 63 <= sizeBytes < 2 ^ 62 -> Store.dev_size d = 0 ->
  if (sizeBytes mod fmtNodeSize =? 0) && (fmtMinSizeLayout <=? sizeBytes) then
    exists d' fs start len, Format openFile closeFile randUUID randDev randChunk now Size sizeBytes cfg d = (d', Ok fs) /\
      let w := TxState (CowState d' (fs_sm fs)) (fs_sb fs) (fs_fsTreeRoot fs) 0 in
      Store.dev_size d' = sizeBytes /\ fs_partOffset fs = 0 /\ sb_uuid (fs_sb fs) = uuid /\ sb_totalBytes (fs_sb fs) = sizeBytes /\
      readSuperblock (ReadAt d') 0 = Ok (set_sysChunks (fs_sb fs) (take 1 (sb_sysChunks (fs_sb fs)))) /\
      start_ok start /\ start < start + len /\ start + len = sizeBytes / 0x10000 * 0x10000 /\ formatted start len sizeBytes now d' fs /\
      Stat 0 [slash] w = (w, Ok (0x41ED, 0, rootDirObjID)) /\ ListDir 0 [slash] w = (w, Ok []) /\
      (sizeBytes <= maxTreeNodes * fmtNodeSize -> ready 0 (no_data sizeBytes) w 0 (root_map now))
  else Format openFile closeFile randUUID randDev randChunk now Size sizeBytes cfg d = (d, Err ErrOther).
Proof.
  intros He Hr Hd0. pose proof (format_checks_spec sizeBytes ltac:(lia)) as Hc. case_if.
  - destruct (Format_spec openFile closeFile randUUID randDev randChunk now Size sizeBytes cfg uuid devUUID chunkUUID d He Hc Hr Hd0)
      as (d'&fs&E&F1&F2&(start&len&label'&Hst&Hl&Hlm&Hfit&F3&F4&F5)&F6).
    assert (Hend : start + len = sizeBytes / 0x10000 * 0x10000).
    { assert (Hm : (start + len) mod 0x10000 = 0) by (rewrite Z.add_mod, Hlm by lia; destruct Hst as [->| ->]; reflexivity).
      apply Z.div_exact in Hm; [|lia]. rewrite Hm, Z.mul_comm. f_equal. apply (Z.div_unique _ _ _ (sizeBytes - (start + len))); lia. }
    destruct (root_dir_runs 0 (TxState (CowState d' (fs_sm fs)) (fs_sb fs) (fs_fsTreeRoot fs) 0) now (fm_fs_tree _ _ _ _ _ _ F5)) as [Es El].
    exists d', fs, start, len. split; [exact E|]. cbv zeta. split_and!; try done; [by rewrite F3|by rewrite F3|lia].
  - unfold Format. by rewrite Hc.
Qed.

(** ** The first file *)

(** A name in the root directory of a new file system. *)
Lemma root_new_name now p name :
  split_dir p = ([slash], name) -> name <> [] -> name <> dot -> blen name < 2 ^ 16 -> new_name (root_map now) p rootDirObjID.
Proof.
  intros Es H1 H2 H3. unfold new_name. rewrite Es. split_and!; try done.
  - exists (InodeItem rootDirObjID 0x41ED 0 1). split; [apply root_map_resolves|done].
  - apply root_map_empty.
  - destruct (root_map now !! _) as [x|] eqn:E; [|done]. by apply root_map_items in E as [[[=] _]|[[=] _]].
Qed.

(** C2. Formatting, mounting, writing and reading compose.  On a file system of at most 4 GiB
    that [Format] has just made, [WriteFile] of any name in the root directory, when it succeeds, makes
    [ReadFile] of that path return exactly the bytes written, and the result is a file
    system with that file; when it fails, nothing is lost; and it fails to return only
    when no node block is left. *)
Theorem formatted_file_reads_back `{HL : SafeIOLaws} `{HD : DecodersLaws} `{GP : Gpt} {D : Type} `{BDL : BlockDevLaws D} `{CK : Clock}
    openFile closeFile randUUID randDev randChunk (now : timespec) Size sizeBytes cfg uuid devUUID chunkUUID (d : D) (p name data : bytes) (perm dev : Z) :
  env_ok openFile closeFile randUUID randDev randChunk Size cfg uuid devUUID chunkUUID -> (forall n, time_ok (clock_at n)) ->
  sizeBytes mod fmtNodeSize = 0 -> fmtMinSizeLayout <= sizeBytes <= maxTreeNodes * fmtNodeSize -> Store.dev_size d = 0 ->
  split_dir p = ([slash], name) -> name <> [] -> name <> dot -> blen name < 2 ^ 16 -> blen data < 2 ^ 62 -> blen data <= dev < 2 ^ 63 ->
  exists d' fs, Format openFile closeFile randUUID randDev randChunk now Size sizeBytes cfg d = (d', Ok fs) /\
    let w := TxState (CowState d' (fs_sm fs)) (fs_sb fs) (fs_fsTreeRoot fs) 0 in
    match writeFile (fs_partOffset fs) p data perm w with
    | (w', Ok _) => ReadFile (fs_partOffset fs) dev p w' = (w', Ok data) /\
        holds (fs_partOffset fs) (no_data sizeBytes) w (root_map now) p rootDirObjID (new_mode 0x8000 perm) (Some data) w'
    | (w', Err _) => nothing_lost (fs_partOffset fs) (no_data sizeBytes) w (root_map now) rootDirObjID w'
    | (w', Panic) => full (tx_cow w')
    | (_, NoFuel) => False
    end.
Proof.
  intros He Hclock Hm Hs Hd0 Es Hn1 Hn2 Hn3 Hl Hdev.
  assert (Hb : maxTreeNodes * fmtNodeSize < 2 ^ 62) by (vm_compute; reflexivity).
  assert (Hb' : 0 < fmtMinSizeLayout) by (vm_compute; reflexivity).
  pose proof (format_checks_spec sizeBytes ltac:(lia)) as Hc.
  rewrite (proj2 (Z.eqb_eq _ _) Hm), (proj2 (Z.leb_le _ _) (proj1 Hs)) in Hc. cbn [andb] in Hc.
  destruct (Format_spec openFile closeFile randUUID randDev randChunk now Size sizeBytes cfg uuid devUUID chunkUUID d He Hc ltac:(lia) Hd0)
    as (d'&fs&E&_&Hp&_&Hrdy).
  exists d', fs. split; [exact E|]. rewrite Hp. cbv zeta.
  pose proof (writeFile_spec 0 _ _ _ _ p data perm rootDirObjID dev Hclock (Hrdy ltac:(lia)) (root_new_name now p name Es Hn1 Hn2 Hn3) Hl Hdev) as Hw.
  destruct (writeFile _ _ _ _ _) as [w' [[]|e| |]]; try done. destruct Hw as (Hw1&_&Hw2). by split.
Qed.

(** ** Resizing it *)
Lemma loaded_anchor start len size uuid label' : start_ok start -> 0 < len -> start + len < 2 ^ 64 -> start + len <> size ->
  tailChunkIdxLocked (loaded_sb start len size uuid label') size = Err ErrOther.
Proof.
  intros Hst Hl Hb Hne. unfold tailChunkIdxLocked, loaded_sb, sys_mapping, data_mapping, layout_at, fmtSysChunkLogical. unfold start_ok in Hst.
  cbn [sb_sysChunks set_sysChunks tailChunk_loop tailChunk_step cm_localStripeIdx cm_physStart cm_size fl_sysChunkLogical fl_sysChunkLen
    fl_dataChunkLogical fl_dataChunkLen fst snd].
  unfold tailChunk_step. cbn [cm_localStripeIdx cm_physStart cm_size snd].
  change (0 <? 0) with false. cbv match zeta. rewrite !u64_small by (unfold is_u64; lia).
  rewrite (proj2 (Z.ltb_lt 0 _)) by lia. cbn [snd]. rewrite (proj2 (Z.ltb_lt _ (start + len))) by lia.
  by rewrite (proj2 (Z.eqb_neq _ _)).
Qed.

(** A formatted image whose size is not a multiple of 64 KiB cannot be resized.  [Format]
    admits every multiple of 4096 but rounds the data chunk down to 64 KiB, and [Resize]
    insists on a chunk that ends at the device size: every request for another size is
    refused, with the file system as it was. *)
Theorem formatted_off_grid_not_resizable `{HL : SafeIOLaws} `{GP : Gpt} {D : Type} `{BDL : BlockDevLaws D}
    openFile closeFile randUUID randDev randChunk (now : timespec) Size sizeBytes cfg uuid devUUID chunkUUID (d : D) :
  env_ok openFile closeFile randUUID randDev randChunk Size cfg uuid devUUID chunkUUID ->
  sizeBytes mod fmtNodeSize = 0 -> fmtMinSizeLayout <= sizeBytes < 2 ^ 62 -> sizeBytes mod 0x10000 <> 0 -> Store.dev_size d = 0 ->
  exists d' fs, Format openFile closeFile randUUID randDev randChunk now Size sizeBytes cfg d = (d', Ok fs) /\
    let w := TxState (CowState d' (fs_sm fs)) (fs_sb fs) (fs_fsTreeRoot fs) 0 in
    forall n, n <> sizeBytes -> exists e, Resize (fs_partOffset fs) n w = (w, Err e).
Proof.
  intros He Hm Hs Hgrid Hd0. assert (Hb' : 0 < fmtMinSizeLayout) by (vm_compute; reflexivity).
  pose proof (format_checks_spec sizeBytes ltac:(lia)) as Hc.
  rewrite (proj2 (Z.eqb_eq _ _) Hm), (proj2 (Z.leb_le _ _) (proj1 Hs)) in Hc. cbn [andb] in Hc.
  destruct (Format_spec openFile closeFile randUUID randDev randChunk now Size sizeBytes cfg uuid devUUID chunkUUID d He Hc ltac:(lia) Hd0)
    as (d'&fs&E&_&_&(start&len&label'&Hst&Hl&Hlm&Hfit&Hsb&_)&_).
  exists d', fs. split; [exact E|]. cbv zeta. intros n Hn.
  assert (Hcur : i64 (sb_totalBytes (fs_sb fs)) = sizeBytes) by (rewrite Hsb; cbn; rewrite i64_small; lia).
  apply Resize_no_anchor; cbn [tx_sb]; rewrite Hcur; [|done]. rewrite u64_small by (unfold is_u64; lia). rewrite Hsb.
  assert (Hst' : start mod 0x10000 = 0) by (destruct Hst as [->| ->]; reflexivity).
  assert (start + len <> sizeBytes) by (intros <-; apply Hgrid; rewrite Z.add_mod, Hst', Hlm by lia; reflexivity).
  apply loaded_anchor; try done; lia.
Qed.

(** ** A memory file *)
#[global] Instance memBlockDev : BlockDev bytes := {|
  dev_Truncate d n := if n <? 0 then (d, Err ErrIO) else (take (Z.to_nat n) d ++ zeros (n - blen d), Ok tt);
  dev_Sync d := Ok tt;
|}.

Lemma blen_truncated (d : bytes) n : 0 <= n -> blen (take (Z.to_nat n) d ++ zeros (n - blen d)) = n.
Proof.
  intros Hn. rewrite blen_app. unfold blen, zeros. rewrite length_take, length_replicate. lia.
Qed.
#[global] Instance memBlockDev_laws : BlockDevLaws bytes.
Proof.
  split. intros d n Hn. cbn [dev_Truncate memBlockDev]. rewrite (proj2 (Z.ltb_ge n 0)) by lia.
  pose proof (blen_truncated d n ltac:(lia)) as L. pose proof (blen_nonneg d) as Hd.
  eexists. split; [reflexivity|]. cbn [Store.dev_size memRW_laws ReadAt memRW]. split; [exact L|]. split.
  - intros off m Ho Hm Hb. rewrite !(proj2 (mem_in_true _ _ _)) by lia. f_equal. unfold sub, blen, zeros in *.
    rewrite drop_app, take_app, length_drop, length_take.
    replace (Z.to_nat m - _)%nat with 0%nat by lia. rewrite take_0, app_nil_r, skipn_firstn_comm, take_take. f_equal. lia.
  - intros off m Ho Hm Hb. rewrite (proj2 (mem_in_true _ _ _)) by lia. f_equal. unfold sub, blen, zeros in *.
    rewrite drop_app, drop_ge by (rewrite length_take; lia). cbn [app]. rewrite drop_replicate, take_replicate. f_equal. rewrite length_take. lia.
Qed.

(** A parser that looks for the signature of a boot record. *)
#[local] Instance sigGpt : Gpt := {|
  gpt_ByIndex r n i := GptNoTable;
  gpt_List r n := if bool_decide (r 510 2 = Ok (zeros 2)) then GptNoTable else GptErr;
  LinuxFilesystemGUID := zeros 16;
|}.
#[local] Existing Instance listSafeIO.
#[local] Existing Instance storedDecoders.
#[local] Existing Instance storedDecoders_laws.
#[local] Instance fmtClock : Clock := fun n => (1700000000, 5).

Definition mem_cfg : FormatConfig := MkFormatConfig (zeros 16) [].
Definition mem_uuid (n : Z) : bytes := le_enc 16 n.
Lemma mem_env : env_ok (D := bytes) (Ok tt) (Ok tt) (Ok (mem_uuid 1)) (Ok (mem_uuid 2)) (Ok (mem_uuid 3)) (fun d => Some (blen d)) mem_cfg
  (mem_uuid 1) (mem_uuid 2) (mem_uuid 3).
Proof.
  split; try reflexivity. intros r n Hb. unfold gpt_List, sigGpt. rewrite bool_decide_true; [done|]. apply Hb; lia.
Qed.

Lemma Format_mounts_witness : exists d' fs,
  Format (Ok tt) (Ok tt) (Ok (mem_uuid 1)) (Ok (mem_uuid 2)) (Ok (mem_uuid 3)) (1700000000, 0) (fun d => Some (blen d)) 0x200000 mem_cfg [] = (d', Ok fs) /\
  blen d' = 0x200000 /\ let w := TxState (CowState d' (fs_sm fs)) (fs_sb fs) (fs_fsTreeRoot fs) 0 in
  Stat 0 [slash] w = (w, Ok (0x41ED, 0, rootDirObjID)) /\ ListDir 0 [slash] w = (w, Ok []).
Proof.
  destruct (Format_mounts (D := bytes) (Ok tt) (Ok tt) (Ok (mem_uuid 1)) (Ok (mem_uuid 2)) (Ok (mem_uuid 3)) (1700000000, 0) (fun d => Some (blen d))
    0x200000 mem_cfg (mem_uuid 1) (mem_uuid 2) (mem_uuid 3) [] mem_env ltac:(lia) eq_refl) as (d'&fs&start&len&E&L&_&_&_&_&_&_&_&_&Hs&Hl&_).
  exists d', fs. exact (conj E (conj L (conj Hs Hl))).
Defined.

Definition fmt_name : bytes := [byte_of_Z 97].
Definition fmt_data : bytes := replicate 5 (byte_of_Z 65).
Lemma formatted_file_reads_back_witness : exists d' fs,
  Format (Ok tt) (Ok tt) (Ok (mem_uuid 1)) (Ok (mem_uuid 2)) (Ok (mem_uuid 3)) (1700000000, 0) (fun d => Some (blen d)) 0x200000 mem_cfg [] = (d', Ok fs) /\
  match writeFile (fs_partOffset fs) (slash :: fmt_name) fmt_data 0x1A4 (TxState (CowState d' (fs_sm fs)) (fs_sb fs) (fs_fsTreeRoot fs) 0) with
  | (w', Ok _) => ReadFile (fs_partOffset fs) (2 ^ 40) (slash :: fmt_name) w' = (w', Ok fmt_data)
  | _ => True
  end.
Proof.
  assert (Hclock : forall n, time_ok (clock_at n)) by (intros n; unfold time_ok; cbn; lia).
  assert (Hm : 0x200000 mod fmtNodeSize = 0) by (vm_compute; reflexivity).
  assert (Hs : fmtMinSizeLayout <= 0x200000 <= maxTreeNodes * fmtNodeSize) by (vm_compute; split; discriminate).
  assert (Hl : blen fmt_name = 1 /\ blen fmt_data = 5) by (vm_compute; split; reflexivity).
  destruct (formatted_file_reads_back (D := bytes) (Ok tt) (Ok tt) (Ok (mem_uuid 1)) (Ok (mem_uuid 2)) (Ok (mem_uuid 3)) (1700000000, 0)
    (fun d => Some (blen d)) 0x200000 mem_cfg (mem_uuid 1) (mem_uuid 2) (mem_uuid 3) [] (slash :: fmt_name) fmt_name fmt_data 0x1A4 (2 ^ 40)
    mem_env Hclock Hm Hs eq_refl eq_refl ltac:(discriminate) ltac:(discriminate) ltac:(lia) ltac:(lia) ltac:(lia)) as (d'&fs&E&Hw).
  exists d', fs. split; [exact E|]. cbv zeta in Hw.
  destruct (writeFile _ _ _ _ _) as [w' [u|e| |]]; [exact (proj1 Hw)|exact I..].
Defined.

Lemma formatted_off_grid_not_resizable_witness : exists d' fs,
  Format (Ok tt) (Ok tt) (Ok (mem_uuid 1)) (Ok (mem_uuid 2)) (Ok (mem_uuid 3)) (1700000000, 0) (fun d => Some (blen d)) 0x201000 mem_cfg [] = (d', Ok fs) /\
  exists e, Resize (fs_partOffset fs) 0x400000 (TxState (CowState d' (fs_sm fs)) (fs_sb fs) (fs_fsTreeRoot fs) 0) =
    (TxState (CowState d' (fs_sm fs)) (fs_sb fs) (fs_fsTreeRoot fs) 0, Err e).
Proof.
  assert (Hm : 0x201000 mod fmtNodeSize = 0) by (vm_compute; reflexivity).
  assert (Hs : fmtMinSizeLayout <= 0x201000 < 2 ^ 62) by (vm_compute; split; [discriminate|reflexivity]).
  destruct (formatted_off_grid_not_resizable (D := bytes) (Ok tt) (Ok tt) (Ok (mem_uuid 1)) (Ok (mem_uuid 2)) (Ok (mem_uuid 3)) (1700000000, 0)
    (fun d => Some (blen d)) 0x201000 mem_cfg (mem_uuid 1) (mem_uuid 2) (mem_uuid 3) [] mem_env Hm Hs ltac:(discriminate) eq_refl)
    as (d'&fs&E&Hw).
  exists d', fs. split; [exact E|]. apply Hw. discriminate.
Defined.
